(* ===== verification/_CoqProject ===== *)
-Q . S2P
Prelude.v
BPending.v
FlowInterfaces.v
ChunkBuffer2.v
PacketProto.v
FlowBuffers.v
Net.v
BAvl.v
BAvlMemory.v
BAvlOrder.v
SocksClient.v
UdpGwClient.v
SocksUdpGw.v
FairQueue.v
IpUdp.v
DevicePackets.v
TcpClient.v
DnsNames.v
DnsText.v
DnsHash.v
DnsCache.v
DnsCacheMem.v
DnsCacheSort.v
DnsCacheOk.v
DnsCacheAdd.v
DnsCacheOps.v
DnsCacheFile.v
DnsCacheFileOk.v
DnsCacheReach.v
DnsCacheDisk.v
CacheLock.v
Reactor.v
ReactorOk.v
ReactorLoop.v
ReactorRun.v
Connection.v
ConnectionOk.v
ConnectionRun.v
ConnectionTrace.v
AddrText.v
AddrTextOk.v
AddrText6.v
AddrText6Print.v
