(* ===== verification/Prelude.v ===== *)
(** * Native core of the VPN application

    The application hands the packets of the device to two native programs:
    [tun2socks] (of badvpn, [app/src/main/jni/badvpn]), which turns TCP
    connections and UDP packets read from a TUN device into connections to a
    SOCKS5 server and into packets for a UDP gateway, and [pdnsd]
    ([app/src/main/jni/pdnsd]), a DNS proxy.  Both are C programs that the
    application builds for little-endian Android systems.  This library models
    the parts that carry their logic and proves them correct.

    ** The program

    Everything in [tun2socks] is an event handler in one thread.  Objects are
    connected by interfaces with one outstanding operation; an operation and its
    completion are jobs of a queue that runs before the next event is taken.
    A TCP connection of the device ends in the stack (lwIP) inside the program;
    its data goes through a buffer to a SOCKS client, which first shakes hands
    with the server, and back.  UDP packets are taken from the device as IP
    packets, given a connection of the UDP gateway client, framed, queued fairly
    and sent over one SOCKS connection; answers go the other way.  DNS packets
    may be rewritten to a DNS gateway, which is where [pdnsd] listens.

    ** Files

    - [Prelude]: machine integers, buffers as lists of bytes with [slice] and
      [blit], integers in memory, the monad [M] of handlers (state, emitted calls,
      failed assertions as [None]), the tactics.
    - [BPending] ([base/BPending.c], [structure/SLinkedList_impl.h]): the job
      queue as a doubly linked list in memory, refining a queue of distinct jobs.
    - [FlowInterfaces] ([flow/PacketPassInterface], [PacketRecvInterface],
      [StreamPassInterface], [StreamRecvInterface]): the interfaces, as one state
      machine for those without cancellation and one with cancellation.
    - [ChunkBuffer2] ([structure/ChunkBuffer2.h]): the ring buffer of packets,
      byte by byte, refining a FIFO; the type class [PacketQueue] states what its
      client needs.
    - [PacketProto] ([flow/PacketProtoEncoder.c], [PacketStreamSender.c],
      [PacketProtoDecoder.c]): framing of packets in a stream.
    - [FlowBuffers] ([flow/PacketBuffer.c], [BufferWriter.c], [PacketProtoFlow.c],
      [SinglePacketBuffer.c], [PacketPassConnector.c],
      [flowextra/PacketPassInactivityMonitor.c]): buffers between the
      interfaces, and their composition in a packet flow.
    - [Net] ([misc/byteorder.h], [misc/bsize.h], [system/BAddr.h]): byte order,
      sizes with overflow, addresses and their order.
    - [BAvl], [BAvlMemory], [BAvlOrder] ([structure/BAVL.h]): the balanced search
      tree with its pointers in memory, the memory invariant, and its refinement
      of a sorted list.
    - [SocksClient] ([socksclient/BSocksClient.c]): the SOCKS5 handshake.
    - [UdpGwClient] ([udpgw_client/UdpGwClient.c]): the connections of the UDP
      gateway; [SocksUdpGw] ([tun2socks/SocksUdpGwClient.c]): its connection to
      the server and the reconnection.
    - [FairQueue] ([flow/PacketPassFairQueue.c]): the fair queue with 64-bit times.
    - [IpUdp] ([misc/ipv4_proto.h], [ipv6_proto.h], [udp_proto.h]): headers and
      checksums; [DevicePackets] ([tun2socks/tun2socks.c]): packets read from the
      device and written to it, the DNS gateway.
    - [TcpClient] ([tun2socks/tun2socks.c]: [listener_accept_func], [client_*]):
      the TCP connections, each with the stack and the SOCKS client as an
      environment that does anything the interfaces permit, and all of them
      together with their list and counter.
    - [DnsNames] ([pdnsd/src/dns.c], [helpers.h], [helpers.c]): names in DNS
      messages, their decompression, comparison and compression; [DnsText]
      ([pdnsd/src/helpers.c]): names as text.
    - [DnsHash] ([pdnsd/src/hash.c]): the hash table of names; the type class
      [NameTable] states what the cache needs of it.
    - [DnsCache] ([pdnsd/src/cache.c], [cache.h]): the cache, its entries and the
      list of sets by age; [DnsCacheMem]: when entries and list are well-formed,
      and the operations on entries; [DnsCacheSort]: the merge sort;
      [DnsCacheOk]: the invariant of the cache and purging; [DnsCacheAdd]:
      additions; [DnsCacheOps]: lookups and the other operations;
      [DnsCacheFile]: the file in which the cache is saved; [DnsCacheFileOk]: what
      is written, and that any sequence of bytes can be read;
      [DnsCacheReach]: sequences of operations and the properties;
      [DnsCacheDisk]: what is written to the file is read back.
    - [CacheLock] ([pdnsd/src/cache.c]: [lock_cache_r] and others): the lock of
      the cache, with any number of threads.
    - [Reactor] ([system/BReactor_badvpn.c], [system/BTime.h]): the event loop,
      with timers, file descriptors and limits; [ReactorOk]: its invariants and
      the single operations; [ReactorLoop]: waiting, the operations of clients
      and the rounds; [ReactorRun]: runs and the properties.
    - [Connection] ([system/BConnection_unix.c]): sockets as objects of the event
      loop, a connector and a connection; [ConnectionOk]: what the handlers do;
      [ConnectionRun]: the objects together, with others around them;
      [ConnectionTrace]: runs and the properties.
    - [AddrText] ([misc/parse_number.h], [misc/ipaddr.h], [misc/ipaddr6.h]):
      numbers and addresses as text, of the arguments of [tun2socks];
      [AddrTextOk]: numbers and IPv4; [AddrText6]: the grammar of IPv6 addresses
      and the reader against it; [AddrText6Print]: printing, masks, networks, and
      the properties.

    ** How the models relate to the code

    A C structure is a record with the fields of the source, less pointers to
    handlers; a function is a definition of the same name.  A handler is a
    computation in [M]: calls to connected objects are emitted in program order,
    assertions of the source (also those of debug builds) are assertions of the
    model, and an access outside of memory, to a freed object or in a wrong state
    is a failed assertion too.  Integers keep the width they have in the code
    where it can matter ([u8], [u16], [u32], [u64], [int32]); sizes are those of
    64-bit systems.  Loops that are not structural recursion take fuel; the fuel
    is a function of the input and each theorem shows that it suffices
    ([decompress_name] has the constant 600: at most 255 offsets are followed and
    at most 256 bytes written).  The folding of carries in checksums takes four
    rounds, which covers 32 bits.  What the code cannot decide (results of
    allocations and system calls, how a stream is cut, when events happen, which
    answers the stack gives) is an argument, and theorems quantify over it.

    ** What is proved

    - No assertion fails and no memory is misused, for every order of events:
      [connection_safe], [tunnel_safe], [socks_safe], [device_read_safe],
      [packets_conserved], [operations_conserved], [job_queue_refinement],
      [decompress_exact], [str2rhn_exact], [avl_refines], [cache_consistent],
      [lock_exclusive], [reactor_safe], [socket_safe].
    - Data is carried unchanged: [connection_data], [packets_roundtrip],
      [decoder_exact], [stream_sender_exact], [flow_exact], [chunk_buffer_fifo],
      [queue_exact], [connector_keeps_packet], [gateway_roundtrip],
      [udp_packet_roundtrip], [dns_translation], [netif_output_exact],
      [compression_roundtrip], [text_roundtrip], [cache_roundtrip],
      [disk_roundtrip], [address_roundtrip].
    - Nothing is forgotten: [connection_driven], [link_alive],
      [operations_conserved], [write_out_ends], [lock_drains], [timers_fire],
      [socket_driven].
    - Protocols and formats are met exactly: [socks_dialogue], [ipv4_check_exact],
      [socket_spec], [udp_checksum_rfc], [decompress_exact], [names_well_formed],
      [number_text_exact], [ipv6_text_exact].
    - Tables, order and fairness: [connections_consistent], [connections_lru],
      [compare_order_total], [queue_fair], [calc_blocks_exact], [avl_refines],
      [avl_checked], [hash_table_exact].
    - Events are dispatched in the right order and only to objects that are still
      registered: [dispatch_exact], [removed_silent].
    - The cache keeps its limit and what it must not lose: [purge_bound],
      [local_data_stay], [sort_rrl_sorts].
    - Error behaviour, and where the code does not do what it means to:
      [callbacks_exact] (a buffer leaks), [dns_options_refused],
      [idle_flow_waits], [udp_checksum_rfc] (a checksum of zero),
      [error_event_stale] (an event that is still awaited, the only way in which
      a handler of a connection fails, as [socket_safe] shows).

    ** Not modelled

    The stack, system calls, the TUN device, [epoll], the clock and logging are outside
    of the models: they appear as calls and events.  In the components that use
    them, search trees are ordered maps and linked lists (other than that of the
    job queue) sequences.  Of the cache the reverse
    entries made from local addresses and the deletion by patterns are left
    out; the queries and answers of [pdnsd] and its configuration are not
    modelled.  The parts of badvpn the application does not build (VPN client
    and server, ncd, generators) and the Kotlin and Java code are left out. *)

From Stdlib Require Export ZArith Lia.
From stdpp Require Export base tactics numbers option gmap list.

#[global] Set Default Goal Selector "!".
#[export] Set Warnings "-clear-no-such-hyp".
#[global] Open Scope Z_scope.

(** Comparisons with variables stay as they are under simplification. *)
#[global] Arguments Z.leb : simpl never.
#[global] Arguments Z.ltb : simpl never.
#[global] Arguments Z.geb : simpl never.
#[global] Arguments Z.gtb : simpl never.
#[global] Arguments Z.eqb : simpl never.

(** ** Automation *)

Create HintDb flow.
Create Rewrite HintDb flow_len.

(** Splits every boolean test of the goal and hypotheses into the comparison
    it decides. *)
Ltac zb :=
  repeat match goal with
    | H : (_ && _)%bool = true |- _ => apply andb_true_iff in H; destruct H
    | H : (_ || _)%bool = false |- _ => apply orb_false_iff in H; destruct H
    | H : negb _ = true |- _ => apply negb_true_iff in H
    | H : negb _ = false |- _ => apply negb_false_iff in H
    | H : (_ <? _) = true |- _ => apply Z.ltb_lt in H
    | H : (_ <? _) = false |- _ => apply Z.ltb_ge in H
    | H : (_ <=? _) = true |- _ => apply Z.leb_le in H
    | H : (_ <=? _) = false |- _ => apply Z.leb_gt in H
    | H : (_ =? _) = true |- _ => apply Z.eqb_eq in H
    | H : (_ =? _) = false |- _ => apply Z.eqb_neq in H
    | H : (_ >? _) = true |- _ => rewrite Z.gtb_ltb in H; apply Z.ltb_lt in H
    | H : (_ >? _) = false |- _ => rewrite Z.gtb_ltb in H; apply Z.ltb_ge in H
    | H : (_ >=? _) = true |- _ => rewrite Z.geb_leb in H; apply Z.leb_le in H
    | H : (_ >=? _) = false |- _ => rewrite Z.geb_leb in H; apply Z.leb_gt in H
    end.

(** Case analysis on the first boolean test found in the goal. *)
Ltac case_if :=
  match goal with
  | |- context [if ?b then _ else _] =>
      lazymatch b with context [if _ then _ else _] => fail | _ => idtac end;
      let E := fresh "Hif" in destruct b eqn:E; zb
  end.

(** ** Machine integers *)

Definition UINT8_MAX : Z := 255.
Definition UINT16_MAX : Z := 65535.
Definition UINT32_MAX : Z := 4294967295.
Definition UINT64_MAX : Z := 18446744073709551615.
Definition INT_MAX : Z := 2147483647.
(** [size_t] of the 64-bit ABIs the library is built for. *)
Definition SIZE_MAX : Z := UINT64_MAX.

Definition u8 (x : Z) : Z := x mod 256.
Definition u16 (x : Z) : Z := x mod 65536.
Definition u32 (x : Z) : Z := x mod 4294967296.
Definition u64 (x : Z) : Z := x mod 18446744073709551616.

(** Conversion to [int]. *)
Definition int32 (x : Z) : Z := (x + 2147483648) mod 4294967296 - 2147483648.

Definition is_u8 (x : Z) : Prop := 0 <= x <= UINT8_MAX.
Definition is_u16 (x : Z) : Prop := 0 <= x <= UINT16_MAX.
Definition is_u32 (x : Z) : Prop := 0 <= x <= UINT32_MAX.

Lemma u8_range x : is_u8 (u8 x).
Proof. unfold is_u8, u8, UINT8_MAX. pose proof (Z.mod_pos_bound x 256). lia. Qed.
Lemma u16_range x : is_u16 (u16 x).
Proof. unfold is_u16, u16, UINT16_MAX. pose proof (Z.mod_pos_bound x 65536). lia. Qed.
Lemma u8_small x : is_u8 x → u8 x = x.
Proof. unfold is_u8, u8, UINT8_MAX. intros. apply Z.mod_small. lia. Qed.
Lemma u16_small x : is_u16 x → u16 x = x.
Proof. unfold is_u16, u16, UINT16_MAX. intros. apply Z.mod_small. lia. Qed.
Lemma int32_small x : - INT_MAX - 1 <= x <= INT_MAX → int32 x = x.
Proof. unfold int32, INT_MAX. intros. rewrite Z.mod_small; lia. Qed.
#[export] Hint Resolve u8_range u16_range : flow.

(** ** [misc/balign.h] *)

Definition bdivide_up (a b : Z) : Z :=
  let r := a mod b in
  if 0 <? r then a / b + 1 else a / b.

Lemma bdivide_up_bounds a b : 0 <= a → 0 < b → 0 <= bdivide_up a b ∧ a <= b * bdivide_up a b < a + b.
Proof.
  intros. unfold bdivide_up. pose proof (Z.mod_pos_bound a b). pose proof (Z.div_mod a b).
  pose proof (Z.div_pos a b). case_if; split; try lia; nia.
Qed.

Lemma bdivide_up_mono a a' b : 0 <= a <= a' → 0 < b → bdivide_up a b <= bdivide_up a' b.
Proof.
  intros. pose proof (bdivide_up_bounds a b). pose proof (bdivide_up_bounds a' b). nia.
Qed.

(** ** Buffers

    A buffer is the list of its bytes, a byte an integer between 0 and 255.
    Offsets and lengths are [int]s, as in the source. *)

Definition zlen {A} (l : list A) : Z := Z.of_nat (length l).

Definition bytes (l : list Z) : Prop := Forall is_u8 l.

(** [slice off n l]: the [n] elements read at [l + off]. *)
Definition slice {A} (off n : Z) (l : list A) : list A :=
  take (Z.to_nat n) (drop (Z.to_nat off) l).

(** [blit off d l]: [memcpy(l + off, d, zlen d)]. *)
Definition blit {A} (off : Z) (d l : list A) : list A :=
  take (Z.to_nat off) l ++ d ++ drop (Z.to_nat off + length d) l.

Section Buffers.
Context {A : Type}.
Implicit Types l d : list A.

Lemma zlen_nonneg l : 0 <= zlen l.
Proof. unfold zlen. lia. Qed.

Lemma zlen_nil : zlen (@nil A) = 0.
Proof. done. Qed.

Lemma zlen_cons x l : zlen (x :: l) = 1 + zlen l.
Proof. unfold zlen. simpl length. lia. Qed.

Lemma zlen_app l1 l2 : zlen (l1 ++ l2) = zlen l1 + zlen l2.
Proof. unfold zlen. rewrite length_app. lia. Qed.

Lemma zlen_zero_inv l : zlen l = 0 → l = [].
Proof. destruct l; [done|]. rewrite zlen_cons. pose proof (zlen_nonneg l). lia. Qed.

Lemma zlen_slice off n l :
  0 <= off → 0 <= n → off + n <= zlen l → zlen (slice off n l) = n.
Proof. unfold zlen, slice. intros. rewrite length_take, length_drop. lia. Qed.

Lemma zlen_blit off d l :
  0 <= off → off + zlen d <= zlen l → zlen (blit off d l) = zlen l.
Proof.
  unfold zlen, blit. intros. rewrite !length_app, length_take, length_drop. lia.
Qed.

Lemma slice_zero off l : slice off 0 l = [].
Proof. unfold slice. by rewrite take_0. Qed.

Lemma slice_all l : slice 0 (zlen l) l = l.
Proof. unfold slice, zlen. rewrite drop_0, Nat2Z.id. by apply take_ge. Qed.

Lemma slice_app_l l1 l2 n : 0 <= n <= zlen l1 → slice 0 n (l1 ++ l2) = slice 0 n l1.
Proof.
  unfold slice, zlen. intros. rewrite !drop_0, take_app_le; [done|lia].
Qed.

Lemma slice_app_r l1 l2 off n :
  zlen l1 <= off → slice off n (l1 ++ l2) = slice (off - zlen l1) n l2.
Proof.
  unfold slice, zlen. intros. rewrite drop_app_ge by lia.
  do 2 f_equal. lia.
Qed.

Lemma slice_prefix l1 l2 : slice 0 (zlen l1) (l1 ++ l2) = l1.
Proof. rewrite slice_app_l by (pose proof (zlen_nonneg l1); lia). apply slice_all. Qed.

(** Adjacent reads concatenate. *)
Lemma slice_split off a b l :
  0 <= off → 0 <= a → 0 <= b →
  slice off (a + b) l = slice off a l ++ slice (off + a) b l.
Proof.
  unfold slice. intros.
  replace (Z.to_nat (a + b)) with (Z.to_nat a + Z.to_nat b)%nat by lia.
  rewrite <-take_take_drop, drop_drop. do 3 f_equal. lia.
Qed.

Lemma slice_slice o1 n1 o2 n2 l :
  0 <= o1 → 0 <= o2 → 0 <= n2 → o2 + n2 <= n1 →
  slice o2 n2 (slice o1 n1 l) = slice (o1 + o2) n2 l.
Proof.
  unfold slice. intros.
  rewrite skipn_firstn_comm, take_take, drop_drop. f_equal; [lia|]. f_equal. lia.
Qed.

(** Reading back what was written. *)
Lemma slice_blit_eq off d l :
  0 <= off → off + zlen d <= zlen l → slice off (zlen d) (blit off d l) = d.
Proof.
  unfold slice, blit, zlen. intros.
  rewrite drop_app_ge by (rewrite length_take; lia).
  rewrite length_take, Nat.min_l by lia. rewrite Nat.sub_diag, drop_0.
  rewrite take_app_le by lia. apply take_ge. lia.
Qed.

Lemma slice_blit_len off n d l :
  n = zlen d → 0 <= off → off + zlen d <= zlen l → slice off n (blit off d l) = d.
Proof. intros ->. apply slice_blit_eq. Qed.

(** A write leaves the bytes before it alone. *)
Lemma slice_blit_before off n off' d l :
  0 <= off → 0 <= n → off + n <= off' → off' <= zlen l →
  slice off n (blit off' d l) = slice off n l.
Proof.
  unfold slice, blit, zlen. intros.
  rewrite drop_app_le by (rewrite length_take; lia).
  rewrite take_app_le by (rewrite length_drop, length_take; lia).
  rewrite skipn_firstn_comm, take_take. f_equal. lia.
Qed.

(** A write leaves the bytes after it alone. *)
Lemma slice_blit_after off n off' d l :
  0 <= off' → off' + zlen d <= zlen l → off' + zlen d <= off →
  slice off n (blit off' d l) = slice off n l.
Proof.
  unfold slice, blit, zlen. intros.
  rewrite drop_app_ge by (rewrite length_take; lia).
  rewrite length_take, Nat.min_l by lia.
  rewrite drop_app_ge by lia. rewrite drop_drop. f_equal. f_equal. lia.
Qed.

Lemma slice_blit_inside off n o d l :
  0 <= off → off + zlen d <= zlen l → 0 <= o → 0 <= n → o + n <= zlen d →
  slice (off + o) n (blit off d l) = slice o n d.
Proof.
  intros. rewrite <-(slice_slice off (zlen d) o n) by lia.
  by rewrite slice_blit_eq by lia.
Qed.

(** A write after an offset, as a write that also rewrites what precedes. *)
Lemma blit_widen off k d l :
  0 <= off → 0 <= k → off + k <= zlen l → blit (off + k) d l = blit off (slice off k l ++ d) l.
Proof.
  unfold blit, slice, zlen. intros. rewrite <-app_assoc.
  rewrite Z2Nat.inj_add by lia. rewrite <-take_take_drop, <-!app_assoc.
  do 4 f_equal. rewrite length_app, length_take, length_drop. lia.
Qed.
End Buffers.

Arguments slice : simpl never.
Arguments blit : simpl never.
Arguments zlen : simpl never.

#[export] Hint Rewrite @zlen_app @zlen_cons @zlen_nil : flow_len.
#[export] Hint Resolve zlen_nonneg : flow.

(** Linear arithmetic over lengths of buffers. *)
Ltac zlia :=
  autorewrite with flow_len in *;
  repeat match goal with
    | |- context [zlen ?l] =>
        lazymatch goal with H : 0 <= zlen l |- _ => fail | _ => pose proof (zlen_nonneg l) end
    | _ : context [zlen ?l] |- _ =>
        lazymatch goal with H : 0 <= zlen l |- _ => fail | _ => pose proof (zlen_nonneg l) end
    end; lia.

(** Evaluates the comparisons whose outcome linear arithmetic decides. *)
Ltac zdec :=
  repeat match goal with
    | |- context [?a <? ?b] =>
        first [rewrite (proj2 (Z.ltb_lt a b)) by zlia | rewrite (proj2 (Z.ltb_ge a b)) by zlia]
    | |- context [?a <=? ?b] =>
        first [rewrite (proj2 (Z.leb_le a b)) by zlia | rewrite (proj2 (Z.leb_gt a b)) by zlia]
    | |- context [?a =? ?b] =>
        first [rewrite (proj2 (Z.eqb_eq a b)) by zlia | rewrite (proj2 (Z.eqb_neq a b)) by zlia]
    | |- context [?a >? ?b] => rewrite (Z.gtb_ltb a b)
    | |- context [?a >=? ?b] => rewrite (Z.geb_leb a b)
    end; cbn [andb orb negb].

Lemma bytes_app l1 l2 : bytes (l1 ++ l2) ↔ bytes l1 ∧ bytes l2.
Proof. apply Forall_app. Qed.
Lemma bytes_slice off n l : bytes l → bytes (slice off n l).
Proof. intros. unfold bytes, slice. by apply Forall_take, Forall_drop. Qed.
Lemma bytes_blit off d l : bytes d → bytes l → bytes (blit off d l).
Proof.
  intros. unfold bytes, blit.
  rewrite !Forall_app. auto using Forall_take, Forall_drop.
Qed.
#[export] Hint Resolve bytes_slice bytes_blit : flow.

(** ** Integers in memory

    The library is built with [BADVPN_LITTLE_ENDIAN]: an integer object is
    the list of its bytes, least significant first. *)

Fixpoint le_bytes (n : nat) (v : Z) : list Z :=
  match n with
  | O => []
  | S n' => v mod 256 :: le_bytes n' (v / 256)
  end.

Fixpoint of_le (l : list Z) : Z :=
  match l with
  | [] => 0
  | b :: l' => b + 256 * of_le l'
  end.

Lemma length_le_bytes n v : length (le_bytes n v) = n.
Proof. revert v; induction n; intros; simpl; auto. Qed.

Lemma zlen_le_bytes n v : zlen (le_bytes n v) = Z.of_nat n.
Proof. unfold zlen. by rewrite length_le_bytes. Qed.
#[export] Hint Rewrite zlen_le_bytes : flow_len.

Lemma bytes_le_bytes n v : bytes (le_bytes n v).
Proof.
  revert v; induction n; intros; simpl; constructor; [|apply IHn].
  apply u8_range.
Qed.
#[export] Hint Resolve bytes_le_bytes : flow.

Lemma of_le_le_bytes n v : of_le (le_bytes n v) = v mod 256 ^ Z.of_nat n.
Proof.
  revert v; induction n as [|n IH]; intros v; simpl of_le.
  - by rewrite Z.mod_1_r.
  - rewrite IH. replace (Z.of_nat (S n)) with (1 + Z.of_nat n) by lia.
    rewrite Z.pow_add_r, Z.pow_1_r by lia.
    rewrite Z.rem_mul_r; [lia|lia|]. apply Z.pow_pos_nonneg; lia.
Qed.

Lemma le_bytes_of_le l : bytes l → le_bytes (length l) (of_le l) = l.
Proof.
  unfold bytes, is_u8, UINT8_MAX. induction 1 as [|b l Hb _ IH]; simpl; [done|].
  rewrite (Z.mul_comm 256), Z.mod_add, Z.mod_small by lia.
  rewrite Z.div_add, Z.div_small, Z.add_0_l by lia. by rewrite IH.
Qed.

Lemma of_le_range l : bytes l → 0 <= of_le l < 256 ^ zlen l.
Proof.
  induction l as [|b l IH]; simpl; [unfold zlen; simpl; lia|].
  inversion 1 as [|? ? Hb Hl]; subst. specialize (IH Hl).
  rewrite zlen_cons, Z.pow_add_r, Z.pow_1_r by (auto with flow; lia).
  unfold is_u8, UINT8_MAX in Hb. lia.
Qed.

#[global] Arguments le_bytes : simpl never.
#[global] Arguments of_le : simpl never.

(** ** Handlers

    A handler of an event-driven object runs in the state of the object,
    emits calls to the objects it is connected to (its effects, in program
    order) and returns.  [None] is a failed [ASSERT]. *)

Definition M (S E A : Type) : Type := S → option (A * S * list E).

#[export] Instance M_ret {S E} : MRet (M S E) := λ A a s, Some (a, s, []).
#[export] Instance M_bind {S E} : MBind (M S E) := λ A B k m s,
  match m s with
  | None => None
  | Some (a, s', t) =>
      match k a s' with
      | None => None
      | Some (b, s'', t') => Some (b, s'', t ++ t')
      end
  end.

Definition get {S E} : M S E S := λ s, Some (s, s, []).
Definition put {S E} (s' : S) : M S E unit := λ _, Some (tt, s', []).
Definition modify {S E} (f : S → S) : M S E unit := λ s, Some (tt, f s, []).
Definition emit {S E} (e : E) : M S E unit := λ s, Some (tt, s, [e]).
(** A step that passes no assertion, as a handler. *)
Definition calls {S E} (f : S → S * list E) : M S E unit :=
  λ s, let '(s', t) := f s in Some (tt, s', t).
Definition ASSERT {S E} (b : bool) : M S E unit :=
  λ s, if b then Some (tt, s, []) else None.
Definition when {S E} (b : bool) (m : M S E unit) : M S E unit :=
  if b then m else mret tt.

(** [runs m s Q]: started in [s], [m] passes all its assertions and its
    result, final state and effects satisfy [Q]. *)
Definition runs {S E A} (m : M S E A) (s : S) (Q : A → S → list E → Prop) : Prop :=
  match m s with
  | None => False
  | Some (a, s', t) => Q a s' t
  end.

Section Runs.
Context {S E A B : Type}.

Lemma runs_ret (a : A) (s : S) (Q : A → S → list E → Prop) :
  Q a s [] → runs (mret a) s Q.
Proof. done. Qed.

Lemma runs_bind (m : M S E A) (k : A → M S E B) s Q :
  runs m s (λ a s' t, runs (k a) s' (λ b s'' t', Q b s'' (t ++ t'))) →
  runs (m ≫= k) s Q.
Proof.
  unfold runs, mbind, M_bind. destruct (m s) as [[[a s'] t]|]; [|done].
  by destruct (k a s') as [[[b s''] t']|].
Qed.

Lemma runs_mono (m : M S E A) s (Q Q' : A → S → list E → Prop) :
  runs m s Q → (∀ a s' t, Q a s' t → Q' a s' t) → runs m s Q'.
Proof. unfold runs. destruct (m s) as [[[a s'] t]|]; auto. Qed.

Lemma runs_inv (m : M S E A) s Q :
  runs m s Q → ∃ a s' t, m s = Some (a, s', t) ∧ Q a s' t.
Proof. unfold runs. destruct (m s) as [[[a s'] t]|]; naive_solver. Qed.

Lemma runs_get (s : S) (Q : S → S → list E → Prop) : Q s s [] → runs get s Q.
Proof. done. Qed.

Lemma runs_modify f (s : S) (Q : unit → S → list E → Prop) :
  Q tt (f s) [] → runs (modify f) s Q.
Proof. done. Qed.

Lemma runs_emit (e : E) (s : S) Q : Q tt s [e] → runs (emit e) s Q.
Proof. done. Qed.

Lemma runs_ASSERT b (s : S) (Q : unit → S → list E → Prop) :
  b = true → Q tt s [] → runs (ASSERT b) s Q.
Proof. by intros ->. Qed.
End Runs.

(** Unfolds the primitives of handlers so that a handler evaluates. *)
Ltac mrun := unfold get, put, modify, emit, calls, ASSERT, when, mbind, M_bind, mret, M_ret; cbn.

(** Symbolic execution of a handler up to the next call or case analysis. *)
Ltac step1 :=
  match goal with
  | |- runs (_ ≫= _) _ _ => apply runs_bind
  | |- runs (mret _) _ _ => apply runs_ret; cbn [app]
  | |- runs get _ _ => apply runs_get
  | |- runs (modify _) _ _ => apply runs_modify
  | |- runs (emit _) _ _ => apply runs_emit
  | |- runs (ASSERT _) _ _ => apply runs_ASSERT
  | |- runs (when ?b _) _ _ => unfold when
  end.
