(* ===== verification/BPending.v ===== *)
(** * Pending jobs ([base/BPending.c])

    The job queue every object of the program schedules its callbacks with:
    an intrusive doubly linked list without a tail pointer
    ([structure/SLinkedList_impl.h] instantiated by [base/BPending_list.h],
    [FEATURE_LAST = 0]) in which an entry that is not queued points to
    itself.

    [BPending.mem] is the memory the list lives in.  Every operation of the
    source is an operation on it that fails ([None]) when it follows a null
    or dangling pointer.  [JobQueue] is what the rest of the program relies
    on: a sequence of distinct jobs, executed from the front. *)

From S2P Require Import Prelude.

(** ** The contract *)
Module JobQueue.
Section Spec.
Context {P : Type} `{EqDecision P}.

(** The front of the list is the next job to run. *)
Definition remove (o : P) (l : list P) : list P := filter (λ x, x ≠ o) l.
Definition set (o : P) (l : list P) : list P := o :: remove o l.
Definition unset (o : P) (l : list P) : list P := remove o l.
Definition is_set (o : P) (l : list P) : bool := bool_decide (o ∈ l).
Definition execute (l : list P) : option (P * list P) :=
  match l with [] => None | o :: l' => Some (o, l') end.

Lemma elem_of_remove x o l : x ∈ remove o l ↔ x ≠ o ∧ x ∈ l.
Proof. unfold remove. by rewrite list_elem_of_filter. Qed.

Lemma remove_id o l : o ∉ l → remove o l = l.
Proof.
  intros H. unfold remove. induction l as [|x l IH]; [done|].
  apply not_elem_of_cons in H as [Hx Hl].
  rewrite filter_cons_True by congruence. by rewrite IH.
Qed.

Lemma remove_app o l1 l2 : remove o (l1 ++ l2) = remove o l1 ++ remove o l2.
Proof. unfold remove. by rewrite filter_app. Qed.

Lemma remove_cons_eq o l : remove o (o :: l) = remove o l.
Proof. unfold remove. by rewrite filter_cons_False by naive_solver. Qed.

Lemma NoDup_remove o l : NoDup l → NoDup (remove o l).
Proof. apply NoDup_filter. Qed.

Lemma NoDup_set o l : NoDup l → NoDup (set o l).
Proof.
  intros Hl. constructor; [|by apply NoDup_remove].
  rewrite elem_of_remove. naive_solver.
Qed.
End Spec.
End JobQueue.

#[export] Hint Resolve JobQueue.NoDup_remove JobQueue.NoDup_set : flow.

(** ** The implementation *)
Module BPending.
Abbreviation ptr := positive.

Section Impl.
(** A job's handler together with its argument. *)
Context {J : Type}.

Record BSmallPending := mkPending {
  handler : J;
  pending_prev : option ptr;
  pending_next : option ptr
}.

Definition with_prev (q : option ptr) (n : BSmallPending) : BSmallPending :=
  mkPending (handler n) q (pending_next n).
Definition with_next (q : option ptr) (n : BSmallPending) : BSmallPending :=
  mkPending (handler n) (pending_prev n) q.

Record mem := mkMem {
  entries : gmap ptr BSmallPending;
  jobs_first : option ptr
}.

Definition load (m : mem) (o : ptr) : option BSmallPending := entries m !! o.
Definition store (m : mem) (o : ptr) (f : BSmallPending → BSmallPending) : option mem :=
  n ← load m o; Some (mkMem (<[o := f n]> (entries m)) (jobs_first m)).
Definition set_first (m : mem) (q : option ptr) : mem := mkMem (entries m) q.

(** [SLinkedList], without the tail pointer. *)
Definition SLinkedList_Init (m : mem) : mem := set_first m None.

Definition SLinkedList_Prepend (m : mem) (entry : ptr) : option mem :=
  m ← store m entry (with_prev None);
  m ← store m entry (with_next (jobs_first m));
  m ← match jobs_first m with
      | Some f => store m f (with_prev (Some entry))
      | None => Some m
      end;
  Some (set_first m (Some entry)).

Definition SLinkedList_Remove (m : mem) (entry : ptr) : option mem :=
  e ← load m entry;
  m ← match pending_prev e with
      | Some p => store m p (with_next (pending_next e))
      | None => Some (set_first m (pending_next e))
      end;
  match pending_next e with
  | Some q => store m q (with_prev (pending_prev e))
  | None => Some m
  end.

Definition SLinkedList_First (m : mem) : option ptr := jobs_first m.
Definition SLinkedList_IsEmpty (m : mem) : bool := bool_decide (jobs_first m = None).

Definition BPendingGroup_Init (m : mem) : mem := SLinkedList_Init m.
Definition BPendingGroup_HasJobs (m : mem) : bool := negb (SLinkedList_IsEmpty m).
Definition BPendingGroup_PeekJob (m : mem) : option ptr := SLinkedList_First m.

(** Returns the entry taken off the list and the handler to call. *)
Definition BPendingGroup_ExecuteJob (m : mem) : option (ptr * J * mem) :=
  p ← SLinkedList_First m;
  m ← SLinkedList_Remove m p;
  m ← store m p (with_next (Some p));
  n ← load m p;
  Some (p, handler n, m).

(** [o] is storage that holds no entry of the group yet. *)
Definition BSmallPending_Init (m : mem) (o : ptr) (h : J) : mem :=
  mkMem (<[o := mkPending h None (Some o)]> (entries m)) (jobs_first m).

Definition BSmallPending_SetHandler (m : mem) (o : ptr) (h : J) : option mem :=
  store m o (λ n, mkPending h (pending_prev n) (pending_next n)).

Definition BSmallPending_IsSet (m : mem) (o : ptr) : option bool :=
  n ← load m o; Some (bool_decide (pending_next n ≠ Some o)).

(** The storage of [o] is released to its owner. *)
Definition BSmallPending_Free (m : mem) (o : ptr) : option mem :=
  b ← BSmallPending_IsSet m o;
  m ← (if (b : bool) then SLinkedList_Remove m o else Some m);
  Some (mkMem (delete o (entries m)) (jobs_first m)).

Definition BSmallPending_Set (m : mem) (o : ptr) : option mem :=
  b ← BSmallPending_IsSet m o;
  m ← (if (b : bool) then SLinkedList_Remove m o else Some m);
  SLinkedList_Prepend m o.

Definition BSmallPending_Unset (m : mem) (o : ptr) : option mem :=
  b ← BSmallPending_IsSet m o;
  if (b : bool) then
    m ← SLinkedList_Remove m o;
    store m o (with_next (Some o))
  else Some m.

(** [BPending] is a [BSmallPending] that remembers its group; there is one
    group, that of the reactor. *)
Definition BPending_Init := BSmallPending_Init.
Definition BPending_Free := BSmallPending_Free.
Definition BPending_Set := BSmallPending_Set.
Definition BPending_Unset := BSmallPending_Unset.
Definition BPending_IsSet := BSmallPending_IsSet.

(** ** Representation *)

(** The entry at position [i] of the queue [l] carries the right links. *)
Definition linked (es : gmap ptr BSmallPending) (l : list ptr) : Prop :=
  ∀ i o, l !! i = Some o →
    ∃ h, es !! o = Some (mkPending h (match i with O => None | S i' => l !! i' end)
                                     (l !! S i)).

(** [rep m l]: [m] holds exactly the queue [l]; every other entry is
    marked as not queued. *)
Record rep (m : mem) (l : list ptr) : Prop := mkRep {
  rep_nodup : NoDup l;
  rep_first : jobs_first m = l !! 0%nat;
  rep_linked : linked (entries m) l;
  rep_rest : ∀ o n, entries m !! o = Some n → o ∉ l → pending_next n = Some o
}.

Lemma rep_lookup m l o : rep m l → o ∈ l → is_Some (entries m !! o).
Proof.
  intros H [i Hi]%list_elem_of_lookup. destruct (rep_linked _ _ H i o Hi). eauto.
Qed.

(** The self-pointer encoding of "not queued" is exact. *)
Lemma rep_is_set m l o :
  rep m l → is_Some (entries m !! o) →
  BSmallPending_IsSet m o = Some (JobQueue.is_set o l).
Proof.
  intros H [n Hn]. unfold BSmallPending_IsSet, load. rewrite Hn. simpl. f_equal.
  unfold JobQueue.is_set. apply bool_decide_ext. split.
  - intros Hx. destruct (decide (o ∈ l)) as [|Hl]; [done|].
    destruct Hx. by eapply rep_rest.
  - intros [i Hi]%list_elem_of_lookup. destruct (rep_linked _ _ H i o Hi) as [h Hh].
    simplify_eq. simpl. intros Hs. pose proof (NoDup_lookup _ _ _ _ (rep_nodup _ _ H) Hi Hs).
    lia.
Qed.

Lemma store_spec m o n f :
  entries m !! o = Some n → store m o f = Some (mkMem (<[o := f n]> (entries m)) (jobs_first m)).
Proof. intros H. unfold store, load. by rewrite H. Qed.

(** [rep] except that nothing is said of the links of the unqueued [o]:
    the state between [SLinkedList_Remove] and what follows it. *)
Record rep_but (o : ptr) (m : mem) (l : list ptr) : Prop := mkRepBut {
  but_nodup : NoDup l;
  but_notin : o ∉ l;
  but_first : jobs_first m = l !! 0%nat;
  but_linked : linked (entries m) l;
  but_self : is_Some (entries m !! o);
  but_rest : ∀ x n, entries m !! x = Some n → x ∉ l → x ≠ o → pending_next n = Some x
}.

Lemma rep_rep_but m l o : rep m l → o ∉ l → is_Some (entries m !! o) → rep_but o m l.
Proof. intros [] ? ?. constructor; eauto. Qed.

(** Lookups in a list with one element cut out. *)
Lemma lookup_cut (l1 l2 : list ptr) o i :
  (l1 ++ l2) !! i = (l1 ++ o :: l2) !! (if decide (i < length l1)%nat then i else S i).
Proof.
  case_decide.
  - by rewrite !lookup_app_l by lia.
  - rewrite !lookup_app_r by lia. by rewrite Nat.sub_succ_l by lia.
Qed.

(** What [SLinkedList_Remove] does to the entry at [x], its two
    neighbours being [p] and [q]. *)
Definition unlink_entry (p q : option ptr) (x : ptr) (n : BSmallPending) : BSmallPending :=
  let n := if decide (p = Some x) then with_next q n else n in
  if decide (q = Some x) then with_prev p n else n.

Lemma Remove_effect m o h p q :
  entries m !! o = Some (mkPending h p q) →
  (∀ x, p = Some x → is_Some (entries m !! x)) →
  (∀ x, q = Some x → is_Some (entries m !! x)) →
  ∃ m', SLinkedList_Remove m o = Some m' ∧
        jobs_first m' = (match p with Some _ => jobs_first m | None => q end) ∧
        (∀ x, entries m' !! x = unlink_entry p q x <$> entries m !! x).
Proof.
  intros Ho Hp Hq. unfold SLinkedList_Remove, load. rewrite Ho. simpl.
  assert (∃ m1, match p with Some p' => store m p' (with_next q)
                        | None => Some (set_first m q) end = Some m1 ∧
          jobs_first m1 = (match p with Some _ => jobs_first m | None => q end) ∧
          ∀ x, entries m1 !! x = (λ n, if decide (p = Some x) then with_next q n else n)
                                   <$> entries m !! x) as (m1 & -> & Hf & H1).
  { destruct p as [p'|]; [|exists (set_first m q)]; simpl.
    - destruct (Hp p' eq_refl) as [n Hn]. rewrite (store_spec _ _ n) by done.
      eexists. split_and!; [done..|]. intros x. simpl.
      destruct (decide (p' = x)) as [->|E].
      + rewrite lookup_insert_eq, Hn. simpl. by rewrite decide_True.
      + rewrite lookup_insert_ne by done. destruct (entries m !! x); [|done]. simpl.
        by rewrite decide_False by congruence.
    - split_and!; [done..|]. intros x. by destruct (entries m !! x). }
  simpl. destruct q as [q'|]; simpl.
  - destruct (Hq q' eq_refl) as [n Hn].
    rewrite (store_spec _ _ (if decide (p = Some q') then with_next (Some q') n else n))
      by (by rewrite H1, Hn).
    eexists. split_and!; [done..|]. intros x. simpl. unfold unlink_entry.
    destruct (decide (q' = x)) as [->|E].
    + rewrite lookup_insert_eq, Hn. simpl. by rewrite (decide_True (P := Some x = Some x)).
    + rewrite lookup_insert_ne, H1 by done. destruct (entries m !! x); simpl; [|done].
      by rewrite (decide_False (P := Some q' = Some x)) by congruence.
  - exists m1. split_and!; [done..|]. intros x. rewrite H1. unfold unlink_entry.
    destruct (entries m !! x); [|done]. simpl. by repeat case_decide.
Qed.

(** Unlinking position [length l1] gives every remaining entry the links
    of its position in the shortened queue. *)
Lemma unlink_at (l1 : list ptr) o l2 i x hx :
  let L := l1 ++ o :: l2 in let k := length l1 in
  let j := if decide (i < k)%nat then i else S i in
  NoDup L → L !! j = Some x →
  unlink_entry (match k with O => None | S i => L !! i end) (L !! S k) x
    (mkPending hx (match j with O => None | S j' => L !! j' end) (L !! S j)) =
  mkPending hx (match i with O => None | S i' => (l1 ++ l2) !! i' end) ((l1 ++ l2) !! S i).
Proof.
  intros L k j HN Hx.
  assert (Hcut : ∀ i, (l1 ++ l2) !! i = L !! (if decide (i < k)%nat then i else S i))
    by (intros; apply lookup_cut).
  assert (Hj : j = if decide (i < k)%nat then i else S i) by done.
  clearbody L k j.
  assert (Hp : match k with O => None | S i => L !! i end = Some x ↔ k = S j).
  { destruct k as [|k']; [split; [done|lia]|]. split; intros E.
    - f_equal. exact (NoDup_lookup L _ _ x HN E Hx).
    - injection E as E. by rewrite E. }
  assert (Hq : L !! S k = Some x ↔ j = S k).
  { split; [|intros E; by rewrite <-E]. intros E. exact (NoDup_lookup L _ _ x HN Hx E). }
  unfold unlink_entry. rewrite Hcut.
  assert (Hi : match i with O => None | S i' => (l1 ++ l2) !! i' end =
               match i with O => None | S i' => L !! (if decide (i' < k)%nat then i' else S i') end)
    by (destruct i; [done|apply Hcut]).
  rewrite Hi. clear Hi Hcut. destruct (decide (i < k)%nat); subst j.
  - rewrite (decide_False (P := L !! S k = Some x)) by (rewrite Hq; lia).
    case_decide as E; rewrite Hp in E; unfold with_next; simpl; f_equal.
    + destruct i; [done|]. by rewrite decide_True by lia.
    + rewrite decide_False by lia. by subst k.
    + destruct i; [done|]. by rewrite decide_True by lia.
    + by rewrite decide_True by lia.
  - rewrite (decide_False (P := match k with O => None | S i => L !! i end = Some x))
      by (rewrite Hp; lia).
    case_decide as E; rewrite Hq in E; unfold with_prev; simpl; f_equal.
    + assert (i = k) as -> by lia. destruct k; [done|]. by rewrite decide_True by lia.
    + by rewrite decide_False by lia.
    + destruct i; [lia|]. by rewrite decide_False by lia.
    + by rewrite decide_False by lia.
Qed.

Lemma SLinkedList_Remove_rep m l1 o l2 :
  rep m (l1 ++ o :: l2) →
  ∃ m', SLinkedList_Remove m o = Some m' ∧ rep_but o m' (l1 ++ l2) ∧
        (∀ x, handler <$> entries m' !! x = handler <$> entries m !! x).
Proof.
  intros HR. set (L := l1 ++ o :: l2) in *. set (k := length l1).
  assert (Hk : L !! k = Some o).
  { unfold L, k. rewrite lookup_app_r by lia. by rewrite Nat.sub_diag. }
  destruct (rep_linked _ _ HR k o Hk) as [h Ho].
  set (p := match k with O => None | S i => L !! i end) in Ho.
  set (q := L !! S k) in Ho.
  assert (HL : ∀ j x, L !! j = Some x → is_Some (entries m !! x)).
  { intros j x Hx. destruct (rep_linked _ _ HR j x Hx). eauto. }
  destruct (Remove_effect m o h p q Ho) as (m' & Hm' & Hf & He).
  { intros x Hx. unfold p in Hx. destruct k; [done|eauto]. }
  { eauto. }
  exists m'. split; [done|].
  pose proof (rep_nodup _ _ HR) as HN.
  pose proof HN as HN'. unfold L in HN'. rewrite <-Permutation_middle in HN'.
  apply NoDup_cons in HN' as [Hno HN'].
  assert (Hinj : ∀ i j x, L !! i = Some x → L !! j = Some x → i = j).
  { intros i j x Hi Hj. exact (NoDup_lookup L i j x HN Hi Hj). }
  split; [constructor; auto|].
  - rewrite Hf, (rep_first _ _ HR), (lookup_cut _ _ o). unfold p, q.
    destruct k as [|k'] eqn:Ek; fold k in Ek; unfold k in Ek;
      [by rewrite decide_False by lia|rewrite decide_True by lia].
    destruct (L !! k') eqn:E; [done|]. apply lookup_ge_None in E.
    apply lookup_lt_Some in Hk. lia.
  - intros i x Hx. rewrite (lookup_cut _ _ o) in Hx. fold L in Hx.
    destruct (rep_linked _ _ HR _ _ Hx) as [hx Hn].
    exists hx. rewrite He, Hn. simpl. f_equal.
    apply (unlink_at l1 o l2); [done|exact Hx].
  - rewrite He, Ho. by eexists.
  - intros x n Hn Hx Hxo. rewrite He in Hn.
    destruct (entries m !! x) as [n0|] eqn:E; [|done]. simpl in Hn. injection Hn as <-.
    assert (HxL : x ∉ L) by (unfold L; set_solver).
    pose proof (rep_rest _ _ HR x n0 E HxL).
    unfold unlink_entry. repeat case_decide; simpl; auto.
    destruct HxL. unfold p in *. destruct k; [done|]. by eapply list_elem_of_lookup_2.
  - intros x. rewrite He. destruct (entries m !! x) as [n|]; [|done]. simpl.
    unfold unlink_entry. by repeat case_decide.
Qed.

(** Marking the removed entry as not queued restores the representation. *)
Lemma mark_unqueued o m l :
  rep_but o m l →
  ∃ m' n, store m o (with_next (Some o)) = Some m' ∧ entries m !! o = Some n ∧
          entries m' = <[o := with_next (Some o) n]> (entries m) ∧ rep m' l.
Proof.
  intros [HN Hno Hf Hl [n Hn] Hr]. eexists _, n. rewrite (store_spec _ _ n) by done.
  split_and!; [done..|]. constructor; simpl; [done..| |].
  - intros i x Hx. rewrite lookup_insert_ne; [by apply Hl|].
    intros ->. apply Hno. by eapply list_elem_of_lookup_2.
  - intros x n'. destruct (decide (o = x)) as [->|].
    + rewrite lookup_insert_eq. by intros [= <-].
    + rewrite lookup_insert_ne by done. eauto.
Qed.

Lemma SLinkedList_Prepend_rep o m l :
  rep_but o m l → ∃ m', SLinkedList_Prepend m o = Some m' ∧ rep m' (o :: l).
Proof.
  intros [HN Hno Hf Hl [n Hn] Hr]. unfold SLinkedList_Prepend.
  rewrite (store_spec _ _ n) by done. simpl.
  rewrite (store_spec _ _ (with_prev None n)) by (simpl; by rewrite lookup_insert_eq).
  simpl. rewrite insert_insert_eq, Hf. set (n' := with_next _ _).
  assert (Hl' : ∀ i x, l !! i = Some x → o ≠ x).
  { intros i x Hx ->. apply Hno. by eapply list_elem_of_lookup_2. }
  destruct l as [|f l]; simpl.
  - eexists. split; [done|]. constructor; simpl; auto.
    + repeat constructor. set_solver.
    + intros [|i] x Hx; simplify_eq/=. rewrite lookup_insert_eq. by eexists.
    + intros x nx. destruct (decide (o = x)) as [->|]; [set_solver|].
      rewrite lookup_insert_ne by done. intros. eapply Hr; set_solver.
  - destruct (Hl O f eq_refl) as [hf Hnf]. pose proof (Hl' O f eq_refl).
    rewrite (store_spec _ _ (mkPending hf None (l !! 0%nat)))
      by (simpl; by rewrite lookup_insert_ne).
    simpl. eexists. split; [done|]. constructor; simpl; auto.
    + by constructor.
    + intros [|[|i]] x Hx; simplify_eq/=.
      * rewrite lookup_insert_ne, lookup_insert_eq by done. by eexists.
      * rewrite lookup_insert_eq. by eexists.
      * destruct (Hl (S i) x Hx) as [hx Hnx].
        assert (x ≠ f).
        { intros ->. apply NoDup_cons in HN as [HN _]. apply HN. by eapply list_elem_of_lookup_2. }
        rewrite !lookup_insert_ne; eauto. apply (Hl' (S i)). done.
    + intros x nx Hnx Hx. assert (x ≠ o ∧ x ≠ f) as [] by set_solver.
      rewrite !lookup_insert_ne in Hnx by done. eapply Hr; set_solver.
Qed.

(** Taking an entry off the list, queued or not. *)
Lemma unqueue_rep o m l :
  rep m l → is_Some (entries m !! o) →
  ∃ m', (if JobQueue.is_set o l then SLinkedList_Remove m o else Some m) = Some m' ∧
        rep_but o m' (JobQueue.remove o l) ∧
        (∀ x, handler <$> entries m' !! x = handler <$> entries m !! x).
Proof.
  intros HR Ho. unfold JobQueue.is_set. case_bool_decide as E.
  - apply list_elem_of_split in E as (l1 & l2 & ->).
    pose proof (rep_nodup _ _ HR) as HN. rewrite <-Permutation_middle in HN.
    apply NoDup_cons in HN as [Hno _].
    replace (JobQueue.remove o (l1 ++ o :: l2)) with (l1 ++ l2).
    { by apply SLinkedList_Remove_rep. }
    rewrite JobQueue.remove_app, JobQueue.remove_cons_eq.
    rewrite !JobQueue.remove_id; [done|set_solver..].
  - exists m. split_and!; [done| |done]. rewrite JobQueue.remove_id by done.
    by apply rep_rep_but.
Qed.

(** ** Programs over the queue

    The calls a client makes, and what they mean for the contract: the
    objects that exist with the handler of each, and the queue. *)
Inductive op :=
| OpInit (o : ptr) (h : J)
| OpFree (o : ptr)
| OpSetHandler (o : ptr) (h : J)
| OpSet (o : ptr)
| OpUnset (o : ptr)
| OpIsSet (o : ptr)
| OpExecute.

Inductive answer := ANone | ABool (b : bool) | AJob (o : ptr) (h : J).

Definition impl_step (m : mem) (x : op) : option (mem * answer) :=
  match x with
  | OpInit o h => Some (BPending_Init m o h, ANone)
  | OpFree o => m' ← BPending_Free m o; Some (m', ANone)
  | OpSetHandler o h => m' ← BSmallPending_SetHandler m o h; Some (m', ANone)
  | OpSet o => m' ← BPending_Set m o; Some (m', ANone)
  | OpUnset o => m' ← BPending_Unset m o; Some (m', ANone)
  | OpIsSet o => b ← BPending_IsSet m o; Some (m, ABool b)
  | OpExecute => '(o, h, m') ← BPendingGroup_ExecuteJob m; Some (m', AJob o h)
  end.

Record view := mkView { objects : gmap ptr J; queue : list ptr }.

(** [None]: the call breaks the rules of the interface (an object that
    does not exist, or exists already, or nothing to execute). *)
Definition spec_step (v : view) (x : op) : option (view * answer) :=
  let 'mkView os l := v in
  match x with
  | OpInit o h =>
      match os !! o with
      | None => Some (mkView (<[o := h]> os) l, ANone)
      | Some _ => None
      end
  | OpFree o => _ ← os !! o; Some (mkView (delete o os) (JobQueue.unset o l), ANone)
  | OpSetHandler o h => _ ← os !! o; Some (mkView (<[o := h]> os) l, ANone)
  | OpSet o => _ ← os !! o; Some (mkView os (JobQueue.set o l), ANone)
  | OpUnset o => _ ← os !! o; Some (mkView os (JobQueue.unset o l), ANone)
  | OpIsSet o => _ ← os !! o; Some (v, ABool (JobQueue.is_set o l))
  | OpExecute =>
      '(o, l') ← JobQueue.execute l;
      h ← os !! o;
      Some (mkView os l', AJob o h)
  end.

Fixpoint impl_run (m : mem) (xs : list op) : option (mem * list answer) :=
  match xs with
  | [] => Some (m, [])
  | x :: xs' =>
      '(m, a) ← impl_step m x; '(m, r) ← impl_run m xs'; Some (m, a :: r)
  end.

Fixpoint spec_run (v : view) (xs : list op) : option (view * list answer) :=
  match xs with
  | [] => Some (v, [])
  | x :: xs' =>
      '(v, a) ← spec_step v x; '(v, r) ← spec_run v xs'; Some (v, a :: r)
  end.

Definition models (m : mem) (v : view) : Prop :=
  rep m (queue v) ∧ ∀ o, objects v !! o = handler <$> entries m !! o.

Lemma models_live m v o h :
  models m v → objects v !! o = Some h →
  ∃ n, entries m !! o = Some n ∧ handler n = h.
Proof.
  intros [_ H] Ho. rewrite H in Ho. destruct (entries m !! o); simplify_eq/=; eauto.
Qed.

(** An update of the links of an entry leaves its handler alone. *)
Lemma models_handlers m m' os l l' :
  models m (mkView os l) → rep m' l' →
  (∀ x, handler <$> entries m' !! x = handler <$> entries m !! x) →
  models m' (mkView os l').
Proof. intros [_ H] HR HH. split; [done|]. intros o. simpl. rewrite HH. apply H. Qed.

Definition same_handlers (m m' : mem) : Prop :=
  ∀ x, handler <$> entries m' !! x = handler <$> entries m !! x.

Lemma store_handlers m o f m' :
  store m o f = Some m' → (∀ n, handler (f n) = handler n) → same_handlers m m'.
Proof.
  unfold store, load. intros H Hf x. destruct (entries m !! o) as [n|] eqn:E; simplify_eq/=.
  destruct (decide (o = x)) as [->|].
  - rewrite lookup_insert_eq, E. simpl. by rewrite Hf.
  - by rewrite lookup_insert_ne.
Qed.

#[local] Instance same_handlers_trans : Transitive same_handlers.
Proof. intros m1 m2 m3 H1 H2 x. by rewrite H2. Qed.

Lemma Prepend_handlers m o m' : SLinkedList_Prepend m o = Some m' → same_handlers m m'.
Proof.
  unfold SLinkedList_Prepend. intros H.
  apply bind_Some in H as (m1 & H1 & H). apply bind_Some in H as (m2 & H2 & H).
  apply bind_Some in H as (m3 & H3 & H). injection H as <-.
  apply store_handlers in H1; [|done]. apply store_handlers in H2; [|done].
  transitivity m2; [by transitivity m1|].
  destruct (jobs_first m2); [|by simplify_eq].
  apply store_handlers in H3; [|done]. exact H3.
Qed.

Lemma Set_models m os l o :
  models m (mkView os l) → is_Some (os !! o) →
  ∃ m', BSmallPending_Set m o = Some m' ∧ models m' (mkView os (JobQueue.set o l)).
Proof.
  intros HM [h Ho]. pose proof HM as [HR _]. destruct (models_live _ _ _ _ HM Ho) as (n & Hn & _).
  unfold BSmallPending_Set. rewrite (rep_is_set m l) by eauto. simpl.
  destruct (unqueue_rep o m l HR) as (m1 & -> & HR1 & H1); [eauto|]. simpl.
  destruct (SLinkedList_Prepend_rep o m1 _ HR1) as (m2 & E2 & HR2).
  exists m2. split; [done|]. eapply models_handlers; [done..|].
  intros x. rewrite (Prepend_handlers _ _ _ E2 x). apply H1.
Qed.

Lemma Unset_models m os l o :
  models m (mkView os l) → is_Some (os !! o) →
  ∃ m', BSmallPending_Unset m o = Some m' ∧ models m' (mkView os (JobQueue.unset o l)).
Proof.
  intros HM [h Ho]. pose proof HM as [HR _]. destruct (models_live _ _ _ _ HM Ho) as (n & Hn & _).
  unfold BSmallPending_Unset. rewrite (rep_is_set m l) by eauto. simpl.
  destruct (unqueue_rep o m l HR) as (m1 & E1 & HR1 & H1); [eauto|].
  unfold JobQueue.unset. unfold JobQueue.is_set in *. case_bool_decide as Hin.
  - rewrite E1. simpl. destruct (mark_unqueued _ _ _ HR1) as (m2 & n2 & E2 & _ & _ & HR2).
    exists m2. split; [done|]. eapply models_handlers; [done..|].
    intros x. rewrite (store_handlers _ _ _ _ E2 (λ _, eq_refl) x). apply H1.
  - exists m. split; [done|]. by rewrite JobQueue.remove_id.
Qed.

Lemma Free_models m os l o :
  models m (mkView os l) → is_Some (os !! o) →
  ∃ m', BSmallPending_Free m o = Some m' ∧
        models m' (mkView (delete o os) (JobQueue.unset o l)).
Proof.
  intros HM [h Ho]. pose proof HM as [HR HO].
  destruct (models_live _ _ _ _ HM Ho) as (n & Hn & _).
  unfold BSmallPending_Free. rewrite (rep_is_set m l) by eauto. simpl.
  destruct (unqueue_rep o m l HR) as (m1 & -> & [] & H1); [eauto|]. simpl.
  eexists. split; [done|]. split; [constructor|]; simpl; auto.
  - intros i x Hx. rewrite lookup_delete_ne; [by apply but_linked0|].
    intros ->. apply but_notin0. by eapply list_elem_of_lookup_2.
  - intros x nx. destruct (decide (o = x)) as [->|].
    + by rewrite lookup_delete_eq.
    + rewrite lookup_delete_ne by done. eauto.
  - intros x. destruct (decide (o = x)) as [->|].
    + by rewrite !lookup_delete_eq.
    + rewrite !lookup_delete_ne by done. rewrite H1. apply HO.
Qed.

Lemma Execute_models m os o l :
  models m (mkView os (o :: l)) →
  ∃ m' h, BPendingGroup_ExecuteJob m = Some (o, h, m') ∧ os !! o = Some h ∧
          models m' (mkView os l).
Proof.
  intros HM. pose proof HM as [HR HO]. simpl in *.
  unfold BPendingGroup_ExecuteJob, SLinkedList_First. rewrite (rep_first _ _ HR). simpl.
  destruct (SLinkedList_Remove_rep m [] o l HR) as (m1 & -> & HR1 & H1). simpl.
  destruct (mark_unqueued _ _ _ HR1) as (m2 & n2 & E2 & Hn & Hes & HR2).
  rewrite E2. simpl. unfold load. rewrite Hes, lookup_insert_eq. simpl.
  eexists _, _. split; [done|]. split.
  - rewrite HO, <-H1, Hn. done.
  - eapply models_handlers; [done..|]. intros x.
    rewrite (store_handlers _ _ _ _ E2 (λ _, eq_refl) x). apply H1.
Qed.

Lemma step_models m v x v' a :
  models m v → spec_step v x = Some (v', a) →
  ∃ m', impl_step m x = Some (m', a) ∧ models m' v'.
Proof.
  intros HM. destruct v as [os l]. destruct x as [o h|o|o h|o|o|o|]; simpl.
  - destruct (os !! o) eqn:Ho; [done|]. intros [= <- <-]. eexists. split; [done|].
    destruct HM as [HR HO]. simpl in *. rewrite HO in Ho.
    assert (entries m !! o = None) as Hn by (by destruct (entries m !! o)).
    assert (Hol : o ∉ l) by (intros Hl; destruct (rep_lookup _ _ _ HR Hl); congruence).
    split; [constructor|]; simpl; try apply HR.
    + intros i x Hx. rewrite lookup_insert_ne; [by apply (rep_linked _ _ HR)|].
      intros ->. apply Hol. by eapply list_elem_of_lookup_2.
    + intros x nx. rewrite lookup_insert. case_decide; [intros [= <-]; by subst|].
      apply (rep_rest _ _ HR).
    + intros x. rewrite !lookup_insert. by case_decide.
  - destruct (os !! o) eqn:Ho; [|done]. intros [= <- <-].
    destruct (Free_models _ _ _ o HM) as (m' & E & ?); [eauto|].
    exists m'. unfold BPending_Free. by rewrite E.
  - destruct (os !! o) eqn:Ho; [|done]. intros [= <- <-].
    destruct (models_live _ _ _ _ HM Ho) as (n & Hn & _). unfold BSmallPending_SetHandler.
    rewrite (store_spec _ _ n) by done. simpl. eexists. split; [done|].
    destruct HM as [HR HO]. split; [constructor|]; simpl; try apply HR.
    + intros i x Hx. destruct (rep_linked _ _ HR i x Hx) as [hx Hnx].
      rewrite lookup_insert. case_decide; simplify_eq/=; eauto.
    + intros x nx. rewrite lookup_insert. case_decide; simplify_eq/=; [|apply (rep_rest _ _ HR)].
      intros [= <-] Hx. simpl. eapply (rep_rest _ _ HR); eauto.
    + intros x. rewrite !lookup_insert. by case_decide.
  - destruct (os !! o) eqn:Ho; [|done]. intros [= <- <-].
    destruct (Set_models _ _ _ o HM) as (m' & E & ?); [eauto|].
    exists m'. unfold BPending_Set. by rewrite E.
  - destruct (os !! o) eqn:Ho; [|done]. intros [= <- <-].
    destruct (Unset_models _ _ _ o HM) as (m' & E & ?); [eauto|].
    exists m'. unfold BPending_Unset. by rewrite E.
  - destruct (os !! o) eqn:Ho; [|done]. intros [= <- <-].
    destruct (models_live _ _ _ _ HM Ho) as (n & Hn & _).
    exists m. unfold BPending_IsSet. destruct HM as [HR HO].
    rewrite (rep_is_set m l) by eauto. done.
  - destruct l as [|o l]; simpl; [done|]. destruct (Execute_models _ _ _ _ HM) as (m' & h & E & Ho & ?).
    rewrite Ho, E. simpl. intros [= <- <-]. eauto.
Qed.

Definition empty_mem : mem := mkMem ∅ None.

Lemma models_init : models (BPendingGroup_Init empty_mem) (mkView ∅ []).
Proof.
  split; [constructor|]; simpl; [constructor|done|..].
  - intros i o Ho. by rewrite lookup_nil in Ho.
  - intros o n Hn. by rewrite lookup_empty in Hn.
  - intros o. by rewrite !lookup_empty.
Qed.
End Impl.
Arguments mem : clear implicits.
Arguments view : clear implicits.
Arguments op : clear implicits.
Arguments answer : clear implicits.

(** C22: Every sequence of calls that respects the interface (only existing
    objects are used, a job is executed only when one is queued) runs on
    the linked list in memory without following a null or dangling
    pointer, gives the answers of the abstract queue (the job executed is
    always the most recently scheduled one and is taken off the queue,
    [IsSet] is membership) and leaves a list that again represents the
    abstract queue, in particular without duplicates. *)
Theorem job_queue_refinement {J : Type} (xs : list (op J)) v rs :
  spec_run (mkView ∅ []) xs = Some (v, rs) →
  ∃ m, impl_run (BPendingGroup_Init empty_mem) xs = Some (m, rs) ∧ models m v ∧
       BPendingGroup_PeekJob m = queue v !! 0%nat ∧ NoDup (queue v).
Proof.
  enough (H : ∀ m v0, models m v0 → spec_run v0 xs = Some (v, rs) →
          ∃ m', impl_run m xs = Some (m', rs) ∧ models m' v).
  { intros Hs. destruct (H _ _ models_init Hs) as (m & E & HM). exists m.
    destruct HM as [HR HO]. split_and!; [done|by split|apply HR|apply HR]. }
  revert rs. induction xs as [|x xs IH]; intros rs m v0 HM; simpl.
  - intros [= <- <-]. eauto.
  - intros H. apply bind_Some in H as ([v1 a] & Hx & H).
    apply bind_Some in H as ([v2 r] & Hxs & [= <- <-]).
    destruct (step_models _ _ _ _ _ HM Hx) as (m1 & E1 & HM1). rewrite E1. simpl.
    destruct (IH _ _ _ HM1 Hxs) as (m2 & -> & ?). eauto.
Qed.

Lemma job_queue_refinement_witness :
  ∃ m : mem nat,
    impl_run (BPendingGroup_Init empty_mem)
      [OpInit 1%positive 10%nat; OpInit 2%positive 20%nat; OpInit 3%positive 30%nat;
       OpSet 1%positive; OpSet 2%positive; OpSet 3%positive; OpSet 1%positive;
       OpUnset 3%positive; OpExecute; OpIsSet 2%positive] =
    Some (m, [ANone; ANone; ANone; ANone; ANone; ANone; ANone; ANone;
              AJob 1%positive 10%nat; ABool true]) ∧
    BPendingGroup_PeekJob m = Some 2%positive.
Proof.
  edestruct (job_queue_refinement
      [OpInit 1%positive 10%nat; OpInit 2%positive 20%nat; OpInit 3%positive 30%nat;
       OpSet 1%positive; OpSet 2%positive; OpSet 3%positive; OpSet 1%positive;
       OpUnset 3%positive; OpExecute; OpIsSet 2%positive]) as (m & E & _ & P & _).
  { vm_compute. reflexivity. }
  exists m. split; [exact E|exact P].
Defined.
End BPending.
