(* ===== verification/FlowInterfaces.v ===== *)
(** * Flow interfaces ([flow/PacketPassInterface], [flow/PacketRecvInterface],
      [flow/StreamPassInterface], [flow/StreamRecvInterface])

    The objects of the program exchange packets and bytes through four
    interfaces.  Each is a small state machine with two ends: the user starts
    an operation, the provider is called back to perform it and reports that
    it is done, the user is called back.  Both call-backs go through jobs
    of the pending group ([BPending.JobQueue]).

    An interface object is a state, the jobs of its own that are pending,
    and handlers that run in the state; the effects are the calls of the
    handlers registered at its two ends.  [Iface] is the part shared by the
    three interfaces without cancellation; [PPI] is the interface for
    packets, whose operations can be cancelled. *)

From S2P Require Import Prelude BPending.

Inductive if_state := STATE_NONE | STATE_OPERATION_PENDING | STATE_BUSY | STATE_DONE_PENDING.
#[export] Instance if_state_eq_dec : EqDecision if_state.
Proof. solve_decision. Defined.

(** ** Interfaces for receiving packets and for byte streams *)
Module Iface.
Inductive job := JOperation | JDone.
#[export] Instance job_eq_dec : EqDecision job.
Proof. solve_decision. Defined.

(** What a kind of interface fixes: the argument of an operation, that of
    its completion, and the assertions on both.  [cfg] holds the
    parameters of one object ([mtu], or nothing). *)
Class Kind (C O D : Type) := {
  op_ok : C → O → bool;
  done_ok : C → O → D → bool
}.

Section Obj.
Context {C O D : Type} `{K : Kind C O D}.

Record t := mk {
  cfg : C;
  have_user : bool;                 (* handler_done is set *)
  op_arg : option O;                (* job_operation_data (and _len) *)
  done_arg : option D;              (* job_done_len *)
  st : if_state;
  jobs : list job
}.

Inductive call := CallOperation (o : O) | CallDone (d : D).

Definition set_op (o : O) (i : t) : t :=
  mk (cfg i) (have_user i) (Some o) (done_arg i) STATE_OPERATION_PENDING
     (JobQueue.set JOperation (jobs i)).
Definition set_done (d : D) (i : t) : t :=
  mk (cfg i) (have_user i) (op_arg i) (Some d) STATE_DONE_PENDING
     (JobQueue.set JDone (jobs i)).
Definition set_st (s : if_state) (i : t) : t :=
  mk (cfg i) (have_user i) (op_arg i) (done_arg i) s (jobs i).
Definition set_user (i : t) : t :=
  mk (cfg i) true (op_arg i) (done_arg i) (st i) (jobs i).
Definition set_jobs (l : list job) (i : t) : t :=
  mk (cfg i) (have_user i) (op_arg i) (done_arg i) (st i) l.

Definition Init (c : C) : t := mk c false None None STATE_NONE [].
Definition Free (i : t) : t :=
  set_jobs (JobQueue.unset JOperation (JobQueue.unset JDone (jobs i))) i.

Definition User_Init : M t call unit :=
  i ← get;
  ASSERT (negb (have_user i));;
  modify set_user.

(** [..._Sender_Send], [..._Receiver_Recv] *)
Definition User_Operate (o : O) : M t call unit :=
  i ← get;
  ASSERT (op_ok (cfg i) o);;
  ASSERT (bool_decide (st i = STATE_NONE));;
  ASSERT (have_user i);;
  modify (set_op o).

(** [..._Done] *)
Definition Provider_Done (d : D) : M t call unit :=
  i ← get;
  ASSERT (bool_decide (st i = STATE_BUSY));;
  ASSERT (match op_arg i with Some o => done_ok (cfg i) o d | None => false end);;
  modify (set_done d).

Definition job_operation : M t call unit :=
  i ← get;
  ASSERT (bool_decide (st i = STATE_OPERATION_PENDING));;
  modify (set_st STATE_BUSY);;
  match op_arg i with Some o => emit (CallOperation o) | None => ASSERT false end.

Definition job_done : M t call unit :=
  i ← get;
  ASSERT (bool_decide (st i = STATE_DONE_PENDING));;
  modify (set_st STATE_NONE);;
  match done_arg i with Some d => emit (CallDone d) | None => ASSERT false end.

(** The reactor runs one of the pending jobs. *)
Definition run_job (j : job) : M t call unit :=
  modify (λ i, set_jobs (JobQueue.remove j (jobs i)) i);;
  match j with JOperation => job_operation | JDone => job_done end.

(** ** Correct use

    [world]: an interface object with what its two ends know.  The user
    operates only when no operation of its own is in progress, the
    provider completes only the operation it was called for. *)
Record world := mkW { obj : t; user_idle : bool; provider_op : option O }.

Inductive event := EvOperate (o : O) | EvDone (d : D) | EvJob (j : job).

Definition permitted (w : world) (e : event) : bool :=
  match e with
  | EvOperate o => user_idle w && op_ok (cfg (obj w)) o
  | EvDone d => match provider_op w with
                | Some o => done_ok (cfg (obj w)) o d
                | None => false
                end
  | EvJob j => bool_decide (j ∈ jobs (obj w))
  end.

Definition handler_of (e : event) : M t call unit :=
  match e with
  | EvOperate o => User_Operate o
  | EvDone d => Provider_Done d
  | EvJob j => run_job j
  end.

Definition learn (w : world) (e : event) (i : t) (cs : list call) : world :=
  let w := match e with
           | EvOperate _ => mkW i false (provider_op w)
           | EvDone _ => mkW i (user_idle w) None
           | EvJob _ => mkW i (user_idle w) (provider_op w)
           end in
  match cs with
  | [CallOperation o] => mkW (obj w) (user_idle w) (Some o)
  | [CallDone _] => mkW (obj w) true (provider_op w)
  | _ => w
  end.

(** [None]: an assertion failed. *)
Definition wstep (w : world) (e : event) : option (world * list call) :=
  '(_, i, cs) ← handler_of e (obj w); Some (learn w e i cs, cs).

Fixpoint wrun (w : world) (es : list event) : option (world * list call) :=
  match es with
  | [] => Some (w, [])
  | e :: es' =>
      '(w, cs) ← wstep w e; '(w, cs') ← wrun w es'; Some (w, cs ++ cs')
  end.

Fixpoint respects (w : world) (es : list event) : bool :=
  match es with
  | [] => true
  | e :: es' =>
      permitted w e &&
      match wstep w e with Some (w', _) => respects w' es' | None => true end
  end.

(** The state of the object is what its two ends believe, and exactly the
    job that state calls for is pending. *)
Definition inv (w : world) : Prop :=
  have_user (obj w) = true ∧
  match st (obj w) with
  | STATE_NONE => user_idle w = true ∧ provider_op w = None ∧ jobs (obj w) = []
  | STATE_OPERATION_PENDING =>
      user_idle w = false ∧ provider_op w = None ∧ jobs (obj w) = [JOperation] ∧
      is_Some (op_arg (obj w))
  | STATE_BUSY =>
      user_idle w = false ∧ provider_op w = op_arg (obj w) ∧ is_Some (op_arg (obj w)) ∧
      jobs (obj w) = []
  | STATE_DONE_PENDING =>
      user_idle w = false ∧ provider_op w = None ∧ jobs (obj w) = [JDone] ∧
      is_Some (done_arg (obj w))
  end.

Lemma iface_inv_step w e :
  inv w → permitted w e = true → ∃ w' cs, wstep w e = Some (w', cs) ∧ inv w'.
Proof.
  destruct w as [[c hu oa da s js] idle po].
  intros [Hu Hs] Hp. simpl in *. subst hu.
  destruct e as [o|d|j]; simpl in Hp.
  - apply andb_true_iff in Hp as [-> Ho].
    destruct s; [destruct Hs as (_ & -> & ->)|naive_solver..].
    unfold wstep. simpl. unfold User_Operate, get, ASSERT, modify, mbind, M_bind. simpl.
    rewrite Ho. simpl. eexists _, _. split; [done|]. split; [done|]. simpl. eauto 6.
  - destruct po as [o|]; [|done].
    destruct s; [naive_solver..| |naive_solver]. destruct Hs as (-> & <- & _ & ->).
    unfold wstep. simpl. unfold Provider_Done, get, ASSERT, modify, mbind, M_bind. simpl.
    rewrite Hp. simpl. eexists _, _. split; [done|]. split; [done|]. simpl. eauto 6.
  - apply bool_decide_eq_true in Hp. destruct s.
    + destruct Hs as (_ & _ & ->). set_solver.
    + destruct Hs as (-> & -> & -> & [o ->]). apply list_elem_of_singleton in Hp as ->.
      eexists _, _. split; [done|]. split; [done|]. simpl. eauto 6.
    + destruct Hs as (_ & _ & _ & ->). set_solver.
    + destruct Hs as (-> & -> & -> & [d ->]). apply list_elem_of_singleton in Hp as ->.
      eexists _, _. split; [done|]. split; [done|]. simpl. eauto 6.
Qed.

(** ** Nothing is lost, duplicated or reordered *)
Definition ops_of (es : list event) : list O :=
  omap (λ e, match e with EvOperate o => Some o | _ => None end) es.
Definition dones_of (es : list event) : list D :=
  omap (λ e, match e with EvDone d => Some d | _ => None end) es.
Definition called_ops (cs : list call) : list O :=
  omap (λ c, match c with CallOperation o => Some o | _ => None end) cs.
Definition called_dones (cs : list call) : list D :=
  omap (λ c, match c with CallDone d => Some d | _ => None end) cs.

(** The operation, or the completion, whose call-back is still to come. *)
Definition pending_op (i : t) : list O :=
  if decide (st i = STATE_OPERATION_PENDING) then option_list (op_arg i) else [].
Definition pending_done (i : t) : list D :=
  if decide (st i = STATE_DONE_PENDING) then option_list (done_arg i) else [].

Definition new_op (e : event) : list O :=
  match e with EvOperate o => [o] | _ => [] end.
Definition new_done (e : event) : list D :=
  match e with EvDone d => [d] | _ => [] end.
Definition in_progress (w : world) : nat := if user_idle w then 0 else 1.

(** One step: what is pending, plus what the event adds, is what is
    called back, plus what is pending afterwards. *)
Lemma iface_conserve_step w e w' cs :
  inv w → permitted w e = true → wstep w e = Some (w', cs) →
  pending_op (obj w) ++ new_op e = called_ops cs ++ pending_op (obj w') ∧
  pending_done (obj w) ++ new_done e = called_dones cs ++ pending_done (obj w') ∧
  (length (new_op e) + in_progress w = length (called_dones cs) + in_progress w')%nat.
Proof.
  destruct w as [[c hu oa da s js] idle po].
  intros [Hu Hs] Hp Hw. simpl in *. subst hu. unfold wstep in Hw.
  destruct e as [o|d|j]; simpl in Hp, Hw.
  - apply andb_true_iff in Hp as [-> Ho].
    destruct s; [destruct Hs as (_ & -> & ->)|naive_solver..].
    unfold User_Operate, get, ASSERT, modify, mbind, M_bind in Hw. simpl in Hw.
    rewrite Ho in Hw. simpl in Hw. by simplify_eq.
  - destruct po as [o|]; [|done].
    destruct s; [naive_solver..| |naive_solver]. destruct Hs as (-> & <- & _ & ->).
    unfold Provider_Done, get, ASSERT, modify, mbind, M_bind in Hw. simpl in Hw.
    rewrite Hp in Hw. simpl in Hw. by simplify_eq.
  - apply bool_decide_eq_true in Hp. destruct s.
    + destruct Hs as (_ & _ & ->). set_solver.
    + destruct Hs as (-> & -> & -> & [o ->]). apply list_elem_of_singleton in Hp as ->.
      injection Hw as <- <-. done.
    + destruct Hs as (_ & _ & _ & ->). set_solver.
    + destruct Hs as (-> & -> & -> & [d ->]). apply list_elem_of_singleton in Hp as ->.
      injection Hw as <- <-. done.
Qed.

Definition fresh_world (c : C) : world := mkW (set_user (Init c)) true None.

Lemma iface_run_conserves es : ∀ w,
  inv w → respects w es = true →
  ∃ w' cs, wrun w es = Some (w', cs) ∧ inv w' ∧
    pending_op (obj w) ++ ops_of es = called_ops cs ++ pending_op (obj w') ∧
    pending_done (obj w) ++ dones_of es = called_dones cs ++ pending_done (obj w') ∧
    (length (ops_of es) + in_progress w = length (called_dones cs) + in_progress w')%nat.
Proof.
  induction es as [|e es IH]; intros w Hw; simpl.
  - intros _. eexists _, _. split_and!; try done; by rewrite app_nil_r.
  - intros [Hp Hr]%andb_true_iff. destruct (iface_inv_step w e Hw Hp) as (w1 & c1 & E1 & Hw1).
    rewrite E1 in Hr. destruct (IH w1 Hw1 Hr) as (w2 & c2 & E2 & Hw2 & H1 & H2 & H3).
    destruct (iface_conserve_step w e w1 c1 Hw Hp E1) as (G1 & G2 & G3).
    exists w2, (c1 ++ c2). rewrite E1. simpl. rewrite E2. simpl. split_and!; try done.
    + unfold called_ops in *. rewrite omap_app, <-app_assoc, <-H1, app_assoc, <-G1.
      rewrite <-app_assoc. by destruct e.
    + unfold called_dones in *. rewrite omap_app, <-app_assoc, <-H2, app_assoc, <-G2.
      rewrite <-app_assoc. by destruct e.
    + unfold called_dones in *. rewrite omap_app, length_app.
      destruct e; simpl in *; fold (ops_of es); lia.
Qed.
End Obj.
Arguments t : clear implicits.
Arguments call : clear implicits.
Arguments world : clear implicits.
Arguments event : clear implicits.

(** Interfaces for receiving packets and for byte streams: as long as
    the user operates only while idle and the provider completes only the
    operation it was given, no assertion fails; the operations handed to
    the provider are those the user asked for, in order, and the
    completions handed to the user those the provider reported, in order;
    every operation is completed exactly once; and while an operation is in
    progress that the provider was not called for, or that is completed,
    the job that moves it on is pending (no wake-up is lost). *)
Lemma operations_conserved {C O D : Type} `{Kind C O D} (c : C) es :
  respects (fresh_world c) es = true →
  ∃ w cs, wrun (fresh_world c) es = Some (w, cs) ∧ inv w ∧
    ops_of es = called_ops cs ++ pending_op (obj w) ∧
    dones_of es = called_dones cs ++ pending_done (obj w) ∧
    length (ops_of es) = (length (called_dones cs) + in_progress w)%nat ∧
    (user_idle w = false → provider_op w = None → jobs (obj w) ≠ []).
Proof.
  intros Hr. destruct (iface_run_conserves es (fresh_world c)) as (w & cs & E & Hw & H1 & H2 & H3);
    [by repeat split|done|].
  change (in_progress (fresh_world c)) with 0%nat in H3.
  exists w, cs. split_and!; try done.
  - lia.
  - intros Hi Hp. destruct Hw as [_ Hw]. destruct (st (obj w)).
    + destruct Hw as [Hw _]. congruence.
    + destruct Hw as (_ & _ & -> & _). done.
    + destruct Hw as (_ & Hpo & [o Ho] & _). congruence.
    + destruct Hw as (_ & _ & -> & _). done.
Qed.
End Iface.

(** The three kinds.  [data] is a pointer; [0] stands for [NULL]. *)
Module PacketRecvInterface.
Record cfg := mkCfg { mtu : Z }.
#[export] Instance kind : Iface.Kind cfg Z Z := {|
  Iface.op_ok c data := negb (0 <? mtu c) || negb (data =? 0);
  Iface.done_ok c _ data_len := (0 <=? data_len) && (data_len <=? mtu c)
|}.
Definition PacketRecvInterface_Init (m : Z) : Iface.t cfg Z Z := Iface.Init (mkCfg m).
Definition PacketRecvInterface_GetMTU (i : Iface.t cfg Z Z) : Z := mtu (Iface.cfg i).
Definition PacketRecvInterface_Receiver_Init : M (Iface.t cfg Z Z) _ unit := Iface.User_Init.
Definition PacketRecvInterface_Receiver_Recv (data : Z) : M (Iface.t cfg Z Z) _ unit :=
  Iface.User_Operate data.
Definition PacketRecvInterface_Done (data_len : Z) : M (Iface.t cfg Z Z) _ unit :=
  Iface.Provider_Done data_len.
Definition PacketRecvInterface_job_operation : M (Iface.t cfg Z Z) _ unit := Iface.job_operation.
Definition PacketRecvInterface_job_done : M (Iface.t cfg Z Z) _ unit := Iface.job_done.

(** The receiver asks for a packet at address 64, gets 3 bytes, asks again. *)
Lemma operations_conserved_witness :
  ∃ w cs,
    Iface.wrun (Iface.fresh_world (mkCfg 1500))
      [Iface.EvOperate 64; Iface.EvJob Iface.JOperation; Iface.EvDone 3;
       Iface.EvJob Iface.JDone; Iface.EvOperate 128] = Some (w, cs) ∧
    [64; 128] = Iface.called_ops cs ++ Iface.pending_op (Iface.obj w) ∧
    [3] = Iface.called_dones cs ++ Iface.pending_done (Iface.obj w).
Proof.
  destruct (Iface.operations_conserved (mkCfg 1500)
      [Iface.EvOperate 64; Iface.EvJob Iface.JOperation; Iface.EvDone 3;
       Iface.EvJob Iface.JDone; Iface.EvOperate 128]) as (w & cs & E & _ & H1 & H2 & _).
  { vm_compute. reflexivity. }
  exists w, cs. split; [exact E|]. split; [exact H1|exact H2].
Defined.
End PacketRecvInterface.

Module StreamRecvInterface.
#[export] Instance kind : Iface.Kind unit (Z * Z) Z := {|
  Iface.op_ok _ o := let '(data, data_len) := o in (0 <? data_len) && negb (data =? 0);
  Iface.done_ok _ o data_len := (0 <? data_len) && (data_len <=? o.2)
|}.
Definition StreamRecvInterface_Init : Iface.t unit (Z * Z) Z := Iface.Init tt.
Definition StreamRecvInterface_Receiver_Init : M (Iface.t unit (Z * Z) Z) _ unit :=
  Iface.User_Init.
Definition StreamRecvInterface_Receiver_Recv (data data_len : Z)
  : M (Iface.t unit (Z * Z) Z) _ unit := Iface.User_Operate (data, data_len).
Definition StreamRecvInterface_Done (data_len : Z) : M (Iface.t unit (Z * Z) Z) _ unit :=
  Iface.Provider_Done data_len.
Definition StreamRecvInterface_job_operation : M (Iface.t unit (Z * Z) Z) _ unit :=
  Iface.job_operation.
Definition StreamRecvInterface_job_done : M (Iface.t unit (Z * Z) Z) _ unit := Iface.job_done.
End StreamRecvInterface.

Module StreamPassInterface.
#[export] Instance kind : Iface.Kind unit (Z * Z) Z := {|
  Iface.op_ok _ o := let '(data, data_len) := o in (0 <? data_len) && negb (data =? 0);
  Iface.done_ok _ o data_len := (0 <? data_len) && (data_len <=? o.2)
|}.
Definition StreamPassInterface_Init : Iface.t unit (Z * Z) Z := Iface.Init tt.
Definition StreamPassInterface_Sender_Init : M (Iface.t unit (Z * Z) Z) _ unit :=
  Iface.User_Init.
Definition StreamPassInterface_Sender_Send (data data_len : Z)
  : M (Iface.t unit (Z * Z) Z) _ unit := Iface.User_Operate (data, data_len).
Definition StreamPassInterface_Done (data_len : Z) : M (Iface.t unit (Z * Z) Z) _ unit :=
  Iface.Provider_Done data_len.
Definition StreamPassInterface_job_operation : M (Iface.t unit (Z * Z) Z) _ unit :=
  Iface.job_operation.
Definition StreamPassInterface_job_done : M (Iface.t unit (Z * Z) Z) _ unit := Iface.job_done.
End StreamPassInterface.

(** ** The interface for sending packets *)
Module PacketPassInterface.
Inductive job := JOperation | JRequestCancel | JDone.
#[export] Instance job_eq_dec : EqDecision job.
Proof. solve_decision. Defined.

Record t := mk {
  mtu : Z;
  has_cancel : bool;                   (* handler_requestcancel is set *)
  have_user : bool;                    (* handler_done is set *)
  job_operation_data : Z;
  job_operation_len : Z;
  state : if_state;
  cancel_requested : bool;
  jobs : list job
}.

Inductive call := CallOperation (data data_len : Z) | CallRequestCancel | CallDone.
#[export] Instance call_eq_dec : EqDecision call.
Proof. solve_decision. Defined.

Definition set_jobs (f : list job → list job) (i : t) : t :=
  mk (mtu i) (has_cancel i) (have_user i) (job_operation_data i) (job_operation_len i)
     (state i) (cancel_requested i) (f (jobs i)).
Definition set_state (s : if_state) (i : t) : t :=
  mk (mtu i) (has_cancel i) (have_user i) (job_operation_data i) (job_operation_len i)
     s (cancel_requested i) (jobs i).
Definition set_cancel (b : bool) (i : t) : t :=
  mk (mtu i) (has_cancel i) (have_user i) (job_operation_data i) (job_operation_len i)
     (state i) b (jobs i).
Definition set_data (d n : Z) (i : t) : t :=
  mk (mtu i) (has_cancel i) (have_user i) d n (state i) (cancel_requested i) (jobs i).

Definition PacketPassInterface_Init (m : Z) : t := mk m false false 0 0 STATE_NONE false [].

Definition PacketPassInterface_Free (i : t) : t :=
  set_jobs (λ l, JobQueue.unset JOperation
                   (JobQueue.unset JRequestCancel (JobQueue.unset JDone l))) i.

Definition PacketPassInterface_EnableCancel : M t call unit :=
  i ← get;
  ASSERT (negb (has_cancel i));;
  ASSERT (negb (have_user i));;
  modify (λ i, mk (mtu i) true (have_user i) (job_operation_data i) (job_operation_len i)
                  (state i) (cancel_requested i) (jobs i)).

Definition PacketPassInterface_Done : M t call unit :=
  i ← get;
  ASSERT (bool_decide (state i = STATE_BUSY));;
  modify (set_jobs (JobQueue.unset JRequestCancel));;
  modify (set_jobs (JobQueue.set JDone));;
  modify (set_state STATE_DONE_PENDING).

Definition PacketPassInterface_GetMTU (i : t) : Z := mtu i.
Definition PacketPassInterface_HasCancel (i : t) : bool := has_cancel i.

Definition PacketPassInterface_Sender_Init : M t call unit :=
  i ← get;
  ASSERT (negb (have_user i));;
  modify (λ i, mk (mtu i) (has_cancel i) true (job_operation_data i) (job_operation_len i)
                  (state i) (cancel_requested i) (jobs i)).

Definition PacketPassInterface_Sender_Send (data data_len : Z) : M t call unit :=
  i ← get;
  ASSERT (0 <=? data_len);;
  ASSERT (data_len <=? mtu i);;
  ASSERT (negb (0 <? data_len) || negb (data =? 0));;
  ASSERT (bool_decide (state i = STATE_NONE));;
  ASSERT (have_user i);;
  modify (set_data data data_len);;
  modify (set_jobs (JobQueue.set JOperation));;
  modify (set_state STATE_OPERATION_PENDING);;
  modify (set_cancel false).

Definition PacketPassInterface_Sender_RequestCancel : M t call unit :=
  i ← get;
  ASSERT (bool_decide (state i ≠ STATE_NONE));;
  ASSERT (has_cancel i);;
  if cancel_requested i then mret tt
  else
    modify (set_cancel true);;
    if decide (state i = STATE_OPERATION_PENDING) then
      modify (set_jobs (JobQueue.unset JOperation));;
      modify (set_jobs (JobQueue.set JDone));;
      modify (set_state STATE_DONE_PENDING)
    else if decide (state i = STATE_BUSY) then
      modify (set_jobs (JobQueue.set JRequestCancel))
    else mret tt.

Definition PacketPassInterface_job_operation : M t call unit :=
  i ← get;
  ASSERT (bool_decide (state i = STATE_OPERATION_PENDING));;
  modify (set_state STATE_BUSY);;
  emit (CallOperation (job_operation_data i) (job_operation_len i)).

Definition PacketPassInterface_job_requestcancel : M t call unit :=
  i ← get;
  ASSERT (bool_decide (state i = STATE_BUSY));;
  ASSERT (cancel_requested i);;
  ASSERT (has_cancel i);;
  emit CallRequestCancel.

Definition PacketPassInterface_job_done : M t call unit :=
  i ← get;
  ASSERT (bool_decide (state i = STATE_DONE_PENDING));;
  modify (set_state STATE_NONE);;
  emit CallDone.

Definition run_job (j : job) : M t call unit :=
  modify (set_jobs (JobQueue.remove j));;
  match j with
  | JOperation => PacketPassInterface_job_operation
  | JRequestCancel => PacketPassInterface_job_requestcancel
  | JDone => PacketPassInterface_job_done
  end.

(** ** Correct use *)
Record world := mkW { obj : t; sender_idle : bool; provider_busy : bool; asked : bool }.

Inductive event := EvSend (data data_len : Z) | EvRequestCancel | EvDone | EvJob (j : job).

Definition permitted (w : world) (e : event) : bool :=
  match e with
  | EvSend d n => sender_idle w && (0 <=? n) && (n <=? mtu (obj w)) &&
                  (negb (0 <? n) || negb (d =? 0))
  | EvRequestCancel => negb (sender_idle w) && has_cancel (obj w)
  | EvDone => provider_busy w
  | EvJob j => bool_decide (j ∈ jobs (obj w))
  end.

Definition handler_of (e : event) : M t call unit :=
  match e with
  | EvSend d n => PacketPassInterface_Sender_Send d n
  | EvRequestCancel => PacketPassInterface_Sender_RequestCancel
  | EvDone => PacketPassInterface_Done
  | EvJob j => run_job j
  end.

(** [asked]: the provider was asked to cancel the operation it performs. *)
Definition learn (w : world) (e : event) (i : t) (cs : list call) : world :=
  let w := match e with
           | EvSend _ _ => mkW i false (provider_busy w) false
           | EvDone => mkW i (sender_idle w) false (asked w)
           | _ => mkW i (sender_idle w) (provider_busy w) (asked w)
           end in
  match cs with
  | [CallOperation _ _] => mkW (obj w) (sender_idle w) true (asked w)
  | [CallRequestCancel] => mkW (obj w) (sender_idle w) (provider_busy w) true
  | [CallDone] => mkW (obj w) true (provider_busy w) (asked w)
  | _ => w
  end.

Definition wstep (w : world) (e : event) : option (world * list call) :=
  '(_, i, cs) ← handler_of e (obj w); Some (learn w e i cs, cs).

Definition inv (w : world) : Prop :=
  let i := obj w in
  have_user i = true ∧
  match state i with
  | STATE_NONE => sender_idle w = true ∧ provider_busy w = false ∧ jobs i = []
  | STATE_OPERATION_PENDING =>
      sender_idle w = false ∧ provider_busy w = false ∧ jobs i = [JOperation] ∧
      cancel_requested i = false ∧ asked w = false
  | STATE_BUSY =>
      sender_idle w = false ∧ provider_busy w = true ∧
      jobs i = (if cancel_requested i && negb (asked w) then [JRequestCancel] else []) ∧
      (asked w = true → cancel_requested i = true) ∧
      (cancel_requested i = true → has_cancel i = true)
  | STATE_DONE_PENDING =>
      sender_idle w = false ∧ provider_busy w = false ∧ jobs i = [JDone]
  end.

Lemma ppi_inv_step w e :
  inv w → permitted w e = true → ∃ w' cs, wstep w e = Some (w', cs) ∧ inv w'.
Proof.
  destruct w as [[m hc hu d n s cr js] idle busy ask].
  intros [Hu Hs] Hp. simpl in *. subst hu.
  destruct e as [d' n'| | |j]; simpl in Hp.
  - apply andb_true_iff in Hp as [[[-> H1]%andb_true_iff H2]%andb_true_iff H3].
    destruct s; [destruct Hs as (_ & -> & ->)|naive_solver..].
    unfold wstep. simpl.
    unfold PacketPassInterface_Sender_Send, get, ASSERT, modify, mbind, M_bind. simpl.
    rewrite H1, H2, H3. simpl. eexists _, _. split; [done|]. split; [done|]. simpl. eauto 6.
  - apply andb_true_iff in Hp as [Hi ->]. destruct idle; [done|].
    destruct s; [naive_solver|..].
    + destruct Hs as (_ & -> & -> & -> & ->).
      eexists _, _. split; [done|]. split; [done|]. simpl. eauto 6.
    + destruct Hs as (_ & -> & -> & Ha & _). destruct cr.
      * eexists _, _. split; [done|]. split; [done|]. simpl. eauto 6.
      * destruct ask; [naive_solver|].
        eexists _, _. split; [done|]. split; [done|]. simpl. eauto 6.
    + destruct Hs as (_ & -> & ->). destruct cr.
      * eexists _, _. split; [done|]. split; [done|]. simpl. eauto 6.
      * eexists _, _. split; [done|]. split; [done|]. simpl. eauto 6.
  - subst busy. destruct s; [naive_solver..| |naive_solver].
    destruct Hs as (-> & _ & -> & _). eexists _, _. split; [done|]. split; [done|]. simpl.
    by destruct (cr && negb ask)%bool.
  - apply bool_decide_eq_true in Hp. destruct s.
    + destruct Hs as (_ & _ & ->). set_solver.
    + destruct Hs as (-> & -> & -> & -> & ->). apply list_elem_of_singleton in Hp as ->.
      eexists _, _. split; [done|]. split; [done|]. simpl. naive_solver.
    + destruct Hs as (-> & -> & -> & Ha & Hc).
      destruct cr, ask; simpl in Hp; try set_solver.
      apply list_elem_of_singleton in Hp as ->. rewrite Hc by done.
      eexists _, _. split; [done|]. split; [done|]. simpl. naive_solver.
    + destruct Hs as (-> & -> & ->). apply list_elem_of_singleton in Hp as ->.
      eexists _, _. split; [done|]. split; [done|]. simpl. naive_solver.
Qed.

Fixpoint wrun (w : world) (es : list event) : option (world * list call) :=
  match es with
  | [] => Some (w, [])
  | e :: es' =>
      '(w, cs) ← wstep w e; '(w, cs') ← wrun w es'; Some (w, cs ++ cs')
  end.

Fixpoint respects (w : world) (es : list event) : bool :=
  match es with
  | [] => true
  | e :: es' =>
      permitted w e &&
      match wstep w e with Some (w', _) => respects w' es' | None => true end
  end.

Definition sends_of (es : list event) : list (Z * Z) :=
  omap (λ e, match e with EvSend d n => Some (d, n) | _ => None end) es.
Definition called_ops (cs : list call) : list (Z * Z) :=
  omap (λ c, match c with CallOperation d n => Some (d, n) | _ => None end) cs.
Definition called_dones (cs : list call) : nat :=
  length (filter (λ c, c = CallDone) cs).
Definition pending_op (i : t) : list (Z * Z) :=
  if decide (state i = STATE_OPERATION_PENDING)
  then [(job_operation_data i, job_operation_len i)] else [].
Definition in_progress (w : world) : nat := if sender_idle w then 0 else 1.

(** What one event adds and what it calls back.  A cancel request before
    the provider was called drops the packet. *)
Lemma ppi_conserve_step w e w' cs :
  inv w → permitted w e = true → wstep w e = Some (w', cs) →
  sublist (called_ops cs ++ pending_op (obj w')) (pending_op (obj w) ++ sends_of [e]) ∧
  (e ≠ EvRequestCancel →
   called_ops cs ++ pending_op (obj w') = pending_op (obj w) ++ sends_of [e]) ∧
  (length (sends_of [e]) + in_progress w = called_dones cs + in_progress w')%nat.
Proof.
  destruct w as [[m hc hu d n s cr js] idle busy ask].
  intros [Hu Hs] Hp Hw. simpl in Hu, Hs. subst hu.
  destruct e as [d' n'| | |j]; simpl in Hp.
  - apply andb_true_iff in Hp as [[[-> H1]%andb_true_iff H2]%andb_true_iff H3].
    destruct s; [destruct Hs as (_ & -> & ->)|naive_solver..].
    unfold wstep, handler_of, PacketPassInterface_Sender_Send, get, ASSERT, modify, mbind, M_bind in Hw.
    simpl in Hw. rewrite H1, H2, H3 in Hw. injection Hw as <- <-. done.
  - apply andb_true_iff in Hp as [Hi ->]. destruct idle; [done|].
    destruct s; [naive_solver|..].
    + destruct Hs as (_ & -> & -> & -> & ->). injection Hw as <- <-.
      split_and!; [|done..]. apply sublist_nil_l.
    + destruct Hs as (_ & -> & -> & _). by destruct cr; injection Hw as <- <-.
    + destruct Hs as (_ & -> & ->). by destruct cr; injection Hw as <- <-.
  - subst busy. destruct s; [naive_solver..| |naive_solver].
    destruct Hs as (-> & _ & -> & _). by injection Hw as <- <-.
  - apply bool_decide_eq_true in Hp. destruct s; simpl in Hp.
    + destruct Hs as (_ & _ & ->). set_solver.
    + destruct Hs as (-> & -> & -> & -> & ->). apply list_elem_of_singleton in Hp as ->.
      by injection Hw as <- <-.
    + destruct Hs as (-> & -> & -> & Ha & Hc).
      destruct cr, ask; simpl in Hp; try set_solver.
      apply list_elem_of_singleton in Hp as ->. rewrite (Hc eq_refl) in Hw.
      by injection Hw as <- <-.
    + destruct Hs as (-> & -> & ->). apply list_elem_of_singleton in Hp as ->.
      by injection Hw as <- <-.
Qed.

Lemma ppi_run_conserves es : ∀ w,
  inv w → respects w es = true →
  ∃ w' cs, wrun w es = Some (w', cs) ∧ inv w' ∧
    sublist (called_ops cs ++ pending_op (obj w')) (pending_op (obj w) ++ sends_of es) ∧
    (EvRequestCancel ∉ es →
     called_ops cs ++ pending_op (obj w') = pending_op (obj w) ++ sends_of es) ∧
    (length (sends_of es) + in_progress w = called_dones cs + in_progress w')%nat.
Proof.
  induction es as [|e es IH]; intros w Hw; cbn [wrun respects].
  - intros _. eexists _, _. split_and!; try done; simpl; by rewrite app_nil_r.
  - intros [Hp Hr]%andb_true_iff. destruct (ppi_inv_step w e Hw Hp) as (w1 & c1 & E1 & Hw1).
    rewrite E1 in Hr. destruct (IH w1 Hw1 Hr) as (w2 & c2 & E2 & Hw2 & H1 & H2 & H3).
    destruct (ppi_conserve_step w e w1 c1 Hw Hp E1) as (G1 & G2 & G3).
    exists w2, (c1 ++ c2). rewrite E1. cbn [mbind option_bind]. rewrite E2. cbn [mbind option_bind].
    assert (Hc : called_ops (c1 ++ c2) = called_ops c1 ++ called_ops c2) by apply omap_app.
    assert (Hs : sends_of (e :: es) = sends_of [e] ++ sends_of es) by apply (omap_app _ [e] es).
    rewrite Hc, Hs, <-app_assoc. split_and!; try done.
    + etransitivity; [apply sublist_app; [reflexivity|exact H1]|].
      rewrite !app_assoc. by apply sublist_app.
    + intros Hn. rewrite H2 by set_solver. rewrite !app_assoc. f_equal. apply G2. set_solver.
    + unfold called_dones in *. rewrite filter_app, !length_app. simpl in *. lia.
Qed.

Definition fresh_world (m : Z) (cancel : bool) : world :=
  mkW (mk m cancel true 0 0 STATE_NONE false []) true false false.

(** The interface for packets: under correct use no assertion fails,
    whether or not cancelling is requested at any moment; every packet sent
    is completed exactly once; the provider is handed packets that were
    sent, in order and without duplicates, and all of them when no cancel
    is requested; while a packet is in progress and the provider is not
    busy with it, the job that moves it on is pending. *)
Lemma packets_conserved (m : Z) (cancel : bool) es :
  respects (fresh_world m cancel) es = true →
  ∃ w cs, wrun (fresh_world m cancel) es = Some (w, cs) ∧ inv w ∧
    sublist (called_ops cs ++ pending_op (obj w)) (sends_of es) ∧
    (EvRequestCancel ∉ es → called_ops cs ++ pending_op (obj w) = sends_of es) ∧
    length (sends_of es) = (called_dones cs + in_progress w)%nat ∧
    (sender_idle w = false → provider_busy w = false → jobs (obj w) ≠ []).
Proof.
  intros Hr. destruct (ppi_run_conserves es (fresh_world m cancel)) as (w & cs & E & Hw & H1 & H2 & H3);
    [by repeat split|done|].
  change (in_progress (fresh_world m cancel)) with 0%nat in H3.
  exists w, cs. split_and!; try done.
  - lia.
  - intros Hi Hb. destruct Hw as [_ Hw]. destruct (state (obj w)).
    + destruct Hw as [Hw _]. congruence.
    + destruct Hw as (_ & _ & -> & _). done.
    + destruct Hw as (_ & Hw & _). congruence.
    + destruct Hw as (_ & _ & ->). done.
Qed.

(** A packet that is cancelled before the provider sees it, then another. *)
Lemma packets_conserved_witness :
  ∃ w cs,
    wrun (fresh_world 100 true)
      [EvSend 64 10; EvRequestCancel; EvJob JDone; EvSend 64 20; EvJob JOperation;
       EvRequestCancel; EvJob JRequestCancel; EvDone; EvJob JDone] = Some (w, cs) ∧
    sublist (called_ops cs ++ pending_op (obj w)) [(64, 10); (64, 20)] ∧
    2%nat = (called_dones cs + in_progress w)%nat.
Proof.
  destruct (packets_conserved 100 true
      [EvSend 64 10; EvRequestCancel; EvJob JDone; EvSend 64 20; EvJob JOperation;
       EvRequestCancel; EvJob JRequestCancel; EvDone; EvJob JDone])
    as (w & cs & E & _ & H1 & _ & H2 & _).
  { vm_compute. reflexivity. }
  exists w, cs. split; [exact E|]. split; [exact H1|exact H2].
Defined.
End PacketPassInterface.
