(* ===== verification/ChunkBuffer2.v ===== *)
(** * Circular packet buffer ([structure/ChunkBuffer2.h])

    A ring of 4-byte blocks that holds packets, each as a block with its
    length followed by the blocks of its data, never split around the end of
    the ring.  [ChunkBuffer2] is the record of the source, its memory the
    bytes of the blocks; destinations are byte offsets, [None] for [NULL].

    [PacketQueue] is what a user of such a buffer may rely on; the instance
    at the end of the file proves that this ring provides it. *)

From S2P Require Import Prelude.

(** ** The contract of a packet buffer

    [holds b q]: the buffer [b] contains the packets [q], oldest first.
    A user writes a packet at [in_at b], at most [in_avail b] bytes, and
    submits its length; it reads the oldest packet at [out_at b]. *)
Class PacketQueue (B : Type) := {
  holds : B → list (list Z) → Prop;
  in_at : B → option Z;
  in_avail : B → Z;
  out_at : B → option Z;
  out_avail : B → Z;
  memory : B → list Z;
  with_memory : list Z → B → B;
  submit : Z → B → B;
  consume : B → B;
  (** writing at most [in_avail] bytes at [in_at] harms no packet *)
  write_ok b q off d :
    holds b q → in_at b = Some off → zlen d <= in_avail b →
    holds (with_memory (blit off d (memory b)) b) q;
  submit_ok b q off n :
    holds b q → in_at b = Some off → 0 <= n <= in_avail b →
    holds (submit n b) (q ++ [slice off n (memory b)]);
  consume_ok b p q : holds b (p :: q) → holds (consume b) q;
  out_ok b p q :
    holds b (p :: q) →
    ∃ off, out_at b = Some off ∧ out_avail b = zlen p ∧ slice off (zlen p) (memory b) = p;
  out_empty b : holds b [] → out_at b = None ∧ out_avail b = -1;
  submit_out b p q off n :
    holds b (p :: q) → in_at b = Some off → 0 <= n <= in_avail b → out_at (submit n b) = out_at b;
  (** a destination handed out for writing stays valid while packets leave *)
  in_stable b p q off :
    holds b (p :: q) → in_at b = Some off →
    in_at (consume b) = Some off ∧ in_avail b <= in_avail (consume b) ∧
    memory (consume b) = memory b;
  in_bounds b q off :
    holds b q → in_at b = Some off → 0 <= off ∧ 0 <= in_avail b ∧ off + in_avail b <= zlen (memory b);
  in_none b q : holds b q → in_at b = None → in_avail b < 0;
  (** memory is a field of its own *)
  memory_with m b : memory (with_memory m b) = m;
  in_with m b : in_at (with_memory m b) = in_at b ∧ in_avail (with_memory m b) = in_avail b;
  out_with m b : out_at (with_memory m b) = out_at b ∧ out_avail (with_memory m b) = out_avail b
}.

(** [sized m n b]: the buffer has room for [n] packets of [m] bytes. *)
Class BoundedQueue (B : Type) `{PacketQueue B} := {
  sized : Z → Z → B → Prop;
  sized_with m n mem b : sized m n b → sized m n (with_memory mem b);
  sized_submit m n len b : sized m n b → sized m n (submit len b);
  sized_consume m n b : sized m n b → sized m n (consume b);
  sized_room m n b q :
    holds b q → sized m n b → Forall (λ p, zlen p <= m) q → zlen q < n →
    ∃ off, in_at b = Some off ∧ m <= in_avail b
}.

Module ChunkBuffer2.

(** [sizeof(struct ChunkBuffer2_block)] *)
Definition block_size : Z := 4.

Record ChunkBuffer2 := mkBuf {
  buffer : list Z;
  size : Z;
  wrap : Z;
  start : Z;
  used : Z;
  mtu : Z;
  input_dest : option Z;
  input_avail : Z;
  output_dest : option Z;
  output_avail : Z
}.

(** [buffer[i].len], read and written. *)
Definition get_len (b : list Z) (i : Z) : Z := int32 (of_le (slice (block_size * i) 4 b)).
Definition put_len (i len : Z) (b : list Z) : list Z := blit (block_size * i) (le_bytes 4 len) b.

Definition set_input (dest : option Z) (avail : Z) (b : ChunkBuffer2) : ChunkBuffer2 :=
  mkBuf (buffer b) (size b) (wrap b) (start b) (used b) (mtu b) dest avail
        (output_dest b) (output_avail b).
Definition set_output (dest : option Z) (avail : Z) (b : ChunkBuffer2) : ChunkBuffer2 :=
  mkBuf (buffer b) (size b) (wrap b) (start b) (used b) (mtu b)
        (input_dest b) (input_avail b) dest avail.
Definition set_ring (bs : list Z) (w s u : Z) (b : ChunkBuffer2) : ChunkBuffer2 :=
  mkBuf bs (size b) w s u (mtu b) (input_dest b) (input_avail b) (output_dest b) (output_avail b).

Definition ChunkBuffer2_end (b : ChunkBuffer2) : Z :=
  if used b >=? wrap b - start b then used b - (wrap b - start b) else start b + used b.

Definition ChunkBuffer2_update_input (b : ChunkBuffer2) : ChunkBuffer2 :=
  let e := ChunkBuffer2_end b in
  if size b - e - 1 <? mtu b then set_input None (-1) b
  else
    let free := if used b >=? wrap b - start b then start b - e else size b - e in
    if free >? 0 then
      set_input (Some (block_size * (e + 1))) (int32 ((free - 1) * block_size)) b
    else set_input None (-1) b.

Definition ChunkBuffer2_update_output (b : ChunkBuffer2) : ChunkBuffer2 :=
  if used b >? 0 then
    let datalen := get_len (buffer b) (start b) in
    set_output (Some (block_size * (start b + 1))) datalen b
  else set_output None (-1) b.

Definition ChunkBuffer2_calc_blocks (chunk_len num : Z) : Z :=
  let chunk_data_blocks := int32 (bdivide_up chunk_len block_size) in
  if chunk_data_blocks >? INT_MAX - 1 then -1
  else
    let chunk_blocks := 1 + chunk_data_blocks in
    if num >? INT_MAX - 1 then -1
    else
      let num_chunks := num + 1 in
      if chunk_blocks >? INT_MAX / num_chunks then -1
      else chunk_blocks * num_chunks.

Definition ChunkBuffer2_Init (buf : list Z) (blocks mtu : Z) : ChunkBuffer2 :=
  ChunkBuffer2_update_output (ChunkBuffer2_update_input
    (mkBuf buf blocks blocks 0 0 (bdivide_up mtu block_size) None (-1) None (-1))).

Definition ChunkBuffer2_SubmitPacket (len : Z) (b : ChunkBuffer2) : ChunkBuffer2 :=
  let e := ChunkBuffer2_end b in
  let blocklen := bdivide_up len block_size in
  let bs := put_len e len (buffer b) in
  let u := used b + (1 + blocklen) in
  let w := if (u <=? wrap b - start b) && (mtu b >? size b - (e + 1 + blocklen) - 1)
           then e + 1 + blocklen else wrap b in
  let b := set_ring bs w (start b) u b in
  let b := ChunkBuffer2_update_input b in
  if used b =? 1 + blocklen then ChunkBuffer2_update_output b else b.

Definition ChunkBuffer2_ConsumePacket (b : ChunkBuffer2) : ChunkBuffer2 :=
  let blocklen := bdivide_up (get_len (buffer b) (start b)) block_size in
  let data_wrapped := used b >=? wrap b - start b in
  let s := start b + (1 + blocklen) in
  let u := used b - (1 + blocklen) in
  let '(s, w) := if s =? wrap b then (0, size b) else (s, wrap b) in
  let b := set_ring (buffer b) w s u b in
  let b := if (data_wrapped : bool) then ChunkBuffer2_update_input b else b in
  ChunkBuffer2_update_output b.

(** ** Assertions of debug builds *)
Definition assert_buffer (b : ChunkBuffer2) : bool :=
  (size b >? 0) && (wrap b >? 0) && (wrap b <=? size b) && (start b >=? 0) && (start b <? wrap b) &&
  (used b >=? 0) && (used b <=? wrap b) && ((wrap b =? size b) || (used b >=? wrap b - start b)) && (mtu b >=? 0).

Definition assert_io (b : ChunkBuffer2) : bool :=
  let e := ChunkBuffer2_end b in
  (if size b - e - 1 <? mtu b then bool_decide (input_dest b = None) && (input_avail b =? -1)
   else
     let free := if used b >=? wrap b - start b then start b - e else size b - e in
     if free >? 0 then
       bool_decide (input_dest b = Some (block_size * (e + 1))) && (input_avail b =? (free - 1) * block_size)
     else bool_decide (input_dest b = None) && (input_avail b =? -1)) &&
  (if used b >? 0 then
     let datalen := get_len (buffer b) (start b) in
     let blocklen := bdivide_up datalen block_size in
     (datalen >=? 0) && (blocklen <=? used b - 1) && (blocklen <=? wrap b - start b - 1) &&
     bool_decide (output_dest b = Some (block_size * (start b + 1))) && (output_avail b =? datalen)
   else bool_decide (output_dest b = None) && (output_avail b =? -1)).

(** Those of [ChunkBuffer2_SubmitPacket] and [ChunkBuffer2_ConsumePacket], up to
    the change of the ring; after it the two above are checked again. *)
Definition assert_submit (len : Z) (b : ChunkBuffer2) : bool :=
  let e := ChunkBuffer2_end b in
  let blocklen := bdivide_up len block_size in
  bool_decide (is_Some (input_dest b)) && (len >=? 0) && (len <=? input_avail b) && assert_buffer b && assert_io b &&
  (blocklen <=? size b - e - 1) && ((used b <? wrap b - start b) || (blocklen <=? start b - e - 1)).

Definition assert_consume (b : ChunkBuffer2) : bool :=
  let blocklen := bdivide_up (get_len (buffer b) (start b)) block_size in
  bool_decide (is_Some (output_dest b)) && assert_buffer b && assert_io b && (1 <=? wrap b - start b) && (1 <=? used b) &&
  (blocklen <=? wrap b - start b - 1) && (blocklen <=? used b - 1).

(** ** Representation *)

Definition blocks (p : list Z) : Z := bdivide_up (zlen p) block_size.

Lemma blocks_bounds p : 0 <= blocks p ∧ zlen p <= 4 * blocks p < zlen p + 4.
Proof. apply bdivide_up_bounds; [apply zlen_nonneg|done]. Qed.

(** [span bs lim i q j]: from block [i] up to block [j] the ring holds the
    packets [q], one after the other, none of them starting after [lim]. *)
Fixpoint span (bs : list Z) (lim i : Z) (q : list (list Z)) (j : Z) : Prop :=
  match q with
  | [] => i = j
  | p :: q' =>
      i <= lim ∧ zlen p <= INT_MAX ∧ slice (block_size * i) 4 bs = le_bytes 4 (zlen p) ∧
      slice (block_size * (i + 1)) (zlen p) bs = p ∧
      span bs lim (i + 1 + blocks p) q' j
  end.

(** The packets lie from [start] to the end of the data, either without
    wrapping around, or up to [wrap] and on from the first block.  There is
    room for a packet of full size after every position a packet starts at. *)
Inductive layout (b : ChunkBuffer2) (q : list (list Z)) : Prop :=
| layout_straight :
    wrap b = size b → 0 <= start b → 0 <= used b →
    start b + used b <= size b - 1 - mtu b →
    span (buffer b) (size b - 1 - mtu b) (start b) q (start b + used b) →
    layout b q
| layout_wrapped q1 q2 :
    q = q1 ++ q2 → 0 <= start b < wrap b → size b - mtu b <= wrap b <= size b →
    0 <= used b - (wrap b - start b) <= start b →
    span (buffer b) (size b - 1 - mtu b) (start b) q1 (wrap b) →
    span (buffer b) (size b - 1 - mtu b) 0 q2 (used b - (wrap b - start b)) →
    layout b q.

(** Buffers that differ only in their input and output fields hold the same
    packets. *)
Definition same_ring (b b' : ChunkBuffer2) : Prop :=
  buffer b = buffer b' ∧ size b = size b' ∧ wrap b = wrap b' ∧ start b = start b' ∧
  used b = used b' ∧ mtu b = mtu b'.

#[export] Instance same_ring_equiv : Equivalence same_ring.
Proof. split; unfold same_ring; repeat intro; intuition congruence. Qed.

#[export] Instance layout_proper : Proper (same_ring ==> eq ==> iff) layout.
Proof.
  enough (H : ∀ b b' q, same_ring b b' → layout b q → layout b' q).
  { intros b b' E q ? <-. split; apply H; [done|by symmetry]. }
  intros b b' q (E1 & E2 & E3 & E4 & E5 & E6) [].
  - apply layout_straight; rewrite <-?E1, <-?E2, <-?E3, <-?E4, <-?E5, <-?E6; done.
  - eapply layout_wrapped; rewrite <-?E1, <-?E2, <-?E3, <-?E4, <-?E5, <-?E6; done.
Qed.

Lemma layout_set_input dest avail b q : layout b q → layout (set_input dest avail b) q.
Proof. assert (E : same_ring b (set_input dest avail b)) by done. by rewrite <-E. Qed.
Lemma layout_set_output dest avail b q : layout b q → layout (set_output dest avail b) q.
Proof. assert (E : same_ring b (set_output dest avail b)) by done. by rewrite <-E. Qed.

(** Free blocks after the data: between its end and [start], or the end of
    the ring. *)
Definition free_blocks (b : ChunkBuffer2) : Z :=
  if used b >=? wrap b - start b then start b - ChunkBuffer2_end b
  else size b - ChunkBuffer2_end b.

(** What the four fields for the user say: a packet may be written after a block
    for its length into the free blocks, if there are any; the oldest packet. *)
Definition in_spec (b : ChunkBuffer2) : option Z * Z :=
  if free_blocks b >? 0
  then (Some (block_size * (ChunkBuffer2_end b + 1)), (free_blocks b - 1) * block_size)
  else (None, -1).

Definition out_spec (b : ChunkBuffer2) (q : list (list Z)) : option Z * Z :=
  match q with
  | [] => (None, -1)
  | p :: _ => (Some (block_size * (start b + 1)), zlen p)
  end.

Definition io_ok (b : ChunkBuffer2) (q : list (list Z)) : Prop :=
  (input_dest b, input_avail b) = in_spec b ∧ (output_dest b, output_avail b) = out_spec b q.

Record inv (b : ChunkBuffer2) (q : list (list Z)) : Prop := mkInv {
  inv_len : zlen (buffer b) = block_size * size b;
  inv_size : block_size * size b <= INT_MAX;
  inv_mtu : 0 <= mtu b;
  inv_layout : layout b q;
  inv_io : io_ok b q
}.

(** ** Spans *)

Lemma span_app bs lim i q1 q2 j :
  span bs lim i (q1 ++ q2) j ↔ ∃ k, span bs lim i q1 k ∧ span bs lim k q2 j.
Proof.
  revert i. induction q1 as [|p q1 IH]; intros i; simpl.
  - naive_solver.
  - rewrite IH. naive_solver.
Qed.

Lemma span_le bs lim i q j : span bs lim i q j → i <= j ∧ (q ≠ [] → i < j ∧ i <= lim).
Proof.
  revert i. induction q as [|p q IH]; intros i; simpl; [naive_solver lia|].
  intros (Hi & _ & _ & _ & H). apply IH in H as [H _].
  pose proof (blocks_bounds p). split; [|intros _; split]; lia.
Qed.

(** A write outside of a span leaves it alone. *)
Lemma span_write bs lim i q j off d :
  0 <= i → 0 <= off → off + zlen d <= zlen bs →
  off + zlen d <= block_size * i ∨ block_size * j <= off →
  span bs lim i q j → span (blit off d bs) lim i q j.
Proof.
  unfold block_size. revert i. induction q as [|p q IH]; intros i Hi Ho Hd Hr; simpl; [done|].
  intros (Hl & Hp & Hh & Hb & Hs). pose proof (blocks_bounds p). pose proof (span_le _ _ _ _ _ Hs) as [? _].
  unfold block_size in *. pose proof (zlen_nonneg d). pose proof (zlen_nonneg p).
  split_and!; [done|done|rewrite <-Hh|rewrite <-Hb at 2|apply IH; auto; lia].
  - destruct Hr; [rewrite slice_blit_after by lia|rewrite slice_blit_before by lia]; done.
  - destruct Hr; [rewrite slice_blit_after by lia|rewrite slice_blit_before by lia]; done.
Qed.

Lemma span_one bs lim i p :
  i <= lim → zlen p <= INT_MAX →
  slice (block_size * i) 4 bs = le_bytes 4 (zlen p) →
  slice (block_size * (i + 1)) (zlen p) bs = p →
  span bs lim i [p] (i + 1 + blocks p).
Proof. simpl. auto. Qed.

Lemma span_get_len bs lim i p q j :
  span bs lim i (p :: q) j → get_len bs i = zlen p.
Proof.
  intros (_ & Hp & Hh & _). unfold get_len. rewrite Hh, of_le_le_bytes.
  pose proof (zlen_nonneg p). unfold INT_MAX in Hp.
  change (256 ^ Z.of_nat 4) with 4294967296. rewrite Z.mod_small by lia.
  apply int32_small. unfold INT_MAX. lia.
Qed.

(** ** The free region *)

Lemma end_straight b :
  used b < wrap b - start b →
  ChunkBuffer2_end b = start b + used b ∧ free_blocks b = size b - (start b + used b).
Proof. intros. unfold free_blocks, ChunkBuffer2_end. case_if; lia. Qed.

Lemma end_wrapped b :
  wrap b - start b <= used b →
  ChunkBuffer2_end b = used b - (wrap b - start b) ∧
  free_blocks b = start b - (used b - (wrap b - start b)).
Proof. intros. unfold free_blocks, ChunkBuffer2_end. case_if; lia. Qed.

(** Everything about the shape of the ring but the packets in it. *)
Record geometry (b : ChunkBuffer2) : Prop := mkGeo {
  geo_end : 0 <= ChunkBuffer2_end b <= size b - 1 - mtu b;
  geo_free : 0 <= free_blocks b;
  geo_room : ChunkBuffer2_end b + free_blocks b <= size b;
  geo_start : 0 <= start b
}.

Lemma layout_geometry b q : 0 <= mtu b → layout b q → geometry b.
Proof.
  intros Hm [Hw Hs Hu Hr Hq|q1 q2 -> Hs Hw Hu Hq1 Hq2].
  - destruct (end_straight b) as [E F]; [lia|]. split; lia.
  - assert (q1 ≠ []) by (intros ->; simpl in Hq1; lia).
    apply span_le in Hq1 as [_ H1]. destruct H1 as [_ H1]; [done|].
    destruct (end_wrapped b) as [E F]; [lia|]. split; lia.
Qed.

Definition with_buffer (bs : list Z) (b : ChunkBuffer2) : ChunkBuffer2 :=
  set_ring bs (wrap b) (start b) (used b) b.

Lemma layout_write b q off d :
  zlen (buffer b) = block_size * size b → 0 <= mtu b → layout b q →
  block_size * ChunkBuffer2_end b <= off →
  off + zlen d <= block_size * (ChunkBuffer2_end b + free_blocks b) →
  layout (with_buffer (blit off d (buffer b)) b) q.
Proof.
  unfold block_size. intros Hl Hm HL Ho Hd.
  pose proof (layout_geometry b q Hm HL) as [He Hf Hr Hs0]. pose proof (zlen_nonneg d).
  destruct HL as [Hw Hs Hu Hr' Hq|q1 q2 -> Hs Hw Hu Hq1 Hq2].
  - destruct (end_straight b) as [E F]; [lia|].
    apply layout_straight; simpl; try done.
    apply span_write; unfold block_size; try done; lia.
  - destruct (end_wrapped b) as [E F]; [lia|].
    eapply layout_wrapped; simpl; try done; apply span_write; unfold block_size; try done; lia.
Qed.

(** ** The input and output fields *)

Lemma update_input_spec b :
  geometry b → block_size * size b <= INT_MAX →
  ChunkBuffer2_update_input b = set_input (in_spec b).1 (in_spec b).2 b.
Proof.
  unfold block_size. intros [He Hf Hr Hs] Hz.
  unfold ChunkBuffer2_update_input, in_spec. fold (free_blocks b).
  case_if; [lia|]. case_if; [|done]. cbn [fst snd]. f_equal.
  apply int32_small. unfold block_size, INT_MAX in *. lia.
Qed.

(** The head of the queue lies at [start]. *)
Lemma layout_head b q :
  layout b q →
  match q with
  | [] => used b = 0
  | p :: _ => 0 < used b ∧ ∃ q' j, span (buffer b) (size b - 1 - mtu b) (start b) (p :: q') j
  end.
Proof.
  intros [Hw Hs Hu Hr Hq|q1 q2 -> Hs Hw Hu Hq1 Hq2].
  - destruct q as [|p q]; [simpl in Hq; lia|].
    split; [|eauto]. apply span_le in Hq as [_ Hq]. destruct Hq; [done|lia].
  - destruct q1 as [|p q1]; [simpl in Hq1; lia|]. split; [lia|eauto].
Qed.

Lemma update_output_spec b q :
  layout b q → ChunkBuffer2_update_output b = set_output (out_spec b q).1 (out_spec b q).2 b.
Proof.
  intros HL%layout_head. unfold ChunkBuffer2_update_output, out_spec.
  destruct q as [|p q]; [by rewrite HL|]. destruct HL as (Hu & q' & j & Hs).
  case_if; [|lia]. by rewrite (span_get_len _ _ _ _ _ _ Hs).
Qed.

Lemma inv_intro b q :
  zlen (buffer b) = block_size * size b → block_size * size b <= INT_MAX → 0 <= mtu b →
  layout b q → (input_dest b, input_avail b) = in_spec b →
  (output_dest b, output_avail b) = out_spec b q → inv b q.
Proof. by repeat split. Qed.

Lemma inv_fields b q :
  inv b q → (input_dest b, input_avail b) = in_spec b ∧ (output_dest b, output_avail b) = out_spec b q.
Proof. by intros [_ _ _ _ ?]. Qed.

(** ** Operations *)

Lemma layout_submit b q p :
  let e := ChunkBuffer2_end b in
  zlen (buffer b) = block_size * size b → 0 <= mtu b → layout b q →
  zlen p <= INT_MAX → 1 + blocks p <= free_blocks b →
  slice (block_size * (e + 1)) (zlen p) (buffer b) = p →
  let u := used b + (1 + blocks p) in
  let w := if (u <=? wrap b - start b) && (mtu b >? size b - (e + 1 + blocks p) - 1)
           then e + 1 + blocks p else wrap b in
  layout (set_ring (put_len e (zlen p) (buffer b)) w (start b) u b) (q ++ [p]).
Proof.
  intros e Hl Hm HL Hp Hf Hd u w.
  pose proof (layout_geometry b q Hm HL) as [He Hf0 Hr Hs0]. fold e in He, Hr.
  pose proof (blocks_bounds p). pose proof (zlen_nonneg p).
  assert (HL' : layout (with_buffer (put_len e (zlen p) (buffer b)) b) q).
  { apply layout_write; try done. fold e. rewrite zlen_le_bytes. unfold block_size. lia. }
  assert (Hone : span (put_len e (zlen p) (buffer b)) (size b - 1 - mtu b) e [p] (e + 1 + blocks p)).
  { unfold put_len, block_size in *.
    assert (Hz : zlen (le_bytes 4 (zlen p)) = 4) by (rewrite zlen_le_bytes; lia).
    apply span_one; unfold block_size; [lia|done| |].
    - apply slice_blit_len; rewrite ?Hz; lia.
    - rewrite slice_blit_after by (rewrite ?Hz; lia). done. }
  subst w u e.
  destruct HL' as [Hw Hs Hu Hr' Hq|q1 q2 -> Hs Hw Hu Hq1 Hq2]; cbn in *.
  - destruct (end_straight b) as [E F]; [lia|]. rewrite E, F in *.
    assert (Hall : span (put_len (start b + used b) (zlen p) (buffer b)) (size b - 1 - mtu b)
                     (start b) (q ++ [p]) (start b + used b + 1 + blocks p)).
    { apply span_app. eauto. }
    destruct ((used b + (1 + blocks p) <=? wrap b - start b) &&
              (mtu b >? size b - (start b + used b + 1 + blocks p) - 1)) eqn:C.
    + zb. apply (layout_wrapped _ _ (q ++ [p]) []); cbn; try lia; [by rewrite app_nil_r|done].
    + apply andb_false_iff in C. assert (used b + (1 + blocks p) <= wrap b - start b) by lia.
      destruct C as [C|C]; zb; [lia|].
      apply layout_straight; cbn; try lia.
      by replace (start b + (used b + (1 + blocks p))) with (start b + used b + 1 + blocks p) by lia.
  - destruct (end_wrapped b) as [E F]; [lia|]. rewrite E, F in *.
    rewrite (proj2 (Z.leb_gt _ _)) by lia. cbn.
    apply (layout_wrapped _ _ q1 (q2 ++ [p])); cbn; try lia; try done; [by rewrite app_assoc|].
    apply span_app. eexists. split; [done|].
    by replace (used b + (1 + blocks p) - (wrap b - start b))
      with (used b - (wrap b - start b) + 1 + blocks p) by lia.
Qed.

(** The ring after the packet [p] left. *)
Definition advance (p : list Z) (b : ChunkBuffer2) : ChunkBuffer2 :=
  let s := start b + (1 + blocks p) in
  let '(s, w) := if s =? wrap b then (0, size b) else (s, wrap b) in
  set_ring (buffer b) w s (used b - (1 + blocks p)) b.

Lemma layout_consume b p q :
  0 <= mtu b → layout b (p :: q) →
  layout (advance p b) q ∧
  ChunkBuffer2_end (advance p b) = ChunkBuffer2_end b ∧
  free_blocks b <= free_blocks (advance p b) ∧
  (used b < wrap b - start b → free_blocks (advance p b) = free_blocks b).
Proof.
  intros Hm HL. pose proof (blocks_bounds p) as Hb. unfold advance.
  inversion HL as [Hw Hs Hu Hr Hq|q1 q2 Hq12 Hs Hw Hu Hq1 Hq2].
  - destruct Hq as (Hi & Hp & Hh & Hd & Hq). pose proof (span_le _ _ _ _ _ Hq) as [? _].
    rewrite (proj2 (Z.eqb_neq _ _)) by lia.
    destruct (end_straight b) as [E F]; [lia|].
    set (b' := set_ring _ _ _ _ b). destruct (end_straight b') as [E' F']; [cbn; lia|].
    cbn in E', F'. rewrite E, F, E', F'. split_and!; try lia.
    apply layout_straight; cbn; try lia.
    replace (start b + (1 + blocks p)) with (start b + 1 + blocks p) by lia.
    by replace (start b + 1 + blocks p + (used b - (1 + blocks p))) with (start b + used b) by lia.
  - destruct q1 as [|p' q1]; [simpl in Hq1; lia|]. simplify_eq/=.
    destruct Hq1 as (Hi & Hp & Hh & Hd & Hq1). pose proof (span_le _ _ _ _ _ Hq1) as [? Hne].
    destruct (end_wrapped b) as [E F]; [lia|]. rewrite E, F.
    destruct (Z.eqb_spec (start b + (1 + blocks p')) (wrap b)) as [Es|Es].
    + assert (q1 = []) as -> by (destruct q1; [done|]; destruct Hne; [done|lia]).
      set (b' := set_ring _ _ _ _ b). destruct (end_straight b') as [E' F']; [cbn; lia|].
      cbn in E', F'. rewrite E', F'. split_and!; try lia.
      apply layout_straight; cbn; try lia.
      by replace (used b - (1 + blocks p')) with (used b - (wrap b - start b)) by lia.
    + set (b' := set_ring _ _ _ _ b). destruct (end_wrapped b') as [E' F']; [cbn; lia|].
      cbn in E', F'. rewrite E', F'. split_and!; try lia.
      apply (layout_wrapped _ _ q1 q2); cbn; try lia; try done.
      * by replace (start b + (1 + blocks p')) with (start b + 1 + blocks p') by lia.
      * by replace (used b - (1 + blocks p') - (wrap b - (start b + (1 + blocks p'))))
          with (used b - (wrap b - start b)) by lia.
Qed.

(** ** Correctness of the operations *)

Lemma Init_inv buf n m :
  0 <= m → bdivide_up m block_size + 1 <= n → zlen buf = block_size * n →
  block_size * n <= INT_MAX → inv (ChunkBuffer2_Init buf n m) [].
Proof.
  intros Hm Hn Hl Hz. unfold ChunkBuffer2_Init.
  pose proof (bdivide_up_bounds m block_size Hm eq_refl).
  set (b := mkBuf _ _ _ _ _ _ _ _ _ _).
  assert (HL : layout b []) by (apply layout_straight; cbn; lia).
  rewrite update_input_spec; [|by eapply layout_geometry; [cbn; lia|]|done].
  rewrite (update_output_spec _ []) by (by apply layout_set_input).
  apply inv_intro; cbn; try done; try lia.
  - by apply layout_set_output, layout_set_input.
  - by rewrite <-surjective_pairing.
Qed.

Lemma Submit_inv b q off n :
  inv b q → input_dest b = Some off → 0 <= n <= input_avail b →
  inv (ChunkBuffer2_SubmitPacket n b) (q ++ [slice off n (buffer b)]).
Proof.
  intros HI Hi Hn. pose proof (inv_fields b q HI) as [HF HO]. destruct HI as [Hl Hz Hm HL _].
  pose proof (layout_geometry b q Hm HL) as [He Hf Hr Hs].
  unfold in_spec in HF. destruct (free_blocks b >? 0) eqn:C; [|congruence]. zb.
  rewrite Hi in HF. injection HF as Hoff Hav. unfold block_size in *.
  set (p := slice off n (buffer b)).
  assert (Hp : zlen p = n) by (apply zlen_slice; lia).
  pose proof (bdivide_up_bounds n block_size). assert (Hbl : bdivide_up n block_size = blocks p)
    by (unfold blocks; by rewrite Hp).
  unfold ChunkBuffer2_SubmitPacket. rewrite Hbl, <-Hp.
  assert (Hfit : 1 + blocks p <= free_blocks b).
  { pose proof (blocks_bounds p). lia. }
  pose proof (layout_submit b q p Hl Hm HL) as HL'. cbn zeta in HL'. unfold block_size in HL'.
  assert (Hd : slice (4 * (ChunkBuffer2_end b + 1)) (zlen p) (buffer b) = p)
    by (rewrite Hp, <-Hoff; reflexivity).
  specialize (HL' ltac:(unfold INT_MAX in *; lia) Hfit Hd).
  set (b1 := set_ring _ _ _ _ b) in HL' |- *.
  assert (Hl1 : zlen (buffer b1) = block_size * size b1).
  { cbn. unfold put_len, block_size. rewrite zlen_blit; [lia|lia|]. rewrite zlen_le_bytes. lia. }
  rewrite update_input_spec; [|by eapply layout_geometry; [|exact HL']|done].
  assert (HL2 : layout (set_input (in_spec b1).1 (in_spec b1).2 b1) (q ++ [p]))
    by (by apply layout_set_input).
  destruct (used _ =? _) eqn:Eu; zb.
  - rewrite (update_output_spec _ (q ++ [p])) by done. apply inv_intro; cbn; try done.
    + by apply layout_set_output.
    + by rewrite <-surjective_pairing.
    + by destruct (q ++ [p]).
  - apply inv_intro; cbn; try done; [by rewrite <-surjective_pairing|].
    destruct q as [|p0 q]; [apply layout_head in HL; cbn in Eu; lia|].
    change (out_spec (set_input (in_spec b1).1 (in_spec b1).2 b1) ((p0 :: q) ++ [p]))
      with (out_spec b (p0 :: q)).
    exact HO.
Qed.

Lemma Consume_inv b p q :
  inv b (p :: q) →
  inv (ChunkBuffer2_ConsumePacket b) q ∧
  (∀ off, input_dest b = Some off →
     input_dest (ChunkBuffer2_ConsumePacket b) = Some off ∧
     input_avail b <= input_avail (ChunkBuffer2_ConsumePacket b)) ∧
  buffer (ChunkBuffer2_ConsumePacket b) = buffer b.
Proof.
  intros HI. pose proof (inv_fields _ _ HI) as [HF _]. destruct HI as [Hl Hz Hm HL _].
  pose proof (layout_head _ _ HL) as (_ & q' & j & Hs). apply span_get_len in Hs.
  pose proof (layout_consume b p q Hm HL) as (HL' & He & Hf & Hf').
  assert (Hcons : ChunkBuffer2_ConsumePacket b =
    ChunkBuffer2_update_output (if used b >=? wrap b - start b
      then ChunkBuffer2_update_input (advance p b) else advance p b)).
  { unfold ChunkBuffer2_ConsumePacket, advance. rewrite Hs. fold (blocks p). by case_if. }
  assert (Hsz : size (advance p b) = size b ∧ mtu (advance p b) = mtu b ∧
                buffer (advance p b) = buffer b ∧ input_dest (advance p b) = input_dest b ∧
                input_avail (advance p b) = input_avail b)
    by (unfold advance; by destruct (_ =? _)).
  destruct Hsz as (Hsz & Hmt & Hbf & Hid & Hia).
  assert (Hin : (if used b >=? wrap b - start b
      then ChunkBuffer2_update_input (advance p b) else advance p b) =
      set_input (in_spec (advance p b)).1 (in_spec (advance p b)).2 (advance p b)).
  { case_if.
    - apply update_input_spec; [|by rewrite Hsz]. eapply layout_geometry; [|done]. by rewrite Hmt.
    - assert (E : in_spec (advance p b) = in_spec b) by (unfold in_spec; by rewrite He, Hf').
      rewrite E, <-HF. cbn. rewrite <-Hid, <-Hia. by destruct (advance p b). }
  rewrite Hcons, Hin. set (b' := advance p b) in *.
  assert (HL2 := layout_set_input (in_spec b').1 (in_spec b').2 b' q HL').
  rewrite (update_output_spec _ q) by done. split_and!.
  - apply inv_intro; cbn; rewrite ?Hsz, ?Hmt, ?Hbf; try done.
    + by apply layout_set_output.
    + by rewrite <-surjective_pairing.
    + by destruct q.
  - intros off Hoff. cbn. unfold in_spec in HF |- *. rewrite Hoff in HF.
    destruct (free_blocks b >? 0) eqn:C; [|done]. injection HF as -> ->. zb.
    rewrite He. assert ((free_blocks b' >? 0) = true) as -> by (rewrite Z.gtb_ltb; apply Z.ltb_lt; lia).
    cbn. unfold block_size. split; [done|lia].
  - done.
Qed.

(** The destination lies inside the memory of the ring. *)
Lemma input_bounds b q off :
  inv b q → input_dest b = Some off →
  0 <= off ∧ 0 <= input_avail b ∧ off + input_avail b <= zlen (buffer b).
Proof.
  intros HI Hi. pose proof (inv_fields _ _ HI) as [HF _]. destruct HI as [Hl Hz Hm HL _].
  pose proof (layout_geometry b q Hm HL) as [He Hf Hr Hs].
  unfold in_spec in HF. destruct (free_blocks b >? 0) eqn:C; [|congruence]. zb.
  rewrite Hi in HF. injection HF as -> ->. unfold block_size in *. lia.
Qed.

Lemma write_inv b q off d :
  inv b q → input_dest b = Some off → zlen d <= input_avail b →
  inv (with_buffer (blit off d (buffer b)) b) q.
Proof.
  intros HI Hi Hd. pose proof (inv_fields _ _ HI) as [HF HO]. destruct HI as [Hl Hz Hm HL _].
  pose proof (layout_geometry b q Hm HL) as [He Hf Hr Hs].
  unfold in_spec in HF. destruct (free_blocks b >? 0) eqn:C; [|congruence]. zb.
  rewrite Hi in HF. injection HF as Hoff Hav. unfold block_size in *.
  pose proof (zlen_nonneg d).
  apply inv_intro; cbn; try done.
  - rewrite zlen_blit; [done|lia|lia].
  - apply layout_write; unfold block_size; try done; lia.
  - unfold in_spec. change (free_blocks (with_buffer _ b)) with (free_blocks b).
    change (ChunkBuffer2_end (with_buffer _ b)) with (ChunkBuffer2_end b).
    rewrite (proj2 (Z.gtb_lt _ _)) by lia. unfold block_size. congruence.
Qed.

(** The ring is a packet queue. *)
#[export] Program Instance chunk_queue : PacketQueue ChunkBuffer2 := {|
  holds := inv;
  in_at := input_dest;
  in_avail := input_avail;
  out_at := output_dest;
  out_avail := output_avail;
  memory := buffer;
  with_memory := with_buffer;
  submit := ChunkBuffer2_SubmitPacket;
  consume := ChunkBuffer2_ConsumePacket
|}.
Next Obligation. intros. by apply write_inv. Qed.
Next Obligation. intros. by apply Submit_inv. Qed.
Next Obligation. intros. by eapply Consume_inv. Qed.
Next Obligation.
  intros b p q HI. pose proof (inv_fields _ _ HI) as [_ HO]. cbn in HO. injection HO as Hd Ha.
  eexists. split_and!; [done..|]. destruct HI as [_ _ _ HL _].
  apply layout_head in HL as (_ & q' & j & Hs). by destruct Hs as (_ & _ & _ & -> & _).
Qed.
Next Obligation.
  intros b HI. pose proof (inv_fields _ _ HI) as [_ HO]. cbn in HO. by injection HO as -> ->.
Qed.
Next Obligation.
  intros b p q off n HI Hi Hn. pose proof (Submit_inv _ _ _ _ HI Hi Hn) as HI'. cbn in *.
  pose proof (inv_fields _ _ HI) as [_ HO]. pose proof (inv_fields _ _ HI') as [_ HO'].
  cbn in HO, HO'. injection HO as -> _. injection HO' as -> _.
  unfold ChunkBuffer2_SubmitPacket, ChunkBuffer2_update_input, ChunkBuffer2_update_output.
  by repeat case_if.
Qed.
Next Obligation.
  intros b p q off HI Hi. destruct (Consume_inv b p q HI) as (_ & H & Hb).
  destruct (H off Hi). by split_and!.
Qed.
Next Obligation.
  intros b q off HI Hi. cbn in *. pose proof (input_bounds b q off HI Hi). lia.
Qed.
Next Obligation.
  intros b q HI Hi. cbn in *. pose proof (inv_fields _ _ HI) as [HF _]. unfold in_spec in HF.
  rewrite Hi in HF. destruct (_ >? 0); [done|]. injection HF as ->. lia.
Qed.
Next Obligation. done. Qed.
Next Obligation. done. Qed.
Next Obligation. done. Qed.

(** ** Capacity *)

(** The blocks a sequence of packets takes. *)
Fixpoint total (q : list (list Z)) : Z :=
  match q with [] => 0 | p :: q' => 1 + blocks p + total q' end.

Lemma span_total bs lim i q j : span bs lim i q j → j = i + total q.
Proof.
  revert i. induction q as [|p q IH]; intros i; simpl; [lia|].
  intros (_ & _ & _ & _ & H). apply IH in H. lia.
Qed.

Lemma total_app q1 q2 : total (q1 ++ q2) = total q1 + total q2.
Proof. induction q1; simpl; lia. Qed.

Lemma total_bound m q : 0 <= m → Forall (λ p, blocks p <= m) q → total q <= zlen q * (1 + m).
Proof.
  intros Hm. induction 1; simpl; [done|]. rewrite zlen_cons.
  pose proof (zlen_nonneg l). nia.
Qed.

Lemma layout_used b q : layout b q → used b = total q.
Proof.
  intros [Hw Hs Hu Hr Hq|q1 q2 -> Hs Hw Hu Hq1 Hq2].
  - apply span_total in Hq. lia.
  - rewrite total_app. apply span_total in Hq1, Hq2. lia.
Qed.

(** With room for [num + 1] packets of full size there is always room for a
    packet of full size while fewer than [num] are stored. *)
Lemma room b q num :
  inv b q → (num + 1) * (1 + mtu b) <= size b → zlen q < num →
  Forall (λ p, blocks p <= mtu b) q →
  ∃ off, input_dest b = Some off ∧ block_size * mtu b <= input_avail b.
Proof.
  intros HI Hs Hq HF. pose proof (inv_fields _ _ HI) as [HS _]. destruct HI as [Hl Hz Hm HL _].
  apply total_bound in HF; [|done]. pose proof (layout_used _ _ HL) as Hu.
  assert (Hfree : 1 + mtu b <= free_blocks b).
  { destruct HL as [Hw Hs' Hu' Hr Hsp|q1 q2 -> Hs' Hw Hu' Hq1 Hq2].
    - destruct (end_straight b) as [_ ->]; lia.
    - destruct (end_wrapped b) as [_ ->]; [lia|]. nia. }
  unfold in_spec in HS. rewrite (proj2 (Z.gtb_lt _ _)) in HS by lia. injection HS as -> ->.
  eexists. split; [done|]. unfold block_size. lia.
Qed.

Lemma Submit_size n b :
  mtu (ChunkBuffer2_SubmitPacket n b) = mtu b ∧ size (ChunkBuffer2_SubmitPacket n b) = size b.
Proof.
  unfold ChunkBuffer2_SubmitPacket, ChunkBuffer2_update_input, ChunkBuffer2_update_output.
  by repeat case_if.
Qed.

Lemma Consume_size b :
  mtu (ChunkBuffer2_ConsumePacket b) = mtu b ∧ size (ChunkBuffer2_ConsumePacket b) = size b.
Proof.
  unfold ChunkBuffer2_ConsumePacket, ChunkBuffer2_update_input, ChunkBuffer2_update_output.
  by repeat case_if.
Qed.

Lemma fits_blocks m b q :
  mtu b = bdivide_up m block_size → Forall (λ p, zlen p <= m) q → Forall (λ p, blocks p <= mtu b) q.
Proof.
  intros Hm HF. eapply Forall_impl; [exact HF|]. intros p Hp. cbn beta in *. rewrite Hm. unfold blocks.
  pose proof (zlen_nonneg p). apply bdivide_up_mono; [lia|done].
Qed.

#[export] Program Instance chunk_bounded : BoundedQueue ChunkBuffer2 := {|
  sized := λ m n b, 0 <= m ∧ mtu b = bdivide_up m block_size ∧ (n + 1) * (1 + mtu b) <= size b
|}.
Next Obligation. done. Qed.
Next Obligation. intros m n len b. cbn. destruct (Submit_size len b) as [-> ->]. done. Qed.
Next Obligation. intros m n b. cbn. destruct (Consume_size b) as [-> ->]. done. Qed.
Next Obligation.
  intros m n b q HI (H0 & Hm & Hs) HF Hq. cbn in *.
  destruct (room b q n HI Hs Hq (fits_blocks m b q Hm HF)) as (off & Ho & Ha).
  exists off. split; [done|]. pose proof (bdivide_up_bounds m block_size H0 eq_refl). lia.
Qed.

(** ** The assertions hold *)
Lemma layout_bounds b q : 0 <= mtu b → layout b q →
  0 <= start b < wrap b ∧ wrap b <= size b ∧ 0 <= used b <= wrap b ∧ (wrap b = size b ∨ wrap b - start b <= used b).
Proof. intros Hm [Hw Hs Hu Hr Hq|q1 q2 -> Hs Hw Hu Hq1 Hq2]; lia. Qed.

Lemma layout_head_blocks b p q : 0 <= mtu b → layout b (p :: q) → blocks p <= used b - 1 ∧ blocks p <= wrap b - start b - 1.
Proof.
  intros Hm [Hw Hs Hu Hr Hq|q1 q2 E Hs Hw Hu Hq1 Hq2].
  - destruct Hq as (Hi & _ & _ & _ & Hq). apply span_le in Hq as [Hq _]. lia.
  - destruct q1 as [|p1 q1]; [simpl in Hq1; lia|]. injection E as <- ->. destruct Hq1 as (_ & _ & _ & _ & Hq1). apply span_le in Hq1 as [Hq1 _]. lia.
Qed.

Lemma assert_buffer_ok b q : inv b q → assert_buffer b = true.
Proof.
  intros [Hl Hz Hm HL _]. destruct (layout_bounds b q Hm HL) as (H1 & H2 & H3 & H4). unfold assert_buffer.
  rewrite !Z.gtb_ltb, !Z.geb_leb. repeat (apply andb_true_intro; split); try (apply Z.ltb_lt; lia); try (apply Z.leb_le; lia).
  apply orb_true_iff. destruct H4; [left; by apply Z.eqb_eq|right; by apply Z.leb_le].
Qed.

Lemma assert_io_ok b q : inv b q → assert_io b = true.
Proof.
  intros HI. pose proof (inv_fields _ _ HI) as [HF HO]. destruct HI as [Hl Hz Hm HL _].
  pose proof (layout_geometry b q Hm HL) as [He Hf Hr Hs]. unfold assert_io. apply andb_true_intro. split.
  - case_if; [lia|]. fold (free_blocks b). unfold in_spec in HF. destruct (free_blocks b >? 0); injection HF as -> ->.
    + rewrite bool_decide_true by done. by rewrite Z.eqb_refl.
    + done.
  - pose proof (layout_head _ _ HL) as Hh. destruct q as [|p q]; cbn in HO; injection HO as -> ->; [by rewrite Hh|].
    destruct Hh as (Hu & q' & j & Hsp). rewrite (proj2 (Z.gtb_lt _ _)) by lia. rewrite (span_get_len _ _ _ _ _ _ Hsp). fold (blocks p).
    destruct (layout_head_blocks b p q Hm HL). rewrite bool_decide_true by done. rewrite Z.eqb_refl, !andb_true_r, Z.geb_leb.
    pose proof (zlen_nonneg p). repeat (apply andb_true_intro; split); apply Z.leb_le; lia.
Qed.

Lemma assert_submit_ok b q off n : inv b q → input_dest b = Some off → 0 <= n <= input_avail b → assert_submit n b = true.
Proof.
  intros HI Hi Hn. pose proof (assert_buffer_ok b q HI) as A1. pose proof (assert_io_ok b q HI) as A2. pose proof (inv_fields _ _ HI) as [HF _].
  destruct HI as [Hl Hz Hm HL _]. pose proof (layout_geometry b q Hm HL) as [He Hf Hr Hs]. pose proof (layout_bounds b q Hm HL) as (L1 & L2 & L3 & L4).
  unfold assert_submit. rewrite A1, A2, Hi, bool_decide_true by done. rewrite Z.geb_leb.
  unfold in_spec in HF. destruct (free_blocks b >? 0) eqn:C; [|congruence]. rewrite Hi in HF. injection HF as _ Hav. zb.
  pose proof (bdivide_up_bounds n block_size ltac:(lia) eq_refl) as Hb. unfold block_size in *.
  repeat (apply andb_true_intro; split); try done; try (apply Z.leb_le; lia).
  apply orb_true_iff. destruct (used b <? wrap b - start b) eqn:E; [by left|right]. zb.
  unfold free_blocks in *. rewrite Z.geb_leb, (proj2 (Z.leb_le _ _)) in * by lia. apply Z.leb_le. lia.
Qed.

Lemma assert_consume_ok b p q : inv b (p :: q) → assert_consume b = true.
Proof.
  intros HI. pose proof (assert_buffer_ok b _ HI) as A1. pose proof (assert_io_ok b _ HI) as A2. pose proof (inv_fields _ _ HI) as [_ HO].
  destruct HI as [Hl Hz Hm HL _]. cbn in HO. injection HO as Ho _. unfold assert_consume. rewrite A1, A2, Ho, bool_decide_true by done.
  destruct (layout_bounds b _ Hm HL) as (L1 & L2 & L3 & L4). destruct (layout_head _ _ HL) as (Hu & q' & j & Hsp). rewrite (span_get_len _ _ _ _ _ _ Hsp). fold (blocks p).
  destruct (layout_head_blocks b p q Hm HL). repeat (apply andb_true_intro; split); try done; apply Z.leb_le; lia.
Qed.

(** ** Use as a queue

    [Put d]: the user copies the packet [d] to [input_dest] and submits it.
    [Take]: it reads the packet at [output_dest] and consumes it.  [None]: an
    assertion of the source fails. *)
Inductive cmd := Put (d : list Z) | Take.

Definition checked (b : ChunkBuffer2) (o : list (list Z)) : option (ChunkBuffer2 * list (list Z)) :=
  if assert_buffer b && assert_io b then Some (b, o) else None.

Definition cstep (b : ChunkBuffer2) (c : cmd) : option (ChunkBuffer2 * list (list Z)) :=
  match c with
  | Put d =>
      off ← input_dest b;
      let b := with_buffer (blit off d (buffer b)) b in
      if assert_submit (zlen d) b then checked (ChunkBuffer2_SubmitPacket (zlen d) b) [] else None
  | Take =>
      off ← output_dest b;
      if assert_consume b then checked (ChunkBuffer2_ConsumePacket b) [slice off (output_avail b) (buffer b)] else None
  end.

Fixpoint crun (b : ChunkBuffer2) (cs : list cmd) : option (ChunkBuffer2 * list (list Z)) :=
  match cs with
  | [] => Some (b, [])
  | c :: cs' => '(b, o) ← cstep b c; '(b, o') ← crun b cs'; Some (b, o ++ o')
  end.

(** The packets that a sequence of commands writes. *)
Fixpoint puts (cs : list cmd) : list (list Z) := match cs with [] => [] | Put d :: cs' => d :: puts cs' | Take :: cs' => puts cs' end.

(** The same commands on a queue of packets of at most [m] bytes that holds
    at most [num] of them. *)
Fixpoint qrun (m num : Z) (q : list (list Z)) (cs : list cmd)
  : option (list (list Z) * list (list Z)) :=
  match cs with
  | [] => Some (q, [])
  | Put d :: cs' =>
      if (zlen d <=? m) && (zlen q <? num) then qrun m num (q ++ [d]) cs' else None
  | Take :: cs' =>
      match q with
      | [] => None
      | p :: q' => '(q, o) ← qrun m num q' cs'; Some (q, p :: o)
      end
  end.

Definition fits (b : ChunkBuffer2) (q : list (list Z)) : Prop := Forall (λ p, blocks p <= mtu b) q.

Lemma checked_ok b q o : inv b q → checked b o = Some (b, o).
Proof. intros HI. unfold checked. by rewrite (assert_buffer_ok _ _ HI), (assert_io_ok _ _ HI). Qed.

(** Whatever fits into the space that is reported can be written. *)
Lemma put_ok b q d off : inv b q → input_dest b = Some off → zlen d <= input_avail b →
  ∃ b', cstep b (Put d) = Some (b', []) ∧ inv b' (q ++ [d]) ∧ mtu b' = mtu b ∧ size b' = size b.
Proof.
  intros HI Hoff Hd. pose proof (write_inv b q off d HI Hoff Hd) as HW. pose proof (zlen_nonneg d).
  pose proof (Submit_inv _ _ off (zlen d) HW Hoff ltac:(cbn; lia)) as HS. cbn [buffer with_buffer set_ring] in HS.
  pose proof (input_bounds b q off HI Hoff) as Hb. rewrite slice_blit_eq in HS by lia.
  unfold cstep. rewrite Hoff. cbn [mbind option_bind]. rewrite (assert_submit_ok _ _ off (zlen d) HW Hoff) by (cbn; lia). rewrite (checked_ok _ _ _ HS).
  eexists. split_and!; [done|done|by rewrite (proj1 (Submit_size _ _))|by rewrite (proj2 (Submit_size _ _))].
Qed.

Lemma take_ok b p q : inv b (p :: q) → ∃ b', cstep b Take = Some (b', [p]) ∧ inv b' q ∧ mtu b' = mtu b ∧ size b' = size b.
Proof.
  intros HI. destruct (@out_ok _ chunk_queue b p q HI) as (off & Hoff & Hav & Hp). cbn in Hoff, Hav, Hp. pose proof (proj1 (Consume_inv b p q HI)) as HC.
  unfold cstep. rewrite Hoff. cbn [mbind option_bind]. rewrite (assert_consume_ok _ _ _ HI), (checked_ok _ _ _ HC), Hav, Hp.
  eexists. split_and!; [done|done|by rewrite (proj1 (Consume_size b))|by rewrite (proj2 (Consume_size b))].
Qed.

Lemma cstep_put b q d num :
  inv b q → fits b q → (num + 1) * (1 + mtu b) <= size b → zlen q < num →
  blocks d <= mtu b →
  ∃ b', cstep b (Put d) = Some (b', []) ∧ inv b' (q ++ [d]) ∧ fits b' (q ++ [d]) ∧
        mtu b' = mtu b ∧ size b' = size b.
Proof.
  intros HI HF Hs Hq Hd. destruct (room b q num HI Hs Hq HF) as (off & Hoff & Hav).
  pose proof (blocks_bounds d) as Hb. unfold block_size in Hav. destruct (put_ok b q d off HI Hoff) as (b' & E & HI' & Hm & Hz); [lia|].
  exists b'. split_and!; try done. unfold fits. rewrite Hm. apply Forall_app. split; [done|]. by constructor.
Qed.

Lemma cstep_take b p q :
  inv b (p :: q) → fits b (p :: q) →
  ∃ b', cstep b Take = Some (b', [p]) ∧ inv b' q ∧ fits b' q ∧ mtu b' = mtu b ∧ size b' = size b.
Proof.
  intros HI HF. destruct (take_ok b p q HI) as (b' & E & HI' & Hm & Hz). exists b'. split_and!; try done. unfold fits. rewrite Hm. by inversion HF.
Qed.

(** Any sequence of commands that the buffer accepts keeps the packets. *)
Lemma crun_inv cs : ∀ b q b' o, inv b q → crun b cs = Some (b', o) → ∃ q', inv b' q' ∧ q ++ puts cs = o ++ q'.
Proof.
  induction cs as [|c cs IH]; intros b q b' o HI; cbn [crun].
  - intros [= <- <-]. exists q. split; [done|]. by rewrite app_nil_r.
  - intros H. apply bind_Some in H as ([b1 o1] & E1 & H). apply bind_Some in H as ([b2 o2] & E2 & [= <- <-]). destruct c as [d|]; cbn [puts].
    + assert (∃ off, input_dest b = Some off ∧ zlen d <= input_avail b) as (off & Hoff & Hd).
      { unfold cstep in E1. destruct (input_dest b) as [off|]; [|done]. exists off. split; [done|]. cbn in E1.
        destruct (assert_submit _ _) eqn:A; [|done]. unfold assert_submit in A. do 4 apply andb_true_iff in A as [A _].
        apply andb_true_iff in A as [_ A]. by apply Z.leb_le in A. }
      destruct (put_ok b q d off HI Hoff Hd) as (b1' & E & HI1 & _). rewrite E in E1. injection E1 as <- <-.
      destruct (IH _ _ _ _ HI1 E2) as (q' & HI' & Hq). exists q'. split; [done|]. by rewrite <-app_assoc in Hq.
    + destruct q as [|p q].
      { destruct (@out_empty _ chunk_queue b HI) as [Ho _]. cbn in Ho. unfold cstep in E1. by rewrite Ho in E1. }
      destruct (take_ok b p q HI) as (b1' & E & HI1 & _). rewrite E in E1. injection E1 as <- <-.
      destruct (IH _ _ _ _ HI1 E2) as (q' & HI' & Hq). exists q'. split; [done|]. cbn. by rewrite Hq.
Qed.

(** All packets can be read. *)
Lemma drain q : ∀ b, inv b q → ∃ b', crun b (replicate (length q) Take) = Some (b', q).
Proof.
  induction q as [|p q IH]; intros b HI; [by exists b|]. destruct (take_ok b p q HI) as (b1 & E & HI1 & _). destruct (IH b1 HI1) as [b' E'].
  exists b'. cbn [length replicate crun]. rewrite E. cbn [mbind option_bind]. by rewrite E'.
Qed.

Lemma crun_qrun m num cs : ∀ b q q' o,
  inv b q → fits b q → (num + 1) * (1 + mtu b) <= size b → mtu b = bdivide_up m block_size →
  qrun m num q cs = Some (q', o) →
  ∃ b', crun b cs = Some (b', o) ∧ inv b' q'.
Proof.
  induction cs as [|c cs IH]; intros b q q' o HI HF Hs Hm; cbn [crun qrun].
  - intros [= <- <-]. eauto.
  - destruct c as [d|].
    + destruct ((zlen d <=? m) && (zlen q <? num)) eqn:C; [|done]. zb. intros Hq.
      destruct (cstep_put b q d num HI HF Hs) as (b1 & E1 & HI1 & HF1 & Hm1 & Hs1); [done| |].
      { rewrite Hm. unfold blocks. pose proof (zlen_nonneg d). apply bdivide_up_mono; [lia|done]. }
      destruct (IH b1 (q ++ [d]) q' o HI1 HF1) as (b2 & E2 & HI2); [by rewrite Hm1, Hs1|congruence|done|].
      exists b2. rewrite E1. cbn [mbind option_bind]. by rewrite E2.
    + destruct q as [|p q]; [done|]. intros H.
      apply bind_Some in H as ([q2 o2] & Hq & [= <- <-]).
      destruct (cstep_take b p q HI HF) as (b1 & E1 & HI1 & HF1 & Hm1 & Hs1).
      destruct (IH b1 q q2 o2 HI1 HF1) as (b2 & E2 & HI2); [by rewrite Hm1, Hs1|congruence|done|].
      exists b2. rewrite E1. cbn [mbind option_bind]. by rewrite E2.
Qed.

(** The product the guards of [ChunkBuffer2_calc_blocks] are about. *)
Definition blocks_needed (chunk_len num : Z) : Z := (1 + bdivide_up chunk_len block_size) * (num + 1).

Lemma calc_blocks_spec chunk_len num :
  0 <= chunk_len <= INT_MAX → 0 <= num <= INT_MAX →
  ChunkBuffer2_calc_blocks chunk_len num =
  if blocks_needed chunk_len num <=? INT_MAX then blocks_needed chunk_len num else -1.
Proof.
  intros Hc Hn. unfold ChunkBuffer2_calc_blocks, blocks_needed.
  pose proof (bdivide_up_bounds chunk_len block_size ltac:(lia) eq_refl) as Hb.
  unfold INT_MAX, block_size in *. rewrite int32_small by (unfold INT_MAX; lia).
  set (k := bdivide_up chunk_len 4) in *.
  case_if; [lia|]. case_if; [case_if; [nia|done]|].
  pose proof (Z.mul_div_le 2147483647 (num + 1) ltac:(lia)).
  pose proof (Z.mul_succ_div_gt 2147483647 (num + 1) ltac:(lia)).
  case_if; case_if; try done; nia.
Qed.

(** C21: The ring buffer is a first-in first-out queue of packets.  Sized by
    [ChunkBuffer2_calc_blocks] for [num] packets of [m] bytes, it accepts every
    sequence of submitting and consuming packets that never exceeds [num]
    packets of at most [m] bytes and never reads an empty buffer, and passes all
    the assertions of the code.  After any sequence that it accepts, also with
    other packets, limited only by the space that it reports, what was read is
    what was written, in order, byte for byte, and the rest is still there: all
    of it can be read.  The space it reports lies in the buffer and is free: if
    as much as that is written into it and submitted, everything is read as
    before, and then the new packet. *)
Theorem chunk_buffer_fifo m num buf cs :
  0 <= m <= INT_MAX → 0 < num <= INT_MAX →
  let n := ChunkBuffer2_calc_blocks m num in
  n ≠ -1 → block_size * n <= INT_MAX → zlen buf = block_size * n →
  (∀ q o, qrun m num [] cs = Some (q, o) → ∃ b, crun (ChunkBuffer2_Init buf n m) cs = Some (b, o)) ∧
  (∀ b o, crun (ChunkBuffer2_Init buf n m) cs = Some (b, o) →
     ∃ q, puts cs = o ++ q ∧ (∃ b', crun b (replicate (length q) Take) = Some (b', q)) ∧
       ∀ off d, input_dest b = Some off → zlen d <= input_avail b →
         0 <= off ∧ off + input_avail b <= zlen (buffer b) ∧
         ∃ b', crun b (Put d :: replicate (length (q ++ [d])) Take) = Some (b', q ++ [d])).
Proof.
  intros Hm Hnum n Hn Hsz Hl. unfold n in *. rewrite calc_blocks_spec in * by lia.
  destruct (blocks_needed m num <=? INT_MAX) eqn:E; [|done]. unfold blocks_needed in *.
  pose proof (bdivide_up_bounds m block_size ltac:(lia) eq_refl) as Hb. set (k := bdivide_up m block_size) in *.
  assert (Hinit : inv (ChunkBuffer2_Init buf ((1 + k) * (num + 1)) m) []).
  { apply Init_inv; try done; fold k; nia. }
  assert (Hfld : mtu (ChunkBuffer2_Init buf ((1 + k) * (num + 1)) m) = k ∧
                 size (ChunkBuffer2_Init buf ((1 + k) * (num + 1)) m) = (1 + k) * (num + 1)).
  { unfold ChunkBuffer2_Init, ChunkBuffer2_update_output, ChunkBuffer2_update_input.
    by repeat case_if. }
  destruct Hfld as [Hf1 Hf2]. split.
  - intros q o Hq. destruct (crun_qrun m num cs _ [] q o Hinit) as (b & Eb & _); [constructor|rewrite Hf1, Hf2; lia|done|done|eauto].
  - intros b o Hr. destruct (crun_inv cs _ _ _ _ Hinit Hr) as (q & HI & Hq). exists q. split_and!; [done|by apply drain|].
    intros off d Hoff Hd. destruct (input_bounds b q off HI Hoff) as (B1 & B2 & B3). split_and!; [done|done|].
    destruct (put_ok b q d off HI Hoff Hd) as (b1 & E1 & HI1 & _). destruct (drain _ _ HI1) as [b2 E2]. exists b2.
    cbn [crun]. rewrite E1. cbn [mbind option_bind]. by rewrite E2.
Qed.

(** A run in which the data wrap around; 4 bytes are free at the end of it. *)
Definition fifo_cmds : list cmd := [Put [1; 2; 3]; Put []; Take; Put [4; 5; 6; 7; 8]; Take; Put [9; 10]].
Lemma chunk_buffer_fifo_witness :
  ∃ b, crun (ChunkBuffer2_Init (replicate 36 0) 9 6) fifo_cmds = Some (b, [[1; 2; 3]; []]) ∧
    ∃ q, puts fifo_cmds = [[1; 2; 3]; []] ++ q ∧ ∃ b', crun b (replicate (length q) Take) = Some (b', q).
Proof.
  assert (E : ChunkBuffer2_calc_blocks 6 2 = 9) by (vm_compute; reflexivity).
  pose proof (chunk_buffer_fifo 6 2 (replicate 36 0) fifo_cmds) as H. cbv zeta in H. rewrite E in H.
  destruct H as [Hacc Hkeep]; [unfold INT_MAX; lia|unfold INT_MAX; lia|done|unfold INT_MAX, block_size; lia|reflexivity|].
  destruct (Hacc [[4; 5; 6; 7; 8]; [9; 10]] [[1; 2; 3]; []]) as [b Hb]; [reflexivity|]. exists b. split; [exact Hb|].
  destruct (Hkeep b _ Hb) as (q & Hq & Hd & _). exists q. split; [exact Hq|exact Hd].
Defined.

(** [ChunkBuffer2_calc_blocks] never overflows an [int]: for
    non-negative arguments it returns the number of blocks
    (one for the length and the rounded-up data, once per packet and once
    more) when it is representable, and -1 exactly when it is not. *)
Lemma calc_blocks_exact chunk_len num :
  0 <= chunk_len <= INT_MAX → 0 <= num <= INT_MAX →
  let exact := (1 + bdivide_up chunk_len block_size) * (num + 1) in
  (exact <= INT_MAX → ChunkBuffer2_calc_blocks chunk_len num = exact) ∧
  (INT_MAX < exact → ChunkBuffer2_calc_blocks chunk_len num = -1).
Proof.
  intros Hc Hn exact. rewrite calc_blocks_spec by done. fold (blocks_needed chunk_len num) in exact.
  split; intros; case_if; unfold exact in *; lia.
Qed.

Lemma calc_blocks_exact_witness :
  ChunkBuffer2_calc_blocks 1500 10 = 4136 ∧ ChunkBuffer2_calc_blocks 65535 INT_MAX = -1.
Proof.
  split.
  - apply (calc_blocks_exact 1500 10); vm_compute; try done; split; congruence.
  - apply (calc_blocks_exact 65535 INT_MAX); vm_compute; try done; split; congruence.
Defined.

End ChunkBuffer2.
