(* ===== verification/PacketProto.v ===== *)
(** * Packets over a byte stream ([protocol/packetproto.h],
      [flow/PacketProtoEncoder.c], [flow/PacketProtoDecoder.c],
      [flow/PacketStreamSender.c])

    Packets are carried over a TCP connection as a 16-bit little-endian
    length followed by the payload.  [Encoder] prepends the length,
    [StreamSender] pushes a packet through an interface that takes as many
    bytes at a time as it likes, [Decoder] cuts the stream it receives in
    pieces of any size back into packets.  [Roundtrip] puts them together. *)

From S2P Require Import Prelude.

(** [sizeof(struct packetproto_header)], [PACKETPROTO_ENCLEN],
    [PACKETPROTO_MAXPAYLOAD] *)
Definition header_size : Z := 2.
Definition PACKETPROTO_ENCLEN (len : Z) : Z := header_size + len.
Definition PACKETPROTO_MAXPAYLOAD : Z := UINT16_MAX.

(** The protocol: one packet on the wire. *)
Definition encode (p : list Z) : list Z := le_bytes 2 (zlen p) ++ p.
Definition encode_all (ps : list (list Z)) : list Z := concat (encode <$> ps).

Lemma zlen_encode p : zlen (encode p) = PACKETPROTO_ENCLEN (zlen p).
Proof. unfold encode, PACKETPROTO_ENCLEN, header_size. rewrite zlen_app, zlen_le_bytes. lia. Qed.

Lemma encode_all_app a b : encode_all (a ++ b) = encode_all a ++ encode_all b.
Proof. unfold encode_all. by rewrite fmap_app, concat_app. Qed.

Lemma encode_all_one p : encode_all [p] = encode p.
Proof. apply app_nil_r. Qed.

(** ** Encoder *)
Module Encoder.

Record PacketProtoEncoder := mkEnc {
  input_mtu : Z;                 (* PacketRecvInterface_GetMTU(input) *)
  output_packet : option Z       (* destination of the packet being built *)
}.

(** Calls to the input, stores into the packet and completion of the output. *)
Inductive eff := RecvInput (dest : Z) | Store (dest : Z) (d : list Z) | OutputDone (len : Z).

Definition PacketProtoEncoder_Init (input_mtu : Z) : option PacketProtoEncoder :=
  if input_mtu <=? PACKETPROTO_MAXPAYLOAD then Some (mkEnc input_mtu None) else None.

(** MTU of the interface it provides. *)
Definition PacketProtoEncoder_GetOutput (e : PacketProtoEncoder) : Z :=
  PACKETPROTO_ENCLEN (input_mtu e).

Definition PacketProtoEncoder_output_handler_recv (data : Z) : M PacketProtoEncoder eff unit :=
  e ← get;
  ASSERT (bool_decide (output_packet e = None));;
  modify (λ e, mkEnc (input_mtu e) (Some data));;
  emit (RecvInput (data + header_size)).

Definition PacketProtoEncoder_input_handler_done (in_len : Z) : M PacketProtoEncoder eff unit :=
  e ← get;
  match output_packet e with
  | None => ASSERT false
  | Some data =>
      emit (Store data (le_bytes 2 (u16 in_len)));;
      modify (λ e, mkEnc (input_mtu e) None);;
      emit (OutputDone (PACKETPROTO_ENCLEN in_len))
  end.

(** One packet through the encoder: the consumer asks for a packet at [dest],
    the input writes the payload [p] where it is told to, and the consumer
    reads as many bytes as it is told it got. *)
Definition run_eff (p mem : list Z) (es : list eff) : list Z * option Z :=
  foldl (λ '(m, r) e, match e with
                      | RecvInput dest => (blit dest p m, r)
                      | Store dest d => (blit dest d m, r)
                      | OutputDone len => (m, Some len)
                      end) (mem, None) es.

Definition build (e : PacketProtoEncoder) (mem : list Z) (dest : Z) (p : list Z) : option (list Z) :=
  '(_, e1, es1) ← PacketProtoEncoder_output_handler_recv dest e;
  '(_, e2, es2) ← PacketProtoEncoder_input_handler_done (zlen p) e1;
  match run_eff p mem (es1 ++ es2), output_packet e2 with
  | (mem', Some len), None => Some (slice dest len mem')
  | _, _ => None
  end.

(** The encoder builds the wire form of the packet in place. *)
Lemma build_encode mtu e mem dest p :
  PacketProtoEncoder_Init mtu = Some e → zlen p <= mtu →
  0 <= dest → dest + PacketProtoEncoder_GetOutput e <= zlen mem →
  build e mem dest p = Some (encode p).
Proof.
  unfold PacketProtoEncoder_Init, PacketProtoEncoder_GetOutput, PACKETPROTO_ENCLEN, PACKETPROTO_MAXPAYLOAD, UINT16_MAX.
  case_if; intros Hi Hp Hd Hm; [|done]. simplify_eq. cbn [input_mtu] in Hm. pose proof (zlen_nonneg p) as Hp0.
  unfold build, PacketProtoEncoder_output_handler_recv, PacketProtoEncoder_input_handler_done. mrun.
  unfold PACKETPROTO_ENCLEN, header_size in *. f_equal.
  assert (Hh : zlen (le_bytes 2 (u16 (zlen p))) = 2) by apply zlen_le_bytes.
  assert (Hb : zlen (blit (dest + 2) p mem) = zlen mem) by (apply zlen_blit; lia).
  rewrite slice_split by lia. unfold encode. f_equal.
  - rewrite slice_blit_len by lia. f_equal. apply u16_small. unfold is_u16, UINT16_MAX. lia.
  - rewrite slice_blit_after by lia. apply slice_blit_eq; lia.
Qed.

End Encoder.

(** ** Sending a packet over a stream *)
Module StreamSender.

(** [in_] is the packet itself; the pointer stays valid until the input is
    completed. *)
Record PacketStreamSender := mkS { in_ : list Z; in_len : Z; in_used : Z }.

Inductive eff := StreamSend (d : list Z) | InputDone.

Definition PacketStreamSender_Init : PacketStreamSender := mkS [] (-1) 0.

Definition PacketStreamSender_send_data : M PacketStreamSender eff unit :=
  s ← get;
  ASSERT (0 <=? in_len s);;
  if in_used s <? in_len s then
    emit (StreamSend (slice (in_used s) (in_len s - in_used s) (in_ s)))
  else
    modify (λ s, mkS (in_ s) (-1) (in_used s));;
    emit InputDone.

Definition PacketStreamSender_input_handler_send (data : list Z) (data_len : Z)
  : M PacketStreamSender eff unit :=
  s ← get;
  ASSERT (in_len s =? -1);;
  ASSERT (0 <=? data_len);;
  modify (λ _, mkS data data_len 0);;
  PacketStreamSender_send_data.

Definition PacketStreamSender_output_handler_done (data_len : Z)
  : M PacketStreamSender eff unit :=
  s ← get;
  ASSERT (0 <=? in_len s);;
  ASSERT (0 <? data_len);;
  ASSERT (data_len <=? in_len s - in_used s);;
  modify (λ s, mkS (in_ s) (in_len s) (in_used s + data_len));;
  PacketStreamSender_send_data.

(** The sender with the two interfaces at its ends: what it offers to the
    stream, and what the stream has taken. *)
Record link := mkL { sender : PacketStreamSender; offered : option (list Z); taken : list Z; completed : nat }.

Definition apply_eff (l : link) (s : PacketStreamSender) (es : list eff) : link :=
  foldl (λ l e, match e with
                | StreamSend d => mkL (sender l) (Some d) (taken l) (completed l)
                | InputDone => mkL (sender l) None (taken l) (S (completed l))
                end) (mkL s None (taken l) (completed l)) es.

(** [Packet d]: the next packet arrives; [Took n]: the stream accepts [n] of
    the bytes it is offered. *)
Inductive ev := Packet (d : list Z) | Took (n : Z).

Definition lstep (l : link) (e : ev) : option link :=
  match e with
  | Packet d =>
      match offered l, PacketStreamSender_input_handler_send d (zlen d) (sender l) with
      | None, Some (_, s, es) => Some (apply_eff l s es)
      | _, _ => None
      end
  | Took n =>
      match offered l with
      | None => None
      | Some d =>
          if (0 <? n) && (n <=? zlen d) then
            '(_, s, es) ← PacketStreamSender_output_handler_done n (sender l);
            Some (apply_eff (mkL (sender l) (offered l) (taken l ++ slice 0 n d) (completed l)) s es)
          else None
      end
  end.

Fixpoint lrun (l : link) (es : list ev) : option link :=
  match es with [] => Some l | e :: es' => l ← lstep l e; lrun l es' end.

Definition linit : link := mkL PacketStreamSender_Init None [] 0.

Definition packets (es : list ev) : list (list Z) :=
  omap (λ e, match e with Packet d => Some d | _ => None end) es.

(** Bytes of the current packet that are still to go. *)
Definition remaining (l : link) : list Z := default [] (offered l).

Definition inv (l : link) : Prop :=
  match offered l with
  | None => in_len (sender l) = -1
  | Some d =>
      0 <= in_used (sender l) < in_len (sender l) ∧ in_len (sender l) = zlen (in_ (sender l)) ∧
      d = slice (in_used (sender l)) (in_len (sender l) - in_used (sender l)) (in_ (sender l))
  end.

Lemma slice_drop {A} (a n : Z) (l : list A) :
  0 <= a → 0 <= n → a + n <= zlen l →
  slice a (zlen l - a) l = slice a n l ++ slice (a + n) (zlen l - (a + n)) l.
Proof. intros. rewrite <-slice_split by lia. f_equal. lia. Qed.

Lemma packet_step l d :
  inv l → offered l = None →
  ∃ l', lstep l (Packet d) = Some l' ∧ inv l' ∧ taken l' = taken l ∧ remaining l' = d ∧
        completed l' = (completed l + if decide (d = []) then 1 else 0)%nat.
Proof.
  intros HI Ho. unfold inv in HI. rewrite Ho in HI. simpl. rewrite Ho.
  unfold PacketStreamSender_input_handler_send, PacketStreamSender_send_data. mrun.
  rewrite HI. cbn. zdec. cbn. zdec. cbn.
  destruct (0 <? zlen d) eqn:C; zb; simpl; eexists; (split; [reflexivity|]); unfold inv, apply_eff; simpl.
  - rewrite Z.sub_0_r, slice_all. split_and!; try done; try lia.
    rewrite decide_False; [lia|]. intros ->. unfold zlen in C; simpl in C; lia.
  - assert (d = []) as -> by (apply zlen_zero_inv; pose proof (zlen_nonneg d); lia).
    split_and!; try done. simpl. lia.
Qed.

Lemma took_step l d n :
  inv l → offered l = Some d → 0 < n <= zlen d →
  ∃ l', lstep l (Took n) = Some l' ∧ inv l' ∧
        taken l' ++ remaining l' = taken l ++ d ∧
        completed l' = (completed l + if decide (offered l' = None) then 1 else 0)%nat.
Proof.
  intros HI Ho Hn. unfold inv in HI. rewrite Ho in HI. destruct HI as (Hu & Hl & Hd). simpl. rewrite Ho.
  zdec. cbn. assert (Hz : zlen d = in_len (sender l) - in_used (sender l)) by (rewrite Hd; apply zlen_slice; lia).
  unfold PacketStreamSender_output_handler_done, PacketStreamSender_send_data. mrun.
  zdec. cbn. zdec. cbn.
  assert (Hsp : d = slice 0 n d ++ slice (in_used (sender l) + n)
                    (zlen (in_ (sender l)) - (in_used (sender l) + n)) (in_ (sender l))).
  { rewrite Hd at 1. rewrite Hl, (slice_drop _ n) by lia. f_equal.
    rewrite Hd, slice_slice by lia. f_equal. lia. }
  destruct (in_used (sender l) + n <? in_len (sender l)) eqn:C; zb; simpl;
    eexists; (split; [reflexivity|]); unfold inv, apply_eff, remaining; simpl.
  - split_and!; try done; try lia. rewrite <-app_assoc. f_equal. by rewrite Hl, <-Hsp.
  - split_and!; try done; [|lia]. rewrite app_nil_r. f_equal.
    replace (zlen (in_ (sender l)) - (in_used (sender l) + n)) with 0 in Hsp by lia.
    by rewrite slice_zero, app_nil_r in Hsp.
Qed.

(** The two neighbours keep to their interfaces: a packet comes only after
    the previous one was completed, the stream takes some of what it is
    offered. *)
Definition allowed (l : link) (e : ev) : bool :=
  match e, offered l with
  | Packet _, None => true
  | Took n, Some d => (0 <? n) && (n <=? zlen d)
  | _, _ => false
  end.

Fixpoint all_allowed (l : link) (es : list ev) : bool :=
  match es with
  | [] => true
  | e :: es' => allowed l e && match lstep l e with Some l' => all_allowed l' es' | None => true end
  end.

Definition busy (l : link) : nat := match offered l with Some _ => 1 | None => 0 end.

Lemma link_step l e :
  inv l → allowed l e = true →
  ∃ l', lstep l e = Some l' ∧ inv l' ∧
        taken l' ++ remaining l' = taken l ++ remaining l ++ concat (packets [e]) ∧
        (completed l' + busy l' = completed l + busy l + length (packets [e]))%nat.
Proof.
  intros HI HA. destruct e as [d|n]; simpl in HA.
  - destruct (offered l) eqn:Ho; [done|].
    destruct (packet_step l d HI Ho) as (l' & E & HI' & Ht & Hr & Hc). exists l'. split; [done|]. split; [done|].
    unfold remaining at 2. rewrite Ho, Ht, Hr. simpl. rewrite app_nil_r. split; [done|].
    unfold busy. rewrite Ho, Hc. unfold remaining, inv in *. destruct (offered l') as [d'|]; simpl in *.
    + subst d'. destruct HI' as (Hu & Hz & Hd). rewrite decide_False; [lia|].
      intros ->. assert (zlen (@nil Z) = in_len (sender l') - in_used (sender l')) as Hz'
        by (rewrite Hd; apply zlen_slice; lia). unfold zlen in Hz'. simpl in Hz'. lia.
    + subst d. rewrite decide_True by done. lia.
  - destruct (offered l) as [d|] eqn:Ho; [|done]. zb.
    destruct (took_step l d n HI Ho) as (l' & E & HI' & Ht & Hc); [lia|]. exists l'.
    split; [done|]. split; [done|]. unfold remaining at 2. rewrite Ho, Ht. simpl.
    rewrite app_nil_r. split; [done|]. unfold busy. rewrite Ho, Hc.
    destruct (offered l') eqn:Ho'; simpl; lia.
Qed.

Lemma link_run es : ∀ l,
  inv l → all_allowed l es = true →
  ∃ l', lrun l es = Some l' ∧ inv l' ∧
        taken l' ++ remaining l' = taken l ++ remaining l ++ concat (packets es) ∧
        (completed l' + busy l' = completed l + busy l + length (packets es))%nat.
Proof.
  induction es as [|e es IH]; intros l HI; cbn [all_allowed lrun].
  - intros _. exists l. simpl. rewrite app_nil_r. split_and!; try done; lia.
  - intros [HA Hr]%andb_true_iff. destruct (link_step l e HI HA) as (l1 & E1 & HI1 & Ht1 & Hc1).
    rewrite E1 in Hr |- *. destruct (IH l1 HI1 Hr) as (l2 & E2 & HI2 & Ht2 & Hc2).
    exists l2. cbn [mbind option_bind]. split_and!; try done.
    + rewrite Ht2, app_assoc, Ht1, <-!app_assoc. do 2 f_equal.
      change (e :: es) with ([e] ++ es). unfold packets. by rewrite omap_app, concat_app.
    + change (e :: es) with ([e] ++ es). unfold packets in *. rewrite omap_app, length_app. lia.
Qed.

(** The stream carries exactly the packets, one after the other: however
    the stream splits them, no assertion fails, the bytes it has taken and
    the bytes it is being offered are the concatenation of the packets
    handed in, and each packet is completed once all its bytes are taken. *)
Lemma stream_sender_exact es :
  all_allowed linit es = true →
  ∃ l, lrun linit es = Some l ∧
       taken l ++ remaining l = concat (packets es) ∧
       (completed l + busy l = length (packets es))%nat.
Proof.
  intros H. destruct (link_run es linit) as (l & E & _ & Ht & Hc); [done|done|]. exists l.
  by split_and!.
Qed.

Lemma stream_sender_exact_witness :
  ∃ l, lrun linit [Packet [1; 2; 3]; Took 2; Took 1; Packet []; Packet [4; 5]; Took 1] = Some l ∧
       taken l ++ remaining l = [1; 2; 3; 4; 5] ∧ (completed l + busy l = 3)%nat.
Proof. apply stream_sender_exact. vm_compute. reflexivity. Defined.

End StreamSender.

(** ** Decoder *)
Module Decoder.

Record PacketProtoDecoder := mkDec {
  output_mtu : Z;
  buf_size : Z;
  buf_start : Z;
  buf_used : Z;
  buf : list Z
}.

(** Addresses are offsets into [buf]. *)
Inductive eff := Send (off len : Z) | Recv (off len : Z) | HandlerError.

Definition set_pos (start used : Z) (d : PacketProtoDecoder) : PacketProtoDecoder :=
  mkDec (output_mtu d) (buf_size d) start used (buf d).
Definition set_buf (b : list Z) (d : PacketProtoDecoder) : PacketProtoDecoder :=
  mkDec (output_mtu d) (buf_size d) (buf_start d) (buf_used d) b.

(** The end of [process_data]: make room, ask for more. *)
Definition receive_more (d : PacketProtoDecoder) : PacketProtoDecoder * list eff :=
  let d :=
    if buf_start d + buf_used d =? buf_size d then
      set_pos 0 (buf_used d) (set_buf (blit 0 (slice (buf_start d) (buf_used d) (buf d)) (buf d)) d)
    else d in
  (d, [Recv (buf_start d + buf_used d) (buf_size d - (buf_start d + buf_used d))]).

Definition process_data (d : PacketProtoDecoder) : PacketProtoDecoder * list eff :=
  let data := buf_start d in
  let left := buf_used d in
  if left <? header_size then receive_more d
  else
    let data_len := of_le (slice data 2 (buf d)) in
    let data := data + header_size in
    let left := left - header_size in
    if data_len >? output_mtu d then
      let d := set_pos 0 0 d in
      (d, [Recv 0 (buf_size d); HandlerError])
    else if left <? data_len then receive_more d
    else
      (set_pos (buf_start d + (header_size + data_len)) (buf_used d - (header_size + data_len)) d,
       [Send data data_len]).

Definition PacketProtoDecoder_input_handler_done (data_len : Z)
  : M PacketProtoDecoder eff unit :=
  d ← get;
  ASSERT (0 <? data_len);;
  ASSERT (data_len <=? buf_size d - (buf_start d + buf_used d));;
  modify (λ d, set_pos (buf_start d) (buf_used d + data_len) d);;
  calls process_data.

Definition PacketProtoDecoder_output_handler_done : M PacketProtoDecoder eff unit :=
  calls process_data.

(** [mem]: the allocated memory, if any. *)
Definition PacketProtoDecoder_Init (mtu : Z) (mem : option (list Z))
  : option (PacketProtoDecoder * list eff) :=
  let output_mtu := Z.min mtu PACKETPROTO_MAXPAYLOAD in
  let buf_size := PACKETPROTO_ENCLEN output_mtu in
  match mem with
  | None => None
  | Some b => Some (mkDec output_mtu buf_size 0 0 b, [Recv 0 buf_size])
  end.

Definition PacketProtoDecoder_Reset (d : PacketProtoDecoder) : PacketProtoDecoder :=
  set_pos (buf_start d + buf_used d) 0 d.

(** The decoder with its neighbours.  [wait] is the call it waits for: the
    stream fills a range of the buffer, or the output reads a packet from it
    until it completes the packet.  [rx] are the bytes received and not
    thrown away, [out] the packets the output has taken. *)
Inductive waiting := Receiving (off len : Z) | Sending (off len : Z).

Record world := mkW {
  dec : PacketProtoDecoder;
  wait : waiting;
  rx : list Z;
  out : list (list Z);
  errors : nat
}.

(** Throws away the bytes that are buffered and not part of a packet yet. *)
Definition discard (pending : Z) (rx : list Z) : list Z := slice 0 (zlen rx - pending) rx.

(** Runs the calls a handler made; [pending] bytes were buffered before. *)
Definition apply_eff (pending : Z) (w : world) (e : eff) : world :=
  match e with
  | Send off len => mkW (dec w) (Sending off len) (rx w) (out w) (errors w)
  | Recv off len => mkW (dec w) (Receiving off len) (rx w) (out w) (errors w)
  | HandlerError => mkW (dec w) (wait w) (discard pending (rx w)) (out w) (S (errors w))
  end.

(** [Data d]: the stream delivers [d]; [Sent]: the output completes the
    packet; [Reset]: the user calls [PacketProtoDecoder_Reset]. *)
Inductive ev := Data (d : list Z) | Sent | Reset.

Definition wstep (w : world) (e : ev) : option world :=
  match e, wait w with
  | Data d, Receiving off len =>
      if (0 <? zlen d) && (zlen d <=? len) then
        let d0 := set_buf (blit off d (buf (dec w))) (dec w) in
        '(_, d1, es) ← PacketProtoDecoder_input_handler_done (zlen d) d0;
        Some (foldl (apply_eff (buf_used d0 + zlen d)) (mkW d1 (wait w) (rx w ++ d) (out w) (errors w)) es)
      else None
  | Sent, Sending off len =>
      '(_, d1, es) ← PacketProtoDecoder_output_handler_done (dec w);
      Some (foldl (apply_eff (buf_used (dec w)))
              (mkW d1 (wait w) (rx w) (out w ++ [slice off len (buf (dec w))]) (errors w)) es)
  | Reset, _ =>
      Some (mkW (PacketProtoDecoder_Reset (dec w)) (wait w)
              (discard (buf_used (dec w)) (rx w)) (out w) (errors w))
  | _, _ => None
  end.

Fixpoint wrun (w : world) (es : list ev) : option world :=
  match es with [] => Some w | e :: es' => w ← wstep w e; wrun w es' end.

Definition winit (mtu : Z) (mem : list Z) : option world :=
  '(d, es) ← PacketProtoDecoder_Init mtu (Some mem);
  Some (foldl (apply_eff 0) (mkW d (Receiving 0 0) [] [] 0) es).

(** What the neighbours may do. *)
Definition allowed (w : world) (e : ev) : bool :=
  match e, wait w with
  | Data d, Receiving _ len => (0 <? zlen d) && (zlen d <=? len) && forallb (λ b, (0 <=? b) && (b <=? 255)) d
  | Sent, Sending _ _ => true
  | Reset, _ => true
  | _, _ => false
  end.

Fixpoint all_allowed (w : world) (es : list ev) : bool :=
  match es with
  | [] => true
  | e :: es' => allowed w e && match wstep w e with Some w' => all_allowed w' es' | None => true end
  end.

(** The specification: what a receiver does with the bytes it has. *)
Inductive verdict := Incomplete | TooLong | Complete (p rest : list Z).

Definition parse (mtu : Z) (l : list Z) : verdict :=
  if zlen l <? 2 then Incomplete
  else
    let n := of_le (slice 0 2 l) in
    if n >? mtu then TooLong
    else if zlen l - 2 <? n then Incomplete
    else Complete (slice 2 n l) (slice (2 + n) (zlen l - (2 + n)) l).

Definition pending (d : PacketProtoDecoder) : list Z := slice (buf_start d) (buf_used d) (buf d).

(** Shape of the buffer. *)
Definition wf (d : PacketProtoDecoder) : Prop :=
  0 <= output_mtu d <= PACKETPROTO_MAXPAYLOAD ∧ buf_size d = PACKETPROTO_ENCLEN (output_mtu d) ∧
  zlen (buf d) = buf_size d ∧ bytes (buf d) ∧
  0 <= buf_start d ∧ 0 <= buf_used d ∧ buf_start d + buf_used d <= buf_size d.

Lemma zlen_pending d : wf d → zlen (pending d) = buf_used d.
Proof. intros (_&_&?&_&?&?&?). apply zlen_slice; lia. Qed.

(** The buffer always has room for the packet it is receiving. *)
Lemma incomplete_room d : wf d → parse (output_mtu d) (pending d) = Incomplete → buf_used d < buf_size d.
Proof.
  intros W. pose proof (zlen_pending d W) as HL. destruct W as (?&Hb&?&?&?&?&?).
  unfold parse. rewrite HL. unfold PACKETPROTO_ENCLEN, header_size in *.
  repeat case_if; intros; simplify_eq; lia.
Qed.

Lemma receive_more_spec d :
  wf d → parse (output_mtu d) (pending d) = Incomplete →
  ∃ d' off len, receive_more d = (d', [Recv off len]) ∧ wf d' ∧ output_mtu d' = output_mtu d ∧
    pending d' = pending d ∧ buf_used d' = buf_used d ∧
    off = buf_start d' + buf_used d' ∧ len = buf_size d' - off ∧ 0 < len.
Proof.
  intros W P. pose proof (incomplete_room d W P) as HR. pose proof (zlen_pending d W) as HL.
  unfold receive_more. destruct (buf_start d + buf_used d =? buf_size d) eqn:C; zb;
    do 3 eexists; (split; [reflexivity|]); destruct W as (?&Hb&?&?&?&?&?); simpl.
  - change (slice (buf_start d) (buf_used d) (buf d)) with (pending d).
    unfold wf; simpl. rewrite zlen_blit by lia.
    split_and!; try done; try lia.
    + apply bytes_blit; [|done]. by apply bytes_slice.
    + unfold pending at 1. simpl. apply slice_blit_len; lia.
  - unfold wf. split_and!; try done; lia.
Qed.

Lemma process_data_spec d :
  wf d →
  match parse (output_mtu d) (pending d) with
  | Incomplete =>
      ∃ d' off len, process_data d = (d', [Recv off len]) ∧ wf d' ∧ output_mtu d' = output_mtu d ∧
        pending d' = pending d ∧ buf_used d' = buf_used d ∧
        off = buf_start d' + buf_used d' ∧ len = buf_size d' - off ∧ 0 < len
  | TooLong =>
      process_data d = (set_pos 0 0 d, [Recv 0 (buf_size d); HandlerError]) ∧ wf (set_pos 0 0 d)
  | Complete p rest =>
      ∃ d' off, process_data d = (d', [Send off (zlen p)]) ∧ wf d' ∧ output_mtu d' = output_mtu d ∧
        0 <= off ∧ off + zlen p <= buf_start d' ∧ zlen p <= output_mtu d ∧
        slice off (zlen p) (buf d') = p ∧ pending d' = rest ∧ pending d = encode p ++ rest
  end.
Proof.
  intros W. pose proof (zlen_pending d W) as HL. pose proof (receive_more_spec d W) as HM.
  unfold process_data. change header_size with 2.
  assert (Hh : 2 <= buf_used d → slice (buf_start d) 2 (buf d) = slice 0 2 (pending d)).
  { intros. destruct W as (_&_&_&_&?&?&?). unfold pending. rewrite slice_slice by lia. f_equal. lia. }
  unfold parse in *. rewrite HL in *. destruct (buf_used d <? 2) eqn:C1; zb; [auto|].
  rewrite Hh by lia. destruct W as (?&Hb&?&HB&?&?&?).
  assert (HP : bytes (pending d)) by by apply bytes_slice.
  assert (HH : le_bytes 2 (of_le (slice 0 2 (pending d))) = slice 0 2 (pending d)).
  { rewrite <-(le_bytes_of_le (slice 0 2 (pending d))) at 2 by auto with flow.
    f_equal. unfold slice, zlen in *. rewrite drop_0, length_take. lia. }
  pose proof (of_le_range (slice 0 2 (pending d)) (bytes_slice _ _ _ HP)) as [Hn _].
  set (n := of_le (slice 0 2 (pending d))) in *. clearbody n.
  unfold PACKETPROTO_ENCLEN, header_size in Hb.
  destruct (n >? output_mtu d) eqn:C2; zb.
  { split; [done|]. unfold wf; simpl. unfold PACKETPROTO_ENCLEN, header_size. split_and!; try done; lia. }
  destruct (buf_used d - 2 <? n) eqn:C3; zb; [auto|].
  assert (Hz : zlen (slice 2 n (pending d)) = n) by (apply zlen_slice; lia).
  assert (Henc : pending d = encode (slice 2 n (pending d))
                   ++ slice (2 + n) (buf_used d - (2 + n)) (pending d)).
  { unfold encode. rewrite Hz, HH. rewrite <-app_assoc, <-!slice_split by lia.
    rewrite <-(slice_all (pending d)) at 1. f_equal. lia. }
  do 2 eexists; (split; [by rewrite Hz|]). rewrite Hz. unfold wf; simpl.
  unfold PACKETPROTO_ENCLEN, header_size. split_and!; try done; try lia.
  - unfold pending. rewrite slice_slice by lia. done.
  - unfold pending. simpl. rewrite slice_slice by lia. done.
Qed.

Definition inv (w : world) : Prop :=
  wf (dec w) ∧
  match wait w with
  | Receiving off len =>
      off = buf_start (dec w) + buf_used (dec w) ∧ len = buf_size (dec w) - off ∧ 0 < len ∧
      rx w = encode_all (out w) ++ pending (dec w) ∧
      parse (output_mtu (dec w)) (pending (dec w)) = Incomplete
  | Sending off len =>
      0 <= off ∧ 0 <= len <= output_mtu (dec w) ∧ off + len <= buf_start (dec w) ∧
      rx w = encode_all (out w ++ [slice off len (buf (dec w))]) ++ pending (dec w)
  end.

(** The packets the decoder has cut off the stream. *)
Definition decoded (w : world) : list (list Z) :=
  match wait w with
  | Receiving _ _ => out w
  | Sending off len => out w ++ [slice off len (buf (dec w))]
  end.

Lemma inv_decoded w : inv w → rx w = encode_all (decoded w) ++ pending (dec w).
Proof. unfold inv, decoded. intros [_ H]. destruct (wait w); tauto. Qed.

Lemma discard_app l p : discard (zlen p) (l ++ p) = l.
Proof.
  unfold discard. rewrite zlen_app. replace (zlen l + zlen p - zlen p) with (zlen l) by lia.
  apply slice_prefix.
Qed.

Lemma parse_nil mtu : parse mtu [] = Incomplete.
Proof. done. Qed.

(** A run of [process_data] ends with a call outstanding, and reports an
    error exactly if the buffered packet is too long. *)
Lemma settle d d' es wt r o n :
  wf d → r = encode_all o ++ pending d → process_data d = (d', es) →
  let w := foldl (apply_eff (buf_used d)) (mkW d' wt r o n) es in
  inv w ∧ output_mtu (dec w) = output_mtu d ∧ out w = o ∧
  match parse (output_mtu d) (pending d) with
  | TooLong => errors w = S n ∧ rx w = encode_all o
  | _ => errors w = n ∧ rx w = r
  end.
Proof.
  intros W Hr E. pose proof (process_data_spec d W) as HS. pose proof (zlen_pending d W) as HL.
  destruct (parse _ _) as [| |p rest] eqn:P.
  - destruct HS as (d1 & off & len & E1 & W1 & Hm & Hp & Hu & Ho & Hl & Hpos). rewrite E in E1. simplify_eq.
    simpl. unfold inv; simpl. rewrite Hp, Hm. split_and!; done.
  - destruct HS as [E1 W1]. rewrite E in E1. simplify_eq. simpl.
    rewrite <-HL, discard_app. unfold inv; simpl. unfold pending; simpl. rewrite slice_zero, app_nil_r.
    destruct W as (?&Hb&_). unfold PACKETPROTO_ENCLEN, header_size in Hb. split_and!; try done; lia.
  - destruct HS as (d1 & off & E1 & W1 & Hm & Ho & Hl & Hz & Hs & Hp & Henc). rewrite E in E1. simplify_eq.
    simpl. unfold inv; simpl. rewrite Hs, Hm, encode_all_app, encode_all_one, <-app_assoc, Henc.
    split_and!; try done. apply zlen_nonneg.
Qed.

Lemma all_bytes d : forallb (λ b, (0 <=? b) && (b <=? 255)) d = true → bytes d.
Proof.
  intros H. apply Forall_forall. intros b Hb. rewrite forallb_forall in H.
  specialize (H b). apply list_elem_of_In in Hb. specialize (H Hb). zb.
  unfold is_u8, UINT8_MAX. lia.
Qed.

(** Bytes that arrive are appended to the pending ones. *)
Lemma received d x :
  wf d → bytes x → buf_start d + buf_used d + zlen x <= buf_size d →
  let d' := set_pos (buf_start d) (buf_used d + zlen x) (set_buf (blit (buf_start d + buf_used d) x (buf d)) d) in
  wf d' ∧ pending d' = pending d ++ x.
Proof.
  intros (?&Hb&?&?&?&?&?) HB HX. pose proof (zlen_nonneg x). unfold wf; simpl. split.
  - rewrite zlen_blit by lia. split_and!; try done; try lia. by apply bytes_blit.
  - unfold pending; simpl. rewrite slice_split by lia.
    rewrite slice_blit_before by lia. f_equal. apply slice_blit_eq; lia.
Qed.

(** What an event does to the stream that was received. *)
Definition rx_after (w : world) (e : ev) : list Z :=
  match e with Data x => rx w ++ x | Sent => rx w | Reset => encode_all (decoded w) end.

Definition out_after (w : world) (e : ev) : list (list Z) :=
  match e with Sent => decoded w | _ => out w end.

Lemma world_step w e :
  inv w → allowed w e = true →
  ∃ w', wstep w e = Some w' ∧ inv w' ∧ output_mtu (dec w') = output_mtu (dec w) ∧ out w' = out_after w e ∧
    ((errors w' = errors w ∧ rx w' = rx_after w e) ∨
     (errors w' = S (errors w) ∧ ∃ p, parse (output_mtu (dec w)) p = TooLong ∧ rx_after w e = encode_all (out w') ++ p)).
Proof.
  intros [W HI] HA. destruct e as [x| |]; simpl in HA; simpl.
  - destruct (wait w) as [off len|] eqn:Hw; [|done]. zb. rename H0 into HB. apply all_bytes in HB.
    destruct HI as (-> & -> & Hpos & Hr & _). zdec. cbn.
    destruct (received (dec w) x W HB) as [W' HP]; [lia|].
    unfold PacketProtoDecoder_input_handler_done. mrun. zdec. cbn. zdec. cbn.
    destruct (process_data _) as [d1 es] eqn:E. cbn.
    eexists. split; [reflexivity|].
    destruct (settle _ d1 es (wait w) (rx w ++ x) (out w) (errors w) W') as (HI' & Hm & Ho & Hcase); [|done|].
    { by rewrite HP, Hr, app_assoc. }
    rewrite Hw in *. split; [exact HI'|]. split; [exact Hm|]. split; [exact Ho|].
    destruct (parse _ _) eqn:P; [left; exact Hcase| |left; exact Hcase]. right. split; [apply Hcase|].
    eexists. split; [exact P|]. etrans; [|exact (f_equal (λ o, encode_all o ++ _) (eq_sym Ho))].
    by rewrite HP, app_assoc, <-Hr.
  - destruct (wait w) as [|off len] eqn:Hw; [done|]. destruct HI as (? & ? & ? & Hr).
    unfold PacketProtoDecoder_output_handler_done. mrun.
    destruct (process_data _) as [d1 es] eqn:E. cbn. eexists. split; [reflexivity|].
    destruct (settle _ d1 es (wait w) (rx w) (out w ++ [slice off len (buf (dec w))]) (errors w) W Hr E)
      as (HI' & Hm & Ho & Hcase).
    rewrite Hw in *. split; [done|]. split; [done|]. rewrite Ho.
    split; [by unfold decoded; rewrite Hw|].
    destruct (parse _ _) eqn:P; [left; exact Hcase| |left; exact Hcase]. right. split; [tauto|]. eauto.
  - eexists. split; [reflexivity|]. pose proof (zlen_pending _ W) as HL.
    assert (Hd : discard (buf_used (dec w)) (rx w) = encode_all (decoded w)).
    { rewrite <-HL, (inv_decoded w) by done. apply discard_app. }
    rewrite Hd. split; [|simpl; eauto]. destruct W as (?&Hb&?&?&?&?&?). split.
    + unfold wf; simpl. split_and!; try done; lia.
    + simpl. unfold decoded in *. destruct (wait w); unfold pending; simpl; rewrite slice_zero, app_nil_r.
      * destruct HI as (-> & -> & ? & _). split_and!; try done; lia.
      * destruct HI as (? & ? & ? & _). split_and!; try done; lia.
Qed.

Lemma winit_inv mtu mem :
  0 <= mtu → zlen mem = PACKETPROTO_ENCLEN (Z.min mtu PACKETPROTO_MAXPAYLOAD) → bytes mem →
  ∃ w, winit mtu mem = Some w ∧ inv w ∧ rx w = [] ∧ out w = [] ∧ errors w = O ∧
       output_mtu (dec w) = Z.min mtu PACKETPROTO_MAXPAYLOAD.
Proof.
  intros H0 Hz HB. eexists. split; [reflexivity|]. unfold inv, wf, pending; simpl.
  rewrite slice_zero. unfold PACKETPROTO_ENCLEN, header_size, PACKETPROTO_MAXPAYLOAD, UINT16_MAX in *.
  split_and!; try done; lia.
Qed.

Lemma world_run es : ∀ w,
  inv w → all_allowed w es = true →
  ∃ w', wrun w es = Some w' ∧ inv w' ∧ output_mtu (dec w') = output_mtu (dec w).
Proof.
  induction es as [|e es IH]; intros w HI; cbn [all_allowed wrun].
  - intros _. by exists w.
  - intros [HA Hr]%andb_true_iff. destruct (world_step w e HI HA) as (w1 & E1 & HI1 & Hm1 & _ & _).
    rewrite E1 in Hr |- *. destruct (IH w1 HI1 Hr) as (w2 & E2 & HI2 & Hm2).
    exists w2. cbn [mbind option_bind]. split_and!; try done. congruence.
Qed.

(** *** The specification as a machine

    [s_buf]: the bytes that belong to no packet yet; [s_cur]: the packet that
    is being delivered; the packets delivered; the errors. *)
Record spec := mkSpec { s_buf : list Z; s_cur : option (list Z); s_out : list (list Z); s_err : nat }.

(** The next packet is cut off; a length above the MTU is an error and drops
    what was received. *)
Definition spec_next (mtu : Z) (b : list Z) (o : list (list Z)) (n : nat) : spec :=
  match parse mtu b with
  | Incomplete => mkSpec b None o n
  | TooLong => mkSpec [] None o (S n)
  | Complete p rest => mkSpec rest (Some p) o n
  end.

Definition spec_step (mtu : Z) (s : spec) (e : ev) : spec :=
  match e with
  | Data x => spec_next mtu (s_buf s ++ x) (s_out s) (s_err s)
  | Sent => spec_next mtu (s_buf s) (s_out s ++ default [] ((λ p, [p]) <$> s_cur s)) (s_err s)
  | Reset => mkSpec [] (s_cur s) (s_out s) (s_err s)
  end.

Definition spec_run (mtu : Z) (es : list ev) : spec := foldl (spec_step mtu) (mkSpec [] None [] 0) es.

(** The decoder holds the state of the specification. *)
Definition implements (w : world) (s : spec) : Prop :=
  pending (dec w) = s_buf s ∧ out w = s_out s ∧ errors w = s_err s ∧
  match wait w with
  | Receiving _ _ => s_cur s = None
  | Sending off len => s_cur s = Some (slice off len (buf (dec w)))
  end.

Lemma settle_spec d d' es wt r o n :
  wf d → process_data d = (d', es) →
  implements (foldl (apply_eff (buf_used d)) (mkW d' wt r o n) es) (spec_next (output_mtu d) (pending d) o n).
Proof.
  intros W E. pose proof (process_data_spec d W) as HS. unfold spec_next, implements. destruct (parse _ _) as [| |p rest].
  - destruct HS as (d1 & off & len & E1 & _ & _ & Hp & _). rewrite E in E1. simplify_eq. by simpl.
  - destruct HS as [E1 _]. rewrite E in E1. simplify_eq. simpl. unfold pending. simpl. by rewrite slice_zero.
  - destruct HS as (d1 & off & E1 & _ & _ & _ & _ & _ & Hs & Hp & _). rewrite E in E1. simplify_eq. simpl. by rewrite Hs.
Qed.

Lemma implements_step w s e w' :
  inv w → allowed w e = true → implements w s → wstep w e = Some w' → implements w' (spec_step (output_mtu (dec w)) s e).
Proof.
  intros [W HI] HA (Hp & Ho & He & Hc). destruct e as [x| |]; simpl in HA; simpl.
  - destruct (wait w) as [off len|] eqn:Hw; [|done]. zb. rename H0 into HB. apply all_bytes in HB.
    destruct HI as (-> & -> & Hpos & _ & _). zdec. cbn. destruct (received (dec w) x W HB) as [W' HP]; [lia|].
    unfold PacketProtoDecoder_input_handler_done. mrun. zdec. cbn. zdec. cbn. destruct (process_data _) as [d1 es] eqn:E. cbn. intros [= <-].
    rewrite <-Hp, <-Ho, <-He, <-HP. exact (settle_spec _ d1 es _ _ _ _ W' E).
  - destruct (wait w) as [|off len] eqn:Hw; [done|]. unfold PacketProtoDecoder_output_handler_done. mrun.
    destruct (process_data _) as [d1 es] eqn:E. cbn. intros [= <-]. rewrite <-Hp, <-Ho, <-He, Hc. exact (settle_spec _ d1 es _ _ _ _ W E).
  - intros [= <-]. unfold implements. simpl. unfold pending. simpl. rewrite slice_zero. by split_and!.
Qed.

Lemma implements_run es : ∀ w s,
  inv w → all_allowed w es = true → implements w s →
  ∃ w', wrun w es = Some w' ∧ inv w' ∧ output_mtu (dec w') = output_mtu (dec w) ∧ implements w' (foldl (spec_step (output_mtu (dec w))) s es).
Proof.
  induction es as [|e es IH]; intros w s HI; cbn [all_allowed wrun foldl].
  - intros _ Hs. by exists w.
  - intros [HA Hr]%andb_true_iff Hs. destruct (world_step w e HI HA) as (w1 & E1 & HI1 & Hm1 & _ & _).
    pose proof (implements_step w s e w1 HI HA Hs E1) as Hs1. rewrite E1 in Hr |- *. rewrite <-Hm1 in Hs1.
    destruct (IH w1 _ HI1 Hr Hs1) as (w2 & E2 & HI2 & Hm2 & Hs2).
    exists w2. cbn [mbind option_bind]. rewrite <-Hm1. split_and!; try done.
Qed.

(** C10: The decoder cuts any stream into exactly its packets.  For every
    sequence of received pieces, completed packets and resets: no assertion
    fails, and the decoder is in the state of a machine that cuts one packet
    after the other off the bytes received, delivers it, reports an error and
    drops what was received exactly when a length is above the MTU, and
    forgets the bytes of an incomplete packet at a reset.  The packets
    delivered, the one that is being delivered, the number of errors and the
    bytes kept are those of that machine; the decoder waits for exactly one
    call, within the buffer (it asks for at least one byte; a packet it sends
    fits the MTU and stays intact until it is completed), and while it asks
    for more input the bytes it keeps hold no complete packet. *)
Theorem decoder_exact mtu mem es w0 :
  0 <= mtu → zlen mem = PACKETPROTO_ENCLEN (Z.min mtu PACKETPROTO_MAXPAYLOAD) → bytes mem →
  winit mtu mem = Some w0 → all_allowed w0 es = true →
  ∃ w, wrun w0 es = Some w ∧
       let s := spec_run (Z.min mtu PACKETPROTO_MAXPAYLOAD) es in
       out w = s_out s ∧ errors w = s_err s ∧ pending (dec w) = s_buf s ∧
       rx w = encode_all (s_out s ++ default [] ((λ p, [p]) <$> s_cur s)) ++ s_buf s ∧
       match wait w with
       | Receiving off len =>
           s_cur s = None ∧ 0 <= off ∧ 0 < len ∧ off + len <= zlen (buf (dec w)) ∧
           parse (Z.min mtu PACKETPROTO_MAXPAYLOAD) (s_buf s) = Incomplete
       | Sending off len => s_cur s = Some (slice off len (buf (dec w))) ∧ 0 <= off ∧ 0 <= len <= mtu ∧ off + len <= zlen (buf (dec w))
       end.
Proof.
  intros H0 Hz HB Hi HA. destruct (winit_inv mtu mem H0 Hz HB) as (w1 & E1 & HI1 & Hr1 & Ho1 & He1 & Hm1).
  rewrite Hi in E1. simplify_eq. assert (implements w1 (mkSpec [] None [] 0)) as Hs1.
  { injection Hi as <-. unfold implements, pending. simpl. by rewrite slice_zero. }
  destruct (implements_run es w1 _ HI1 HA Hs1) as (w & E & HI & Hm & Hp & Ho & He & Hc).
  rewrite Hm1 in *. exists w. split; [done|]. fold (spec_run (Z.min mtu PACKETPROTO_MAXPAYLOAD) es) in Hp, Ho, He, Hc. cbv zeta.
  pose proof (inv_decoded w HI) as Hrx. rewrite <-Hp, <-Ho, <-He. split_and!; try done.
  - rewrite Hrx. unfold decoded. destruct (wait w); rewrite Hc; simpl; by rewrite ?app_nil_r.
  - destruct HI as [(?&?&?&?&?&?&?) HI]. destruct (wait w).
    + destruct HI as (-> & -> & ? & _ & HP). rewrite Hm in HP. split_and!; try done; lia.
    + split_and!; try done; lia.
Qed.

(** Pieces of a stream with a reset between and a length that is too large. *)
Lemma decoder_exact_witness :
  ∃ w0, winit 3 [9; 9; 9; 9; 9] = Some w0 ∧
  ∃ w, wrun w0 [Data [2; 0; 7]; Data [8; 1]; Sent; Data [0]; Data [5]; Reset; Sent; Data [4]; Data [0]] = Some w ∧
       out w = [[7; 8]; [5]] ∧ errors w = 1%nat ∧ pending (dec w) = [].
Proof.
  eexists. split; [reflexivity|].
  destruct (decoder_exact 3 [9; 9; 9; 9; 9] [Data [2; 0; 7]; Data [8; 1]; Sent; Data [0]; Data [5]; Reset; Sent; Data [4]; Data [0]] _
    ltac:(lia) ltac:(vm_compute; reflexivity) ltac:(apply all_bytes; vm_compute; reflexivity) eq_refl ltac:(vm_compute; reflexivity)) as (w & E & Ho & He & Hp & _).
  exists w. split; [exact E|]. rewrite Ho, He, Hp. vm_compute. split_and!; reflexivity.
Defined.

End Decoder.

(** ** Across the connection *)
Module Roundtrip.
Import Decoder.

Definition received_data (es : list ev) : list Z :=
  concat (omap (λ e, match e with Data d => Some d | _ => None end) es).
Definition no_reset (es : list ev) : bool :=
  forallb (λ e, match e with Reset => false | _ => true end) es.

Definition sendable (mtu : Z) (p : list Z) : Prop := zlen p <= mtu.

(** The beginning of a stream of packets parses as its first packet. *)
Lemma parse_encode mtu p l :
  mtu <= PACKETPROTO_MAXPAYLOAD → sendable mtu p → parse mtu (encode p ++ l) = Complete p l.
Proof.
  unfold sendable. intros Hm HL. pose proof (zlen_nonneg p). pose proof (zlen_nonneg l).
  unfold PACKETPROTO_MAXPAYLOAD, UINT16_MAX in Hm.
  assert (Hh : slice 0 2 (encode p ++ l) = le_bytes 2 (zlen p)).
  { unfold encode. rewrite <-app_assoc. apply (slice_prefix (le_bytes 2 (zlen p))). }
  assert (Hv : of_le (le_bytes 2 (zlen p)) = zlen p).
  { rewrite of_le_le_bytes. apply Z.mod_small. lia. }
  unfold parse. rewrite Hh, Hv, zlen_app, zlen_encode. unfold PACKETPROTO_ENCLEN, header_size. zdec.
  f_equal.
  - unfold encode. rewrite <-app_assoc, slice_app_r by (rewrite zlen_le_bytes; lia).
    rewrite zlen_le_bytes. apply slice_prefix.
  - rewrite slice_app_r; rewrite zlen_encode; unfold PACKETPROTO_ENCLEN, header_size; [|lia].
    rewrite Z.sub_diag. etrans; [|apply slice_all]. f_equal. lia.
Qed.

(** Decoded packets are the first ones sent, and what is buffered begins the
    encoding of the others. *)
Lemma decoded_prefix mtu : mtu <= PACKETPROTO_MAXPAYLOAD → ∀ out ps pend rest,
  Forall (sendable mtu) ps → Forall (sendable mtu) out →
  encode_all out ++ pend ++ rest = encode_all ps →
  ∃ qs, ps = out ++ qs ∧ pend ++ rest = encode_all qs.
Proof.
  intros Hm out. induction out as [|o out IH]; intros ps pend rest HS HO E; [by exists ps|].
  assert (HE : ∀ a l, encode_all (a :: l) = encode a ++ encode_all l) by done.
  destruct ps as [|p ps].
  { rewrite HE in E. apply (f_equal zlen) in E. unfold encode in E. rewrite <-!app_assoc, zlen_app, zlen_le_bytes in E.
    change (zlen (encode_all [])) with 0 in E. zlia. }
  rewrite !HE, <-app_assoc in E. inversion HS as [|? ? Hp HS']; subst. inversion HO as [|? ? Ho HO']; subst.
  apply (f_equal (parse mtu)) in E. rewrite !parse_encode in E by done. injection E as -> E.
  destruct (IH ps pend rest HS' HO' E) as (qs & -> & Eq). by exists qs.
Qed.

(** What is buffered of a stream of short packets is never taken for a
    packet that is too long. *)
Lemma parse_prefix mtu p rest qs :
  mtu <= PACKETPROTO_MAXPAYLOAD → Forall (sendable mtu) qs → p ++ rest = encode_all qs → parse mtu p ≠ TooLong.
Proof.
  intros Hm HS E HP. destruct qs as [|q qs].
  - destruct p; [done|]. by destruct rest.
  - inversion HS as [|? ? Hq _]; subst. unfold sendable in Hq.
    change (encode_all (q :: qs)) with (encode q ++ encode_all qs) in E.
    unfold parse in HP. destruct (zlen p <? 2) eqn:C1; [done|]. zb.
    assert (Hs : slice 0 2 p = le_bytes 2 (zlen q)).
    { rewrite <-(slice_app_l p rest) by lia. rewrite E. unfold encode. rewrite <-app_assoc.
      apply (slice_prefix (le_bytes 2 (zlen q))). }
    unfold PACKETPROTO_MAXPAYLOAD, UINT16_MAX in Hm. pose proof (zlen_nonneg q).
    rewrite Hs, of_le_le_bytes, Z.mod_small in HP by lia.
    destruct (zlen q >? mtu) eqn:C2; zb; [lia|]. by destruct (_ <? _).
Qed.

(** Every packet the decoder hands out fits its MTU. *)
Lemma decoded_short w :
  inv w → Forall (sendable (output_mtu (dec w))) (out w) → Forall (sendable (output_mtu (dec w))) (decoded w).
Proof.
  intros [W HI] HO. unfold decoded. destruct (wait w); [done|].
  apply Forall_app. split; [done|]. constructor; [|done]. unfold sendable.
  destruct W as (?&?&?&?&?&?&?). rewrite zlen_slice; lia.
Qed.

Lemma receiving_run es : ∀ w ps rest,
  inv w → Forall (sendable (output_mtu (dec w))) ps → no_reset es = true → all_allowed w es = true →
  Forall (sendable (output_mtu (dec w))) (out w) → errors w = O →
  (rx w ++ received_data es) ++ rest = encode_all ps →
  ∃ w', wrun w es = Some w' ∧ inv w' ∧ output_mtu (dec w') = output_mtu (dec w) ∧ errors w' = O ∧
        Forall (sendable (output_mtu (dec w))) (decoded w') ∧ rx w' = rx w ++ received_data es.
Proof.
  induction es as [|e es IH]; intros w ps rest HI HS HR HA HO HE HX.
  - exists w. simpl. rewrite app_nil_r. split_and!; try done. by apply decoded_short.
  - cbn [all_allowed wrun] in *. apply andb_true_iff in HA as [HA HA']. apply andb_true_iff in HR as [HR HR'].
    destruct (world_step w e HI HA) as (w1 & E1 & HI1 & Hm1 & Ho1 & Hc). rewrite E1 in HA' |- *.
    assert (Hrx : rx w ++ received_data (e :: es) = rx_after w e ++ received_data es).
    { destruct e; try done. simpl. unfold received_data. simpl. by rewrite app_assoc. }
    assert (HO1 : Forall (sendable (output_mtu (dec w))) (out w1)).
    { rewrite Ho1. destruct e; simpl; auto using decoded_short. }
    rewrite Hrx in HX |- *. destruct Hc as [[He Hr1]|[_ (p & HP & Hr1)]].
    + rewrite <-Hr1 in HX |- *. rewrite <-Hm1 in HS, HO1 |- *.
      destruct (IH w1 ps rest) as (w2 & E2 & ?); try done; try congruence. by exists w2.
    + exfalso. rewrite Hr1, <-!app_assoc in HX. destruct HI as [(?&_) _].
      destruct (decoded_prefix (output_mtu (dec w))) with (out := out w1) (ps := ps) (pend := p)
        (rest := received_data es ++ rest) as (qs & -> & Eq); try done; [lia|].
      apply Forall_app in HS as [_ HS]. eapply parse_prefix; [|exact HS|exact Eq|exact HP]. lia.
Qed.

(** C6: Packets survive the connection.  Packets that fit the receiver's MTU
    are encoded, pushed through a stream that takes and delivers any number
    of bytes at a time, and decoded.  Then the decoder reports no error, what
    it has decoded at any moment is a prefix of the packets sent, and once
    everything sent has been received and the last packet was taken, it has
    handed out exactly the packets sent. *)
Theorem packets_roundtrip mtu enc emem ps ses l mem w0 des rest :
  0 <= mtu <= PACKETPROTO_MAXPAYLOAD → Forall (λ p, zlen p <= mtu) ps →
  Encoder.PacketProtoEncoder_Init mtu = Some enc → zlen emem = Encoder.PacketProtoEncoder_GetOutput enc →
  mapM (Encoder.build enc emem 0) ps = Some (StreamSender.packets ses) →
  StreamSender.all_allowed StreamSender.linit ses = true → StreamSender.lrun StreamSender.linit ses = Some l →
  zlen mem = PACKETPROTO_ENCLEN mtu → bytes mem → winit mtu mem = Some w0 →
  no_reset des = true → all_allowed w0 des = true → StreamSender.taken l = received_data des ++ rest →
  ∃ w, wrun w0 des = Some w ∧ errors w = O ∧ (∃ k, decoded w = take k ps) ∧
       (rest = [] → StreamSender.offered l = None → (∃ off len, wait w = Receiving off len) → out w = ps).
Proof.
  intros Hm HS He Hem Hb HSA HSR Hz HB Hi HR HA HT.
  assert (Hpk : StreamSender.packets ses = encode <$> ps).
  { assert (mapM (Encoder.build enc emem 0) ps = Some (encode <$> ps)) as Hb'; [|congruence].
    apply mapM_Some_2. clear -HS He Hem. induction HS as [|p ps Hp _ IH]; simpl; constructor; [|done].
    eapply Encoder.build_encode; [done|done|lia|lia]. }
  destruct (StreamSender.link_run ses StreamSender.linit) as (l' & El & _ & HTR & _); [done|done|].
  rewrite HSR in El. simplify_eq. rewrite Hpk, HT in HTR.
  change (concat (encode <$> ps)) with (encode_all ps) in HTR. cbn [StreamSender.linit StreamSender.taken app] in HTR.
  change (StreamSender.remaining StreamSender.linit) with (@nil Z) in HTR. rewrite <-app_assoc in HTR.
  assert (Hmin : Z.min mtu PACKETPROTO_MAXPAYLOAD = mtu) by lia.
  destruct (winit_inv mtu mem) as (w1 & E1 & HI1 & Hr1 & Ho1 & He1 & Hm1); [lia|by rewrite Hmin|done|].
  rewrite Hmin in Hm1. rewrite Hi in E1. simplify_eq.
  destruct (receiving_run des w1 ps (rest ++ StreamSender.remaining l')) as (w & E & HI & Hmw & Her & HSw & Hrx);
    try done.
  { by rewrite Ho1. }
  { by rewrite Hr1. }
  exists w. split; [done|]. split; [done|]. rewrite Hr1 in Hrx. simpl in Hrx.
  pose proof (inv_decoded w HI) as Hd. rewrite <-Hrx, Hd, <-app_assoc in HTR.
  edestruct (decoded_prefix (output_mtu (dec w1))) as (qs & Eps & Eq); [lia| | |exact HTR|]; [done|done|].
  split.
  - exists (length (decoded w)). by rewrite Eps, take_app_length.
  - intros -> Hoff (off & len & Hw). unfold decoded in *. unfold inv in HI. rewrite Hw in *.
    destruct HI as (_ & _ & _ & _ & _ & HP). unfold StreamSender.remaining in Eq. rewrite Hoff in Eq. simpl in Eq.
    rewrite app_nil_r in Eq. rewrite Hmw, Eq in HP. destruct qs as [|q qs]; [by rewrite Eps, app_nil_r|].
    rewrite Eps in HS. apply Forall_app in HS as [_ HS]. inversion HS; subst.
    change (encode_all (q :: qs)) with (encode q ++ encode_all qs) in HP. by rewrite parse_encode in HP by (done || lia).
Qed.

Lemma packets_roundtrip_witness :
  ∃ l w0 w,
    StreamSender.lrun StreamSender.linit
      [StreamSender.Packet [2; 0; 7; 8]; StreamSender.Took 1; StreamSender.Took 3;
       StreamSender.Packet [1; 0; 9]; StreamSender.Took 3] = Some l ∧
    winit 3 [0; 0; 0; 0; 0] = Some w0 ∧
    wrun w0 [Data [2; 0; 7]; Data [8; 1]; Sent; Data [0; 9]; Sent] = Some w ∧
    out w = [[7; 8]; [9]].
Proof.
  do 2 eexists.
  edestruct packets_roundtrip with (mtu := 3) (emem := [0; 0; 0; 0; 0]) (ps := [[7; 8]; [9]])
    (ses := [StreamSender.Packet [2; 0; 7; 8]; StreamSender.Took 1; StreamSender.Took 3;
             StreamSender.Packet [1; 0; 9]; StreamSender.Took 3])
    (mem := [0; 0; 0; 0; 0]) (rest := @nil Z)
    (des := [Data [2; 0; 7]; Data [8; 1]; Sent; Data [0; 9]; Sent]) as (w & E & _ & _ & H).
  - unfold PACKETPROTO_MAXPAYLOAD, UINT16_MAX. lia.
  - repeat constructor; vm_compute; discriminate.
  - reflexivity.
  - reflexivity.
  - vm_compute. reflexivity.
  - vm_compute. reflexivity.
  - vm_compute. reflexivity.
  - reflexivity.
  - apply all_bytes. vm_compute. reflexivity.
  - reflexivity.
  - reflexivity.
  - vm_compute. reflexivity.
  - vm_compute. reflexivity.
  - exists w. split_and!; [vm_compute; reflexivity|reflexivity|exact E|].
    vm_compute in E. injection E as <-. apply H; [done|done|]. vm_compute. eauto.
Defined.

End Roundtrip.
