(* ===== verification/FlowBuffers.v ===== *)
(** * Buffers and adapters of the flow library

    [PacketBuffer] ([flow/PacketBuffer.c]) moves packets from an input to an
    output through a packet queue; it is proved against the contract
    [PacketQueue] and used with the ring of [ChunkBuffer2].
    [BufferWriter] ([flow/BufferWriter.c]) lets synchronous code write a
    packet when the consumer waits for one.  [PacketProtoFlow]
    ([flow/PacketProtoFlow.c]) chains writer, encoder and buffer.
    [SinglePacketBuffer], [PacketPassConnector] and
    [PacketPassInactivityMonitor] are the smaller adapters. *)

From S2P Require Import Prelude ChunkBuffer2 PacketProto.

#[export] Existing Instances ChunkBuffer2.chunk_queue ChunkBuffer2.chunk_bounded.

(** ** PacketBuffer *)
Module PacketBuffer.

(** Calls to the neighbours: receive a packet at an address, send the packet
    at an address. *)
Inductive eff := RecvInput (dest : option Z) | SendOutput (src : option Z) (len : Z).

(** The calls that are outstanding: where the input is to write, which range
    the output is reading.  Calling a busy interface, or with [NULL], is an
    error. *)
Record ports := mkPorts { asked : option Z; sending : option (Z * Z) }.

Definition port_eff (io : ports) (e : eff) : option ports :=
  match e with
  | RecvInput (Some dest) =>
      match asked io with None => Some (mkPorts (Some dest) (sending io)) | Some _ => None end
  | SendOutput (Some src) len =>
      match sending io with None => Some (mkPorts (asked io) (Some (src, len))) | Some _ => None end
  | _ => None
  end.

Fixpoint port_effs (io : ports) (es : list eff) : option ports :=
  match es with [] => Some io | e :: es' => io ← port_eff io e; port_effs io es' end.

Lemma port_effs_app es1 es2 io : port_effs io (es1 ++ es2) = (port_effs io es1 ≫= λ io, port_effs io es2).
Proof. revert io; induction es1 as [|e es IH]; intros io; cbn; [done|]. destruct (port_eff io e); cbn; auto. Qed.

Section Buffer.
Context {B : Type} `{PQ : PacketQueue B} `{BQ : !BoundedQueue B}.

Record PacketBuffer := mkPB { buf : B; input_mtu : Z }.

Definition set_buf (b : B) (o : PacketBuffer) : PacketBuffer := mkPB b (input_mtu o).

Definition PacketBuffer_input_handler_done (in_len : Z) : M PacketBuffer eff unit :=
  o ← get;
  ASSERT (0 <=? in_len);;
  ASSERT (in_len <=? input_mtu o);;
  let was_empty := out_avail (buf o) <? 0 in
  modify (λ o, set_buf (submit in_len (buf o)) o);;
  o ← get;
  when (in_avail (buf o) >=? input_mtu o) (emit (RecvInput (in_at (buf o))));;
  when was_empty (emit (SendOutput (out_at (buf o)) (out_avail (buf o)))).

Definition PacketBuffer_output_handler_done : M PacketBuffer eff unit :=
  o ← get;
  let was_full := in_avail (buf o) <? input_mtu o in
  modify (λ o, set_buf (consume (buf o)) o);;
  o ← get;
  when (was_full && (in_avail (buf o) >=? input_mtu o)) (emit (RecvInput (in_at (buf o))));;
  when (out_avail (buf o) >=? 0) (emit (SendOutput (out_at (buf o)) (out_avail (buf o)))).

(** The state between two calls, [q] the packets stored and [num] the number
    of packets the buffer was made for. *)
Record pb_inv (num : Z) (o : PacketBuffer) (io : ports) (q : list (list Z)) : Prop := mkInv {
  inv_mtu : 0 <= input_mtu o;
  inv_holds : holds (buf o) q;
  inv_sized : sized (input_mtu o) num (buf o);
  inv_fit : Forall (λ p, zlen p <= input_mtu o) q;
  inv_asked :
    match asked io with
    | Some dest => in_at (buf o) = Some dest ∧ input_mtu o <= in_avail (buf o)
    | None => in_avail (buf o) < input_mtu o
    end;
  inv_sending :
    match q with
    | [] => sending io = None
    | p :: _ => ∃ off, sending io = Some (off, zlen p) ∧ out_at (buf o) = Some off
    end
}.

(** Whatever the input asks for, the buffer is waiting for a packet while it
    stores fewer packets than it was made for. *)
Lemma asked_room num o io q : pb_inv num o io q → zlen q < num → ∃ dest, asked io = Some dest.
Proof.
  intros [_ HH HS HF HA _] Hq. destruct (sized_room _ _ _ _ HH HS HF Hq) as (off & _ & Ha).
  destruct (asked io); [eauto|lia].
Qed.

(** What the output reads is the oldest packet. *)
Lemma sending_head num o io q off len :
  pb_inv num o io q → sending io = Some (off, len) →
  ∃ p q', q = p :: q' ∧ len = zlen p ∧ slice off len (memory (buf o)) = p.
Proof.
  intros [_ HH _ _ _ HS] Hs. destruct q as [|p q]; [congruence|].
  destruct HS as (off' & Hs' & Ho). rewrite Hs in Hs'. injection Hs' as -> ->.
  destruct (out_ok _ _ _ HH) as (off2 & Ho2 & _ & Hp). rewrite Ho in Ho2. injection Ho2 as ->.
  by exists p, q.
Qed.

(** Writing where the input was told to keeps the invariant. *)
Lemma write_pb num o io q dest d :
  pb_inv num o io q → asked io = Some dest → zlen d <= input_mtu o →
  pb_inv num (set_buf (with_memory (blit dest d (memory (buf o))) (buf o)) o) io q.
Proof.
  intros [Hm HH HS HF HA HO] Ha Hd. rewrite Ha in HA. destruct HA as [Hi Hav].
  pose proof (in_with (blit dest d (memory (buf o))) (buf o)) as [Hw1 Hw2].
  pose proof (out_with (blit dest d (memory (buf o))) (buf o)) as [Ho1 _].
  split; cbn [buf input_mtu set_buf].
  - done.
  - apply write_ok; [done|done|lia].
  - by apply sized_with.
  - done.
  - rewrite Ha, Hw1, Hw2. done.
  - rewrite Ho1. done.
Qed.

(** The two tests the handlers make. *)
Lemma was_empty_spec b q : holds b q → (out_avail b <? 0) = bool_decide (q = []).
Proof.
  intros HH. destruct q as [|p q].
  - destruct (out_empty _ HH) as [_ ->]. done.
  - destruct (out_ok _ _ _ HH) as (off & _ & -> & _). pose proof (zlen_nonneg p). by zdec.
Qed.

Lemma asked_at b q m : holds b q → 0 <= m → m <= in_avail b → ∃ dest, in_at b = Some dest.
Proof.
  intros HH Hm Ha. destruct (in_at b) eqn:E; [eauto|]. pose proof (in_none _ _ HH E). lia.
Qed.

(** After a change to the queue, the handlers make the calls that are
    missing: receive if the queue has room ([wait] tells that the input is
    still busy), send if the output became free. *)
Lemma next_calls num m b q io :
  holds b q → sized m num b → Forall (λ p, zlen p <= m) q → 0 <= m →
  match asked io with
  | Some dest => in_at b = Some dest ∧ m <= in_avail b
  | None => True
  end →
  match sending io, q with
  | Some x, p :: _ => ∃ off, x = (off, zlen p) ∧ out_at b = Some off
  | Some _, [] => False
  | None, _ => True
  end →
  ∃ io', port_effs io
    ((if bool_decide (asked io = None) && (in_avail b >=? m) then [RecvInput (in_at b)] else []) ++
     (if bool_decide (sending io = None ∧ q ≠ []) then [SendOutput (out_at b) (out_avail b)] else [])) = Some io' ∧
    (∀ d, asked io = Some d → asked io' = Some d) ∧ pb_inv num (mkPB b m) io' q.
Proof.
  intros HH HS HF Hm HA HO. destruct io as [ak sd]. cbn [asked sending] in *.
  assert (∃ ak', port_effs (mkPorts ak sd)
            (if bool_decide (ak = None) && (in_avail b >=? m) then [RecvInput (in_at b)] else []) =
            Some (mkPorts ak' sd) ∧
            (∀ d, ak = Some d → ak' = Some d) ∧
            match ak' with Some dest => in_at b = Some dest ∧ m <= in_avail b | None => in_avail b < m end)
    as (ak' & E1 & HK & HA').
  { destruct ak as [dest|]; cbn; [by exists (Some dest)|].
    destruct (in_avail b >=? m) eqn:C; zb; cbn; [|by exists None].
    destruct (asked_at _ _ m HH Hm C) as (dest & ->). cbn. by exists (Some dest). }
  assert (∃ sd', port_effs (mkPorts ak' sd)
            (if bool_decide (sd = None ∧ q ≠ []) then [SendOutput (out_at b) (out_avail b)] else []) =
            Some (mkPorts ak' sd') ∧
            match q with [] => sd' = None | p :: _ => ∃ off, sd' = Some (off, zlen p) ∧ out_at b = Some off end)
    as (sd' & E2 & HO').
  { destruct sd as [x|].
    - exists (Some x). rewrite bool_decide_false by naive_solver. split; [done|].
      destruct q; [done|]. destruct HO as (off & -> & ?). by exists off.
    - destruct q as [|p q]; [exists None; by rewrite bool_decide_false by naive_solver|].
      rewrite bool_decide_true by done. destruct (out_ok _ _ _ HH) as (off & -> & -> & _). cbn.
      exists (Some (off, zlen p)). eauto. }
  exists (mkPorts ak' sd'). split; [|split; [done|by split]].
  rewrite port_effs_app, E1. exact E2.
Qed.

Lemma write_pb_at num o io q dest k d :
  pb_inv num o io q → asked io = Some dest → 0 <= k → k + zlen d <= input_mtu o →
  let m := blit (dest + k) d (memory (buf o)) in
  pb_inv num (set_buf (with_memory m (buf o)) o) io q ∧ zlen m = zlen (memory (buf o)).
Proof.
  intros HI Ha Hk Hd m. pose proof HI as [_ HH _ _ HA _]. rewrite Ha in HA. destruct HA as [Hi Hav].
  pose proof (in_bounds _ _ _ HH Hi) as Hb. pose proof (zlen_nonneg d). unfold m. split; [|apply zlen_blit; lia].
  rewrite blit_widen by lia. apply write_pb; [done|done|].
  rewrite zlen_app, zlen_slice by lia. lia.
Qed.

(** The range the input writes to. *)
Lemma asked_bounds num o io q dest :
  pb_inv num o io q → asked io = Some dest → 0 <= dest ∧ dest + input_mtu o <= zlen (memory (buf o)).
Proof.
  intros [_ HH _ _ HA _] Ha. rewrite Ha in HA. destruct HA as [Hi Hav].
  pose proof (in_bounds _ _ _ HH Hi). lia.
Qed.

Lemma input_done_ok num o io q dest len :
  pb_inv num o io q → asked io = Some dest → 0 <= len <= input_mtu o →
  ∃ o' es io',
    PacketBuffer_input_handler_done len o = Some (tt, o', es) ∧
    port_effs (mkPorts None (sending io)) es = Some io' ∧ input_mtu o' = input_mtu o ∧
    pb_inv num o' io' (q ++ [slice dest len (memory (buf o))]).
Proof.
  intros [Hm HH HS HF HA HO] Ha Hl. rewrite Ha in HA. destruct HA as [Hi Hav].
  pose proof (in_bounds _ _ _ HH Hi) as Hb.
  pose proof (submit_ok _ _ _ len HH Hi ltac:(lia)) as HH'.
  destruct (next_calls num (input_mtu o) (submit len (buf o)) (q ++ [slice dest len (memory (buf o))])
              (mkPorts None (sending io))) as (io' & E & _ & HI); cbn [asked sending]; try done.
  - by apply sized_submit.
  - apply Forall_app. split; [done|]. constructor; [|done]. rewrite zlen_slice; lia.
  - destruct q as [|p0 q]; [by rewrite HO|]. destruct HO as (off & -> & Hout). simpl.
    exists off. split; [done|]. rewrite <-Hout. eapply submit_out; [done|done|lia].
  - unfold PacketBuffer_input_handler_done. mrun. zdec. cbn. zdec. cbn.
    rewrite (was_empty_spec _ _ HH). cbn [asked sending bool_decide] in E. rewrite Z.geb_leb in E.
    assert (Hs : bool_decide (q = []) = bool_decide (sending io = None ∧ q ++ [slice dest len (memory (buf o))] ≠ [])).
    { apply bool_decide_ext. destruct q; [rewrite HO; naive_solver|]. destruct HO as (? & -> & _). naive_solver. }
    rewrite <-Hs in E. do 3 eexists.
    split; [|split; [exact E|split; [|exact HI]; done]].
    destruct (input_mtu o <=? _); case_bool_decide; reflexivity.
Qed.

Lemma output_done_ok num o io p q :
  pb_inv num o io (p :: q) →
  ∃ o' es io',
    PacketBuffer_output_handler_done o = Some (tt, o', es) ∧
    port_effs (mkPorts (asked io) None) es = Some io' ∧ input_mtu o' = input_mtu o ∧
    (∀ dest, asked io = Some dest → asked io' = Some dest ∧ memory (buf o') = memory (buf o)) ∧
    pb_inv num o' io' q.
Proof.
  intros [Hm HH HS HF HA HO].
  destruct (next_calls num (input_mtu o) (consume (buf o)) q (mkPorts (asked io) None)) as (io' & E & HK & HI);
    cbn [asked sending]; try done.
  - by eapply consume_ok.
  - by apply sized_consume.
  - by inversion HF.
  - destruct (asked io) as [dest|]; [|done]. destruct HA as [Hi Ha].
    destruct (in_stable _ _ _ _ HH Hi) as (-> & ? & _). split; [done|lia].
  - assert (HH' : holds (consume (buf o)) q) by by eapply consume_ok.
    assert (Hf : (in_avail (buf o) <? input_mtu o) = bool_decide (asked io = None)).
    { destruct (asked io); [destruct HA|]; [rewrite bool_decide_false by done|rewrite bool_decide_true by done]; zdec; done. }
    assert (He : (out_avail (consume (buf o)) >=? 0) = bool_decide (@None (Z * Z) = None ∧ q ≠ [])).
    { pose proof (was_empty_spec _ _ HH') as Hw. rewrite Z.geb_leb, Z.leb_antisym, Hw, <-bool_decide_not.
      apply bool_decide_ext. naive_solver. }
    unfold PacketBuffer_output_handler_done. mrun. rewrite Hf, He. cbn [asked sending] in E.
    do 3 eexists. split; [|split; [exact E|split; [|split; [|exact HI]]; [done|]]].
    + destruct (_ && _); repeat case_bool_decide; first [reflexivity|tauto].
    + intros dest Hd. split; [by apply HK|]. rewrite Hd in HA. destruct HA as [Hi _].
      by destruct (in_stable _ _ _ _ HH Hi) as (_ & _ & ?).
Qed.
End Buffer.

Arguments PacketBuffer : clear implicits.

(** [num_packets] buffers of the input's MTU; [mem] is the memory
    [BAllocArray] returns for [num_blocks] blocks. *)
Definition PacketBuffer_Init (input_mtu output_mtu num_packets : Z) (mem : Z → option (list Z))
  : option (option (PacketBuffer ChunkBuffer2.ChunkBuffer2 * list eff)) :=
  if negb ((output_mtu >=? input_mtu) && (num_packets >? 0)) then None
  else
    let num_blocks := ChunkBuffer2.ChunkBuffer2_calc_blocks input_mtu num_packets in
    if num_blocks <? 0 then Some None
    else
      match mem num_blocks with
      | None => Some None
      | Some buf_data =>
          let b := ChunkBuffer2.ChunkBuffer2_Init buf_data num_blocks input_mtu in
          Some (Some (mkPB b input_mtu, [RecvInput (ChunkBuffer2.input_dest b)]))
      end.

(** The allocator returns memory of the requested size, as bytes. *)
Definition allocates (mem : Z → option (list Z)) : Prop :=
  ∀ n b, 0 <= n → mem n = Some b → zlen b = ChunkBuffer2.block_size * n.

Lemma Init_ok m om num mem o es :
  0 <= m <= INT_MAX → 0 < num <= INT_MAX → allocates mem →
  ChunkBuffer2.block_size * ChunkBuffer2.ChunkBuffer2_calc_blocks m num <= INT_MAX →
  PacketBuffer_Init m om num mem = Some (Some (o, es)) →
  input_mtu o = m ∧ ∃ io, port_effs (mkPorts None None) es = Some io ∧ pb_inv num o io [].
Proof.
  intros Hm Hn Hmem Hsz. unfold PacketBuffer_Init. case_if; [done|].
  rewrite ChunkBuffer2.calc_blocks_spec in * by lia.
  pose proof (bdivide_up_bounds m ChunkBuffer2.block_size ltac:(lia) eq_refl) as Hb.
  destruct (ChunkBuffer2.blocks_needed m num <=? INT_MAX) eqn:E; [|done]. zb.
  unfold ChunkBuffer2.blocks_needed in *. set (k := bdivide_up m ChunkBuffer2.block_size) in *.
  case_if; [done|]. destruct (mem _) as [bd|] eqn:Ea; [|done]. intros [= <- <-]. cbn [input_mtu].
  split; [done|]. assert (Hn0 : 0 <= (1 + k) * (num + 1)) by lia. specialize (Hmem _ _ Hn0 Ea).
  set (b := ChunkBuffer2.ChunkBuffer2_Init bd ((1 + k) * (num + 1)) m) in *.
  assert (Hh : @holds _ ChunkBuffer2.chunk_queue b []) by (apply ChunkBuffer2.Init_inv; try done; fold k; nia).
  assert (Hs : sized m num b).
  { cbn. unfold b, ChunkBuffer2.ChunkBuffer2_Init, ChunkBuffer2.ChunkBuffer2_update_output,
      ChunkBuffer2.ChunkBuffer2_update_input. repeat case_if; cbn; fold k; lia. }
  destruct (next_calls num m b [] (mkPorts None None)) as (io & Eio & _ & HI); try done; [lia|].
  destruct (sized_room m num b [] Hh Hs) as (off & Hin & Hav); [done|rewrite zlen_nil; lia|].
  exists io. split; [|exact HI]. rewrite <-Eio. cbn [asked sending].
  by replace (in_avail b >=? m) with true by (symmetry; rewrite Z.geb_leb; by apply Z.leb_le).
Qed.

End PacketBuffer.

(** ** BufferWriter *)
Module BufferWriter.

Record BufferWriter := mkBW { out_have : bool; out : Z; d_mtu : Z; d_writing : bool }.

(** [PacketRecvInterface_Done] on the interface it provides. *)
Inductive eff := Done (len : Z).

Definition BufferWriter_output_handler_recv (data : Z) : M BufferWriter eff unit :=
  o ← get;
  ASSERT (negb (out_have o));;
  modify (λ o, mkBW true data (d_mtu o) (d_writing o)).

Definition BufferWriter_Init (mtu : Z) : option BufferWriter :=
  if mtu >=? 0 then Some (mkBW false 0 mtu false) else None.

(** The address to write to, [None] when no consumer waits for a packet. *)
Definition BufferWriter_StartPacket : M BufferWriter eff (option Z) :=
  o ← get;
  ASSERT (negb (d_writing o));;
  if negb (out_have o) then mret None
  else
    modify (λ o, mkBW (out_have o) (out o) (d_mtu o) true);;
    mret (Some (out o)).

Definition BufferWriter_EndPacket (len : Z) : M BufferWriter eff unit :=
  o ← get;
  ASSERT (len >=? 0);;
  ASSERT (len <=? d_mtu o);;
  ASSERT (out_have o);;
  ASSERT (d_writing o);;
  modify (λ o, mkBW false (out o) (d_mtu o) (d_writing o));;
  emit (Done len);;
  modify (λ o, mkBW (out_have o) (out o) (d_mtu o) false).

End BufferWriter.

(** ** PacketProtoFlow: writer, encoder and buffer in a row *)
Module PacketProtoFlow.
Import PacketBuffer BufferWriter.

Definition ring := ChunkBuffer2.ChunkBuffer2.

#[local] Arguments memory : simpl never.
#[local] Arguments with_memory : simpl never.

(** Calls on the two interfaces between the parts are jobs: a request of the
    buffer to the encoder, of the encoder to the writer, and the two
    completions on the way back. *)
Inductive job :=
  | EncoderRecv (dest : Z)
  | WriterRecv (dest : Z)
  | EncoderDone (len : Z)
  | BufferDone (len : Z).

Record flow := mkF {
  ainput : BufferWriter;
  encoder : Encoder.PacketProtoEncoder;
  buffer : PacketBuffer ring;
  jobs : list job;
  io : ports;
  accepted : list (list Z);     (* packets the user wrote *)
  delivered : list (list Z)     (* packets the output has taken *)
}.

(** [PacketProtoFlow_Init]: the parts in order; a failing buffer makes it
    fail. *)
Definition PacketProtoFlow_Init (input_mtu num_packets output_mtu : Z) (mem : Z → option (list Z))
  : option (option (BufferWriter * Encoder.PacketProtoEncoder * PacketBuffer ring * list PacketBuffer.eff)) :=
  if negb ((input_mtu >=? 0) && (input_mtu <=? PACKETPROTO_MAXPAYLOAD) && (num_packets >? 0)
           && (output_mtu >=? PACKETPROTO_ENCLEN input_mtu)) then None
  else
    w ← BufferWriter_Init input_mtu;
    e ← Encoder.PacketProtoEncoder_Init (d_mtu w);
    r ← PacketBuffer_Init (Encoder.PacketProtoEncoder_GetOutput e) output_mtu num_packets mem;
    match r with
    | None => Some None
    | Some (b, es) => Some (Some (w, e, b, es))
    end.

Fixpoint requests (es : list PacketBuffer.eff) : list job :=
  match es with
  | [] => []
  | RecvInput (Some dest) :: es' => EncoderRecv dest :: requests es'
  | _ :: es' => requests es'
  end.

(** Runs the calls a handler of the buffer made. *)
Definition buffer_calls (io0 : ports) (b : PacketBuffer ring) (es : list PacketBuffer.eff) (f : flow)
  : option flow :=
  io' ← port_effs io0 es;
  Some (mkF (ainput f) (encoder f) b (jobs f ++ requests es) io' (accepted f) (delivered f)).

Definition finit (input_mtu num_packets output_mtu : Z) (mem : Z → option (list Z)) : option (option flow) :=
  r ← PacketProtoFlow_Init input_mtu num_packets output_mtu mem;
  match r with
  | None => Some None
  | Some (w, e, b, es) =>
      f ← buffer_calls (mkPorts None None) b es (mkF w e b [] (mkPorts None None) [] []);
      Some (Some f)
  end.

(** The calls the encoder made: requests to the writer, stores into the
    buffer's memory, completions to the buffer. *)
Definition encoder_call (f : flow) (e : Encoder.eff) : flow :=
  match e with
  | Encoder.RecvInput dest =>
      mkF (ainput f) (encoder f) (buffer f) (jobs f ++ [WriterRecv dest]) (io f) (accepted f) (delivered f)
  | Encoder.Store dest d =>
      mkF (ainput f) (encoder f)
        (set_buf (with_memory (blit dest d (memory (buf (buffer f)))) (buf (buffer f))) (buffer f))
        (jobs f) (io f) (accepted f) (delivered f)
  | Encoder.OutputDone len =>
      mkF (ainput f) (encoder f) (buffer f) (jobs f ++ [BufferDone len]) (io f) (accepted f) (delivered f)
  end.

Definition run_job (j : job) (f : flow) : option flow :=
  match j with
  | EncoderRecv dest =>
      '(_, e, es) ← Encoder.PacketProtoEncoder_output_handler_recv dest (encoder f);
      Some (foldl encoder_call (mkF (ainput f) e (buffer f) (jobs f) (io f) (accepted f) (delivered f)) es)
  | EncoderDone len =>
      '(_, e, es) ← Encoder.PacketProtoEncoder_input_handler_done len (encoder f);
      Some (foldl encoder_call (mkF (ainput f) e (buffer f) (jobs f) (io f) (accepted f) (delivered f)) es)
  | WriterRecv dest =>
      '(_, w, _) ← BufferWriter_output_handler_recv dest (ainput f);
      Some (mkF w (encoder f) (buffer f) (jobs f) (io f) (accepted f) (delivered f))
  | BufferDone len =>
      '(_, b, es) ← PacketBuffer_input_handler_done len (buffer f);
      buffer_calls (mkPorts None (sending (io f))) b es f
  end.

(** [Write p]: the user writes a packet, or drops it if it cannot
    ([BufferWriter_StartPacket], copy, [BufferWriter_EndPacket]); [Job]: the
    first pending job runs; [Sent]: the output completes a packet. *)
Inductive ev := Write (p : list Z) | Job | Sent.

Definition write_packet (p : list Z) (f : flow) : option flow :=
  '(r, w, _) ← BufferWriter_StartPacket (ainput f);
  match r with
  | None => Some (mkF w (encoder f) (buffer f) (jobs f) (io f) (accepted f) (delivered f))
  | Some at_ =>
      '(_, w, es) ← BufferWriter_EndPacket (zlen p) w;
      Some (mkF w (encoder f)
              (set_buf (with_memory (blit at_ p (memory (buf (buffer f)))) (buf (buffer f))) (buffer f))
              (jobs f ++ ((λ '(Done len), EncoderDone len) <$> es)) (io f) (accepted f ++ [p]) (delivered f))
  end.

Definition fstep (f : flow) (e : ev) : option flow :=
  match e with
  | Write p => write_packet p f
  | Job =>
      match jobs f with
      | [] => None
      | j :: js => run_job j (mkF (ainput f) (encoder f) (buffer f) js (io f) (accepted f) (delivered f))
      end
  | Sent =>
      '(off, len) ← sending (io f);
      '(_, b, es) ← PacketBuffer_output_handler_done (buffer f);
      let d := slice off len (memory (buf (buffer f))) in
      buffer_calls (mkPorts (asked (io f)) None) b es
        (mkF (ainput f) (encoder f) (buffer f) (jobs f) (io f) (accepted f) (delivered f ++ [d]))
  end.

(** A request of the buffer is one pending job. *)
Lemma requests_asked es : ∀ io0 io' d,
  asked io0 = Some d → port_effs io0 es = Some io' → asked io' = Some d ∧ requests es = [].
Proof.
  induction es as [|e es IH]; intros io0 io' d Ha; cbn; [intros [= <-]; done|].
  destruct e as [[dest|]|[src|] len]; cbn; try done.
  - by rewrite Ha.
  - destruct (sending io0); [done|]. cbn. intros H. by apply (IH _ _ d) in H.
Qed.

Lemma requests_idle es : ∀ io0 io',
  asked io0 = None → port_effs io0 es = Some io' →
  requests es = match asked io' with Some d => [EncoderRecv d] | None => [] end.
Proof.
  induction es as [|e es IH]; intros io0 io' Ha; cbn; [intros [= <-]; by rewrite Ha|].
  destruct e as [[dest|]|[src|] len]; cbn; try done.
  - rewrite Ha. cbn. intros H. apply (requests_asked _ _ _ dest) in H as [-> ->]; done.
  - destruct (sending io0); [done|]. cbn. intros H. by apply (IH _ _) in H.
Qed.

(** Where the request of the buffer is, and the packet on its way back. *)
Inductive chain (f : flow) : list (list Z) → Prop :=
  | at_rest :
      asked (io f) = None → jobs f = [] → out_have (ainput f) = false →
      Encoder.output_packet (encoder f) = None → chain f []
  | at_encoder dest :
      asked (io f) = Some dest → jobs f = [EncoderRecv dest] → out_have (ainput f) = false →
      Encoder.output_packet (encoder f) = None → chain f []
  | at_writer dest :
      asked (io f) = Some dest → jobs f = [WriterRecv (dest + header_size)] → out_have (ainput f) = false →
      Encoder.output_packet (encoder f) = Some dest → chain f []
  | at_user dest :
      asked (io f) = Some dest → jobs f = [] → out_have (ainput f) = true →
      out (ainput f) = dest + header_size →
      Encoder.output_packet (encoder f) = Some dest → chain f []
  | written dest p :
      asked (io f) = Some dest → jobs f = [EncoderDone (zlen p)] → out_have (ainput f) = false →
      Encoder.output_packet (encoder f) = Some dest →
      slice (dest + header_size) (zlen p) (memory (buf (buffer f))) = p →
      zlen p <= d_mtu (ainput f) → chain f [encode p]
  | encoded dest p :
      asked (io f) = Some dest → jobs f = [BufferDone (PACKETPROTO_ENCLEN (zlen p))] →
      out_have (ainput f) = false → Encoder.output_packet (encoder f) = None →
      slice dest (PACKETPROTO_ENCLEN (zlen p)) (memory (buf (buffer f))) = encode p →
      zlen p <= d_mtu (ainput f) → chain f [encode p].

Record finv (mtu num : Z) (f : flow) (q : list (list Z)) : Prop := mkFInv {
  f_mtu : 0 <= mtu <= PACKETPROTO_MAXPAYLOAD;
  f_writer : d_mtu (ainput f) = mtu ∧ d_writing (ainput f) = false;
  f_buffer : input_mtu (buffer f) = PACKETPROTO_ENCLEN mtu;
  f_pb : pb_inv num (buffer f) (io f) q;
  f_chain : ∃ inflight, chain f inflight ∧ encode <$> accepted f = delivered f ++ q ++ inflight
}.

(** A packet the user writes is taken if the writer was asked for one, else
    dropped without a trace. *)
Lemma write_step mtu num f q p :
  finv mtu num f q → zlen p <= mtu →
  ∃ f', write_packet p f = Some f' ∧ finv mtu num f' q ∧ delivered f' = delivered f ∧
        accepted f' = if out_have (ainput f) then accepted f ++ [p] else accepted f.
Proof.
  intros [Hm [Hw1 Hw2] Hb Hpb (infl & HC & Hacc)] Hp. pose proof (zlen_nonneg p) as Hp0.
  unfold write_packet, BufferWriter_StartPacket. mrun. rewrite Hw2. cbn.
  destruct (out_have (ainput f)) eqn:Ho; cbn.
  - inversion HC as [| | |dest Ha Hj _ Hout He| |]; subst; try congruence.
    unfold BufferWriter_EndPacket. mrun. rewrite Ho. zdec. cbn. zdec. cbn. zdec. cbn. zdec. cbn.
    eexists. split; [reflexivity|]. split; [|done]. cbn [ainput d_mtu].
    destruct (write_pb_at num (buffer f) (io f) q dest header_size p Hpb Ha) as [Hpb' Hz];
      [done|rewrite Hb; unfold PACKETPROTO_ENCLEN; lia|].
    split; cbn [ainput buffer io accepted delivered jobs]; try done.
    { rewrite Hout. exact Hpb'. }
    exists [encode p]. split.
    + eapply written; cbn; try done; [by rewrite Hj|]. rewrite (memory_with (B := ring)), Hout.
      pose proof (asked_bounds _ _ _ _ _ Hpb Ha). rewrite Hb in *. unfold PACKETPROTO_ENCLEN, header_size in *.
      apply slice_blit_eq; lia.
    + rewrite fmap_app, Hacc. cbn. by rewrite !app_nil_r, <-app_assoc.
  - eexists. split; [reflexivity|]. split; [|done]. split; cbn; try done.
    exists infl. split; [|done]. destruct f, ainput0. cbn in *. subst. exact HC.
Qed.

Lemma encoder_recv_step mtu num f q dest js :
  finv mtu num f q → jobs f = EncoderRecv dest :: js →
  ∃ f', fstep f Job = Some f' ∧ finv mtu num f' q ∧ accepted f' = accepted f ∧ delivered f' = delivered f.
Proof.
  intros [Hm [Hw1 Hw2] Hb Hpb (infl & HC & Hacc)] Hj. cbn. rewrite Hj. cbn.
  inversion HC as [? Hj'|dest' Ha Hj' Ho He|? ? Hj'|? ? Hj'|? ? ? Hj'|? ? ? Hj']; subst; try congruence.
  rewrite Hj in Hj'. simplify_eq.
  unfold Encoder.PacketProtoEncoder_output_handler_recv. mrun. rewrite He. cbn.
  eexists. split; [reflexivity|]. cbn. split; [|done]. split; cbn; try done.
  exists []. split; [|done]. by eapply at_writer.
Qed.

Lemma writer_recv_step mtu num f q dest js :
  finv mtu num f q → jobs f = WriterRecv dest :: js →
  ∃ f', fstep f Job = Some f' ∧ finv mtu num f' q ∧ accepted f' = accepted f ∧ delivered f' = delivered f.
Proof.
  intros [Hm [Hw1 Hw2] Hb Hpb (infl & HC & Hacc)] Hj. cbn. rewrite Hj. cbn.
  inversion HC as [? Hj'|? ? Hj'|dest' Ha Hj' Ho He|? ? Hj'|? ? ? Hj'|? ? ? Hj']; subst; try congruence.
  rewrite Hj in Hj'. simplify_eq.
  unfold BufferWriter_output_handler_recv. mrun. rewrite Ho. cbn.
  eexists. split; [reflexivity|]. cbn. split; [|done]. split; cbn; try done.
  exists []. split; [|done]. by eapply at_user.
Qed.

Lemma encoder_done_step mtu num f q len js :
  finv mtu num f q → jobs f = EncoderDone len :: js →
  ∃ f', fstep f Job = Some f' ∧ finv mtu num f' q ∧ accepted f' = accepted f ∧ delivered f' = delivered f.
Proof.
  intros [Hm [Hw1 Hw2] Hb Hpb (infl & HC & Hacc)] Hj. cbn. rewrite Hj. cbn.
  inversion HC as [? Hj'|? ? Hj'|? ? Hj'|? ? Hj'|dest p Ha Hj' Ho He Hs Hl|? ? ? Hj']; subst; try congruence.
  rewrite Hj in Hj'. simplify_eq.
  unfold Encoder.PacketProtoEncoder_input_handler_done. mrun. rewrite He. cbn.
  eexists. split; [reflexivity|]. cbn. split; [|done].
  set (h := le_bytes 2 (u16 (zlen p))).
  assert (Hh : h = le_bytes 2 (zlen p)).
  { unfold h. f_equal. apply u16_small. unfold is_u16. pose proof (zlen_nonneg p).
    unfold PACKETPROTO_MAXPAYLOAD in Hm. lia. }
  assert (Hz : zlen h = 2) by apply zlen_le_bytes. pose proof (zlen_nonneg p).
  destruct (write_pb_at num (buffer f) (io f) q dest 0 h Hpb Ha) as [Hpb' Hmem];
    [done|rewrite Hb; unfold PACKETPROTO_ENCLEN, header_size; lia|]. rewrite Z.add_0_r in *.
  pose proof (asked_bounds _ _ _ _ _ Hpb Ha) as Hbd. rewrite Hb in Hbd.
  split; cbn [ainput encoder buffer io jobs accepted delivered]; try done.
  exists [encode p]. split; [|done]. eapply encoded; cbn; try done.
  rewrite (memory_with (B := ring)). unfold PACKETPROTO_ENCLEN, header_size in *.
  rewrite slice_split by lia. unfold encode. rewrite <-Hh. f_equal.
  - apply slice_blit_len; lia.
  - rewrite slice_blit_after by lia. done.
Qed.

Lemma buffer_done_step mtu num f q len js :
  finv mtu num f q → jobs f = BufferDone len :: js →
  ∃ f' q', fstep f Job = Some f' ∧ finv mtu num f' q' ∧ accepted f' = accepted f ∧ delivered f' = delivered f.
Proof.
  intros [Hm [Hw1 Hw2] Hb Hpb (infl & HC & Hacc)] Hj. cbn. rewrite Hj. cbn.
  inversion HC as [? Hj'|? ? Hj'|? ? Hj'|? ? Hj'|? ? ? Hj'|dest p Ha Hj' Ho He Hs Hl]; subst; try congruence.
  rewrite Hj in Hj'. simplify_eq.
  destruct (input_done_ok num (buffer f) (io f) q dest (PACKETPROTO_ENCLEN (zlen p)) Hpb Ha)
    as (o' & es & io' & -> & Ep & Hmo & Hpb').
  { pose proof (zlen_nonneg p). rewrite Hb. unfold PACKETPROTO_ENCLEN, header_size. lia. }
  cbn. unfold buffer_calls. rewrite Ep. cbn. do 2 eexists. split; [reflexivity|]. cbn. split; [|done].
  rewrite Hs in Hpb'. split; cbn; try done; [by rewrite Hmo|].
  exists []. split; [|by rewrite Hacc, app_nil_r].
  apply requests_idle in Ep; [|done]. rewrite Ep.
  destruct (asked io') eqn:Ea; [by eapply at_encoder|by apply at_rest].
Qed.

(** A packet that leaves the buffer does not disturb a request under way. *)
Ltac follow_request Ha Hk Ep :=
  destruct (Hk _ Ha) as [Ha' Hmem]; eapply requests_asked in Ep as [_ Er]; [|exact Ha].

Lemma sent_step mtu num f q off len :
  finv mtu num f q → sending (io f) = Some (off, len) →
  ∃ f' p q', fstep f Sent = Some f' ∧ q = p :: q' ∧ finv mtu num f' q' ∧ accepted f' = accepted f ∧
             delivered f' = delivered f ++ [p].
Proof.
  intros [Hm Hw Hb Hpb (infl & HC & Hacc)] Hsd. cbn. rewrite Hsd. cbn.
  destruct (sending_head _ _ _ _ _ _ Hpb Hsd) as (p & q' & -> & -> & Hp).
  destruct (output_done_ok num (buffer f) (io f) p q' Hpb) as (o' & es & io' & -> & Ep & Hmo & Hk & Hpb').
  cbn. unfold buffer_calls. rewrite Ep. cbn. rewrite Hp. do 3 eexists. split; [reflexivity|].
  split; [done|]. split; [|done]. split; cbn; try done; [by rewrite Hmo|].
  exists infl. split; [|by rewrite Hacc, <-app_assoc].
  destruct HC as [Ha Hj|dest Ha Hj|dest Ha Hj|dest Ha Hj|dest p' Ha Hj|dest p' Ha Hj].
  - apply requests_idle in Ep; [|done].
       destruct (asked io') eqn:Ea; [eapply at_encoder|apply at_rest]; cbn; try done; by rewrite Hj, Ep.
  - follow_request Ha Hk Ep. eapply at_encoder; cbn; try done. by rewrite Hj, Er.
  - follow_request Ha Hk Ep. eapply at_writer; cbn; try done. by rewrite Hj, Er.
  - follow_request Ha Hk Ep. eapply at_user; cbn; try done. by rewrite Hj, Er.
  - follow_request Ha Hk Ep. eapply written; cbn; try done; [by rewrite Hj, Er|by rewrite Hmem].
  - follow_request Ha Hk Ep. eapply encoded; cbn; try done; [by rewrite Hj, Er|by rewrite Hmem].
Qed.

Definition allowed (f : flow) (e : ev) : bool :=
  match e with
  | Write p => zlen p <=? d_mtu (ainput f)
  | Job => negb (bool_decide (jobs f = []))
  | Sent => bool_decide (is_Some (sending (io f)))
  end.

#[export] Instance job_eq_dec : EqDecision job.
Proof. solve_decision. Defined.

Lemma flow_step mtu num f q e :
  finv mtu num f q → allowed f e = true →
  ∃ f' q', fstep f e = Some f' ∧ finv mtu num f' q'.
Proof.
  intros HI HA. destruct e as [p| |]; cbn [allowed] in HA.
  - zb. destruct (write_step mtu num f q p HI) as (f' & E & HI' & _); [|by exists f', q].
    destruct HI as [_ [Hw _] _ _ _]. lia.
  - apply negb_true_iff, bool_decide_eq_false in HA. destruct (jobs f) as [|j js] eqn:Hj; [done|].
    destruct j as [dest|dest|len|len].
    + destruct (encoder_recv_step mtu num f q dest js HI Hj) as (f' & E & HI' & _). by exists f', q.
    + destruct (writer_recv_step mtu num f q dest js HI Hj) as (f' & E & HI' & _). by exists f', q.
    + destruct (encoder_done_step mtu num f q len js HI Hj) as (f' & E & HI' & _). by exists f', q.
    + destruct (buffer_done_step mtu num f q len js HI Hj) as (f' & q' & E & HI' & _). by exists f', q'.
  - apply bool_decide_eq_true in HA as [[off len] Hs].
    destruct (sent_step mtu num f q off len HI Hs) as (f' & p & q' & E & -> & HI' & _). by exists f', q'.
Qed.

Fixpoint frun (f : flow) (es : list ev) : option flow :=
  match es with [] => Some f | e :: es' => f ← fstep f e; frun f es' end.

Fixpoint all_allowed (f : flow) (es : list ev) : bool :=
  match es with
  | [] => true
  | e :: es' => allowed f e && match fstep f e with Some f' => all_allowed f' es' | None => true end
  end.

Lemma flow_run mtu num es : ∀ f q,
  finv mtu num f q → all_allowed f es = true → ∃ f' q', frun f es = Some f' ∧ finv mtu num f' q'.
Proof.
  induction es as [|e es IH]; intros f q HI; cbn [all_allowed frun]; [eauto|].
  intros [HA Hr]%andb_true_iff. destruct (flow_step mtu num f q e HI HA) as (f1 & q1 & E1 & HI1).
  rewrite E1 in Hr |- *. by apply (IH f1 q1).
Qed.

Lemma finit_inv mtu num om mem f :
  0 <= mtu <= PACKETPROTO_MAXPAYLOAD → 0 < num <= INT_MAX → allocates mem →
  ChunkBuffer2.block_size * ChunkBuffer2.ChunkBuffer2_calc_blocks (PACKETPROTO_ENCLEN mtu) num <= INT_MAX →
  finit mtu num om mem = Some (Some f) → finv mtu num f [].
Proof.
  intros Hm Hn Hmem Hsz. unfold finit, PacketProtoFlow_Init. case_if; [done|].
  unfold BufferWriter_Init. zdec. cbn. unfold Encoder.PacketProtoEncoder_Init. zdec. cbn.
  unfold Encoder.PacketProtoEncoder_GetOutput. cbn.
  destruct (PacketBuffer_Init _ _ _ _) as [[[b es]|]|] eqn:E; cbn; try done.
  apply Init_ok in E as (Hb & io & Eio & HI); try done.
  - unfold buffer_calls. rewrite Eio. cbn. intros [= <-]. split; cbn; try done. exists []. split; [|done].
    apply requests_idle in Eio; [|done]. rewrite Eio.
    destruct (asked io) eqn:Ea; [by eapply at_encoder|by apply at_rest].
  - unfold PACKETPROTO_ENCLEN, header_size, PACKETPROTO_MAXPAYLOAD, UINT16_MAX, INT_MAX in *. lia.
Qed.

(** A packet flow loses nothing.  However writing, the jobs between the
    parts and completions of the output interleave: no assertion fails and
    no interface is called while busy; the encodings of the packets the
    writer accepted are, in order, those the output has taken, those in the
    buffer and at most one on its way between the parts; the packet the
    output is reading is the oldest in the buffer; and once the pending jobs
    have run, a packet is accepted whenever fewer than [num] are buffered. *)
Lemma flow_exact mtu num om mem f0 es :
  0 <= mtu <= PACKETPROTO_MAXPAYLOAD → 0 < num <= INT_MAX → allocates mem →
  ChunkBuffer2.block_size * ChunkBuffer2.ChunkBuffer2_calc_blocks (PACKETPROTO_ENCLEN mtu) num <= INT_MAX →
  finit mtu num om mem = Some (Some f0) → all_allowed f0 es = true →
  ∃ f q inflight,
    frun f0 es = Some f ∧
    encode <$> accepted f = delivered f ++ q ++ inflight ∧ (length inflight <= 1)%nat ∧
    match q with
    | [] => sending (io f) = None
    | p :: _ => ∃ off, sending (io f) = Some (off, zlen p) ∧ slice off (zlen p) (memory (buf (buffer f))) = p
    end ∧
    (jobs f = [] → inflight = [] ∧
      (zlen q < num → ∀ p, zlen p <= mtu →
         ∃ f', fstep f (Write p) = Some f' ∧ accepted f' = accepted f ++ [p])).
Proof.
  intros Hm Hn Hmem Hsz Hi HA. apply finit_inv in Hi; try done.
  destruct (flow_run mtu num es f0 [] Hi HA) as (f & q & E & HI).
  pose proof HI as [_ _ _ Hpb (infl & HC & Hacc)]. exists f, q, infl. split_and!; try done.
  - destruct HC; cbn; lia.
  - pose proof (inv_sending _ _ _ _ Hpb) as Hs. destruct q as [|p q]; [done|]. destruct Hs as (off & Hs & _).
    exists off. split; [done|].
    by destruct (sending_head _ _ _ _ _ _ Hpb Hs) as (? & ? & [= <- <-] & _ & ?).
  - intros Hj. split; [destruct HC; congruence|]. intros Hq p Hp.
    destruct (asked_room _ _ _ _ Hpb Hq) as (dest & Ha).
    destruct (write_step mtu num f q p HI Hp) as (f' & E' & _ & _ & Hacc'). exists f'. split; [done|].
    assert (out_have (ainput f) = true) as Ho by (destruct HC; congruence). by rewrite Hacc', Ho.
Qed.

Lemma flow_exact_witness :
  ∃ f0, finit 3 2 5 (λ n, Some (replicate (Z.to_nat (4 * n)) 0)) = Some (Some f0) ∧
  ∃ f q inflight,
    frun f0 [Write [1]; Job; Job; Write [7; 8]; Job; Job; Job; Job; Write [9]; Write [5]; Job; Sent; Job] = Some f ∧
    encode <$> accepted f = delivered f ++ q ++ inflight ∧ (length inflight <= 1)%nat ∧
    match q with
    | [] => sending (io f) = None
    | p :: _ => ∃ off, sending (io f) = Some (off, zlen p) ∧ slice off (zlen p) (memory (buf (buffer f))) = p
    end ∧
    (jobs f = [] → inflight = [] ∧
      (zlen q < 2 → ∀ p, zlen p <= 3 →
         ∃ f', fstep f (Write p) = Some f' ∧ accepted f' = accepted f ++ [p])).
Proof.
  eexists. split; [vm_compute; reflexivity|].
  eapply flow_exact with (om := 5) (mem := λ n, Some (replicate (Z.to_nat (4 * n)) 0)).
  - vm_compute. split; discriminate.
  - vm_compute. split; [reflexivity|discriminate].
  - intros n b Hn [= <-]. unfold zlen. rewrite length_replicate. unfold ChunkBuffer2.block_size. lia.
  - vm_compute. discriminate.
  - vm_compute. reflexivity.
  - vm_compute. reflexivity.
Defined.

End PacketProtoFlow.

(** ** SinglePacketBuffer: one buffer, used for receiving and sending in turn *)
Module SinglePacketBuffer.

Record SinglePacketBuffer := mkSB { buf : list Z }.

Inductive eff := RecvInput | SendOutput (len : Z).

Definition SinglePacketBuffer_input_handler_done (in_len : Z) : M SinglePacketBuffer eff unit :=
  emit (SendOutput in_len).

Definition SinglePacketBuffer_output_handler_done : M SinglePacketBuffer eff unit :=
  emit RecvInput.

(** [BAlloc] of the input's MTU. *)
Definition SinglePacketBuffer_Init (output_mtu input_mtu : Z) (mem : Z → option (list Z))
  : option (option (SinglePacketBuffer * list eff)) :=
  if negb (output_mtu >=? input_mtu) then None
  else match mem input_mtu with
       | None => Some None
       | Some b => Some (Some (mkSB b, [RecvInput]))
       end.

(** The buffer belongs to the input or to the output, never to both. *)
Inductive owner := Input | Output (len : Z).
Record world := mkW { spb : SinglePacketBuffer; holder : option owner; got : list (list Z); passed : list (list Z) }.

Definition call (w : world) (e : eff) : option world :=
  match holder w, e with
  | None, RecvInput => Some (mkW (spb w) (Some Input) (got w) (passed w))
  | None, SendOutput len => Some (mkW (spb w) (Some (Output len)) (got w) (passed w))
  | Some _, _ => None
  end.

Definition calls_of (w : world) (es : list eff) : option world :=
  foldl (λ r e, w ← r; call w e) (Some w) es.

Inductive ev := Got (d : list Z) | Passed.

Definition wstep (w : world) (e : ev) : option world :=
  match e, holder w with
  | Got d, Some Input =>
      '(_, s, es) ← SinglePacketBuffer_input_handler_done (zlen d) (mkSB (blit 0 d (buf (spb w))));
      calls_of (mkW s None (got w ++ [d]) (passed w)) es
  | Passed, Some (Output len) =>
      '(_, s, es) ← SinglePacketBuffer_output_handler_done (spb w);
      calls_of (mkW s None (got w) (passed w ++ [slice 0 len (buf (spb w))])) es
  | _, _ => None
  end.

Definition inv (w : world) : Prop :=
  match holder w with
  | Some Input => got w = passed w
  | Some (Output len) => 0 <= len <= zlen (buf (spb w)) ∧ got w = passed w ++ [slice 0 len (buf (spb w))]
  | None => False
  end.

Lemma single_step w e :
  inv w →
  match e with Got d => zlen d <= zlen (buf (spb w)) ∧ holder w = Some Input | Passed => holder w ≠ Some Input end →
  ∃ w', wstep w e = Some w' ∧ inv w' ∧ zlen (buf (spb w')) = zlen (buf (spb w)).
Proof.
  destruct w as [s h g p]. unfold inv. cbn. intros HI HA. destruct e as [d|].
  - destruct HA as [Hd ->]. cbn. eexists. split; [reflexivity|]. cbn. pose proof (zlen_nonneg d).
    rewrite zlen_blit, slice_blit_eq, HI by lia. split; [|done]. split; [lia|done].
  - destruct h as [[|len]|]; try done. cbn. eexists. split; [reflexivity|]. cbn. by destruct HI.
Qed.

End SinglePacketBuffer.

(** ** PacketPassConnector: an output that comes and goes *)
Module PacketPassConnector.

(** Outputs are known by a number. *)
Record PacketPassConnector := mkC {
  input_mtu : Z; in_len : Z; in_ : list Z; output : option nat
}.

Inductive eff := SendOutput (out : nat) (d : list Z) | InputDone.

Definition PacketPassConnector_Init (mtu : Z) : option PacketPassConnector :=
  if mtu >=? 0 then Some (mkC mtu (-1) [] None) else None.

Definition PacketPassConnector_input_handler_send (data : list Z) (data_len : Z)
  : M PacketPassConnector eff unit :=
  o ← get;
  ASSERT (data_len >=? 0);;
  ASSERT (data_len <=? input_mtu o);;
  ASSERT (in_len o =? -1);;
  modify (λ o, mkC (input_mtu o) data_len data (output o));;
  o ← get;
  match output o with
  | Some out => emit (SendOutput out (slice 0 (in_len o) (in_ o)))
  | None => mret tt
  end.

Definition PacketPassConnector_output_handler_done : M PacketPassConnector eff unit :=
  o ← get;
  ASSERT (in_len o >=? 0);;
  ASSERT (bool_decide (is_Some (output o)));;
  modify (λ o, mkC (input_mtu o) (-1) (in_ o) (output o));;
  emit InputDone.

Definition PacketPassConnector_ConnectOutput (out : nat) (out_mtu : Z) : M PacketPassConnector eff unit :=
  o ← get;
  ASSERT (bool_decide (output o = None));;
  ASSERT (out_mtu >=? input_mtu o);;
  modify (λ o, mkC (input_mtu o) (in_len o) (in_ o) (Some out));;
  o ← get;
  when (in_len o >=? 0) (emit (SendOutput out (slice 0 (in_len o) (in_ o)))).

Definition PacketPassConnector_DisconnectOutput : M PacketPassConnector eff unit :=
  o ← get;
  ASSERT (bool_decide (is_Some (output o)));;
  modify (λ o, mkC (input_mtu o) (in_len o) (in_ o) None).

(** [given] are the packets handed in, [finished] counts the completed ones;
    [busy] is the packet the current output is sending. *)
Record world := mkW { con : PacketPassConnector; given : list (list Z); finished : nat; busy : option (nat * list Z) }.

Inductive ev := In (d : list Z) | OutDone | Connect (out : nat) (mtu : Z) | Disconnect.

Definition handler_of (e : ev) : M PacketPassConnector eff unit :=
  match e with
  | In d => PacketPassConnector_input_handler_send d (zlen d)
  | OutDone => PacketPassConnector_output_handler_done
  | Connect out mtu => PacketPassConnector_ConnectOutput out mtu
  | Disconnect => PacketPassConnector_DisconnectOutput
  end.

Definition call (w : world) (e : eff) : option world :=
  match e with
  | SendOutput out d =>
      match busy w with None => Some (mkW (con w) (given w) (finished w) (Some (out, d))) | Some _ => None end
  | InputDone => Some (mkW (con w) (given w) (S (finished w)) (busy w))
  end.

(** The events also change the outputs: a completed or disconnected output is
    not sending any more. *)
Definition wstep (w : world) (e : ev) : option world :=
  '(_, c, es) ← handler_of e (con w);
  foldl (λ r x, w ← r; call w x)
    (Some (mkW c (match e with In d => given w ++ [d] | _ => given w end) (finished w)
             (match e with OutDone | Disconnect => None | _ => busy w end))) es.

Definition allowed (w : world) (e : ev) : bool :=
  match e with
  | In d => (zlen d <=? input_mtu (con w)) && bool_decide (length (given w) = finished w)
  | OutDone => bool_decide (is_Some (busy w))
  | Connect _ mtu => bool_decide (output (con w) = None) && (input_mtu (con w) <=? mtu)
  | Disconnect => bool_decide (is_Some (output (con w)))
  end.

(** The oldest packet that is not finished. *)
Definition waiting (w : world) : option (list Z) := given w !! finished w.

Definition inv (w : world) : Prop :=
  (finished w <= length (given w) <= S (finished w))%nat ∧
  match waiting w with
  | None => in_len (con w) = -1 ∧ busy w = None
  | Some d => in_len (con w) = zlen d ∧ slice 0 (zlen d) (in_ (con w)) = d ∧
              busy w = match output (con w) with Some out => Some (out, d) | None => None end
  end.

Lemma connector_step w e :
  inv w → allowed w e = true →
  ∃ w', wstep w e = Some w' ∧ inv w' ∧ input_mtu (con w') = input_mtu (con w) ∧
        finished w' = (finished w + match e with OutDone => 1 | _ => 0 end)%nat ∧
        given w' = match e with In d => given w ++ [d] | _ => given w end.
Proof.
  intros [Hn HI] HA. unfold waiting in HI. destruct w as [c g n b]. cbn [con given finished busy] in *.
  destruct e as [d| |out mtu|]; cbn in HA.
  - zb. apply bool_decide_eq_true in H0. rewrite lookup_ge_None_2 in HI by lia. destruct HI as [Hl ->].
    unfold wstep. cbn [handler_of con]. unfold PacketPassConnector_input_handler_send. mrun. pose proof (zlen_nonneg d).
    zdec. cbn. zdec. cbn. zdec. cbn.
    destruct (output c) eqn:Ho; cbn; eexists; (split; [reflexivity|]); unfold inv, waiting; cbn;
      rewrite ?slice_all, ?Ho, length_app, <-H0, list_lookup_middle by done; cbn; split_and!; first [done|lia|apply slice_all].
  - apply bool_decide_eq_true in HA as [[out' d'] ->].
    destruct (g !! n) as [d|] eqn:Hg; [|by destruct HI]. destruct HI as (Hl & Hs & Hb).
    destruct (output c) eqn:Ho; [|done]. unfold wstep. cbn [handler_of con]. unfold PacketPassConnector_output_handler_done. mrun.
    pose proof (zlen_nonneg d). apply lookup_lt_Some in Hg. rewrite Hl, Ho. zdec. cbn.
    eexists. split; [reflexivity|]. unfold inv, waiting. cbn.
    rewrite lookup_ge_None_2 by lia. split_and!; try done; lia.
  - zb. apply bool_decide_eq_true in H. unfold wstep. cbn [handler_of con]. unfold PacketPassConnector_ConnectOutput. mrun.
    rewrite H in *. zdec. cbn. zdec. cbn. unfold inv, waiting.
    destruct (g !! n) as [d|] eqn:Hg.
    + destruct HI as (Hl & Hs & ->). pose proof (zlen_nonneg d). rewrite Hl. zdec. cbn.
      eexists. split; [reflexivity|]. cbn. rewrite Hg, Hs. split_and!; try done; lia.
    + destruct HI as (Hl & ->). rewrite Hl. cbn. eexists. split; [reflexivity|]. cbn. rewrite Hg.
      split_and!; try done; lia.
  - apply bool_decide_eq_true in HA as [out Ho]. unfold wstep. cbn [handler_of con]. unfold PacketPassConnector_DisconnectOutput. mrun.
    rewrite Ho. cbn. eexists. split; [reflexivity|]. unfold inv, waiting. cbn.
    destruct (g !! n) as [d|] eqn:Hg; [destruct HI as (? & ? & ?)|destruct HI]; split_and!; try done; lia.
Qed.

Fixpoint wrun (w : world) (es : list ev) : option world :=
  match es with [] => Some w | e :: es' => w ← wstep w e; wrun w es' end.

Fixpoint all_allowed (w : world) (es : list ev) : bool :=
  match es with
  | [] => true
  | e :: es' => allowed w e && match wstep w e with Some w' => all_allowed w' es' | None => true end
  end.

Lemma connector_run es : ∀ w, inv w → all_allowed w es = true → ∃ w', wrun w es = Some w' ∧ inv w'.
Proof.
  induction es as [|e es IH]; intros w HI; cbn [all_allowed wrun]; [eauto|].
  intros [HA Hr]%andb_true_iff. destruct (connector_step w e HI HA) as (w1 & E1 & HI1 & _).
  rewrite E1 in Hr |- *. by apply (IH w1).
Qed.

Definition winit (mtu : Z) : option world := c ← PacketPassConnector_Init mtu; Some (mkW c [] 0 None).

(** A connector keeps its packet across connections.  For every
    interleaving of packets, completions, connects and disconnects: no
    assertion fails and an output is never given a packet while it sends
    one; packets are finished one at a time in order, each by a completion of
    the output that is connected; and the packet that is not finished is
    being sent by the current output whenever there is one, so that a
    disconnect only makes the next output send it again. *)
Lemma connector_keeps_packet mtu w0 es :
  winit mtu = Some w0 → all_allowed w0 es = true →
  ∃ w, wrun w0 es = Some w ∧
       (finished w <= length (given w) <= S (finished w))%nat ∧
       busy w = match output (con w), given w !! finished w with
                | Some out, Some d => Some (out, d)
                | _, _ => None
                end.
Proof.
  unfold winit, PacketPassConnector_Init. case_if; [|done]. intros [= <-] HA.
  destruct (connector_run es (mkW (mkC mtu (-1) [] None) [] 0 None)) as (w & E & Hn & HI); [|done|].
  { unfold inv; cbn. split_and!; try done; lia. }
  exists w. split; [done|]. split; [done|]. unfold waiting in HI.
  destruct (given w !! finished w), (output (con w)); naive_solver.
Qed.

Lemma connector_keeps_packet_witness :
  ∃ w0, winit 4 = Some w0 ∧
  ∃ w, wrun w0 [In [1; 2]; Connect 0 4; Disconnect; Connect 1 4; OutDone; In [3]] = Some w ∧
       (finished w <= length (given w) <= S (finished w))%nat ∧
       busy w = match output (con w), given w !! finished w with
                | Some out, Some d => Some (out, d)
                | _, _ => None
                end.
Proof.
  eexists. split; [reflexivity|]. apply (connector_keeps_packet 4); [reflexivity|vm_compute; reflexivity].
Defined.

End PacketPassConnector.

(** ** PacketPassInactivityMonitor: a timer that runs while nothing is sent *)
Module InactivityMonitor.

(** [timer]: the timer is running; [handler]: the user set a handler. *)
Record PacketPassInactivityMonitor := mkI { timer : bool; handler : bool }.

(** [TimerNow]: the timer is set to expire at once. *)
Inductive eff := SendOutput (d : list Z) | RequestCancelOutput | InputDone | Handler | TimerNow.

Definition set_timer (b : bool) : M PacketPassInactivityMonitor eff unit :=
  modify (λ o, mkI b (handler o)).

Definition PacketPassInactivityMonitor_input_handler_send (d : list Z)
  : M PacketPassInactivityMonitor eff unit :=
  emit (SendOutput d);; set_timer false.

Definition PacketPassInactivityMonitor_input_handler_requestcancel
  : M PacketPassInactivityMonitor eff unit := emit RequestCancelOutput.

Definition PacketPassInactivityMonitor_output_handler_done : M PacketPassInactivityMonitor eff unit :=
  set_timer true;; emit InputDone.

Definition PacketPassInactivityMonitor_timer_handler : M PacketPassInactivityMonitor eff unit :=
  set_timer true;; o ← get; when (handler o) (emit Handler).

Definition PacketPassInactivityMonitor_Init (handler : bool) : PacketPassInactivityMonitor :=
  mkI true handler.

Definition PacketPassInactivityMonitor_SetHandler (h : bool) : M PacketPassInactivityMonitor eff unit :=
  modify (λ o, mkI (timer o) h).

Definition PacketPassInactivityMonitor_Force : M PacketPassInactivityMonitor eff unit :=
  set_timer true;; emit TimerNow.

Inductive ev := In (d : list Z) | Cancel | OutDone | Expire | SetHandler (h : bool).

Definition handler_of (e : ev) : M PacketPassInactivityMonitor eff unit :=
  match e with
  | In d => PacketPassInactivityMonitor_input_handler_send d
  | Cancel => PacketPassInactivityMonitor_input_handler_requestcancel
  | OutDone => PacketPassInactivityMonitor_output_handler_done
  | Expire => PacketPassInactivityMonitor_timer_handler
  | SetHandler h => PacketPassInactivityMonitor_SetHandler h
  end.

(** [sending]: the output is busy; [trace]: the calls made so far. *)
Record world := mkW { mon : PacketPassInactivityMonitor; sending : bool; trace : list eff }.

Definition wstep (w : world) (e : ev) : option world :=
  '(_, m, es) ← handler_of e (mon w);
  Some (mkW m (match e with In _ => true | OutDone => false | _ => sending w end) (trace w ++ es)).

(** What the neighbours may do; the timer expires only while it runs. *)
Definition possible (w : world) (e : ev) : bool :=
  match e with
  | In _ => negb (sending w)
  | Cancel | OutDone => sending w
  | Expire => timer (mon w)
  | SetHandler _ => true
  end.

Fixpoint wrun (w : world) (es : list ev) : option world :=
  match es with
  | [] => Some w
  | e :: es' => if possible w e then w ← wstep w e; wrun w es' else None
  end.

Lemma monitor_step w e :
  timer (mon w) = negb (sending w) → possible w e = true →
  ∃ w', wstep w e = Some w' ∧ timer (mon w') = negb (sending w').
Proof.
  destruct w as [[t h] s tr]; cbn. intros -> HP. destruct e; cbn in *;
    try destruct h; eexists; (split; [reflexivity|]); cbn; try done;
    by rewrite ?HP.
Qed.

End InactivityMonitor.
