(* ===== verification/Net.v ===== *)
(** * Byte order, checked sizes and addresses ([misc/byteorder.h],
      [misc/bsize.h], [misc/compare.h], [system/BAddr.h])

    Multi-byte fields of network packets are integers whose bytes in memory
    are in network order; on this little-endian target [hton16] and its kin
    reverse the bytes.  Addresses keep IP and port in network order, as the
    source does. *)

From S2P Require Import Prelude.

(** ** [misc/byteorder.h] *)

Definition badvpn_reverse16 (x : Z) : Z := of_le (rev (le_bytes 2 x)).
Definition badvpn_reverse32 (x : Z) : Z := of_le (rev (le_bytes 4 x)).
Definition hton16 (x : Z) : Z := badvpn_reverse16 x.
Definition hton32 (x : Z) : Z := badvpn_reverse32 x.
Definition ntoh16 (x : Z) : Z := hton16 x.
Definition ntoh32 (x : Z) : Z := hton32 x.

(** Bytes of an integer, most significant first. *)
Definition be_bytes (n : nat) (v : Z) : list Z := rev (le_bytes n v).
Definition of_be (l : list Z) : Z := of_le (rev l).

Lemma bytes_rev l : bytes l → bytes (rev l).
Proof. apply Forall_rev. Qed.

Lemma le_bytes_of_le_n n l : bytes l → length l = n → le_bytes n (of_le l) = l.
Proof. intros ? <-. by apply le_bytes_of_le. Qed.

Lemma zlen_be_bytes n v : zlen (be_bytes n v) = Z.of_nat n.
Proof. unfold be_bytes, zlen. by rewrite length_rev, length_le_bytes. Qed.
#[export] Hint Rewrite zlen_be_bytes : flow_len.

Lemma bytes_be_bytes n v : bytes (be_bytes n v).
Proof. apply bytes_rev, bytes_le_bytes. Qed.
#[export] Hint Resolve bytes_be_bytes : flow.

Lemma of_be_be_bytes n v : of_be (be_bytes n v) = v mod 256 ^ Z.of_nat n.
Proof. unfold of_be, be_bytes. by rewrite rev_involutive, of_le_le_bytes. Qed.

Lemma be_bytes_of_be n l : bytes l → length l = n → be_bytes n (of_be l) = l.
Proof.
  intros HB HL. unfold be_bytes, of_be.
  rewrite le_bytes_of_le_n; [apply rev_involutive|by apply bytes_rev|by rewrite length_rev].
Qed.

(** An integer converted by [hton] lies in memory in network order. *)
Lemma hton16_bytes x : le_bytes 2 (hton16 x) = be_bytes 2 x.
Proof. apply le_bytes_of_le_n; [apply bytes_be_bytes|done]. Qed.
Lemma hton32_bytes x : le_bytes 4 (hton32 x) = be_bytes 4 x.
Proof. apply le_bytes_of_le_n; [apply bytes_be_bytes|done]. Qed.

Lemma hton16_range x : is_u16 (hton16 x).
Proof.
  unfold is_u16, UINT16_MAX. pose proof (of_le_range (be_bytes 2 x) (bytes_be_bytes _ _)) as H.
  rewrite zlen_be_bytes in H. change (256 ^ Z.of_nat 2) with 65536 in H.
  unfold hton16, badvpn_reverse16, be_bytes in *. lia.
Qed.
Lemma hton32_range x : is_u32 (hton32 x).
Proof.
  unfold is_u32, UINT32_MAX. pose proof (of_le_range (be_bytes 4 x) (bytes_be_bytes _ _)) as H.
  rewrite zlen_be_bytes in H. change (256 ^ Z.of_nat 4) with 4294967296 in H.
  unfold hton32, badvpn_reverse32, be_bytes in *. lia.
Qed.

Lemma ntoh16_hton16 x : ntoh16 (hton16 x) = u16 x.
Proof.
  unfold ntoh16. unfold hton16 at 1, badvpn_reverse16. rewrite hton16_bytes.
  change (of_le (rev (be_bytes 2 x))) with (of_be (be_bytes 2 x)). by rewrite of_be_be_bytes.
Qed.
Lemma ntoh32_hton32 x : ntoh32 (hton32 x) = u32 x.
Proof.
  unfold ntoh32. unfold hton32 at 1, badvpn_reverse32. rewrite hton32_bytes.
  change (of_le (rev (be_bytes 4 x))) with (of_be (be_bytes 4 x)). by rewrite of_be_be_bytes.
Qed.

Lemma ntoh16_inj x y : is_u16 x → is_u16 y → ntoh16 x = ntoh16 y → x = y.
Proof.
  intros Hx Hy E. apply (f_equal ntoh16) in E. change (ntoh16 ?a) with (hton16 a) in E at 2 4.
  rewrite !ntoh16_hton16, !u16_small in E by done. done.
Qed.
Lemma u32_small x : is_u32 x → u32 x = x.
Proof. unfold is_u32, u32, UINT32_MAX. intros. apply Z.mod_small. lia. Qed.
Lemma ntoh32_inj x y : is_u32 x → is_u32 y → ntoh32 x = ntoh32 y → x = y.
Proof.
  intros Hx Hy E. apply (f_equal ntoh32) in E. change (ntoh32 ?a) with (hton32 a) in E at 2 4.
  rewrite !ntoh32_hton32, !u32_small in E by done. done.
Qed.

(** ** [misc/bsize.h]: sizes that remember an overflow *)

Record bsize_t := mkBsize { is_overflow : bool; value : Z }.

Definition bsize_fromsize (v : Z) : bsize_t := mkBsize false v.
Definition bsize_fromint (v : Z) : bsize_t := mkBsize ((v <? 0) || (v >? SIZE_MAX)) (u64 v).
Definition bsize_overflow : bsize_t := mkBsize true 0.
Definition bsize_tosize (s : bsize_t) : option Z := if is_overflow s then None else Some (value s).
Definition bsize_toint (s : bsize_t) : option Z :=
  if is_overflow s || (value s >? INT_MAX) then None else Some (value s).
Definition bsize_add (s1 s2 : bsize_t) : bsize_t :=
  mkBsize (is_overflow s1 || is_overflow s2 || (value s2 >? SIZE_MAX - value s1)) (u64 (value s1 + value s2)).
Definition bsize_max (s1 s2 : bsize_t) : bsize_t :=
  mkBsize (is_overflow s1 || is_overflow s2)
    ((if value s1 >? value s2 then 1 else 0) * value s1 + (if value s1 <=? value s2 then 1 else 0) * value s2).
Definition bsize_mul (s1 s2 : bsize_t) : bsize_t :=
  mkBsize (is_overflow s1 || is_overflow s2 || (negb (value s1 =? 0) && (value s2 >? SIZE_MAX / value s1)))
    (u64 (value s1 * value s2)).

(** [means s n]: the size stands for the mathematical number [n]. *)
Definition means (s : bsize_t) (n : Z) : Prop :=
  0 <= value s <= SIZE_MAX ∧ 0 <= n ∧ is_overflow s = (n >? SIZE_MAX) ∧ (n <= SIZE_MAX → value s = n).

Lemma u64_range x : 0 <= u64 x <= SIZE_MAX.
Proof. unfold u64, SIZE_MAX, UINT64_MAX. pose proof (Z.mod_pos_bound x 18446744073709551616). lia. Qed.
Lemma u64_small x : 0 <= x <= SIZE_MAX → u64 x = x.
Proof. unfold u64, SIZE_MAX, UINT64_MAX. intros. apply Z.mod_small. lia. Qed.

Lemma means_fromsize v : 0 <= v <= SIZE_MAX → means (bsize_fromsize v) v.
Proof. intros H. unfold means. cbn. zdec. split_and!; try lia; done. Qed.

Lemma means_overflow s n : means s n → is_overflow s = true ↔ SIZE_MAX < n.
Proof. intros (_ & _ & -> & _). rewrite Z.gtb_ltb. apply Z.ltb_lt. Qed.

Lemma means_intro s n :
  0 <= value s <= SIZE_MAX → 0 <= n → (is_overflow s = true ↔ SIZE_MAX < n) → (n <= SIZE_MAX → value s = n) →
  means s n.
Proof.
  intros H1 H2 H3 H4. split; [done|]. split; [done|]. split; [|done].
  rewrite Z.gtb_ltb. apply eq_true_iff_eq. by rewrite H3, Z.ltb_lt.
Qed.

(** The flag of a sum or product is set exactly if the true result does not
    fit, whatever the operands went through before. *)
Lemma means_add s1 s2 a b : means s1 a → means s2 b → means (bsize_add s1 s2) (a + b).
Proof.
  intros H1 H2. pose proof (means_overflow _ _ H1) as O1. pose proof (means_overflow _ _ H2) as O2.
  destruct H1 as (R1 & ? & _ & V1), H2 as (R2 & ? & _ & V2). apply means_intro; cbn.
  - apply u64_range.
  - lia.
  - rewrite !orb_true_iff, O1, O2, Z.gtb_lt. split; [lia|]. intros.
    destruct (decide (SIZE_MAX < a)); [lia|]. destruct (decide (SIZE_MAX < b)); lia.
  - intros. rewrite V1, V2 by lia. apply u64_small. lia.
Qed.

Lemma means_mul s1 s2 a b : means s1 a → means s2 b → 0 < a → 0 < b → means (bsize_mul s1 s2) (a * b).
Proof.
  intros H1 H2 Ha Hb. pose proof (means_overflow _ _ H1) as O1. pose proof (means_overflow _ _ H2) as O2.
  destruct H1 as (R1 & ? & _ & V1), H2 as (R2 & ? & _ & V2). apply means_intro; cbn.
  - apply u64_range.
  - lia.
  - rewrite !orb_true_iff, andb_true_iff, negb_true_iff, O1, O2, Z.eqb_neq, Z.gtb_lt.
    destruct (decide (SIZE_MAX < a)); [split; [nia|tauto]|].
    destruct (decide (SIZE_MAX < b)); [split; [nia|tauto]|].
    rewrite V1, V2 by lia. pose proof (Z.mul_div_le SIZE_MAX a ltac:(lia)).
    pose proof (Z.mul_succ_div_gt SIZE_MAX a ltac:(lia)). split; [nia|]. intros. right. split; [lia|nia].
  - intros. rewrite V1, V2 by nia. apply u64_small. nia.
Qed.

Lemma means_max s1 s2 a b : means s1 a → means s2 b → means (bsize_max s1 s2) (Z.max a b).
Proof.
  intros H1 H2. pose proof (means_overflow _ _ H1) as O1. pose proof (means_overflow _ _ H2) as O2.
  destruct H1 as (R1 & ? & _ & V1), H2 as (R2 & ? & _ & V2). apply means_intro; cbn.
  - repeat case_if; lia.
  - lia.
  - rewrite !orb_true_iff, O1, O2. lia.
  - intros. rewrite V1, V2 by lia. repeat case_if; lia.
Qed.

(** ** [system/BAddr.h] *)

(** IP and port are in network order. *)
Inductive BAddr :=
  | BAddr_MakeNone
  | BAddr_MakeIPv4 (ip port : Z)
  | BAddr_MakeIPv6 (ip : list Z) (port : Z).

#[export] Instance BAddr_eq_dec : EqDecision BAddr.
Proof. solve_decision. Defined.
#[export] Instance BAddr_countable : Countable BAddr.
Proof.
  refine (inj_countable'
    (λ a, match a with BAddr_MakeNone => inl tt | BAddr_MakeIPv4 i p => inr (inl (i, p)) | BAddr_MakeIPv6 i p => inr (inr (i, p)) end)
    (λ x, match x with inl _ => BAddr_MakeNone | inr (inl (i, p)) => BAddr_MakeIPv4 i p | inr (inr (i, p)) => BAddr_MakeIPv6 i p end) _).
  by intros [].
Defined.

Definition BADDR_TYPE_NONE : Z := 0.
Definition BADDR_TYPE_IPV4 : Z := 1.
Definition BADDR_TYPE_IPV6 : Z := 2.

Definition baddr_type (a : BAddr) : Z :=
  match a with
  | BAddr_MakeNone => BADDR_TYPE_NONE
  | BAddr_MakeIPv4 _ _ => BADDR_TYPE_IPV4
  | BAddr_MakeIPv6 _ _ => BADDR_TYPE_IPV6
  end.

(** The ranges the C types impose. *)
Definition baddr_ok (a : BAddr) : Prop :=
  match a with
  | BAddr_MakeNone => True
  | BAddr_MakeIPv4 ip port => is_u32 ip ∧ is_u16 port
  | BAddr_MakeIPv6 ip port => bytes ip ∧ length ip = 16%nat ∧ is_u16 port
  end.

Definition BAddr_IsInvalid (a : BAddr) : bool := baddr_type a =? BADDR_TYPE_NONE.

(** [memcmp]: the sign of the first difference. *)
Definition B_COMPARE (a b : Z) : Z := (if a >? b then 1 else 0) - (if a <? b then 1 else 0).

Fixpoint memcmp (l1 l2 : list Z) : Z :=
  match l1, l2 with
  | a :: l1', b :: l2' => if a =? b then memcmp l1' l2' else B_COMPARE a b
  | _, _ => 0
  end.

Definition BAddr_Compare (a1 a2 : BAddr) : bool :=
  if negb (baddr_type a1 =? baddr_type a2) then false
  else
    match a1, a2 with
    | BAddr_MakeIPv4 ip1 p1, BAddr_MakeIPv4 ip2 p2 => (ip1 =? ip2) && (p1 =? p2)
    | BAddr_MakeIPv6 ip1 p1, BAddr_MakeIPv6 ip2 p2 => (memcmp ip1 ip2 =? 0) && (p1 =? p2)
    | _, _ => false
    end.

Definition BAddr_CompareOrder (a1 a2 : BAddr) : Z :=
  let cmp := B_COMPARE (baddr_type a1) (baddr_type a2) in
  if negb (cmp =? 0) then cmp
  else
    match a1, a2 with
    | BAddr_MakeIPv4 ip1 p1, BAddr_MakeIPv4 ip2 p2 =>
        let cmp := B_COMPARE (ntoh32 ip1) (ntoh32 ip2) in
        if negb (cmp =? 0) then cmp else B_COMPARE (ntoh16 p1) (ntoh16 p2)
    | BAddr_MakeIPv6 ip1 p1, BAddr_MakeIPv6 ip2 p2 =>
        let cmp := memcmp ip1 ip2 in
        if negb (cmp =? 0) then B_COMPARE cmp 0 else B_COMPARE (ntoh16 p1) (ntoh16 p2)
    | _, _ => 0
    end.

(** The order is the lexicographic order of these lists. *)
Definition baddr_key (a : BAddr) : list Z :=
  match a with
  | BAddr_MakeNone => [BADDR_TYPE_NONE]
  | BAddr_MakeIPv4 ip port => [BADDR_TYPE_IPV4; ntoh32 ip; ntoh16 port]
  | BAddr_MakeIPv6 ip port => BADDR_TYPE_IPV6 :: ip ++ [ntoh16 port]
  end.

Lemma B_COMPARE_cases a b :
  (a < b ∧ B_COMPARE a b = -1) ∨ (a = b ∧ B_COMPARE a b = 0) ∨ (b < a ∧ B_COMPARE a b = 1).
Proof. unfold B_COMPARE. repeat case_if; lia. Qed.

Ltac bcmp a b := destruct (B_COMPARE_cases a b) as [[? ->]|[[? ->]|[? ->]]].

(** Keys are comparable when neither is a proper prefix of the other at a
    point where they agree; equal lengths suffice. *)
Lemma memcmp_swap l1 : ∀ l2, memcmp l1 l2 = - memcmp l2 l1.
Proof.
  induction l1 as [|a l1 IH]; intros [|b l2]; cbn; try done.
  rewrite (Z.eqb_sym b a). case_if; [apply IH|]. bcmp a b; bcmp b a; lia.
Qed.

Lemma memcmp_zero l1 : ∀ l2, length l1 = length l2 → memcmp l1 l2 = 0 → l1 = l2.
Proof.
  induction l1 as [|a l1 IH]; intros [|b l2]; cbn; intros HL; try done.
  case_if; [intros; subst; f_equal; apply IH; [lia|done]|]. bcmp a b; lia.
Qed.

Lemma memcmp_refl l : memcmp l l = 0.
Proof. induction l; cbn; [done|]. by rewrite Z.eqb_refl. Qed.

Lemma memcmp_sign l1 : ∀ l2, memcmp l1 l2 = -1 ∨ memcmp l1 l2 = 0 ∨ memcmp l1 l2 = 1.
Proof.
  induction l1 as [|a l1 IH]; intros [|b l2]; cbn; try tauto.
  case_if; [apply IH|]. bcmp a b; tauto.
Qed.

Lemma memcmp_trans l1 : ∀ l2 l3,
  length l1 = length l2 → length l2 = length l3 → memcmp l1 l2 < 0 → memcmp l2 l3 < 0 → memcmp l1 l3 < 0.
Proof.
  induction l1 as [|a l1 IH]; intros [|b l2] [|c l3]; cbn; intros HL1 HL2; try done.
  destruct (a =? b) eqn:E1, (b =? c) eqn:E2; zb; intros H1 H2.
  - subst. rewrite Z.eqb_refl. apply (IH l2 l3); (done || lia).
  - subst. rewrite (proj2 (Z.eqb_neq _ _)) by done. done.
  - subst. rewrite (proj2 (Z.eqb_neq _ _)) by done. done.
  - revert H1 H2. bcmp a b; bcmp b c; try lia. intros. rewrite (proj2 (Z.eqb_neq _ _)) by lia. bcmp a c; lia.
Qed.

Lemma memcmp_app l1 : ∀ l2 m1 m2, length l1 = length l2 →
  memcmp (l1 ++ m1) (l2 ++ m2) = if memcmp l1 l2 =? 0 then memcmp m1 m2 else memcmp l1 l2.
Proof.
  induction l1 as [|a l1 IH]; intros [|b l2] m1 m2; cbn; intros HL; try done.
  destruct (a =? b) eqn:E; [apply IH; lia|]. zb. bcmp a b; done || lia.
Qed.

Lemma baddr_key_length a1 a2 : baddr_ok a1 → baddr_ok a2 →
  baddr_type a1 = baddr_type a2 → length (baddr_key a1) = length (baddr_key a2).
Proof.
  destruct a1, a2; cbn; try done. intros (_ & H1 & _) (_ & H2 & _) _. rewrite !length_app. cbn. lia.
Qed.

Lemma compare_order_key a1 a2 : baddr_ok a1 → baddr_ok a2 →
  BAddr_CompareOrder a1 a2 = memcmp (baddr_key a1) (baddr_key a2).
Proof.
  intros H1 H2. unfold BAddr_CompareOrder. destruct a1 as [|ip1 p1|ip1 p1], a2 as [|ip2 p2|ip2 p2]; try done; cbn in *.
  - bcmp (ntoh32 ip1) (ntoh32 ip2); cbn; zdec; try done. bcmp (ntoh16 p1) (ntoh16 p2); by zdec.
  - change (negb (B_COMPARE BADDR_TYPE_IPV6 BADDR_TYPE_IPV6 =? 0)) with false. cbn.
    change (BADDR_TYPE_IPV6 =? BADDR_TYPE_IPV6) with true. cbn.
    destruct H1 as (_ & HL1 & _), H2 as (_ & HL2 & _). rewrite memcmp_app by lia. cbn.
    destruct (memcmp ip1 ip2 =? 0) eqn:E; cbn.
    + bcmp (ntoh16 p1) (ntoh16 p2); by zdec.
    + zb. by destruct (memcmp_sign ip1 ip2) as [E1 | [E1 | E1]]; rewrite E1.
Qed.

Lemma baddr_key_inj a1 a2 : baddr_ok a1 → baddr_ok a2 → baddr_key a1 = baddr_key a2 → a1 = a2.
Proof.
  intros H1 H2. destruct a1 as [|ip1 p1|ip1 p1], a2 as [|ip2 p2|ip2 p2]; try done; cbn in *.
  - intros [= E1 E2]. apply ntoh32_inj in E1; [|tauto..]. apply ntoh16_inj in E2; [|tauto..]. by subst.
  - intros [= E]. apply app_inj_tail in E as [-> E]. apply ntoh16_inj in E; [|tauto..]. by subst.
Qed.

(** Addresses of different types differ at the first element of the key. *)
Lemma key_type a1 a2 : baddr_type a1 < baddr_type a2 → memcmp (baddr_key a1) (baddr_key a2) = -1.
Proof. by destruct a1, a2; cbn; unfold BADDR_TYPE_NONE, BADDR_TYPE_IPV4, BADDR_TYPE_IPV6; intros; try lia. Qed.

Lemma key_less_type a1 a2 : memcmp (baddr_key a1) (baddr_key a2) < 0 → baddr_type a1 <= baddr_type a2.
Proof.
  intros H. destruct (decide (baddr_type a1 <= baddr_type a2)); [done|].
  rewrite memcmp_swap, key_type in H; lia.
Qed.

Lemma key_trans a1 a2 a3 : baddr_ok a1 → baddr_ok a2 → baddr_ok a3 →
  memcmp (baddr_key a1) (baddr_key a2) < 0 → memcmp (baddr_key a2) (baddr_key a3) < 0 →
  memcmp (baddr_key a1) (baddr_key a3) < 0.
Proof.
  intros O1 O2 O3 H12 H23. pose proof (key_less_type _ _ H12). pose proof (key_less_type _ _ H23).
  destruct (decide (baddr_type a1 < baddr_type a3)); [rewrite key_type; lia|].
  eapply (memcmp_trans _ (baddr_key a2)); [| |done|done]; apply baddr_key_length; try done; lia.
Qed.

Lemma key_zero a1 a2 : baddr_ok a1 → baddr_ok a2 →
  memcmp (baddr_key a1) (baddr_key a2) = 0 ↔ a1 = a2.
Proof.
  intros O1 O2. split; [|intros ->; apply memcmp_refl]. intros H. apply baddr_key_inj; [done|done|].
  apply memcmp_zero; [|done]. apply baddr_key_length; [done|done|].
  destruct (Z.lt_trichotomy (baddr_type a1) (baddr_type a2)) as [HT|[HT|HT]]; [|done|].
  - rewrite key_type in H; [lia|done].
  - rewrite memcmp_swap, key_type in H; [lia|done].
Qed.

(** [BAddr_CompareOrder], the order of the search trees of addresses, is
    a total order on addresses: it is antisymmetric and transitive, and two
    addresses compare equal exactly if they are the same address, which is
    also when [BAddr_Compare] says so for valid ones. *)
Lemma compare_order_total a1 a2 a3 :
  baddr_ok a1 → baddr_ok a2 → baddr_ok a3 →
  BAddr_CompareOrder a1 a2 = - BAddr_CompareOrder a2 a1 ∧
  (BAddr_CompareOrder a1 a2 = 0 ↔ a1 = a2) ∧
  (BAddr_CompareOrder a1 a2 < 0 → BAddr_CompareOrder a2 a3 < 0 → BAddr_CompareOrder a1 a3 < 0) ∧
  (BAddr_IsInvalid a1 = false → (BAddr_Compare a1 a2 = true ↔ a1 = a2)).
Proof.
  intros O1 O2 O3. rewrite !compare_order_key by done. split; [apply memcmp_swap|].
  split; [by apply key_zero|]. split; [by apply key_trans|]. clear -O1 O2.
  intros HV. unfold BAddr_Compare. destruct a1 as [|ip1 p1|ip1 p1], a2 as [|ip2 p2|ip2 p2]; try done;
    cbn [baddr_type baddr_ok] in *; rewrite ?Z.eqb_refl; cbn [negb].
  - rewrite andb_true_iff, !Z.eqb_eq. naive_solver.
  - rewrite andb_true_iff, !Z.eqb_eq. destruct O1 as (_ & L1 & _), O2 as (_ & L2 & _).
    split; [|intros [= -> ->]; by rewrite memcmp_refl]. intros [H ->]. apply memcmp_zero in H; [by subst|lia].
Qed.

Lemma compare_order_total_witness :
  BAddr_CompareOrder (BAddr_MakeIPv4 1 2) (BAddr_MakeIPv4 256 2) = - BAddr_CompareOrder (BAddr_MakeIPv4 256 2) (BAddr_MakeIPv4 1 2) ∧
  BAddr_Compare (BAddr_MakeIPv4 1 2) (BAddr_MakeIPv4 256 2) = false.
Proof.
  destruct (compare_order_total (BAddr_MakeIPv4 1 2) (BAddr_MakeIPv4 256 2) BAddr_MakeNone) as (H & _ & _ & H').
  - vm_compute. repeat split; discriminate.
  - vm_compute. repeat split; discriminate.
  - exact I.
  - split; [exact H|]. apply not_true_is_false. rewrite H' by reflexivity. discriminate.
Defined.
