(* ===== verification/BAvl.v ===== *)
(** * AVL tree ([structure/BAVL.h])

    The search tree of the badvpn library, at the level of its pointers: the
    nodes live in a memory, each with the pointers to its parent and children
    and its balance factor, and the operations follow and overwrite these
    pointers one by one.

    This file holds the nodes, the tree and the operations, as in the source;
    a [NULL] or dangling pointer that is followed, a failed assertion and a
    loop that takes more rounds than its fuel are all [None].  The memory of
    a tree and what the restructuring does to it is in [BAvlMemory], the
    order of the nodes, the operations and the main theorems in [BAvlOrder].
    The variant with counts ([BAVL_COUNT], defined nowhere in the repository)
    is not modelled. *)

From S2P Require Import Prelude Net.

(** ** What a tree needs of its comparator *)
Class Comparator {V : Type} (comparator : V → V → Z) := {
  cmp_range a b : comparator a b = -1 ∨ comparator a b = 0 ∨ comparator a b = 1;
  cmp_flip a b : comparator b a = - comparator a b;
  cmp_lt_trans a b c : comparator a b = -1 → comparator b c = -1 → comparator a c = -1;
  cmp_eq a b c : comparator a b = 0 → comparator a c = comparator b c
}.

#[global] Arguments cmp_range {V} comparator {_} _ _.
#[global] Arguments cmp_flip {V} comparator {_} _ _.
#[global] Arguments cmp_lt_trans {V} comparator {_} _ _ _ _ _.
#[global] Arguments cmp_eq {V} comparator {_} _ _ _ _.

Module BAVL.

(** A pointer to a node; [None] is [NULL]. *)
Abbreviation ptr := (option positive).

(** [int8_t], the type of balance factors. *)
Definition int8 (x : Z) : Z := (x + 128) mod 256 - 128.

Section BAVL.
Context {V : Type} (comparator : V → V → Z).

(** A node with the value that lies [offset] bytes behind it. *)
Record BAVLNode := mkNode {
  parent : ptr;
  link0 : ptr;
  link1 : ptr;
  balance : Z;
  value : V
}.

(** The root and the memory of the nodes, inserted or not. *)
Record BAVL := mkTree { mem : gmap positive BAVLNode; root : ptr }.

(** [link[side]], with side 1 as [true]. *)
Definition link (side : bool) (n : BAVLNode) : ptr := if side then link1 n else link0 n.
Definition set_parent (p : ptr) (n : BAVLNode) : BAVLNode :=
  mkNode p (link0 n) (link1 n) (balance n) (value n).
Definition set_link (side : bool) (p : ptr) (n : BAVLNode) : BAVLNode :=
  if side then mkNode (parent n) (link0 n) p (balance n) (value n)
  else mkNode (parent n) p (link1 n) (balance n) (value n).
Definition set_balance (b : Z) (n : BAVLNode) : BAVLNode :=
  mkNode (parent n) (link0 n) (link1 n) b (value n).

#[local] Abbreviation act := (M BAVL Empty_set).

(** Reads and writes through a pointer. *)
Definition load (p : ptr) : act BAVLNode := λ s,
  match p with
  | Some q => match mem s !! q with Some n => Some (n, s, []) | None => None end
  | None => None
  end.
Definition store (p : ptr) (f : BAVLNode → BAVLNode) : act unit := λ s,
  match p with
  | Some q =>
      match mem s !! q with
      | Some n => Some (tt, mkTree (<[q := f n]> (mem s)) (root s), [])
      | None => None
      end
  | None => None
  end.
Definition store_root (p : ptr) : act unit := modify (λ s, mkTree (mem s) p).
Definition out_of_fuel {A} : act A := λ _, None.

Definition nonnull (p : ptr) : bool := match p with Some _ => true | None => false end.

(** [if (top) top->link[x == top->link[1]] = y; else tree->root = y;] *)
Definition set_child (top x y : ptr) : act unit :=
  if nonnull top then
    n ← load top;
    store top (set_link (bool_decide (x = link true n)) y)
  else store_root y.

(** [if (p) p->parent = q;] *)
Definition set_parent_of (p q : ptr) : act unit :=
  when (nonnull p) (store p (set_parent q)).

(** ** Comparison *)
Definition BAVL_compare_values (v1 v2 : V) : act Z :=
  let res := comparator v1 v2 in
  ASSERT ((res =? -1) || (res =? 0) || (res =? 1));;
  mret res.

Definition BAVL_compare_nodes (n1 n2 : ptr) : act Z :=
  x1 ← load n1;
  x2 ← load n2;
  BAVL_compare_values (value x1) (value x2).

(** ** Restructuring *)
Definition BAVL_rotate (r : ptr) (dir : bool) : act unit :=
  n ← load r;
  let nr := link (negb dir) n in
  m ← load nr;
  store r (set_link (negb dir) (link dir m));;
  n ← load r;
  set_parent_of (link (negb dir) n) r;;
  store nr (set_link dir r);;
  n ← load r;
  store nr (set_parent (parent n));;
  m ← load nr;
  set_child (parent m) r nr;;
  store r (set_parent nr).

(** [while (n->link[side]) n = n->link[side];] *)
Fixpoint descend (fuel : nat) (side : bool) (n : ptr) : act ptr :=
  x ← load n;
  if nonnull (link side x) then
    match fuel with
    | O => out_of_fuel
    | S fuel => descend fuel side (link side x)
    end
  else mret n.

Definition BAVL_subtree_max (fuel : nat) (n : ptr) : act ptr :=
  ASSERT (nonnull n);;
  descend fuel true n.

Definition BAVL_replace_subtree (dest n : ptr) : act unit :=
  ASSERT (nonnull dest);;
  d ← load dest;
  set_child (parent d) dest n;;
  d ← load dest;
  set_parent_of n (parent d).

(** [n1->link[side] = p; if (n1->link[side]) n1->link[side]->parent = n1;] *)
Definition give_child (n1 : ptr) (side : bool) (p : ptr) : act unit :=
  store n1 (set_link side p);;
  set_parent_of p n1.

(** The branch for nodes that are directly connected, [n1] above [n2]. *)
Definition swap_connected (n1 n2 : ptr) : act unit :=
  x1 ← load n1;
  let side := bool_decide (n2 = link true x1) in
  let c := link (negb side) x1 in
  x2 ← load n2;
  give_child n1 false (link false x2);;
  x2 ← load n2;
  give_child n1 true (link true x2);;
  x1 ← load n1;
  store n2 (set_parent (parent x1));;
  set_child (parent x1) n1 n2;;
  store n2 (set_link side n1);;
  store n1 (set_parent n2);;
  give_child n2 (negb side) c.

Definition swap_apart (n1 n2 : ptr) : act unit :=
  x1 ← load n1;
  let temp := parent x1 in
  x2 ← load n2;
  store n1 (set_parent (parent x2));;
  set_child (parent x2) n2 n1;;
  store n2 (set_parent temp);;
  set_child temp n1 n2;;
  x1 ← load n1;
  let temp := link false x1 in
  x2 ← load n2;
  give_child n1 false (link false x2);;
  give_child n2 false temp;;
  x1 ← load n1;
  let temp := link true x1 in
  x2 ← load n2;
  give_child n1 true (link true x2);;
  give_child n2 true temp.

Definition BAVL_swap_nodes (n1 n2 : ptr) : act unit :=
  x2 ← load n2;
  x1 ← load n1;
  '(n1, n2) ←
    (if bool_decide (parent x2 = n1) || bool_decide (parent x1 = n2) then
       let '(n1, n2) := if bool_decide (parent x1 = n2) then (n2, n1) else (n1, n2) in
       swap_connected n1 n2;;
       mret (n1, n2)
     else
       swap_apart n1 n2;;
       mret (n1, n2));
  x1 ← load n1;
  let b := balance x1 in
  x2 ← load n2;
  store n1 (set_balance (balance x2));;
  store n2 (set_balance b).

Definition BAVL_MAX (a b : Z) : Z := if a >? b then a else b.
Definition BAVL_OPTNEG (a : Z) (neg : bool) : Z := if neg then - a else a.

Definition within (x : Z) : bool := (x >=? -1) && (x <=? 1).

(** The transformation of a node whose balance factor is wrong; returns the
    root of the transformed subtree and the new difference of heights. *)
Definition transform (node : ptr) (bside : bool) (delta : Z) : act (ptr * Z) :=
  let bsidef := if bside then 1 else -1 in
  n ← load node;
  ASSERT (nonnull (link bside n));;
  let child := link bside n in
  c ← load child;
  if balance c * bsidef =? 1 then
    BAVL_rotate node (negb bside);;
    store node (set_balance 0);;
    store child (set_balance 0);;
    mret (child, int8 (delta - 1))
  else if balance c * bsidef =? 0 then
    BAVL_rotate node (negb bside);;
    store node (set_balance (int8 (1 * bsidef)));;
    store child (set_balance (int8 (-1 * bsidef)));;
    mret (child, delta)
  else if balance c * bsidef =? -1 then
    ASSERT (nonnull (link (negb bside) c));;
    let gchild := link (negb bside) c in
    BAVL_rotate child bside;;
    BAVL_rotate node (negb bside);;
    g ← load gchild;
    store node (set_balance (int8 (- BAVL_MAX 0 (balance g * bsidef) * bsidef)));;
    g ← load gchild;
    store child (set_balance (int8 (BAVL_MAX 0 (- balance g * bsidef) * bsidef)));;
    store gchild (set_balance 0);;
    mret (gchild, int8 (delta - 1))
  else
    ASSERT false;;
    mret (node, delta).

(** One level: the new balance factor of a node and the transformation, if
    that is needed. *)
Definition adjust (node : ptr) (side : bool) (deltac : Z) : act (ptr * Z) :=
  n ← load node;
  let bal := BAVL_OPTNEG (balance n) side in
  let delta := int8 (BAVL_MAX deltac bal - BAVL_MAX 0 bal) in
  ASSERT (within delta);;
  store node (set_balance (int8 (balance n - BAVL_OPTNEG deltac side)));;
  n ← load node;
  if (balance n =? 2) || (balance n =? -2)
  then transform node (balance n =? 2) delta
  else mret (node, delta).

Fixpoint BAVL_rebalance (fuel : nat) (node : ptr) (side : bool) (deltac : Z) : act unit :=
  n ← load node;
  ASSERT (within deltac);;
  ASSERT (within (balance n));;
  if deltac =? 0 then mret tt
  else
    '(node, delta) ← adjust node side deltac;
    ASSERT (within delta);;
    n ← load node;
    if nonnull (parent n) then
      p ← load (parent n);
      match fuel with
      | O => out_of_fuel
      | S fuel =>
          BAVL_rebalance fuel (parent n) (bool_decide (node = link true p)) delta
      end
    else mret tt.

(** ** Operations *)
Definition BAVL_Init (nodes : gmap positive BAVLNode) : BAVL := mkTree nodes None.

(** The loop that finds the node to insert to: the node, and the side, or
    [None] if that node compares equal. *)
Fixpoint find_place (fuel : nat) (node c : ptr) : act (ptr * option bool) :=
  comp ← BAVL_compare_nodes node c;
  if comp =? 0 then mret (c, None)
  else
    let side := comp =? 1 in
    x ← load c;
    if nonnull (link side x) then
      match fuel with
      | O => out_of_fuel
      | S fuel => find_place fuel node (link side x)
      end
    else mret (c, Some side).

(** Whether the node was inserted, and [*ref]. *)
Definition BAVL_Insert (fuel : nat) (node : ptr) : act (bool * ptr) :=
  o ← get;
  if negb (nonnull (root o)) then
    store_root node;;
    store node (set_parent None);;
    store node (set_link false None);;
    store node (set_link true None);;
    store node (set_balance 0);;
    mret (true, None)
  else
    '(c, place) ← find_place fuel node (root o);
    match place with
    | None => mret (false, c)
    | Some side =>
        store c (set_link side node);;
        store node (set_parent c);;
        store node (set_link false None);;
        store node (set_link true None);;
        store node (set_balance 0);;
        BAVL_rebalance fuel c side 1;;
        mret (true, c)
    end.

(** The removal of a node with at most one child. *)
Definition unlink (fuel : nat) (node : ptr) : act unit :=
  n ← load node;
  ASSERT (negb (nonnull (link false n) && nonnull (link true n)));;
  let child := if nonnull (link false n) then link false n else link true n in
  if nonnull (parent n) then
    p ← load (parent n);
    let side := bool_decide (node = link true p) in
    BAVL_replace_subtree node child;;
    BAVL_rebalance fuel (parent n) side (-1)
  else BAVL_replace_subtree node child.

Definition BAVL_Remove (fuel : nat) (node : ptr) : act unit :=
  n ← load node;
  when (nonnull (link false n) && nonnull (link true n))
    (max ← BAVL_subtree_max fuel (link false n);
     BAVL_swap_nodes node max);;
  unlink fuel node.

Definition BAVL_IsEmpty : act bool :=
  o ← get;
  mret (negb (nonnull (root o))).

Fixpoint lookup_from (fuel : nat) (val : V) (c : ptr) : act ptr :=
  x ← load c;
  comp ← BAVL_compare_values val (value x);
  if comp =? 0 then mret c
  else
    let side := comp =? 1 in
    if nonnull (link side x) then
      match fuel with
      | O => out_of_fuel
      | S fuel => lookup_from fuel val (link side x)
      end
    else mret c.

Definition BAVL_Lookup (fuel : nat) (val : V) : act ptr :=
  o ← get;
  if negb (nonnull (root o)) then mret None else lookup_from fuel val (root o).

Fixpoint lookup_exact_from (fuel : nat) (val : V) (c : ptr) : act ptr :=
  x ← load c;
  comp ← BAVL_compare_values val (value x);
  if comp =? 0 then mret c
  else
    let side := comp =? 1 in
    if nonnull (link side x) then
      match fuel with
      | O => out_of_fuel
      | S fuel => lookup_exact_from fuel val (link side x)
      end
    else mret None.

Definition BAVL_LookupExact (fuel : nat) (val : V) : act ptr :=
  o ← get;
  if negb (nonnull (root o)) then mret None else lookup_exact_from fuel val (root o).

Definition BAVL_GetFirst (fuel : nat) : act ptr :=
  o ← get;
  if negb (nonnull (root o)) then mret None else descend fuel false (root o).

Definition BAVL_GetLast (fuel : nat) : act ptr :=
  o ← get;
  if negb (nonnull (root o)) then mret None else descend fuel true (root o).

(** [while (n->parent && n == n->parent->link[side]) n = n->parent;
     n = n->parent;] *)
Fixpoint climb (fuel : nat) (side : bool) (n : ptr) : act ptr :=
  x ← load n;
  if nonnull (parent x) then
    p ← load (parent x);
    if bool_decide (n = link side p) then
      match fuel with
      | O => out_of_fuel
      | S fuel => climb fuel side (parent x)
      end
    else mret (parent x)
  else mret (parent x).

Definition BAVL_GetNext (fuel : nat) (n : ptr) : act ptr :=
  x ← load n;
  if nonnull (link true x) then descend fuel false (link true x)
  else climb fuel true n.

Definition BAVL_GetPrev (fuel : nat) (n : ptr) : act ptr :=
  x ← load n;
  if nonnull (link false x) then descend fuel true (link false x)
  else climb fuel false n.

(** ** Self-check *)
Fixpoint BAVL_assert_recurser (fuel : nat) (n : ptr) : act Z :=
  x ← load n;
  ASSERT (balance x >=? -1);;
  ASSERT (balance x <=? 1);;
  height_left ←
    (if nonnull (link false x) then
       c ← load (link false x);
       ASSERT (bool_decide (parent c = n));;
       comp ← BAVL_compare_nodes (link false x) n;
       ASSERT (comp =? -1);;
       match fuel with
       | O => out_of_fuel
       | S fuel => BAVL_assert_recurser fuel (link false x)
       end
     else mret 0);
  height_right ←
    (if nonnull (link true x) then
       c ← load (link true x);
       ASSERT (bool_decide (parent c = n));;
       comp ← BAVL_compare_nodes (link true x) n;
       ASSERT (comp =? 1);;
       match fuel with
       | O => out_of_fuel
       | S fuel => BAVL_assert_recurser fuel (link true x)
       end
     else mret 0);
  ASSERT (balance x =? height_right - height_left);;
  mret (BAVL_MAX height_left height_right + 1).

Definition BAVL_Verify (fuel : nat) : act unit :=
  o ← get;
  when (nonnull (root o))
    (r ← load (root o);
     ASSERT (negb (nonnull (parent r)));;
     BAVL_assert_recurser fuel (root o);;
     mret tt).

End BAVL.
End BAVL.
