(* ===== verification/BAvlMemory.v ===== *)
(** * AVL tree: the memory of a tree

    Trees, contexts (the way from a node up to the root) and the cells of
    memory they occupy; rules for executing the operations step by step; what
    rotation and rebalancing do to a tree in its context. *)

From S2P Require Import Prelude BAvl.
Import BAVL.

Module AvlMemory.

Section Memory.
Context {V : Type}.
#[local] Abbreviation act := (M (@BAVL V) Empty_set).
#[local] Abbreviation cell := (positive * @BAVLNode V)%type.
Implicit Types (s : @BAVL V) (v : V).

(** ** Memory

    [own m L]: the memory consists of the cells [L], in any order. *)
Definition own (m : gmap positive BAVLNode) (L : list cell) : Prop :=
  NoDup L.*1 ∧ list_to_map L = m.

#[global] Instance own_perm m : Proper ((≡ₚ) ==> iff) (own m).
Proof.
  assert (∀ L1 L2, L1 ≡ₚ L2 → own m L1 → own m L2) as H.
  { intros L1 L2 HL [Hn <-]. split; [by rewrite <-HL|].
    symmetry. by apply list_to_map_proper. }
  intros L1 L2 HL. split; apply H; done.
Qed.

(** [Focus q n L L']: the cell of [q] is one of [L], the others are [L']. *)
Class Focus (q : positive) (n : BAVLNode) (L L' : list cell) := focus_perm : L ≡ₚ (q, n) :: L'.

#[global] Instance focus_here q n L : Focus q n ((q, n) :: L) L.
Proof. by unfold Focus. Qed.
#[global] Instance focus_cons q n x L L' : Focus q n L L' → Focus q n (x :: L) (x :: L').
Proof. unfold Focus. intros ->. by constructor. Qed.
#[global] Instance focus_app_r q n L1 L2 L2' : Focus q n L2 L2' → Focus q n (L1 ++ L2) (L1 ++ L2') | 10.
Proof. unfold Focus. intros ->. by rewrite Permutation_middle. Qed.
#[global] Instance focus_app_l q n L1 L2 L1' : Focus q n L1 L1' → Focus q n (L1 ++ L2) (L1' ++ L2) | 5.
Proof. unfold Focus. by intros ->. Qed.

Lemma own_lookup m L L' q n : own m L → Focus q n L L' → m !! q = Some n.
Proof.
  intros Ho HF. red in HF. rewrite HF in Ho. destruct Ho as [_ <-]. cbn. apply lookup_insert_eq.
Qed.

Lemma own_update m L L' q n n' : own m L → Focus q n L L' → own (<[q := n']> m) ((q, n') :: L').
Proof.
  intros Ho HF. red in HF. rewrite HF in Ho. destruct Ho as [Hn <-].
  split; [done|]. cbn. by rewrite insert_insert_eq.
Qed.

Lemma own_ne m L L1 L2 p q x y : own m L → Focus p x L L1 → Focus q y L1 L2 → p ≠ q.
Proof.
  intros Ho HF1 HF2. red in HF1, HF2. rewrite HF1, HF2 in Ho. destruct Ho as [Hn _].
  cbn in Hn. apply NoDup_cons in Hn as [Hn _]. set_solver.
Qed.

Lemma own_length m L : own m L → length L = size m.
Proof.
  intros [Hn <-]. rewrite map_size_list_to_map; done.
Qed.

(** ** Symbolic execution *)
Definition wp {A} (m : act A) (s : BAVL) (Q : A → BAVL → Prop) : Prop :=
  runs m s (λ a s' _, Q a s').

Lemma wp_bind {A B} (m : act A) (k : A → act B) s Q :
  wp m s (λ a s', wp (k a) s' Q) → wp (m ≫= k) s Q.
Proof. intros H. apply runs_bind. eapply runs_mono; [exact H|]. auto. Qed.

Lemma wp_ret {A} (a : A) s (Q : A → BAVL → Prop) : Q a s → wp (mret a) s Q.
Proof. done. Qed.

Lemma wp_mono {A} (m : act A) s (Q Q' : A → BAVL → Prop) :
  wp m s Q → (∀ a s', Q a s' → Q' a s') → wp m s Q'.
Proof. intros H HQ. eapply runs_mono; [exact H|]. auto. Qed.

Lemma wp_ASSERT b s (Q : unit → BAVL → Prop) : b = true → Q tt s → wp (ASSERT b) s Q.
Proof. by intros ->. Qed.

Lemma wp_get s (Q : BAVL → BAVL → Prop) : Q s s → wp get s Q.
Proof. done. Qed.

Lemma wp_store_root p s L (Q : unit → BAVL → Prop) :
  own (mem s) L → (∀ s', own (mem s') L → root s' = p → Q tt s') → wp (store_root p) s Q.
Proof. intros Ho HQ. by apply HQ. Qed.

Lemma wp_load q s L L' n (Q : BAVLNode → BAVL → Prop) :
  own (mem s) L → Focus q n L L' → Q n s → wp (load (Some q)) s Q.
Proof.
  intros Ho HF HQ. unfold wp, runs, load. by rewrite (own_lookup _ _ _ _ _ Ho HF).
Qed.

Lemma wp_store q f s L L' n (Q : unit → BAVL → Prop) :
  own (mem s) L → Focus q n L L' →
  (∀ s', own (mem s') ((q, f n) :: L') → root s' = root s → Q tt s') →
  wp (store (Some q) f) s Q.
Proof.
  intros Ho HF HQ. unfold wp, runs, store. rewrite (own_lookup _ _ _ _ _ Ho HF).
  apply HQ; [|done]. cbn. by eapply own_update.
Qed.

(** ** Trees and contexts *)
Inductive tree := E | T (l : tree) (p : positive) (b : Z) (v : V) (r : tree).

(** The way from a subtree up to the root: a step leads from the child on
    [side] of [p] to [p], whose other child is [other]. *)
Inductive frame := Fr (side : bool) (p : positive) (b : Z) (v : V) (other : tree).

Definition plug_frame (f : frame) (t : tree) : tree :=
  match f with
  | Fr false p b v o => T t p b v o
  | Fr true p b v o => T o p b v t
  end.
Fixpoint plug (K : list frame) (t : tree) : tree :=
  match K with [] => t | f :: K => plug K (plug_frame f t) end.

Definition rootp (t : tree) : ptr := match t with E => None | T _ p _ _ _ => Some p end.
Definition above (par : ptr) (K : list frame) : ptr :=
  match K with [] => par | Fr _ p _ _ _ :: _ => Some p end.
Fixpoint top (K : list frame) (h : ptr) : ptr :=
  match K with [] => h | Fr _ p _ _ _ :: K => top K (Some p) end.

(** The cells of a tree below [par], and of a context around [h]. *)
Fixpoint cells (par : ptr) (t : tree) : list cell :=
  match t with
  | E => []
  | T l p b v r =>
      (p, mkNode par (rootp l) (rootp r) b v) :: cells (Some p) l ++ cells (Some p) r
  end.
Definition fcell (par : ptr) (side : bool) (h : ptr) (b : Z) (v : V) (o : tree) : BAVLNode :=
  mkNode par (if side then rootp o else h) (if side then h else rootp o) b v.
Fixpoint kcells (par : ptr) (K : list frame) (h : ptr) : list cell :=
  match K with
  | [] => []
  | Fr d p b v o :: K =>
      (p, fcell (above par K) d h b v o) :: cells (Some p) o ++ kcells par K (Some p)
  end.

Lemma rootp_plug K t : rootp (plug K t) = top K (rootp t).
Proof.
  revert t. induction K as [|[d p b v o] K IH]; intros t; cbn; [done|].
  rewrite IH. by destruct d.
Qed.

Lemma plug_app K1 K2 t : plug (K1 ++ K2) t = plug K2 (plug K1 t).
Proof. revert t. induction K1 as [|f K1 IH]; intros t; cbn; [done|]. apply IH. Qed.

Lemma top_app K1 K2 h : top (K1 ++ K2) h = top K2 (top K1 h).
Proof. revert h. induction K1 as [|[d p b v o] K1 IH]; intros h; cbn; [done|]. apply IH. Qed.

Lemma above_app par K1 K2 : above par (K1 ++ K2) = above (above par K2) K1.
Proof. by destruct K1 as [|[]]. Qed.

Lemma cells_plug par K t :
  cells par (plug K t) ≡ₚ cells (above par K) t ++ kcells par K (rootp t).
Proof.
  revert t. induction K as [|[d p b v o] K IH]; intros t; cbn; [by rewrite app_nil_r|].
  rewrite IH. destruct d; cbn; solve_Permutation.
Qed.

Lemma kcells_app par K1 K2 h :
  kcells par (K1 ++ K2) h ≡ₚ kcells (above par K2) K1 h ++ kcells par K2 (top K1 h).
Proof.
  revert h. induction K1 as [|[d p b v o] K1 IH]; intros h; cbn; [done|].
  rewrite IH, above_app. by rewrite app_assoc.
Qed.

(** [at_ s K t R]: the memory holds the tree [t] inside the context [K], and
    the other cells [R]. *)
Definition at_ (s : BAVL) (K : list frame) (t : tree) (R : list cell) : Prop :=
  own (mem s) (cells (above None K) t ++ kcells None K (rootp t) ++ R) ∧
  root s = top K (rootp t).

Lemma at_plug s K t R : at_ s K t R ↔ at_ s [] (plug K t) R.
Proof.
  unfold at_. cbn. rewrite cells_plug, rootp_plug. by rewrite app_assoc.
Qed.

Lemma at_frame s f K t R : at_ s (f :: K) t R ↔ at_ s K (plug_frame f t) R.
Proof. rewrite at_plug. cbn. by rewrite <-at_plug. Qed.

(** ** The steps of the restructuring *)

(** [Block X L L']: the cells [X] are among [L], the others are [L']. *)
Class Block (X L L' : list cell) := block_perm : L ≡ₚ X ++ L'.

#[global] Instance block_end X : Block X X [].
Proof. unfold Block. by rewrite app_nil_r. Qed.
#[global] Instance block_here X L : Block X (X ++ L) L.
Proof. by unfold Block. Qed.
#[global] Instance block_cons X x L L' : Block X L L' → Block X (x :: L) (x :: L').
Proof. unfold Block. intros ->. solve_Permutation. Qed.
#[global] Instance block_app_r X L1 L2 L2' : Block X L2 L2' → Block X (L1 ++ L2) (L1 ++ L2') | 10.
Proof. unfold Block. intros ->. solve_Permutation. Qed.
#[global] Instance block_app_l X L1 L2 L1' : Block X L1 L1' → Block X (L1 ++ L2) (L1' ++ L2) | 5.
Proof. unfold Block. intros ->. solve_Permutation. Qed.

Lemma own_block m X L L' : own m L → Block X L L' → own m (X ++ L').
Proof. intros H HB. red in HB. by rewrite <-HB. Qed.

End Memory.

Arguments tree : clear implicits.
Arguments frame : clear implicits.

(** Executes one step; the facts about the memory and the root are replaced
    by those about the new state. *)
Ltac norm H := unfold set_parent, set_balance in H; cbn [set_link set_parent set_balance parent link link0 link1 balance value
  negb nonnull app fcell cells kcells above top rootp] in H.
Ltac fresh_state H Hr :=
  clear H; let s' := fresh "s" in let E' := fresh "E" in
  intros s' H E'; rewrite Hr in E'; clear Hr; rename E' into Hr; norm H.
Ltac wstep :=
  match goal with
  | |- wp (_ ≫= _) _ _ => apply wp_bind
  | |- wp (mret _) _ _ => apply wp_ret
  | |- wp get _ _ => apply wp_get
  | |- wp (ASSERT _) _ _ => apply wp_ASSERT; [try done|]
  | H : own (mem ?s) _ |- wp (load (Some _)) ?s _ => eapply wp_load; [exact H|apply _|]
  | H : own (mem ?s) _, Hr : root ?s = _ |- wp (store (Some _) _) ?s _ =>
      eapply wp_store; [exact H|apply _|fresh_state H Hr]
  end; cbn [set_link set_parent set_balance parent link link0 link1 balance value negb nonnull].

Section Steps.
Context {V : Type}.
#[local] Abbreviation act := (M (@BAVL V) Empty_set).
#[local] Abbreviation cell := (positive * @BAVLNode V)%type.
Implicit Types (s : @BAVL V) (v : V) (L R : list cell) (K : list (frame V)) (t o : tree V).

Lemma wp_set_child_frame par d x y b v o p s L L' (Q : unit → BAVL → Prop) :
  own (mem s) L → Focus p (fcell par d (Some x) b v o) L L' → rootp o ≠ Some x →
  (∀ s', own (mem s') ((p, fcell par d y b v o) :: L') → root s' = root s → Q tt s') →
  wp (set_child (Some p) (Some x) y) s Q.
Proof.
  intros Ho HF Hne HQ. unfold set_child. cbn [nonnull].
  apply wp_bind. eapply wp_load; [exact Ho|exact HF|].
  eapply wp_store; [exact Ho|exact HF|]. intros s' Ho' Hr'. apply HQ; [|done].
  destruct d; cbn in Ho' |- *.
  - by rewrite bool_decide_eq_true_2 in Ho'.
  - by rewrite bool_decide_eq_false_2 in Ho'.
Qed.

Lemma own_other_ne m L L1 L2 par o x n :
  own m L → Block (cells par o) L L1 → Focus x n L1 L2 → rootp o ≠ Some x.
Proof.
  intros Ho HB HF. red in HB, HF. rewrite HB, HF in Ho. destruct o as [|l p b v r]; cbn; [done|].
  intros [= ->]. cbn in Ho. assert (x ≠ x); [|done].
  eapply own_ne; [exact Ho|apply _|apply _].
Qed.

Lemma wp_set_child K x y s L L' L'' n (Q : unit → BAVL → Prop) :
  own (mem s) L → root s = top K (Some x) →
  Block (kcells None K (Some x)) L L' → Focus x n L' L'' →
  (∀ s', own (mem s') (kcells None K y ++ L') → root s' = top K y → Q tt s') →
  wp (set_child (above None K) (Some x) y) s Q.
Proof.
  intros Ho Hr HB HF HQ. apply (own_block _ _ _ _ Ho) in HB as Ho'.
  destruct K as [|[d p b v o] K]; cbn in *.
  - apply HQ; done.
  - eapply wp_set_child_frame; [exact Ho'|apply _| |].
    { rewrite <-app_assoc in Ho'. eapply own_other_ne; [exact Ho'|apply block_cons, block_here|].
      apply focus_cons. apply focus_app_r. exact HF. }
    intros s' Hs' Hr'. apply HQ; [done|]. by rewrite Hr'.
Qed.

Lemma wp_set_parent_of par par' t s L L' (Q : unit → BAVL → Prop) :
  own (mem s) L → Block (cells par t) L L' →
  (∀ s', own (mem s') (cells par' t ++ L') → root s' = root s → Q tt s') →
  wp (set_parent_of (rootp t) par') s Q.
Proof.
  intros Ho HB HQ. apply (own_block _ _ _ _ Ho) in HB as Ho'. unfold set_parent_of.
  destruct t as [|l p b v r]; cbn in *.
  - apply wp_ret. by apply HQ.
  - eapply wp_store; [exact Ho'|apply _|]. intros s' Hs' Hr'. by apply HQ.
Qed.

Lemma wp_give_child n x side par t s L L' L'' (Q : unit → BAVL → Prop) :
  own (mem s) L → Focus n x L L' → Block (cells par t) L' L'' →
  (∀ s', own (mem s') ((n, set_link side (rootp t) x) :: cells (Some n) t ++ L'') →
     root s' = root s → Q tt s') →
  wp (give_child (Some n) side (rootp t)) s Q.
Proof.
  intros Ho HF HB HQ. unfold give_child. apply wp_bind.
  eapply wp_store; [exact Ho|exact HF|]. intros s1 Ho1 Hr1.
  eapply wp_set_parent_of; [exact Ho1|apply block_cons, HB|].
  intros s2 Ho2 Hr2. apply HQ; [|by rewrite Hr2].
  eapply own_perm; [|exact Ho2]. solve_Permutation.
Qed.

Lemma wp_give_none n x side s L L' (Q : unit → BAVL → Prop) :
  own (mem s) L → Focus n x L L' →
  (∀ s', own (mem s') ((n, set_link side None x) :: L') → root s' = root s → Q tt s') →
  wp (give_child (Some n) side None) s Q.
Proof. intros Ho HF. apply (wp_give_child _ _ _ None E _ _ _ _ _ Ho HF). by unfold Block. Qed.

End Steps.

Ltac wcall :=
  match goal with
  | H : own (mem ?s) _, Hr : root ?s = _ |- wp (set_parent_of (rootp _) _) ?s _ =>
      eapply wp_set_parent_of; [exact H|apply _|fresh_state H Hr]
  | H : own (mem ?s) _, Hr : root ?s = _ |- wp (give_child (Some _) _ None) ?s _ =>
      eapply wp_give_none; [exact H|apply _|fresh_state H Hr]
  | H : own (mem ?s) _, Hr : root ?s = _ |- wp (give_child (Some _) _ (rootp _)) ?s _ =>
      eapply wp_give_child; [exact H|apply _|apply _|fresh_state H Hr]
  | H : own (mem ?s) _, Hr : root ?s = _ |- wp (set_child (above None _) (Some _) _) ?s _ =>
      eapply wp_set_child; [exact H|exact Hr|apply _|apply _|
        clear H Hr; let s' := fresh "s" in intros s' H Hr; norm H; norm Hr]
  end.
Ltac wexec := repeat first [wstep|wcall].

(** Closes a goal about the memory by rearranging what is known of it. *)
Ltac rearrange :=
  match goal with
  | H : own (mem ?s) _ |- own (mem ?s) _ =>
      eapply own_perm; [|exact H]; cbn [cells kcells rootp above app fcell]; solve_Permutation
  end.

Section Restructuring.
Context {V : Type}.
#[local] Abbreviation act := (M (@BAVL V) Empty_set).
#[local] Abbreviation cell := (positive * @BAVLNode V)%type.
Implicit Types (s : @BAVL V) (v : V) (L R : list cell) (K : list (frame V)) (t o : tree V).

(** The fields of a node that is put below [c]. *)
Lemma wp_leaf {A} p c x s L L' (k : act A) (Q : A → BAVL → Prop) :
  own (mem s) L → Focus p x L L' →
  (∀ s', own (mem s') ((p, mkNode c None None 0 (value x)) :: L') → root s' = root s → wp k s' Q) →
  wp (store (Some p) (set_parent c);; store (Some p) (set_link false None);;
      store (Some p) (set_link true None);; store (Some p) (set_balance 0);; k) s Q.
Proof.
  intros Ho HF HQ.
  red in HF. rewrite HF in Ho. destruct (root s) eqn:Hr.
  all: do 8 wstep; by apply HQ.
Qed.

(** A tree whose child on [side] is [x]. *)
Definition bin (side : bool) (x : tree V) (p : positive) (b : Z) (v : V) (y : tree V) : tree V :=
  if side then T y p b v x else T x p b v y.

Lemma rotate_ok dir K a r b v c nr b' v' e s R (Q : unit → BAVL → Prop) :
  at_ s K (bin dir a r b v (bin dir c nr b' v' e)) R →
  (∀ s', at_ s' K (bin dir (bin dir a r b v c) nr b' v' e) R → Q tt s') →
  wp (BAVL_rotate (Some r) dir) s Q.
Proof.
  intros [Ho Hr] HQ. unfold BAVL_rotate.
  destruct dir; cbn in Ho, Hr, HQ |- *; wexec; (apply HQ; split; [rearrange|done]).
Qed.

(** ** Balance *)
Fixpoint height (t : tree V) : Z :=
  match t with E => 0 | T l _ _ _ r => 1 + Z.max (height l) (height r) end.

(** The balance factors are the differences of heights, which are at most 1. *)
Fixpoint avl (t : tree V) : Prop :=
  match t with
  | E => True
  | T l _ b _ r => avl l ∧ avl r ∧ b = height r - height l ∧ -1 <= b <= 1
  end.

(** The same for a context around a tree of height [h]. *)
Fixpoint kavl (K : list (frame V)) (h : Z) : Prop :=
  match K with
  | [] => True
  | Fr d _ b _ o :: K =>
      avl o ∧ b = BAVL_OPTNEG (height o - h) d ∧ -1 <= b <= 1 ∧ kavl K (1 + Z.max h (height o))
  end.

(** The nodes with their values, in order: of a tree, and of a context
    before and behind the hole. *)
Fixpoint elements (t : tree V) : list (positive * V) :=
  match t with E => [] | T l p _ v r => elements l ++ (p, v) :: elements r end.
Fixpoint before (K : list (frame V)) : list (positive * V) :=
  match K with
  | [] => []
  | Fr true p _ v o :: K => before K ++ elements o ++ [(p, v)]
  | Fr false _ _ _ _ :: K => before K
  end.
Fixpoint behind (K : list (frame V)) : list (positive * V) :=
  match K with
  | [] => []
  | Fr true _ _ _ _ :: K => behind K
  | Fr false p _ v o :: K => (p, v) :: elements o ++ behind K
  end.

Lemma height_nonneg t : 0 <= height t.
Proof. induction t; cbn; lia. Qed.

Lemma height_0 t : height t <= 0 → t = E.
Proof. destruct t as [|l p b v r]; [done|]. cbn. pose proof (height_nonneg l). lia. Qed.

Lemma avl_plug K t : avl (plug K t) ↔ avl t ∧ kavl K (height t).
Proof.
  revert t. induction K as [|[d p b v o] K IH]; intros t; cbn; [naive_solver|].
  rewrite IH. destruct d; cbn; [rewrite (Z.max_comm (height o))|]; intuition lia.
Qed.

Lemma before_app K1 K2 : before (K1 ++ K2) = before K2 ++ before K1.
Proof.
  induction K1 as [|[d p b v o] K1 IH]; cbn; [by rewrite app_nil_r|].
  destruct d; rewrite IH; [by rewrite <-app_assoc|done].
Qed.

Lemma behind_app K1 K2 : behind (K1 ++ K2) = behind K1 ++ behind K2.
Proof.
  induction K1 as [|[d p b v o] K1 IH]; cbn; [done|].
  destruct d; rewrite IH; [done|]. cbn. by rewrite <-app_assoc.
Qed.

Lemma elements_plug K t : elements (plug K t) = before K ++ elements t ++ behind K.
Proof.
  revert t. induction K as [|[d p b v o] K IH]; intros t; cbn; [by rewrite app_nil_r|].
  rewrite IH. destruct d; cbn; by rewrite <-!app_assoc.
Qed.

Lemma int8_small x : -128 <= x <= 127 → int8 x = x.
Proof. intros H. unfold int8. rewrite Z.mod_small; lia. Qed.

Lemma BAVL_MAX_max a b : BAVL_MAX a b = Z.max a b.
Proof. unfold BAVL_MAX. case_if; lia. Qed.

(** [grown t d t']: [t'] is a balanced tree of the elements of [t], higher by [d]. *)
Definition grown (t : tree V) (d : Z) (t' : tree V) : Prop :=
  avl t' ∧ elements t' = elements t ∧ height t' = height t + d ∧ rootp t' ≠ None.

Lemma wp_set_balance K l p b v r s R b' (Q : unit → BAVL → Prop) :
  at_ s K (T l p b v r) R →
  (∀ s', at_ s' K (T l p b' v r) R → Q tt s') →
  wp (store (Some p) (set_balance b')) s Q.
Proof. intros [Ho Hr] HQ. cbn in Ho, Hr. wexec. apply HQ. split; [rearrange|done]. Qed.

(** A step into a subtree and back. *)
Lemma at_left s K l p b v r R : at_ s K (T l p b v r) R ↔ at_ s (Fr false p b v r :: K) l R.
Proof. by rewrite at_frame. Qed.
Lemma at_right s K l p b v r R : at_ s K (T l p b v r) R ↔ at_ s (Fr true p b v l :: K) r R.
Proof. by rewrite at_frame. Qed.

Lemma wp_load_at s K l p b v r R (Q : BAVLNode → BAVL → Prop) :
  at_ s K (T l p b v r) R →
  Q (mkNode (above None K) (rootp l) (rootp r) b v) s → wp (load (Some p)) s Q.
Proof. intros [Ho Hr] HQ. cbn in Ho. by wstep. Qed.

End Restructuring.

(** What is left of a transformation once the memory is as it should be. *)
Ltac transformed HQ t :=
  rewrite ?int8_small by lia; eapply (HQ _ t); [split; [rearrange|done]| |lia];
  unfold grown; cbn; rewrite <-?app_assoc; cbn; rewrite <-?app_assoc;
  split_and!; first [done|lia].

Section Rebalancing.
Context {V : Type}.
#[local] Abbreviation act := (M (@BAVL V) Empty_set).
#[local] Abbreviation cell := (positive * @BAVLNode V)%type.
Implicit Types (s : @BAVL V) (v : V) (L R : list cell) (K : list (frame V)) (t o : tree V).

Lemma single_rotation bside K a p b v xn q bq vq xf b1 b2 d delta delta' s R (Q : ptr * Z → BAVL → Prop) :
  at_ s K (bin (negb bside) a p b v (bin (negb bside) xn q bq vq xf)) R →
  avl a → avl xn → avl xf → height xn <= height xf →
  BAVL_OPTNEG b1 (negb bside) = height xn - height a → -1 <= b1 <= 1 →
  BAVL_OPTNEG b2 (negb bside) = height xf - (1 + Z.max (height a) (height xn)) → -1 <= b2 <= 1 →
  d = Z.max (1 + Z.max (height a) (height xn)) (height xf) - (1 + height xf) → -1 <= d <= 0 →
  height a < height xf → delta' = delta + d →
  (∀ s' t' d, at_ s' K t' R →
     grown (bin (negb bside) a p b v (bin (negb bside) xn q bq vq xf)) d t' → -1 <= d <= 0 →
     Q (rootp t', delta + d) s') →
  wp (BAVL_rotate (Some p) (negb bside);; store (Some p) (set_balance b1);;
      store (Some q) (set_balance b2);; mret (Some q, delta')) s Q.
Proof.
  intros Hat Ha Hn Hf Hnf Hb1 Hb1' Hb2 Hb2' Hd Hd' Hh -> HQ. wstep.
  eapply rotate_ok; [exact Hat|]. intros s1 [Ho Hr].
  destruct bside; cbn in Ho, Hr, HQ, Hb1, Hb2; wexec.
  - transformed HQ (T (T a p b1 v xn) q b2 vq xf).
  - transformed HQ (T xf q b2 vq (T xn p b1 v a)).
Qed.

Lemma double_rotation (bside : bool) K a p b v gn g bg vg gf q bq vq xf delta s R (Q : ptr * Z → BAVL → Prop) :
  let f := if bside then 1 else -1 in
  let t := bin (negb bside) a p b v (bin (negb bside) (bin (negb bside) gn g bg vg gf) q bq vq xf) in
  at_ s K t R →
  avl a → avl gn → avl gf → avl xf → BAVL_OPTNEG bg (negb bside) = height gf - height gn → -1 <= bg <= 1 →
  height xf = height a → height a = Z.max (height gn) (height gf) → -1 <= delta <= 1 →
  (∀ s' t' d, at_ s' K t' R → grown t d t' → -1 <= d <= 0 → Q (rootp t', delta + d) s') →
  wp (BAVL_rotate (Some q) bside;; BAVL_rotate (Some p) (negb bside);;
      g' ← load (Some g);
      store (Some p) (set_balance (int8 (- BAVL_MAX 0 (balance g' * f) * f)));;
      g' ← load (Some g);
      store (Some q) (set_balance (int8 (BAVL_MAX 0 (- balance g' * f) * f)));;
      store (Some g) (set_balance 0);;
      mret (Some g, int8 (delta - 1))) s Q.
Proof.
  intros f t Hat Ha Hgn Hgf Hxf Hbg Hbg' Hx Hm Hd HQ. subst f t.
  wstep. destruct bside; cbn [negb bin] in Hat, HQ |- *; cbn in Hbg.
  - eapply (rotate_ok true); [apply at_right in Hat; exact Hat|].
    intros s1 Hat1. wstep. cbn [bin] in Hat1. apply at_right in Hat1.
    eapply (rotate_ok false); [exact Hat1|]. intros s2 [Ho Hr]. cbn in Ho, Hr. wexec.
    replace (int8 (delta - 1)) with (delta + -1) by (rewrite int8_small; lia).
    rewrite !BAVL_MAX_max, !int8_small in Ho by lia.
    transformed HQ (T (T a p (- Z.max 0 (bg * 1) * 1) v gn) g 0 vg
                      (T gf q (Z.max 0 (- bg * 1) * 1) vq xf)).
  - eapply (rotate_ok false); [apply at_left in Hat; exact Hat|].
    intros s1 Hat1. wstep. cbn [bin] in Hat1. apply at_left in Hat1.
    eapply (rotate_ok true); [exact Hat1|]. intros s2 [Ho Hr]. cbn in Ho, Hr. wexec.
    replace (int8 (delta - 1)) with (delta + -1) by (rewrite int8_small; lia).
    rewrite !BAVL_MAX_max, !int8_small in Ho by lia.
    transformed HQ (T (T xf q (Z.max 0 (- bg * -1) * -1) vq gf) g 0 vg
                      (T gn p (- Z.max 0 (bg * -1) * -1) v a)).
Qed.

Lemma transform_ok bside K a p b v x delta s R (Q : ptr * Z → BAVL → Prop) :
  at_ s K (bin (negb bside) a p b v x) R → avl a → avl x → height x = height a + 2 →
  -1 <= delta <= 1 →
  (∀ s' t' d, at_ s' K t' R → grown (bin (negb bside) a p b v x) d t' → -1 <= d <= 0 →
     Q (rootp t', delta + d) s') →
  wp (transform (Some p) bside delta) s Q.
Proof.
  intros Hat Ha Hx Hh Hd HQ. unfold transform.
  destruct x as [|xl q bq vq xr]; [cbn in Hh; pose proof (height_nonneg a); lia|].
  cbn in Hx, Hh. destruct Hx as (Hxl & Hxr & Hbq & Hb).
  pose proof (height_nonneg a). pose proof (height_nonneg xl). pose proof (height_nonneg xr).
  pose proof Hat as [Ho Hr].
  destruct bside; cbn [negb bin] in Hat, Ho, Hr, HQ; cbn [cells kcells rootp above app] in Ho.
  - wexec. case_if; [|case_if; [|case_if; [|lia]]].
    + rewrite int8_small by lia.
      eapply (single_rotation true _ a _ b _ xl _ bq _ xr _ _ (-1) delta); [exact Hat|..|exact HQ]; first [done|cbn; lia].
    + rewrite !int8_small by lia.
      eapply (single_rotation true _ a _ b _ xl _ bq _ xr _ _ 0 delta); [exact Hat|..|exact HQ]; first [done|cbn; lia].
    + destruct xl as [|gl g bg vg gr]; [cbn in *; lia|].
      cbn in Hxl, Hbq, Hh. destruct Hxl as (Hgl & Hgr & Hbg & Hbg'). cbn. wstep. wstep.
      eapply (double_rotation true _ a _ b _ gl _ bg _ gr _ bq _ xr); [exact Hat|..|exact HQ]; first [done|cbn; lia].
  - wexec. case_if; [|case_if; [|case_if; [|lia]]].
    + rewrite int8_small by lia.
      eapply (single_rotation false _ a _ b _ xr _ bq _ xl _ _ (-1) delta); [exact Hat|..|exact HQ]; first [done|cbn; lia].
    + rewrite !int8_small by lia.
      eapply (single_rotation false _ a _ b _ xr _ bq _ xl _ _ 0 delta); [exact Hat|..|exact HQ]; first [done|cbn; lia].
    + destruct xr as [|gl g bg vg gr]; [cbn in *; lia|].
      cbn in Hxr, Hbq, Hh. destruct Hxr as (Hgl & Hgr & Hbg & Hbg'). cbn. wstep. wstep.
      eapply (double_rotation false _ a _ b _ gr _ bg _ gl _ bq _ xl); [exact Hat|..|exact HQ]; first [done|cbn; lia].
Qed.

Lemma settle_ok K l p b v r delta s R (Q : ptr * Z → BAVL → Prop) :
  at_ s K (T l p b v r) R → avl l → avl r → b = height r - height l → -2 <= b <= 2 →
  -1 <= delta <= 1 → (b = 2 ∨ b = -2 → 0 <= delta) →
  (∀ s' t' d, at_ s' K t' R → grown (T l p b v r) d t' → -1 <= delta + d <= 1 →
     Q (rootp t', delta + d) s') →
  wp (if (b =? 2) || (b =? -2) then transform (Some p) (b =? 2) delta
      else mret (Some p, delta)) s Q.
Proof.
  intros Hat Hl Hr Hb Hb' Hd Hd2 HQ. destruct (b =? 2) eqn:E2; [|destruct (b =? -2) eqn:E3]; zb; cbn [orb].
  - eapply (transform_ok true _ l); [exact Hat|done|done|lia|done|].
    intros s' t' d Hat' Hg Hd'. apply HQ; [done|done|lia].
  - eapply (transform_ok false _ r); [exact Hat|done|done|lia|done|].
    intros s' t' d Hat' Hg Hd'. apply HQ; [done|done|lia].
  - wstep. rewrite <-(Z.add_0_r delta). apply (HQ s (T l p b v r)); [done| |lia].
    unfold grown. cbn. split_and!; first [done|lia].
Qed.

Lemma adjust_ok K d p b v o t h deltac s R (Q : ptr * Z → BAVL → Prop) :
  at_ s (Fr d p b v o :: K) t R → avl t → avl o →
  b = BAVL_OPTNEG (height o - h) d → -1 <= b <= 1 →
  height t = h + deltac → -1 <= deltac <= 1 → deltac ≠ 0 →
  (∀ s' t' delta, at_ s' K t' R → avl t' → rootp t' ≠ None →
     elements t' = elements (plug_frame (Fr d p b v o) t) →
     height t' = 1 + Z.max h (height o) + delta → -1 <= delta <= 1 → Q (rootp t', delta) s') →
  wp (adjust (Some p) d deltac) s Q.
Proof.
  intros Hat Ht Ho Hb Hb' Hh Hd Hd0 HQ. unfold adjust.
  pose proof (height_nonneg t). pose proof (height_nonneg o). apply at_frame in Hat.
  set (nb := b - BAVL_OPTNEG deltac d).
  assert (Hnb : nb = BAVL_OPTNEG (height o - height t) d) by (unfold nb; destruct d; cbn in *; lia).
  set (delta := BAVL_MAX deltac (BAVL_OPTNEG b d) - BAVL_MAX 0 (BAVL_OPTNEG b d)).
  assert (Hdelta : delta = Z.max (height t) (height o) - Z.max h (height o))
    by (unfold delta; rewrite !BAVL_MAX_max; destruct d; cbn in *; lia).
  destruct d; cbn [plug_frame] in Hat; pose proof Hat as [Hm Hr]; cbn in Hm, Hr; cbn in Hb, Hnb;
    wstep; wstep; fold delta; fold nb; clearbody nb delta;
    rewrite (int8_small delta), (int8_small nb) by lia;
    (wstep; wstep; [apply andb_true_intro; zdec; lia|]); wstep;
    (eapply wp_set_balance; [exact Hat|]); intros s' Hat'; wstep;
    (eapply wp_load_at; [exact Hat'|]); cbn [balance];
    (eapply settle_ok; [exact Hat'|done|done|lia|lia|lia|lia|]);
    intros s2 t' d Hat2 (Hg & He & Hgh & Hn) Hd'; cbn in Hgh;
    (apply HQ; [done|done|done|by rewrite He|lia|lia]).
Qed.

(** The test by which a child finds its side. *)
Lemma side_ok s K d d' p b v o t R :
  at_ s (Fr d p b v o :: K) t R → rootp t ≠ None →
  bool_decide (rootp t = link d' (fcell (above None K) d (rootp t) b v o)) = eqb d d'.
Proof.
  intros [Ho _] Hx. cbn in Ho. destruct t as [|l q bq vq r]; [done|].
  assert (rootp o ≠ Some q) as Hne by (eapply own_other_ne; [exact Ho| |]; cbn; apply _).
  destruct d, d'; cbn; first [by apply bool_decide_eq_true_2|apply bool_decide_eq_false_2; congruence].
Qed.

Lemma eqb_true_r' d : eqb d true = d.
Proof. by destruct d. Qed.

Lemma wp_load_above s K d p b v o t R (Q : BAVLNode → BAVL → Prop) :
  at_ s (Fr d p b v o :: K) t R → Q (fcell (above None K) d (rootp t) b v o) s →
  wp (load (Some p)) s Q.
Proof. intros [Ho Hr] HQ. cbn in Ho. by wstep. Qed.

Lemma rebalance_ok fuel K d p b v o t h deltac s R (Q : unit → BAVL → Prop) :
  (length K <= fuel)%nat →
  at_ s (Fr d p b v o :: K) t R → avl t → kavl (Fr d p b v o :: K) h →
  height t = h + deltac → -1 <= deltac <= 1 →
  (∀ s' t', at_ s' [] t' R → avl t' → elements t' = elements (plug (Fr d p b v o :: K) t) →
     Q tt s') →
  wp (BAVL_rebalance fuel (Some p) d deltac) s Q.
Proof.
  revert K d p b v o t h deltac s Q. induction fuel as [|fuel IH];
    intros K d p b v o t h deltac s Q Hf Hat Ht Hk Hh Hd HQ.
  all: pose proof Hk as (Ho & Hb & Hb' & Hk'); cbn [BAVL_rebalance].
  all: wstep; eapply wp_load_above; [exact Hat|]; cbn [balance fcell].
  all: wstep; wstep; [apply andb_true_intro; zdec; lia|].
  all: wstep; wstep; [apply andb_true_intro; zdec; lia|].
  all: case_if; [wstep; apply (HQ _ (plug (Fr d p b v o :: K) t)); [by rewrite <-at_plug| |done];
    apply avl_plug; replace (height t) with h by lia; done|].
  all: wstep; eapply adjust_ok; [exact Hat|done|done|done|done|exact Hh|done|done|].
  all: intros s' t' delta Hat' Ht' Hn' He' Hh' Hd'; cbn beta iota.
  all: wstep; wstep; [apply andb_true_intro; zdec; lia|].
  all: destruct t' as [|l q bq vq r]; [done|]; wstep; eapply wp_load_at; [exact Hat'|]; cbn [parent].
  all: destruct K as [|[d2 p2 b2 v2 o2] K]; cbn [above nonnull];
    [wstep; apply (HQ _ _ Hat' Ht'); by rewrite He'|cbn [length] in Hf; try lia].
  wstep. eapply wp_load_above; [exact Hat'|].
  change (Some q) with (rootp (T l q bq vq r)).
  pose proof (side_ok _ _ _ true _ _ _ _ _ _ Hat' Hn') as Hside.
  cbn [link] in Hside. rewrite Hside, eqb_true_r'.
  eapply (IH K); [lia|exact Hat'|done|exact Hk'|exact Hh'|done|].
  intros s2 t2 Hat2 Ht2 He2. apply (HQ _ _ Hat2 Ht2). rewrite He2.
  rewrite (elements_plug (_ :: _ :: _)), (elements_plug (_ :: _)), He'.
  destruct d; cbn; rewrite <-?app_assoc; done.
Qed.

End Rebalancing.

End AvlMemory.
