(* ===== verification/BAvlOrder.v ===== *)
(** * AVL tree: order, operations and theorems

    The order of the nodes; searches, insertion, removal and the self-check;
    a user of the tree, and that the tree is for it a sorted list. *)

From stdpp Require Import sorting.
From S2P Require Import Prelude Net BAvl BAvlMemory.
Import BAVL AvlMemory.

Module Avl.

Section Order.
Context {V : Type} (comparator : V → V → Z) `{HC : !Comparator comparator}.
#[local] Abbreviation act := (M (@BAVL V) Empty_set).
#[local] Abbreviation cell := (positive * @BAVLNode V)%type.
Implicit Types (s : @BAVL V) (v : V) (L R : list cell) (K : list (frame V)) (t : tree V).
#[local] Abbreviation BAVL_compare_values := (BAVL.BAVL_compare_values comparator).
#[local] Abbreviation BAVL_compare_nodes := (BAVL.BAVL_compare_nodes comparator).
#[local] Abbreviation find_place := (BAVL.find_place comparator).
#[local] Abbreviation lookup_from := (BAVL.lookup_from comparator).
#[local] Abbreviation lookup_exact_from := (BAVL.lookup_exact_from comparator).
#[local] Abbreviation BAVL_Insert := (BAVL.BAVL_Insert comparator).
#[local] Abbreviation BAVL_Lookup := (BAVL.BAVL_Lookup comparator).
#[local] Abbreviation BAVL_LookupExact := (BAVL.BAVL_LookupExact comparator).
#[local] Abbreviation BAVL_assert_recurser := (BAVL.BAVL_assert_recurser comparator).
#[local] Abbreviation BAVL_Verify := (BAVL.BAVL_Verify comparator).


(** [less S v]: the values of [S] are before [v]; [greater S v]: behind. *)
Definition less (S : list (positive * V)) (v : V) : Prop := Forall (λ x, comparator x.2 v = -1) S.
Definition greater (S : list (positive * V)) (v : V) : Prop := Forall (λ x, comparator v x.2 = -1) S.

(** In order and without duplicates. *)
Definition ordered (S : list (positive * V)) : Prop :=
  StronglySorted (λ x y, comparator x.2 y.2 = -1) S.

Lemma ordered_app S1 S2 : ordered (S1 ++ S2) ↔
  ordered S1 ∧ ordered S2 ∧ ∀ x y, x ∈ S1 → y ∈ S2 → comparator x.2 y.2 = -1.
Proof.
  unfold ordered. induction S1 as [|x S1 IH]; cbn.
  { split; [|naive_solver]. intros HS. split_and!; [constructor|done|]. set_solver. }
  split.
  - intros HS. inversion HS as [|? ? HS1 HF]; subst. apply IH in HS1 as (H1 & H2 & H3).
    apply Forall_app in HF as [HF1 HF2]. rewrite Forall_forall in HF2.
    split_and!; [by constructor|done|]. intros a b [-> | Ha]%elem_of_cons Hb; [by apply HF2|by apply H3].
  - intros (H1 & H2 & H3). inversion H1 as [|? ? HS1 HF]; subst. constructor.
    + apply IH. split_and!; [done|done|]. intros a b Ha. apply H3. by right.
    + apply Forall_app. split; [done|]. apply Forall_forall. intros y Hy. apply H3; [by left|done].
Qed.

Lemma ordered_node S1 p v S2 :
  ordered (S1 ++ (p, v) :: S2) ↔ ordered S1 ∧ ordered S2 ∧ less S1 v ∧ greater S2 v.
Proof.
  rewrite ordered_app. unfold less, greater. rewrite !Forall_forall. split.
  - intros (H1 & H2 & H3). inversion H2 as [|? ? HS HF]; subst. rewrite Forall_forall in HF.
    split_and!; [done|done| |done]. intros x Hx. apply (H3 x (p, v)); [done|]. by left.
  - intros (H1 & H2 & H3 & H4). split_and!; [done| |].
    + constructor; [done|]. apply Forall_forall. apply H4.
    + intros x y Hx [-> | Hy]%elem_of_cons; [by apply H3|].
      eapply (cmp_lt_trans comparator); [by apply H3|by apply H4].
Qed.

Lemma less_trans S v w : less S v → comparator v w = -1 → less S w.
Proof. intros HS Hv. eapply Forall_impl; [exact HS|]. intros x Hx. exact (cmp_lt_trans comparator _ _ _ Hx Hv). Qed.
Lemma greater_trans S v w : greater S v → comparator w v = -1 → greater S w.
Proof. intros HS Hv. eapply Forall_impl; [exact HS|]. intros x Hx. exact (cmp_lt_trans comparator _ _ _ Hv Hx). Qed.

Lemma cmp_gt a b : comparator a b = 1 ↔ comparator b a = -1.
Proof. rewrite (cmp_flip comparator a b). lia. Qed.

(** Where the search for [v] ends: at a node with an equal value, or at an
    empty subtree. *)
Fixpoint locate (v : V) (K : list (frame V)) (t : tree V) : list (frame V) * tree V :=
  match t with
  | E => (K, E)
  | T l p b w r =>
      if comparator v w =? 0 then (K, t)
      else if comparator v w =? 1 then locate v (Fr true p b w l :: K) r
      else locate v (Fr false p b w r :: K) l
  end.

Lemma locate_ok v K t K' t' :
  locate v K t = (K', t') → ordered (elements t) → less (before K) v → greater (behind K) v →
  plug K' t' = plug K t ∧ less (before K') v ∧ greater (behind K') v ∧
  match t' with E => True | T _ _ _ w _ => comparator v w = 0 end.
Proof.
  revert K. induction t as [|l IHl p b w r IHr]; intros K; cbn; [naive_solver|].
  intros Hl (Ol & Or & Ll & Gr)%ordered_node HL HG.
  destruct (comparator v w =? 0) eqn:E0; zb; [by simplify_eq|].
  destruct (comparator v w =? 1) eqn:E1; zb.
  - apply cmp_gt in E1. apply IHr in Hl; [done|done| |done]. cbn.
    repeat apply Forall_app_2; [done|by eapply less_trans|by constructor].
  - assert (comparator v w = -1) by (destruct (cmp_range comparator v w); lia).
    apply IHl in Hl; [done|done|done|]. cbn.
    constructor; [done|]. apply Forall_app. split; [by eapply greater_trans|done].
Qed.

Lemma wp_compare v w s (Q : Z → BAVL → Prop) :
  Q (comparator v w) s → wp (BAVL_compare_values v w) s Q.
Proof.
  intros HQ. unfold BAVL_compare_values. wstep. wstep; [|by wstep].
  destruct (cmp_range comparator v w) as [-> | [-> | ->]]; done.
Qed.

(** The side on which the hole of a context is. *)
Definition hole_side (K : list (frame V)) : option bool :=
  match K with [] => None | Fr d _ _ _ _ :: _ => Some d end.

(** The child on a side, and the context of that child. *)
Definition child (d : bool) (l r : tree V) : tree V := if d then r else l.

Lemma at_child d s K l q b w r R :
  at_ s K (T l q b w r) R → at_ s (Fr d q b w (child (negb d) l r) :: K) (child d l r) R.
Proof. intros Hat. rewrite at_frame. by destruct d. Qed.

(** A loop that compares, answers at an equal node or below a leaf, and
    otherwise goes on with a child, ends where [locate] says. *)
Lemma search_loop {A} (loop : nat → ptr → act A) (ans : list (frame V) * tree V → A) v s R :
  (∀ fuel K l q b w r Q,
     at_ s K (T l q b w r) R →
     let d := comparator v w =? 1 in
     let K' := Fr d q b w (child (negb d) l r) :: K in
     (comparator v w = 0 → Q (ans (K, T l q b w r)) s) →
     (comparator v w ≠ 0 → child d l r = E → Q (ans (K', E)) s) →
     (comparator v w ≠ 0 → rootp (child d l r) ≠ None →
        match fuel with O => False | S fuel => wp (loop fuel (rootp (child d l r))) s Q end) →
     wp (loop fuel (Some q)) s Q) →
  ∀ t fuel K, at_ s K t R → rootp t ≠ None → height t <= 1 + Z.of_nat fuel →
  wp (loop fuel (rootp t)) s (λ a s', s' = s ∧ a = ans (locate v K t)).
Proof.
  intros Hloop. induction t as [|l IHl q b w r IHr]; [done|]. intros fuel K Hat _ Hh. cbn in Hh.
  apply (Hloop _ _ _ _ _ _ _ _ Hat); clear Hloop; cbn [locate].
  - intros ->. by rewrite Z.eqb_refl.
  - intros Hc Hch. rewrite (proj2 (Z.eqb_neq _ _) Hc).
    destruct (comparator v w =? 1); cbn in Hch |- *; by rewrite Hch.
  - intros Hc Hch. rewrite (proj2 (Z.eqb_neq _ _) Hc). pose proof (height_nonneg l). pose proof (height_nonneg r).
    destruct (comparator v w =? 1); cbn in Hch |- *; (destruct fuel as [|fuel]; cbn in Hh;
      [exfalso; apply Hch; first [rewrite (height_0 l) by lia|rewrite (height_0 r) by lia]; done|]).
    + apply IHr; [by apply at_right|done|lia].
    + apply IHl; [by apply at_left|done|lia].
Qed.

(** The answers of the three searches. *)
Definition place_of (z : list (frame V) * tree V) : ptr * option bool :=
  match z.2 with E => (above None z.1, hole_side z.1) | _ => (rootp z.2, None) end.
Definition near_of (z : list (frame V) * tree V) : ptr :=
  match z.2 with E => above None z.1 | _ => rootp z.2 end.
Definition exact_of (z : list (frame V) * tree V) : ptr := rootp z.2.

Lemma link_child d par l r b v : link d (mkNode par (rootp l) (rootp r) b v) = rootp (child d l r).
Proof. by destruct d. Qed.

(** The end of a round of a search. *)
Ltac go_on Hleaf Hgo :=
  cbn zeta in Hleaf, Hgo; rewrite ?link_child;
  match goal with |- context [child ?d ?l ?r] => destruct (child d l r) eqn:Hch end; cbn [nonnull rootp] in *;
  [wstep; by apply Hleaf|first [by destruct Hgo|by apply Hgo]].

Lemma find_place_ok fuel p x v K t s R R' :
  at_ s K t R → Focus p x R R' → value x = v → rootp t ≠ None → height t <= 1 + Z.of_nat fuel →
  wp (find_place fuel (Some p) (rootp t)) s (λ res s', s' = s ∧ res = place_of (locate v K t)).
Proof.
  intros Hat0 HF <- Hn Hh. revert Hat0 Hn Hh. apply (search_loop (λ f, find_place f (Some p))). clear fuel K t.
  intros fuel K l q b w r Q Hat d K' Hq Hleaf Hgo. subst d K'. pose proof Hat as [Ho _]. cbn in Ho.
  destruct fuel; cbn [find_place]; unfold BAVL_compare_nodes; wstep; wstep;
    (eapply wp_load; [exact Ho|apply _|]); wstep; wstep; apply wp_compare.
  all: case_if; [wstep; by apply Hq|]; wstep; wstep; go_on Hleaf Hgo.
Qed.

Lemma lookup_from_ok v t fuel K s R :
  at_ s K t R → rootp t ≠ None → height t <= 1 + Z.of_nat fuel →
  wp (lookup_from fuel v (rootp t)) s (λ res s', s' = s ∧ res = near_of (locate v K t)).
Proof.
  apply (search_loop (λ f, lookup_from f v)). clear fuel K t.
  intros fuel K l q b w r Q Hat d K' Hq Hleaf Hgo. subst d K'.
  destruct fuel; cbn [lookup_from]; wstep; (eapply wp_load_at; [exact Hat|]); wstep; apply wp_compare.
  all: case_if; [wstep; by apply Hq|]; go_on Hleaf Hgo.
Qed.

Lemma lookup_exact_from_ok v t fuel K s R :
  at_ s K t R → rootp t ≠ None → height t <= 1 + Z.of_nat fuel →
  wp (lookup_exact_from fuel v (rootp t)) s (λ res s', s' = s ∧ res = exact_of (locate v K t)).
Proof.
  apply (search_loop (λ f, lookup_exact_from f v)). clear fuel K t.
  intros fuel K l q b w r Q Hat d K' Hq Hleaf Hgo. subst d K'.
  destruct fuel; cbn [lookup_exact_from]; wstep; (eapply wp_load_at; [exact Hat|]); wstep; apply wp_compare.
  all: case_if; [wstep; by apply Hq|]; go_on Hleaf Hgo.
Qed.

(** ** Neighbours *)
Definition side_of (f : frame V) : bool := match f with Fr d _ _ _ _ => d end.
Definition firstp (S : list (positive * V)) : ptr := fst <$> head S.
Definition lastp (S : list (positive * V)) : ptr := fst <$> last S.
(** The end of a list on a side. *)
Definition endp (d : bool) (S : list (positive * V)) : ptr := if d then lastp S else firstp S.

Lemma depth_plug K t : Z.of_nat (length K) + height t <= height (plug K t).
Proof.
  revert t. induction K as [|[d p b v o] K IH]; intros t; cbn [length plug]; [lia|].
  specialize (IH (plug_frame (Fr d p b v o) t)). destruct d; cbn in *; lia.
Qed.

(** A loop that goes down on one side ends at the last node on that side. *)
Lemma descend_ok d t fuel K s R :
  at_ s K t R → rootp t ≠ None → height t <= 1 + Z.of_nat fuel →
  ∃ K2 l p b v r, t = plug K2 (T l p b v r) ∧ child d l r = E ∧ Forall (λ f, side_of f = d) K2 ∧
    wp (descend fuel d (rootp t)) s (λ a s', s' = s ∧ a = Some p).
Proof.
  revert fuel K. induction t as [|l IHl p b v r IHr]; [done|]. intros fuel K Hat _ Hh. cbn in Hh.
  destruct (child d l r) eqn:Hc.
  { exists [], l, p, b, v, r. split_and!; [done|done|done|].
    destruct fuel; cbn [descend]; wstep; (eapply wp_load_at; [exact Hat|]);
      rewrite link_child, Hc; cbn [nonnull rootp]; by wstep. }
  assert (rootp (child d l r) ≠ None) as Hn by by rewrite Hc.
  assert (1 <= height (child d l r)) by (rewrite Hc; cbn; pose proof (height_nonneg t1); lia).
  pose proof (height_nonneg l). pose proof (height_nonneg r).
  destruct fuel as [|fuel]; [destruct d; cbn in *; lia|].
  assert (∃ K2 l' p' b' v' r', child d l r = plug K2 (T l' p' b' v' r') ∧ child d l' r' = E ∧
    Forall (λ f, side_of f = d) K2 ∧
    wp (descend fuel d (rootp (child d l r))) s (λ a s', s' = s ∧ a = Some p'))
    as (K2 & l' & p' & b' & v' & r' & Ht & Hc' & HK & Hw).
  { apply (at_child d) in Hat. destruct d; cbn [child] in *.
    - eapply IHr; [exact Hat|done|lia].
    - eapply IHl; [exact Hat|done|lia]. }
  exists (K2 ++ [Fr d p b v (child (negb d) l r)]), l', p', b', v', r'. split_and!.
  - rewrite plug_app, <-Ht. by destruct d.
  - done.
  - apply Forall_app. by repeat constructor.
  - cbn [descend]. wstep. eapply wp_load_at; [exact Hat|]. rewrite link_child.
    destruct (rootp (child d l r)); [|done]. exact Hw.
Qed.

Lemma one_side d K : Forall (λ f, side_of f = d) K → (if d then behind K else before K) = [].
Proof. induction 1 as [|[d' p b v o] K Hd HK IH]; destruct d; cbn in *; try done; by subst. Qed.

Lemma endp_plug d K l p b v r :
  child d l r = E → Forall (λ f, side_of f = d) K → endp d (elements (plug K (T l p b v r))) = Some p.
Proof.
  intros Hc HK. apply one_side in HK. rewrite elements_plug. unfold endp, lastp, firstp.
  destruct d; cbn in Hc |- *; subst; cbn; rewrite HK.
  - by rewrite app_nil_r, app_assoc, last_snoc.
  - done.
Qed.

Lemma descend_end d t fuel K s R :
  at_ s K t R → rootp t ≠ None → height t <= 1 + Z.of_nat fuel →
  wp (descend fuel d (rootp t)) s (λ a s', s' = s ∧ a = endp d (elements t)).
Proof.
  intros Hat Hn Hh.
  destruct (descend_ok d _ _ _ _ _ Hat Hn Hh) as (K2 & l & p & b & v & r & -> & Hc & HK & Hw).
  eapply wp_mono; [exact Hw|]. intros a s' [-> ->]. by rewrite endp_plug.
Qed.

Lemma climb_ok d K t fuel s R :
  at_ s K t R → rootp t ≠ None → (length K <= fuel)%nat →
  wp (climb fuel d (rootp t)) s (λ a s', s' = s ∧ a = if d then firstp (behind K) else lastp (before K)).
Proof.
  revert t fuel. induction K as [|[d' q b v o] K IH]; intros t fuel Hat Hn Hf;
    (destruct t as [|l p bp vp r]; [done|]).
  { destruct fuel; cbn [climb rootp]; wstep; (eapply wp_load_at; [exact Hat|]);
      cbn [parent nonnull above]; wstep; by destruct d. }
  destruct fuel as [|fuel]; [cbn in Hf; lia|]. cbn [climb rootp]. wstep.
  eapply wp_load_at; [exact Hat|]. cbn [above nonnull parent]. wstep.
  eapply wp_load_above; [exact Hat|]. change (Some p) with (rootp (T l p bp vp r)).
  rewrite (side_ok _ _ _ _ _ _ _ _ _ _ Hat Hn). apply at_frame in Hat.
  destruct d, d'; cbn [eqb].
  - apply (IH _ _ Hat); [done|cbn in Hf; lia].
  - by wstep.
  - wstep. split; [done|]. cbn. by rewrite app_assoc; unfold lastp; rewrite last_snoc.
  - apply (IH _ _ Hat); [done|cbn in Hf; lia].
Qed.

Lemma next_ok fuel K l p b v r s R :
  at_ s K (T l p b v r) R → height (plug K (T l p b v r)) <= 1 + Z.of_nat fuel →
  wp (BAVL_GetNext fuel (Some p)) s (λ a s', s' = s ∧ a = firstp (elements r ++ behind K)) ∧
  wp (BAVL_GetPrev fuel (Some p)) s (λ a s', s' = s ∧ a = lastp (before K ++ elements l)).
Proof.
  intros Hat Hh. pose proof (depth_plug K (T l p b v r)) as Hd. cbn in Hd.
  pose proof (height_nonneg l). pose proof (height_nonneg r).
  split; unfold BAVL_GetNext, BAVL_GetPrev; wstep; (eapply wp_load_at; [exact Hat|]); cbn [link link0 link1].
  - destruct r as [|rl rp rb rv rr]; cbn [rootp nonnull].
    { apply (climb_ok true _ (T l p b v E) _ _ R); [done|done|lia]. }
    apply at_right in Hat. eapply wp_mono; [apply (descend_end false _ _ _ _ _ Hat); [done|lia]|].
    intros a s' [-> ->]. split; [done|]. unfold endp, firstp.
    assert (elements (T rl rp rb rv rr) ≠ []) by (cbn; by destruct (elements rl)).
    by destruct (elements (T rl rp rb rv rr)).
  - destruct l as [|rl rp rb rv rr]; cbn [rootp nonnull].
    { rewrite app_nil_r. apply (climb_ok false _ (T E p b v r) _ _ R); [done|done|lia]. }
    apply at_left in Hat. eapply wp_mono; [apply (descend_end true _ _ _ _ _ Hat); [done|lia]|].
    intros a s' [-> ->]. split; [done|]. unfold endp, lastp. cbn [elements].
    rewrite !last_app, last_cons. by destruct (last (elements rr)).
Qed.

(** ** The self-check *)
Lemma child_value d l q b v r :
  ordered (elements (T l q b v r)) →
  match child d l r with E => True | T _ _ _ w _ => comparator w v = if d then 1 else -1 end.
Proof.
  cbn. intros (_ & _ & Hl & Hr)%ordered_node. unfold less, greater in *.
  destruct d; cbn.
  - destruct r; [done|]. cbn in Hr. apply Forall_app in Hr as [_ Hr]. inversion Hr; subst. by apply cmp_gt.
  - destruct l; [done|]. cbn in Hl. apply Forall_app in Hl as [_ Hl]. by inversion Hl.
Qed.

Lemma check_child_ok (d : bool) K l p b v r s R (recurse : act Z) :
  at_ s K (T l p b v r) R → ordered (elements (T l p b v r)) →
  (rootp (child d l r) ≠ None → wp recurse s (λ h s', s' = s ∧ h = height (child d l r))) →
  wp (if nonnull (rootp (child d l r)) then
        c ← load (rootp (child d l r));
        ASSERT (bool_decide (parent c = Some p));;
        comp ← BAVL_compare_nodes (rootp (child d l r)) (Some p);
        ASSERT (comp =? if d then 1 else -1);;
        recurse
      else mret 0) s (λ h s', s' = s ∧ h = height (child d l r)).
Proof.
  intros Hat Hord Hrec. apply (child_value d) in Hord.
  assert (wp (load (Some p)) s (λ x s', s' = s ∧ value x = v)) as Hp
    by (eapply wp_load_at; [exact Hat|done]).
  apply (at_child d) in Hat. destruct (child d l r) as [|cl q cb w cr]; cbn [rootp nonnull]; [by wstep|].
  wstep. eapply wp_load_at; [exact Hat|]. wstep. wstep; [by apply bool_decide_eq_true_2|].
  wstep. unfold BAVL_compare_nodes. wstep. eapply wp_load_at; [exact Hat|].
  wstep. eapply wp_mono; [exact Hp|]. intros x s' [-> <-]. apply wp_compare. cbn [value].
  wstep. wstep; [by apply Z.eqb_eq|]. by apply Hrec.
Qed.

Lemma assert_recurser_ok t fuel K s R :
  at_ s K t R → avl t → ordered (elements t) → rootp t ≠ None → height t <= 1 + Z.of_nat fuel →
  wp (BAVL_assert_recurser fuel (rootp t)) s (λ h s', s' = s ∧ h = height t).
Proof.
  revert fuel K. induction t as [|l IHl p b v r IHr]; [done|].
  intros fuel K Hat (Hl & Hr & Hb & Hb') Hord _ Hh. cbn in Hh.
  pose proof Hord as (Ol & Or & _)%ordered_node.
  pose proof (height_nonneg l). pose proof (height_nonneg r).
  assert (∀ (P : Prop) t, height t <= Z.of_nat 0 → rootp t ≠ None → P) as Hz.
  { intros P t Ht Hn. by rewrite (height_0 t) in Hn by lia. }
  destruct fuel as [|fuel]; cbn [BAVL_assert_recurser rootp];
    wstep; (eapply wp_load_at; [exact Hat|]);
    wstep; (wstep; [zdec; lia|]); wstep; (wstep; [zdec; lia|]); wstep.
  all: eapply wp_mono; [apply (check_child_ok false _ _ _ _ _ _ _ _ _ Hat Hord)|intros hl s1 [-> ->]].
  1: intros Hn; apply (Hz _ l); [lia|done].
  2: intros Hn; eapply IHl; [apply at_left, Hat|done|done|done|lia].
  all: wstep; eapply wp_mono; [apply (check_child_ok true _ _ _ _ _ _ _ _ _ Hat Hord)|intros hr s1 [-> ->]].
  1: intros Hn; apply (Hz _ r); [lia|done].
  2: intros Hn; eapply IHr; [apply at_right, Hat|done|done|done|lia].
  all: cbn [child]; wstep; (wstep; [zdec; lia|]); wstep; split; [done|]; rewrite BAVL_MAX_max; cbn; lia.
Qed.

(** ** Insertion *)

(** [ref] is a neighbour of the place between [S1] and [S2], [NULL] if there is none. *)
Definition neighbour (S1 S2 : list (positive * V)) (ref : ptr) : Prop :=
  match ref with
  | None => S1 = [] ∧ S2 = []
  | Some q => lastp S1 = Some q ∨ firstp S2 = Some q
  end.

Lemma neighbour_above K : neighbour (before K) (behind K) (above None K).
Proof.
  destruct K as [|[d p b v o] K]; cbn; [done|].
  destruct d; cbn; [left|by right]. unfold lastp. by rewrite app_assoc, last_snoc.
Qed.

(** What [BAVL_Insert] does to a tree of the elements [S]. *)
Definition inserted (p : positive) (v : V) (S : list (positive * V)) (S' : list (positive * V)) (ref : ptr) : Prop :=
  ∃ S1 S2, S = S1 ++ S2 ∧ less S1 v ∧ greater S2 v ∧ S' = S1 ++ (p, v) :: S2 ∧ neighbour S1 S2 ref.

Lemma set_link_fcell par d h h' b v o : set_link d h' (fcell par d h b v o) = fcell par d h' b v o.
Proof. by destruct d. Qed.

Lemma insert_ok fuel t p x s R R' :
  at_ s [] t R → avl t → ordered (elements t) → Focus p x R R' → height t <= 1 + Z.of_nat fuel →
  wp (BAVL_Insert fuel (Some p)) s (λ res s',
    (res.1 = false ∧ s' = s ∧ ∃ q w, (q, w) ∈ elements t ∧ comparator (value x) w = 0 ∧ res.2 = Some q) ∨
    (res.1 = true ∧ ∃ t', at_ s' [] t' R' ∧ avl t' ∧
       inserted p (value x) (elements t) (elements t') res.2)).
Proof.
  intros Hat Ha Hord HF Hh. unfold BAVL_Insert. pose proof Hat as [Ho Hr]. cbn in Ho, Hr.
  wstep. wstep. rewrite Hr. destruct t as [|l q b w r].
  { cbn [rootp nonnull negb]. wstep. eapply wp_store_root; [exact Ho|]. intros s1 Ho1 Hr1.
    eapply wp_leaf; [exact Ho1|exact HF|]. intros s2 Ho2 Hr2. wstep. right. split; [done|].
    exists (T E p 0 (value x) E). split_and!; [|by cbn|exists [], []; by repeat constructor].
    split; [done|]. by rewrite Hr2. }
  cbn [rootp nonnull negb]. wstep. change (Some q) with (rootp (T l q b w r)).
  eapply wp_mono; [eapply find_place_ok; [exact Hat|exact HF|done|done|done]|].
  intros res s1 [-> ->]. destruct (locate (value x) [] (T l q b w r)) as [K' t'] eqn:Hloc.
  apply locate_ok in Hloc as (Hp & HL & HG & Ht'); [|done|by constructor|by constructor].
  cbn [plug] in Hp. rewrite <-Hp in *. apply at_plug in Hat. apply avl_plug in Ha as [Ha Hk].
  rewrite elements_plug in *. destruct t' as [|l' q' b' w' r']; unfold place_of; cbn [snd fst].
  - destruct K' as [|[d p' b' v' o'] K]; [done|]. cbn [above hole_side]. clear Ho Hr.
    destruct Hat as [Ho Hr]. cbn in Ho. wstep.
    eapply wp_store; [exact Ho|apply _|]. clear Ho. intros s1 Ho1 Hr1. rewrite set_link_fcell in Ho1.
    eapply wp_leaf; [exact Ho1|apply _|]. intros s2 Ho2 Hr2. wstep.
    assert (at_ s2 (Fr d p' b' v' o' :: K) (T E p 0 (value x) E) R') as Hat2.
    { split; [rearrange|]. by rewrite Hr2, Hr1, Hr. }
    eapply rebalance_ok; [|exact Hat2|done|exact Hk|done|done|].
    { pose proof (depth_plug (Fr d p' b' v' o' :: K) E) as Hd. cbn [length height] in Hd. lia. }
    intros s3 t3 Hat3 Ha3 He3. wstep. right. split; [done|]. exists t3. split_and!; [done|done|].
    exists (before (Fr d p' b' v' o' :: K)), (behind (Fr d p' b' v' o' :: K)).
    rewrite He3, elements_plug. split_and!; [done|done|done|done|]. apply (neighbour_above (Fr d p' b' v' o' :: K)).
  - wstep. left. split_and!; [done|done|]. exists q', w'. split_and!; [set_solver|done|done].
Qed.

(** ** Removal *)

(** A node that is elsewhere in the memory is not the parent of a subtree. *)
Lemma above_ne m par K h x n L L1 L2 :
  own m L → Block (kcells par K h) L L1 → Focus x n L1 L2 → (K = [] → par ≠ Some x) →
  above par K ≠ Some x.
Proof.
  intros Ho HB HF Hpar. red in HB, HF. rewrite HB, HF in Ho.
  destruct K as [|[d p b v o] K]; cbn; [by apply Hpar|]. intros [= ->]. cbn in Ho.
  assert (x ≠ x); [|done]. eapply own_ne; [exact Ho|apply _|apply _].
Qed.

Lemma swap_connected_ok K a m bm vm e n b v r s R (Q : unit → BAVL → Prop) :
  at_ s K (T (T a m bm vm e) n b v r) R →
  (∀ s', at_ s' K (T (T a n bm v e) m b vm r) R → Q tt s') →
  wp (BAVL_swap_nodes (Some n) (Some m)) s Q.
Proof.
  intros [Ho Hr] HQ. cbn in Ho, Hr. unfold BAVL_swap_nodes.
  do 4 wstep. rewrite (bool_decide_eq_true_2 (Some n = Some n)) by done. cbn [orb].
  rewrite (bool_decide_eq_false_2 (above None K = Some m)).
  2:{ eapply above_ne; [exact Ho|apply _|apply _|done]. }
  unfold swap_connected. do 4 wstep.
  rewrite (bool_decide_eq_false_2 (Some m = rootp r)).
  2:{ intros E'. symmetry in E'. revert E'. eapply own_other_ne; [exact Ho|apply _|apply _]. }
  wexec.
  (apply HQ; split; [rearrange|done]).
Qed.

(** A context that is not empty, whose hole is filled and which is put below
    another node. *)
Lemma wp_set_hole par K x y s L L' L'' n (Q : unit → BAVL → Prop) :
  own (mem s) L → K ≠ [] → Block (kcells par K (Some x)) L L' → Focus x n L' L'' →
  (∀ s', own (mem s') (kcells par K y ++ L') → root s' = root s → Q tt s') →
  wp (set_child (above par K) (Some x) y) s Q.
Proof.
  intros Ho HK HB HF HQ. apply (own_block _ _ _ _ Ho) in HB as Ho'.
  destruct K as [|[d p b v o] K]; [done|]. cbn in Ho', HQ |- *.
  eapply wp_set_child_frame; [exact Ho'|apply _| |exact HQ].
  rewrite <-app_assoc in Ho'. eapply own_other_ne; [exact Ho'|apply block_cons, block_here|].
  apply focus_cons, focus_app_r. exact HF.
Qed.

Lemma wp_give_context n x side par K h h' s L L' L'' (Q : unit → BAVL → Prop) :
  own (mem s) L → K ≠ [] → Focus n x L L' → Block (kcells par K h) L' L'' →
  (∀ s', own (mem s') ((n, set_link side (top K h') x) :: kcells (Some n) K h ++ L'') →
     root s' = root s → Q tt s') →
  wp (give_child (Some n) side (top K h')) s Q.
Proof.
  intros Ho HK HF HB HQ.
  assert (top K h' = top K h) as Ht by by destruct K as [|[]]. rewrite Ht in HQ |- *. clear h' Ht.
  unfold give_child. wstep. eapply wp_store; [exact Ho|exact HF|]. intros s1 Ho1 Hr1.
  apply (block_cons _ (n, set_link side (top K h) x)) in HB.
  apply (own_block _ _ _ _ Ho1) in HB. clear Ho Ho1 HF.
  destruct (exists_last HK) as (K0 & [d p b v o] & ->).
  rewrite top_app in *. cbn [top] in *. rewrite kcells_app in HB. cbn in HB. cbn.
  eapply wp_store; [exact HB|apply _|]. intros s2 Ho2 Hr2. apply HQ; [|by rewrite Hr2].
  rewrite kcells_app. norm Ho2. cbn [kcells top above]. rearrange.
Qed.

Ltac wcontext :=
  match goal with
  | H : own (mem ?s) _, Hr : root ?s = _ |- wp (set_child (above (Some _) _) (Some _) _) ?s _ =>
      eapply wp_set_hole; [exact H|assumption|apply _|apply _|fresh_state H Hr]
  | H : own (mem ?s) _, Hr : root ?s = _ |- wp (give_child (Some _) _ (top _ _)) ?s _ =>
      eapply wp_give_context; [exact H|assumption|apply _|apply _|fresh_state H Hr]
  end.

Lemma swap_apart_ok K K2 a m bm vm n b v r s R (Q : unit → BAVL → Prop) :
  K2 ≠ [] →
  at_ s K (T (plug K2 (T a m bm vm E)) n b v r) R →
  (∀ s', at_ s' K (T (plug K2 (T a n bm v E)) m b vm r) R → Q tt s') →
  wp (BAVL_swap_nodes (Some n) (Some m)) s Q.
Proof.
  intros HK2 [Ho Hr] HQ. cbn [cells rootp] in Ho, Hr. rewrite cells_plug, rootp_plug in Ho.
  cbn [cells rootp app] in Ho. unfold BAVL_swap_nodes. do 4 wstep.
  rewrite (bool_decide_eq_false_2 (above (Some n) K2 = Some n)).
  2:{ eapply above_ne; [exact Ho|apply _|apply _|done]. }
  rewrite (bool_decide_eq_false_2 (above None K = Some m)).
  2:{ eapply above_ne; [exact Ho|apply _|apply _|done]. }
  cbn [orb]. unfold swap_apart. repeat first [wstep|wcall|wcontext].
  assert (above (Some n) K2 = above (Some m) K2 ∧ top K2 (Some m) = top K2 (Some n)) as [EA ET]
    by by destruct K2 as [|[]]. rewrite EA, ET in Ho.
  apply HQ. split; [|done]. cbn [cells rootp]. rewrite cells_plug, rootp_plug. rearrange.
Qed.

Lemma replace_subtree_ok K l p b v r c s R (Q : unit → BAVL → Prop) :
  at_ s K (T l p b v r) R → (l = E ∧ c = r) ∨ (r = E ∧ c = l) →
  (∀ s' x, at_ s' K c ((p, x) :: R) → value x = v → Q tt s') →
  wp (BAVL_replace_subtree (Some p) (rootp c)) s Q.
Proof.
  intros [Ho Hr] Hc HQ. cbn in Ho, Hr. unfold BAVL_replace_subtree.
  destruct Hc as [[-> ->] | [-> ->]]; cbn in Ho; wexec;
    (eapply HQ; [split; [rearrange|done]|done]).
Qed.

(** [removed s K l v r p R]: the node [p] is gone from the tree and its cell is one of the others. *)
Definition removed (s : BAVL) (S : list (positive * V)) (p : positive) (v : V) (R : list cell) : Prop :=
  ∃ t x, at_ s [] t ((p, x) :: R) ∧ value x = v ∧ avl t ∧ elements t = S.

Lemma swap_ok K K2 a m bm vm n b v r s R (Q : unit → BAVL → Prop) :
  at_ s K (T (plug K2 (T a m bm vm E)) n b v r) R →
  (∀ s', at_ s' K (T (plug K2 (T a n bm v E)) m b vm r) R → Q tt s') →
  wp (BAVL_swap_nodes (Some n) (Some m)) s Q.
Proof.
  destruct K2 as [|f K2]; [apply swap_connected_ok|by apply swap_apart_ok].
Qed.

Lemma height_plug K t t' : height t = height t' → height (plug K t) = height (plug K t').
Proof.
  revert t t'. induction K as [|[d p b v o] K IH]; intros t t' Ht; [done|].
  cbn. apply IH. destruct d; cbn; lia.
Qed.

Lemma unlink_ok fuel K l p b v r s R :
  at_ s K (T l p b v r) R → l = E ∨ r = E →
  avl (plug K (T l p b v r)) → height (plug K (T l p b v r)) <= 1 + Z.of_nat fuel →
  wp (unlink fuel (Some p)) s (λ _ s',
    removed s' (before K ++ elements l ++ elements r ++ behind K) p v R).
Proof.
  intros Hat Hlr Ha Hh. unfold unlink. wstep. eapply wp_load_at; [exact Hat|].
  pose proof (depth_plug K (T l p b v r)) as Hd. cbn [height] in Hd.
  pose proof (height_nonneg l). pose proof (height_nonneg r).
  apply avl_plug in Ha as [(Hl & Hr & _) Hk]. cbn [link link0 link1 parent].
  assert (∃ c, (l = E ∧ c = r ∨ r = E ∧ c = l) ∧ avl c ∧ height c + 1 = 1 + Z.max (height l) (height r) ∧
    elements c = elements l ++ elements r ∧
    (if nonnull (rootp l) then rootp l else rootp r) = rootp c ∧
    nonnull (rootp l) && nonnull (rootp r) = false)
    as (c & Hc & Hac & Hhc & Hec & -> & ->).
  { destruct Hlr as [-> | ->].
    - exists r. cbn. split_and!; auto; lia.
    - exists l. cbn. rewrite app_nil_r, andb_false_r. split_and!; auto; [lia|]. by destruct l. }
  wstep. wstep. destruct K as [|[d q bq vq o] K]; cbn [above nonnull].
  - eapply replace_subtree_ok; [exact Hat|exact Hc|]. intros s' x Hat' Hx.
    exists c, x. split_and!; [done|done|done|]. cbn. by rewrite app_nil_r.
  - wstep. eapply wp_load_above; [exact Hat|].
    change (Some p) with (rootp (T l p b v r)).
    pose proof (side_ok _ _ _ true _ _ _ _ _ _ Hat) as Hside. cbn [link] in Hside.
    rewrite Hside, eqb_true_r' by done.
    wstep. eapply replace_subtree_ok; [exact Hat|exact Hc|]. intros s' x Hat' Hx.
    eapply rebalance_ok; [|exact Hat'|done|exact Hk|cbn; lia|lia|].
    { cbn [length] in Hd. lia. }
    intros s2 t2 Hat2 Ht2 He2. exists t2, x. split_and!; [done|done|done|].
    rewrite He2, elements_plug, Hec. by rewrite <-!app_assoc.
Qed.

Lemma remove_ok fuel K l p b v r s R :
  at_ s K (T l p b v r) R → avl (plug K (T l p b v r)) → height (plug K (T l p b v r)) <= 1 + Z.of_nat fuel →
  wp (BAVL_Remove fuel (Some p)) s (λ _ s',
    removed s' (before K ++ elements l ++ elements r ++ behind K) p v R).
Proof.
  intros Hat Ha Hh. unfold BAVL_Remove. wstep. eapply wp_load_at; [exact Hat|]. cbn [link link0 link1].
  pose proof (depth_plug K (T l p b v r)) as Hd. cbn [height] in Hd.
  pose proof (height_nonneg r). wstep. unfold when.
  destruct (nonnull (rootp l) && nonnull (rootp r)) eqn:Hb.
  2:{ wstep. apply (unlink_ok _ _ _ _ b); [done| |done|done]. destruct l, r; cbn in Hb; auto. done. }
  zb. wstep. unfold BAVL_subtree_max. wstep. wstep. pose proof Hat as Hatl. apply at_left in Hatl.
  edestruct (descend_ok true l fuel) as (K2 & a & m & bm & vm & e & -> & He & HK2 & Hw); [exact Hatl|by destruct (rootp l)|lia|].
  cbn in He. subst e. eapply wp_mono; [exact Hw|]. intros max s1 [-> ->].
  eapply swap_ok; [exact Hat|]. intros s1 Hat1. apply at_left, at_plug in Hat1.
  rewrite <-plug_app in Hat1. rewrite <-at_plug in Hat1.
  assert (height (plug K2 (T a p bm v E)) = height (plug K2 (T a m bm vm E))) as E1 by by apply height_plug.
  set (t' := T (plug K2 (T a p bm v E)) m b vm r).
  assert (plug (K2 ++ Fr false m b vm r :: K) (T a p bm v E) = plug K t') as Ep by by rewrite plug_app.
  eapply wp_mono; [eapply (unlink_ok _ _ _ _ _ _ _ _ _ Hat1); [by right| |]|]; rewrite ?Ep.
  - rewrite avl_plug in Ha |- *. unfold t'. cbn in Ha |- *. rewrite avl_plug in Ha |- *. by rewrite E1.
  - rewrite (height_plug K t' (T (plug K2 (T a m bm vm E)) p b v r)); [done|]. unfold t'. cbn. by rewrite E1.
  - pose proof (one_side true K2 HK2) as EK. cbn in EK.
    rewrite elements_plug, before_app, behind_app, EK. cbn. rewrite <-!app_assoc. done.
Qed.

(** ** Height *)
Lemma height_pow t : avl t → 2 ^ height t <= (zlen (elements t) + 1) ^ 2.
Proof.
  induction t as [|l IHl p b v r IHr]; [done|]. intros (Hl & Hr & Hb & Hb').
  specialize (IHl Hl). specialize (IHr Hr). pose proof (height_nonneg l). pose proof (height_nonneg r).
  cbn. rewrite zlen_app, zlen_cons.
  set (x := zlen (elements l) + 1) in *. set (y := zlen (elements r) + 1) in *.
  assert (1 <= x ∧ 1 <= y) as [Hx Hy].
  { unfold x, y. pose proof (zlen_nonneg (elements l)). pose proof (zlen_nonneg (elements r)). lia. }
  replace (zlen (elements l) + (1 + zlen (elements r)) + 1) with (x + y) by lia. clearbody x y.
  rewrite Z.pow_add_r by lia. rewrite !Z.pow_2_r in *. change (2 ^ 1) with 2.
  assert (height l = height r ∨ height l = height r + 1 ∨ height r = height l + 1) as [E' | [E' | E']] by lia;
    rewrite E' in *; rewrite ?Z.max_id, ?Z.max_l, ?Z.max_r by lia.
  - nia.
  - rewrite Z.pow_add_r in * by lia. change (2 ^ 1) with 2 in *.
    pose proof (Z.pow_pos_nonneg 2 (height r)). nia.
  - rewrite Z.pow_add_r in * by lia. change (2 ^ 1) with 2 in *.
    pose proof (Z.pow_pos_nonneg 2 (height l)). nia.
Qed.

(** The rounds that a loop may take in a tree with the elements [S]. *)
Definition rounds (S : list (positive * V)) : nat := Z.to_nat (2 * Z.log2 (zlen S + 1)).

Lemma height_rounds t : avl t → height t <= 1 + Z.of_nat (rounds (elements t)).
Proof.
  intros Ha. apply height_pow in Ha. unfold rounds.
  set (n := zlen (elements t) + 1) in *.
  assert (0 < n) by (unfold n; pose proof (zlen_nonneg (elements t)); lia).
  pose proof (Z.log2_nonneg n). rewrite Z2Nat.id by lia.
  destruct (Z.log2_spec n) as [_ Hn]; [done|].
  assert (n ^ 2 < 2 ^ (2 * Z.log2 n + 2)) as Hlt.
  { replace (2 * Z.log2 n + 2) with (Z.succ (Z.log2 n) * 2) by lia. rewrite Z.pow_mul_r by lia.
    apply Z.pow_lt_mono_l; lia. }
  apply (Z.le_lt_trans _ _ _ Ha) in Hlt. apply Z.pow_lt_mono_r_iff in Hlt; [lia|lia|].
  lia.
Qed.

(** ** A user of the tree

    The user calls the operations in any order, inserts nodes that are not
    in the tree, removes those that are, and writes values of nodes only
    while they are not in the tree. *)
Inductive op :=
  | Insert (p : positive)
  | Remove (p : positive)
  | Lookup (v : V)
  | LookupExact (v : V)
  | GetFirst
  | GetLast
  | GetNext (p : positive)
  | GetPrev (p : positive)
  | IsEmpty
  | SetValue (p : positive) (v : V).

Inductive answer := Done | Ptr (p : ptr) | Bool (b : bool) | Inserted (ok : bool) (ref : ptr).

Definition set_value (v : V) (n : @BAVLNode V) : @BAVLNode V :=
  mkNode (parent n) (link0 n) (link1 n) (balance n) v.

Definition exec (fuel : nat) (o : op) : act answer :=
  match o with
  | Insert p => '(ok, ref) ← BAVL_Insert fuel (Some p); mret (Inserted ok ref)
  | Remove p => BAVL_Remove fuel (Some p);; mret Done
  | Lookup v => r ← BAVL_Lookup fuel v; mret (Ptr r)
  | LookupExact v => r ← BAVL_LookupExact fuel v; mret (Ptr r)
  | GetFirst => r ← BAVL_GetFirst fuel; mret (Ptr r)
  | GetLast => r ← BAVL_GetLast fuel; mret (Ptr r)
  | GetNext p => r ← BAVL_GetNext fuel (Some p); mret (Ptr r)
  | GetPrev p => r ← BAVL_GetPrev fuel (Some p); mret (Ptr r)
  | IsEmpty => b ← BAVL_IsEmpty; mret (Bool b)
  | SetValue p v => store (Some p) (set_value v);; mret Done
  end.

(** What the user sees: the nodes in the tree with their values, in order,
    and the values of the other nodes. *)
Record view := mkView { items : list (positive * V); free : gmap positive V }.

Definition permitted (A : view) (o : op) : Prop :=
  match o with
  | Insert p | SetValue p _ => is_Some (free A !! p)
  | Remove p | GetNext p | GetPrev p => p ∈ (items A).*1
  | _ => True
  end.

(** The place of [p] in a sorted list. *)
Fixpoint place (p : positive) (v : V) (S : list (positive * V)) : list (positive * V) :=
  match S with
  | [] => [(p, v)]
  | x :: S' => if comparator x.2 v =? -1 then x :: place p v S' else (p, v) :: S
  end.

Definition effect (A : view) (o : op) (a : answer) : view :=
  match o, a with
  | Insert p, Inserted true _ =>
      match free A !! p with
      | Some v => mkView (place p v (items A)) (delete p (free A))
      | None => A
      end
  | Remove p, _ =>
      match (list_to_map (items A) : gmap positive V) !! p with
      | Some v => mkView (filter (λ x, x.1 ≠ p) (items A)) (<[p := v]> (free A))
      | None => A
      end
  | SetValue p v, _ => mkView (items A) (<[p := v]> (free A))
  | _, _ => A
  end.

(** The node with a value equal to [v]. *)
Definition equal_at (A : view) (v : V) (q : positive) : Prop :=
  ∃ w, (q, w) ∈ items A ∧ comparator v w = 0.
Definition absent (A : view) (v : V) : Prop := Forall (λ x, comparator v x.2 ≠ 0) (items A).
(** [r] is next to the place of [v], which is not in the tree. *)
Definition close_to (A : view) (v : V) (r : ptr) : Prop :=
  ∃ S1 S2, items A = S1 ++ S2 ∧ less S1 v ∧ greater S2 v ∧ neighbour S1 S2 r.

Definition answer_ok (A : view) (o : op) (a : answer) : Prop :=
  match o with
  | Insert p => ∃ v r, free A !! p = Some v ∧
      ((a = Inserted true r ∧ close_to A v r) ∨ (∃ q, a = Inserted false (Some q) ∧ equal_at A v q))
  | Lookup v => ∃ r, a = Ptr r ∧ (close_to A v r ∨ ∃ q, r = Some q ∧ equal_at A v q)
  | LookupExact v => (a = Ptr None ∧ absent A v) ∨ (∃ q, a = Ptr (Some q) ∧ equal_at A v q)
  | GetFirst => a = Ptr (firstp (items A))
  | GetLast => a = Ptr (lastp (items A))
  | GetNext p => ∃ S1 v S2, items A = S1 ++ (p, v) :: S2 ∧ a = Ptr (firstp S2)
  | GetPrev p => ∃ S1 v S2, items A = S1 ++ (p, v) :: S2 ∧ a = Ptr (lastp S1)
  | IsEmpty => a = Bool (bool_decide (items A = []))
  | Remove _ | SetValue _ _ => a = Done
  end.

(** The states a user can bring about, with what the user sees. *)
Inductive reachable : @BAVL V → view → Prop :=
  | reach_init nodes : reachable (BAVL_Init nodes) (mkView [] (value <$> nodes))
  | reach_step s A o a s' :
      reachable s A → permitted A o → exec (rounds (items A)) o s = Some (a, s', []) →
      reachable s' (effect A o a).

#[global] Instance permitted_dec A o : Decision (permitted A o).
Proof. destruct o; cbn; apply _. Defined.

(** Runs a list of operations. *)
Fixpoint run (ops : list op) (s : @BAVL V) (A : view) : option (@BAVL V * view) :=
  match ops with
  | [] => Some (s, A)
  | o :: ops =>
      if decide (permitted A o) then
        match exec (rounds (items A)) o s with
        | Some (a, s', _) => run ops s' (effect A o a)
        | None => None
        end
      else None
  end.

Lemma run_reachable ops s A s' A' : reachable s A → run ops s A = Some (s', A') → reachable s' A'.
Proof.
  revert s A. induction ops as [|o ops IH]; intros s A HA; cbn; [by intros [= <- <-]|].
  destruct (decide (permitted A o)) as [Ho|]; [|done].
  destruct (exec (rounds (items A)) o s) as [[[a s2] [|[]]]|] eqn:He; [|done].
  apply IH. by eapply reach_step.
Qed.

(** The memory is that of a balanced, ordered tree. *)
Definition rep (s : @BAVL V) (A : view) : Prop :=
  ∃ t R, at_ s [] t R ∧ avl t ∧ ordered (elements t) ∧ items A = elements t ∧
    free A = value <$> (list_to_map R : gmap positive BAVLNode).

Lemma cells_elements par t : (cells par t).*1 ≡ₚ (elements t).*1.
Proof.
  revert par. induction t as [|l IHl p b v r IHr]; intros par; cbn; [done|].
  rewrite !fmap_app. cbn. rewrite IHl, IHr. by rewrite Permutation_middle.
Qed.

Lemma at_nodup s t R : at_ s [] t R → NoDup ((elements t).*1 ++ R.*1).
Proof. intros [[Hn _] _]. cbn in Hn. by rewrite !fmap_app, cells_elements in Hn. Qed.

(** Every node in the tree has its context. *)
Lemma node_context t p : p ∈ (elements t).*1 → ∃ K l b v r, t = plug K (T l p b v r).
Proof.
  induction t as [|l IHl q b v r IHr]; cbn; [set_solver|].
  rewrite fmap_app. cbn. intros [H' | [-> | H']%elem_of_cons]%elem_of_app.
  - destruct (IHl H') as (K & l' & b' & v' & r' & ->). exists (K ++ [Fr false q b v r]), l', b', v', r'.
    by rewrite plug_app.
  - by exists [], l, b, v, r.
  - destruct (IHr H') as (K & l' & b' & v' & r' & ->). exists (K ++ [Fr true q b v l]), l', b', v', r'.
    by rewrite plug_app.
Qed.

Lemma free_focus s t R p v :
  at_ s [] t R → (value <$> (list_to_map R : gmap positive BAVLNode)) !! p = Some v →
  ∃ x R', Focus p x R R' ∧ value x = v ∧
    delete p (value <$> (list_to_map R : gmap positive BAVLNode)) = value <$> (list_to_map R' : gmap positive BAVLNode).
Proof.
  intros Hat Hp. apply at_nodup, NoDup_app in Hat as (_ & _ & Hn).
  rewrite lookup_fmap in Hp. apply fmap_Some in Hp as (x & Hx & ->).
  apply elem_of_list_to_map_2, elem_of_Permutation in Hx as (R' & HR).
  exists x, R'. split_and!; [done|done|]. rewrite (list_to_map_proper _ _ Hn HR). cbn.
  rewrite HR in Hn. cbn in Hn. apply NoDup_cons in Hn as [Hn _].
  rewrite fmap_insert, delete_insert_id; [done|]. by rewrite lookup_fmap, not_elem_of_list_to_map_1.
Qed.

Lemma place_spec p v S1 S2 : less S1 v → greater S2 v → place p v (S1 ++ S2) = S1 ++ (p, v) :: S2.
Proof.
  intros HL HG. induction HL as [|x S1 Hx HL IH]; cbn.
  - destruct HG as [|y S2 Hy HG]; cbn; [done|]. rewrite (cmp_flip comparator v), Hy. done.
  - by rewrite Hx, IH.
Qed.

Lemma insert_ordered S1 S2 p v : ordered (S1 ++ S2) → less S1 v → greater S2 v → ordered (S1 ++ (p, v) :: S2).
Proof. intros (H1 & H2 & _)%ordered_app HL HG. by apply ordered_node. Qed.

Lemma remove_ordered S1 S2 p v : ordered (S1 ++ (p, v) :: S2) → ordered (S1 ++ S2).
Proof.
  intros (H1 & H2 & H3)%ordered_app. inversion H2; subst. apply ordered_app.
  split_and!; [done|done|]. intros x y Hx Hy. apply H3; [done|by right].
Qed.

Lemma rep_insert s A p :
  rep s A → permitted A (Insert p) →
  wp (exec (rounds (items A)) (Insert p)) s (λ a s', answer_ok A (Insert p) a ∧ rep s' (effect A (Insert p) a)).
Proof.
  intros (t & R & Hat & Ha & Hord & HS & HF) [v Hv]. cbn [exec]. rewrite HF in Hv.
  destruct (free_focus _ _ _ _ _ Hat Hv) as (x & R' & HR & <- & Hdel). wstep. rewrite HS.
  eapply wp_mono; [eapply insert_ok; [exact Hat|done|done|exact HR|by apply height_rounds]|].
  intros [ok ref] s' [(Hok & -> & q & w & Hq & Hw & Href) | (Hok & t' & Hat' & Ha' & S1 & S2 & HE & HL & HG & HE' & Hnb)];
    cbn [fst snd] in *; subst; wstep.
  - split; [|by exists t, R]. exists (value x), None. split; [by rewrite HF|]. right. exists q.
    split; [done|]. exists w. by rewrite HS.
  - split.
    + exists (value x), ref. split; [by rewrite HF|]. left. split; [done|]. exists S1, S2. by rewrite HS.
    + cbn. rewrite HF, Hv, HS, HE, place_spec by done.
      exists t', R'. split_and!; [done|done| |by rewrite HE'|done].
      rewrite HE'. rewrite HE in Hord. by apply insert_ordered.
Qed.

Lemma remove_view S1 p v S2 : NoDup (S1 ++ (p, v) :: S2).*1 →
  (list_to_map (S1 ++ (p, v) :: S2) : gmap positive V) !! p = Some v ∧
  filter (λ x, x.1 ≠ p) (S1 ++ (p, v) :: S2) = S1 ++ S2.
Proof.
  intros Hn. split.
  - apply elem_of_list_to_map_1; [done|]. set_solver.
  - rewrite fmap_app in Hn. cbn in Hn. apply NoDup_app in Hn as (_ & Hd & Hn).
    apply NoDup_cons in Hn as [Hp _]. rewrite filter_app, filter_cons_False by (cbn; tauto).
    assert (∀ S : list (positive * V), p ∉ S.*1 → filter (λ x, x.1 ≠ p) S = S) as Hid.
    { intros S HS. induction S as [|y S IH]; [done|]. cbn in HS. apply not_elem_of_cons in HS as [? ?].
      rewrite filter_cons_True by done. by rewrite IH. }
    rewrite !Hid; [done|done|]. intros Hp'. apply (Hd p Hp'). by left.
Qed.

Lemma rep_remove s A p :
  rep s A → permitted A (Remove p) →
  wp (exec (rounds (items A)) (Remove p)) s (λ a s', answer_ok A (Remove p) a ∧ rep s' (effect A (Remove p) a)).
Proof.
  intros (t & R & Hat & Ha & Hord & HS & HF) Hp. cbn in Hp. rewrite HS in Hp |- *.
  pose proof (at_nodup _ _ _ Hat) as (Hn & _ & _)%NoDup_app.
  pose proof (height_rounds _ Ha) as Hh.
  apply node_context in Hp as (K & l & b & v & r & ->). rewrite <-at_plug in Hat. cbn [exec]. wstep.
  eapply wp_mono; [eapply remove_ok; [exact Hat|done|exact Hh]|].
  intros u s' (t' & x & Hat' & Hx & Ha' & He). wstep. split; [done|].
  rewrite elements_plug in HS, Hord, Hn. cbn [elements] in HS, Hord, Hn.
  rewrite <-!app_assoc in HS, Hord, Hn. cbn [app] in HS, Hord, Hn.
  rewrite app_assoc in HS, Hord, Hn. destruct (remove_view _ _ _ _ Hn) as [Hv Hfil].
  cbn. rewrite HS, Hv, Hfil, HF. exists t', ((p, x) :: R). rewrite He.
  split_and!; [done|done| | |].
  - rewrite (app_assoc (before K)). by eapply remove_ordered.
  - cbn. by rewrite <-!app_assoc.
  - cbn. by rewrite fmap_insert, Hx.
Qed.

Lemma locate_view v t z : locate v [] t = z → ordered (elements t) →
  (rootp z.2 = None ∧ ∃ S1 S2, elements t = S1 ++ S2 ∧ less S1 v ∧ greater S2 v ∧ neighbour S1 S2 (near_of z)) ∨
  (∃ q w, exact_of z = Some q ∧ near_of z = Some q ∧ (q, w) ∈ elements t ∧ comparator v w = 0).
Proof.
  destruct z as [K' t']. intros Hloc Hord.
  apply locate_ok in Hloc as (Hp & HL & HG & Ht); [|done|by constructor|by constructor].
  cbn [plug] in Hp. rewrite <-Hp, elements_plug. destruct t' as [|l q b w r].
  - left. split; [done|]. exists (before K'), (behind K'). split_and!; [done|done|done|].
    apply neighbour_above.
  - right. exists q, w. split_and!; [done|done|set_solver|done].
Qed.

Lemma near_absent v S1 S2 : less S1 v → greater S2 v → Forall (λ x, comparator v x.2 ≠ 0) (S1 ++ S2).
Proof.
  intros HL HG. apply Forall_app. split; (eapply Forall_impl; [eassumption|]); cbn.
  - intros x Hx. rewrite (cmp_flip comparator x.2), Hx. lia.
  - intros x Hx. rewrite Hx. lia.
Qed.

Lemma rep_search s A v :
  rep s A →
  wp (exec (rounds (items A)) (Lookup v)) s (λ a s', s' = s ∧ answer_ok A (Lookup v) a) ∧
  wp (exec (rounds (items A)) (LookupExact v)) s (λ a s', s' = s ∧ answer_ok A (LookupExact v) a).
Proof.
  intros (t & R & Hat & Ha & Hord & HS & HF). rewrite HS. pose proof (height_rounds _ Ha) as Hh.
  pose proof (locate_view v _ _ eq_refl Hord) as Hloc.
  assert (root s = rootp t) as Hr by apply Hat.
  split; cbn [exec]; unfold BAVL_Lookup, BAVL_LookupExact; wstep; wstep; wstep; rewrite Hr.
  all: destruct t as [|l q b w r]; cbn [rootp nonnull negb].
  all: try change (Some q) with (rootp (T l q b w r)).
  1,3: wstep; wstep; split; [done|].
  - exists None. split; [done|]. left. exists [], []. rewrite HS. by repeat constructor.
  - left. split; [done|]. unfold absent. rewrite HS. by constructor.
  - eapply wp_mono; [eapply lookup_from_ok; [exact Hat|done|exact Hh]|].
    intros a s' [-> ->]. wstep. split; [done|]. cbn [answer_ok]. eexists. split; [done|].
    destruct Hloc as [(_ & Hc) | (q' & w' & _ & Hq & Hin & Hw)]; [left|right].
    + unfold close_to. by rewrite HS.
    + exists q'. split; [done|]. exists w'. by rewrite HS.
  - eapply wp_mono; [eapply lookup_exact_from_ok; [exact Hat|done|exact Hh]|].
    intros a s' [-> ->]. wstep. split; [done|]. cbn [answer_ok].
    destruct Hloc as [(Hn & S1 & S2 & HE & HL & HG & _) | (q' & w' & Hq & _ & Hin & Hw)]; [left|right].
    + unfold exact_of. rewrite Hn. split; [done|]. unfold absent. rewrite HS, HE. by apply near_absent.
    + exists q'. rewrite Hq. split; [done|]. exists w'. by rewrite HS.
Qed.

Lemma rep_ends s A :
  rep s A →
  wp (exec (rounds (items A)) GetFirst) s (λ a s', s' = s ∧ answer_ok A GetFirst a) ∧
  wp (exec (rounds (items A)) GetLast) s (λ a s', s' = s ∧ answer_ok A GetLast a) ∧
  wp (exec (rounds (items A)) IsEmpty) s (λ a s', s' = s ∧ answer_ok A IsEmpty a).
Proof.
  intros (t & R & Hat & Ha & Hord & HS & HF). cbn [answer_ok]. rewrite HS.
  pose proof (height_rounds _ Ha) as Hh. assert (root s = rootp t) as Hr by apply Hat.
  split_and!; cbn [exec]; unfold BAVL_GetFirst, BAVL_GetLast, BAVL_IsEmpty; wstep; wstep; wstep; rewrite Hr.
  all: destruct t as [|l q b w r]; cbn [rootp nonnull negb].
  all: try change (Some q) with (rootp (T l q b w r)).
  1,3,5: by repeat wstep.
  - eapply wp_mono; [eapply descend_end; [exact Hat|done|exact Hh]|]. intros a s' [-> ->]. by wstep.
  - eapply wp_mono; [eapply descend_end; [exact Hat|done|exact Hh]|]. intros a s' [-> ->]. by wstep.
  - wstep. wstep. split; [done|]. rewrite bool_decide_eq_false_2; [done|]. cbn. by destruct (elements l).
Qed.

Lemma rep_neighbours s A p :
  rep s A → p ∈ (items A).*1 →
  wp (exec (rounds (items A)) (GetNext p)) s (λ a s', s' = s ∧ answer_ok A (GetNext p) a) ∧
  wp (exec (rounds (items A)) (GetPrev p)) s (λ a s', s' = s ∧ answer_ok A (GetPrev p) a).
Proof.
  intros (t & R & Hat & Ha & Hord & HS & HF) Hp. cbn [answer_ok]. rewrite HS in Hp |- *.
  pose proof (height_rounds _ Ha) as Hh.
  apply node_context in Hp as (K & l & b & v & r & ->). rewrite <-at_plug in Hat.
  destruct (next_ok _ _ _ _ _ _ _ _ _ Hat Hh) as [Hn Hpv].
  assert (elements (plug K (T l p b v r)) = (before K ++ elements l) ++ (p, v) :: elements r ++ behind K) as HE.
  { rewrite elements_plug. cbn. by rewrite <-!app_assoc. }
  split; cbn [exec]; wstep.
  - eapply wp_mono; [exact Hn|]. intros a s' [-> ->]. wstep. split; [done|]. by eexists _, _, _.
  - eapply wp_mono; [exact Hpv|]. intros a s' [-> ->]. wstep. split; [done|]. by eexists _, _, _.
Qed.

Lemma rep_set_value s A p v :
  rep s A → permitted A (SetValue p v) →
  wp (exec (rounds (items A)) (SetValue p v)) s
    (λ a s', answer_ok A (SetValue p v) a ∧ rep s' (effect A (SetValue p v) a)).
Proof.
  intros (t & R & Hat & Ha & Hord & HS & HF) [w Hw]. cbn [exec]. rewrite HF in Hw.
  destruct (free_focus _ _ _ _ _ Hat Hw) as (x & R' & HR & _ & Hdel).
  destruct Hat as [Ho Hr]. cbn in Ho, Hr. wstep. wstep. wstep. split; [done|].
  exists t, ((p, set_value v x) :: R'). split_and!; [|done|done|done|].
  - split; [|done]. cbn. rearrange.
  - cbn. rewrite fmap_insert, HF, <-Hdel. cbn. by rewrite insert_delete_eq.
Qed.

Lemma rep_init nodes : rep (BAVL_Init nodes) (mkView [] (value <$> nodes)).
Proof.
  exists E, (map_to_list nodes). split_and!; [|done|by constructor|done|by rewrite list_to_map_to_list].
  split; [|done]. cbn. split; [|by rewrite list_to_map_to_list]. apply NoDup_fst_map_to_list.
Qed.

Lemma rep_step s A o :
  rep s A → permitted A o →
  wp (exec (rounds (items A)) o) s (λ a s', answer_ok A o a ∧ rep s' (effect A o a)).
Proof.
  intros HA Ho.
  assert (∀ a, (∀ s', s' = s ∧ answer_ok A o a → effect A o a = A → answer_ok A o a ∧ rep s' (effect A o a)))
    as Hread by (intros a s' [-> ?] ->; done).
  destruct o as [p|p|v|v| | |p|p| |p v].
  - by apply rep_insert.
  - by apply rep_remove.
  - eapply wp_mono; [by apply rep_search|]. intros a s' H. by apply Hread.
  - eapply wp_mono; [by apply rep_search|]. intros a s' H. by apply Hread.
  - eapply wp_mono; [by apply rep_ends|]. intros a s' H. by apply Hread.
  - eapply wp_mono; [by apply rep_ends|]. intros a s' H. by apply Hread.
  - eapply wp_mono; [by apply rep_neighbours|]. intros a s' H. by apply Hread.
  - eapply wp_mono; [by apply rep_neighbours|]. intros a s' H. by apply Hread.
  - eapply wp_mono; [by apply rep_ends|]. intros a s' H. by apply Hread.
  - by apply rep_set_value.
Qed.

Lemma wp_run {A} (m : act A) s Q : wp m s Q → ∃ a s', m s = Some (a, s', []) ∧ Q a s'.
Proof.
  intros (a & s' & tr & Hm & HQ)%runs_inv. destruct tr as [|[]]. eauto.
Qed.

Lemma reachable_rep s A : reachable s A → rep s A.
Proof.
  induction 1 as [nodes|s A o a s' _ HA Ho He]; [apply rep_init|].
  destruct (wp_run _ _ _ (rep_step _ _ _ HA Ho)) as (a' & s2 & He' & _ & HA'). congruence.
Qed.

(** C5: a search tree is a sorted list.  After any sequence of operations
    with which a user keeps to the rules (insert what is not in the tree,
    remove what is), every operation ends with the answer it has on the list
    of inserted nodes, sorted by the comparator: insertion succeeds exactly if
    no value is equal and then puts the node at its place, removal takes out
    that node only, the searches return the equal node or a neighbour of its
    place, [*ref] included, the other functions the ends of the list and the
    neighbours in it.  No pointer that is followed is [NULL] or dangling, no
    assertion fails, and every loop and recursion takes at most
    [2 * log2 (n + 1)] rounds with [n] nodes in the tree. *)
Theorem avl_refines s A o :
  reachable s A → permitted A o →
  ordered (items A) ∧
  ∃ a s', exec (rounds (items A)) o s = Some (a, s', []) ∧ answer_ok A o a.
Proof.
  intros HA%reachable_rep Ho. split.
  - destruct HA as (t & R & _ & _ & Hord & -> & _). done.
  - destruct (wp_run _ _ _ (rep_step _ _ _ HA Ho)) as (a & s' & He & Ha & _). eauto.
Qed.

(** in every state that a user can bring about the self-check of the
    tree, [BAVL_Verify], passes and changes nothing: parent pointers, order,
    balance factors and heights are right.  No node is in the tree twice, and
    none is both in the tree and outside. *)
Lemma avl_checked s A :
  reachable s A →
  BAVL_Verify (rounds (items A)) s = Some (tt, s, []) ∧
  NoDup (items A).*1 ∧ ∀ p, p ∈ (items A).*1 → free A !! p = None.
Proof.
  intros (t & R & Hat & Ha & Hord & -> & ->)%reachable_rep.
  pose proof (at_nodup _ _ _ Hat) as (Hn & Hd & HR)%NoDup_app. split_and!; [|done|].
  - assert (wp (BAVL_Verify (rounds (elements t))) s (λ _ s', s' = s)) as Hw.
    { pose proof (height_rounds _ Ha) as Hh. assert (root s = rootp t) as Hr by apply Hat.
      unfold BAVL_Verify. wstep. wstep. rewrite Hr. unfold when.
      destruct t as [|l p b v r]; cbn [rootp nonnull]; [by wstep|]. wstep. eapply wp_load_at; [exact Hat|]. wstep. wstep. wstep.
      eapply wp_mono; [apply (assert_recurser_ok (T l p b v r) _ _ _ _ Hat); done|].
      intros h s' [-> _]. by wstep. }
    by destruct (wp_run _ _ _ Hw) as ([] & s' & He & ->).
  - intros p Hp. rewrite lookup_fmap. apply fmap_None, not_elem_of_list_to_map_1. by apply Hd.
Qed.

End Order.

(** ** Comparators

    Numbers, pairs in lexicographic order, addresses. *)
#[export] Instance B_COMPARE_comparator : Comparator B_COMPARE.
Proof.
  split.
  - intros a b. bcmp a b; tauto.
  - intros a b. bcmp a b; bcmp b a; lia.
  - intros a b c. bcmp a b; bcmp b c; bcmp a c; lia.
  - intros a b c. bcmp a b; try lia. by subst.
Qed.

Lemma cmp_eq_r {V} (c : V → V → Z) `{!Comparator c} a b x : c a b = 0 → c x a = c x b.
Proof. intros H. rewrite (cmp_flip c a x), (cmp_flip c b x). by rewrite (cmp_eq c a b x H). Qed.

Definition lex {X Y} (c1 : X → X → Z) (c2 : Y → Y → Z) (x y : X * Y) : Z :=
  let r := c1 x.1 y.1 in if negb (r =? 0) then r else c2 x.2 y.2.

#[export] Instance lex_comparator {X Y} (c1 : X → X → Z) (c2 : Y → Y → Z)
  `{!Comparator c1} `{!Comparator c2} : Comparator (lex c1 c2).
Proof.
  split; unfold lex; cbn zeta.
  - intros a b. case_if; apply cmp_range; done.
  - intros a b. rewrite (cmp_flip c1 a.1 b.1), (cmp_flip c2 a.2 b.2). repeat case_if; lia.
  - intros a b c. destruct (c1 a.1 b.1 =? 0) eqn:E1, (c1 b.1 c.1 =? 0) eqn:E2; zb; cbn [negb]; intros H1 H2.
    + rewrite (cmp_eq c1 _ _ c.1 E1), E2. cbn. by eapply cmp_lt_trans.
    + rewrite (cmp_eq c1 _ _ c.1 E1), H2. done.
    + rewrite <-(cmp_eq_r c1 _ _ a.1 E2), H1. done.
    + rewrite (cmp_lt_trans c1 _ _ _ H1 H2). done.
  - intros a b c. case_if; [lia|]. intros H. by rewrite (cmp_eq c1 _ _ c.1 Hif), (cmp_eq c2 _ _ c.2 H).
Qed.

Lemma comap_comparator {X Y} (c : Y → Y → Z) (f : X → Y) `{!Comparator c} : Comparator (λ x y, c (f x) (f y)).
Proof.
  split; intros *; [apply cmp_range|apply cmp_flip|apply (cmp_lt_trans c)|apply (cmp_eq c)]; done.
Qed.

(** Addresses as the tree of the UDP gateway client compares them. *)
#[export] Instance baddr_comparator :
  Comparator (λ a b : {a : BAddr | baddr_ok a}, BAddr_CompareOrder (`a) (`b)).
Proof.
  assert (∀ a b : {a : BAddr | baddr_ok a}, BAddr_CompareOrder (`a) (`b) = memcmp (baddr_key (`a)) (baddr_key (`b))) as Hk.
  { intros [a Ha] [b Hb]. by apply compare_order_key. }
  split.
  - intros a b. rewrite Hk. apply memcmp_sign.
  - intros a b. rewrite !Hk. apply memcmp_swap.
  - intros [a Ha] [b Hb] [c Hc]. rewrite !Hk. cbn. intros H1 H2.
    assert (memcmp (baddr_key a) (baddr_key c) < 0) by (apply (key_trans a b c); (done || lia)).
    destruct (memcmp_sign (baddr_key a) (baddr_key c)); lia.
  - intros [a Ha] [b Hb] [c Hc]. rewrite !Hk. cbn. intros H. apply key_zero in H; [by subst|done|done].
Qed.

(** ** Example

    Seven nodes are inserted in ascending order, the root is removed. *)
Definition seven : gmap positive (@BAVLNode Z) :=
  list_to_map ((λ i, (i, mkNode None None None 0 (10 * Zpos i))) <$> [1; 2; 3; 4; 5; 6; 7]%positive).
Definition seven_ops : list (@op Z) := ((λ i, Insert i) <$> [1; 2; 3; 4; 5; 6; 7]%positive) ++ [Remove 4%positive].
Definition seven_run : option (@BAVL Z * @view Z) :=
  run B_COMPARE seven_ops (BAVL_Init seven) (mkView [] (value <$> seven)).

Lemma seven_reachable s A : seven_run = Some (s, A) → reachable B_COMPARE s A.
Proof. apply run_reachable. apply reach_init. Qed.

Lemma avl_refines_witness : match seven_run with
  | Some (s, A) => (items A).*1 = [1; 2; 3; 5; 6; 7]%positive ∧
      ∃ a s', exec B_COMPARE (rounds (items A)) (Insert 4%positive) s = Some (a, s', []) ∧
        answer_ok B_COMPARE A (Insert 4%positive) a
  | None => False
  end.
Proof.
  destruct seven_run as [[s A]|] eqn:HE; [|vm_compute in HE; discriminate].
  split; [vm_compute in HE; by injection HE as _ <-|].
  apply (avl_refines B_COMPARE s A); [by apply seven_reachable|].
  vm_compute in HE. injection HE as _ <-. vm_compute. by eexists.
Defined.

Lemma avl_checked_witness : match seven_run with
  | Some (s, A) => root s = Some 3%positive ∧ BAVL_Verify B_COMPARE (rounds (items A)) s = Some (tt, s, [])
  | None => False
  end.
Proof.
  destruct seven_run as [[s A]|] eqn:HE; [|vm_compute in HE; discriminate].
  split; [vm_compute in HE; by injection HE as <- _|].
  apply (avl_checked B_COMPARE s A). by apply seven_reachable.
Defined.

(** The self-check compares a node with its children only: it also passes for
    a memory that is no search tree, here with 15 left of the root 10. *)
Lemma verify_local :
  BAVL_Verify B_COMPARE 2
    (mkTree (list_to_map [(1%positive, mkNode None (Some 2%positive) (Some 4%positive) (-1) 10);
                          (2%positive, mkNode (Some 1%positive) None (Some 3%positive) 1 5);
                          (3%positive, mkNode (Some 2%positive) None None 0 15);
                          (4%positive, mkNode (Some 1%positive) None None 0 20)])
            (Some 1%positive)) ≠ None.
Proof. by vm_compute. Qed.

End Avl.
