(* ===== verification/SocksClient.v ===== *)
(** * SOCKS5 client ([socksclient/BSocksClient.c], [misc/socks_proto.h])

    Opens a connection to a SOCKS server and asks it to connect to a
    destination.  The handlers are those of the source, in its state machine;
    what they call is an effect: sending from the buffer, receiving into the
    buffer, reporting to the user.  Memory from [BRealloc], the outcome of
    [BConnection_Init] and of the connector, and the pieces in which the
    server's bytes arrive are given by the environment. *)

From S2P Require Import Prelude Net.

Definition SOCKS_VERSION : Z := 5.
Definition SOCKS_METHOD_NO_AUTHENTICATION_REQUIRED : Z := 0.
Definition SOCKS_METHOD_USERNAME_PASSWORD : Z := 2.
Definition SOCKS_CMD_CONNECT : Z := 1.
Definition SOCKS_ATYP_IPV4 : Z := 1.
Definition SOCKS_ATYP_IPV6 : Z := 4.
Definition SOCKS_REP_SUCCEEDED : Z := 0.

(** Sizes of [struct socks_client_hello_header], [socks_client_hello_method],
    [socks_server_hello], [socks_request_header], [socks_reply_header],
    [socks_addr_ipv4] and [socks_addr_ipv6]. *)
Definition sizeof_client_hello_header : Z := 2.
Definition sizeof_client_hello_method : Z := 1.
Definition sizeof_server_hello : Z := 2.
Definition sizeof_request_header : Z := 4.
Definition sizeof_reply_header : Z := 4.
Definition sizeof_addr_ipv4 : Z := 6.
Definition sizeof_addr_ipv6 : Z := 18.

(** [struct BSocksClient_auth_info] *)
Inductive BSocksClient_auth_info :=
  | BSocksClient_auth_none
  | BSocksClient_auth_password (username password : list Z).

Definition auth_type (a : BSocksClient_auth_info) : Z :=
  match a with
  | BSocksClient_auth_none => SOCKS_METHOD_NO_AUTHENTICATION_REQUIRED
  | BSocksClient_auth_password _ _ => SOCKS_METHOD_USERNAME_PASSWORD
  end.

Inductive state_t :=
  | STATE_CONNECTING | STATE_SENDING_HELLO | STATE_SENT_HELLO
  | STATE_SENDING_PASSWORD | STATE_SENT_PASSWORD
  | STATE_SENDING_REQUEST | STATE_SENT_REQUEST | STATE_RECEIVED_REPLY_HEADER | STATE_UP.

#[export] Instance state_eq_dec : EqDecision state_t.
Proof. solve_decision. Defined.

(** What is initialised: the connector, the connection, and the interfaces on
    it. *)
Record resources := mkRes { r_connector : bool; r_con : bool; r_control : bool; r_up : bool }.

Record BSocksClient := mkClient {
  auth_info : list BSocksClient_auth_info;
  dest_addr : BAddr;
  state : state_t;
  buffer : option (list Z);
  recv_dest : Z;
  recv_len : Z;
  recv_total : Z;
  res : resources
}.

Inductive event := EVENT_ERROR | EVENT_UP | EVENT_ERROR_CLOSED.

(** [Send len]: [len] bytes from the start of the buffer; [Recv off len]: up
    to [len] bytes to offset [off] of the buffer. *)
Inductive eff := Send (len : Z) | Recv (off len : Z) | Handler (e : event).

Definition SM := M BSocksClient eff.

Definition upd_state (s : state_t) (o : BSocksClient) : BSocksClient :=
  mkClient (auth_info o) (dest_addr o) s (buffer o) (recv_dest o) (recv_len o) (recv_total o) (res o).
Definition upd_buffer (b : option (list Z)) (o : BSocksClient) : BSocksClient :=
  mkClient (auth_info o) (dest_addr o) (state o) b (recv_dest o) (recv_len o) (recv_total o) (res o).
Definition upd_recv (dest len total : Z) (o : BSocksClient) : BSocksClient :=
  mkClient (auth_info o) (dest_addr o) (state o) (buffer o) dest len total (res o).
Definition upd_res (r : resources) (o : BSocksClient) : BSocksClient :=
  mkClient (auth_info o) (dest_addr o) (state o) (buffer o) (recv_dest o) (recv_len o) (recv_total o) r.

Definition set_state (s : state_t) : SM unit := modify (upd_state s).
Definition set_buffer (b : option (list Z)) : SM unit := modify (upd_buffer b).
Definition set_recv (dest len total : Z) : SM unit := modify (upd_recv dest len total).
Definition set_res (r : resources) : SM unit := modify (upd_res r).

(** [memcpy] into the buffer, which must be inside. *)
Definition write_buffer (off : Z) (d : list Z) : SM unit :=
  o ← get;
  match buffer o with
  | None => ASSERT false
  | Some b => ASSERT ((0 <=? off) && (off + zlen d <=? zlen b));; set_buffer (Some (blit off d b))
  end.

Definition report_error (e : event) : SM unit := emit (Handler e).

Definition init_con : SM unit :=
  o ← get;
  ASSERT (negb (r_con (res o)));;
  set_res (mkRes (r_connector (res o)) true false false).
Definition free_con : SM unit :=
  o ← get;
  ASSERT (r_con (res o) && negb (r_control (res o)) && negb (r_up (res o)));;
  set_res (mkRes (r_connector (res o)) false false false).
Definition init_control_io : SM unit :=
  o ← get;
  ASSERT (r_con (res o) && negb (r_control (res o)) && negb (r_up (res o)));;
  set_res (mkRes (r_connector (res o)) true true false).
Definition free_control_io : SM unit :=
  o ← get;
  ASSERT (r_control (res o));;
  set_res (mkRes (r_connector (res o)) (r_con (res o)) false (r_up (res o))).
Definition init_up_io : SM unit :=
  o ← get;
  ASSERT (r_con (res o) && negb (r_control (res o)) && negb (r_up (res o)));;
  set_res (mkRes (r_connector (res o)) true false true).
Definition free_up_io : SM unit :=
  o ← get;
  ASSERT (r_up (res o));;
  set_res (mkRes (r_connector (res o)) (r_con (res o)) (r_control (res o)) false).

(** [BRealloc]: the old contents as far as they fit in the new memory. *)
Definition realloc (old : option (list Z)) (fresh : list Z) : list Z :=
  match old with
  | None => fresh
  | Some b => blit 0 (slice 0 (Z.min (zlen b) (zlen fresh)) b) fresh
  end.

Definition do_receive : SM unit :=
  o ← get;
  ASSERT (recv_len o <? recv_total o);;
  emit (Recv (recv_dest o + recv_len o) (recv_total o - recv_len o)).

Definition start_receive (dest total : Z) : SM unit :=
  ASSERT (0 <? total);;
  set_recv dest 0 total;;
  do_receive.

(** The loop over [auth_info]: the first entry of the method. *)
Fixpoint find_auth (l : list BSocksClient_auth_info) (method : Z) : option BSocksClient_auth_info :=
  match l with
  | [] => None
  | a :: l' => if auth_type a =? method then Some a else find_auth l' method
  end.

Fixpoint write_methods (i : Z) (l : list BSocksClient_auth_info) : SM unit :=
  match l with
  | [] => mret tt
  | a :: l' =>
      write_buffer (sizeof_client_hello_header + i * sizeof_client_hello_method) [u8 (auth_type a)];;
      write_methods (i + 1) l'
  end.

(** The hello message of [connector_handler]. *)
Definition write_hello : SM unit :=
  o ← get;
  write_buffer 0 [SOCKS_VERSION; u8 (zlen (auth_info o))];;
  write_methods 0 (auth_info o).

(** The password packet of [recv_handler_done]. *)
Definition write_password (u p : list Z) : SM unit :=
  write_buffer 0 [1];;
  write_buffer 1 [u8 (zlen u)];;
  write_buffer 2 u;;
  write_buffer (2 + zlen u) [u8 (zlen p)];;
  write_buffer (2 + zlen u + 1) p.

Definition connection_handler (event_recvclosed : bool) : SM unit :=
  o ← get;
  ASSERT (negb (bool_decide (state o = STATE_CONNECTING)));;
  if bool_decide (state o = STATE_UP) && event_recvclosed then report_error EVENT_ERROR_CLOSED
  else report_error EVENT_ERROR.

Definition BSocksClient_Init (server_addr : BAddr) (auth : list BSocksClient_auth_info) (dest : BAddr)
    (connector_ok : bool) : option (option BSocksClient) :=
  if BAddr_IsInvalid server_addr || BAddr_IsInvalid dest then None
  else if connector_ok
  then Some (Some (mkClient auth dest STATE_CONNECTING None 0 0 0 (mkRes true false false false)))
  else Some None.

Definition BSocksClient_Free : SM unit :=
  o ← get;
  when (negb (bool_decide (state o = STATE_CONNECTING)))
    ((if bool_decide (state o = STATE_UP) then free_up_io else free_control_io);; free_con);;
  o ← get;
  ASSERT (r_connector (res o));;
  set_res (mkRes false (r_con (res o)) (r_control (res o)) (r_up (res o)));;
  when (bool_decide (is_Some (buffer o))) (set_buffer None).

Section Handlers.
(** [fresh n]: the contents of [n] bytes of new memory; [ok]: the
    allocation succeeds. *)
Context (fresh : Z → list Z).

Definition reserve_buffer (ok : bool) (size : bsize_t) : SM bool :=
  if is_overflow size then mret false
  else if negb ok then mret false
  else
    o ← get;
    set_buffer (Some (realloc (buffer o) (fresh (value size))));;
    mret true.

Definition connector_handler (is_error con_ok ok : bool) : SM unit :=
  o ← get;
  ASSERT (bool_decide (state o = STATE_CONNECTING));;
  if is_error then report_error EVENT_ERROR
  else if negb con_ok then report_error EVENT_ERROR
  else
    init_con;;
    init_control_io;;
    let fail1 := free_control_io;; free_con;; report_error EVENT_ERROR in
    let num := zlen (auth_info o) in
    if (num =? 0) || (num >? 255) then fail1
    else
      let size := bsize_add (bsize_fromsize sizeof_client_hello_header)
                    (bsize_mul (bsize_fromsize num) (bsize_fromsize sizeof_client_hello_method)) in
      r ← reserve_buffer ok size;
      if negb r then fail1
      else
        write_hello;;
        emit (Send (value size));;
        set_state STATE_SENDING_HELLO.

Definition auth_finished (ok : bool) : SM unit :=
  o ← get;
  let size := bsize_fromsize sizeof_request_header in
  let size := match dest_addr o with
              | BAddr_MakeIPv4 _ _ => bsize_add size (bsize_fromsize sizeof_addr_ipv4)
              | BAddr_MakeIPv6 _ _ => bsize_add size (bsize_fromsize sizeof_addr_ipv6)
              | BAddr_MakeNone => size
              end in
  r ← reserve_buffer ok size;
  if negb r then report_error EVENT_ERROR
  else
    atyp ← match dest_addr o with
           | BAddr_MakeIPv4 ip port =>
               write_buffer sizeof_request_header (le_bytes 4 ip ++ le_bytes 2 port);; mret SOCKS_ATYP_IPV4
           | BAddr_MakeIPv6 ip port =>
               write_buffer sizeof_request_header (ip ++ le_bytes 2 port);; mret SOCKS_ATYP_IPV6
           | BAddr_MakeNone => ASSERT false;; mret 0
           end;
    write_buffer 0 [SOCKS_VERSION; SOCKS_CMD_CONNECT; 0; atyp];;
    emit (Send (value size));;
    set_state STATE_SENDING_REQUEST.

(** The bytes at an offset of the buffer. *)
Definition read_buffer (off n : Z) : SM (list Z) :=
  o ← get;
  match buffer o with
  | None => ASSERT false;; mret []
  | Some b => ASSERT (off + n <=? zlen b);; mret (slice off n b)
  end.

Definition byte (i : Z) (l : list Z) : Z := nth (Z.to_nat i) l 0.

Definition received_hello (ok : bool) : SM unit :=
  o ← get;
  imsg ← read_buffer 0 sizeof_server_hello;
  if negb (byte 0 imsg =? SOCKS_VERSION) then report_error EVENT_ERROR
  else
    match find_auth (auth_info o) (byte 1 imsg) with
    | None => report_error EVENT_ERROR
    | Some BSocksClient_auth_none => auth_finished ok
    | Some (BSocksClient_auth_password u p) =>
        if (zlen u =? 0) || (zlen u >? 255) || (zlen p =? 0) || (zlen p >? 255) then report_error EVENT_ERROR
        else
          let size := bsize_fromsize (1 + 1 + zlen u + 1 + zlen p) in
          r ← reserve_buffer ok size;
          if negb r then report_error EVENT_ERROR
          else
            write_password u p;;
            emit (Send (value size));;
            set_state STATE_SENDING_PASSWORD
    end.

Definition received_reply_header : SM unit :=
  imsg ← read_buffer 0 sizeof_reply_header;
  if negb (byte 0 imsg =? SOCKS_VERSION) then report_error EVENT_ERROR
  else if negb (byte 1 imsg =? SOCKS_REP_SUCCEEDED) then report_error EVENT_ERROR
  else
    match (if byte 3 imsg =? SOCKS_ATYP_IPV4 then Some sizeof_addr_ipv4
           else if byte 3 imsg =? SOCKS_ATYP_IPV6 then Some sizeof_addr_ipv6 else None) with
    | None => report_error EVENT_ERROR
    | Some addr_len =>
        start_receive sizeof_reply_header addr_len;;
        set_state STATE_RECEIVED_REPLY_HEADER
    end.

Definition received_password_reply (ok : bool) : SM unit :=
  imsg ← read_buffer 0 2;
  if negb (byte 0 imsg =? 1) then report_error EVENT_ERROR
  else if negb (byte 1 imsg =? 0) then report_error EVENT_ERROR
  else auth_finished ok.

Definition received_reply_rest : SM unit :=
  set_buffer None;;
  free_control_io;;
  init_up_io;;
  set_state STATE_UP;;
  emit (Handler EVENT_UP).

Definition recv_handler_done (ok : bool) (data_len : Z) : SM unit :=
  o ← get;
  ASSERT (0 <=? data_len);;
  ASSERT (data_len <=? recv_total o - recv_len o);;
  set_recv (recv_dest o) (recv_len o + data_len) (recv_total o);;
  o ← get;
  if recv_len o <? recv_total o then do_receive
  else
    match state o with
    | STATE_SENT_HELLO => received_hello ok
    | STATE_SENT_REQUEST => received_reply_header
    | STATE_SENT_PASSWORD => received_password_reply ok
    | STATE_RECEIVED_REPLY_HEADER => received_reply_rest
    | _ => ASSERT false
    end.

(** A case of [send_handler_done]: a buffer of [size] bytes, of which the
    first [total] are received, then the state. *)
Definition receive_reply (ok : bool) (size : bsize_t) (total : Z) (next : state_t) : SM unit :=
  r ← reserve_buffer ok size;
  if negb r then report_error EVENT_ERROR
  else
    start_receive 0 total;;
    set_state next.

Definition send_handler_done (ok : bool) : SM unit :=
  o ← get;
  ASSERT (bool_decide (is_Some (buffer o)));;
  match state o with
  | STATE_SENDING_HELLO =>
      let size := bsize_fromsize sizeof_server_hello in
      receive_reply ok size (value size) STATE_SENT_HELLO
  | STATE_SENDING_REQUEST =>
      let size := bsize_add (bsize_fromsize sizeof_reply_header)
                    (bsize_max (bsize_fromsize sizeof_addr_ipv4) (bsize_fromsize sizeof_addr_ipv6)) in
      receive_reply ok size sizeof_reply_header STATE_SENT_REQUEST
  | STATE_SENDING_PASSWORD =>
      let size := bsize_fromsize 2 in
      receive_reply ok size (value size) STATE_SENT_PASSWORD
  | _ => ASSERT false
  end.

End Handlers.

(** ** What the dialogue looks like from the outside *)

Definition hello (auth : list BSocksClient_auth_info) : list Z :=
  [SOCKS_VERSION; zlen auth] ++ (auth_type <$> auth).
Definition password_message (u p : list Z) : list Z := [1; zlen u] ++ u ++ [zlen p] ++ p.
Definition request (dest : BAddr) : list Z :=
  match dest with
  | BAddr_MakeIPv4 ip port => [SOCKS_VERSION; SOCKS_CMD_CONNECT; 0; SOCKS_ATYP_IPV4] ++ le_bytes 4 ip ++ le_bytes 2 port
  | BAddr_MakeIPv6 ip port => [SOCKS_VERSION; SOCKS_CMD_CONNECT; 0; SOCKS_ATYP_IPV6] ++ ip ++ le_bytes 2 port
  | BAddr_MakeNone => []
  end.

#[local] Arguments hello : simpl never.
#[local] Arguments password_message : simpl never.

(** The verdict on the bytes the server has sent so far. *)
Inductive verdict := Wait | Fail | Up.

Definition reply_verdict (r : list Z) : verdict :=
  match r with
  | ver :: rep :: _ :: atyp :: addr =>
      if (ver =? SOCKS_VERSION) && (rep =? SOCKS_REP_SUCCEEDED) then
        if atyp =? SOCKS_ATYP_IPV4 then (if zlen addr <? 6 then Wait else Up)
        else if atyp =? SOCKS_ATYP_IPV6 then (if zlen addr <? 18 then Wait else Up)
        else Fail
      else Fail
  | _ => Wait
  end.

Definition credentials_ok (u p : list Z) : bool :=
  (0 <? zlen u) && (zlen u <=? 255) && (0 <? zlen p) && (zlen p <=? 255).

Definition dialogue (auth : list BSocksClient_auth_info) (rx : list Z) : verdict :=
  match rx with
  | ver :: method :: r =>
      if ver =? SOCKS_VERSION then
        match find_auth auth method with
        | None => Fail
        | Some BSocksClient_auth_none => reply_verdict r
        | Some (BSocksClient_auth_password u p) =>
            if credentials_ok u p then
              match r with
              | a :: b :: r' => if (a =? 1) && (b =? 0) then reply_verdict r' else Fail
              | _ => Wait
              end
            else Fail
        end
      else Fail
  | _ => Wait
  end.

(** The messages the client sends in a dialogue that succeeds. *)
Definition script (auth : list BSocksClient_auth_info) (dest : BAddr) (rx : list Z) : list (list Z) :=
  [hello auth] ++
  match rx with
  | _ :: method :: _ =>
      match find_auth auth method with
      | Some (BSocksClient_auth_password u p) => [password_message u p]
      | _ => []
      end ++ [request dest]
  | _ => []
  end.

(** ** The client and its environment *)

(** [sent]: the messages that were sent; [rx]: the bytes received;
    [reports]: the calls of the user's handler. *)
Record world := mkW {
  cli : BSocksClient;
  sending : option Z;
  receiving : option (Z * Z);
  sent : list (list Z);
  rx : list Z;
  reports : list event
}.

(** [ok] tells whether an allocation succeeds. *)
Inductive ev :=
  | Connector (is_error con_ok ok : bool)
  | Sent (ok : bool)
  | Received (d : list Z) (ok : bool)
  | Closed (recvclosed : bool).

Definition call (w : world) (e : eff) : option world :=
  match e with
  | Send len =>
      match sending w, receiving w with
      | None, None => Some (mkW (cli w) (Some len) None (sent w) (rx w) (reports w))
      | _, _ => None
      end
  | Recv off len =>
      match sending w, receiving w with
      | None, None => Some (mkW (cli w) None (Some (off, len)) (sent w) (rx w) (reports w))
      | _, _ => None
      end
  | Handler e => Some (mkW (cli w) (sending w) (receiving w) (sent w) (rx w) (reports w ++ [e]))
  end.

Definition run (m : SM unit) (w : world) : option world :=
  '(_, o, es) ← m (cli w);
  foldl (λ r e, w ← r; call w e) (Some (mkW o (sending w) (receiving w) (sent w) (rx w) (reports w))) es.

(** The user frees the client after an error; events only come before. *)
Definition failed (w : world) : bool :=
  existsb (λ e, match e with EVENT_UP => false | _ => true end) (reports w).

Section World.
Context (fresh : Z → list Z).

Definition wstep (w : world) (e : ev) : option world :=
  let bs := default [] (buffer (cli w)) in
  match e with
  | Connector is_error con_ok ok => run (connector_handler fresh is_error con_ok ok) w
  | Sent ok =>
      len ← sending w;
      run (send_handler_done fresh ok)
        (mkW (cli w) None (receiving w) (sent w ++ [slice 0 len bs]) (rx w) (reports w))
  | Received d ok =>
      '(off, len) ← receiving w;
      run (recv_handler_done fresh ok (zlen d))
        (mkW (upd_buffer (Some (blit off d bs)) (cli w)) (sending w) None (sent w) (rx w ++ d) (reports w))
  | Closed c => run (connection_handler c) w
  end.

Definition allowed (w : world) (e : ev) : bool :=
  negb (failed w) &&
  match e with
  | Connector _ _ _ => bool_decide (state (cli w) = STATE_CONNECTING)
  | Sent _ => bool_decide (is_Some (sending w))
  | Received d _ =>
      match receiving w with Some (_, len) => (0 <? zlen d) && (zlen d <=? len) | None => false end
  | Closed _ => negb (bool_decide (state (cli w) = STATE_CONNECTING))
  end.

Fixpoint wrun (w : world) (es : list ev) : option world :=
  match es with [] => Some w | e :: es' => w ← wstep w e; wrun w es' end.

Fixpoint all_allowed (w : world) (es : list ev) : bool :=
  match es with
  | [] => true
  | e :: es' => allowed w e && match wstep w e with Some w' => all_allowed w' es' | None => true end
  end.

(** The environment lets the client down: a connection that fails or is
    closed, no memory. *)
Definition env_failure (e : ev) : bool :=
  match e with
  | Connector is_error con_ok ok => is_error || negb con_ok || negb ok
  | Sent ok => negb ok
  | Received _ ok => negb ok
  | Closed _ => true
  end.
End World.

(** ** Invariant *)

(** What went before the request: the method and, if needed, the password. *)
Inductive authed (auth : list BSocksClient_auth_info) : list Z → list (list Z) → Prop :=
  | authed_none :
      find_auth auth 0 = Some BSocksClient_auth_none → authed auth [5; 0] [hello auth]
  | authed_password u p :
      find_auth auth 2 = Some (BSocksClient_auth_password u p) → credentials_ok u p = true →
      authed auth [5; 2; 1; 0] [hello auth; password_message u p].

(** The client is sending a message that lies at the start of the buffer. *)
Definition is_sending (w : world) (msg : list Z) : Prop :=
  ∃ b, buffer (cli w) = Some b ∧ sending w = Some (zlen msg) ∧ receiving w = None ∧
       zlen msg <= zlen b ∧ slice 0 (zlen msg) b = msg.

(** The client is receiving [n] bytes at [off] and has got [part] of them. *)
Definition is_receiving (w : world) (off n : Z) (part : list Z) : Prop :=
  ∃ b, buffer (cli w) = Some b ∧ sending w = None ∧ 0 <= off ∧ off + n <= zlen b ∧
       recv_dest (cli w) = off ∧ recv_total (cli w) = n ∧ recv_len (cli w) = zlen part ∧ zlen part < n ∧
       slice off (zlen part) b = part ∧
       receiving w = Some (off + zlen part, n - zlen part).

Definition header_ok (h : list Z) (n : Z) : Prop :=
  ∃ rsv atyp, h = [5; 0; rsv; atyp] ∧ ((atyp = 1 ∧ n = 6) ∨ (atyp = 4 ∧ n = 18)).

Definition phase (w : world) : Prop :=
  let auth := auth_info (cli w) in
  let dest := dest_addr (cli w) in
  match state (cli w) with
  | STATE_CONNECTING =>
      rx w = [] ∧ sent w = [] ∧ sending w = None ∧ receiving w = None
  | STATE_SENDING_HELLO => rx w = [] ∧ sent w = [] ∧ is_sending w (hello auth)
  | STATE_SENT_HELLO => sent w = [hello auth] ∧ is_receiving w 0 2 (rx w)
  | STATE_SENDING_PASSWORD =>
      ∃ u p, find_auth auth 2 = Some (BSocksClient_auth_password u p) ∧ credentials_ok u p = true ∧
             rx w = [5; 2] ∧ sent w = [hello auth] ∧ is_sending w (password_message u p)
  | STATE_SENT_PASSWORD =>
      ∃ u p part, find_auth auth 2 = Some (BSocksClient_auth_password u p) ∧ credentials_ok u p = true ∧
             rx w = [5; 2] ++ part ∧ sent w = [hello auth; password_message u p] ∧ is_receiving w 0 2 part
  | STATE_SENDING_REQUEST => authed auth (rx w) (sent w) ∧ is_sending w (request dest)
  | STATE_SENT_REQUEST =>
      ∃ pre msgs part, authed auth pre msgs ∧ rx w = pre ++ part ∧ sent w = msgs ++ [request dest] ∧
                       is_receiving w 0 4 part ∧ (∀ b, buffer (cli w) = Some b → 22 <= zlen b)
  | STATE_RECEIVED_REPLY_HEADER =>
      ∃ pre msgs h n part, authed auth pre msgs ∧ header_ok h n ∧ rx w = pre ++ h ++ part ∧
                           sent w = msgs ++ [request dest] ∧ is_receiving w 4 n part
  | STATE_UP =>
      ∃ pre msgs h n addr, authed auth pre msgs ∧ header_ok h n ∧ zlen addr = n ∧
                           rx w = pre ++ h ++ addr ∧ sent w = msgs ++ [request dest] ∧
                           buffer (cli w) = None ∧ sending w = None ∧ receiving w = None
  end.

Definition res_ok (o : BSocksClient) : Prop :=
  res o = match state o with
          | STATE_CONNECTING => mkRes true false false false
          | STATE_UP => mkRes true true false true
          | _ => mkRes true true true false
          end.

(** Reports so far, of a client that has not failed. *)
Definition reports_ok (w : world) : Prop :=
  reports w = if bool_decide (state (cli w) = STATE_UP) then [EVENT_UP] else [].

Definition alive (w : world) : Prop := phase w ∧ res_ok (cli w) ∧ reports_ok w.

(** ** The parts of the handlers *)
Section Parts.
Context (fresh : Z → list Z) (fresh_len : ∀ n, 0 <= n → zlen (fresh n) = n).

Lemma zlen_realloc old n : 0 <= n → zlen (realloc old (fresh n)) = n.
Proof.
  intros Hn. pose proof (fresh_len n Hn) as Hf. destruct old as [b|]; cbn; [|done].
  pose proof (zlen_nonneg b). rewrite zlen_blit, Hf by (rewrite ?zlen_slice; lia). done.
Qed.

Lemma reserve_ok size o :
  is_overflow size = false → 0 <= value size →
  ∃ b, zlen b = value size ∧ reserve_buffer fresh true size o = Some (true, upd_buffer (Some b) o, []).
Proof.
  intros Hs Hv. unfold reserve_buffer. rewrite Hs. eexists. split; [|reflexivity]. by apply zlen_realloc.
Qed.

Lemma reserve_fail size o : reserve_buffer fresh false size o = Some (false, o, []).
Proof. unfold reserve_buffer. by case_if. Qed.

Lemma write_buffer_ok off d o b :
  buffer o = Some b → 0 <= off → off + zlen d <= zlen b →
  write_buffer off d o = Some (tt, upd_buffer (Some (blit off d b)) o, []).
Proof. intros Hb H0 H1. unfold write_buffer. mrun. rewrite Hb. zdec. done. Qed.

(** Consecutive writes make one message. *)
Lemma blit_blit {A} off (d1 d2 b : list A) :
  0 <= off → off + zlen d1 + zlen d2 <= zlen b →
  blit (off + zlen d1) d2 (blit off d1 b) = blit off (d1 ++ d2) b.
Proof.
  intros H0 H1. pose proof (zlen_nonneg d1). pose proof (zlen_nonneg d2).
  rewrite blit_widen by (rewrite ?zlen_blit; lia). rewrite slice_blit_eq by lia.
  unfold blit, zlen in *. f_equal.
  - rewrite take_app_le by (rewrite length_take; lia). rewrite take_take. f_equal. lia.
  - f_equal. rewrite length_app. rewrite drop_app_ge by (rewrite length_take; lia).
    rewrite drop_app_ge by (rewrite length_take; lia). rewrite drop_drop, length_take. f_equal. lia.
Qed.

Lemma blit_append {A} k (d1 d2 b : list A) :
  k = zlen d1 → zlen d1 + zlen d2 <= zlen b → blit k d2 (blit 0 d1 b) = blit 0 (d1 ++ d2) b.
Proof. intros -> H. apply (blit_blit 0 d1 d2 b); lia. Qed.

Lemma write_methods_ok l : ∀ i o b,
  buffer o = Some b → 0 <= i → 2 + i + zlen l <= zlen b →
  ∃ b', write_methods i l o = Some (tt, upd_buffer (Some b') o, []) ∧ b' = blit (2 + i) (auth_type <$> l) b.
Proof.
  induction l as [|a l IH]; intros i o b Hb Hi Hl; cbn [write_methods].
  - exists b. split; [|unfold blit; cbn; rewrite Nat.add_0_r, take_drop; done].
    unfold upd_buffer. rewrite <-Hb. by destruct o.
  - rewrite zlen_cons in Hl. pose proof (zlen_nonneg l). unfold sizeof_client_hello_header, sizeof_client_hello_method.
    mrun. rewrite (write_buffer_ok _ _ _ b); [|done|lia|rewrite zlen_cons, zlen_nil; lia].
    cbn. rewrite Z.mul_1_r.
    destruct (IH (i + 1) (upd_buffer (Some (blit (2 + i) [u8 (auth_type a)] b)) o) (blit (2 + i) [u8 (auth_type a)] b))
      as (b' & -> & ->); [done|lia|rewrite zlen_blit by (rewrite ?zlen_cons, ?zlen_nil; lia); lia|].
    eexists. split; [reflexivity|].
    replace (u8 (auth_type a)) with (auth_type a) by by destruct a.
    replace (2 + (i + 1)) with (2 + i + zlen [auth_type a]) by (rewrite zlen_cons, zlen_nil; lia).
    rewrite blit_blit; [done|lia|]. rewrite zlen_cons, zlen_nil. unfold zlen. rewrite length_fmap.
    unfold zlen in Hl. lia.
Qed.

(** A message written at the start of the buffer can be read there. *)
Lemma blit_whole (d b : list Z) : zlen d <= zlen b → slice 0 (zlen d) (blit 0 d b) = d.
Proof. intros. apply slice_blit_eq; lia. Qed.

Lemma zlen_request dest : baddr_ok dest →
  zlen (request dest) = match dest with BAddr_MakeIPv4 _ _ => 10 | BAddr_MakeIPv6 _ _ => 22 | BAddr_MakeNone => 0 end.
Proof.
  destruct dest as [|ip port|ip port]; cbn [request baddr_ok]; [done|done|].
  intros (_ & HL & _). rewrite !zlen_app, zlen_le_bytes. unfold zlen. rewrite HL. done.
Qed.

(** An address and then the header in front of it, as [auth_finished] writes
    them. *)
Lemma header_before (h addr b : list Z) :
  zlen h + zlen addr <= zlen b →
  zlen (blit (zlen h) addr b) = zlen b ∧ zlen (blit 0 h (blit (zlen h) addr b)) = zlen b ∧
  slice 0 (zlen h + zlen addr) (blit 0 h (blit (zlen h) addr b)) = h ++ addr.
Proof.
  intros Hl. pose proof (zlen_nonneg addr). pose proof (zlen_nonneg h).
  assert (Hz : zlen (blit (zlen h) addr b) = zlen b) by (apply zlen_blit; lia).
  split_and!; [done|rewrite zlen_blit; lia|]. rewrite slice_split by lia. f_equal.
  - apply slice_blit_len; lia.
  - rewrite slice_blit_after by lia. apply slice_blit_eq; lia.
Qed.

Lemma auth_finished_ok o :
  baddr_ok (dest_addr o) → BAddr_IsInvalid (dest_addr o) = false →
  ∃ b, auth_finished fresh true o =
         Some (tt, upd_state STATE_SENDING_REQUEST (upd_buffer (Some b) o), [Send (zlen (request (dest_addr o)))]) ∧
       zlen (request (dest_addr o)) <= zlen b ∧
       slice 0 (zlen (request (dest_addr o))) b = request (dest_addr o).
Proof.
  intros Hd Hv. pose proof (zlen_request _ Hd) as Hz. unfold auth_finished. mrun.
  destruct (dest_addr o) as [|ip port|ip port] eqn:Ed; [done| |]; rewrite Hz; cbn [request] in *.
  - edestruct (reserve_ok (bsize_add (bsize_fromsize sizeof_request_header) (bsize_fromsize sizeof_addr_ipv4)) o)
      as (b & Hb & ->); [done|vm_compute; discriminate|]. change (value _) with 10 in Hb.
    destruct (header_before [SOCKS_VERSION; SOCKS_CMD_CONNECT; 0; SOCKS_ATYP_IPV4] (le_bytes 4 ip ++ le_bytes 2 port) b)
      as (H1 & H2 & H3); [rewrite Hb; vm_compute; discriminate|].
    change (zlen [_; _; _; _]) with sizeof_request_header in H1, H2, H3.
    cbn. rewrite (write_buffer_ok _ _ _ b); [|done|done|rewrite Hb; vm_compute; discriminate]. cbn.
    rewrite (write_buffer_ok _ _ _ (blit sizeof_request_header (le_bytes 4 ip ++ le_bytes 2 port) b));
      [|done|done|rewrite H1, Hb; vm_compute; discriminate].
    eexists. split; [reflexivity|]. split; [rewrite H2, Hb; vm_compute; discriminate|exact H3].
  - destruct Hd as (_ & HL & _).
    assert (Ha : zlen (ip ++ le_bytes 2 port) = 18) by (rewrite zlen_app, zlen_le_bytes; unfold zlen; rewrite HL; done).
    edestruct (reserve_ok (bsize_add (bsize_fromsize sizeof_request_header) (bsize_fromsize sizeof_addr_ipv6)) o)
      as (b & Hb & ->); [done|vm_compute; discriminate|]. change (value _) with 22 in Hb.
    destruct (header_before [SOCKS_VERSION; SOCKS_CMD_CONNECT; 0; SOCKS_ATYP_IPV6] (ip ++ le_bytes 2 port) b)
      as (H1 & H2 & H3); [rewrite Ha, Hb; vm_compute; discriminate|].
    change (zlen [_; _; _; _]) with sizeof_request_header in H1, H2, H3.
    cbn. rewrite (write_buffer_ok _ _ _ b); [|done|done|rewrite Ha, Hb; vm_compute; discriminate]. cbn.
    rewrite (write_buffer_ok _ _ _ (blit sizeof_request_header (ip ++ le_bytes 2 port) b));
      [|done|done|rewrite H1, Hb; vm_compute; discriminate].
    eexists. split; [reflexivity|]. rewrite Ha in H3. split; [rewrite H2, Hb; vm_compute; discriminate|exact H3].
Qed.

Lemma auth_finished_fail o : auth_finished fresh false o = Some (tt, o, [Handler EVENT_ERROR]).
Proof. unfold auth_finished. mrun. destruct (dest_addr o); rewrite reserve_fail; done. Qed.

Lemma zlen_hello auth : zlen (hello auth) = 2 + zlen auth.
Proof. unfold hello, zlen. rewrite length_app, length_fmap. cbn [length]. lia. Qed.

(** The message of [connector_handler]. *)
Lemma hello_ok o b :
  buffer o = Some b → 0 < zlen (auth_info o) <= 255 → zlen b = 2 + zlen (auth_info o) →
  ∃ b', write_hello o = Some (tt, upd_buffer (Some b') o, []) ∧
        zlen b' = zlen b ∧ slice 0 (zlen b) b' = hello (auth_info o).
Proof.
  intros Hb Hn Hz. unfold write_hello, u8. mrun. rewrite Z.mod_small by lia.
  set (h := [SOCKS_VERSION; zlen (auth_info o)]). assert (Hh : zlen h = 2) by done.
  rewrite (write_buffer_ok 0 h _ b) by (done || lia). cbn.
  destruct (write_methods_ok (auth_info o) 0 (upd_buffer (Some (blit 0 h b)) o) (blit 0 h b)) as (b' & -> & ->);
    [done|lia|rewrite zlen_blit; lia|].
  assert (Ht : zlen (auth_type <$> auth_info o) = zlen (auth_info o)) by (unfold zlen; by rewrite length_fmap).
  replace (2 + 0) with (0 + zlen h) by lia. rewrite blit_blit by lia.
  change (h ++ (auth_type <$> auth_info o)) with (hello (auth_info o)).
  assert (Hl : zlen (hello (auth_info o)) = zlen b) by (unfold hello; rewrite zlen_app, Ht; fold h; lia).
  eexists. split; [reflexivity|].
  change (zlen (blit 0 (hello (auth_info o)) b) = zlen b ∧
          slice 0 (zlen b) (blit 0 (hello (auth_info o)) b) = hello (auth_info o)).
  split; [apply zlen_blit; lia|]. apply slice_blit_len; lia.
Qed.

(** The message of [received_hello]. *)
Lemma password_ok u p o b :
  buffer o = Some b → credentials_ok u p = true → zlen b = 3 + zlen u + zlen p →
  ∃ b', write_password u p o = Some (tt, upd_buffer (Some b') o, []) ∧
        zlen b' = zlen b ∧ slice 0 (zlen b) b' = password_message u p.
Proof.
  intros Hb Hc Hz. unfold credentials_ok in Hc. zb. unfold write_password, u8. rewrite !Z.mod_small by lia.
  set (x := [zlen u]). set (y := [zlen p]).
  assert (zlen [1] = 1 ∧ zlen x = 1 ∧ zlen y = 1) as (Hone & Hx & Hy) by done. mrun.
  rewrite (write_buffer_ok 0 [1] _ b) by (done || lia). cbn.
  rewrite (write_buffer_ok 1 x _ (blit 0 [1] b)) by (done || lia || rewrite ?zlen_blit; lia). cbn.
  rewrite (blit_append 1 [1]) by lia.
  set (m1 := [1] ++ x). assert (Hm1 : zlen m1 = 2) by done.
  rewrite (write_buffer_ok 2 u _ (blit 0 m1 b)) by (done || lia || rewrite ?zlen_blit; lia). cbn.
  rewrite (blit_append 2 m1) by lia.
  set (m2 := m1 ++ u). assert (Hm2 : zlen m2 = 2 + zlen u) by (unfold m2; rewrite zlen_app; lia).
  rewrite (write_buffer_ok (2 + zlen u) y _ (blit 0 m2 b)) by (done || lia || rewrite ?zlen_blit; lia). cbn.
  rewrite (blit_append (2 + zlen u) m2) by lia.
  set (m3 := m2 ++ y). assert (Hm3 : zlen m3 = 2 + zlen u + 1) by (unfold m3; rewrite zlen_app; lia).
  rewrite (write_buffer_ok (2 + zlen u + 1) p _ (blit 0 m3 b)) by (done || lia || rewrite ?zlen_blit; lia). cbn.
  rewrite (blit_append (2 + zlen u + 1) m3) by lia.
  replace (m3 ++ p) with (password_message u p) by (unfold m3, m2, m1, password_message; by rewrite <-!app_assoc).
  assert (Hl : zlen (password_message u p) = zlen b).
  { unfold password_message. rewrite !zlen_app. change (zlen [1; zlen u]) with 2. change (zlen [zlen p]) with 1. lia. }
  eexists. split; [reflexivity|].
  change (zlen (blit 0 (password_message u p) b) = zlen b ∧
          slice 0 (zlen b) (blit 0 (password_message u p) b) = password_message u p).
  split; [apply zlen_blit; lia|]. apply slice_blit_len; lia.
Qed.

End Parts.

(** ** The steps *)

(** No method, or more than the hello message can list. *)
Definition bad_config (auth : list BSocksClient_auth_info) : Prop := zlen auth = 0 ∨ 255 < zlen auth.

(** The client has reported an error, and there was a reason. *)
Definition dead (cause : bool) (w : world) : Prop :=
  failed w = true ∧ res_ok (cli w) ∧
  (cause = true ∨ bad_config (auth_info (cli w)) ∨ dialogue (auth_info (cli w)) (rx w) = Fail).

(** The step reported one error. *)
Definition new_error (w w' : world) : Prop := ∃ e, e ≠ EVENT_UP ∧ reports w' = reports w ++ [e].

Definition follows (cause : bool) (w w' : world) : Prop :=
  auth_info (cli w') = auth_info (cli w) ∧ dest_addr (cli w') = dest_addr (cli w) ∧
  (alive w' ∨ (dead cause w' ∧ new_error w w')).

Definition good_dest (w : world) : Prop :=
  baddr_ok (dest_addr (cli w)) ∧ BAddr_IsInvalid (dest_addr (cli w)) = false.

Lemma run_eq m w o es :
  m (cli w) = Some (tt, o, es) →
  run m w = foldl (λ r e, w ← r; call w e) (Some (mkW o (sending w) (receiving w) (sent w) (rx w) (reports w))) es.
Proof. unfold run. by intros ->. Qed.

(** A handler that ends by reporting an error. *)
Lemma report_run cause w m o e :
  m (cli w) = Some (tt, o, [Handler e]) → e ≠ EVENT_UP → res_ok o →
  auth_info o = auth_info (cli w) → dest_addr o = dest_addr (cli w) →
  (cause = true ∨ bad_config (auth_info (cli w)) ∨ dialogue (auth_info (cli w)) (rx w) = Fail) →
  ∃ w', run m w = Some w' ∧ follows cause w w'.
Proof.
  intros Hm He Hr Ha Hd Hc. rewrite (run_eq _ _ _ _ Hm). cbn. eexists. split; [reflexivity|].
  split; [done|]. split; [done|]. right. split; [|by exists e].
  unfold dead. cbn. rewrite Ha. split_and!; try done.
  unfold failed. cbn. rewrite existsb_app. cbn. rewrite orb_true_iff. right. by destruct e.
Qed.

(** A handler that ends by sending a message. *)
Lemma send_run cause w m o msg b :
  m (cli w) = Some (tt, o, [Send (zlen msg)]) → sending w = None → receiving w = None →
  buffer o = Some b → zlen msg <= zlen b → slice 0 (zlen msg) b = msg →
  auth_info o = auth_info (cli w) → dest_addr o = dest_addr (cli w) → res_ok o → reports w = [] →
  state o ≠ STATE_UP →
  (∀ w', cli w' = o → is_sending w' msg → sent w' = sent w → rx w' = rx w → phase w') →
  ∃ w', run m w = Some w' ∧ follows cause w w'.
Proof.
  intros Hm Hs Hr Hb Hl Hsl Ha Hd Hres Hrep Hst HP. rewrite (run_eq _ _ _ _ Hm). cbn. rewrite Hs, Hr. cbn.
  eexists. split; [reflexivity|]. split; [done|]. split; [done|]. left. split_and!; [|done|].
  - apply HP; try done. by exists b.
  - unfold reports_ok. cbn. by rewrite bool_decide_false.
Qed.

(** A handler that ends by asking for the [n] bytes of a message, of which
    nothing or only [part] has come. *)
Lemma recv_run cause w m o off n part b :
  m (cli w) = Some (tt, o, [Recv (off + zlen part) (n - zlen part)]) → sending w = None → receiving w = None →
  buffer o = Some b → 0 <= off → off + n <= zlen b → recv_dest o = off → recv_total o = n →
  recv_len o = zlen part → zlen part < n → slice off (zlen part) b = part →
  auth_info o = auth_info (cli w) → dest_addr o = dest_addr (cli w) → res_ok o → reports w = [] →
  state o ≠ STATE_UP →
  (∀ w', cli w' = o → is_receiving w' off n part → sent w' = sent w → rx w' = rx w → phase w') →
  ∃ w', run m w = Some w' ∧ follows cause w w'.
Proof.
  intros Hm Hs Hr Hb H0 Hl Hrd Hrt Hrl Hpn Hsl Ha Hd Hres Hrep Hst HP. rewrite (run_eq _ _ _ _ Hm). cbn. rewrite Hs, Hr. cbn.
  eexists. split; [reflexivity|]. split; [done|]. split; [done|]. left. split_and!; [|done|].
  - apply HP; try done. by exists b.
  - unfold reports_ok. cbn. by rewrite bool_decide_false.
Qed.

(** Facts about a client that is alive and in a given state. *)
Lemma alive_facts w : alive w →
  res_ok (cli w) ∧ (state (cli w) ≠ STATE_UP → reports w = []).
Proof. intros (_ & HR & HO). split; [done|]. intros Hs. by rewrite HO, bool_decide_false. Qed.

Ltac unfold_res :=
  unfold init_con, init_control_io, free_control_io, free_con, init_up_io, free_up_io, set_res, set_state, set_buffer,
    set_recv, report_error.

#[local] Arguments byte : simpl never.
#[local] Arguments reserve_buffer : simpl never.
#[local] Arguments receive_reply : simpl never.
#[local] Arguments received_hello : simpl never.
#[local] Arguments received_reply_header : simpl never.
#[local] Arguments received_password_reply : simpl never.
#[local] Arguments received_reply_rest : simpl never.
#[local] Arguments auth_finished : simpl never.

Section Steps.
Context (fresh : Z → list Z) (fresh_len : ∀ n, 0 <= n → zlen (fresh n) = n).

Lemma connector_event_step w is_error con_ok ok :
  alive w → state (cli w) = STATE_CONNECTING →
  ∃ w', wstep fresh w (Connector is_error con_ok ok) = Some w' ∧
        follows (env_failure (Connector is_error con_ok ok)) w w'.
Proof.
  intros HA Hs. destruct (alive_facts w HA) as [HR HO]. rewrite Hs in HO. specialize (HO ltac:(done)).
  destruct HA as [HP _]. unfold phase in HP. rewrite Hs in HP. destruct HP as (Hrx & Hsent & Hsd & Hrv).
  unfold res_ok in HR. rewrite Hs in HR. cbn [wstep]. unfold env_failure.
  assert (Hdown : ∀ b, res_ok (upd_res (mkRes true false false false) (upd_buffer b (cli w)))).
  { intros b. unfold res_ok. cbn. by rewrite Hs. }
  assert (Hsame : ∀ o : BSocksClient, upd_buffer (buffer o) o = o) by by intros [].
  destruct is_error.
  { eapply report_run; [unfold connector_handler; mrun; rewrite Hs; reflexivity|done| |done|done|by left].
    unfold res_ok. by rewrite Hs. }
  destruct con_ok; cbn [orb negb].
  2: { eapply report_run; [unfold connector_handler; mrun; rewrite Hs; reflexivity|done| |done|done|by left].
       unfold res_ok. by rewrite Hs. }
  destruct ((zlen (auth_info (cli w)) =? 0) || (zlen (auth_info (cli w)) >? 255)) eqn:Hn.
  { eapply report_run; [unfold connector_handler; unfold_res; mrun; rewrite Hs, bool_decide_true by done; cbn; rewrite HR; cbn; rewrite Hn; reflexivity| | | | |].
    - done.
    - unfold res_ok. cbn. by rewrite Hs.
    - done.
    - done.
    - right. left. unfold bad_config. apply orb_true_iff in Hn as [Hn|Hn]; zb; lia. }
  assert (Hrange : 0 < zlen (auth_info (cli w)) <= 255)
    by (pose proof (zlen_nonneg (auth_info (cli w))); zb; lia).
  set (size := bsize_add (bsize_fromsize sizeof_client_hello_header)
         (bsize_mul (bsize_fromsize (zlen (auth_info (cli w)))) (bsize_fromsize sizeof_client_hello_method))).
  assert (Hsz : means size (2 + zlen (auth_info (cli w)) * 1)).
  { apply means_add; [apply means_fromsize; vm_compute; split; discriminate|].
    apply means_mul; [apply means_fromsize; unfold SIZE_MAX, UINT64_MAX; lia|
      apply means_fromsize; vm_compute; split; discriminate|lia|lia]. }
  destruct Hsz as (_ & _ & Hov & Hval). rewrite Z.mul_1_r in *. unfold SIZE_MAX, UINT64_MAX in *.
  specialize (Hval ltac:(lia)).
  rewrite Z.gtb_ltb, (proj2 (Z.ltb_ge _ _)) in Hov by lia.
  destruct ok; cbn [orb negb].
  - set (o1 := upd_res (mkRes true true true false) (cli w)).
    destruct (reserve_ok fresh fresh_len size o1) as (b & Hb & Hres); [done|lia|].
    destruct (hello_ok (upd_buffer (Some b) o1) b) as (b' & Hhello & Hz & Hsl); [done|cbn; lia|cbn; lia|].
    assert (Hlen : zlen (hello (auth_info (cli w))) = zlen b).
    { rewrite zlen_hello. lia. }
    eapply (send_run _ _ _ _ (hello (auth_info (cli w))) b').
    + unfold connector_handler. unfold_res. mrun. rewrite Hs, bool_decide_true by done. cbn. rewrite HR. cbn.
      rewrite Hn. fold size. change (upd_res _ (upd_res _ (cli w))) with o1. rewrite Hres. cbn. rewrite Hhello. cbn.
      replace (zlen (hello (auth_info (cli w)))) with (value size) by lia. reflexivity.
    + done.
    + done.
    + done.
    + lia.
    + rewrite Hlen. exact Hsl.
    + done.
    + done.
    + done.
    + done.
    + done.
    + intros w' Ew HS Hse Hr. unfold phase. rewrite Ew. cbn. split_and!; [congruence|congruence|done].
  - eapply report_run; [unfold connector_handler; unfold_res; mrun; rewrite Hs, bool_decide_true by done; cbn; rewrite HR; cbn;
      rewrite Hn; fold size; rewrite reserve_fail; reflexivity| | | | |].
    + done.
    + unfold res_ok. cbn. by rewrite Hs.
    + done.
    + done.
    + by left.
Qed.
Lemma receive_reply_ok size total next o :
  is_overflow size = false → 0 < total <= value size →
  ∃ b, zlen b = value size ∧
       receive_reply fresh true size total next o =
         Some (tt, upd_state next (upd_recv 0 0 total (upd_buffer (Some b) o)), [Recv 0 total]).
Proof.
  intros Hov Ht. destruct (reserve_ok fresh fresh_len size o Hov ltac:(lia)) as (b & Hb & Hr).
  exists b. split; [done|]. unfold receive_reply, start_receive, do_receive. unfold_res. mrun. rewrite Hr. cbn.
  zdec. cbn. zdec. cbn. by rewrite Z.sub_0_r.
Qed.

Lemma receive_reply_fail size total next o :
  receive_reply fresh false size total next o = Some (tt, o, [Handler EVENT_ERROR]).
Proof. unfold receive_reply. mrun. by rewrite reserve_fail. Qed.

(** A message was sent: its reply is awaited. *)
Lemma reply_step w1 ok size total next :
  is_overflow size = false → 0 < total <= value size →
  sending w1 = None → receiving w1 = None → res (cli w1) = mkRes true true true false → reports w1 = [] →
  state (cli w1) ≠ STATE_CONNECTING → state (cli w1) ≠ STATE_UP → next ≠ STATE_UP → next ≠ STATE_CONNECTING →
  (∀ w', auth_info (cli w') = auth_info (cli w1) → dest_addr (cli w') = dest_addr (cli w1) →
         state (cli w') = next → (∃ b, buffer (cli w') = Some b ∧ zlen b = value size) →
         is_receiving w' 0 total [] → sent w' = sent w1 → rx w' = rx w1 → phase w') →
  ∃ w', run (receive_reply fresh ok size total next) w1 = Some w' ∧ follows (negb ok) w1 w'.
Proof.
  intros Hov Ht Hs Hr Hres Hrep Hc Hu Hn1 Hn2 HP. destruct ok.
  - destruct (receive_reply_ok size total next (cli w1) Hov Ht) as (b & Hb & E).
    eapply (recv_run _ _ _ (upd_state next (upd_recv 0 0 total (upd_buffer (Some b) (cli w1)))) 0 total [] b); try done.
    + replace (total - zlen []) with total by (rewrite zlen_nil; lia). exact E.
    + lia.
    + rewrite zlen_nil. lia.
    + unfold res_ok. cbn. rewrite Hres. by destruct next.
    + intros w' Ew HR Hse Hrx. apply HP; rewrite ?Ew; try done. by exists b.
  - eapply report_run; [apply receive_reply_fail|done| |done|done|by left].
    unfold res_ok. rewrite Hres. by destruct (state (cli w1)).
Qed.

Lemma follows_trans cause w w1 w' :
  auth_info (cli w1) = auth_info (cli w) → dest_addr (cli w1) = dest_addr (cli w) → reports w1 = reports w →
  follows cause w1 w' → follows cause w w'.
Proof.
  intros Ha Hd Hr (H1 & H2 & H3). split; [congruence|]. split; [congruence|].
  unfold new_error in *. rewrite <-Hr. done.
Qed.

Lemma sent_event_step w ok len :
  alive w → sending w = Some len →
  ∃ w', wstep fresh w (Sent ok) = Some w' ∧ follows (env_failure (Sent ok)) w w'.
Proof.
  intros HA Hlen. destruct (alive_facts w HA) as [HR HO]. destruct HA as [HP _].
  cbn [wstep env_failure]. rewrite Hlen. cbn [mbind option_bind].
  set (w1 := mkW (cli w) None (receiving w) (sent w ++ [slice 0 len (default [] (buffer (cli w)))]) (rx w) (reports w)).
  assert (Hkey : ∀ msg, is_sending w msg →
            sent w1 = sent w ++ [msg] ∧ receiving w1 = None ∧ is_Some (buffer (cli w))).
  { intros msg (b & Hb & Hs & Hr & Hl & Hsl). rewrite Hlen in Hs. injection Hs as ->. cbn. rewrite Hb. cbn.
    rewrite Hsl. split_and!; try done. }
  assert (Hrun : ∀ m, is_Some (buffer (cli w)) →
            match state (cli w) with
            | STATE_SENDING_HELLO => m = receive_reply fresh ok (bsize_fromsize 2) 2 STATE_SENT_HELLO
            | STATE_SENDING_PASSWORD => m = receive_reply fresh ok (bsize_fromsize 2) 2 STATE_SENT_PASSWORD
            | STATE_SENDING_REQUEST => m = receive_reply fresh ok
                (bsize_add (bsize_fromsize 4) (bsize_max (bsize_fromsize 6) (bsize_fromsize 18))) 4 STATE_SENT_REQUEST
            | _ => False
            end → run (send_handler_done fresh ok) w1 = run m w1).
  { intros m Hb Hm. unfold run, send_handler_done. mrun. rewrite bool_decide_true by done. cbn.
    destruct (state (cli w)); try done; rewrite Hm; cbn;
      by destruct (receive_reply fresh ok _ _ _ _) as [[[[] ?] ?]|]. }
  unfold res_ok in HR. unfold phase in HP. destruct (state (cli w)) eqn:Hs.
  - destruct HP as (_ & _ & ? & _). congruence.
  - destruct HP as (Hrx & Hsent & HS). destruct (Hkey _ HS) as (Hse & Hrv & Hb).
    rewrite (Hrun _ Hb eq_refl). eapply (reply_step w1); try done; cbn [cli w1]; rewrite ?Hs; try done.
    + by apply HO.
    + intros w' Ha Hd Est _ HR' Hse' Hrx'. unfold phase. rewrite Est, Ha. cbn. rewrite Hse', Hrx'. cbn [w1 rx].
      rewrite Hrx, Hse, Hsent. done.
  - destruct HP as (_ & b & _ & ? & _). congruence.
  - destruct HP as (u & p & Hf & Hcr & Hrx & Hsent & HS). destruct (Hkey _ HS) as (Hse & Hrv & Hb).
    rewrite (Hrun _ Hb eq_refl). eapply (reply_step w1); try done; cbn [cli w1]; rewrite ?Hs; try done.
    + by apply HO.
    + intros w' Ha Hd Est _ HR' Hse' Hrx'. unfold phase. rewrite Est, Ha. cbn. rewrite Hse', Hrx'.
      exists u, p, []. rewrite Hse, Hsent. split_and!; done.
  - destruct HP as (u & p & part & _ & _ & _ & _ & b & _ & ? & _). congruence.
  - destruct HP as (Hau & HS). destruct (Hkey _ HS) as (Hse & Hrv & Hb).
    rewrite (Hrun _ Hb eq_refl). eapply (reply_step w1); try done; cbn [cli w1]; rewrite ?Hs; try done.
    + by apply HO.
    + intros w' Ha Hd Est Hbuf HR' Hse' Hrx'. unfold phase. rewrite Est, Ha, Hd. cbn. rewrite Hse', Hrx'.
      exists (rx w), (sent w), []. rewrite Hse, app_nil_r. split_and!; try done.
      intros b Eb. destruct Hbuf as (b' & Eb' & Hz). rewrite Eb in Eb'. injection Eb' as <-. rewrite Hz. done.
  - destruct HP as (pre & msgs & part & _ & _ & _ & (b & _ & ? & _) & _). congruence.
  - destruct HP as (pre & msgs & h & n & part & _ & _ & _ & _ & b & _ & ? & _). congruence.
  - destruct HP as (? & ? & ? & ? & ? & _ & _ & _ & _ & _ & _ & ? & _). congruence.
Qed.
(** The world when [d] has arrived, before the handler runs. *)
Definition arrived (w : world) (off : Z) (d : list Z) : world :=
  mkW (upd_buffer (Some (blit off d (default [] (buffer (cli w))))) (cli w))
    (sending w) None (sent w) (rx w ++ d) (reports w).

Definition on_message (ok : bool) (s : state_t) : SM unit :=
  match s with
  | STATE_SENT_HELLO => received_hello fresh ok
  | STATE_SENT_REQUEST => received_reply_header
  | STATE_SENT_PASSWORD => received_password_reply fresh ok
  | STATE_RECEIVED_REPLY_HEADER => received_reply_rest
  | _ => ASSERT false
  end.

(** A piece arrives.  Either the message is still incomplete and the rest is
    asked for, or the handler of the state runs with the whole message in the
    buffer. *)
Lemma piece w ok off n part d :
  is_receiving w off n part → 0 < zlen d <= n - zlen part →
  ∃ b, buffer (cli (arrived w (off + zlen part) d)) = Some b ∧ off + n <= zlen b ∧ 0 <= off ∧
       (∀ b0, buffer (cli w) = Some b0 → zlen b = zlen b0) ∧
       slice off (zlen (part ++ d)) b = part ++ d ∧
       let o1 := upd_recv off (zlen (part ++ d)) n (cli (arrived w (off + zlen part) d)) in
       recv_handler_done fresh ok (zlen d) (cli (arrived w (off + zlen part) d)) =
         if zlen (part ++ d) <? n
         then Some (tt, o1, [Recv (off + zlen (part ++ d)) (n - zlen (part ++ d))])
         else on_message ok (state (cli w)) o1.
Proof.
  intros (b & Hb & Hs & H0 & Hl & Hrd & Hrt & Hrl & Hlt & Hsl & Hrv) Hd. pose proof (zlen_nonneg part).
  cbn [arrived cli upd_buffer buffer]. rewrite Hb. cbn [default from_option id].
  eexists. split; [reflexivity|]. rewrite zlen_blit by lia.
  split_and!; [lia|lia|intros b0 [= <-]; done| |].
  - rewrite zlen_app, slice_split by lia. rewrite slice_blit_before by lia. rewrite Hsl. f_equal. apply slice_blit_eq; lia.
  - unfold recv_handler_done, do_receive. unfold_res. mrun. rewrite Hrd, Hrt, Hrl. zdec. cbn. zdec. cbn. rewrite zlen_app.
    destruct (zlen part + zlen d <? n) eqn:C; cbn.
    + rewrite C. done.
    + unfold on_message. destruct (state (cli w)); cbn; try done;
      match goal with |- context [match ?x with Some _ => _ | None => _ end] => by destruct x as [[[[] ?] ?]|] end.
Qed.
Lemma received_eq w ok off n part d :
  is_receiving w off n part →
  wstep fresh w (Received d ok) = run (recv_handler_done fresh ok (zlen d)) (arrived w (off + zlen part) d).
Proof. intros (b & _ & _ & _ & _ & _ & _ & _ & _ & _ & Hrv). cbn [wstep]. by rewrite Hrv. Qed.

Lemma incomplete_step w ok off n part d :
  alive w → state (cli w) ≠ STATE_UP → is_receiving w off n part → 0 < zlen d <= n - zlen part →
  zlen (part ++ d) < n →
  (∀ w', auth_info (cli w') = auth_info (cli w) → dest_addr (cli w') = dest_addr (cli w) →
         state (cli w') = state (cli w) → is_receiving w' off n (part ++ d) →
         sent w' = sent w → rx w' = rx w ++ d →
         (∀ b b', buffer (cli w) = Some b → buffer (cli w') = Some b' → zlen b' = zlen b) → phase w') →
  ∃ w', wstep fresh w (Received d ok) = Some w' ∧ follows (negb ok) w w'.
Proof.
  intros HA Hu HR Hd Hlt HP. destruct (alive_facts w HA) as [Hres Hrep].
  rewrite (received_eq _ _ _ _ _ _ HR). destruct (piece w ok off n part d HR Hd) as (b & Hb & Hl & H0 & Hz & Hsl & E).
  rewrite (proj2 (Z.ltb_lt _ _)) in E by done.
  destruct HR as (b0 & Hb0 & Hs & _). set (w1 := arrived w (off + zlen part) d) in *.
  destruct (recv_run (negb ok) w1 (recv_handler_done fresh ok (zlen d)) (upd_recv off (zlen (part ++ d)) n (cli w1))
    off n (part ++ d) b E Hs eq_refl Hb H0 Hl eq_refl eq_refl eq_refl Hlt Hsl eq_refl eq_refl) as (w' & Ew & Hf).
  - exact Hres.
  - by apply Hrep.
  - done.
  - intros w' Ew HR' Hse Hrx. apply HP; rewrite ?Ew; try done.
    intros b1 b' Eb1 Eb'. cbn in Eb', Hb. rewrite Hb in Eb'. injection Eb' as <-. by apply Hz.
  - exists w'. split; [done|]. by eapply follows_trans; [| | |exact Hf].
Qed.

(** The whole message [m] is in the buffer, where the handler of the state
    reads it. *)
Definition holds_message (o : BSocksClient) (off : Z) (m : list Z) : Prop :=
  ∃ b, buffer o = Some b ∧ 0 <= off ∧ off + zlen m <= zlen b ∧ slice off (zlen m) b = m.

Lemma read_message o off n m :
  holds_message o off m → zlen m = n → read_buffer off n o = Some (m, o, []).
Proof.
  intros (b & Hb & H0 & Hl & Hs) <-. unfold read_buffer. mrun. rewrite Hb. zdec. cbn. by rewrite Hs.
Qed.

Lemma list_two (m : list Z) : zlen m = 2 → ∃ a b, m = [a; b].
Proof. destruct m as [|a [|b [|c l]]]; rewrite ?zlen_cons, ?zlen_nil; try lia; [eauto|]. pose proof (zlen_nonneg l). lia. Qed.

Lemma list_four (m : list Z) : zlen m = 4 → ∃ a b c d, m = [a; b; c; d].
Proof.
  destruct m as [|a [|b [|c [|d [|e l]]]]]; rewrite ?zlen_cons, ?zlen_nil; try lia; [naive_solver|].
  pose proof (zlen_nonneg l). lia.
Qed.

(** After the piece that completes a message. *)
Lemma complete_step w ok off n part d m :
  alive w → is_receiving w off n part → 0 < zlen d <= n - zlen part → part ++ d = m → zlen m = n →
  state (cli w) ≠ STATE_CONNECTING → state (cli w) ≠ STATE_UP →
  (∀ w1 o1, rx w1 = rx w ++ d → sent w1 = sent w → sending w1 = None → receiving w1 = None → reports w1 = [] →
      auth_info (cli w1) = auth_info (cli w) → dest_addr (cli w1) = dest_addr (cli w) →
      state o1 = state (cli w) → auth_info o1 = auth_info (cli w) → dest_addr o1 = dest_addr (cli w) →
      res o1 = mkRes true true true false → holds_message o1 off m →
      (∀ b b', buffer (cli w) = Some b → buffer o1 = Some b' → zlen b' = zlen b) →
      ∀ h, h (cli w1) = on_message ok (state (cli w)) o1 →
      ∃ w', run h w1 = Some w' ∧ follows (negb ok) w1 w') →
  ∃ w', wstep fresh w (Received d ok) = Some w' ∧ follows (negb ok) w w'.
Proof.
  intros HA HR Hd Hm Hn Hc Hu HK. destruct (alive_facts w HA) as [Hres Hrep].
  rewrite (received_eq _ _ _ _ _ _ HR). destruct (piece w ok off n part d HR Hd) as (b & Hb & Hl & H0 & Hz & Hsl & E).
  rewrite Hm in *. rewrite (proj2 (Z.ltb_ge _ _)) in E by lia.
  destruct HR as (b0 & Hb0 & Hs & _). set (w1 := arrived w (off + zlen part) d) in *.
  destruct (HK w1 (upd_recv off (zlen m) n (cli w1))) with (h := recv_handler_done fresh ok (zlen d)) as (w' & Ew & Hf);
    try done; [by apply Hrep| | | |].
  - unfold res_ok in Hres. cbn. rewrite Hres. by destruct (state (cli w)).
  - exists b. rewrite <-Hn in Hl. done.
  - intros b1 b' Eb1 Eb'. cbn in Eb', Hb. rewrite Hb in Eb'. injection Eb' as <-. by apply Hz.
  - exists w'. split; [done|]. by eapply follows_trans; [| | |exact Hf].
Qed.
Lemma find_auth_type l m a : find_auth l m = Some a → auth_type a = m.
Proof. induction l as [|x l IH]; cbn; [done|]. case_if; [|done]. intros [= <-]. done. Qed.

Lemma control_ok o : res o = mkRes true true true false → state o ≠ STATE_CONNECTING → state o ≠ STATE_UP → res_ok o.
Proof. intros Hr Hc Hu. unfold res_ok. rewrite Hr. by destruct (state o). Qed.

(** [auth_finished] sends the request once the client is authenticated. *)
Lemma request_step w1 o1 ok h :
  h (cli w1) = auth_finished fresh ok o1 →
  sending w1 = None → receiving w1 = None → reports w1 = [] →
  auth_info o1 = auth_info (cli w1) → dest_addr o1 = dest_addr (cli w1) → good_dest w1 →
  res o1 = mkRes true true true false → state o1 ≠ STATE_CONNECTING → state o1 ≠ STATE_UP →
  authed (auth_info (cli w1)) (rx w1) (sent w1) →
  ∃ w', run h w1 = Some w' ∧ follows (negb ok) w1 w'.
Proof.
  intros Hh Hs Hr Hrep Ha Hd [HG1 HG2] Hres Hc Hu Hau. rewrite <-Hd in HG1, HG2. destruct ok.
  - destruct (auth_finished_ok fresh fresh_len o1 HG1 HG2) as (b & E & Hl & Hsl).
    eapply (send_run _ _ _ (upd_state STATE_SENDING_REQUEST (upd_buffer (Some b) o1)) (request (dest_addr o1)) b); try done.
    + by rewrite Hh, E.
    + intros w' Ew HS Hse Hrx. unfold phase. rewrite Ew. cbn. rewrite Ha, Hrx, Hse. done.
  - eapply report_run; [rewrite Hh; apply auth_finished_fail|done|by apply control_ok|done|done|by left].
Qed.

Lemma hello_message w ok d part :
  alive w → good_dest w → state (cli w) = STATE_SENT_HELLO → rx w = part → sent w = [hello (auth_info (cli w))] →
  is_receiving w 0 2 part → 0 < zlen d <= 2 - zlen part → zlen (part ++ d) = 2 →
  ∃ w', wstep fresh w (Received d ok) = Some w' ∧ follows (negb ok) w w'.
Proof.
  intros HA HG Hst Hrx Hse HR Hd Hm. eapply (complete_step w ok 0 2 part d (part ++ d)); try done; try (rewrite Hst; done).
  intros w1 o1 Hrx1 Hse1 Hs Hr Hrep Ha1 Hd1 Hst1 Ha Hda Hres HM _ h Hh. rewrite Hst in Hst1, Hh. cbn [on_message] in Hh.
  rewrite Hrx in Hrx1. destruct (list_two _ Hm) as (v & meth & Em). rewrite Em in *.
  assert (Hok : res_ok o1) by (apply control_ok; [done|rewrite Hst1; done|rewrite Hst1; done]).
  revert Hh. unfold received_hello. mrun. rewrite (read_message _ _ sizeof_server_hello _ HM eq_refl). cbn.
  change (byte 0 [v; meth]) with v. change (byte 1 [v; meth]) with meth. rewrite Ha.
  destruct (v =? SOCKS_VERSION) eqn:Cv; cbn; intros Hh; zb.
  2: { eapply report_run; [exact Hh|done|done|congruence|congruence|]. right. right. rewrite Ha1, Hrx1. cbn.
       by rewrite (proj2 (Z.eqb_neq _ _)). }
  subst v. destruct (find_auth (auth_info (cli w)) meth) as [[|u p]|] eqn:Ef.
  3: { eapply report_run; [exact Hh|done|done|congruence|congruence|]. right. right. rewrite Ha1, Hrx1. cbn.
       by rewrite Ef. }
  - pose proof (find_auth_type _ _ _ Ef) as Et. cbn in Et. subst meth.
    eapply (request_step w1 o1 ok); try done; try congruence.
    + rewrite Hh. by destruct (auth_finished fresh ok o1) as [[[[] ?] ?]|].
    + unfold good_dest. rewrite Hd1. done.
    + rewrite Ha1, Hrx1, Hse1, Hse. by constructor.
  - pose proof (find_auth_type _ _ _ Ef) as Et. cbn in Et. subst meth.
    assert (Hcred : credentials_ok u p =
      negb ((zlen u =? 0) || (zlen u >? 255) || (zlen p =? 0) || (zlen p >? 255))).
    { unfold credentials_ok. pose proof (zlen_nonneg u). pose proof (zlen_nonneg p).
      apply eq_true_iff_eq. rewrite negb_true_iff, !andb_true_iff, !orb_false_iff, !Z.ltb_lt, !Z.leb_le, !Z.eqb_neq.
      rewrite !Z.gtb_ltb, !Z.ltb_ge. lia. }
    destruct ((zlen u =? 0) || _ || _ || _) eqn:Cc; cbn in Hcred.
    { eapply report_run; [exact Hh|done|done|congruence|congruence|]. right. right. rewrite Ha1, Hrx1. cbn.
      by rewrite Ef, Hcred. }
    destruct ok.
    2: { rewrite reserve_fail in Hh. eapply report_run; [exact Hh|done|done|congruence|congruence|by left]. }
    assert (Hlen : zlen (password_message u p) = 1 + 1 + zlen u + 1 + zlen p).
    { unfold password_message. rewrite !zlen_app. change (zlen [_; _]) with 2. change (zlen [_]) with 1. lia. }
    pose proof (zlen_nonneg u). pose proof (zlen_nonneg p).
    destruct (reserve_ok fresh fresh_len (bsize_fromsize (1 + 1 + zlen u + 1 + zlen p)) o1) as (b & Hb & Er);
      [done|cbn; lia|]. cbn in Hb.
    destruct (password_ok u p (upd_buffer (Some b) o1) b) as (b' & Ep & Hz & Hsl); [done|done|lia|].
    rewrite Er in Hh. cbn in Hh. rewrite Ep in Hh. cbn in Hh.
    eapply (send_run _ _ _ (upd_state STATE_SENDING_PASSWORD (upd_buffer (Some b') (upd_buffer (Some b) o1)))
              (password_message u p) b');
      [by rewrite Hh, Hlen|done|done|done|lia|by rewrite Hlen, <-Hb|cbn; congruence|cbn; congruence|done|done|done|].
    intros w' Ew HS Hse' Hrx'. unfold phase. rewrite Ew. cbn. exists u, p. rewrite Ha, Hrx', Hrx1, Hse', Hse1, Hse.
    split_and!; done.
Qed.

Lemma password_reply_message w ok d u p part :
  alive w → good_dest w → state (cli w) = STATE_SENT_PASSWORD →
  find_auth (auth_info (cli w)) 2 = Some (BSocksClient_auth_password u p) → credentials_ok u p = true →
  rx w = [5; 2] ++ part → sent w = [hello (auth_info (cli w)); password_message u p] →
  is_receiving w 0 2 part → 0 < zlen d <= 2 - zlen part → zlen (part ++ d) = 2 →
  ∃ w', wstep fresh w (Received d ok) = Some w' ∧ follows (negb ok) w w'.
Proof.
  intros HA HG Hst Hf Hcr Hrx Hse HR Hd Hm.
  eapply (complete_step w ok 0 2 part d (part ++ d)); try done; try (rewrite Hst; done).
  intros w1 o1 Hrx1 Hse1 Hs Hr Hrep Ha1 Hd1 Hst1 Ha Hda Hres HM _ h Hh. rewrite Hst in Hst1, Hh. cbn [on_message] in Hh.
  rewrite Hrx, <-app_assoc in Hrx1. destruct (list_two _ Hm) as (x & y & Em). rewrite Em in *.
  assert (Hok : res_ok o1) by (apply control_ok; [done|rewrite Hst1; done|rewrite Hst1; done]).
  revert Hh. unfold received_password_reply. mrun. rewrite (read_message _ _ 2 _ HM eq_refl). cbn.
  change (byte 0 [x; y]) with x. change (byte 1 [x; y]) with y.
  destruct (x =? 1) eqn:Cx, (y =? 0) eqn:Cy; cbn; intros Hh; zb.
  - subst x y. eapply (request_step w1 o1 ok); try done; try congruence.
    + rewrite Hh. by destruct (auth_finished fresh ok o1) as [[[[] ?] ?]|].
    + unfold good_dest. rewrite Hd1. done.
    + rewrite Ha1, Hrx1, Hse1, Hse. by econstructor.
  - eapply report_run; [exact Hh|done|done|congruence|congruence|]. right. right. rewrite Ha1, Hrx1. cbn.
    rewrite Hf, Hcr. by rewrite (proj2 (Z.eqb_neq y 0)), andb_false_r.
  - eapply report_run; [exact Hh|done|done|congruence|congruence|]. right. right. rewrite Ha1, Hrx1. cbn.
    rewrite Hf, Hcr. by rewrite (proj2 (Z.eqb_neq x 1)).
  - eapply report_run; [exact Hh|done|done|congruence|congruence|]. right. right. rewrite Ha1, Hrx1. cbn.
    rewrite Hf, Hcr. by rewrite (proj2 (Z.eqb_neq x 1)).
Qed.

(** The verdict after authentication is that of the reply. *)
Lemma dialogue_authed auth pre msgs r : authed auth pre msgs → dialogue auth (pre ++ r) = reply_verdict r.
Proof. intros [Hf|u p Hf Hc]; cbn; rewrite Hf; [done|]. by rewrite Hc. Qed.

Lemma reply_header_message w ok d pre msgs part :
  alive w → state (cli w) = STATE_SENT_REQUEST → authed (auth_info (cli w)) pre msgs →
  rx w = pre ++ part → sent w = msgs ++ [request (dest_addr (cli w))] →
  is_receiving w 0 4 part → (∀ b, buffer (cli w) = Some b → 22 <= zlen b) →
  0 < zlen d <= 4 - zlen part → zlen (part ++ d) = 4 →
  ∃ w', wstep fresh w (Received d ok) = Some w' ∧ follows (negb ok) w w'.
Proof.
  intros HA Hst Hau Hrx Hse HR Hbuf Hd Hm.
  eapply (complete_step w ok 0 4 part d (part ++ d)); try done; try (rewrite Hst; done).
  intros w1 o1 Hrx1 Hse1 Hs Hr Hrep Ha1 Hd1 Hst1 Ha Hda Hres HM Hbl h Hh. rewrite Hst in Hst1, Hh. cbn [on_message] in Hh.
  rewrite Hrx, <-app_assoc in Hrx1. destruct (list_four _ Hm) as (v & rep & rsv & atyp & Em). rewrite Em in *.
  assert (Hok : res_ok o1) by (apply control_ok; [done|rewrite Hst1; done|rewrite Hst1; done]).
  assert (Hdl : dialogue (auth_info (cli w1)) (rx w1) = reply_verdict [v; rep; rsv; atyp]).
  { rewrite Ha1, Hrx1. by eapply dialogue_authed. }
  revert Hh. unfold received_reply_header. mrun. rewrite (read_message _ _ sizeof_reply_header _ HM eq_refl). cbn. cbn in Hdl.
  change (byte 0 [v; rep; rsv; atyp]) with v. change (byte 1 [v; rep; rsv; atyp]) with rep.
  change (byte 3 [v; rep; rsv; atyp]) with atyp.
  destruct (v =? SOCKS_VERSION) eqn:Cv; cbn.
  2: { intros Hh. eapply report_run; [exact Hh|done|done|congruence|congruence|auto]. }
  destruct (rep =? SOCKS_REP_SUCCEEDED) eqn:Cr; cbn.
  2: { intros Hh. eapply report_run; [exact Hh|done|done|congruence|congruence|auto]. }
  zb. unfold SOCKS_VERSION, SOCKS_REP_SUCCEEDED in *. subst v rep.
  assert (Hgo : ∀ n, ((atyp = 1 ∧ n = 6) ∨ (atyp = 4 ∧ n = 18)) →
    h (cli w1) = Some (tt, upd_state STATE_RECEIVED_REPLY_HEADER (upd_recv 4 0 n o1), [Recv (4 + 0) (n - 0)]) →
    ∃ w', run h w1 = Some w' ∧ follows (negb ok) w1 w').
  { intros n Hn Hh. destruct HM as (b & Hb & _). destruct HR as (b0 & Hb0 & _). specialize (Hbuf _ Hb0).
    rewrite <-(Hbl _ _ Hb0 Hb) in Hbuf.
    eapply (recv_run _ _ _ (upd_state STATE_RECEIVED_REPLY_HEADER (upd_recv 4 0 n o1)) 4 n [] b);
      [exact Hh|done|done|done|lia|lia|done|done|done|rewrite zlen_nil; lia|done|cbn; congruence|cbn; congruence|
       done|done|done|].
    intros w' Ew HR' Hse' Hrx'. unfold phase. rewrite Ew. cbn. rewrite Hse', Hrx', Ha, Hda.
    exists pre, msgs, [5; 0; rsv; atyp], n, []. rewrite app_nil_r, Hse1, Hse.
    split_and!; try done. by exists rsv, atyp. }
  unfold start_receive, do_receive. unfold_res.
  destruct (atyp =? SOCKS_ATYP_IPV4) eqn:Ct; [zb; intros Hh; apply (Hgo 6); [by left|exact Hh]|].
  destruct (atyp =? SOCKS_ATYP_IPV6) eqn:Ct6; [zb; intros Hh; apply (Hgo 18); [by right|exact Hh]|].
  intros Hh. eapply report_run; [exact Hh|done|done|congruence|congruence|auto].
Qed.

Lemma reply_rest_message w ok d pre msgs hd n part :
  alive w → state (cli w) = STATE_RECEIVED_REPLY_HEADER → authed (auth_info (cli w)) pre msgs → header_ok hd n →
  rx w = pre ++ hd ++ part → sent w = msgs ++ [request (dest_addr (cli w))] →
  is_receiving w 4 n part → 0 < zlen d <= n - zlen part → zlen (part ++ d) = n →
  ∃ w', wstep fresh w (Received d ok) = Some w' ∧ follows (negb ok) w w'.
Proof.
  intros HA Hst Hau Hhd Hrx Hse HR Hd Hm.
  eapply (complete_step w ok 4 n part d (part ++ d)); try done; try (rewrite Hst; done).
  intros w1 o1 Hrx1 Hse1 Hs Hr Hrep Ha1 Hd1 Hst1 Ha Hda Hres HM Hbl h Hh. rewrite Hst in Hst1, Hh. cbn [on_message] in Hh.
  revert Hh. unfold received_reply_rest. unfold_res. mrun. rewrite Hres. cbn. intros Hh.
  rewrite (run_eq _ _ _ _ Hh). cbn. eexists. split; [reflexivity|]. split; [cbn; congruence|]. split; [cbn; congruence|].
  left. split_and!.
  - unfold phase. cbn. rewrite Hrx1, Hse1, Ha, Hda, Hrx, <-!app_assoc.
    exists pre, msgs, hd, n, (part ++ d). by split_and!.
  - done.
  - unfold reports_ok. cbn. by rewrite Hrep.
Qed.
Lemma received_step w ok d off len :
  alive w → good_dest w → receiving w = Some (off, len) → 0 < zlen d <= len →
  ∃ w', wstep fresh w (Received d ok) = Some w' ∧ follows (env_failure (Received d ok)) w w'.
Proof.
  intros HA HG Hrv Hd. cbn [env_failure]. pose proof HA as [HP _]. unfold phase in HP.
  assert (Hpos : ∀ o n part, is_receiving w o n part → 0 < zlen d <= n - zlen part).
  { intros o n part (b & _ & _ & _ & _ & _ & _ & _ & _ & _ & E). rewrite Hrv in E. injection E as -> ->. done. }
  assert (Hsp : ∀ o n part, is_receiving w o n part → zlen (part ++ d) < n ∨ zlen (part ++ d) = n).
  { intros o n part HR. specialize (Hpos _ _ _ HR). rewrite zlen_app. lia. }
  destruct (state (cli w)) eqn:Hs.
  - destruct HP as (_ & _ & _ & ?). congruence.
  - destruct HP as (_ & _ & b & _ & _ & ? & _). congruence.
  - destruct HP as (Hse & HR). destruct (Hsp _ _ _ HR) as [Hlt|Heq]; [|by eapply hello_message; eauto].
    eapply incomplete_step; eauto; [by rewrite Hs|]. intros w' Ha Hd' Hst HR' Hse' Hrx' _.
    unfold phase. rewrite Hst, Hs. rewrite Ha, Hse', Hrx'. done.
  - destruct HP as (? & ? & _ & _ & _ & _ & b & _ & _ & ? & _). congruence.
  - destruct HP as (u & p & part & Hf & Hcr & Hrx & Hse & HR).
    destruct (Hsp _ _ _ HR) as [Hlt|Heq]; [|by eapply password_reply_message; eauto].
    eapply incomplete_step; eauto; [by rewrite Hs|]. intros w' Ha Hd' Hst HR' Hse' Hrx' _.
    unfold phase. rewrite Hst, Hs. rewrite Ha, Hse', Hrx', Hrx. exists u, p, (part ++ d). rewrite <-app_assoc. done.
  - destruct HP as (_ & b & _ & _ & ? & _). congruence.
  - destruct HP as (pre & msgs & part & Hau & Hrx & Hse & HR & Hbuf).
    destruct (Hsp _ _ _ HR) as [Hlt|Heq]; [|by eapply reply_header_message; eauto].
    eapply incomplete_step; eauto; [by rewrite Hs|]. intros w' Ha Hd' Hst HR' Hse' Hrx' Hbl.
    unfold phase. rewrite Hst, Hs. rewrite Ha, Hd', Hse', Hrx', Hrx. exists pre, msgs, (part ++ d). rewrite <-app_assoc.
    split_and!; try done. intros b' Eb'. destruct HR as (b & Eb & _). rewrite (Hbl _ _ Eb Eb'). auto.
  - destruct HP as (pre & msgs & hd & n & part & Hau & Hhd & Hrx & Hse & HR).
    destruct (Hsp _ _ _ HR) as [Hlt|Heq]; [|by eapply reply_rest_message; eauto].
    eapply incomplete_step; eauto; [by rewrite Hs|]. intros w' Ha Hd' Hst HR' Hse' Hrx' _.
    unfold phase. rewrite Hst, Hs. rewrite Ha, Hd', Hse', Hrx', Hrx. exists pre, msgs, hd, n, (part ++ d).
    rewrite <-!app_assoc. done.
  - destruct HP as (? & ? & ? & ? & ? & _ & _ & _ & _ & _ & _ & _ & ?). congruence.
Qed.

Lemma closed_step w c :
  alive w → state (cli w) ≠ STATE_CONNECTING →
  ∃ w', wstep fresh w (Closed c) = Some w' ∧ follows (env_failure (Closed c)) w w'.
Proof.
  intros HA Hs. destruct (alive_facts w HA) as [HR _]. cbn [wstep env_failure].
  destruct (bool_decide (state (cli w) = STATE_UP) && c) eqn:E.
  - eapply (report_run _ _ _ (cli w) EVENT_ERROR_CLOSED); try done; [|by left].
    unfold connection_handler. mrun. rewrite bool_decide_false by done. cbn. by rewrite E.
  - eapply (report_run _ _ _ (cli w) EVENT_ERROR); try done; [|by left].
    unfold connection_handler. mrun. rewrite bool_decide_false by done. cbn. by rewrite E.
Qed.

Lemma socks_step w e :
  alive w → good_dest w → allowed w e = true → ∃ w', wstep fresh w e = Some w' ∧ follows (env_failure e) w w'.
Proof.
  intros HA HG Hal. unfold allowed in Hal. apply andb_true_iff in Hal as [_ Hal]. destruct e as [ie co ok|ok|d ok|c].
  - apply bool_decide_eq_true in Hal. by apply connector_event_step.
  - apply bool_decide_eq_true in Hal as [len Hs]. by eapply sent_event_step.
  - destruct (receiving w) as [[off len]|] eqn:Hr; [|done]. zb. eapply received_step; eauto.
  - apply negb_true_iff, bool_decide_eq_false in Hal. by apply closed_step.
Qed.

Lemma socks_run es : ∀ w,
  alive w → good_dest w → all_allowed fresh w es = true →
  ∃ w', wrun fresh w es = Some w' ∧
        auth_info (cli w') = auth_info (cli w) ∧ dest_addr (cli w') = dest_addr (cli w) ∧
        (alive w' ∨ dead (existsb env_failure es) w').
Proof.
  induction es as [|e es IH]; intros w HA HG; cbn [all_allowed wrun].
  - intros _. exists w. split; [done|]. split_and!; try done. by left.
  - intros [Hal Hr]%andb_true_iff. destruct (socks_step w e HA HG Hal) as (w1 & E1 & Ha1 & Hd1 & H1).
    rewrite E1 in Hr |- *. cbn [mbind option_bind existsb]. destruct H1 as [HA1|[HD1 _]].
    + destruct (IH w1 HA1) as (w2 & E2 & Ha2 & Hd2 & H2); [|done|].
      { unfold good_dest. rewrite Hd1. done. }
      exists w2. split; [done|]. split; [congruence|]. split; [congruence|]. destruct H2 as [?|(? & ? & H2)]; [by left|right].
      split_and!; try done. rewrite orb_true_iff. tauto.
    + destruct es as [|e2 es]; [|exfalso; cbn in Hr; unfold allowed in Hr; by rewrite (proj1 HD1) in Hr].
      exists w1. split; [done|]. split; [done|]. split; [done|]. right. by rewrite orb_false_r.
Qed.

End Steps.

(** ** The dialogue *)

Lemma script_authed auth dest pre msgs r :
  authed auth pre msgs → script auth dest (pre ++ r) = msgs ++ [request dest].
Proof. intros [Hf|u p Hf Hc]; cbn; by rewrite Hf. Qed.

Lemma reply_incomplete r : zlen r < 4 → reply_verdict r = Wait.
Proof.
  destruct r as [|a [|b [|c [|d l]]]]; try done. rewrite !zlen_cons. pose proof (zlen_nonneg l). lia.
Qed.

Lemma reply_header h n r : header_ok h n → reply_verdict (h ++ r) = if zlen r <? n then Wait else Up.
Proof. intros (rsv & atyp & -> & [[-> ->]|[-> ->]]); done. Qed.

Lemma short_hello auth dest (rx : list Z) : zlen rx < 2 → dialogue auth rx = Wait ∧ script auth dest rx = [hello auth].
Proof. destruct rx as [|a [|b l]]; try done. rewrite !zlen_cons. pose proof (zlen_nonneg l). lia. Qed.

Lemma receiving_short w off n part : is_receiving w off n part → zlen part < n.
Proof. by intros (b & _ & _ & _ & _ & _ & _ & _ & ? & _). Qed.

(** What a client that has not failed tells about the dialogue. *)
Lemma alive_verdict w : alive w →
  if bool_decide (state (cli w) = STATE_UP)
  then reports w = [EVENT_UP] ∧ dialogue (auth_info (cli w)) (rx w) = Up ∧
       sent w = script (auth_info (cli w)) (dest_addr (cli w)) (rx w)
  else reports w = [] ∧ dialogue (auth_info (cli w)) (rx w) = Wait ∧
       sent w `prefix_of` script (auth_info (cli w)) (dest_addr (cli w)) (rx w).
Proof.
  intros (HP & _ & HO). unfold reports_ok in HO. unfold phase in HP. rewrite HO. clear HO.
  destruct (state (cli w)); case_bool_decide as Hb; try done; clear Hb.
  - destruct HP as (-> & -> & _). split_and!; try done. apply prefix_nil.
  - destruct HP as (-> & -> & _). split_and!; try done. apply prefix_nil.
  - destruct HP as (-> & HR). apply receiving_short in HR.
    destruct (short_hello (auth_info (cli w)) (dest_addr (cli w)) _ HR) as [-> ->]. by split_and!.
  - destruct HP as (u & p & Hf & Hc & -> & -> & _). cbn. rewrite Hf, Hc. split_and!; try done.
    by exists [password_message u p; request (dest_addr (cli w))].
  - destruct HP as (u & p & part & Hf & Hc & -> & -> & HR). apply receiving_short in HR. cbn. rewrite Hf, Hc.
    split_and!; try done; [|by exists [request (dest_addr (cli w))]].
    destruct part as [|a [|b l]]; try done. rewrite !zlen_cons in HR. pose proof (zlen_nonneg l). lia.
  - destruct HP as (Hau & _). rewrite <-(app_nil_r (rx w)).
    rewrite (dialogue_authed _ _ _ _ Hau), (script_authed _ _ _ _ _ Hau). split_and!; try done. by eexists.
  - destruct HP as (pre & msgs & part & Hau & -> & -> & HR & _). apply receiving_short in HR.
    rewrite (dialogue_authed _ _ _ _ Hau), (script_authed _ _ _ _ _ Hau), reply_incomplete by done. by split_and!.
  - destruct HP as (pre & msgs & h & n & part & Hau & Hh & -> & -> & HR). apply receiving_short in HR.
    rewrite (dialogue_authed _ _ _ _ Hau), (script_authed _ _ _ _ _ Hau), (reply_header _ _ _ Hh). zdec. by split_and!.
  - destruct HP as (pre & msgs & h & n & part & Hau & Hh & Hn & -> & -> & _).
    rewrite (dialogue_authed _ _ _ _ Hau), (script_authed _ _ _ _ _ Hau), (reply_header _ _ _ Hh). zdec. by split_and!.
Qed.

(** A new client. *)
Definition start (o : BSocksClient) : world := mkW o None None [] [] [].

Lemma start_alive server auth dest o :
  BSocksClient_Init server auth dest true = Some (Some o) → baddr_ok dest →
  alive (start o) ∧ good_dest (start o) ∧ auth_info o = auth ∧ dest_addr o = dest.
Proof.
  unfold BSocksClient_Init. case_if; [done|]. intros [= <-] Hd. zb. by split_and!.
Qed.

(** C8: The handshake.  For every way the server's bytes are cut into
    pieces and every failure of memory and connection, the client follows the
    dialogue: it reports nothing while the bytes received so far decide
    nothing, having sent a part of the expected messages; it reports that
    the connection is up exactly when they accept it, having sent the hello,
    the password if the server chose that method, and the request for the
    destination, and having consumed nothing beyond the reply; and an error
    has one of the causes: the environment failed, the list of methods cannot
    be sent, or the server's bytes (or the credentials it asked for) are
    unacceptable. *)
Theorem socks_dialogue (fresh : Z → list Z) server auth dest o es :
  (∀ n, 0 <= n → zlen (fresh n) = n) → baddr_ok dest →
  BSocksClient_Init server auth dest true = Some (Some o) → all_allowed fresh (start o) es = true →
  ∃ w, wrun fresh (start o) es = Some w ∧
    match reports w with
    | [] => dialogue auth (rx w) = Wait ∧ sent w `prefix_of` script auth dest (rx w)
    | [EVENT_UP] => dialogue auth (rx w) = Up ∧ sent w = script auth dest (rx w)
    | _ => existsb env_failure es = true ∨ bad_config auth ∨ dialogue auth (rx w) = Fail
    end.
Proof.
  intros Hf Hd Hi HA. destruct (start_alive _ _ _ _ Hi Hd) as (H1 & H2 & Ha & Hda).
  destruct (socks_run fresh Hf es (start o) H1 H2 HA) as (w & E & Ea & Ed & [HL|HD]); exists w; (split; [done|]).
  - pose proof (alive_verdict w HL) as HV. cbn in Ea, Ed. rewrite Ea, Ed, Ha, Hda in HV.
    case_bool_decide; destruct HV as (-> & ?); done.
  - destruct HD as (Hfl & _ & Hc). cbn in Ea. rewrite Ea, Ha in Hc. unfold failed in Hfl.
    destruct (reports w) as [|[] [|]]; try done; tauto.
Qed.

Lemma socks_dialogue_witness :
  ∃ o, BSocksClient_Init (BAddr_MakeIPv4 1 2) [BSocksClient_auth_none; BSocksClient_auth_password [117] [112; 119]]
         (BAddr_MakeIPv4 16909060 20480) true = Some (Some o) ∧
  ∃ w, wrun (λ n, replicate (Z.to_nat n) 0) (start o)
         [Connector false true true; Sent true; Received [5] true; Received [2] true; Sent true;
          Received [1; 0] true; Sent true; Received [5; 0; 0] true; Received [1] true;
          Received [9; 9; 9; 9; 0; 80] true] = Some w ∧
    match reports w with
    | [] => dialogue [BSocksClient_auth_none; BSocksClient_auth_password [117] [112; 119]] (rx w) = Wait ∧
            sent w `prefix_of` script [BSocksClient_auth_none; BSocksClient_auth_password [117] [112; 119]]
                                 (BAddr_MakeIPv4 16909060 20480) (rx w)
    | [EVENT_UP] => dialogue [BSocksClient_auth_none; BSocksClient_auth_password [117] [112; 119]] (rx w) = Up ∧
            sent w = script [BSocksClient_auth_none; BSocksClient_auth_password [117] [112; 119]]
                       (BAddr_MakeIPv4 16909060 20480) (rx w)
    | _ => existsb env_failure
             [Connector false true true; Sent true; Received [5] true; Received [2] true; Sent true;
              Received [1; 0] true; Sent true; Received [5; 0; 0] true; Received [1] true;
              Received [9; 9; 9; 9; 0; 80] true] = true ∨
           bad_config [BSocksClient_auth_none; BSocksClient_auth_password [117] [112; 119]] ∨
           dialogue [BSocksClient_auth_none; BSocksClient_auth_password [117] [112; 119]] (rx w) = Fail
    end.
Proof.
  eexists. split; [reflexivity|]. eapply (socks_dialogue _ (BAddr_MakeIPv4 1 2)).
  - intros n Hn. unfold zlen. rewrite length_replicate. lia.
  - vm_compute. repeat split; discriminate.
  - reflexivity.
  - vm_compute. reflexivity.
Defined.

(** The operation a living client waits for. *)
Definition waits_ok (w : world) : Prop :=
  match sending w, receiving w with
  | Some len, None => ∃ b, buffer (cli w) = Some b ∧ 0 < len <= zlen b
  | None, Some (off, len) => ∃ b, buffer (cli w) = Some b ∧ 0 <= off ∧ 0 < len ∧ off + len <= zlen b
  | None, None => state (cli w) = STATE_CONNECTING ∨ state (cli w) = STATE_UP
  | Some _, Some _ => False
  end.

Lemma sending_waits w msg : is_sending w msg → 0 < zlen msg → waits_ok w.
Proof. intros (b & Hb & Hs & Hr & Hl & _) Hp. unfold waits_ok. rewrite Hs, Hr. exists b. done. Qed.

Lemma receiving_waits w off n part : is_receiving w off n part → waits_ok w.
Proof.
  intros (b & Hb & Hs & H0 & Hl & _ & _ & _ & Hlt & _ & Hr). unfold waits_ok. rewrite Hs, Hr.
  pose proof (zlen_nonneg part). exists b. split_and!; (done || lia).
Qed.

Lemma alive_waits w : alive w → good_dest w → waits_ok w.
Proof.
  intros (HP & _ & _) [Hd Hv]. unfold phase in HP. destruct (state (cli w)) eqn:Hs.
  - destruct HP as (_ & _ & H1 & H2). unfold waits_ok. rewrite H1, H2. by left.
  - destruct HP as (_ & _ & HS). eapply sending_waits; [done|]. rewrite zlen_hello.
    pose proof (zlen_nonneg (auth_info (cli w))). lia.
  - destruct HP as (_ & HR). by eapply receiving_waits.
  - destruct HP as (u & p & _ & _ & _ & _ & HS). eapply sending_waits; [done|].
    unfold password_message. rewrite !zlen_app. change (zlen [1; zlen u]) with 2.
    pose proof (zlen_nonneg u). pose proof (zlen_nonneg p). pose proof (zlen_nonneg [zlen p]). lia.
  - destruct HP as (u & p & part & _ & _ & _ & _ & HR). by eapply receiving_waits.
  - destruct HP as (_ & HS). eapply sending_waits; [done|]. rewrite zlen_request by done.
    destruct (dest_addr (cli w)); [done|lia|lia].
  - destruct HP as (? & ? & ? & _ & _ & _ & HR & _). by eapply receiving_waits.
  - destruct HP as (? & ? & ? & ? & ? & _ & _ & _ & _ & HR). by eapply receiving_waits.
  - destruct HP as (? & ? & ? & ? & ? & _ & _ & _ & _ & _ & _ & H1 & H2). unfold waits_ok. rewrite H1, H2. by right.
Qed.

Lemma free_ok o : res_ok o → ∃ o', BSocksClient_Free o = Some (tt, o', []) ∧ buffer o' = None ∧ res o' = mkRes false false false false.
Proof.
  intros HR. unfold res_ok in HR. unfold BSocksClient_Free. unfold_res. mrun.
  destruct o as [ai da st bf rd rl rt rs]. cbn in *. subst rs.
  destruct st; cbn; destruct bf; cbn; eexists; (split; [reflexivity|]); done.
Qed.

(** Memory and resources of the handshake.  In every such run no
    assertion of the code fails, the client waits for at most one operation
    on the connection and its range lies in the allocated buffer, and at any
    moment, before or after an error, [BSocksClient_Free] releases exactly
    what is initialised and nothing twice. *)
Lemma socks_safe (fresh : Z → list Z) server auth dest o es :
  (∀ n, 0 <= n → zlen (fresh n) = n) → baddr_ok dest →
  BSocksClient_Init server auth dest true = Some (Some o) → all_allowed fresh (start o) es = true →
  ∃ w, wrun fresh (start o) es = Some w ∧
    (failed w = false → waits_ok w) ∧
    ∃ o', BSocksClient_Free (cli w) = Some (tt, o', []) ∧ buffer o' = None ∧
          res o' = mkRes false false false false.
Proof.
  intros Hf Hd Hi HA. destruct (start_alive _ _ _ _ Hi Hd) as (H1 & H2 & Ha & Hda).
  destruct (socks_run fresh Hf es (start o) H1 H2 HA) as (w & E & Ea & Ed & HL); exists w; (split; [done|]).
  split; [|apply free_ok; by destruct HL as [(_ & ? & _)|(_ & ? & _)]].
  intros Hfl. destruct HL as [HL|(? & _)]; [|congruence]. apply alive_waits; [done|].
  unfold good_dest in *. by rewrite Ed.
Qed.

Lemma socks_safe_witness :
  ∃ o, BSocksClient_Init (BAddr_MakeIPv4 1 2) [BSocksClient_auth_none] (BAddr_MakeIPv6 (replicate 16 7) 20480) true = Some (Some o) ∧
  ∃ w, wrun (λ n, replicate (Z.to_nat n) 0) (start o)
         [Connector false true true; Sent true; Received [5] true; Received [0] true] = Some w ∧
    (failed w = false → waits_ok w) ∧
    ∃ o', BSocksClient_Free (cli w) = Some (tt, o', []) ∧ buffer o' = None ∧ res o' = mkRes false false false false.
Proof.
  eexists. split; [reflexivity|]. eapply (socks_safe _ (BAddr_MakeIPv4 1 2) [BSocksClient_auth_none] (BAddr_MakeIPv6 (replicate 16 7) 20480)).
  - intros n Hn. unfold zlen. rewrite length_replicate. lia.
  - unfold baddr_ok. split_and!; [|done|vm_compute; split; discriminate].
    repeat constructor; vm_compute; discriminate.
  - reflexivity.
  - vm_compute. reflexivity.
Defined.
