(* ===== verification/UdpGwClient.v ===== *)
(** * UDP gateway client ([udpgw_client/UdpGwClient.c],
      [protocol/udpgw_proto.h])

    UDP packets travel to a gateway over one TCP connection; every pair of
    local and remote address gets a connection with a 16-bit id.  The two
    search trees of connections are finite maps (their comparators are what
    [BAvlOrder] needs to treat the trees as sorted lists), the list of connections, oldest use
    first, is a list.  Connections live in a store and are known by their
    address there, so that changing one changes it for both trees and the
    list.  Sending goes through the connection's packet flow, which may be out
    of buffer; memory may run out. *)

From S2P Require Import Prelude Net PacketProto BAvl BAvlOrder.

Definition UDPGW_CLIENT_FLAG_KEEPALIVE : Z := 1.
Definition UDPGW_CLIENT_FLAG_REBIND : Z := 2.
Definition UDPGW_CLIENT_FLAG_DNS : Z := 4.
Definition UDPGW_CLIENT_FLAG_IPV6 : Z := 8.

(** Sizes of [struct udpgw_header], [udpgw_addr_ipv4], [udpgw_addr_ipv6] and,
    used by the Android build to compute the MTU, [socks_udp_header]. *)
Definition sizeof_udpgw_header : Z := 3.
Definition sizeof_udpgw_addr_ipv4 : Z := 6.
Definition sizeof_udpgw_addr_ipv6 : Z := 18.
Definition sizeof_socks_udp_header : Z := 4.

Definition udpgw_compute_mtu (dgram_mtu : Z) : Z :=
  let bs := bsize_add (bsize_fromsize sizeof_socks_udp_header)
              (bsize_add (bsize_max (bsize_fromsize sizeof_udpgw_addr_ipv4) (bsize_fromsize sizeof_udpgw_addr_ipv6))
                 (bsize_fromint dgram_mtu)) in
  match bsize_toint bs with None => -1 | Some s => s end.

(** [struct UdpGwClient_conaddr]: local and remote address *)
Record UdpGwClient_conaddr := mkConaddr { local_addr : BAddr; remote_addr : BAddr }.

#[export] Instance conaddr_eq_dec : EqDecision UdpGwClient_conaddr.
Proof. solve_decision. Defined.
#[export] Instance conaddr_countable : Countable UdpGwClient_conaddr.
Proof.
  refine (inj_countable' (λ c, (local_addr c, remote_addr c)) (λ '(l, r), mkConaddr l r) _). by intros [].
Defined.

Definition conaddr_comparator (v1 v2 : UdpGwClient_conaddr) : Z :=
  let r := BAddr_CompareOrder (remote_addr v1) (remote_addr v2) in
  if negb (r =? 0) then r else BAddr_CompareOrder (local_addr v1) (local_addr v2).

Definition uint16_comparator (v1 v2 : Z) : Z := B_COMPARE v1 v2.

(** The trees of connections keep to the contract of the search tree. *)
#[export] Instance uint16_tree : Comparator uint16_comparator := Avl.B_COMPARE_comparator.
#[export] Instance conaddr_tree :
  Comparator (λ c d : {c | baddr_ok (remote_addr c) ∧ baddr_ok (local_addr c)}, conaddr_comparator (`c) (`d)).
Proof.
  refine (Avl.comap_comparator
    (Avl.lex (λ a b : {a : BAddr | baddr_ok a}, BAddr_CompareOrder (`a) (`b))
             (λ a b : {a : BAddr | baddr_ok a}, BAddr_CompareOrder (`a) (`b)))
    (λ c, (exist _ (remote_addr (`c)) (proj1 (proj2_sig c)), exist _ (local_addr (`c)) (proj2 (proj2_sig c))))).
  apply Avl.lex_comparator; apply Avl.baddr_comparator.
Qed.

(** [struct UdpGwClient_connection]; [first]: the first job is set, and the
    flags and data it will send. *)
Record UdpGwClient_connection := mkCon {
  conaddr : UdpGwClient_conaddr;
  conid : Z;
  first : option (Z * list Z)
}.

(** Addresses of connections. *)
Definition ptr := nat.

Record UdpGwClient := mkClient {
  udp_mtu : Z;
  max_connections : Z;
  udpgw_mtu : Z;
  pp_mtu : Z;
  connections_tree_by_conaddr : gmap UdpGwClient_conaddr ptr;
  connections_tree_by_conid : gmap Z ptr;
  connections_list : list ptr;
  num_connections : Z;
  next_conid : Z;
  store : gmap ptr UdpGwClient_connection;
  keepalive_sending : bool;
  have_server : bool
}.

(** [WritePacket conid d]: a packet enters the flow of a connection;
    [OutOfBuffer]: it was dropped. *)
Inductive eff :=
  | WritePacket (conid : Z) (d : list Z)
  | OutOfBuffer
  | SendKeepalive (d : list Z)
  | AcceptPacket
  | HandlerReceived (local remote : BAddr) (d : list Z)
  | HandlerServerError.

Definition UM := M UdpGwClient eff.

(** ** Access to the state *)

Definition set_trees (ta : gmap UdpGwClient_conaddr ptr) (ti : gmap Z ptr) (o : UdpGwClient) : UdpGwClient :=
  mkClient (udp_mtu o) (max_connections o) (udpgw_mtu o) (pp_mtu o) ta ti (connections_list o)
    (num_connections o) (next_conid o) (store o) (keepalive_sending o) (have_server o).
Definition set_list (l : list ptr) (n : Z) (o : UdpGwClient) : UdpGwClient :=
  mkClient (udp_mtu o) (max_connections o) (udpgw_mtu o) (pp_mtu o) (connections_tree_by_conaddr o)
    (connections_tree_by_conid o) l n (next_conid o) (store o) (keepalive_sending o) (have_server o).
Definition set_next (n : Z) (o : UdpGwClient) : UdpGwClient :=
  mkClient (udp_mtu o) (max_connections o) (udpgw_mtu o) (pp_mtu o) (connections_tree_by_conaddr o)
    (connections_tree_by_conid o) (connections_list o) (num_connections o) n (store o) (keepalive_sending o)
    (have_server o).
Definition set_store (s : gmap ptr UdpGwClient_connection) (o : UdpGwClient) : UdpGwClient :=
  mkClient (udp_mtu o) (max_connections o) (udpgw_mtu o) (pp_mtu o) (connections_tree_by_conaddr o)
    (connections_tree_by_conid o) (connections_list o) (num_connections o) (next_conid o) s (keepalive_sending o)
    (have_server o).
Definition set_flags (k h : bool) (o : UdpGwClient) : UdpGwClient :=
  mkClient (udp_mtu o) (max_connections o) (udpgw_mtu o) (pp_mtu o) (connections_tree_by_conaddr o)
    (connections_tree_by_conid o) (connections_list o) (num_connections o) (next_conid o) (store o) k h.

(** A connection must exist to be used. *)
Definition deref (p : ptr) : UM UdpGwClient_connection :=
  λ o, match store o !! p with Some c => Some (c, o, []) | None => None end.

(** [BAVL_Insert] fails if the key is present, [BAVL_Remove] takes the node
    out, [LinkedList1_Remove] needs it to be in the list. *)
Definition tree_insert_conaddr (p : ptr) : UM unit :=
  c ← deref p; o ← get;
  ASSERT (bool_decide (connections_tree_by_conaddr o !! conaddr c = None));;
  modify (set_trees (<[conaddr c := p]> (connections_tree_by_conaddr o)) (connections_tree_by_conid o)).
Definition tree_insert_conid (p : ptr) : UM unit :=
  c ← deref p; o ← get;
  ASSERT (bool_decide (connections_tree_by_conid o !! conid c = None));;
  modify (set_trees (connections_tree_by_conaddr o) (<[conid c := p]> (connections_tree_by_conid o))).
Definition tree_remove_conaddr (p : ptr) : UM unit :=
  c ← deref p; o ← get;
  ASSERT (bool_decide (connections_tree_by_conaddr o !! conaddr c = Some p));;
  modify (set_trees (delete (conaddr c) (connections_tree_by_conaddr o)) (connections_tree_by_conid o)).
Definition tree_remove_conid (p : ptr) : UM unit :=
  c ← deref p; o ← get;
  ASSERT (bool_decide (connections_tree_by_conid o !! conid c = Some p));;
  modify (set_trees (connections_tree_by_conaddr o) (delete (conid c) (connections_tree_by_conid o))).
Definition remove_ptr (p : ptr) (l : list ptr) : list ptr := filter (λ q, q ≠ p) l.
Definition list_remove (p : ptr) : UM unit :=
  o ← get;
  ASSERT (bool_decide (p ∈ connections_list o));;
  modify (set_list (remove_ptr p (connections_list o)) (num_connections o)).
Definition list_append (p : ptr) : UM unit :=
  o ← get; modify (set_list (connections_list o ++ [p]) (num_connections o)).

Definition find_connection_by_conaddr (o : UdpGwClient) (a : UdpGwClient_conaddr) : option ptr :=
  connections_tree_by_conaddr o !! a.
Definition find_connection_by_conid (o : UdpGwClient) (id : Z) : option ptr :=
  connections_tree_by_conid o !! id.

(** ** Operations *)

(** The loop ends at the first id that is free; [fuel] bounds the rounds. *)
Fixpoint find_unused_loop (fuel : nat) : UM Z :=
  o ← get;
  match find_connection_by_conid o (next_conid o) with
  | None => mret (next_conid o)
  | Some _ =>
      modify (λ o, if next_conid o =? max_connections o - 1 then set_next 0 o else set_next (next_conid o + 1) o);;
      match fuel with
      | O => ASSERT false;; mret 0
      | S fuel' => find_unused_loop fuel'
      end
  end.

Definition find_unused_conid : UM Z :=
  o ← get;
  ASSERT (num_connections o <? max_connections o);;
  find_unused_loop (Z.to_nat (max_connections o)).

(** The packet of a connection: header, remote address, data. *)
Definition udpgw_packet (flags id : Z) (remote : BAddr) (data : list Z) : list Z :=
  ([u8 flags] ++ le_bytes 2 id) ++
  match remote with
  | BAddr_MakeIPv4 ip port => le_bytes 4 ip ++ le_bytes 2 port
  | BAddr_MakeIPv6 ip port => ip ++ le_bytes 2 port
  | BAddr_MakeNone => []
  end ++ data.

#[global] Arguments udpgw_packet : simpl never.

(** [room]: [BufferWriter_StartPacket] has a buffer.  What is written must
    fit the buffer of [udpgw_mtu] bytes. *)
Definition connection_send (room : bool) (p : ptr) (flags : Z) (data : list Z) : UM unit :=
  con ← deref p; o ← get;
  ASSERT (zlen data <=? udp_mtu o);;
  if negb room then emit OutOfBuffer
  else
    let flags := match remote_addr (conaddr con) with
                 | BAddr_MakeIPv6 _ _ => Z.lor flags UDPGW_CLIENT_FLAG_IPV6
                 | _ => flags
                 end in
    let d := udpgw_packet flags (conid con) (remote_addr (conaddr con)) data in
    ASSERT (zlen d <=? udpgw_mtu o);;
    emit (WritePacket (conid con) d).

(** Moves a connection to the end of the list and sends. *)
Definition use_connection (room : bool) (p : ptr) (flags : Z) (data : list Z) : UM unit :=
  list_remove p;;
  list_append p;;
  connection_send room p flags data.

Definition connection_first_job_handler (room : bool) (p : ptr) : UM unit :=
  con ← deref p;
  match first con with
  | None => ASSERT false
  | Some (flags, data) =>
      modify (λ o, set_store (<[p := mkCon (conaddr con) (conid con) None]> (store o)) o);;
      connection_send room p (Z.lor UDPGW_CLIENT_FLAG_REBIND flags) data
  end.

(** [mem]: where [malloc] puts the connection; [flow_ok]: the packet flow can
    be set up. *)
Definition connection_init (mem : option ptr) (flow_ok : bool) (a : UdpGwClient_conaddr) (flags : Z)
    (data : list Z) : UM unit :=
  o ← get;
  ASSERT (num_connections o <? max_connections o);;
  ASSERT (bool_decide (find_connection_by_conaddr o a = None));;
  ASSERT (zlen data <=? udp_mtu o);;
  match mem with
  | None => mret tt
  | Some p =>
      id ← find_unused_conid;
      if negb flow_ok then mret tt
      else
        modify (λ o, set_store (<[p := mkCon a (u16 id) (Some (flags, data))]> (store o)) o);;
        tree_insert_conaddr p;;
        tree_insert_conid p;;
        list_append p;;
        modify (λ o, set_list (connections_list o) (num_connections o + 1) o)
  end.

Definition connection_free (p : ptr) : UM unit :=
  modify (λ o, set_list (connections_list o) (num_connections o - 1) o);;
  list_remove p;;
  tree_remove_conid p;;
  tree_remove_conaddr p;;
  modify (λ o, set_store (delete p (store o)) o).

Definition reuse_connection (a : UdpGwClient_conaddr) : UM ptr :=
  o ← get;
  ASSERT (bool_decide (find_connection_by_conaddr o a = None));;
  ASSERT (0 <? num_connections o);;
  match connections_list o with
  | [] => ASSERT false;; mret O
  | p :: _ =>
      tree_remove_conaddr p;;
      con ← deref p;
      modify (λ o, set_store (<[p := mkCon a (conid con) (first con)]> (store o)) o);;
      tree_insert_conaddr p;;
      mret p
  end.

Definition UdpGwClient_SubmitPacket (mem : option ptr) (flow_ok room : bool) (local remote : BAddr)
    (is_dns : bool) (data : list Z) : UM unit :=
  o ← get;
  ASSERT (negb (BAddr_IsInvalid local) && negb (BAddr_IsInvalid remote));;
  ASSERT (zlen data <=? udp_mtu o);;
  let a := mkConaddr local remote in
  let con := find_connection_by_conaddr o a in
  let flags := if is_dns then Z.lor 0 UDPGW_CLIENT_FLAG_DNS else 0 in
  '(con, flags) ← (if bool_decide (con = None) && (num_connections o =? max_connections o)
                   then p ← reuse_connection a; mret (Some p, Z.lor flags UDPGW_CLIENT_FLAG_REBIND)
                   else mret (con, flags));
  match con with
  | None => connection_init mem flow_ok a flags data
  | Some p => use_connection room p flags data
  end.

(** The address of a received packet, and what follows it. *)
Definition parse_addr (flags : Z) (data : list Z) : option (BAddr * list Z) :=
  if negb (Z.land flags UDPGW_CLIENT_FLAG_IPV6 =? 0) then
    if zlen data <? sizeof_udpgw_addr_ipv6 then None
    else Some (BAddr_MakeIPv6 (slice 0 16 data) (of_le (slice 16 2 data)), drop 18 data)
  else
    if zlen data <? sizeof_udpgw_addr_ipv4 then None
    else Some (BAddr_MakeIPv4 (of_le (slice 0 4 data)) (of_le (slice 4 2 data)), drop 6 data).

Definition recv_interface_handler_send (data : list Z) : UM unit :=
  o ← get;
  ASSERT (have_server o);;
  ASSERT (zlen data <=? udpgw_mtu o);;
  emit AcceptPacket;;
  if zlen data <? sizeof_udpgw_header then mret tt
  else
    let flags := of_le (slice 0 1 data) in
    let id := of_le (slice 1 2 data) in
    match parse_addr flags (drop 3 data) with
    | None => mret tt
    | Some (remote, data) =>
        if zlen data >? udp_mtu o then mret tt
        else
          match find_connection_by_conid o id with
          | None => mret tt
          | Some p =>
              con ← deref p;
              if negb (BAddr_CompareOrder (remote_addr (conaddr con)) remote =? 0) then mret tt
              else
                list_remove p;;
                list_append p;;
                emit (HandlerReceived (local_addr (conaddr con)) (remote_addr (conaddr con)) data)
          end
    end.

Definition decoder_handler_error : UM unit :=
  o ← get; ASSERT (have_server o);; emit HandlerServerError.

(** [struct UdpGwClient__keepalive_packet] *)
Definition keepalive_packet : list Z := le_bytes 2 3 ++ [UDPGW_CLIENT_FLAG_KEEPALIVE; 0; 0].

Definition send_monitor_handler : UM unit :=
  o ← get;
  if keepalive_sending o then mret tt
  else
    emit (SendKeepalive keepalive_packet);;
    modify (λ o, set_flags true (have_server o) o).

Definition keepalive_if_handler_done : UM unit :=
  o ← get;
  ASSERT (keepalive_sending o);;
  modify (λ o, set_flags false (have_server o) o).

(** [queue_ok]: the send queue can be set up; [None]: an assertion fails. *)
Definition UdpGwClient_Init (mtu maxcon send_buffer_size : Z) (queue_ok : bool) : option (option UdpGwClient) :=
  if negb ((mtu >=? 0) && (udpgw_compute_mtu mtu >=? 0) && (udpgw_compute_mtu mtu <=? PACKETPROTO_MAXPAYLOAD)
           && (maxcon >? 0) && (send_buffer_size >? 0)) then None
  else
    let maxcon := if maxcon >? UINT16_MAX + 1 then UINT16_MAX + 1 else maxcon in
    let m := udpgw_compute_mtu mtu in
    if queue_ok
    then Some (Some (mkClient mtu maxcon m (m + header_size) ∅ ∅ [] 0 0 ∅ false false))
    else Some None.

(** [decoder_ok]: the decoder gets its buffer. *)
Definition UdpGwClient_ConnectServer (decoder_ok : bool) : UM bool :=
  o ← get;
  ASSERT (negb (have_server o));;
  if negb decoder_ok then mret false
  else
    modify (λ o, set_flags (keepalive_sending o) true o);;
    mret true.

Definition UdpGwClient_DisconnectServer : UM unit :=
  o ← get;
  ASSERT (have_server o);;
  modify (λ o, set_flags (keepalive_sending o) false o).

(** The loop of [UdpGwClient_Free] over the connections. *)
Fixpoint free_connections (fuel : nat) : UM unit :=
  o ← get;
  match connections_list o with
  | [] => mret tt
  | p :: _ =>
      connection_free p;;
      match fuel with O => ASSERT false | S fuel' => free_connections fuel' end
  end.

Definition UdpGwClient_Free : UM unit :=
  o ← get;
  free_connections (length (connections_list o));;
  o ← get;
  when (have_server o) (modify (λ o, set_flags (keepalive_sending o) false o)).

(** ** Invariant *)

Definition valid_addr (a : BAddr) : Prop := baddr_ok a ∧ BAddr_IsInvalid a = false.
Definition valid_conaddr (a : UdpGwClient_conaddr) : Prop := valid_addr (local_addr a) ∧ valid_addr (remote_addr a).

Record con_ok (o : UdpGwClient) (c : UdpGwClient_connection) : Prop := mkConOk {
  con_id : 0 <= conid c < max_connections o;
  con_addr : valid_conaddr (conaddr c);
  con_first : ∀ flags data, first c = Some (flags, data) → zlen data <= udp_mtu o
}.

(** The trees, the list and the store describe the same connections. *)
Record inv (o : UdpGwClient) : Prop := mkInv {
  i_mtu : 0 <= udp_mtu o ∧ udpgw_mtu o = 22 + udp_mtu o;
  i_max : 0 < max_connections o <= UINT16_MAX + 1;
  i_nodup : NoDup (connections_list o);
  i_dom p : p ∈ connections_list o ↔ is_Some (store o !! p);
  i_num : num_connections o = zlen (connections_list o);
  i_full : num_connections o <= max_connections o;
  i_addr a p : connections_tree_by_conaddr o !! a = Some p ↔ ∃ c, store o !! p = Some c ∧ conaddr c = a;
  i_id id p : connections_tree_by_conid o !! id = Some p ↔ ∃ c, store o !! p = Some c ∧ conid c = id;
  i_con p c : store o !! p = Some c → con_ok o c;
  i_next : 0 <= next_conid o < max_connections o
}.

(** ** Finding a free id *)

(** The ids in use. *)
Definition used_ids (o : UdpGwClient) : list Z :=
  omap (λ p, conid <$> store o !! p) (connections_list o).

Lemma used_ids_length o : (length (used_ids o) <= length (connections_list o))%nat.
Proof.
  unfold used_ids. induction (connections_list o) as [|p l IH]; cbn; [lia|].
  destruct (conid <$> store o !! p); cbn; lia.
Qed.

Lemma used_ids_elem o id p : inv o → connections_tree_by_conid o !! id = Some p → id ∈ used_ids o.
Proof.
  intros HI Hp. apply (i_id o HI) in Hp as (c & Hc & <-). apply list_elem_of_omap. exists p.
  split; [apply (i_dom o HI); eauto|]. by rewrite Hc.
Qed.

Lemma exists_free_id o : inv o → num_connections o < max_connections o →
  ∃ id, 0 <= id < max_connections o ∧ connections_tree_by_conid o !! id = None.
Proof.
  intros HI Hn. pose proof (i_num o HI) as Hnum. pose proof (i_max o HI).
  destruct (decide (Exists (λ id, connections_tree_by_conid o !! id = None) (seqZ 0 (max_connections o)))) as [HE|HE].
  - apply Exists_exists in HE as (id & Hid & Hnone). apply elem_of_seqZ in Hid. exists id. split; [lia|done].
  - exfalso. apply not_Exists_Forall in HE; [|apply _].
    assert (Hsub : seqZ 0 (max_connections o) ⊆+ used_ids o).
    { apply NoDup_submseteq; [apply NoDup_seqZ|]. intros id Hid. rewrite Forall_forall in HE.
      specialize (HE id Hid). destruct (connections_tree_by_conid o !! id) as [p|] eqn:E; [|done].
      by eapply used_ids_elem. }
    apply submseteq_length in Hsub. rewrite length_seqZ in Hsub. pose proof (used_ids_length o).
    unfold zlen in Hnum. lia.
Qed.

(** [k] rounds of the loop lead [k] ids further. *)
Definition id_after (o : UdpGwClient) (k : Z) : Z := (next_conid o + k) mod max_connections o.

Lemma id_after_succ o k :
  0 <= next_conid o < max_connections o →
  id_after (if next_conid o =? max_connections o - 1 then set_next 0 o else set_next (next_conid o + 1) o) k =
  id_after o (k + 1).
Proof.
  intros Hn. unfold id_after. destruct (next_conid o =? max_connections o - 1) eqn:E; zb; cbn.
  - rewrite E. replace (max_connections o - 1 + (k + 1)) with (k + 1 * max_connections o) by lia.
    rewrite Z.mod_add by lia. done.
  - f_equal. lia.
Qed.

Lemma find_unused_loop_ok fuel : ∀ o,
  0 <= next_conid o < max_connections o →
  (∃ k, 0 <= k <= Z.of_nat fuel ∧ connections_tree_by_conid o !! id_after o k = None) →
  ∃ id, find_unused_loop fuel o = Some (id, set_next id o, []) ∧
        connections_tree_by_conid o !! id = None ∧ 0 <= id < max_connections o.
Proof.
  induction fuel as [|fuel IH]; intros o Hn (k & Hk & Hfree); cbn [find_unused_loop]; mrun;
    unfold find_connection_by_conid;
    destruct (connections_tree_by_conid o !! next_conid o) as [p|] eqn:E.
  - assert (k = 0) as -> by lia. unfold id_after in Hfree. rewrite Z.add_0_r, Z.mod_small in Hfree by lia. congruence.
  - exists (next_conid o). split; [by destruct o|]. done.
  - set (o1 := if next_conid o =? max_connections o - 1 then set_next 0 o else set_next (next_conid o + 1) o).
    assert (Ht : connections_tree_by_conid o1 = connections_tree_by_conid o) by (unfold o1; by case_if).
    assert (Hm : max_connections o1 = max_connections o) by (unfold o1; by case_if).
    assert (Hs : ∀ i, set_next i o1 = set_next i o) by (intros; unfold o1; by case_if).
    assert (Hn1 : 0 <= next_conid o1 < max_connections o1) by (unfold o1; case_if; cbn; lia).
    destruct (IH o1 Hn1) as (id & Eid & Hid & Hr).
    { exists (k - 1). destruct (decide (k = 0)) as [->|]; [|split; [lia|]].
      - unfold id_after in Hfree. rewrite Z.add_0_r, Z.mod_small in Hfree by lia. congruence.
      - rewrite Ht. unfold o1. rewrite id_after_succ by done. by replace (k - 1 + 1) with k by lia. }
    exists id. rewrite Ht in Hid. rewrite Hm in Hr. rewrite Eid, Hs. done.
  - exists (next_conid o). split; [by destruct o|]. done.
Qed.

Lemma find_unused_ok o : inv o → num_connections o < max_connections o →
  ∃ id, find_unused_conid o = Some (id, set_next id o, []) ∧
        connections_tree_by_conid o !! id = None ∧ 0 <= id < max_connections o.
Proof.
  intros HI Hn. pose proof (i_next o HI) as Hnx. unfold find_unused_conid. mrun. zdec. cbn.
  destruct (find_unused_loop_ok (Z.to_nat (max_connections o)) o Hnx) as (id & E & H); [|exists id; by rewrite E].
  destruct (exists_free_id o HI Hn) as (id & Hid & Hfree).
  exists ((id - next_conid o) mod max_connections o).
  pose proof (Z.mod_pos_bound (id - next_conid o) (max_connections o) ltac:(lia)). split; [lia|].
  unfold id_after. rewrite Zplus_mod_idemp_r. replace (next_conid o + (id - next_conid o)) with id by lia.
  by rewrite Z.mod_small by lia.
Qed.

(** ** Recency: the connections by their addresses, oldest use first *)

Definition recency_of (st : gmap ptr UdpGwClient_connection) (l : list ptr) : list UdpGwClient_conaddr :=
  omap (λ p, conaddr <$> st !! p) l.
Definition recency (o : UdpGwClient) : list UdpGwClient_conaddr := recency_of (store o) (connections_list o).

(** Use moves an address to the end. *)
Definition touch (a : UdpGwClient_conaddr) (l : list UdpGwClient_conaddr) : list UdpGwClient_conaddr :=
  filter (λ b, b ≠ a) l ++ [a].

(** A packet for [a]: a cache of [max] addresses that evicts the one used
    least recently; [ok]: a new connection can be made. *)
Definition lru_submit (max : Z) (ok : bool) (a : UdpGwClient_conaddr) (l : list UdpGwClient_conaddr)
  : list UdpGwClient_conaddr :=
  if bool_decide (a ∈ l) then touch a l
  else if zlen l =? max then tail l ++ [a]
  else if ok then l ++ [a]
  else l.

Lemma recency_app st l1 l2 : recency_of st (l1 ++ l2) = recency_of st l1 ++ recency_of st l2.
Proof. apply omap_app. Qed.

Lemma recency_cons st p c l : st !! p = Some c → recency_of st (p :: l) = conaddr c :: recency_of st l.
Proof. intros H. unfold recency_of. cbn. by rewrite H. Qed.

Lemma recency_one st p c : st !! p = Some c → recency_of st [p] = [conaddr c].
Proof. intros H. unfold recency_of. cbn. by rewrite H. Qed.

(** Entries outside the list do not matter. *)
Lemma recency_insert st l p c : p ∉ l → recency_of (<[p := c]> st) l = recency_of st l.
Proof.
  unfold recency_of. induction l as [|q l IH]; [done|]. intros [Hq Hl]%not_elem_of_cons. cbn.
  rewrite lookup_insert_ne by done. destruct (conaddr <$> st !! q); by rewrite IH.
Qed.

Lemma recency_elem o a : inv o → a ∈ recency o ↔ is_Some (connections_tree_by_conaddr o !! a).
Proof.
  intros HI. unfold recency, recency_of. rewrite list_elem_of_omap. split.
  - intros (p & Hp & E). destruct (store o !! p) as [c|] eqn:Hc; [|done]. cbn in E. injection E as <-.
    exists p. apply (i_addr o HI). eauto.
  - intros [p Hp]. apply (i_addr o HI) in Hp as (c & Hc & <-). exists p. split; [apply (i_dom o HI); eauto|].
    by rewrite Hc.
Qed.

Lemma recency_length o : inv o → zlen (recency o) = num_connections o.
Proof.
  intros HI. rewrite (i_num o HI). unfold recency, recency_of, zlen. f_equal.
  assert (Hd : ∀ p, p ∈ connections_list o → is_Some (store o !! p)) by (intros; by apply (i_dom o HI)).
  induction (connections_list o) as [|p l IH]; [done|]. cbn.
  destruct (Hd p) as [c ->]; [constructor|]. cbn. f_equal. apply IH. intros q Hq. apply Hd. by constructor.
Qed.

(** Removing a connection from the list removes its address. *)
Lemma recency_remove o p c : inv o → store o !! p = Some c →
  recency_of (store o) (remove_ptr p (connections_list o)) = filter (λ b, b ≠ conaddr c) (recency o).
Proof.
  intros HI Hp. unfold recency, remove_ptr.
  assert (Hinj : ∀ q d, store o !! q = Some d → conaddr d = conaddr c → q = p).
  { intros q d Hq E. assert (H1 : connections_tree_by_conaddr o !! conaddr c = Some q) by (apply (i_addr o HI); eauto).
    assert (H2 : connections_tree_by_conaddr o !! conaddr c = Some p) by (apply (i_addr o HI); eauto). congruence. }
  assert (Hd : ∀ q, q ∈ connections_list o → is_Some (store o !! q)) by (intros; by apply (i_dom o HI)).
  induction (connections_list o) as [|q l IH]; [done|].
  assert (Hl : ∀ q0, q0 ∈ l → is_Some (store o !! q0)) by (intros; apply Hd; by constructor).
  specialize (IH Hl). destruct (Hd q) as [d Hq]; [constructor|].
  rewrite (recency_cons _ _ _ _ Hq), !filter_cons.
  destruct (decide (q ≠ p)) as [Hne|He].
  - rewrite decide_True by (intros E; apply Hne; by eapply Hinj). rewrite (recency_cons _ _ _ _ Hq). by f_equal.
  - apply dec_stable in He. subst q. rewrite Hp in Hq. injection Hq as <-. rewrite decide_False by tauto. done.
Qed.

(** ** The operations preserve the invariant *)

Lemma zlen_udpgw_packet flags id remote data : valid_addr remote →
  zlen (udpgw_packet flags id remote data) =
  3 + match remote with BAddr_MakeIPv4 _ _ => 6 | _ => 18 end + zlen data.
Proof.
  intros [Hok Hv]. unfold udpgw_packet. rewrite !zlen_app, zlen_le_bytes. change (zlen [u8 flags]) with 1.
  destruct remote as [|ip port|ip port]; [done| |].
  - rewrite zlen_app, !zlen_le_bytes. lia.
  - destruct Hok as (_ & HL & _). rewrite zlen_app, zlen_le_bytes. unfold zlen at 1. rewrite HL. lia.
Qed.

(** The flags and bytes [connection_send] writes. *)
Definition sent_packet (c : UdpGwClient_connection) (flags : Z) (data : list Z) : list Z :=
  let flags := match remote_addr (conaddr c) with
               | BAddr_MakeIPv6 _ _ => Z.lor flags UDPGW_CLIENT_FLAG_IPV6
               | _ => flags
               end in
  udpgw_packet flags (conid c) (remote_addr (conaddr c)) data.

Lemma connection_send_ok room o p c flags data :
  inv o → store o !! p = Some c → zlen data <= udp_mtu o →
  connection_send room p flags data o =
    Some (tt, o, [if room then WritePacket (conid c) (sent_packet c flags data) else OutOfBuffer]).
Proof.
  intros HI Hp Hd. destruct (i_con o HI p c Hp) as [_ [_ Hr] _]. pose proof (i_mtu o HI) as [_ Hm].
  unfold connection_send, deref. mrun. rewrite Hp. zdec. cbn. destruct room; cbn; [|done].
  assert (Hl : zlen (sent_packet c flags data) <= udpgw_mtu o).
  { unfold sent_packet. rewrite zlen_udpgw_packet by done. destruct (remote_addr (conaddr c)); lia. }
  unfold sent_packet in *. by rewrite (proj2 (Z.leb_le _ _) Hl).
Qed.

(** Moving a connection to the end of the list. *)
Definition touched (p : ptr) (o : UdpGwClient) : UdpGwClient :=
  set_list (remove_ptr p (connections_list o) ++ [p]) (num_connections o) o.

Lemma touch_run o p c : inv o → store o !! p = Some c →
  (list_remove p;; list_append p) o = Some (tt, touched p o, []).
Proof.
  intros HI Hp. unfold list_remove, list_append. mrun.
  rewrite bool_decide_true by (apply (i_dom o HI); eauto). done.
Qed.

Lemma remove_ptr_elem p q l : q ∈ remove_ptr p l ↔ q ∈ l ∧ q ≠ p.
Proof. unfold remove_ptr. rewrite list_elem_of_filter. tauto. Qed.

Lemma remove_ptr_absent p l : p ∉ l → remove_ptr p l = l.
Proof.
  unfold remove_ptr. induction l as [|q l IH]; [done|]. intros [Hq Hl]%not_elem_of_cons.
  rewrite filter_cons, decide_True by done. by rewrite IH.
Qed.

Lemma remove_ptr_length p l : NoDup l → p ∈ l → length l = S (length (remove_ptr p l)).
Proof.
  unfold remove_ptr. induction 1 as [|q l Hq Hl IH]; [by intros ?%elem_of_nil|]. intros Hp. rewrite filter_cons.
  destruct (decide (q ≠ p)) as [Hne|He].
  - cbn. f_equal. apply IH. by apply elem_of_cons in Hp as [->|].
  - apply dec_stable in He. subst q. cbn. f_equal. f_equal. symmetry.
    by apply remove_ptr_absent.
Qed.

Lemma touched_inv o p c : inv o → store o !! p = Some c → inv (touched p o).
Proof.
  intros HI Hp. assert (Hin : p ∈ connections_list o) by (apply (i_dom o HI); eauto).
  pose proof HI as []. split; cbn; try done.
  - apply NoDup_app. split_and!; [by apply NoDup_filter| |apply NoDup_singleton].
    intros q Hq ->%list_elem_of_singleton. by apply remove_ptr_elem in Hq as [_ ?].
  - intros q. rewrite elem_of_app, remove_ptr_elem, list_elem_of_singleton, <-i_dom0. split; [naive_solver|].
    intros Hq. destruct (decide (q = p)); tauto.
  - rewrite i_num0. unfold zlen. rewrite length_app, (remove_ptr_length p _ i_nodup0 Hin). cbn. lia.
  - intros q d Hq. destruct (i_con0 _ _ Hq). by split.
Qed.

Lemma touched_recency o p c : inv o → store o !! p = Some c → recency (touched p o) = touch (conaddr c) (recency o).
Proof.
  intros HI Hp. unfold recency at 1, touched, touch. cbn [store connections_list set_list].
  by rewrite recency_app, (recency_remove o p c HI Hp), (recency_one _ _ _ Hp).
Qed.

(** A new connection. *)
Definition added (p : ptr) (c : UdpGwClient_connection) (o : UdpGwClient) : UdpGwClient :=
  mkClient (udp_mtu o) (max_connections o) (udpgw_mtu o) (pp_mtu o) (<[conaddr c := p]> (connections_tree_by_conaddr o))
    (<[conid c := p]> (connections_tree_by_conid o)) (connections_list o ++ [p]) (num_connections o + 1)
    (next_conid o) (<[p := c]> (store o)) (keepalive_sending o) (have_server o).

Lemma added_inv o p c : inv o → store o !! p = None → con_ok o c →
  connections_tree_by_conaddr o !! conaddr c = None → connections_tree_by_conid o !! conid c = None →
  num_connections o < max_connections o → inv (added p c o).
Proof.
  intros HI Hp Hc Ha Hid Hn. assert (Hnin : p ∉ connections_list o) by (rewrite (i_dom o HI), Hp; by intros []).
  pose proof HI as []. split; cbn; try done.
  - apply NoDup_app. split_and!; [done| |apply NoDup_singleton]. intros q Hq ->%list_elem_of_singleton. done.
  - intros q. rewrite elem_of_app, list_elem_of_singleton, i_dom0. destruct (decide (q = p)) as [->|Hne].
    + rewrite lookup_insert_eq. naive_solver.
    + rewrite lookup_insert_ne by done. naive_solver.
  - rewrite i_num0, zlen_app. done.
  - lia.
  - intros a q. destruct (decide (q = p)) as [->|Hne].
    + rewrite lookup_insert_eq. split.
      * intros H. exists c. split; [done|]. destruct (decide (conaddr c = a)); [done|].
        rewrite lookup_insert_ne in H by done. apply i_addr0 in H as (d & ? & _). congruence.
      * intros (d & [= <-] & <-). apply lookup_insert_eq.
    + rewrite (lookup_insert_ne (store o)) by done. destruct (decide (conaddr c = a)) as [<-|Hna].
      * rewrite lookup_insert_eq. split; [congruence|]. intros H. apply i_addr0 in H. congruence.
      * rewrite lookup_insert_ne by done. apply i_addr0.
  - intros id q. destruct (decide (q = p)) as [->|Hne].
    + rewrite lookup_insert_eq. split.
      * intros H. exists c. split; [done|]. destruct (decide (conid c = id)); [done|].
        rewrite lookup_insert_ne in H by done. apply i_id0 in H as (d & ? & _). congruence.
      * intros (d & [= <-] & <-). apply lookup_insert_eq.
    + rewrite (lookup_insert_ne (store o)) by done. destruct (decide (conid c = id)) as [<-|Hna].
      * rewrite lookup_insert_eq. split; [congruence|]. intros H. apply i_id0 in H. congruence.
      * rewrite lookup_insert_ne by done. apply i_id0.
  - intros q d. destruct (decide (q = p)) as [->|Hne].
    + rewrite lookup_insert_eq. intros [= <-]. destruct Hc. by split.
    + rewrite lookup_insert_ne by done. intros Hq. destruct (i_con0 _ _ Hq). by split.
Qed.

(** A connection that gets another address. *)
Definition readdressed (p : ptr) (c : UdpGwClient_connection) (a : UdpGwClient_conaddr) (o : UdpGwClient) : UdpGwClient :=
  set_trees (<[a := p]> (delete (conaddr c) (connections_tree_by_conaddr o))) (connections_tree_by_conid o)
    (set_store (<[p := mkCon a (conid c) (first c)]> (store o)) o).

Lemma readdressed_inv o p c a : inv o → store o !! p = Some c → valid_conaddr a →
  connections_tree_by_conaddr o !! a = None → inv (readdressed p c a o).
Proof.
  intros HI Hp Hv Ha. pose proof HI as []. split; cbn; try done.
  - intros q. rewrite i_dom0. destruct (decide (q = p)) as [->|Hne].
    + rewrite lookup_insert_eq, Hp. naive_solver.
    + by rewrite lookup_insert_ne by done.
  - intros b q. destruct (decide (q = p)) as [->|Hne].
    + rewrite lookup_insert_eq. split.
      * intros H. eexists. split; [done|]. cbn. destruct (decide (a = b)); [done|].
        rewrite lookup_insert_ne in H by done. apply lookup_delete_Some in H as [Hb H].
        apply i_addr0 in H as (d & Hd & <-). congruence.
      * intros (d & [= <-] & <-). apply lookup_insert_eq.
    + rewrite (lookup_insert_ne (store o)) by done. destruct (decide (a = b)) as [<-|Hna].
      * rewrite lookup_insert_eq. split; [congruence|]. intros H. apply i_addr0 in H. congruence.
      * rewrite lookup_insert_ne by done. rewrite lookup_delete_Some, <-i_addr0. split; [tauto|].
        intros H. split; [|done]. intros E. apply i_addr0 in H as (d & Hd & Hda).
        assert (H1 : connections_tree_by_conaddr o !! b = Some p) by (apply i_addr0; eauto).
        assert (H2 : connections_tree_by_conaddr o !! b = Some q) by (apply i_addr0; eauto). congruence.
  - intros id q. rewrite i_id0. destruct (decide (q = p)) as [->|Hne].
    + rewrite lookup_insert_eq, Hp. split; intros (d & [= <-] & <-); eexists; done.
    + by rewrite lookup_insert_ne by done.
  - intros q d. destruct (decide (q = p)) as [->|Hne].
    + rewrite lookup_insert_eq. intros [= <-]. destruct (i_con0 _ _ Hp). by split.
    + rewrite lookup_insert_ne by done. intros Hq. destruct (i_con0 _ _ Hq). by split.
Qed.

Lemma set_next_inv o n : inv o → 0 <= n < max_connections o → inv (set_next n o).
Proof. intros [] Hn. split; cbn; try done. intros p c Hp. destruct (i_con0 _ _ Hp). by split. Qed.

Lemma init_run o p a flags data :
  inv o → store o !! p = None → valid_conaddr a → connections_tree_by_conaddr o !! a = None →
  num_connections o < max_connections o → zlen data <= udp_mtu o →
  ∃ id o', connection_init (Some p) true a flags data o = Some (tt, o', []) ∧ inv o' ∧
           o' = added p (mkCon a id (Some (flags, data))) (set_next id o) ∧
           connections_tree_by_conid o !! id = None.
Proof.
  intros HI Hp Hv Ha Hn Hd. destruct (find_unused_ok o HI Hn) as (id & Ef & Hid & Hr).
  pose proof (i_max o HI) as Hm. unfold UINT16_MAX in Hm.
  set (c := mkCon a id (Some (flags, data))). exists id, (added p c (set_next id o)).
  assert (HI' : inv (added p c (set_next id o))).
  { apply added_inv; cbn; try done; [by apply set_next_inv|]. split; cbn; [done|done|]. by intros ? ? [= <- <-]. }
  split; [|done]. unfold connection_init, find_connection_by_conaddr. mrun. zdec. cbn.
  rewrite Ha, bool_decide_true by done. cbn. zdec. cbn. rewrite Ef. cbn. rewrite u16_small by (unfold is_u16, UINT16_MAX; lia). fold c.
  unfold tree_insert_conaddr, tree_insert_conid, list_append, deref. mrun.
  rewrite !lookup_insert_eq. cbn. rewrite Ha, bool_decide_true by done. cbn. rewrite lookup_insert_eq. cbn.
  rewrite Hid, bool_decide_true by done. done.
Qed.

Lemma reuse_run o a :
  inv o → valid_conaddr a → connections_tree_by_conaddr o !! a = None → num_connections o = max_connections o →
  ∃ p c l, connections_list o = p :: l ∧ store o !! p = Some c ∧
           reuse_connection a o = Some (p, readdressed p c a o, []) ∧ inv (readdressed p c a o).
Proof.
  intros HI Hv Ha Hn. pose proof (i_num o HI) as Hnum. pose proof (i_max o HI).
  destruct (connections_list o) as [|p l] eqn:Hl; [rewrite zlen_nil in Hnum; lia|].
  assert (Hin : is_Some (store o !! p)) by (apply (i_dom o HI); rewrite Hl; constructor).
  destruct Hin as [c Hc]. exists p, c, l. split; [done|]. split; [done|]. split; [|by apply readdressed_inv].
  assert (Ht : connections_tree_by_conaddr o !! conaddr c = Some p) by (apply (i_addr o HI); eauto).
  unfold reuse_connection, find_connection_by_conaddr, tree_remove_conaddr, tree_insert_conaddr, deref. mrun.
  rewrite Ha, bool_decide_true by done. cbn. zdec. cbn. rewrite Hl, Hc. cbn. rewrite bool_decide_true by done. cbn. rewrite Hc. cbn.
  rewrite lookup_insert_eq. cbn. rewrite bool_decide_true; [done|].
  apply lookup_delete_None. by right.
Qed.

Lemma readdressed_recency o p c a l : inv o → connections_list o = p :: l → store o !! p = Some c →
  connections_tree_by_conaddr o !! a = None →
  recency (readdressed p c a o) = a :: tail (recency o) ∧ a ∉ tail (recency o).
Proof.
  intros HI Hl Hp Ha. pose proof (i_nodup o HI) as HN. rewrite Hl in HN. apply NoDup_cons in HN as [Hnin _].
  unfold recency. rewrite Hl. cbn [readdressed set_trees set_store store connections_list]. rewrite Hl.
  rewrite (recency_cons _ _ (mkCon a (conid c) (first c))) by apply lookup_insert_eq.
  rewrite (recency_cons _ _ _ _ Hp), recency_insert by done. split; [done|]. cbn.
  intros Hin. assert (a ∈ recency o) as Hr.
  { unfold recency. rewrite Hl, (recency_cons _ _ _ _ Hp). by right. }
  apply (recency_elem o a HI) in Hr. rewrite Ha in Hr. by destruct Hr.
Qed.

Lemma touch_head a l : a ∉ l → touch a (a :: l) = l ++ [a].
Proof.
  intros Hl. unfold touch. rewrite filter_cons, decide_False by tauto. f_equal.
  induction l as [|b l IH]; [done|]. apply not_elem_of_cons in Hl as [Hb Hl].
  rewrite filter_cons, decide_True by done. by rewrite IH.
Qed.

(** What a submitted packet does to the outside. *)
Definition dns_flag (is_dns : bool) : Z := if is_dns then UDPGW_CLIENT_FLAG_DNS else 0.

Definition written (room : bool) (c : UdpGwClient_connection) (flags : Z) (data : list Z) : list eff :=
  [if room then WritePacket (conid c) (sent_packet c flags data) else OutOfBuffer].

Lemma use_run room o p c flags data :
  inv o → store o !! p = Some c → zlen data <= udp_mtu o →
  use_connection room p flags data o = Some (tt, touched p o, written room c flags data).
Proof.
  intros HI Hp Hd. unfold use_connection. pose proof (touch_run o p c HI Hp) as HT. revert HT. mrun.
  destruct (list_remove p o) as [[[[] o1] t1]|]; [|done].
  destruct (list_append p o1) as [[[[] o2] t2]|] eqn:E2; [|done]. intros [= -> Ht].
  apply app_eq_nil in Ht as [-> ->].
  rewrite (connection_send_ok room (touched p o) p c) by (done || by eapply touched_inv). done.
Qed.

Lemma submit_ok mem flow_ok room local remote is_dns data o :
  inv o → valid_addr local → valid_addr remote → zlen data <= udp_mtu o →
  (∀ p, mem = Some p → store o !! p = None) →
  ∃ o' es, UdpGwClient_SubmitPacket mem flow_ok room local remote is_dns data o = Some (tt, o', es) ∧ inv o' ∧
    max_connections o' = max_connections o ∧ have_server o' = have_server o ∧
    keepalive_sending o' = keepalive_sending o ∧
    recency o' = lru_submit (max_connections o) (bool_decide (is_Some mem) && flow_ok) (mkConaddr local remote) (recency o) ∧
    (es = [] ∨ ∃ p c flags, store o' !! p = Some c ∧ conaddr c = mkConaddr local remote ∧ es = written room c flags data).
Proof.
  intros HI HL HR Hd Hmem. set (a := mkConaddr local remote).
  assert (Hv : valid_conaddr a) by done.
  assert (Ha1 : negb (BAddr_IsInvalid local) && negb (BAddr_IsInvalid remote) = true)
    by (destruct HL as [_ ->], HR as [_ ->]; done).
  pose proof (recency_elem o a HI) as Hel. pose proof (recency_length o HI) as Hlen. pose proof (i_full o HI).
  unfold lru_submit. rewrite Hlen. unfold UdpGwClient_SubmitPacket, find_connection_by_conaddr. mrun.
  rewrite Ha1. zdec. cbn. zdec. cbn. fold a.
  change (if is_dns then Z.lor 0 UDPGW_CLIENT_FLAG_DNS else 0) with (dns_flag is_dns).
  destruct (connections_tree_by_conaddr o !! a) as [p|] eqn:Hta.
  - (* known connection *)
    rewrite (bool_decide_true (a ∈ recency o)) by (apply Hel; eauto).
    rewrite (bool_decide_false (Some p = None)) by done. cbn.
    apply (i_addr o HI) in Hta as (c & Hc & Hca). rewrite (use_run room o p c) by done.
    do 2 eexists. split; [reflexivity|]. split_and!; try done; [by eapply touched_inv|..].
    + rewrite (touched_recency o p c HI Hc). by rewrite Hca.
    + right. by exists p, c, (dns_flag is_dns).
  - rewrite (bool_decide_false (a ∈ recency o)) by (rewrite Hel; by intros []).
    rewrite (bool_decide_true (None = None)) by done. cbn.
    destruct (num_connections o =? max_connections o) eqn:Hfull; zb.
    + (* no room: the oldest connection *)
      destruct (reuse_run o a HI Hv Hta Hfull) as (p & c & l & Hl & Hc & Er & HI1). rewrite Er. cbn.
      destruct (readdressed_recency o p c a l HI Hl Hc Hta) as [Hrec Hnin].
      set (c1 := mkCon a (conid c) (first c)).
      assert (Hc1 : store (readdressed p c a o) !! p = Some c1) by apply lookup_insert_eq.
      rewrite (use_run room _ p c1) by done. do 2 eexists. split; [reflexivity|]. split_and!; try done.
      * by eapply touched_inv.
      * rewrite (touched_recency _ p c1 HI1 Hc1), Hrec. by apply touch_head.
      * right. by exists p, c1, (Z.lor (dns_flag is_dns) UDPGW_CLIENT_FLAG_REBIND).
    + (* a new connection, if memory permits *)
      destruct mem as [p|].
      * destruct flow_ok.
        -- destruct (init_run o p a (dns_flag is_dns) data) as (id & o' & E & HI' & -> & Hid); try done; [by apply Hmem|lia|].
           rewrite E. do 2 eexists. split; [reflexivity|]. split_and!; try done; [|by left].
           unfold recency. cbn [added store connections_list set_next].
           assert (Hp : p ∉ connections_list o) by (rewrite (i_dom o HI), (Hmem p eq_refl); by intros []).
           rewrite recency_app, recency_insert by done. by rewrite (recency_one _ _ _ (lookup_insert_eq _ _ _)).
        -- destruct (find_unused_ok o HI) as (id & Ef & Hid & Hr); [lia|].
           unfold connection_init, find_connection_by_conaddr. mrun. rewrite Hta, bool_decide_true by done. zdec. cbn.
           zdec. cbn. zdec. cbn. rewrite Ef. cbn. do 2 eexists. split; [reflexivity|].
           split_and!; try done; [by apply set_next_inv|by left].
      * unfold connection_init, find_connection_by_conaddr. mrun. rewrite Hta, bool_decide_true by done. zdec. cbn.
        zdec. cbn. do 2 eexists. split; [reflexivity|]. split_and!; try done. by left.
Qed.

(** ** Received packets *)

(** Flags the client passes to [connection_send]. *)
Definition small_flags (flags : Z) : Prop := 0 <= flags < 8.

Lemma small_flags_cases (P : Z → Prop) flags : small_flags flags →
  P 0 → P 1 → P 2 → P 3 → P 4 → P 5 → P 6 → P 7 → P flags.
Proof.
  unfold small_flags. intros. assert (flags ∈ seqZ 0 8) as Hin by (apply elem_of_seqZ; lia).
  vm_compute in Hin. repeat (apply elem_of_cons in Hin as [->|Hin]; [done|]). by apply elem_of_nil in Hin.
Qed.

Lemma drop_prefix {A} (n : nat) (l1 l2 : list A) : length l1 = n → drop n (l1 ++ l2) = l2.
Proof. intros <-. apply drop_app_length. Qed.

Lemma slice_first {A} n (l1 l2 : list A) : zlen l1 = n → slice 0 n (l1 ++ l2) = l1.
Proof. intros <-. apply slice_prefix. Qed.

Lemma slice_second {A} off n (l1 l2 l3 : list A) : zlen l1 = off → zlen l2 = n → slice off n (l1 ++ l2 ++ l3) = l2.
Proof. intros <- <-. rewrite slice_app_r by lia. rewrite Z.sub_diag. apply slice_prefix. Qed.

Lemma of_le_u n v : 0 <= v < 256 ^ Z.of_nat n → of_le (le_bytes n v) = v.
Proof. intros. rewrite of_le_le_bytes. by apply Z.mod_small. Qed.

(** Parsing the address part of a packet gives back address and data. *)
Lemma parse_addr_sent flags remote data :
  valid_addr remote → small_flags flags →
  parse_addr (match remote with BAddr_MakeIPv6 _ _ => Z.lor flags UDPGW_CLIENT_FLAG_IPV6 | _ => flags end)
    (match remote with
     | BAddr_MakeIPv4 ip port => le_bytes 4 ip ++ le_bytes 2 port
     | BAddr_MakeIPv6 ip port => ip ++ le_bytes 2 port
     | BAddr_MakeNone => []
     end ++ data) = Some (remote, data).
Proof.
  intros [Hok Hv] Hf. pose proof (zlen_nonneg data). unfold parse_addr.
  destruct remote as [|ip port|ip port]; [done| |]; cbn [baddr_ok] in Hok.
  - destruct Hok as [Hip Hport]. unfold is_u32, is_u16, UINT32_MAX, UINT16_MAX in *.
    rewrite (small_flags_cases (λ f, negb (Z.land f UDPGW_CLIENT_FLAG_IPV6 =? 0) = false) flags Hf) by done.
    rewrite !zlen_app, !zlen_le_bytes. unfold sizeof_udpgw_addr_ipv4. zdec.
    rewrite (drop_prefix 6) by done. rewrite <-app_assoc, (slice_first 4), (slice_second 4 2) by done.
    rewrite !of_le_u by lia. done.
  - destruct Hok as (HB & HL & Hport). unfold is_u16, UINT16_MAX in *.
    rewrite (small_flags_cases (λ f, negb (Z.land (Z.lor f UDPGW_CLIENT_FLAG_IPV6) UDPGW_CLIENT_FLAG_IPV6 =? 0) = true) flags Hf) by done.
    assert (Hz : zlen ip = 16) by (unfold zlen; rewrite HL; done).
    rewrite !zlen_app, !zlen_le_bytes, Hz. unfold sizeof_udpgw_addr_ipv6. zdec.
    rewrite (drop_prefix 18) by (rewrite length_app, HL; done).
    rewrite <-app_assoc, (slice_first 16), (slice_second 16 2) by done. rewrite of_le_u by lia. done.
Qed.

Definition received_from (o : UdpGwClient) (data : list Z) (p : ptr) (c : UdpGwClient_connection) (d : list Z) : Prop :=
  store o !! p = Some c ∧ conid c = of_le (slice 1 2 data) ∧
  parse_addr (of_le (slice 0 1 data)) (drop 3 data) = Some (remote_addr (conaddr c), d) ∧ zlen d <= udp_mtu o.

Lemma compare_zero a b : baddr_ok a → baddr_ok b → (BAddr_CompareOrder a b =? 0) = bool_decide (a = b).
Proof.
  intros Ha Hb. rewrite compare_order_key by done. apply eq_true_iff_eq.
  rewrite Z.eqb_eq, bool_decide_eq_true. by apply key_zero.
Qed.

Lemma parse_addr_ok flags data a d : bytes data → parse_addr flags data = Some (a, d) → baddr_ok a.
Proof.
  intros HB. unfold parse_addr. repeat case_if; try done; intros [= <- <-]; cbn.
  - unfold sizeof_udpgw_addr_ipv6 in *. split_and!; [by apply bytes_slice|unfold slice, zlen in *; rewrite drop_0, length_take; lia|].
    pose proof (of_le_range (slice 16 2 data) ltac:(by apply bytes_slice)) as Hr.
    rewrite zlen_slice in Hr by lia. unfold is_u16, UINT16_MAX. lia.
  - unfold sizeof_udpgw_addr_ipv4 in *. pose proof (of_le_range (slice 0 4 data) ltac:(by apply bytes_slice)) as Hr.
    pose proof (of_le_range (slice 4 2 data) ltac:(by apply bytes_slice)) as Hr2.
    rewrite zlen_slice in Hr, Hr2 by lia. unfold is_u16, is_u32, UINT16_MAX, UINT32_MAX. lia.
Qed.

(** A packet from the gateway is dropped or delivered to the user as coming
    from the remote address of the connection with its id. *)
Lemma receive_ok o data : inv o → have_server o = true → zlen data <= udpgw_mtu o → bytes data →
  ∃ o' es, recv_interface_handler_send data o = Some (tt, o', AcceptPacket :: es) ∧
    ((es = [] ∧ o' = o ∧ ∀ p c d, 3 <= zlen data → ¬ received_from o data p c d) ∨
     (∃ p c d, received_from o data p c d ∧ o' = touched p o ∧
               es = [HandlerReceived (local_addr (conaddr c)) (remote_addr (conaddr c)) d])).
Proof.
  intros HI Hs Hl HB. unfold recv_interface_handler_send. mrun. rewrite Hs. cbn. zdec. cbn.
  unfold sizeof_udpgw_header. destruct (zlen data <? 3) eqn:C; zb.
  { do 2 eexists. split; [reflexivity|]. left. split_and!; try done. intros. lia. }
  destruct (parse_addr _ _) as [[remote d]|] eqn:HP.
  2: { do 2 eexists. split; [reflexivity|]. left. split_and!; try done. intros p c d _ (_ & _ & H & _). congruence. }
  assert (Hro : baddr_ok remote).
  { eapply parse_addr_ok; [|exact HP]. unfold bytes. by apply Forall_drop. }
  destruct (zlen d >? udp_mtu o) eqn:Cd; zb.
  { do 2 eexists. split; [reflexivity|]. left. split_and!; try done. intros p c d' _ (_ & _ & H & ?).
    rewrite HP in H. injection H as _ <-. lia. }
  unfold find_connection_by_conid. destruct (connections_tree_by_conid o !! _) as [p|] eqn:Hti.
  2: { do 2 eexists. split; [reflexivity|]. left. split_and!; try done. intros p c d' _ (Hp & Hid & _).
       assert (connections_tree_by_conid o !! of_le (slice 1 2 data) = Some p) by (apply (i_id o HI); eauto). congruence. }
  pose proof Hti as Hti'. apply (i_id o HI) in Hti as (c & Hc & Hid). unfold deref. cbn. rewrite Hc. cbn.
  destruct (i_con o HI p c Hc) as [_ [_ [Hca _]] _]. rewrite compare_zero by done.
  destruct (bool_decide (remote_addr (conaddr c) = remote)) eqn:Hb; cbn.
  - apply bool_decide_eq_true in Hb. subst remote. pose proof (touch_run o p c HI Hc) as HT. revert HT. mrun.
    destruct (list_remove p o) as [[[[] o1] t1]|]; [|done].
    destruct (list_append p o1) as [[[[] o2] t2]|] eqn:E2; [|done]. intros [= -> Ht]. apply app_eq_nil in Ht as [-> ->].
    cbn. do 2 eexists. split; [reflexivity|]. right. by exists p, c, d.
  - apply bool_decide_eq_false in Hb. do 2 eexists. split; [reflexivity|]. left. split_and!; try done.
    intros p' c' d' _ (Hp' & Hid' & H & _). rewrite HP in H. injection H as -> ->.
    assert (connections_tree_by_conid o !! of_le (slice 1 2 data) = Some p') by (apply (i_id o HI); eauto).
    congruence.
Qed.

(** A packet of a connection, sent back by the gateway, is for it. *)
Lemma echo_from o p c flags data : inv o → store o !! p = Some c → small_flags flags → zlen data <= udp_mtu o →
  received_from o (sent_packet c flags data) p c data ∧
  3 <= zlen (sent_packet c flags data) <= udpgw_mtu o ∧
  (bytes data → bytes (sent_packet c flags data)).
Proof.
  intros HI Hp Hf Hd. destruct (i_con o HI p c Hp) as [Hid [_ Hr] _]. pose proof (i_mtu o HI) as [_ Hm].
  pose proof (i_max o HI) as Hmax. unfold UINT16_MAX in Hmax. pose proof (zlen_nonneg data).
  pose proof (parse_addr_sent flags _ data Hr Hf) as HP. unfold sent_packet, received_from.
  set (fl := match remote_addr (conaddr c) with BAddr_MakeIPv6 _ _ => Z.lor flags UDPGW_CLIENT_FLAG_IPV6 | _ => flags end) in *.
  assert (Hu : u8 fl = fl).
  { unfold fl. destruct (remote_addr (conaddr c));
      [apply (small_flags_cases (λ f, u8 f = f) flags Hf); done|apply (small_flags_cases (λ f, u8 f = f) flags Hf); done|
       apply (small_flags_cases (λ f, u8 (Z.lor f UDPGW_CLIENT_FLAG_IPV6) = Z.lor f UDPGW_CLIENT_FLAG_IPV6) flags Hf); done]. }
  split_and!; try done.
  - unfold udpgw_packet. rewrite <-app_assoc, (slice_second 1 2) by done. rewrite of_le_u by (change (256 ^ Z.of_nat 2) with 65536; lia). done.
  - unfold udpgw_packet. rewrite (drop_prefix 3) by done. rewrite <-app_assoc, (slice_first 1), Hu by done.
    unfold of_le. by rewrite Z.mul_0_r, Z.add_0_r.
  - rewrite zlen_udpgw_packet by done. destruct (remote_addr (conaddr c)); lia.
  - rewrite zlen_udpgw_packet by done. destruct (remote_addr (conaddr c)); lia.
  - intros HB. unfold udpgw_packet. destruct Hr as [Hok _]. apply bytes_app. split.
    + apply bytes_app. split; [|apply bytes_le_bytes]. constructor; [apply u8_range|constructor].
    + apply bytes_app. split; [|done]. destruct (remote_addr (conaddr c)) as [|ip port|ip port]; [constructor| |];
        apply bytes_app; split; try apply bytes_le_bytes. by destruct Hok.
Qed.

(** The format of the packets: flags, id, address of the kind that the flags
    say, data. *)
Definition encodes (data : list Z) (id : Z) (remote : BAddr) (d : list Z) : Prop :=
  ∃ flags, match remote with
  | BAddr_MakeIPv4 ip port => Z.land flags UDPGW_CLIENT_FLAG_IPV6 = 0 ∧ data = [flags] ++ le_bytes 2 id ++ le_bytes 4 ip ++ le_bytes 2 port ++ d
  | BAddr_MakeIPv6 ip port => Z.land flags UDPGW_CLIENT_FLAG_IPV6 ≠ 0 ∧ data = [flags] ++ le_bytes 2 id ++ ip ++ le_bytes 2 port ++ d
  | BAddr_MakeNone => False
  end.

Lemma split_two n m (l : list Z) : 0 <= n → 0 <= m → l = slice 0 n l ++ slice n m l ++ drop (Z.to_nat (n + m)) l.
Proof.
  intros Hn Hm. unfold slice. rewrite drop_0. rewrite <-(take_drop (Z.to_nat n) l) at 1. f_equal.
  rewrite <-(take_drop (Z.to_nat m) (drop (Z.to_nat n) l)) at 1. rewrite drop_drop. do 2 f_equal. lia.
Qed.

Lemma slice_le n m l : bytes l → 0 <= n → 0 <= m → n + m <= zlen l → le_bytes (Z.to_nat m) (of_le (slice n m l)) = slice n m l.
Proof.
  intros HB Hn Hm Hl. apply le_bytes_of_le_n; [by apply bytes_slice|]. pose proof (zlen_slice n m l Hn Hm Hl) as Hz. unfold zlen in Hz. lia.
Qed.

Lemma parse_encodes data remote d : bytes data → 3 <= zlen data →
  parse_addr (of_le (slice 0 1 data)) (drop 3 data) = Some (remote, d) → encodes data (of_le (slice 1 2 data)) remote d.
Proof.
  intros HB Hl HP. destruct data as [|a [|b [|c rest]]]; [done..|]. change (drop 3 _) with rest in HP.
  assert (HBr : bytes rest) by (by do 3 apply Forall_cons in HB as [_ HB]).
  assert (Ea : of_le (slice 0 1 (a :: b :: c :: rest)) = a) by (change (slice 0 1 (a :: b :: c :: rest)) with [a]; unfold of_le; lia). rewrite Ea in HP.
  pose proof (slice_le 1 2 _ HB ltac:(lia) ltac:(lia) Hl) as Eid. change (Z.to_nat 2) with 2%nat in Eid. exists a. revert HP. unfold parse_addr. repeat case_if; try done; intros [= <- <-].
  - zb. split; [done|]. unfold sizeof_udpgw_addr_ipv6 in *.
    pose proof (slice_le 16 2 _ HBr ltac:(lia) ltac:(lia) ltac:(lia)) as Ep. change (Z.to_nat 2) with 2%nat in Ep.
    rewrite Eid, Ep. cbn [app]. change (slice 1 2 (a :: b :: c :: rest)) with [b; c]. cbn [app]. do 3 f_equal.
    exact (split_two 16 2 rest ltac:(lia) ltac:(lia)).
  - zb. split; [done|]. unfold sizeof_udpgw_addr_ipv4 in *.
    pose proof (slice_le 0 4 _ HBr ltac:(lia) ltac:(lia) ltac:(lia)) as Ei. pose proof (slice_le 4 2 _ HBr ltac:(lia) ltac:(lia) ltac:(lia)) as Ep.
    change (Z.to_nat 4) with 4%nat in Ei. change (Z.to_nat 2) with 2%nat in Ep.
    rewrite Eid, Ei, Ep. cbn [app]. change (slice 1 2 (a :: b :: c :: rest)) with [b; c]. cbn [app]. do 3 f_equal.
    exact (split_two 4 2 rest ltac:(lia) ltac:(lia)).
Qed.

Lemma encodes_parse data id remote d : valid_addr remote → 0 <= id <= UINT16_MAX → encodes data id remote d →
  3 <= zlen data ∧ of_le (slice 1 2 data) = id ∧ parse_addr (of_le (slice 0 1 data)) (drop 3 data) = Some (remote, d).
Proof.
  intros [Hok Hv] Hid [fl He]. pose proof (zlen_nonneg d). unfold UINT16_MAX in Hid.
  assert (Hhead : ∀ t, data = [fl] ++ le_bytes 2 id ++ t → 3 <= zlen data ∧ of_le (slice 1 2 data) = id ∧ of_le (slice 0 1 data) = fl ∧ drop 3 data = t).
  { intros t ->. pose proof (zlen_nonneg t). split_and!.
    - rewrite !zlen_app, zlen_le_bytes. change (zlen [fl]) with 1. lia.
    - rewrite (slice_second 1 2) by done. rewrite of_le_u by (change (256 ^ Z.of_nat 2) with 65536; lia). done.
    - rewrite (slice_first 1) by done. unfold of_le. lia.
    - rewrite app_assoc. by rewrite (drop_prefix 3). }
  unfold parse_addr. destruct remote as [|ip port|ip port]; [done| |]; destruct He as [Hfl He].
  - destruct Hok as [Hip Hport]. unfold is_u32, is_u16, UINT32_MAX, UINT16_MAX in *.
    destruct (Hhead (le_bytes 4 ip ++ le_bytes 2 port ++ d)) as (H1 & H2 & -> & ->); [exact He|]. split_and!; [done|done|].
    rewrite Hfl. cbn [Z.eqb negb]. rewrite !zlen_app, !zlen_le_bytes. unfold sizeof_udpgw_addr_ipv4. zdec.
    rewrite (slice_first 4), (slice_second 4 2) by done. rewrite (app_assoc (le_bytes 4 ip)), (drop_prefix 6) by done. rewrite !of_le_u by lia. done.
  - destruct Hok as (HB & HL & Hport). unfold is_u16, UINT16_MAX in *. assert (Hz : zlen ip = 16) by (unfold zlen; rewrite HL; done).
    destruct (Hhead (ip ++ le_bytes 2 port ++ d)) as (H1 & H2 & -> & ->); [exact He|]. split_and!; [done|done|].
    rewrite (proj2 (Z.eqb_neq _ _)) by done. cbn [negb]. rewrite !zlen_app, !zlen_le_bytes, Hz. unfold sizeof_udpgw_addr_ipv6. zdec.
    rewrite (slice_first 16), (slice_second 16 2) by done. rewrite (app_assoc ip), (drop_prefix 18) by (rewrite length_app, HL; done).
    rewrite of_le_u by lia. done.
Qed.

(** Exactly the packets with the id and the remote address of a connection, and
    not too much data, are delivered. *)
Lemma receive_exact o data : inv o → have_server o = true → zlen data <= udpgw_mtu o → bytes data →
  ∃ o' es, recv_interface_handler_send data o = Some (tt, o', AcceptPacket :: es) ∧
    (es = [] ∨ ∃ l r d, es = [HandlerReceived l r d]) ∧
    ∀ l r d, es = [HandlerReceived l r d] ↔
      ∃ p c, store o !! p = Some c ∧ conaddr c = mkConaddr l r ∧ encodes data (conid c) r d ∧ zlen d <= udp_mtu o.
Proof.
  intros HI Hs Hl HB. destruct (receive_ok o data HI Hs Hl HB) as (o' & es & E & Hcase). exists o', es. split; [done|].
  assert (Hdec : ∀ p c l r d, store o !! p = Some c → conaddr c = mkConaddr l r → encodes data (conid c) r d → zlen d <= udp_mtu o →
    3 <= zlen data ∧ received_from o data p c d).
  { intros p c l r d Hp Hc He Hd. destruct (i_con o HI p c Hp) as [Hid [_ Hr] _]. rewrite Hc in Hr. cbn in Hr. pose proof (i_max o HI) as Hmax.
    destruct (encodes_parse data (conid c) r d Hr) as (H3 & Hid' & HP); [lia|done|]. split; [done|]. split_and!; [done|done|by rewrite Hc|done]. }
  destruct Hcase as [(-> & _ & Hno)|(p & c & d0 & HF & _ & ->)].
  - split; [by left|]. intros l r d. split; [done|]. intros (p & c & Hp & Hc & He & Hd). destruct (Hdec _ _ _ _ _ Hp Hc He Hd) as [H3 HF].
    by destruct (Hno p c d H3).
  - split; [right; eauto|]. destruct HF as (Hp & Hid & HP & Hd). intros l r d. split.
    + intros [= <- <- <-]. exists p, c. split_and!; [done|by destruct (conaddr c)| |done]. rewrite Hid. apply parse_encodes; [done| |done].
      destruct (i_con o HI p c Hp) as [_ [_ [_ Hvr]] _]. destruct (Z.le_gt_cases 3 (zlen data)); [done|]. exfalso.
      assert (Hdr : drop 3 data = []) by (apply drop_ge; unfold zlen in *; lia). rewrite Hdr in HP. revert HP. unfold parse_addr. by repeat case_if.
    + intros (q & c' & Hq & Hc' & He & Hd'). destruct (Hdec _ _ _ _ _ Hq Hc' He Hd') as [_ (_ & Hid' & HP' & _)].
      assert (H1 : connections_tree_by_conid o !! conid c = Some p) by (apply (i_id o HI); eauto).
      assert (H2 : connections_tree_by_conid o !! conid c = Some q) by (apply (i_id o HI); exists c'; split; [done|congruence]).
      assert (q = p) as -> by congruence. assert (c' = c) as -> by congruence. rewrite HP in HP'. injection HP' as ->. by rewrite Hc'.
Qed.

(** ** Freeing *)

Definition removed (p : ptr) (c : UdpGwClient_connection) (o : UdpGwClient) : UdpGwClient :=
  mkClient (udp_mtu o) (max_connections o) (udpgw_mtu o) (pp_mtu o) (delete (conaddr c) (connections_tree_by_conaddr o))
    (delete (conid c) (connections_tree_by_conid o)) (remove_ptr p (connections_list o)) (num_connections o - 1)
    (next_conid o) (delete p (store o)) (keepalive_sending o) (have_server o).

Lemma removed_inv o p c : inv o → store o !! p = Some c → inv (removed p c o).
Proof.
  intros HI Hp. assert (Hin : p ∈ connections_list o) by (apply (i_dom o HI); eauto).
  pose proof (remove_ptr_length p _ (i_nodup o HI) Hin) as HL.
  pose proof HI as []. split; cbn; try done.
  - by apply NoDup_filter.
  - intros q. rewrite remove_ptr_elem, i_dom0. destruct (decide (q = p)) as [->|Hne].
    + rewrite lookup_delete_eq. split; [tauto|by intros []].
    + rewrite lookup_delete_ne by done. tauto.
  - rewrite i_num0. unfold zlen. rewrite HL. lia.
  - lia.
  - intros a q. rewrite lookup_delete_Some, i_addr0. split.
    + intros (Hna & d & Hd & <-). exists d. split; [|done]. rewrite lookup_delete_ne; [done|]. intros ->. congruence.
    + intros (d & Hd & <-). apply lookup_delete_Some in Hd as [Hne Hd]. split; [|eauto]. intros E.
      assert (H1 : connections_tree_by_conaddr o !! conaddr d = Some p) by (apply i_addr0; eauto).
      assert (H2 : connections_tree_by_conaddr o !! conaddr d = Some q) by (apply i_addr0; eauto). congruence.
  - intros id q. rewrite lookup_delete_Some, i_id0. split.
    + intros (Hna & d & Hd & <-). exists d. split; [|done]. rewrite lookup_delete_ne; [done|]. intros ->. congruence.
    + intros (d & Hd & <-). apply lookup_delete_Some in Hd as [Hne Hd]. split; [|eauto]. intros E.
      assert (H1 : connections_tree_by_conid o !! conid d = Some p) by (apply i_id0; eauto).
      assert (H2 : connections_tree_by_conid o !! conid d = Some q) by (apply i_id0; eauto). congruence.
  - intros q d Hd. apply lookup_delete_Some in Hd as [_ Hd]. destruct (i_con0 _ _ Hd). by split.
Qed.

Lemma free_run o p c : inv o → store o !! p = Some c → connection_free p o = Some (tt, removed p c o, []).
Proof.
  intros HI Hp. assert (Hin : p ∈ connections_list o) by (apply (i_dom o HI); eauto).
  assert (Ha : connections_tree_by_conaddr o !! conaddr c = Some p) by (apply (i_addr o HI); eauto).
  assert (Hi : connections_tree_by_conid o !! conid c = Some p) by (apply (i_id o HI); eauto).
  unfold connection_free, list_remove, tree_remove_conid, tree_remove_conaddr, deref. mrun.
  rewrite bool_decide_true by done. cbn. rewrite Hp. cbn. rewrite bool_decide_true by done. cbn. rewrite Hp. cbn.
  rewrite bool_decide_true by done. done.
Qed.

Lemma free_all fuel : ∀ o, inv o → (length (connections_list o) <= fuel)%nat →
  ∃ o', free_connections fuel o = Some (tt, o', []) ∧ inv o' ∧ connections_list o' = [] ∧ have_server o' = have_server o.
Proof.
  induction fuel as [|fuel IH]; intros o HI Hl; cbn [free_connections]; mrun;
    destruct (connections_list o) as [|p l] eqn:E; try (cbn in Hl; lia); try (exists o; done).
  assert (Hin : is_Some (store o !! p)) by (apply (i_dom o HI); rewrite E; constructor). destruct Hin as [c Hc].
  rewrite (free_run o p c HI Hc). cbn.
  destruct (IH (removed p c o) (removed_inv o p c HI Hc)) as (o' & -> & H); [|by exists o'].
  cbn [removed connections_list]. rewrite E in *. assert (HN := i_nodup o HI). rewrite E in HN.
  pose proof (remove_ptr_length p (p :: l) HN ltac:(constructor)). cbn in *. lia.
Qed.

Lemma empty_inv o : inv o → connections_list o = [] →
  store o = ∅ ∧ connections_tree_by_conaddr o = ∅ ∧ connections_tree_by_conid o = ∅ ∧ num_connections o = 0.
Proof.
  intros HI Hl. assert (Hs : ∀ p, store o !! p = None).
  { intros p. apply eq_None_not_Some. rewrite <-(i_dom o HI), Hl. apply not_elem_of_nil. }
  split_and!.
  - by apply map_empty.
  - apply map_empty. intros a. apply eq_None_not_Some. intros [p Hp]. apply (i_addr o HI) in Hp as (c & Hc & _).
    by rewrite Hs in Hc.
  - apply map_empty. intros a. apply eq_None_not_Some. intros [p Hp]. apply (i_id o HI) in Hp as (c & Hc & _).
    by rewrite Hs in Hc.
  - rewrite (i_num o HI), Hl. done.
Qed.

Lemma client_free_ok o : inv o →
  ∃ o', UdpGwClient_Free o = Some (tt, o', []) ∧ store o' = ∅ ∧ connections_tree_by_conaddr o' = ∅ ∧
        connections_tree_by_conid o' = ∅ ∧ num_connections o' = 0 ∧ have_server o' = false.
Proof.
  intros HI. destruct (free_all _ o HI (le_n _)) as (o' & E & HI' & Hl & Hh). unfold UdpGwClient_Free. mrun. rewrite E. cbn.
  destruct (empty_inv o' HI' Hl) as (? & ? & ? & ?).
  destruct (have_server o') eqn:Hs; cbn; eexists; (split; [reflexivity|]); by split_and!.
Qed.

(** ** All runs *)

Inductive ev :=
  | Submit (mem : option ptr) (flow_ok room : bool) (local remote : BAddr) (is_dns : bool) (data : list Z)
  | FirstJob (room : bool) (p : ptr)
  | Receive (data : list Z)
  | ConnectServer (ok : bool)
  | DisconnectServer
  | DecoderError
  | Monitor
  | KeepaliveDone.

Definition handler_of (e : ev) : UM unit :=
  match e with
  | Submit mem fo room l r dns data => UdpGwClient_SubmitPacket mem fo room l r dns data
  | FirstJob room p => connection_first_job_handler room p
  | Receive data => recv_interface_handler_send data
  | ConnectServer ok => UdpGwClient_ConnectServer ok;; mret tt
  | DisconnectServer => UdpGwClient_DisconnectServer
  | DecoderError => decoder_handler_error
  | Monitor => send_monitor_handler
  | KeepaliveDone => keepalive_if_handler_done
  end.

(** What the environment may do: valid addresses and packets within the MTU,
    memory that is not in use, jobs that are set, and packets from the server
    and disconnection only while there is one. *)
Definition allowed (o : UdpGwClient) (e : ev) : Prop :=
  match e with
  | Submit mem _ _ l r _ data =>
      valid_addr l ∧ valid_addr r ∧ zlen data <= udp_mtu o ∧ (∀ p, mem = Some p → store o !! p = None)
  | FirstJob _ p => ∃ c x, store o !! p = Some c ∧ first c = Some x
  | Receive data => have_server o = true ∧ zlen data <= udpgw_mtu o ∧ bytes data
  | ConnectServer _ => have_server o = false
  | DisconnectServer | DecoderError => have_server o = true
  | Monitor => True
  | KeepaliveDone => keepalive_sending o = true
  end.

(** The run, with the calls each event led to. *)
Inductive steps : UdpGwClient → list (ev * list eff) → UdpGwClient → Prop :=
  | steps_nil o : steps o [] o
  | steps_snoc o log o1 e es o2 :
      steps o log o1 → allowed o1 e → handler_of e o1 = Some (tt, o2, es) → steps o (log ++ [(e, es)]) o2.

(** The cache of addresses the events and deliveries describe. *)
Definition lru_event (max : Z) (l : list UdpGwClient_conaddr) (x : ev * list eff) : list UdpGwClient_conaddr :=
  match x with
  | (Submit mem fo _ loc rem _ _, _) => lru_submit max (bool_decide (is_Some mem) && fo) (mkConaddr loc rem) l
  | (Receive _, [AcceptPacket; HandlerReceived loc rem _]) => touch (mkConaddr loc rem) l
  | _ => l
  end.

Lemma set_flags_inv o k h : inv o → inv (set_flags k h o).
Proof. intros []. split; cbn; try done. intros p c Hp. destruct (i_con0 _ _ Hp). by split. Qed.

Lemma first_job_ok o room p c x : inv o → store o !! p = Some c → first c = Some x →
  ∃ o' es, connection_first_job_handler room p o = Some (tt, o', es) ∧ inv o' ∧ recency o' = recency o ∧
           max_connections o' = max_connections o ∧ have_server o' = have_server o ∧
           es = written room c (Z.lor UDPGW_CLIENT_FLAG_REBIND (fst x)) (snd x).
Proof.
  intros HI Hp Hx. destruct x as [flags data]. unfold connection_first_job_handler, deref. mrun. rewrite Hp. cbn. rewrite Hx. cbn.
  set (c1 := mkCon (conaddr c) (conid c) None). set (o1 := set_store (<[p := c1]> (store o)) o).
  assert (HI1 : inv o1).
  { pose proof HI as []. unfold o1. split; cbn; try done.
    - intros q. rewrite i_dom0. destruct (decide (q = p)) as [->|]; [rewrite lookup_insert_eq, Hp; naive_solver|by rewrite lookup_insert_ne].
    - intros a q. rewrite i_addr0. destruct (decide (q = p)) as [->|]; [|by rewrite lookup_insert_ne].
      rewrite lookup_insert_eq, Hp. split; intros (d & [= <-] & <-); eexists; done.
    - intros id q. rewrite i_id0. destruct (decide (q = p)) as [->|]; [|by rewrite lookup_insert_ne].
      rewrite lookup_insert_eq, Hp. split; intros (d & [= <-] & <-); eexists; done.
    - intros q d. destruct (decide (q = p)) as [->|]; [|rewrite lookup_insert_ne by done; intros Hq; destruct (i_con0 _ _ Hq); by split].
      rewrite lookup_insert_eq. intros [= <-]. destruct (i_con0 _ _ Hp). by split. }
  rewrite (connection_send_ok room o1 p c1); [|done|apply lookup_insert_eq|cbn; by eapply (i_con o HI p c Hp)].
  cbn. do 2 eexists. split; [reflexivity|]. split_and!; try done.
  unfold recency, o1. cbn. clear -Hp. induction (connections_list o) as [|q l IH]; [done|].
  unfold recency_of in *. cbn. destruct (decide (q = p)) as [->|]; [rewrite lookup_insert_eq, Hp|rewrite lookup_insert_ne by done];
    cbn; [|destruct (store o !! q); cbn]; by rewrite ?IH.
Qed.

Lemma event_ok o e : inv o → allowed o e →
  ∃ o' es, handler_of e o = Some (tt, o', es) ∧ inv o' ∧ max_connections o' = max_connections o ∧
           recency o' = lru_event (max_connections o) (recency o) (e, es) ∧
           match e with
           | ConnectServer _ | DisconnectServer => True
           | DecoderError => o' = o ∧ es = [HandlerServerError]
           | _ => have_server o' = have_server o ∧ Forall (λ x, x ≠ HandlerServerError) es
           end.
Proof.
  intros HI HA. destruct e as [mem fo room l r dns data|room p|data|ok| | | |]; cbn [allowed handler_of] in *.
  - destruct HA as (HL & HR & Hd & Hm).
    destruct (submit_ok mem fo room l r dns data o HI HL HR Hd Hm) as (o' & es & E & HI' & Hmx & Hh & _ & Hrec & Hes).
    exists o', es. split_and!; try done. destruct Hes as [->|(? & ? & ? & _ & _ & ->)]; [done|].
    constructor; [by destruct room|done].
  - destruct HA as (c & x & Hp & Hx). destruct (first_job_ok o room p c x HI Hp Hx) as (o' & es & E & HI' & Hrec & Hmx & Hh & ->).
    exists o', (written room c (Z.lor UDPGW_CLIENT_FLAG_REBIND (fst x)) (snd x)). split_and!; try done.
    constructor; [by destruct room|done].
  - destruct HA as (Hs & Hl & HB).
    destruct (receive_ok o data HI Hs Hl HB) as (o' & es & E & [(-> & -> & _)|(p & c & d & (Hp & _) & -> & ->)]).
    + do 2 eexists. split; [exact E|]. split_and!; try done. by constructor.
    + do 2 eexists. split; [exact E|]. split_and!; [by eapply touched_inv|done| |done|by repeat constructor].
      cbn [lru_event]. rewrite (touched_recency o p c HI Hp). by destruct (conaddr c).
  - unfold UdpGwClient_ConnectServer. mrun. rewrite HA. cbn. destruct ok; cbn; do 2 eexists; (split; [reflexivity|]);
      split_and!; try done. by apply set_flags_inv.
  - unfold UdpGwClient_DisconnectServer. mrun. rewrite HA. cbn. do 2 eexists. split; [reflexivity|].
    split_and!; try done. by apply set_flags_inv.
  - unfold decoder_handler_error. mrun. rewrite HA. cbn. do 2 eexists. split; [reflexivity|]. by split_and!.
  - unfold send_monitor_handler. mrun. destruct (keepalive_sending o); cbn; do 2 eexists; (split; [reflexivity|]);
      split_and!; try done; [by apply set_flags_inv|by repeat constructor].
  - unfold keepalive_if_handler_done. mrun. rewrite HA. cbn. do 2 eexists. split; [reflexivity|].
    split_and!; try done. by apply set_flags_inv.
Qed.

Lemma means_fromint v : 0 <= v → means (bsize_fromint v) v.
Proof.
  intros H. apply means_intro; cbn; [apply u64_range|done| |intros; apply u64_small; lia].
  rewrite orb_true_iff, Z.ltb_lt, Z.gtb_lt. lia.
Qed.

Lemma compute_mtu_eq m : 0 <= m → 0 <= udpgw_compute_mtu m → udpgw_compute_mtu m = 22 + m.
Proof.
  intros Hm. unfold udpgw_compute_mtu. set (bs := bsize_add _ _).
  assert (Hb : means bs (4 + (Z.max 6 18 + m))).
  { apply means_add; [apply means_fromsize; vm_compute; split; discriminate|]. apply means_add; [|by apply means_fromint].
    apply means_max; apply means_fromsize; vm_compute; split; discriminate. }
  clearbody bs. destruct Hb as (_ & _ & Ho & Hv). unfold bsize_toint. rewrite Ho.
  destruct (4 + (Z.max 6 18 + m) >? SIZE_MAX) eqn:C; cbn; [lia|]. zb.
  destruct (value bs >? INT_MAX); [lia|]. intros _. rewrite Hv; lia.
Qed.

Lemma init_inv mtu maxcon sbs o : UdpGwClient_Init mtu maxcon sbs true = Some (Some o) →
  inv o ∧ recency o = [] ∧ max_connections o = Z.min maxcon (UINT16_MAX + 1).
Proof.
  unfold UdpGwClient_Init. destruct (negb _) eqn:E; [done|]. intros [= <-]. zb. split_and!; [|done|cbn; case_if; lia].
  split; cbn; try done.
  - split; [done|]. apply compute_mtu_eq; lia.
  - case_if; unfold UINT16_MAX in *; lia.
  - constructor.
  - intros p. rewrite lookup_empty. split; [by intros ?%elem_of_nil|by intros []].
  - case_if; unfold UINT16_MAX in *; lia.
  - intros a p. rewrite lookup_empty. split; [done|]. intros (c & Hlk & _). by rewrite lookup_empty in Hlk.
  - intros a p. rewrite lookup_empty. split; [done|]. intros (c & Hlk & _). by rewrite lookup_empty in Hlk.
  - case_if; unfold UINT16_MAX in *; lia.
Qed.

Lemma steps_inv o0 log o : steps o0 log o → inv o0 →
  inv o ∧ max_connections o = max_connections o0 ∧
  recency o = foldl (lru_event (max_connections o0)) (recency o0) log.
Proof.
  induction 1 as [|o log o1 e es o2 _ IH HA E]; [done|]. intros HI0. destruct (IH HI0) as (HI1 & Hm & Hr).
  destruct (event_ok o1 e HI1 HA) as (o' & es' & E' & HI2 & Hm2 & Hr2 & _). rewrite E in E'. injection E' as <- <-.
  split_and!; [done|congruence|]. rewrite foldl_app. cbn. rewrite <-Hr, <-Hm. done.
Qed.

(** C29: The table of connections.  In every state reached from
    [UdpGwClient_Init] by any sequence of submitted packets, first jobs,
    packets from the gateway, connects, disconnects and keep-alives, with
    memory and buffers failing at will: the next event passes all assertions
    of the code (in particular the search for a free id ends, in at most
    [max_connections] rounds); the two trees, the list and the connections
    agree; there are never more than [max_connections] connections, with
    distinct addresses and distinct ids; and the client can be freed, which
    leaves nothing. *)
Theorem connections_consistent mtu maxcon sbs o0 log o e :
  UdpGwClient_Init mtu maxcon sbs true = Some (Some o0) → steps o0 log o → allowed o e →
  (∃ o' es, handler_of e o = Some (tt, o', es)) ∧
  inv o ∧ num_connections o <= Z.min maxcon (UINT16_MAX + 1) ∧
  (∃ o', UdpGwClient_Free o = Some (tt, o', []) ∧ store o' = ∅ ∧ connections_tree_by_conaddr o' = ∅ ∧
         connections_tree_by_conid o' = ∅ ∧ have_server o' = false).
Proof.
  intros Hi HS HA. destruct (init_inv _ _ _ _ Hi) as (HI0 & _ & Hm). destruct (steps_inv _ _ _ HS HI0) as (HI & Hm' & _).
  destruct (event_ok o e HI HA) as (o' & es & E & _). split_and!; [eauto|done|rewrite <-Hm, <-Hm'; apply (i_full o HI)|].
  destruct (client_free_ok o HI) as (o2 & ? & ? & ? & ? & ? & ?). by exists o2.
Qed.

(** A small client: two connections at most; two addresses in use. *)
Definition example_addr (n : Z) : BAddr := BAddr_MakeIPv4 n 13568.

Lemma example_addr_valid n : (0 <=? n) && (n <=? 1000) = true → valid_addr (example_addr n).
Proof. intros H. zb. split; [|done]. cbn. unfold is_u32, is_u16, UINT32_MAX, UINT16_MAX. lia. Qed.

Definition example_log : list (ev * list eff) :=
  [(ConnectServer true, []);
   (Submit (Some 7%nat) true true (example_addr 1) (example_addr 9) true [11; 12], []);
   (FirstJob true 7%nat, [WritePacket 0 [6; 0; 0; 9; 0; 0; 0; 0; 53; 11; 12]])].

Lemma example_steps : ∃ o0 o,
  UdpGwClient_Init 100 2 4 true = Some (Some o0) ∧ steps o0 example_log o ∧ have_server o = true ∧ udp_mtu o = 100 ∧
  store o !! 7%nat = Some (mkCon (mkConaddr (example_addr 1) (example_addr 9)) 0 None).
Proof.
  eexists. eexists. split; [vm_compute; reflexivity|]. split.
  - unfold example_log. change [?a; ?b; ?c] with ((([] ++ [a]) ++ [b]) ++ [c]).
    eapply steps_snoc; [eapply steps_snoc; [eapply steps_snoc; [apply steps_nil| |]| |]| |].
    + reflexivity.
    + vm_compute. reflexivity.
    + split_and!; [by apply example_addr_valid|by apply example_addr_valid|vm_compute; discriminate|].
      intros p [= <-]. vm_compute. reflexivity.
    + vm_compute. reflexivity.
    + eexists _, _. split; [vm_compute; reflexivity|reflexivity].
    + vm_compute. reflexivity.
  - split_and!; vm_compute; reflexivity.
Qed.

Lemma connections_consistent_witness : ∃ o,
  (∃ o' es, handler_of Monitor o = Some (tt, o', es)) ∧ inv o ∧ num_connections o <= Z.min 2 (UINT16_MAX + 1).
Proof.
  destruct example_steps as (o0 & o & Hi & HS & _). exists o.
  destruct (connections_consistent 100 2 4 o0 example_log o Monitor Hi HS I) as (H1 & H2 & H3 & _).
  split; [exact H1|]. split; [exact H2|exact H3].
Defined.

(** C36: Connections are reused by age: the addresses of the connections,
    oldest use first, are those of a cache of [max_connections] addresses in
    which a packet to or from an address makes it the youngest and a packet
    to a new address takes the place of the oldest one when the cache is
    full. *)
Theorem connections_lru mtu maxcon sbs o0 log o :
  UdpGwClient_Init mtu maxcon sbs true = Some (Some o0) → steps o0 log o →
  recency o = foldl (lru_event (Z.min maxcon (UINT16_MAX + 1))) [] log.
Proof.
  intros Hi HS. destruct (init_inv _ _ _ _ Hi) as (HI0 & Hr & Hm). destruct (steps_inv _ _ _ HS HI0) as (_ & _ & ->).
  by rewrite Hr, Hm.
Qed.

Lemma connections_lru_witness : ∃ o,
  recency o = foldl (lru_event (Z.min 2 (UINT16_MAX + 1))) [] example_log.
Proof.
  destruct example_steps as (o0 & o & Hi & HS & _). exists o. exact (connections_lru 100 2 4 o0 example_log o Hi HS).
Defined.

(** C32: Packets find their way back.  A packet the client sends for a
    connection, returned by the gateway, is handed to the user as a packet
    from the connection's remote address to its local address, with the same
    data.  Whatever bytes the gateway sends, a packet is handed to the user
    exactly if they are, in the format of the protocol, a packet with the id of a
    connection and the remote address of this connection and not more data than
    allowed; it is then handed on with the local address of the connection and
    these data, and else nothing is. *)
Theorem gateway_roundtrip mtu maxcon sbs o0 log o p c flags data :
  UdpGwClient_Init mtu maxcon sbs true = Some (Some o0) → steps o0 log o → have_server o = true →
  store o !! p = Some c → small_flags flags → zlen data <= udp_mtu o → bytes data →
  connection_send true p flags data o = Some (tt, o, [WritePacket (conid c) (sent_packet c flags data)]) ∧
  (∃ o', recv_interface_handler_send (sent_packet c flags data) o =
     Some (tt, o', [AcceptPacket; HandlerReceived (local_addr (conaddr c)) (remote_addr (conaddr c)) data])) ∧
  (∀ d, zlen d <= udpgw_mtu o → bytes d →
     ∃ o' es, recv_interface_handler_send d o = Some (tt, o', AcceptPacket :: es) ∧
       (es = [] ∨ ∃ l r x, es = [HandlerReceived l r x]) ∧
       ∀ l r x, es = [HandlerReceived l r x] ↔
         ∃ q c', store o !! q = Some c' ∧ conaddr c' = mkConaddr l r ∧ encodes d (conid c') r x ∧ zlen x <= udp_mtu o).
Proof.
  intros Hi HS Hs Hp Hf Hd HB. destruct (init_inv _ _ _ _ Hi) as (HI0 & _). destruct (steps_inv _ _ _ HS HI0) as (HI & _).
  split; [by apply (connection_send_ok true)|].
  destruct (echo_from o p c flags data HI Hp Hf Hd) as (HF & Hz & HBp). split; [|intros d Hl HBd; by apply receive_exact].
  destruct (receive_ok o (sent_packet c flags data) HI Hs ltac:(lia) (HBp HB))
    as (o' & es & E & [(_ & _ & Hno)|(q & c' & d & HF' & _ & ->)]); [by destruct (Hno p c data ltac:(lia) HF)|].
  exists o'. rewrite E. destruct HF as (_ & Hid & HP & _), HF' as (Hq & Hid' & HP' & _).
  assert (H1 : connections_tree_by_conid o !! conid c = Some p) by (apply (i_id o HI); eauto).
  assert (H2 : connections_tree_by_conid o !! conid c = Some q) by (apply (i_id o HI); exists c'; split; [done|congruence]).
  assert (q = p) as -> by congruence. assert (c' = c) as -> by congruence. congruence.
Qed.

Lemma gateway_roundtrip_witness : ∃ o o' c,
  recv_interface_handler_send (sent_packet c 4 [1; 2; 3]) o =
    Some (tt, o', [AcceptPacket; HandlerReceived (example_addr 1) (example_addr 9) [1; 2; 3]]).
Proof.
  destruct example_steps as (o0 & o & Hi & HS & Hs & Hm & Hp).
  destruct (gateway_roundtrip 100 2 4 o0 example_log o _ _ 4 [1; 2; 3] Hi HS Hs Hp) as (_ & (o' & E) & _).
  - unfold small_flags. lia.
  - rewrite Hm. vm_compute. discriminate.
  - repeat constructor; vm_compute; discriminate.
  - exists o, o', (mkCon (mkConaddr (example_addr 1) (example_addr 9)) 0 None). exact E.
Defined.
