(* ===== verification/SocksUdpGw.v ===== *)
(** * UDP gateway over SOCKS ([tun2socks/SocksUdpGwClient.c])

    Keeps a SOCKS connection to the UDP gateway: while there is none a timer
    runs, when the connection is up the gateway client uses it.  The state is
    made of the two clients modelled in [SocksClient] and [UdpGwClient], whose
    operations are called on it; the build does not define [ANDROID_UDP]. *)

From S2P Require Import Prelude Net.
From S2P Require Import SocksClient.
From S2P Require Import UdpGwClient.

Record SocksUdpGwClient := mkSU {
  socks_server_addr : BAddr;
  auth : list SocksClient.BSocksClient_auth_info;
  remote_udpgw_addr : BAddr;
  udpgw_client : UdpGwClient.UdpGwClient;
  reconnect_timer : bool;
  socks_client : option SocksClient.world;    (* [have_socks] when present *)
  socks_up : bool
}.

(** Calls of the gateway client, the user's handler, and a new attempt to
    connect. *)
Inductive eff :=
  | Gateway (e : UdpGwClient.eff)
  | UserReceived (local remote : BAddr) (d : list Z)
  | Connecting.

Definition SUM := M SocksUdpGwClient eff.

Definition have_socks (o : SocksUdpGwClient) : bool := bool_decide (is_Some (socks_client o)).

Definition set_gateway (g : UdpGwClient.UdpGwClient) (o : SocksUdpGwClient) : SocksUdpGwClient :=
  mkSU (socks_server_addr o) (auth o) (remote_udpgw_addr o) g (reconnect_timer o) (socks_client o) (socks_up o).
Definition set_timer (b : bool) (o : SocksUdpGwClient) : SocksUdpGwClient :=
  mkSU (socks_server_addr o) (auth o) (remote_udpgw_addr o) (udpgw_client o) b (socks_client o) (socks_up o).
Definition set_socks (s : option SocksClient.world) (up : bool) (o : SocksUdpGwClient) : SocksUdpGwClient :=
  mkSU (socks_server_addr o) (auth o) (remote_udpgw_addr o) (udpgw_client o) (reconnect_timer o) s up.

(** An operation of the gateway client. *)
Definition gateway {A} (m : UdpGwClient.UM A) : SUM A := λ o,
  match m (udpgw_client o) with
  | None => None
  | Some (a, g, es) => Some (a, set_gateway g o, Gateway <$> es)
  end.

Definition free_socks : SUM unit :=
  o ← get;
  ASSERT (have_socks o);;
  when (socks_up o) (gateway UdpGwClient.UdpGwClient_DisconnectServer);;
  match socks_client o with
  | None => ASSERT false
  | Some w => ASSERT (bool_decide (is_Some (SocksClient.BSocksClient_Free (SocksClient.cli w))))
  end;;
  modify (λ o, set_socks None (socks_up o) o).

(** [ok]: the connector can be set up. *)
Definition try_connect (ok : bool) : SUM unit :=
  o ← get;
  ASSERT (negb (have_socks o));;
  ASSERT (negb (reconnect_timer o));;
  match SocksClient.BSocksClient_Init (socks_server_addr o) (auth o) (remote_udpgw_addr o) ok with
  | None => ASSERT false
  | Some None => modify (set_timer true)
  | Some (Some c) =>
      emit Connecting;;
      modify (set_socks (Some (SocksClient.start c)) false)
  end.

(** The reactor stops the timer before it calls the handler. *)
Definition reconnect_timer_handler (ok : bool) : SUM unit :=
  modify (set_timer false);;
  o ← get;
  ASSERT (negb (have_socks o));;
  try_connect ok.

(** [BSocksClient_GetSendInterface], [BSocksClient_GetRecvInterface]: only on
    a client that is up. *)
Definition get_interfaces : SUM unit :=
  o ← get;
  match socks_client o with
  | None => ASSERT false
  | Some w => ASSERT (bool_decide (SocksClient.state (SocksClient.cli w) = SocksClient.STATE_UP))
  end.

(** [ok]: [UdpGwClient_ConnectServer] gets its memory. *)
Definition socks_client_handler (ok : bool) (event : SocksClient.event) : SUM unit :=
  o ← get;
  ASSERT (have_socks o);;
  match event with
  | SocksClient.EVENT_UP =>
      ASSERT (negb (socks_up o));;
      get_interfaces;;
      r ← gateway (UdpGwClient.UdpGwClient_ConnectServer ok);
      if negb r then free_socks;; modify (set_timer true)
      else modify (λ o, set_socks (socks_client o) true o)
  | _ => free_socks;; modify (set_timer true)
  end.

Definition udpgw_handler_servererror : SUM unit :=
  o ← get;
  ASSERT (have_socks o);;
  ASSERT (socks_up o);;
  free_socks;;
  modify (set_timer true).

Definition udpgw_handler_received (local remote : BAddr) (d : list Z) : SUM unit :=
  emit (UserReceived local remote d).

Definition SocksUdpGwClient_Init (udp_mtu max_connections send_buffer_size : Z) (server : BAddr)
    (a : list SocksClient.BSocksClient_auth_info) (remote : BAddr) (queue_ok connect_ok : bool)
  : option (option (SocksUdpGwClient * list eff)) :=
  if BAddr_IsInvalid server || BAddr_IsInvalid remote then None
  else
    match UdpGwClient.UdpGwClient_Init udp_mtu max_connections send_buffer_size queue_ok with
    | None => None
    | Some None => Some None
    | Some (Some g) =>
        '(_, o, es) ← try_connect connect_ok (mkSU server a remote g false None false);
        Some (Some (o, es))
    end.

Definition SocksUdpGwClient_Free : SUM unit :=
  o ← get;
  when (have_socks o) free_socks;;
  modify (set_timer false);;
  gateway UdpGwClient.UdpGwClient_Free.

Definition SocksUdpGwClient_SubmitPacket (mem : option UdpGwClient.ptr) (flow_ok room : bool) (local remote : BAddr)
    (is_dns : bool) (data : list Z) : SUM unit :=
  gateway (UdpGwClient.UdpGwClient_SubmitPacket mem flow_ok room local remote is_dns data).

(** ** Events *)

(** The handlers the gateway client calls. *)
Fixpoint gateway_calls (es : list UdpGwClient.eff) : SUM unit :=
  match es with
  | [] => mret tt
  | UdpGwClient.HandlerReceived l r d :: es' => udpgw_handler_received l r d;; gateway_calls es'
  | UdpGwClient.HandlerServerError :: es' => udpgw_handler_servererror;; gateway_calls es'
  | _ :: es' => gateway_calls es'
  end.

Fixpoint socks_calls (ok : bool) (es : list SocksClient.event) : SUM unit :=
  match es with
  | [] => mret tt
  | e :: es' => socks_client_handler ok e;; socks_calls ok es'
  end.

(** [Socks e ok]: something happens to the SOCKS client, which may report it;
    [Gw e]: something happens to the gateway client; [Timer ok]: the timer
    expires. *)
Inductive ev := Socks (e : SocksClient.ev) (ok : bool) | Gw (e : UdpGwClient.ev) | Timer (ok : bool).

Section World.
Context (fresh : Z → list Z).

Definition socks_step (e : SocksClient.ev) (ok : bool) : SUM unit :=
  o ← get;
  match socks_client o with
  | None => ASSERT false
  | Some w =>
      match SocksClient.wstep fresh w e with
      | None => ASSERT false
      | Some w' =>
          modify (λ o, set_socks (Some w') (socks_up o) o);;
          socks_calls ok (drop (length (SocksClient.reports w)) (SocksClient.reports w'))
      end
  end.

Definition gw_step (e : UdpGwClient.ev) : SUM unit :=
  o ← get;
  match UdpGwClient.handler_of e (udpgw_client o) with
  | None => ASSERT false
  | Some (_, g, es) => modify (set_gateway g);; gateway_calls es
  end.

Definition step (e : ev) : SUM unit :=
  match e with
  | Socks e ok => socks_step e ok
  | Gw e => gw_step e
  | Timer ok => reconnect_timer_handler ok
  end.

(** The environment drives each client as that client permits; connecting
    and disconnecting the gateway client is left to the handlers above. *)
Definition allowed (o : SocksUdpGwClient) (e : ev) : Prop :=
  match e with
  | Socks e _ => ∃ w, socks_client o = Some w ∧ SocksClient.allowed w e = true
  | Gw (UdpGwClient.ConnectServer _) | Gw UdpGwClient.DisconnectServer => False
  | Gw e => UdpGwClient.allowed (udpgw_client o) e
  | Timer _ => reconnect_timer o = true
  end.

Inductive reachable (o0 : SocksUdpGwClient) : SocksUdpGwClient → Prop :=
  | reach_start : reachable o0 o0
  | reach_step o e o' es :
      reachable o0 o → allowed o e → step e o = Some (tt, o', es) → reachable o0 o'.
End World.

(** ** Invariant: a connection or the timer, never both *)

Definition socks_ok (o : SocksUdpGwClient) : Prop :=
  match socks_client o with
  | None => reconnect_timer o = true ∧ UdpGwClient.have_server (udpgw_client o) = false
  | Some w =>
      reconnect_timer o = false ∧ SocksClient.alive w ∧ SocksClient.good_dest w ∧
      socks_up o = bool_decide (SocksClient.state (SocksClient.cli w) = SocksClient.STATE_UP) ∧
      UdpGwClient.have_server (udpgw_client o) = socks_up o
  end.

Record inv (o : SocksUdpGwClient) : Prop := mkInv {
  i_gateway : UdpGwClient.inv (udpgw_client o);
  i_server : BAddr_IsInvalid (socks_server_addr o) = false;
  i_remote : UdpGwClient.valid_addr (remote_udpgw_addr o);
  i_socks : socks_ok o
}.

(** Freeing the SOCKS client, whether or not it is alive. *)
Lemma free_socks_ok o w : UdpGwClient.inv (udpgw_client o) → socks_client o = Some w →
  SocksClient.res_ok (SocksClient.cli w) → UdpGwClient.have_server (udpgw_client o) = socks_up o →
  ∃ g es, free_socks o = Some (tt, set_socks None (socks_up o) (set_gateway g o), es) ∧ UdpGwClient.inv g ∧
          UdpGwClient.have_server g = false.
Proof.
  intros HI Hs Hr Hh. destruct (SocksClient.free_ok _ Hr) as (c & Ef & _).
  unfold free_socks, have_socks, gateway. mrun. rewrite Hs, bool_decide_true by eauto. cbn.
  destruct (socks_up o) eqn:Hu; cbn.
  - unfold UdpGwClient.UdpGwClient_DisconnectServer. mrun. rewrite Hh. cbn. rewrite Ef, bool_decide_true by eauto.
    cbn. rewrite Hu. do 2 eexists. split; [reflexivity|]. split; [by apply UdpGwClient.set_flags_inv|done].
  - rewrite Ef, bool_decide_true by eauto. cbn. exists (udpgw_client o), []. rewrite Hu. split; [by destruct o|done].
Qed.

Section Steps.
Context (fresh : Z → list Z) (fresh_len : ∀ n, 0 <= n → zlen (fresh n) = n).

(** Once up, the only thing that can happen to the SOCKS client is that the
    connection closes. *)
Lemma up_closes w e : SocksClient.alive w → SocksClient.state (SocksClient.cli w) = SocksClient.STATE_UP →
  SocksClient.allowed w e = true →
  ∃ w', SocksClient.wstep fresh w e = Some w' ∧ SocksClient.new_error w w' ∧ SocksClient.res_ok (SocksClient.cli w').
Proof.
  intros HA Hs Hal. destruct (SocksClient.alive_facts w HA) as [HR _]. destruct HA as [HP _]. unfold SocksClient.phase in HP.
  rewrite Hs in HP. destruct HP as (? & ? & ? & ? & ? & _ & _ & _ & _ & _ & _ & Hsd & Hrv).
  unfold SocksClient.allowed in Hal. rewrite Hsd, Hrv, Hs in Hal. apply andb_true_iff in Hal as [_ Hal].
  destruct e as [ie co ok|ok|d ok|c]; try done. cbn [SocksClient.wstep].
  unfold SocksClient.run, SocksClient.connection_handler. mrun. rewrite Hs. cbn.
  destruct c; cbn; eexists; (split; [reflexivity|]); (split; [|done]); eexists; (split; [|reflexivity]); done.
Qed.

(** The effect of an event of the SOCKS client on its reports. *)
Lemma socks_reports w e : SocksClient.alive w → SocksClient.good_dest w → SocksClient.allowed w e = true →
  ∃ w', SocksClient.wstep fresh w e = Some w' ∧ SocksClient.good_dest w' ∧
    SocksClient.res_ok (SocksClient.cli w') ∧
    ((SocksClient.state (SocksClient.cli w) ≠ SocksClient.STATE_UP ∧ SocksClient.alive w' ∧
      SocksClient.reports w' = SocksClient.reports w ++
        (if bool_decide (SocksClient.state (SocksClient.cli w') = SocksClient.STATE_UP) then [SocksClient.EVENT_UP] else []))
     ∨ SocksClient.new_error w w').
Proof.
  intros HA HG Hal. destruct (SocksClient.socks_step fresh fresh_len w e HA HG Hal) as (w' & E & Ha & Hd & HF).
  assert (HG' : SocksClient.good_dest w') by (unfold SocksClient.good_dest in *; by rewrite Hd).
  destruct (decide (SocksClient.state (SocksClient.cli w) = SocksClient.STATE_UP)) as [Hu|Hu].
  - destruct (up_closes w e HA Hu Hal) as (w2 & E2 & HN & HR). rewrite E in E2. injection E2 as <-.
    exists w'. by split_and!; [| | |right].
  - exists w'. split; [done|]. split; [done|]. destruct HF as [HL|[(_ & HR & _) HN]]; [|by split; [|right]].
    destruct (SocksClient.alive_facts w' HL) as [HR _]. split; [done|]. left. split; [done|]. split; [done|].
    destruct (SocksClient.alive_facts w HA) as [_ Hrep]. rewrite (Hrep Hu). by destruct HL as (_ & _ & ->).
Qed.

(** After an error, or when the gateway client cannot connect: the SOCKS
    client is freed and the timer started. *)
Lemma error_step o w ev ok :
  UdpGwClient.inv (udpgw_client o) → BAddr_IsInvalid (socks_server_addr o) = false →
  UdpGwClient.valid_addr (remote_udpgw_addr o) →
  socks_client o = Some w → SocksClient.res_ok (SocksClient.cli w) →
  UdpGwClient.have_server (udpgw_client o) = socks_up o → ev ≠ SocksClient.EVENT_UP →
  ∃ o' es, socks_client_handler ok ev o = Some (tt, o', es) ∧ inv o'.
Proof.
  intros HI Hsv Hrm Hs Hr Hh Hev. destruct (free_socks_ok o w HI Hs Hr Hh) as (g & es & E & HIg & Hg).
  unfold socks_client_handler, have_socks. mrun. rewrite Hs, bool_decide_true by eauto. cbn.
  destruct ev; [|done|]; mrun; rewrite E; cbn; do 2 eexists; (split; [reflexivity|]); by split.
Qed.

Lemma inv_socks_step o e ok w : inv o → socks_client o = Some w → SocksClient.allowed w e = true →
  ∃ o' es, step fresh (Socks e ok) o = Some (tt, o', es) ∧ inv o'.
Proof.
  intros [HIg Hsv Hrm HS] Hs Hal. unfold socks_ok in HS. rewrite Hs in HS. destruct HS as (Ht & HA & HG & Hup & Hh).
  destruct (socks_reports w e HA HG Hal) as (w' & E & HG' & HR' & HC). cbn [step]. unfold socks_step. mrun. rewrite Hs, E. cbn.
  set (o1 := set_socks (Some w') (socks_up o) o).
  destruct HC as [(Hnu & HA' & Hrep)|(ev & Hev & Hrep)]; rewrite Hrep, drop_app_length.
  - rewrite bool_decide_false in Hup by done. case_bool_decide as Hst; cbn.
    + (* the connection comes up *)
      unfold socks_client_handler, have_socks, get_interfaces, gateway, UdpGwClient.UdpGwClient_ConnectServer. mrun.
      cbn. rewrite Hup. cbn. rewrite Hst. rewrite (bool_decide_true (SocksClient.STATE_UP = SocksClient.STATE_UP)) by done. cbn.
      rewrite Hh, Hup. cbn. destruct ok; cbn.
      * do 2 eexists. split; [reflexivity|]. split; cbn; try done; [by apply UdpGwClient.set_flags_inv|].
        unfold socks_ok. cbn. rewrite Hst. by split_and!.
      * set (o2 := set_gateway (udpgw_client o) o1).
        destruct (free_socks_ok o2 w' HIg eq_refl HR') as (g & es & Ef & HIg' & Hg'); [done|].
        rewrite Ef. cbn. do 2 eexists. split; [reflexivity|]. by split.
    + do 2 eexists. split; [reflexivity|]. split; cbn; try done.
      unfold socks_ok. cbn. rewrite bool_decide_false by done. by split_and!; try done; rewrite Hh, Hup.
  - destruct (error_step o1 w' ev ok) as (o' & es & E' & HI'); try done. cbn [socks_calls].
    unfold mbind, M_bind. rewrite E'. cbn. do 2 eexists. by split; [reflexivity|].
Qed.

Lemma gateway_calls_quiet es o : Forall (λ x, x ≠ UdpGwClient.HandlerServerError) es →
  ∃ t, gateway_calls es o = Some (tt, o, t).
Proof.
  revert o. induction es as [|x es IH]; intros o HF; cbn [gateway_calls]; [by eexists|].
  inversion HF as [|? ? Hx HF']; subst. destruct (IH o HF') as (t & E).
  destruct x; try done; try (by exists t). mrun. rewrite E. by eexists.
Qed.

Lemma inv_gw_step o e : inv o → allowed o (Gw e) → ∃ o' es, step fresh (Gw e) o = Some (tt, o', es) ∧ inv o'.
Proof.
  intros [HIg Hsv Hrm HS] Hal.
  assert (Hal' : UdpGwClient.allowed (udpgw_client o) e) by (by destruct e).
  destruct (UdpGwClient.event_ok _ e HIg Hal') as (g & es & E & HIg' & _ & _ & HE).
  assert (HC : ∃ o' t, gateway_calls es (set_gateway g o) = Some (tt, o', t) ∧ inv o').
  2:{ destruct HC as (o' & t & EC & HI'). cbn [step]. unfold gw_step. mrun. rewrite E. cbn. rewrite EC.
      do 2 eexists. by split; [reflexivity|]. }
  assert (Hq : UdpGwClient.have_server g = UdpGwClient.have_server (udpgw_client o) →
               Forall (λ x, x ≠ UdpGwClient.HandlerServerError) es →
               ∃ o' t, gateway_calls es (set_gateway g o) = Some (tt, o', t) ∧ inv o').
  { intros Hh HF. destruct (gateway_calls_quiet es (set_gateway g o) HF) as (t & ->). do 2 eexists. split; [reflexivity|].
    split; try done. unfold socks_ok in *. cbn. rewrite Hh. done. }
  destruct e; try done; try (by apply Hq; tauto).
  destruct HE as [-> ->]. cbn in Hal. unfold socks_ok in HS. destruct (socks_client o) as [w|] eqn:Hs; [|destruct HS; congruence].
  destruct HS as (Ht & HA & HG & Hup & Hh). set (o1 := set_gateway (udpgw_client o) o).
  destruct (SocksClient.alive_facts w HA) as [HR _].
  destruct (free_socks_ok o1 w HIg Hs HR Hh) as (g' & es' & Ef & HIg2 & Hg2).
  cbn [gateway_calls]. unfold udpgw_handler_servererror, have_socks. mrun. rewrite Hs, bool_decide_true by eauto. cbn.
  rewrite <-Hh, Hal. cbn. rewrite Ef. cbn. do 2 eexists. split; [reflexivity|]. by split.
Qed.

Lemma inv_try_connect o ok : UdpGwClient.inv (udpgw_client o) → BAddr_IsInvalid (socks_server_addr o) = false →
  UdpGwClient.valid_addr (remote_udpgw_addr o) → socks_client o = None → reconnect_timer o = false →
  UdpGwClient.have_server (udpgw_client o) = false →
  ∃ o' es, try_connect ok o = Some (tt, o', es) ∧ inv o'.
Proof.
  intros HI Hsv [Hrm1 Hrm2] Hs Ht Hh. unfold try_connect, have_socks. mrun. rewrite Hs, bool_decide_false by (by intros []). cbn.
  rewrite Ht. cbn. unfold SocksClient.BSocksClient_Init. rewrite Hsv, Hrm2. cbn. destruct ok; cbn; do 2 eexists; (split; [reflexivity|]);
    split; cbn; try done; unfold socks_ok; cbn; by rewrite Hs.
Qed.

Lemma inv_timer_step o ok : inv o → reconnect_timer o = true → ∃ o' es, step fresh (Timer ok) o = Some (tt, o', es) ∧ inv o'.
Proof.
  intros [HIg Hsv Hrm HS] Ht. unfold socks_ok in HS. destruct (socks_client o) as [w|] eqn:Hs; [destruct HS; congruence|].
  destruct HS as [_ Hh]. destruct (inv_try_connect (set_timer false o) ok) as (o' & es & E & HI'); try done.
  cbn [step]. unfold reconnect_timer_handler, have_socks. mrun. rewrite Hs, bool_decide_false by (by intros []). cbn.
  rewrite E. do 2 eexists. by split; [reflexivity|].
Qed.

Lemma inv_step o e : inv o → allowed o e → ∃ o' es, step fresh e o = Some (tt, o', es) ∧ inv o'.
Proof.
  intros HI HA. destruct e as [e ok|e|ok].
  - destruct HA as (w & Hs & Hal). by eapply inv_socks_step.
  - by apply inv_gw_step.
  - by apply inv_timer_step.
Qed.

Lemma reachable_inv o0 o : reachable fresh o0 o → inv o0 → inv o.
Proof.
  induction 1 as [|o e o' es _ IH HA E]; [done|]. intros HI0. destruct (inv_step o e (IH HI0) HA) as (o2 & es2 & E2 & HI2).
  rewrite E in E2. by injection E2 as <- <-.
Qed.
End Steps.

Lemma start_inv mtu maxcon sbs server a remote connect_ok o es : baddr_ok remote →
  SocksUdpGwClient_Init mtu maxcon sbs server a remote true connect_ok = Some (Some (o, es)) → inv o.
Proof.
  intros Hr. unfold SocksUdpGwClient_Init. destruct (_ || _) eqn:Hv; [done|]. zb.
  destruct (UdpGwClient.UdpGwClient_Init mtu maxcon sbs true) as [[g|]|] eqn:Hg; [|done|done].
  destruct (UdpGwClient.init_inv _ _ _ _ Hg) as (HIg & _).
  destruct (inv_try_connect (mkSU server a remote g false None false) connect_ok) as (o' & es' & E & HI'); try done.
  { unfold UdpGwClient.UdpGwClient_Init in Hg. destruct (negb _); [done|]. by injection Hg as <-. }
  rewrite E. cbn. by intros [= <- <-].
Qed.

(** C37: The link to the gateway repairs itself.  In every state reached by
    any interleaving of what happens to the SOCKS connection, to the gateway
    client and to the timer, with failures at every point: the next event
    passes all assertions of this code and of both clients; there is always
    either a SOCKS connection (attempted or up) or a running reconnect timer,
    never both and never neither; the gateway client has a server exactly
    while the SOCKS connection is up; and the whole can be freed. *)
Theorem link_alive (fresh : Z → list Z) mtu maxcon sbs server a remote connect_ok o0 es0 o e :
  (∀ n, 0 <= n → zlen (fresh n) = n) → baddr_ok remote →
  SocksUdpGwClient_Init mtu maxcon sbs server a remote true connect_ok = Some (Some (o0, es0)) →
  reachable fresh o0 o → allowed o e →
  (∃ o' es, step fresh e o = Some (tt, o', es)) ∧
  have_socks o = negb (reconnect_timer o) ∧
  UdpGwClient.have_server (udpgw_client o) =
    match socks_client o with
    | Some w => bool_decide (SocksClient.state (SocksClient.cli w) = SocksClient.STATE_UP)
    | None => false
    end ∧
  ∃ o' es, SocksUdpGwClient_Free o = Some (tt, o', es) ∧ socks_client o' = None ∧ reconnect_timer o' = false.
Proof.
  intros Hf Hr Hi HR HA. pose proof (reachable_inv fresh Hf o0 o HR (start_inv _ _ _ _ _ _ _ _ _ Hr Hi)) as HI.
  destruct (inv_step fresh Hf o e HI HA) as (o1 & es1 & E1 & _). split; [eauto|]. destruct HI as [HIg Hsv Hrm HS].
  unfold socks_ok in HS. unfold have_socks, SocksUdpGwClient_Free. mrun. destruct (socks_client o) as [w|] eqn:Hs.
  - destruct HS as (Ht & HL & HG & Hup & Hh). rewrite Ht, bool_decide_true by eauto. split; [done|]. split; [congruence|].
    destruct (SocksClient.alive_facts w HL) as [Hres _]. destruct (free_socks_ok o w HIg Hs Hres Hh) as (g & es & Ef & HIg' & _).
    unfold have_socks. mrun. rewrite Hs, bool_decide_true by eauto. rewrite Ef. cbn. unfold gateway. cbn.
    destruct (UdpGwClient.client_free_ok g HIg') as (g' & Eg & _). rewrite Eg. cbn. do 2 eexists. by split; [reflexivity|].
  - destruct HS as [Ht Hh]. rewrite Ht, bool_decide_false by (by intros []). split; [done|]. split; [done|].
    unfold have_socks. rewrite Hs, bool_decide_false by (by intros []). cbn. unfold gateway. cbn.
    destruct (UdpGwClient.client_free_ok _ HIg) as (g' & Eg & _). rewrite Eg. cbn. do 2 eexists. by split; [reflexivity|].
Qed.

Lemma link_alive_witness :
  ∃ o0 es0, SocksUdpGwClient_Init 1500 256 8 (BAddr_MakeIPv4 1 2) [SocksClient.BSocksClient_auth_none]
              (BAddr_MakeIPv4 3 4) true true = Some (Some (o0, es0)) ∧
  (∃ o' es, step (λ n, replicate (Z.to_nat n) 0) (Socks (SocksClient.Connector false true true) true) o0 = Some (tt, o', es)) ∧
  have_socks o0 = negb (reconnect_timer o0).
Proof.
  eexists _, _. split; [reflexivity|].
  edestruct (link_alive (λ n, replicate (Z.to_nat n) 0) 1500 256 8 (BAddr_MakeIPv4 1 2) [SocksClient.BSocksClient_auth_none]
               (BAddr_MakeIPv4 3 4) true) with (e := Socks (SocksClient.Connector false true true) true) as (H1 & H2 & _).
  - intros n Hn. unfold zlen. rewrite length_replicate. lia.
  - done.
  - reflexivity.
  - apply reach_start.
  - eexists. by split; [reflexivity|].
  - by split; [exact H1|exact H2].
Defined.
