(* ===== verification/FairQueue.v ===== *)
(** * Fair queue ([flow/PacketPassFairQueue.c])

    Shares one output between flows.  Every flow has a virtual time, raised by
    the weight of each packet it sent; the queued flow with the least time is
    sent next.  A flow is the memory at a pointer (the [store]); the tree of
    queued flows is the sequence of its nodes, placed by comparing the times
    the flows have at the moment of the insertion, as the search tree does:
    that the sequence stays sorted when times are changed under it, also when
    a 64-bit time overflows, is part of the invariant proved here. *)

From Stdlib Require Import Sorting.Sorted.
From S2P Require Import Prelude Net.

Module FairQueue.

Definition FAIRQUEUE_MAX_TIME : Z := UINT64_MAX.
Definition ptr := Z.

Record PacketPassFairQueueFlow := mkFlow {
  handler_busy : bool;
  time : Z;
  is_queued : bool;
  data : list Z                       (* [queued.data], [queued.data_len] *)
}.

Record PacketPassFairQueue := mkFQ {
  output_mtu : Z;
  use_cancel : bool;
  packet_weight : Z;
  sending_flow : option ptr;
  sending_len : Z;
  previous_flow : option ptr;
  queued_tree : list ptr;
  flows_list : list ptr;
  freeing : bool;
  schedule_job : bool;
  store : gmap ptr PacketPassFairQueueFlow
}.

(** Calls: a packet to the output, a request to cancel it, completion of the
    packet of a flow, the busy handler of a flow. *)
Inductive eff :=
  | Sender_Send (f : ptr) (d : list Z)
  | Sender_RequestCancel
  | Done (f : ptr)
  | HandlerBusy (f : ptr).

Definition FM := M PacketPassFairQueue eff.

Definition set_sending (f : option ptr) (len : Z) (m : PacketPassFairQueue) : PacketPassFairQueue :=
  mkFQ (output_mtu m) (use_cancel m) (packet_weight m) f len (previous_flow m) (queued_tree m) (flows_list m)
       (freeing m) (schedule_job m) (store m).
Definition set_previous (f : option ptr) (m : PacketPassFairQueue) : PacketPassFairQueue :=
  mkFQ (output_mtu m) (use_cancel m) (packet_weight m) (sending_flow m) (sending_len m) f (queued_tree m) (flows_list m)
       (freeing m) (schedule_job m) (store m).
Definition set_tree (t : list ptr) (m : PacketPassFairQueue) : PacketPassFairQueue :=
  mkFQ (output_mtu m) (use_cancel m) (packet_weight m) (sending_flow m) (sending_len m) (previous_flow m) t (flows_list m)
       (freeing m) (schedule_job m) (store m).
Definition set_flows (l : list ptr) (m : PacketPassFairQueue) : PacketPassFairQueue :=
  mkFQ (output_mtu m) (use_cancel m) (packet_weight m) (sending_flow m) (sending_len m) (previous_flow m) (queued_tree m) l
       (freeing m) (schedule_job m) (store m).
Definition set_freeing (b : bool) (m : PacketPassFairQueue) : PacketPassFairQueue :=
  mkFQ (output_mtu m) (use_cancel m) (packet_weight m) (sending_flow m) (sending_len m) (previous_flow m) (queued_tree m)
       (flows_list m) b (schedule_job m) (store m).
Definition set_job (b : bool) (m : PacketPassFairQueue) : PacketPassFairQueue :=
  mkFQ (output_mtu m) (use_cancel m) (packet_weight m) (sending_flow m) (sending_len m) (previous_flow m) (queued_tree m)
       (flows_list m) (freeing m) b (store m).
Definition set_store (s : gmap ptr PacketPassFairQueueFlow) (m : PacketPassFairQueue) : PacketPassFairQueue :=
  mkFQ (output_mtu m) (use_cancel m) (packet_weight m) (sending_flow m) (sending_len m) (previous_flow m) (queued_tree m)
       (flows_list m) (freeing m) (schedule_job m) s.

(** Reading through a pointer; [None], as a failed assertion, when there is no
    flow there. *)
Definition flow_at (f : ptr) : FM PacketPassFairQueueFlow := λ m,
  match store m !! f with
  | None => None
  | Some x => Some (x, m, [])
  end.
Definition write (f : ptr) (x : PacketPassFairQueueFlow) : FM unit := modify (λ m, set_store (<[f := x]> (store m)) m).

Definition with_time (t : Z) (x : PacketPassFairQueueFlow) : PacketPassFairQueueFlow :=
  mkFlow (handler_busy x) t (is_queued x) (data x).
Definition with_queued (b : bool) (d : list Z) (x : PacketPassFairQueueFlow) : PacketPassFairQueueFlow :=
  mkFlow (handler_busy x) (time x) b d.
Definition with_handler (b : bool) (x : PacketPassFairQueueFlow) : PacketPassFairQueueFlow :=
  mkFlow b (time x) (is_queued x) (data x).

Definition is_flow (f : ptr) (o : option ptr) : bool := bool_decide (o = Some f).

Definition compare_flows (f1 : ptr) (x1 : PacketPassFairQueueFlow) (f2 : ptr) (x2 : PacketPassFairQueueFlow) : Z :=
  let cmp := B_COMPARE (time x1) (time x2) in
  if negb (cmp =? 0) then cmp else B_COMPARE f1 f2.

(** [PacketPassFairQueue__Tree_Insert]: [None] when an equal entry is there. *)
Fixpoint Tree_Insert (s : gmap ptr PacketPassFairQueueFlow) (f : ptr) (x : PacketPassFairQueueFlow) (l : list ptr)
  : option (list ptr) :=
  match l with
  | [] => Some [f]
  | g :: l' =>
      match s !! g with
      | None => None
      | Some y =>
          let c := compare_flows f x g y in
          if c <? 0 then Some (f :: l)
          else if c =? 0 then None
          else cons g <$> Tree_Insert s f x l'
      end
  end.
Definition Tree_Remove (f : ptr) (l : list ptr) : list ptr := filter (λ g, g ≠ f) l.

#[global] Arguments Tree_Remove : simpl never.

Definition get_current_time : FM Z :=
  m ← get;
  match sending_flow m with
  | Some f => x ← flow_at f; mret (time x)
  | None =>
      first ← match head (queued_tree m) with
              | None => mret None
              | Some f => x ← flow_at f; ASSERT (is_queued x);; mret (Some (time x))
              end;
      have ← match previous_flow m with
             | None => mret first
             | Some p =>
                 x ← flow_at p;
                 match first with
                 | None => mret (Some (time x))
                 | Some t => mret (Some (if time x <? t then time x else t))
                 end
             end;
      mret (default 0 have)
  end.

(** The loop over all flows when the time overflows. *)
Fixpoint subtract_time (flow : ptr) (subtract : Z) (l : list ptr) : FM unit :=
  match l with
  | [] => mret tt
  | g :: l' =>
      x ← flow_at g;
      (if (subtract >? time x) && negb (g =? flow) then
         ASSERT (negb (is_queued x));;
         write g (with_time 0 x)
       else write g (with_time (u64 (time x - subtract)) x));;
      subtract_time flow subtract l'
  end.

Definition increment_sent_flow (flow : ptr) (amount : Z) : FM unit :=
  m ← get;
  x ← flow_at flow;
  ASSERT (amount <=? FAIRQUEUE_MAX_TIME);;
  ASSERT (negb (is_queued x));;
  ASSERT (bool_decide (sending_flow m = None));;
  when (amount >? u64 (FAIRQUEUE_MAX_TIME - time x))
    (subtract ← match head (queued_tree m) with
                | None => mret (time x)
                | Some f => y ← flow_at f; ASSERT (is_queued y);; mret (time y)
                end;
     subtract_time flow subtract (flows_list m));;
  x ← flow_at flow;
  write flow (with_time (u64 (time x + amount)) x).

Definition schedule : FM unit :=
  m ← get;
  ASSERT (bool_decide (sending_flow m = None));;
  ASSERT (bool_decide (previous_flow m = None));;
  ASSERT (negb (freeing m));;
  match head (queued_tree m) with
  | None => ASSERT false
  | Some qflow =>
      x ← flow_at qflow;
      ASSERT (is_queued x);;
      modify (set_tree (Tree_Remove qflow (queued_tree m)));;
      write qflow (with_queued false (data x) x);;
      emit (Sender_Send qflow (data x));;
      modify (set_sending (Some qflow) (zlen (data x)))
  end.

(** The queue of jobs clears the job before it calls the handler. *)
Definition schedule_job_handler : FM unit :=
  modify (set_job false);;
  m ← get;
  ASSERT (bool_decide (sending_flow m = None));;
  ASSERT (negb (freeing m));;
  modify (set_previous None);;
  when (negb (bool_decide (queued_tree m = []))) schedule.

(** The parts of [input_handler_send]: raising the time of the flow, unless it
    is the one that has just sent a packet; putting it into the tree. *)
Definition raise_time (flow : ptr) : FM unit :=
  m ← get;
  if is_flow flow (previous_flow m) then modify (set_previous None)
  else
    x ← flow_at flow;
    t ← get_current_time;
    write flow (with_time (if time x >? t then time x else t) x).

Definition queue_flow (flow : ptr) (d : list Z) : FM unit :=
  x ← flow_at flow;
  write flow (with_queued (is_queued x) d x);;
  m ← get;
  x ← flow_at flow;
  match Tree_Insert (store m) flow x (queued_tree m) with
  | None => ASSERT false
  | Some t => modify (set_tree t)
  end;;
  write flow (with_queued true d x).

Definition input_handler_send (flow : ptr) (d : list Z) : FM unit :=
  m ← get;
  x ← flow_at flow;
  ASSERT (negb (is_flow flow (sending_flow m)));;
  ASSERT (negb (is_queued x));;
  ASSERT (negb (freeing m));;
  raise_time flow;;
  queue_flow flow d;;
  m ← get;
  when (negb (bool_decide (is_Some (sending_flow m))) && negb (schedule_job m)) schedule.

Definition output_handler_done : FM unit :=
  m ← get;
  match sending_flow m with
  | None => ASSERT false
  | Some flow =>
      x ← flow_at flow;
      ASSERT (bool_decide (previous_flow m = None));;
      ASSERT (negb (schedule_job m));;
      ASSERT (negb (freeing m));;
      ASSERT (negb (is_queued x));;
      modify (set_sending None (sending_len m));;
      modify (set_previous (Some flow));;
      increment_sent_flow flow (u64 (packet_weight m + sending_len m));;
      modify (set_job true);;
      emit (Done flow);;
      x ← flow_at flow;
      when (handler_busy x) (write flow (with_handler false x);; emit (HandlerBusy flow))
  end.

Definition PacketPassFairQueue_Init (mtu : Z) (has_cancel cancel : bool) (weight : Z) : option (option PacketPassFairQueue) :=
  if negb (0 <? weight) || negb (negb cancel || has_cancel) then None
  else if negb ((u64 mtu <=? FAIRQUEUE_MAX_TIME) && (u64 weight <=? u64 (FAIRQUEUE_MAX_TIME - mtu))) then Some None
  else Some (Some (mkFQ mtu cancel weight None 0 None [] [] false false ∅)).

Definition PacketPassFairQueue_Free : FM unit :=
  m ← get;
  ASSERT (bool_decide (flows_list m = []));;
  ASSERT (bool_decide (queued_tree m = []));;
  ASSERT (bool_decide (previous_flow m = None));;
  ASSERT (bool_decide (sending_flow m = None));;
  modify (set_job false).

Definition PacketPassFairQueue_PrepareFree : FM unit := modify (set_freeing true).

Definition PacketPassFairQueue_GetMTU (m : PacketPassFairQueue) : Z := output_mtu m.

(** [flow]: memory of the caller, not in use. *)
Definition PacketPassFairQueueFlow_Init (flow : ptr) : FM unit :=
  m ← get;
  ASSERT (negb (freeing m));;
  modify (set_flows (flows_list m ++ [flow]));;
  write flow (mkFlow false 0 false []).

Definition PacketPassFairQueueFlow_Free (flow : ptr) : FM unit :=
  m ← get;
  x ← flow_at flow;
  ASSERT (freeing m || negb (is_flow flow (sending_flow m)));;
  when (is_flow flow (sending_flow m)) (modify (set_sending None (sending_len m)));;
  when (is_flow flow (previous_flow m)) (modify (set_previous None));;
  when (is_queued x) (modify (set_tree (Tree_Remove flow (queued_tree m))));;
  modify (set_flows (filter (λ g, g ≠ flow) (flows_list m)));;
  modify (λ m, set_store (delete flow (store m)) m).

Definition PacketPassFairQueueFlow_IsBusy (flow : ptr) : FM bool :=
  m ← get;
  ASSERT (negb (freeing m));;
  mret (is_flow flow (sending_flow m)).

Definition PacketPassFairQueueFlow_RequestCancel (flow : ptr) : FM unit :=
  m ← get;
  ASSERT (is_flow flow (sending_flow m));;
  ASSERT (use_cancel m);;
  ASSERT (negb (freeing m));;
  ASSERT (negb (schedule_job m));;
  emit Sender_RequestCancel.

Definition PacketPassFairQueueFlow_SetBusyHandler (flow : ptr) (handler : bool) : FM unit :=
  m ← get;
  x ← flow_at flow;
  ASSERT (is_flow flow (sending_flow m));;
  ASSERT (negb (freeing m));;
  write flow (with_handler handler x).

(** ** Order of the tree *)

Definition tm (s : gmap ptr PacketPassFairQueueFlow) (f : ptr) : Z :=
  match s !! f with Some x => time x | None => 0 end.
Definition flow_lt (s : gmap ptr PacketPassFairQueueFlow) (f g : ptr) : Prop :=
  tm s f < tm s g ∨ (tm s f = tm s g ∧ f < g).

Lemma tm_at s f x : s !! f = Some x → tm s f = time x.
Proof. unfold tm. by intros ->. Qed.

Lemma compare_flows_spec s f x g y : s !! f = Some x → s !! g = Some y → f ≠ g →
  (compare_flows f x g y < 0 ∧ flow_lt s f g) ∨ (0 < compare_flows f x g y ∧ flow_lt s g f).
Proof.
  intros Hf Hg Hn. unfold flow_lt. rewrite (tm_at _ _ _ Hf), (tm_at _ _ _ Hg).
  unfold compare_flows, B_COMPARE. rewrite !Z.gtb_ltb.
  destruct (Z.lt_trichotomy (time x) (time y)) as [H|[H|H]]; repeat (case_if; try lia); lia.
Qed.

Lemma flow_lt_trans s f g h : flow_lt s f g → flow_lt s g h → flow_lt s f h.
Proof. unfold flow_lt. lia. Qed.

Lemma flow_lt_le s f g : flow_lt s f g → tm s f <= tm s g.
Proof. unfold flow_lt. lia. Qed.

Lemma Tree_Insert_ok s f x l : StronglySorted (flow_lt s) l → s !! f = Some x → f ∉ l →
  (∀ g, g ∈ l → is_Some (s !! g)) →
  ∃ l', Tree_Insert s f x l = Some l' ∧ StronglySorted (flow_lt s) l' ∧ l' ≡ₚ f :: l.
Proof.
  intros HS Hf. induction HS as [|g l HS IH HF]; intros Hn Hd; cbn [Tree_Insert].
  - exists [f]. split_and!; [done| |done]. by repeat constructor.
  - destruct (Hd g) as [y Hy]; [left|]. rewrite Hy. apply not_elem_of_cons in Hn as [Hfg Hn].
    destruct (compare_flows_spec s f x g y Hf Hy Hfg) as [[Hc HL]|[Hc HL]].
    + zdec. exists (f :: g :: l). split_and!; [done| |done]. constructor; [by constructor|].
      constructor; [done|]. eapply Forall_impl; [exact HF|]. intros h Hh. by eapply flow_lt_trans.
    + zdec. destruct IH as (l' & -> & HS' & HP); [done|intros h Hh; apply Hd; by right|].
      exists (g :: l'). split_and!; [done| |by rewrite HP; apply Permutation_swap].
      constructor; [done|]. rewrite HP. by constructor.
Qed.

Lemma sorted_ext s s' l : (∀ f g, f ∈ l → g ∈ l → flow_lt s f g → flow_lt s' f g) →
  StronglySorted (flow_lt s) l → StronglySorted (flow_lt s') l.
Proof.
  intros HE HS. induction HS as [|g l HS IH HF]; [constructor|]. constructor.
  - apply IH. intros. apply HE; [by right|by right|done].
  - rewrite Forall_forall in *. intros h Hh. apply HE; [left|by right|auto].
Qed.

Lemma sorted_remove s f l : StronglySorted (flow_lt s) l → StronglySorted (flow_lt s) (Tree_Remove f l).
Proof.
  unfold Tree_Remove. induction 1 as [|g l HS IH HF]; [constructor|]. cbn. case_decide; [|done].
  constructor; [done|]. rewrite Forall_forall in *. intros h Hh. apply HF. by apply list_elem_of_filter in Hh as [_ ?].
Qed.

Lemma elem_of_tree_remove f g l : g ∈ Tree_Remove f l ↔ g ∈ l ∧ g ≠ f.
Proof. unfold Tree_Remove. rewrite list_elem_of_filter. tauto. Qed.

Lemma remove_notin f l : f ∉ l → Tree_Remove f l = l.
Proof.
  unfold Tree_Remove. induction l as [|g l IH]; [done|]. intros [Hn Hl]%not_elem_of_cons.
  rewrite filter_cons_True, IH; done.
Qed.

(** ** Overflow of the time *)

(** What the loop does to the flow at [g]. *)
Definition shifted (flow : ptr) (subtract : Z) (g : ptr) (x : PacketPassFairQueueFlow) : PacketPassFairQueueFlow :=
  with_time (if (subtract >? time x) && negb (g =? flow) then 0 else u64 (time x - subtract)) x.

Lemma subtract_time_run flow sub l m : NoDup l →
  (∀ g, g ∈ l → ∃ x, store m !! g = Some x ∧ (is_queued x = true → sub <= time x)) →
  ∃ s', subtract_time flow sub l m = Some (tt, set_store s' m, []) ∧
        ∀ g, s' !! g = if decide (g ∈ l) then shifted flow sub g <$> store m !! g else store m !! g.
Proof.
  revert m. induction l as [|g l IH]; intros m HN Hd.
  - exists (store m). split; [by destruct m|]. intros g. by rewrite decide_False by apply not_elem_of_nil.
  - apply NoDup_cons in HN as [Hg HN]. destruct (Hd g) as (x & Hx & Hq); [left|].
    set (m1 := set_store (<[g := shifted flow sub g x]> (store m)) m).
    destruct (IH m1 HN) as (s' & E & Hs').
    { intros h Hh. cbn. rewrite lookup_insert_ne by (by intros ->). apply Hd. by right. }
    exists s'. split.
    + unfold m1, shifted in E. cbn [subtract_time]. unfold flow_at, write. mrun. rewrite Hx. cbn.
      destruct (_ && _) eqn:Hc; cbn in E; mrun; [|by rewrite E].
      zb. destruct (is_queued x); [specialize (Hq eq_refl); lia|]. cbn. by rewrite E.
    + intros h. rewrite Hs'. cbn. destruct (decide (h = g)) as [->|Hn].
      * rewrite decide_False, lookup_insert_eq, decide_True by (done || left). by rewrite Hx.
      * rewrite lookup_insert_ne by done. destruct (decide (h ∈ l)).
        -- by rewrite decide_True by (by right).
        -- rewrite decide_False; [done|]. by intros [->|?]%elem_of_cons.
Qed.

(** ** Invariant *)

Definition queued (s : gmap ptr PacketPassFairQueueFlow) (f : ptr) : Prop := ∃ x, s !! f = Some x ∧ is_queued x = true.
(** A flow in memory that is not in the tree. *)
Definition outside (s : gmap ptr PacketPassFairQueueFlow) (f : ptr) : Prop := ∃ x, s !! f = Some x ∧ is_queued x = false.

Record core (m : PacketPassFairQueue) : Prop := mkCore {
  i_size : 0 < packet_weight m <= INT_MAX ∧ 0 <= output_mtu m <= INT_MAX;
  i_list : NoDup (flows_list m);
  i_flows : ∀ f, f ∈ flows_list m ↔ is_Some (store m !! f);
  i_sorted : StronglySorted (flow_lt (store m)) (queued_tree m);
  i_tree : ∀ f, f ∈ queued_tree m ↔ queued (store m) f;
  i_flow : ∀ f x, store m !! f = Some x → 0 <= time x <= FAIRQUEUE_MAX_TIME ∧ zlen (data x) <= output_mtu m;
  i_sending : ∀ f, sending_flow m = Some f →
    outside (store m) f ∧ 0 <= sending_len m <= output_mtu m ∧
    ∀ q, q ∈ queued_tree m → tm (store m) f <= tm (store m) q;
  i_previous : ∀ f, previous_flow m = Some f → outside (store m) f
}.

(** Unless the queue is being freed: while a packet is sent no job is set and
    no flow is the previous one; and something is sent or about to be
    scheduled whenever a flow is queued. *)
Record phase (m : PacketPassFairQueue) : Prop := mkPhase {
  p_sending : is_Some (sending_flow m) → previous_flow m = None ∧ schedule_job m = false;
  p_previous : is_Some (previous_flow m) → schedule_job m = true;
  p_busy : sending_flow m = None → schedule_job m = false → queued_tree m = []
}.

Definition inv (m : PacketPassFairQueue) : Prop := core m ∧ (freeing m = false → phase m).

(** ** Service *)

(** The flow has a packet to send, or has just sent one and can still give the
    next one in time. *)
Definition backlogged (m : PacketPassFairQueue) (f : ptr) : Prop :=
  f ∈ queued_tree m ∨ sending_flow m = Some f ∨ previous_flow m = Some f.

(** The time of the flow when the packet being sent is counted. *)
Definition vtime (m : PacketPassFairQueue) (f : ptr) : Z :=
  tm (store m) f + (if is_flow f (sending_flow m) then packet_weight m + sending_len m else 0).

(** What the output got from a flow: the lengths of its packets, each with the
    weight of a packet. *)
Fixpoint service (weight : Z) (f : ptr) (es : list eff) : Z :=
  match es with
  | [] => 0
  | Sender_Send g d :: es' => (if g =? f then weight + zlen d else 0) + service weight f es'
  | _ :: es' => service weight f es'
  end.

(** A step that gives service as the times say: the times of all flows that
    stay backlogged move by the service they got, and a flow that is served
    has the least time. *)
Record fair_step (m m' : PacketPassFairQueue) (es : list eff) : Prop := mkFair {
  f_same : packet_weight m' = packet_weight m ∧ output_mtu m' = output_mtu m;
  f_move : ∃ shift, ∀ f, backlogged m f → backlogged m' f →
             vtime m' f = vtime m f + service (packet_weight m) f es - shift;
  f_least : ∀ a b, backlogged m' b → 0 < service (packet_weight m) a es →
             vtime m' a <= vtime m' b + packet_weight m + output_mtu m
}.

Lemma u64_id x : 0 <= x <= UINT64_MAX → u64 x = x.
Proof. unfold u64, UINT64_MAX. intros. apply Z.mod_small. lia. Qed.

(** Adding to the time of the flow [flow] whose packet was sent.  On overflow
    the times of all flows are lowered by the same [sub], to zero at least;
    queued flows are lowered by exactly [sub], and so is the flow itself. *)
Lemma increment_run flow x amount m : store m !! flow = Some x → is_queued x = false → sending_flow m = None →
  0 <= amount <= FAIRQUEUE_MAX_TIME → NoDup (flows_list m) → (∀ f, f ∈ flows_list m ↔ is_Some (store m !! f)) →
  StronglySorted (flow_lt (store m)) (queued_tree m) → (∀ f, f ∈ queued_tree m ↔ queued (store m) f) →
  (∀ f y, store m !! f = Some y → 0 <= time y <= FAIRQUEUE_MAX_TIME) →
  (∀ q, q ∈ queued_tree m → time x <= tm (store m) q) →
  ∃ s' sub, increment_sent_flow flow amount m = Some (tt, set_store s' m, []) ∧ 0 <= sub ∧
    s' !! flow = Some (with_time (time x + amount - sub) x) ∧ 0 <= time x + amount - sub <= FAIRQUEUE_MAX_TIME ∧
    (∀ g, g ≠ flow → s' !! g = (λ y, with_time (Z.max 0 (time y - sub)) y) <$> store m !! g) ∧
    (∀ q, q ∈ queued_tree m → sub <= tm (store m) q).
Proof.
  intros Hx Hq Hsf Ha HN HL HS HT HB Hmin. pose proof (HB _ _ Hx) as Hxb.
  unfold FAIRQUEUE_MAX_TIME in *. destruct (UINT64_MAX - time x <? amount) eqn:Hov.
  2:{ exists (<[flow := with_time (u64 (time x + amount)) x]> (store m)), 0.
      split; [unfold increment_sent_flow, flow_at; mrun; rewrite Hx; cbn; unfold FAIRQUEUE_MAX_TIME; zdec;
              rewrite Hq, Hsf; cbn; rewrite (u64_id (UINT64_MAX - time x)), Hov by lia; cbn; by rewrite Hx|].
      zb. rewrite u64_id by lia. rewrite lookup_insert_eq, !Z.sub_0_r. split_and!; try done; try lia.
      - intros g Hg. rewrite lookup_insert_ne by done. destruct (store m !! g) as [y|] eqn:Hy; [|done]. cbn. f_equal.
        pose proof (HB _ _ Hy). destruct y; unfold with_time; cbn in *. f_equal. lia.
      - intros q (y & Hy & _)%HT. rewrite (tm_at _ _ _ Hy). by apply (HB q). }
  set (sub := match queued_tree m with [] => time x | q :: _ => tm (store m) q end).
  assert (Hsub : time x <= sub <= UINT64_MAX ∧ ∀ q, q ∈ queued_tree m → sub <= tm (store m) q).
  { unfold sub. inversion HS as [|q l HS' HF Heq]; [split; [lia|intros q []%elem_of_nil]|]. split.
    - split; [apply Hmin; rewrite <-Heq; left|].
      destruct (HT q) as [(y & Hy & _) _]; [rewrite <-Heq; left|]. rewrite (tm_at _ _ _ Hy). by apply (HB q).
    - intros h [->|Hh]%elem_of_cons; [lia|]. rewrite Forall_forall in HF. by apply flow_lt_le, HF. }
  destruct Hsub as [Hsub1 Hsub2].
  destruct (subtract_time_run flow sub (flows_list m) m HN) as (s1 & E & Hs1).
  { intros g Hg. destruct (proj1 (HL g) Hg) as [y Hy]. exists y. split; [done|]. intros Hyq.
    rewrite <-(tm_at _ _ _ Hy). apply Hsub2, HT. by exists y. }
  assert (Hsh : ∀ g, s1 !! g = shifted flow sub g <$> store m !! g).
  { intros g. rewrite Hs1. destruct (decide (g ∈ flows_list m)) as [|Hn]; [done|].
    destruct (store m !! g) eqn:Hy; [|done]. destruct Hn. apply HL. by rewrite Hy. }
  assert (Hhead : ∀ q l, queued_tree m = q :: l → ∃ y, store m !! q = Some y ∧ is_queued y = true ∧ time y = sub).
  { intros q l Ht. destruct (HT q) as [(y & Hy & Hyq) _]; [rewrite Ht; left|]. exists y. split_and!; [done|done|].
    unfold sub. by rewrite Ht, (tm_at _ _ _ Hy). }
  eexists _, sub. split.
  { unfold increment_sent_flow, flow_at. mrun. rewrite Hx. cbn. unfold FAIRQUEUE_MAX_TIME. zdec.
    rewrite Hq, Hsf. cbn. rewrite (u64_id (UINT64_MAX - time x)), Hov by lia.
    destruct (queued_tree m) as [|q l] eqn:Ht; mrun.
    - change (time x) with sub. rewrite E. cbn. rewrite Hsh, Hx. reflexivity.
    - destruct (Hhead q l eq_refl) as (y & Hy & Hyq & Hyt). rewrite Hy. cbn. rewrite Hyq. cbn.
      rewrite Hyt, E. cbn. rewrite Hsh, Hx. reflexivity. }
  zb.
  assert (Hval : u64 (u64 (time x - sub) + amount) = time x + amount - sub).
  { unfold u64. rewrite Z.add_mod_idemp_l by done. rewrite Z.mod_small; unfold UINT64_MAX in *; lia. }
  split_and!; try done; try lia.
  - rewrite lookup_insert_eq. unfold shifted. rewrite Z.eqb_refl, andb_false_r. cbn. by rewrite Hval.
  - intros g Hg. rewrite lookup_insert_ne, Hsh by done. destruct (store m !! g) as [y|] eqn:Hy; [|done]. cbn. f_equal.
    pose proof (HB _ _ Hy). unfold shifted. f_equal. rewrite (proj2 (Z.eqb_neq g flow)), andb_true_r by done.
    case_if; [lia|]. rewrite u64_id; lia.
Qed.

(** ** Specification

    The packets given to the queue and not yet passed on, at most one of each
    flow, and the flow whose packet the output has. *)

Record spec := mkSpec { waiting : gmap ptr (list Z); flight : option ptr }.

(** What a call of the queue means, [None] if it must not happen. *)
Definition spec_eff (s : spec) (e : eff) : option spec :=
  match e with
  | Sender_Send f d =>
      if bool_decide (flight s = None) && bool_decide (waiting s !! f = Some d)
      then Some (mkSpec (delete f (waiting s)) (Some f)) else None
  | Done f => if is_flow f (flight s) then Some (mkSpec (waiting s) None) else None
  | Sender_RequestCancel => if bool_decide (is_Some (flight s)) then Some s else None
  | HandlerBusy _ => Some s
  end.
Fixpoint replay (s : spec) (es : list eff) : option spec :=
  match es with
  | [] => Some s
  | e :: es' => match spec_eff s e with Some s' => replay s' es' | None => None end
  end.

Definition waiting_in (s : gmap ptr PacketPassFairQueueFlow) : gmap ptr (list Z) :=
  omap (λ x, if is_queued x then Some (data x) else None) s.
#[global] Arguments waiting_in : simpl never.
Definition abs (m : PacketPassFairQueue) : spec := mkSpec (waiting_in (store m)) (sending_flow m).

Lemma waiting_queued s f x : s !! f = Some x → is_queued x = true → waiting_in s !! f = Some (data x).
Proof. intros Hx Hq. unfold waiting_in. rewrite lookup_omap, Hx. cbn. by rewrite Hq. Qed.

Lemma waiting_outside s f : s !! f = None ∨ outside s f → waiting_in s !! f = None.
Proof. unfold waiting_in. rewrite lookup_omap. by intros [->|(x & -> & Hq)]; cbn; [|rewrite Hq]. Qed.

Lemma waiting_put s f x : is_queued x = true → waiting_in (<[f := x]> s) = <[f := data x]> (waiting_in s).
Proof. intros Hq. apply omap_insert_Some. by rewrite Hq. Qed.

Lemma waiting_take s f x : is_queued x = false → waiting_in (<[f := x]> s) = delete f (waiting_in s).
Proof. intros Hq. apply omap_insert_None. by rewrite Hq. Qed.

Lemma waiting_keep s f x : s !! f = None ∨ outside s f → is_queued x = false → waiting_in (<[f := x]> s) = waiting_in s.
Proof. intros Ho Hq. rewrite waiting_take by done. by apply delete_id, waiting_outside. Qed.

Lemma waiting_same s f x y : s !! f = Some x → is_queued y = is_queued x → data y = data x →
  waiting_in (<[f := y]> s) = waiting_in s.
Proof.
  intros Hx Hq Hd. apply map_eq. intros g. unfold waiting_in. rewrite !lookup_omap.
  destruct (decide (g = f)) as [->|Hg]; [|by rewrite lookup_insert_ne]. rewrite lookup_insert_eq, Hx. cbn. by rewrite Hq, Hd.
Qed.

Lemma waiting_ext s s' :
  (∀ g, (λ x, (is_queued x, data x)) <$> s' !! g = (λ x, (is_queued x, data x)) <$> s !! g) → waiting_in s' = waiting_in s.
Proof.
  intros HE. apply map_eq. intros g. unfold waiting_in. rewrite !lookup_omap. specialize (HE g).
  destruct (s' !! g), (s !! g); cbn in *; try done. injection HE as -> ->. done.
Qed.

Lemma core_outside_tree m f : core m → outside (store m) f → f ∉ queued_tree m.
Proof. intros HC (x & Hx & Hq) (y & Hy & Hyq)%(i_tree m HC). congruence. Qed.

Lemma core_queued m f x : core m → store m !! f = Some x → is_queued x = false → f ∉ queued_tree m.
Proof. intros HC Hx Hq. apply core_outside_tree; [done|]. by exists x. Qed.

(** Changing the flow at [f] without changing times or membership. *)
Lemma tm_insert s f x g : tm (<[f := x]> s) g = if decide (g = f) then time x else tm s g.
Proof.
  unfold tm. case_decide as H; [subst; by rewrite lookup_insert_eq|]. by rewrite lookup_insert_ne by done.
Qed.

Lemma tm_same s f x y g : s !! f = Some x → time y = time x → tm (<[f := y]> s) g = tm s g.
Proof. intros Hx Ht. rewrite tm_insert. case_decide; [|done]. subst. by rewrite (tm_at _ _ _ Hx). Qed.

Lemma sorted_same s s' l : (∀ f, f ∈ l → tm s' f = tm s f) → StronglySorted (flow_lt s) l → StronglySorted (flow_lt s') l.
Proof. intros HE. apply sorted_ext. intros f g Hf Hg. unfold flow_lt. by rewrite !HE. Qed.

Lemma schedule_run m q l : core m → sending_flow m = None → previous_flow m = None → freeing m = false →
  schedule_job m = false → queued_tree m = q :: l →
  ∃ x, store m !! q = Some x ∧
  let m' := set_sending (Some q) (zlen (data x))
              (set_store (<[q := with_queued false (data x) x]> (store m)) (set_tree l m)) in
  schedule m = Some (tt, m', [Sender_Send q (data x)]) ∧ inv m' ∧
  (∀ f, vtime m' f = vtime m f + service (packet_weight m) f [Sender_Send q (data x)]) ∧
  (∀ a b, backlogged m' b → 0 < service (packet_weight m) a [Sender_Send q (data x)] →
     vtime m' a <= vtime m' b + packet_weight m + output_mtu m) ∧
  replay (abs m) [Sender_Send q (data x)] = Some (abs m').
Proof.
  intros HC Hs Hp Hf Hj Ht. destruct (i_tree m HC q) as [(x & Hx & Hq) _]; [rewrite Ht; left|].
  exists x. split; [done|]. pose proof (i_sorted m HC) as HS. rewrite Ht in HS. inversion HS as [|? ? HS' HF]; subst.
  assert (Hnq : q ∉ l). { intros Hql. rewrite Forall_forall in HF. specialize (HF q Hql). unfold flow_lt in HF. lia. }
  assert (Hrem : Tree_Remove q (q :: l) = l).
  { unfold Tree_Remove. rewrite filter_cons_False by tauto. by apply remove_notin. }
  set (m' := set_sending _ _ _). cbn zeta.
  assert (Htm : ∀ g, tm (store m') g = tm (store m) g) by (intros g; by apply tm_same with x).
  destruct (i_flow m HC q x Hx) as [Htx Hlen]. pose proof (zlen_nonneg (data x)). pose proof (i_size m HC).
  split; [|split; [split|split_and!]].
  - unfold schedule, flow_at, write. mrun. rewrite Hs, Hp, Hf, Ht. cbn. rewrite Hx. cbn. rewrite Hq. cbn.
    by rewrite Hrem.
  - destruct HC as [H1 H2 H3 _ H5 H6 _ _]. split; cbn; try done.
    + intros f. rewrite H3. destruct (decide (f = q)) as [->|Hn]; [rewrite lookup_insert_eq, Hx; split; eauto|].
      by rewrite lookup_insert_ne.
    + by apply (sorted_same (store m)).
    + intros f. unfold queued. destruct (decide (f = q)) as [->|Hn].
      * rewrite lookup_insert_eq. split; [done|]. by intros (? & [= <-] & ?).
      * rewrite lookup_insert_ne by done. rewrite <-(H5 f), Ht, elem_of_cons. tauto.
    + intros f y. destruct (decide (f = q)) as [->|Hn]; [|rewrite lookup_insert_ne by done; apply H6].
      rewrite lookup_insert_eq. by intros [= <-].
    + intros f [= <-]. split_and!; [|lia|done|].
      * exists (with_queued false (data x) x). by rewrite lookup_insert_eq.
      * intros g Hg. rewrite !Htm. rewrite Forall_forall in HF. by apply flow_lt_le, HF.
    + rewrite Hp. done.
  - intros _. split; cbn; try done. rewrite Hp. by intros [? ?].
  - intros f. unfold vtime, is_flow. rewrite Htm. cbn. rewrite Hs, (bool_decide_false (None = Some f)) by done.
    case_bool_decide as Hqf; [injection Hqf as ->|]; repeat (case_if; try lia). congruence.
  - intros a b Hb. cbn. destruct (q =? a) eqn:Hqa; [|lia]. zb. subst a. intros _. unfold vtime, is_flow. cbn.
    rewrite bool_decide_true by done. rewrite !Htm.
    assert (tm (store m) q <= tm (store m) b).
    { destruct Hb as [Hb|[[= ->]|Hb]]; [|lia|cbn in Hb; congruence]. cbn in Hb. rewrite Forall_forall in HF. by apply flow_lt_le, HF. }
    case_bool_decide; lia.
  - unfold abs. cbn. rewrite Hs, (waiting_queued _ _ _ Hx Hq), !bool_decide_true by done. cbn. by rewrite waiting_take.
Qed.

(** A step that sends nothing and after which the times of the flows that
    stay backlogged have moved by [shift]. *)
Lemma quiet_fair m m' es shift : packet_weight m' = packet_weight m → output_mtu m' = output_mtu m →
  (∀ f, service (packet_weight m) f es = 0) →
  (∀ f, backlogged m f → backlogged m' f → vtime m' f = vtime m f - shift) → fair_step m m' es.
Proof.
  intros Hw Hm Hs HV. split; [done|exists shift|]; intros; rewrite Hs in *; [rewrite HV by done; lia|lia].
Qed.

(** A step that changes no time, then [schedule]. *)
Lemma schedule_step m m1 : core m1 → sending_flow m1 = None → previous_flow m1 = None → freeing m1 = false →
  schedule_job m1 = false → queued_tree m1 ≠ [] → packet_weight m1 = packet_weight m → output_mtu m1 = output_mtu m →
  (∀ f, backlogged m f → vtime m1 f = vtime m f) →
  ∃ m' es, schedule m1 = Some (tt, m', es) ∧ inv m' ∧ fair_step m m' es ∧ replay (abs m1) es = Some (abs m').
Proof.
  intros HC Hs Hp Hf Hj Ht Hw Hm HV. destruct (queued_tree m1) as [|q l] eqn:Hq; [done|].
  destruct (schedule_run m1 q l HC Hs Hp Hf Hj Hq) as (x & _ & E & HI & Hmove & Hleast & HR).
  do 2 eexists. split; [exact E|]. split; [done|]. split; [|exact HR]. split; [done| |].
  - exists 0. intros f Hb _. rewrite Hmove, HV, Hw by done. lia.
  - intros a b Hb. rewrite <-Hw, <-Hm. by apply Hleast.
Qed.

Lemma job_step m : inv m → schedule_job m = true → freeing m = false →
  ∃ m' es, schedule_job_handler m = Some (tt, m', es) ∧ inv m' ∧ fair_step m m' es ∧ replay (abs m) es = Some (abs m').
Proof.
  intros [HC HP] Hj Hf. specialize (HP Hf).
  assert (Hs : sending_flow m = None).
  { destruct (sending_flow m) eqn:Hs; [|done]. destruct (p_sending m HP); [by rewrite Hs|congruence]. }
  set (m1 := set_previous None (set_job false m)).
  assert (HC1 : core m1). { destruct HC as [H1 H2 H3 H4 H5 H6 H7 H8]. split; done. }
  unfold schedule_job_handler. mrun. rewrite Hs, Hf. cbn. fold m1. destruct (queued_tree m) as [|q l] eqn:Ht; cbn.
  - do 2 eexists. split; [reflexivity|]. split; [split; [done|]|].
    + intros _. split; cbn; [rewrite Hs; by intros []|by intros []|done].
    + split; [|done]. apply (quiet_fair _ _ _ 0); try done. intros f _ [Hb|[Hb|Hb]]; cbn in Hb; [rewrite Ht in Hb; by apply elem_of_nil in Hb|congruence|done].
  - 
    destruct (schedule_step m m1) as (m' & es & E & HI & HF & HR); try done; [cbn; by rewrite Ht|].
    rewrite E. cbn. do 2 eexists. by split; [reflexivity|].
Qed.

Lemma current_time_run m : core m →
  ∃ t, get_current_time m = Some (t, m, []) ∧ 0 <= t <= FAIRQUEUE_MAX_TIME ∧
       (∀ f, sending_flow m = Some f → t = tm (store m) f).
Proof.
  intros HC. unfold get_current_time, flow_at. mrun. destruct (sending_flow m) as [f|] eqn:Hs; mrun.
  - destruct (i_sending m HC f Hs) as ((x & Hx & _) & _). rewrite Hx. cbn. exists (time x).
    split; [done|]. split; [by apply (i_flow m HC f)|]. intros g [= <-]. by rewrite (tm_at _ _ _ Hx).
  - destruct (head (queued_tree m)) as [q|] eqn:Hq; mrun.
    + destruct (i_tree m HC q) as [(y & Hy & Hyq) _].
      { destruct (queued_tree m); [done|]. injection Hq as ->. left. }
      rewrite Hy. cbn. rewrite Hyq. cbn. pose proof (i_flow m HC _ _ Hy) as [? _].
      destruct (previous_flow m) as [p|] eqn:Hp; mrun; [|by exists (time y)].
      destruct (i_previous m HC p Hp) as (z & Hz & _). rewrite Hz. cbn. pose proof (i_flow m HC _ _ Hz) as [? _].
      eexists. split; [reflexivity|]. split; [case_if; lia|done].
    + destruct (previous_flow m) as [p|] eqn:Hp; mrun; [|by exists 0].
      destruct (i_previous m HC p Hp) as (z & Hz & _). rewrite Hz. cbn. pose proof (i_flow m HC _ _ Hz) as [? _].
      by exists (time z).
Qed.

Lemma queue_flow_run f x d m : core m → store m !! f = Some x → is_queued x = false →
  sending_flow m ≠ Some f → previous_flow m ≠ Some f → zlen d <= output_mtu m →
  (∀ g, sending_flow m = Some g → tm (store m) g <= time x) →
  ∃ l, queue_flow f d m =
         Some (tt, set_store (<[f := with_queued true d x]> (store m)) (set_tree l m), []) ∧
       core (set_store (<[f := with_queued true d x]> (store m)) (set_tree l m)) ∧ l ≡ₚ f :: queued_tree m.
Proof.
  intros HC Hx Hq Hs Hp Hd Hmin. pose proof (core_queued m f x HC Hx Hq) as Hn.
  set (s1 := <[f := with_queued (is_queued x) d x]> (store m)).
  assert (Htm1 : ∀ g, tm s1 g = tm (store m) g) by (intros g; by apply tm_same with x).
  destruct (Tree_Insert_ok s1 f (with_queued (is_queued x) d x) (queued_tree m)) as (l & E & HS & HP).
  { by eapply sorted_same, (i_sorted m HC). }
  { by unfold s1; rewrite lookup_insert_eq. }
  { done. }
  { intros g Hg. unfold s1. rewrite lookup_insert_ne by (by intros ->).
    apply (i_tree m HC) in Hg as (y & -> & _). eauto. }
  exists l. set (m' := set_store _ _).
  assert (Htm : ∀ g, tm (store m') g = tm (store m) g) by (intros g; by apply tm_same with x).
  split; [|split; [|done]].
  - unfold queue_flow, flow_at, write. mrun. rewrite Hx. cbn. rewrite lookup_insert_eq. cbn. fold s1. rewrite E. cbn.
    unfold m', s1. by rewrite insert_insert_eq.
  - destruct HC as [H1 H2 H3 H4 H5 H6 H7 H8]. destruct (H6 f x Hx) as [Htx _]. split; cbn; try done.
    + intros g. rewrite H3. destruct (decide (g = f)) as [->|Hg]; [rewrite lookup_insert_eq, Hx; split; eauto|].
      by rewrite lookup_insert_ne.
    + eapply sorted_same, HS. intros g _. rewrite Htm1. apply Htm.
    + intros g. rewrite HP, elem_of_cons, H5. unfold queued. destruct (decide (g = f)) as [->|Hg].
      * rewrite lookup_insert_eq. split; [|tauto]. eauto.
      * rewrite lookup_insert_ne by done. naive_solver.
    + intros g y. destruct (decide (g = f)) as [->|Hg]; [|rewrite lookup_insert_ne by done; apply H6].
      rewrite lookup_insert_eq. by intros [= <-].
    + intros g Hg. destruct (H7 g Hg) as ((y & Hy & Hyq) & Hl & Hm). split_and!; [|lia|lia|].
      * exists y. by rewrite lookup_insert_ne by congruence.
      * intros h. change (tm (<[f:=with_queued true d x]> (store m)) ?k) with (tm (store m') k). rewrite !Htm, HP, elem_of_cons.
        intros [->|Hh]; [|by apply Hm]. rewrite (tm_at _ _ _ Hx). by apply Hmin.
    + intros g Hg. destruct (H8 g Hg) as (y & Hy & Hyq). exists y. by rewrite lookup_insert_ne by congruence.
Qed.

(** Raising the time of a flow that is not queued nor sending. *)
Lemma core_raise f x t m : core m → store m !! f = Some x → is_queued x = false → sending_flow m ≠ Some f →
  0 <= t <= FAIRQUEUE_MAX_TIME → core (set_store (<[f := with_time t x]> (store m)) m).
Proof.
  intros HC Hx Hq Hs Ht. pose proof (core_queued m f x HC Hx Hq) as Hn.
  assert (Htm : ∀ g, g ≠ f → tm (<[f := with_time t x]> (store m)) g = tm (store m) g).
  { intros g Hg. rewrite tm_insert. by rewrite decide_False. }
  destruct HC as [H1 H2 H3 H4 H5 H6 H7 H8]. split; cbn; try done.
  - intros g. rewrite H3. destruct (decide (g = f)) as [->|Hg]; [rewrite lookup_insert_eq, Hx; split; eauto|].
    by rewrite lookup_insert_ne.
  - eapply sorted_same, H4. intros g Hg. apply Htm. by intros ->.
  - intros g. rewrite H5. unfold queued. destruct (decide (g = f)) as [->|Hg]; [|by rewrite lookup_insert_ne].
    rewrite lookup_insert_eq, Hx. split; intros (y & [= <-] & ?); cbn in *; congruence.
  - intros g y. destruct (decide (g = f)) as [->|Hg]; [|rewrite lookup_insert_ne by done; apply H6].
    rewrite lookup_insert_eq. intros [= <-]. cbn. by destruct (H6 f x Hx).
  - intros g Hg. destruct (H7 g Hg) as ((y & Hy & Hyq) & Hl & Hm). split_and!; [|lia|lia|].
    + exists y. by rewrite lookup_insert_ne by congruence.
    + intros h Hh. rewrite !Htm; [by apply Hm| |congruence]. by intros ->.
  - intros g Hg. destruct (H8 g Hg) as (y & Hy & Hyq). destruct (decide (g = f)) as [->|Hgf].
    + exists (with_time t x). by rewrite lookup_insert_eq.
    + exists y. by rewrite lookup_insert_ne.
Qed.

Lemma raise_time_run f x m : core m → phase m → store m !! f = Some x → is_queued x = false → sending_flow m ≠ Some f →
  ∃ m1 x1,
    raise_time f m = Some (tt, m1, []) ∧
    core m1 ∧ store m1 !! f = Some x1 ∧ is_queued x1 = false ∧
    (∀ g, sending_flow m = Some g → tm (store m1) g <= time x1) ∧
    (∀ g, backlogged m g → vtime m1 g = vtime m g) ∧ waiting_in (store m1) = waiting_in (store m) ∧
    m1 = set_store (store m1) (set_previous (if is_flow f (previous_flow m) then None else previous_flow m) m).
Proof.
  intros HC HP Hx Hq Hs. unfold raise_time, is_flow, flow_at. mrun. destruct (bool_decide (previous_flow m = Some f)) eqn:Hp.
  - apply bool_decide_eq_true in Hp. exists (set_previous None m), x. mrun. split_and!; try done.
    + destruct HC as [H1 H2 H3 H4 H5 H6 H7 H8]. split; done.
    + intros g Hg. destruct (p_sending m HP) as [? _]; [by rewrite Hg|congruence].
  - apply bool_decide_eq_false in Hp. destruct (current_time_run m HC) as (t & E & Ht & Hsend).
    destruct (i_flow m HC f x Hx) as [Htx _]. mrun. rewrite Hx. cbn. rewrite E. unfold write. mrun.
    rewrite Z.gtb_ltb. set (t' := if t <? time x then time x else t). assert (0 <= t' <= FAIRQUEUE_MAX_TIME ∧ t <= t') as [Ht' Htt'] by (unfold t'; case_if; lia).
    exists (set_store (<[f := with_time t' x]> (store m)) m), (with_time t' x). split; [reflexivity|]. split_and!.
    + by apply core_raise.
    + cbn. by rewrite lookup_insert_eq.
    + done.
    + intros g Hg. cbn. rewrite tm_insert. rewrite decide_False by congruence. by rewrite <-(Hsend g Hg).
    + intros g Hb. unfold vtime. cbn. rewrite tm_insert. rewrite decide_False; [done|]. intros ->.
      destruct Hb as [Hb|[Hb|Hb]]; [|done|done]. by apply (core_queued m f x HC Hx Hq).
    + cbn. by apply (waiting_same _ _ x).
    + by destruct m.
Qed.

Lemma input_step m f x d : inv m → freeing m = false → store m !! f = Some x → is_queued x = false →
  sending_flow m ≠ Some f → zlen d <= output_mtu m →
  ∃ m' es, input_handler_send f d m = Some (tt, m', es) ∧ inv m' ∧ fair_step m m' es ∧
           replay (mkSpec (<[f := d]> (waiting_in (store m))) (sending_flow m)) es = Some (abs m').
Proof.
  intros [HC HP] Hf Hx Hq Hs Hd. specialize (HP Hf).
  destruct (raise_time_run f x m HC HP Hx Hq Hs) as (m1 & x1 & E1 & HC1 & Hx1 & Hq1 & Hmin & HV & HW & Hm1).
  assert (Hfld : sending_flow m1 = sending_flow m ∧ freeing m1 = false ∧ schedule_job m1 = schedule_job m ∧
                 packet_weight m1 = packet_weight m ∧ output_mtu m1 = output_mtu m) by (rewrite Hm1; done).
  destruct Hfld as (Hs1 & Hf1 & Hj1 & Hw1 & Ho1).
  assert (Hp1 : previous_flow m1 ≠ Some f ∧ (previous_flow m1 = None ∨ previous_flow m1 = previous_flow m)).
  { rewrite Hm1. unfold is_flow. cbn. case_bool_decide; auto. }
  destruct Hp1 as [Hp1 Hp1'].
  destruct (queue_flow_run f x1 d m1) as (l & E2 & HC2 & HPl); try done; [congruence|lia|by rewrite Hs1|].
  set (m2 := set_store _ (set_tree l m1)) in *.
  assert (HV2 : ∀ g, backlogged m g → vtime m2 g = vtime m g).
  { intros g Hg. rewrite <-(HV g Hg). unfold vtime, m2. cbn. by rewrite (tm_same (store m1) f x1 (with_queued true d x1) g). }
  assert (HW2 : abs m2 = mkSpec (<[f := d]> (waiting_in (store m))) (sending_flow m)).
  { unfold abs, m2. cbn. by rewrite waiting_put, HW, Hs1. }
  unfold input_handler_send. mrun. unfold flow_at at 1. rewrite Hx. cbn. unfold is_flow at 1. rewrite bool_decide_false by done. cbn.
  rewrite Hq, Hf. cbn. rewrite E1. cbn. rewrite E2. cbn. rewrite Hs1, Hj1.
  destruct (negb _ && _) eqn:Hgo.
  - apply andb_true_iff in Hgo as [Hgo1 Hgo2]. apply negb_true_iff, bool_decide_eq_false in Hgo1. apply negb_true_iff in Hgo2.
    assert (Hsn : sending_flow m = None) by (by apply eq_None_not_Some).
    destruct (schedule_step m m2) as (m' & es & E & HI & HF & HR); cbn; try done; try congruence.
    + destruct Hp1' as [->| ->]; [done|]. destruct (previous_flow m) eqn:Hpm; [|done].
      rewrite (p_previous m HP) in Hgo2; [done|by rewrite Hpm].
    + intros ->. by apply Permutation_nil_cons in HPl.
    + rewrite E. cbn. do 2 eexists. split; [reflexivity|]. by rewrite <-HW2.
  - mrun. do 2 eexists. split; [reflexivity|]. split; [split; [done|]|].
    + intros _. split; cbn; rewrite ?Hs1, ?Hj1.
      * intros HS. destruct (p_sending m HP HS) as [Hpn Hjn]. split; [|done]. destruct Hp1'; congruence.
      * intros HS. apply (p_previous m HP). destruct Hp1' as [Hpn|Hpn]; rewrite Hpn in HS; [by destruct HS|done].
      * intros Hsn Hjn. rewrite Hsn, Hjn, bool_decide_false in Hgo; [done|by intros []].
    + rewrite <-HW2. split; [|done]. apply (quiet_fair _ _ _ 0); try done. intros g Hb _. rewrite Z.sub_0_r. by apply HV2.
Qed.

(** The state after the time of the flow [f] was increased. *)
Lemma core_incremented m f x amount sub s' :
  core m → previous_flow m = None → store m !! f = Some x → is_queued x = false → f ∉ queued_tree m →
  s' !! f = Some (with_time (time x + amount - sub) x) → 0 <= time x + amount - sub <= FAIRQUEUE_MAX_TIME → 0 <= sub →
  (∀ g, g ≠ f → s' !! g = (λ y, with_time (Z.max 0 (time y - sub)) y) <$> store m !! g) →
  (∀ q, q ∈ queued_tree m → sub <= tm (store m) q) →
  core (set_job true (set_store s' (set_previous (Some f) (set_sending None (sending_len m) m)))) ∧
  ∀ q, q ∈ queued_tree m → tm s' q = tm (store m) q - sub.
Proof.
  intros HC Hp Hx Hq Hn Hf Hb Hsub Hg Hmin.
  assert (Htm : ∀ q, q ∈ queued_tree m → tm s' q = tm (store m) q - sub).
  { intros q Hqt. specialize (Hmin q Hqt). unfold tm in *. rewrite Hg by (by intros ->).
    apply (i_tree m HC) in Hqt as (y & Hy & _). rewrite Hy in *. cbn. lia. }
  split; [|done]. destruct HC as [H1 H2 H3 H4 H5 H6 H7 H8]. split; cbn; try done.
  - intros g. rewrite H3. destruct (decide (g = f)) as [->|Hgf]; [rewrite Hf, Hx; split; eauto|].
    by rewrite Hg, fmap_is_Some.
  - eapply sorted_ext, H4. intros g h Hgt Hht. unfold flow_lt. rewrite !Htm by done. lia.
  - intros g. rewrite H5. unfold queued. destruct (decide (g = f)) as [->|Hgf].
    + rewrite Hf, Hx. split; intros (y & [= <-] & ?); cbn in *; congruence.
    + rewrite Hg by done. destruct (store m !! g) as [y|]; cbn; [|naive_solver].
      split; intros (z & [= <-] & ?); eexists; (split; [reflexivity|done]).
  - intros g y. destruct (decide (g = f)) as [->|Hgf].
    + rewrite Hf. intros [= <-]. cbn. split; [lia|]. by apply (H6 f).
    + rewrite Hg by done. intros (z & Hz & ->)%fmap_Some. cbn. destruct (H6 g z Hz). split; [lia|done].
  - intros g [= <-]. eexists. by rewrite Hf.
Qed.

(** Writing the busy handler of a flow. *)
Lemma core_handler m f x b : core m → store m !! f = Some x →
  core (set_store (<[f := with_handler b x]> (store m)) m) ∧
  ∀ g, tm (<[f := with_handler b x]> (store m)) g = tm (store m) g.
Proof.
  intros HC Hx. assert (Htm : ∀ g, tm (<[f := with_handler b x]> (store m)) g = tm (store m) g).
  { intros g. by rewrite (tm_same _ _ x). }
  split; [|done]. assert (Hout : ∀ g, outside (store m) g → outside (<[f := with_handler b x]> (store m)) g).
  { intros g (y & Hy & Hyq). unfold outside. destruct (decide (g = f)) as [->|Hgf]; [|rewrite lookup_insert_ne by done; eauto].
    rewrite lookup_insert_eq. eexists. split; [done|]. cbn. congruence. }
  destruct HC as [H1 H2 H3 H4 H5 H6 H7 H8]. split; cbn; try done.
  - intros g. rewrite H3. destruct (decide (g = f)) as [->|Hgf]; [rewrite lookup_insert_eq, Hx; split; eauto|].
    by rewrite lookup_insert_ne.
  - by apply (sorted_same (store m)).
  - intros g. rewrite H5. unfold queued. destruct (decide (g = f)) as [->|Hgf]; [|by rewrite lookup_insert_ne].
    rewrite lookup_insert_eq, Hx. split; intros (y & [= <-] & ?); eauto.
  - intros g y. destruct (decide (g = f)) as [->|Hgf]; [|rewrite lookup_insert_ne by done; apply H6].
    rewrite lookup_insert_eq. intros [= <-]. apply (H6 f x Hx).
  - intros g Hg. destruct (H7 g Hg) as (Ho & Hl & Hm). split_and!; [by apply Hout|lia|lia|].
    intros h Hh. rewrite !Htm. by apply Hm.
  - intros g Hg. by apply Hout, H8.
Qed.

Lemma done_step m f : inv m → freeing m = false → sending_flow m = Some f →
  ∃ m' es, output_handler_done m = Some (tt, m', es) ∧ inv m' ∧ fair_step m m' es ∧ replay (abs m) es = Some (abs m').
Proof.
  intros [HC HP] Hf Hs. specialize (HP Hf). destruct (i_sending m HC f Hs) as ((x & Hx & Hq) & Hlen & Hmin).
  destruct (p_sending m HP) as [Hp Hj]; [by rewrite Hs|]. pose proof (i_size m HC) as [Hw Ho].
  pose proof (core_queued m f x HC Hx Hq) as Hn.
  set (m1 := set_previous (Some f) (set_sending None (sending_len m) m)).
  assert (Ham : u64 (packet_weight m + sending_len m) = packet_weight m + sending_len m).
  { apply u64_id. unfold INT_MAX, UINT64_MAX in *. lia. }
  destruct (increment_run f x (packet_weight m + sending_len m) m1) as (s' & sub & E & Hsub & Hsf & Hb & Hsg & Hsq);
    cbn; try done; try (by apply HC).
  { unfold FAIRQUEUE_MAX_TIME, INT_MAX, UINT64_MAX in *. lia. }
  { intros q Hqt. rewrite <-(tm_at _ _ _ Hx). by apply Hmin. }
  destruct (core_incremented m f x _ sub s' HC Hp Hx Hq Hn Hsf Hb Hsub Hsg Hsq) as [HC' Htm].
  set (m2 := set_job true (set_store s' m1)).
  assert (Hfair : ∀ s, (∀ g, tm s g = tm s' g) → ∀ es, (∀ g, service (packet_weight m) g es = 0) →
            fair_step m (set_store s m2) es).
  { intros s Hss es Hes. apply (quiet_fair _ _ _ sub); try done. intros g Hg _. unfold vtime, is_flow. cbn.
    rewrite Hss, Hs, (bool_decide_false (None = Some g)) by done. case_bool_decide as Hgf.
    - injection Hgf as <-. rewrite (tm_at _ _ _ Hsf), (tm_at _ _ _ Hx). cbn. lia.
    - destruct Hg as [Hg|[Hg|Hg]]; [|congruence|congruence]. rewrite Htm by done. lia. }
  assert (HW : waiting_in s' = waiting_in (store m)).
  { apply waiting_ext. intros g. destruct (decide (g = f)) as [->|Hg]; [by rewrite Hsf, Hx|]. rewrite Hsg by done. cbn.
    by destruct (store m !! g). }
  assert (Hph : ∀ s, phase (set_store s m2)).
  { intros s. split; cbn; [by intros []|done|done]. }
  unfold output_handler_done, flow_at. mrun. rewrite Hs. mrun. rewrite Hx. cbn. rewrite Hp, Hj, Hf, Hq. cbn. fold m1.
  rewrite Ham, E. cbn. rewrite Hsf. cbn. destruct (handler_busy x); unfold write; mrun.
  - destruct (core_handler m2 f (with_time (time x + (packet_weight m + sending_len m) - sub) x) false HC' Hsf) as [HC2 Htm2].
    do 2 eexists. split; [reflexivity|]. split; [split; [exact HC2|intros _; apply Hph]|]. split; [by apply Hfair|].
    unfold abs. cbn. rewrite Hs. unfold is_flow. cbn. rewrite bool_decide_true by done. by rewrite (waiting_same _ _ _ _ Hsf), HW.
  - do 2 eexists. split; [reflexivity|]. split; [split; [exact HC'|intros _; apply (Hph s')]|]. split; [by apply (Hfair s')|].
    unfold abs. cbn. rewrite Hs. unfold is_flow. cbn. rewrite bool_decide_true by done. by rewrite HW.
Qed.

Lemma new_step m f : inv m → freeing m = false → store m !! f = None →
  ∃ m' es, PacketPassFairQueueFlow_Init f m = Some (tt, m', es) ∧ inv m' ∧ fair_step m m' es ∧ replay (abs m) es = Some (abs m').
Proof.
  intros [HC HP] Hf Hx. unfold PacketPassFairQueueFlow_Init, write. mrun. rewrite Hf. cbn.
  assert (Hnt : ∀ g, queued (store m) g ∨ outside (store m) g → g ≠ f).
  { intros g [(y & Hy & _)|(y & Hy & _)] ->; congruence. }
  assert (Htm : ∀ g, g ≠ f → tm (<[f := mkFlow false 0 false []]> (store m)) g = tm (store m) g).
  { intros g Hg. rewrite tm_insert. by rewrite decide_False. }
  do 2 eexists. split; [reflexivity|]. split; [split|split].
  - destruct HC as [H1 H2 H3 H4 H5 H6 H7 H8]. split; cbn; try done.
    + apply NoDup_app. split_and!; [done| |apply NoDup_singleton].
      intros g Hg ->%list_elem_of_singleton. apply H3 in Hg. rewrite Hx in Hg. by destruct Hg.
    + intros g. rewrite elem_of_app, list_elem_of_singleton, H3. destruct (decide (g = f)) as [->|Hg].
      * rewrite lookup_insert_eq. split; [eauto|tauto].
      * rewrite lookup_insert_ne by done. tauto.
    + eapply sorted_same, H4. intros g Hg%H5. apply Htm. auto.
    + intros g. rewrite H5. unfold queued. destruct (decide (g = f)) as [->|Hg]; [|by rewrite lookup_insert_ne].
      rewrite lookup_insert_eq, Hx. split; intros (y & [= <-] & ?); done.
    + intros g y. destruct (decide (g = f)) as [->|Hg]; [|rewrite lookup_insert_ne by done; apply H6].
      rewrite lookup_insert_eq. intros [= <-]. cbn. unfold zlen, FAIRQUEUE_MAX_TIME, UINT64_MAX. cbn. lia.
    + intros g Hg. destruct (H7 g Hg) as (Ho & Hl & Hm). split_and!; [|lia|lia|].
      * destruct Ho as (y & Hy & ?). exists y. by rewrite lookup_insert_ne by congruence.
      * intros h Hh. rewrite !Htm; [by apply Hm| |]; apply Hnt; [left; by apply H5|by right].
    + intros g Hg. destruct (H8 g Hg) as (y & Hy & ?). exists y. by rewrite lookup_insert_ne by congruence.
  - intros _. destruct (HP Hf) as [P1 P2 P3]. by split.
  - apply (quiet_fair _ _ _ 0); try done. intros g Hg _. unfold vtime. cbn. rewrite Htm; [lia|].
    apply Hnt. destruct Hg as [Hg|[Hg|Hg]]; [left; by apply (i_tree m HC)|right; by apply (i_sending m HC)|right; by apply (i_previous m HC)].
  - unfold abs. cbn. by rewrite waiting_keep; [|left|].
Qed.

Lemma free_step m f : inv m → is_Some (store m !! f) → freeing m = true ∨ sending_flow m ≠ Some f →
  ∃ m' es, PacketPassFairQueueFlow_Free f m = Some (tt, m', es) ∧ inv m' ∧ fair_step m m' es ∧
           replay (mkSpec (delete f (waiting_in (store m))) (if is_flow f (sending_flow m) then None else sending_flow m)) es =
           Some (abs m').
Proof.
  intros [HC HP] [x Hx] Hok.
  set (m' := mkFQ (output_mtu m) (use_cancel m) (packet_weight m) (if is_flow f (sending_flow m) then None else sending_flow m)
    (sending_len m) (if is_flow f (previous_flow m) then None else previous_flow m) (Tree_Remove f (queued_tree m))
    (filter (λ g, g ≠ f) (flows_list m)) (freeing m) (schedule_job m) (delete f (store m))).
  assert (Htm : ∀ g, g ≠ f → tm (delete f (store m)) g = tm (store m) g).
  { intros g Hg. unfold tm. by rewrite lookup_delete_ne. }
  assert (E : PacketPassFairQueueFlow_Free f m = Some (tt, m', [])).
  { assert (Ha : freeing m || negb (is_flow f (sending_flow m)) = true).
    { destruct Hok as [->|Hok]; [done|]. unfold is_flow. rewrite bool_decide_false by done. apply orb_true_r. }
    assert (Ht : (if is_queued x then Tree_Remove f (queued_tree m) else queued_tree m) = Tree_Remove f (queued_tree m)).
    { destruct (is_queued x) eqn:Hq; [done|]. symmetry. apply remove_notin. by apply (core_queued m f x). }
    unfold PacketPassFairQueueFlow_Free, flow_at. mrun. rewrite Hx. cbn. rewrite Ha. unfold m'. rewrite <-Ht.
    by destruct (is_flow f (sending_flow m)), (is_flow f (previous_flow m)), (is_queued x). }
  assert (Hs' : ∀ g, sending_flow m' = Some g → sending_flow m = Some g ∧ g ≠ f).
  { intros g. unfold m', is_flow. cbn. case_bool_decide; [done|]. intros Hg. split; [done|by intros ->]. }
  assert (Hp' : ∀ g, previous_flow m' = Some g → previous_flow m = Some g ∧ g ≠ f).
  { intros g. unfold m', is_flow. cbn. case_bool_decide; [done|]. intros Hg. split; [done|by intros ->]. }
  exists m', []. split; [done|]. split; [split|split; [|unfold abs, m', waiting_in; cbn; by rewrite omap_delete]].
  - destruct HC as [H1 H2 H3 H4 H5 H6 H7 H8]. split; try done.
    + cbn. by apply NoDup_filter.
    + intros g. cbn. rewrite list_elem_of_filter, H3. destruct (decide (g = f)) as [->|Hg].
      * rewrite lookup_delete_eq. split; [tauto|by intros []].
      * rewrite lookup_delete_ne by done. tauto.
    + cbn. eapply sorted_same, sorted_remove, H4. intros g [_ Hg]%elem_of_tree_remove. by apply Htm.
    + intros g. cbn. rewrite elem_of_tree_remove, H5. unfold queued. destruct (decide (g = f)) as [->|Hg].
      * rewrite lookup_delete_eq. split; [tauto|by intros (? & ? & _)].
      * rewrite lookup_delete_ne by done. tauto.
    + intros g y. cbn. intros Hy. apply lookup_delete_Some in Hy as [_ Hy]. by apply (H6 g).
    + intros g [Hg Hn]%Hs'. destruct (H7 g Hg) as ((y & Hy & ?) & Hl & Hm). split_and!; [|cbn; lia|cbn; lia|].
      * exists y. cbn. by rewrite lookup_delete_ne by congruence.
      * cbn. intros h [Hh Hhf]%elem_of_tree_remove. rewrite !Htm by done. by apply Hm.
    + intros g [Hg Hn]%Hp'. destruct (H8 g Hg) as (y & Hy & ?). exists y. cbn. by rewrite lookup_delete_ne by congruence.
  - intros Hf. change (freeing m = false) in Hf. destruct (HP Hf) as [P1 P2 P3]. split.
    + intros [g [Hg _]%Hs']. destruct P1 as [Hp Hj]; [by rewrite Hg|]. cbn. rewrite Hp. by destruct (is_flow _ _).
    + intros [g [Hg _]%Hp']. apply P2. by rewrite Hg.
    + cbn. intros Hs Hj. rewrite P3; [done| |done]. revert Hs. unfold is_flow. case_bool_decide as Hsf; [|done].
      intros _. destruct Hok as [|]; [congruence|done].
  - apply (quiet_fair _ _ _ 0); try done. intros g _ Hg.
    assert (Hn : g ≠ f).
    { destruct Hg as [Hg|[Hg|Hg]]; [by apply elem_of_tree_remove in Hg as []|by apply Hs' in Hg as []|by apply Hp' in Hg as []]. }
    unfold vtime, m', is_flow. cbn. rewrite Htm by done.
    destruct (sending_flow m) as [h|]; [|destruct (bool_decide (None = Some f)); lia]. destruct (decide (h = f)) as [->|Hh].
    + rewrite (bool_decide_true (Some f = Some f)), (bool_decide_false (None = Some g)), (bool_decide_false (Some f = Some g)) by congruence. lia.
    + rewrite (bool_decide_false (Some h = Some f)) by congruence. lia.
Qed.

(** ** Events *)

Inductive ev :=
  | NewFlow (f : ptr)
  | FreeFlow (f : ptr)
  | Input (f : ptr) (d : list Z)
  | OutputDone
  | ScheduleJob
  | RequestCancel (f : ptr)
  | SetBusyHandler (f : ptr) (handler : bool)
  | PrepareFree.

Definition handler_of (e : ev) : FM unit :=
  match e with
  | NewFlow f => PacketPassFairQueueFlow_Init f
  | FreeFlow f => PacketPassFairQueueFlow_Free f
  | Input f d => input_handler_send f d
  | OutputDone => output_handler_done
  | ScheduleJob => schedule_job_handler
  | RequestCancel f => PacketPassFairQueueFlow_RequestCancel f
  | SetBusyHandler f b => PacketPassFairQueueFlow_SetBusyHandler f b
  | PrepareFree => PacketPassFairQueue_PrepareFree
  end.

(** What the interfaces the queue is connected to and its users respect: a
    flow gives its next packet after the previous one is done, the output
    finishes only packets it got, a busy flow is not freed. *)
Definition allowed (m : PacketPassFairQueue) (e : ev) : Prop :=
  match e with
  | NewFlow f => freeing m = false ∧ store m !! f = None
  | FreeFlow f => is_Some (store m !! f) ∧ (freeing m = true ∨ sending_flow m ≠ Some f)
  | Input f d => freeing m = false ∧ outside (store m) f ∧ sending_flow m ≠ Some f ∧ zlen d <= output_mtu m
  | OutputDone => freeing m = false ∧ is_Some (sending_flow m)
  | ScheduleJob => freeing m = false ∧ schedule_job m = true
  | RequestCancel f => freeing m = false ∧ sending_flow m = Some f ∧ use_cancel m = true
  | SetBusyHandler f _ => freeing m = false ∧ sending_flow m = Some f
  | PrepareFree => True
  end.

(** What an event means, before the calls the queue makes. *)
Definition spec_ev (s : spec) (e : ev) : spec :=
  match e with
  | Input f d => mkSpec (<[f := d]> (waiting s)) (flight s)
  | FreeFlow f => mkSpec (delete f (waiting s)) (if is_flow f (flight s) then None else flight s)
  | _ => s
  end.

Lemma event_step m e : inv m → allowed m e →
  ∃ m' es, handler_of e m = Some (tt, m', es) ∧ inv m' ∧ fair_step m m' es ∧ replay (spec_ev (abs m) e) es = Some (abs m').
Proof.
  intros HI HA. destruct e as [f|f|f d| | |f|f b|]; cbn [handler_of allowed spec_ev] in *.
  - destruct HA. by apply new_step.
  - destruct HA as [Hf Hok]. by apply free_step.
  - destruct HA as (Hf & (x & Hx & Hq) & Hs & Hd). by eapply input_step.
  - destruct HA as [Hf [f Hs]]. by eapply done_step.
  - destruct HA. by apply job_step.
  - destruct HA as (Hf & Hs & Hc). destruct HI as [HC HP]. destruct (p_sending m (HP Hf)) as [_ Hj]; [by rewrite Hs|].
    unfold PacketPassFairQueueFlow_RequestCancel, is_flow. mrun. rewrite Hs, bool_decide_true by done. rewrite Hc, Hf, Hj. cbn.
    do 2 eexists. split; [reflexivity|]. split; [done|]. split; [|cbn; by rewrite Hs].
    apply (quiet_fair _ _ _ 0); try done. intros. lia.
  - destruct HA as (Hf & Hs). destruct HI as [HC HP]. destruct (i_sending m HC f Hs) as ((x & Hx & _) & _).
    destruct (core_handler m f x b HC Hx) as [HC' Htm]. destruct (HP Hf) as [P1 P2 P3].
    unfold PacketPassFairQueueFlow_SetBusyHandler, is_flow, flow_at, write. mrun. rewrite Hx. cbn.
    rewrite Hs, bool_decide_true by done. rewrite Hf. cbn.
    do 2 eexists. split; [reflexivity|]. split; [by split; [|intros _; split]|].
    split; [|unfold abs; cbn; by rewrite (waiting_same _ _ x)].
    apply (quiet_fair _ _ _ 0); try done. intros g _ _. unfold vtime. cbn. rewrite Htm. lia.
  - destruct HI as [HC HP]. do 2 eexists. split; [reflexivity|]. split; [split; [|done]|split; [|done]].
    + destruct HC as [H1 H2 H3 H4 H5 H6 H7 H8]. by split.
    + apply (quiet_fair _ _ _ 0); try done. intros. unfold vtime. cbn. lia.
Qed.

(** Events one after the other, with the calls each of them made. *)
Inductive steps (m0 : PacketPassFairQueue) : list (ev * list eff) → PacketPassFairQueue → Prop :=
  | steps_start : steps m0 [] m0
  | steps_event log m e m' es :
      steps m0 log m → allowed m e → handler_of e m = Some (tt, m', es) → steps m0 (log ++ [(e, es)]) m'.

Fixpoint replay_log (s : spec) (log : list (ev * list eff)) : option spec :=
  match log with
  | [] => Some s
  | (e, es) :: log' => match replay (spec_ev s e) es with Some s' => replay_log s' log' | None => None end
  end.

Lemma replay_log_app s log1 log2 s1 : replay_log s log1 = Some s1 → replay_log s (log1 ++ log2) = replay_log s1 log2.
Proof.
  revert s. induction log1 as [|[e es] log1 IH]; intros s; cbn; [by intros [= ->]|].
  destruct (replay _ _); [apply IH|done].
Qed.

Lemma queue_steps_inv m0 log m : steps m0 log m → inv m0 → inv m ∧ replay_log (abs m0) log = Some (abs m).
Proof.
  induction 1 as [|log m e m' es _ IH HA E]; [done|]. intros HI0. destruct (IH HI0) as [HI HR].
  destruct (event_step m e HI HA) as (m2 & es2 & E2 & HI2 & _ & HR2). rewrite E in E2. injection E2 as <- <-.
  split; [done|]. rewrite (replay_log_app _ _ _ _ HR). cbn. by rewrite HR2.
Qed.

Lemma queue_init_inv mtu has cancel weight m0 : 0 <= mtu <= INT_MAX → weight <= INT_MAX →
  PacketPassFairQueue_Init mtu has cancel weight = Some (Some m0) →
  inv m0 ∧ abs m0 = mkSpec ∅ None ∧ packet_weight m0 = weight ∧ output_mtu m0 = mtu.
Proof.
  intros Hm Hw. unfold PacketPassFairQueue_Init. case_if; [done|]. case_if; [by intros [=]|].
  intros [= <-]. split; [|done]. split; [|by intros _; split; cbn; [intros []|intros []|]]. split; cbn; try done.
  - constructor.
  - intros f. rewrite lookup_empty. split; [intros Hin; by apply elem_of_nil in Hin|by intros []].
  - constructor.
  - intros f. split; [intros Hin; by apply elem_of_nil in Hin|]. intros (x & Hx & _). by rewrite lookup_empty in Hx.
Qed.

(** Along a run during which [a] and [b] stay backlogged, either [a] got
    nothing or its time is at most one packet ahead of that of [b]; and the
    difference of the times changes by the difference of the services. *)
Inductive contended (a b : ptr) (m0 : PacketPassFairQueue) : list eff → PacketPassFairQueue → Prop :=
  | contended_start : backlogged m0 a → backlogged m0 b → contended a b m0 [] m0
  | contended_event log m e m' es :
      contended a b m0 log m → allowed m e → handler_of e m = Some (tt, m', es) →
      backlogged m' a → backlogged m' b → contended a b m0 (log ++ es) m'.

Lemma service_app w f es1 es2 : service w f (es1 ++ es2) = service w f es1 + service w f es2.
Proof. induction es1 as [|[g d| | |] es1 IH]; cbn; [done| |done|done|done]. rewrite IH. lia. Qed.

Lemma service_nonneg w f es : 0 <= w → 0 <= service w f es.
Proof.
  intros Hw. induction es as [|[g d| | |] es IH]; cbn; try lia. pose proof (zlen_nonneg d). case_if; lia.
Qed.

Lemma contended_times a b m0 log m : contended a b m0 log m → inv m0 →
  inv m ∧ backlogged m a ∧ backlogged m b ∧
  packet_weight m = packet_weight m0 ∧ output_mtu m = output_mtu m0 ∧
  vtime m a - vtime m b = vtime m0 a - vtime m0 b + service (packet_weight m0) a log - service (packet_weight m0) b log ∧
  (service (packet_weight m0) a log = 0 ∨ vtime m a <= vtime m b + packet_weight m0 + output_mtu m0).
Proof.
  induction 1 as [Ha Hb|log m e m' es _ IH HA E Ha' Hb']; intros HI0.
  - split_and!; try done; [cbn; lia|by left].
  - destruct (IH HI0) as (HI & Ha & Hb & Hw & Ho & HV & HL).
    destruct (event_step m e HI HA) as (m2 & es2 & E2 & HI2 & HF & _). rewrite E in E2. injection E2 as <- <-.
    destruct HF as [[Hw' Ho'] [shift Hmove] Hleast]. rewrite <-Hw in HV, HL |- *. rewrite <-Ho in HL |- *. rewrite !service_app.
    pose proof (Hmove a Ha Ha') as Hma. pose proof (Hmove b Hb Hb') as Hmb.
    pose proof (i_size m (proj1 HI)) as [Hwp _].
    pose proof (service_nonneg (packet_weight m) b es). pose proof (service_nonneg (packet_weight m) a es).
    split_and!; try done; [lia|].
    destruct (Z.eq_dec (service (packet_weight m) a es) 0) as [Hz|Hz].
    + destruct HL as [HL|HL]; [left; lia|right; lia].
    + right. apply Hleast; [done|lia].
Qed.

(** Runs of concrete events. *)
Definition allowedb (m : PacketPassFairQueue) (e : ev) : bool :=
  match e with
  | NewFlow f => negb (freeing m) && bool_decide (store m !! f = None)
  | FreeFlow f => bool_decide (is_Some (store m !! f)) && (freeing m || negb (is_flow f (sending_flow m)))
  | Input f d =>
      negb (freeing m) && negb (default true (is_queued <$> store m !! f)) && negb (is_flow f (sending_flow m)) &&
      (zlen d <=? output_mtu m)
  | OutputDone => negb (freeing m) && bool_decide (is_Some (sending_flow m))
  | ScheduleJob => negb (freeing m) && schedule_job m
  | RequestCancel f => negb (freeing m) && is_flow f (sending_flow m) && use_cancel m
  | SetBusyHandler f _ => negb (freeing m) && is_flow f (sending_flow m)
  | PrepareFree => true
  end.

Fixpoint exec (m : PacketPassFairQueue) (es : list ev) : option (PacketPassFairQueue * list (ev * list eff)) :=
  match es with
  | [] => Some (m, [])
  | e :: es' =>
      if negb (allowedb m e) then None
      else match handler_of e m with
           | None => None
           | Some (_, m', t) =>
               match exec m' es' with
               | None => None
               | Some (m2, log) => Some (m2, (e, t) :: log)
               end
           end
  end.

Lemma allowedb_ok m e : allowedb m e = true → allowed m e.
Proof.
  unfold allowedb, allowed, is_flow, outside. destruct e; intros H; repeat (apply andb_true_iff in H as [H ?]); zb;
    repeat match goal with
      | H : bool_decide _ = true |- _ => apply bool_decide_eq_true in H
      | H : bool_decide _ = false |- _ => apply bool_decide_eq_false in H
      end; split_and?; try done.
  - apply orb_true_iff in H0 as [?|?]; [by left|right]. zb. by apply bool_decide_eq_false in H0.
  - destruct (store m !! f) as [x|]; [|done]. cbn in *. eauto.
Qed.

Lemma exec_steps m0 log m evs m' log' : steps m0 log m → exec m evs = Some (m', log') → steps m0 (log ++ log') m'.
Proof.
  revert log m log'. induction evs as [|e evs IH]; intros log m log' HS; cbn [exec].
  - intros [= <- <-]. by rewrite app_nil_r.
  - destruct (allowedb m e) eqn:Ha; cbn; [|done]. destruct (handler_of e m) as [[[[] m1] t]|] eqn:E; [|done].
    destruct (exec m1 evs) as [[m2 log2]|] eqn:E2; [|done]. intros [= <- <-].
    rewrite (cons_middle (e, t) log log2), app_assoc. eapply IH; [|done].
    econstructor; [done|by apply allowedb_ok|done].
Qed.

Definition backloggedb (m : PacketPassFairQueue) (f : ptr) : bool :=
  bool_decide (f ∈ queued_tree m) || is_flow f (sending_flow m) || is_flow f (previous_flow m).

Lemma backloggedb_ok m f : backloggedb m f = true → backlogged m f.
Proof.
  unfold backloggedb, is_flow, backlogged. intros [[H|H]%orb_true_iff|H]%orb_true_iff; apply bool_decide_eq_true in H; auto.
Qed.

(** A run during which two flows stay backlogged. *)
Fixpoint contend (a b : ptr) (m : PacketPassFairQueue) (es : list ev) : option (PacketPassFairQueue * list eff) :=
  if negb (backloggedb m a && backloggedb m b) then None
  else match es with
       | [] => Some (m, [])
       | e :: es' =>
           if negb (allowedb m e) then None
           else '(_, m', t) ← handler_of e m; '(m2, log) ← contend a b m' es'; Some (m2, t ++ log)
       end.

Lemma contend_ok a b m0 log m evs m' log' : contended a b m0 log m → contend a b m evs = Some (m', log') →
  contended a b m0 (log ++ log') m'.
Proof.
  revert log m log'. induction evs as [|e evs IH]; intros log m log' HS; cbn [contend]; destruct (negb _); try done.
  - intros [= <- <-]. by rewrite app_nil_r.
  - destruct (allowedb m e) eqn:Ha; cbn; [|done]. destruct (handler_of e m) as [[[[] m1] t]|] eqn:E; [|done]. cbn.
    destruct (contend a b m1 evs) as [[m2 log2]|] eqn:E2; [|done]. intros [= <- <-]. rewrite app_assoc.
    eapply IH; [|done]. econstructor; [done|by apply allowedb_ok|done| |];
      (destruct evs; cbn [contend] in E2; destruct (backloggedb m1 a) eqn:Hba, (backloggedb m1 b) eqn:Hbb; try done; by apply backloggedb_ok).
Qed.

(** C20: The queue passes on exactly what it was given.  For every sequence of
    events from [PacketPassFairQueue_Init] (flows added, freed, giving packets;
    the output finishing packets; jobs; cancellation; freeing): all assertions
    pass; the calls of the queue, replayed on the specification, send each
    packet once, unchanged, one at a time, and complete exactly the packet the
    output has finished; the output is never idle while a packet waits (it is
    busy or the job that schedules is set); the tree is sorted by the current
    times and holds the flows with a waiting packet, none of them behind the
    flow being sent; and when all flows are freed the queue can be. *)
Theorem queue_exact mtu has cancel weight m0 log m e :
  0 <= mtu <= INT_MAX → weight <= INT_MAX →
  PacketPassFairQueue_Init mtu has cancel weight = Some (Some m0) → steps m0 log m → allowed m e →
  (∃ m' es, handler_of e m = Some (tt, m', es)) ∧
  replay_log (mkSpec ∅ None) log = Some (abs m) ∧
  (freeing m = false → sending_flow m = None → schedule_job m = false → waiting (abs m) = ∅) ∧
  StronglySorted (flow_lt (store m)) (queued_tree m) ∧
  (∀ f, f ∈ queued_tree m ↔ is_Some (waiting (abs m) !! f)) ∧
  (∀ f q, sending_flow m = Some f → q ∈ queued_tree m → tm (store m) f <= tm (store m) q) ∧
  (flows_list m = [] → ∃ m', PacketPassFairQueue_Free m = Some (tt, m', [])).
Proof.
  intros Hm Hw Hi HS HA. destruct (queue_init_inv _ _ _ _ _ Hm Hw Hi) as (HI0 & Habs & _).
  destruct (queue_steps_inv m0 log m HS HI0) as [HI HR]. rewrite Habs in HR.
  destruct (event_step m e HI HA) as (m' & es & E & _). destruct HI as [HC HP].
  assert (Htree : ∀ f, f ∈ queued_tree m ↔ is_Some (waiting (abs m) !! f)).
  { intros f. rewrite (i_tree m HC). cbn. unfold waiting_in, queued. rewrite lookup_omap.
    destruct (store m !! f) as [x|]; cbn; [|split; [by intros (? & ? & _)|by intros []]].
    destruct (is_queued x) eqn:Hq; split; [eauto|eauto|intros (? & [= <-] & ?); congruence|by intros []]. }
  split_and!; [eauto|done| |by apply HC|done|intros f q Hf; by apply (i_sending m HC f Hf)|].
  - intros Hf Hs Hj. apply map_empty. intros f. apply eq_None_not_Some. rewrite <-Htree.
    rewrite (p_busy m (HP Hf) Hs Hj). apply not_elem_of_nil.
  - intros Hl. assert (Hempty : ∀ f, store m !! f = None).
    { intros f. apply eq_None_not_Some. rewrite <-(i_flows m HC), Hl. apply not_elem_of_nil. }
    assert (Ht : queued_tree m = []).
    { destruct (queued_tree m) as [|q l] eqn:Ht; [done|]. destruct (i_tree m HC q) as [(x & Hx & _) _]; [rewrite Ht; left|].
      by rewrite Hempty in Hx. }
    assert (Hp : previous_flow m = None).
    { destruct (previous_flow m) as [f|] eqn:Hp; [|done]. destruct (i_previous m HC f Hp) as (x & Hx & _). by rewrite Hempty in Hx. }
    assert (Hs : sending_flow m = None).
    { destruct (sending_flow m) as [f|] eqn:Hs; [|done]. destruct (i_sending m HC f Hs) as ((x & Hx & _) & _). by rewrite Hempty in Hx. }
    unfold PacketPassFairQueue_Free. mrun. rewrite Hl, Ht, Hp, Hs. cbn. eauto.
Qed.

(** C38: The queue is fair.  In any reachable state and along any run from it
    during which the flows [a] and [b] both always have a packet for the
    output, the service [a] gets (bytes, and the weight of each packet) exceeds
    the service [b] gets by at most one packet of maximal size, and what [b]
    was ahead of [a] at the beginning.  This covers the overflow of the 64-bit
    times. *)
Theorem queue_fair mtu has cancel weight m0 log m a b es m' :
  0 <= mtu <= INT_MAX → weight <= INT_MAX →
  PacketPassFairQueue_Init mtu has cancel weight = Some (Some m0) → steps m0 log m → contended a b m es m' →
  service weight a es - service weight b es <= Z.max 0 (vtime m b - vtime m a) + (weight + mtu).
Proof.
  intros Hm Hw Hi HS HC. destruct (queue_init_inv _ _ _ _ _ Hm Hw Hi) as (HI0 & _ & Hw0 & Hm0).
  destruct (queue_steps_inv m0 log m HS HI0) as [HI _].
  assert (Hsame : packet_weight m = weight ∧ output_mtu m = mtu).
  { clear HC HI. induction HS as [|log m e m2 es2 HS IH HA E]; [done|]. destruct (queue_steps_inv m0 log m HS HI0) as [HI _].
    destruct (event_step m e HI HA) as (m3 & es3 & E3 & _ & [[Hw' Ho'] _ _] & _). rewrite E in E3. injection E3 as <- <-.
    rewrite Hw', Ho'. by apply IH. }
  destruct Hsame as [Hwm Hom]. destruct (contended_times a b m es m' HC HI) as (_ & _ & _ & _ & _ & HV & HL).
  rewrite Hwm, Hom in *. pose proof (i_size m (proj1 HI)) as [? ?]. pose proof (service_nonneg weight b es). lia.
Qed.

Lemma queue_exact_witness :
  ∃ m0 m log, PacketPassFairQueue_Init 100 true true 1 = Some (Some m0) ∧
    exec m0 [NewFlow 1; NewFlow 2; Input 1 [7; 8]; Input 2 [9]; OutputDone; Input 1 [1]; ScheduleJob] = Some (m, log) ∧
    replay_log (mkSpec ∅ None) log = Some (abs m) ∧ waiting (abs m) = {[1 := [1]]} ∧ sending_flow m = Some 2.
Proof.
  eexists _, _, _. split; [reflexivity|]. split; [vm_compute; reflexivity|]. split; [|by split; vm_compute].
  edestruct (queue_exact 100 true true 1) with (e := OutputDone) as (_ & HR & _).
  - done.
  - done.
  - reflexivity.
  - eapply (exec_steps _ [] _ [NewFlow 1; NewFlow 2; Input 1 [7; 8]; Input 2 [9]; OutputDone; Input 1 [1]; ScheduleJob]);
      [apply steps_start|vm_compute; reflexivity].
  - split; [done|]. by eexists.
  - exact HR.
Defined.

Lemma queue_fair_witness :
  ∃ m0 m log m' es, PacketPassFairQueue_Init 100 true true 1 = Some (Some m0) ∧
    exec m0 [NewFlow 1; NewFlow 2; Input 1 [7; 8]; Input 2 [9]] = Some (m, log) ∧
    contend 2 1 m [OutputDone; Input 1 [1]; ScheduleJob] = Some (m', es) ∧
    service 1 2 es - service 1 1 es <= Z.max 0 (vtime m 1 - vtime m 2) + (1 + 100).
Proof.
  eexists _, _, _, _, _. split; [reflexivity|]. split; [vm_compute; reflexivity|]. split; [vm_compute; reflexivity|].
  eapply (queue_fair 100 true true 1).
  - done.
  - done.
  - reflexivity.
  - eapply (exec_steps _ [] _ [NewFlow 1; NewFlow 2; Input 1 [7; 8]; Input 2 [9]]); [apply steps_start|vm_compute; reflexivity].
  - eapply (contend_ok _ _ _ [] _ [OutputDone; Input 1 [1]; ScheduleJob]);
      [apply contended_start; by apply backloggedb_ok|vm_compute; reflexivity].
Defined.

(** A flow that was idle waits for what it sent before.  The bound of the
    fairness theorem depends on the times at the beginning, and these are kept
    over idle periods: when nothing is queued the current time counts as zero,
    so a flow that starts then is far behind a flow that has sent in the past.
    Flow 1 sends 20 packets alone and pauses; flow 2 starts; when flow 1 has a
    packet again, flow 2 gets 20 packets through before it. *)
Lemma idle_flow_waits :
  ∃ m0 m log m' log', PacketPassFairQueue_Init 1500 false false 1 = Some (Some m0) ∧
    let packet := replicate 100 0 in
    exec m0 ([NewFlow 1; NewFlow 2] ++ mjoin (replicate 20 [Input 1 packet; OutputDone; ScheduleJob]) ++
             [Input 2 packet; Input 1 packet]) = Some (m, log) ∧
    exec m (mjoin (replicate 19 [OutputDone; Input 2 packet; ScheduleJob])) = Some (m', log') ∧
    queued_tree m' = [1] ∧ service 1 1 (mjoin log'.*2) = 0 ∧ service 1 2 (mjoin log'.*2) = 19 * 101.
Proof.
  eexists _, _, _, _, _. split; [reflexivity|]. cbn zeta. split; [vm_compute; reflexivity|].
  split; [vm_compute; reflexivity|]. by split_and!; vm_compute.
Qed.

End FairQueue.
