(* ===== verification/IpUdp.v ===== *)
(** * IP and UDP headers ([misc/ipv4_proto.h], [misc/ipv6_proto.h], [misc/udp_proto.h])

    Headers as the structures of the source: a field of two or four bytes is
    the integer a little-endian machine reads from the packet, so the fields in
    network byte order are used through [ntoh16] and [hton16].  Packets are
    lists of bytes.  The theorems relate the checksum code to the ones'
    complement sums of RFC 1071, RFC 791 and RFC 768. *)

From S2P Require Import Prelude Net.

(** ** Checksums *)

Module Checksum.

(** [badvpn_read_be16] at two bytes. *)
Definition badvpn_read_be16 (b0 b1 : Z) : Z := Z.lor (Z.shiftl b0 8) (Z.shiftl b1 0).

(** The loop that adds the words of some bytes to [t], a [uint32_t]. *)
Fixpoint add_words (t : Z) (l : list Z) : Z :=
  match l with
  | b0 :: b1 :: l' => add_words (u32 (t + badvpn_read_be16 b0 b1)) l'
  | _ => t
  end.

(** [while (t >> 16) t = (t & 0xFFFF) + (t >> 16)], at most [n] rounds. *)
Fixpoint fold_carry (n : nat) (t : Z) : Z :=
  match n with
  | O => t
  | S n' => if Z.shiftr t 16 =? 0 then t else fold_carry n' (Z.land t 65535 + Z.shiftr t 16)
  end.

(** The sum of the 16-bit words of some bytes; a last single byte counts as
    the high byte of a word, as in the specifications. *)
Fixpoint word_sum (l : list Z) : Z :=
  match l with
  | [] => 0
  | [b] => 256 * b
  | b0 :: b1 :: l' => 256 * b0 + b1 + word_sum l'
  end.

(** RFC 1071: adding with end-around carry. *)
Definition ones_sum (n : Z) : Z := if n =? 0 then 0 else (n - 1) mod 65535 + 1.

Lemma list_ind2 {A} (P : list A → Prop) : P [] → (∀ a, P [a]) → (∀ a b l, P l → P (a :: b :: l)) → ∀ l, P l.
Proof.
  intros H0 H1 H2. assert (HH : ∀ l, P l ∧ ∀ a, P (a :: l)); [|intros l; apply HH].
  induction l as [|b l [IH1 IH2]]; split; auto.
Qed.

Lemma read_be16 b0 b1 : is_u8 b0 → is_u8 b1 → badvpn_read_be16 b0 b1 = 256 * b0 + b1.
Proof.
  unfold is_u8, UINT8_MAX, badvpn_read_be16. intros H0 H1. rewrite Z.shiftl_0_r, Z.shiftl_mul_pow2 by lia.
  assert (E : Z.land (b0 * 2 ^ 8) b1 = 0).
  { apply Z.bits_inj'. intros n Hn. rewrite Z.land_spec, Z.bits_0. destruct (Z.lt_ge_cases n 8).
    - by rewrite Z.mul_pow2_bits_low.
    - rewrite (Z.bits_above_log2 b1 n), andb_false_r; [done|lia|]. destruct (Z.eq_dec b1 0) as [->|]; [cbn; lia|].
      apply Z.log2_lt_pow2; [lia|]. apply Z.lt_le_trans with (2 ^ 8); [lia|]. by apply Z.pow_le_mono_r. }
  rewrite <-Z.lxor_lor, <-Z.add_nocarry_lxor by done. lia.
Qed.

Lemma word_sum_bound l : bytes l → 0 <= word_sum l <= 65535 * ((zlen l + 1) / 2).
Proof.
  induction l as [|a|a b l IH] using list_ind2; intros HB; cbn [word_sum].
  - done.
  - inversion HB as [|? ? Ha _]; subst. unfold is_u8, UINT8_MAX in Ha. change ((zlen [a] + 1) / 2) with 1. lia.
  - inversion HB as [|? ? Ha HB']; subst. inversion HB' as [|? ? Hb HB'']; subst. specialize (IH HB'').
    unfold is_u8, UINT8_MAX in *. rewrite !zlen_cons. replace (1 + (1 + zlen l) + 1) with (zlen l + 1 + 1 * 2) by lia.
    rewrite Z.div_add by lia. lia.
Qed.

Lemma word_sum_first b l : bytes (b :: l) → 256 * b <= word_sum (b :: l).
Proof.
  intros HB. destruct l as [|c l]; cbn [word_sum]; [lia|]. inversion HB as [|? ? _ HB1]; subst.
  inversion HB1 as [|? ? Hc HB2]; subst. pose proof (word_sum_bound l HB2). unfold is_u8 in Hc. lia.
Qed.

Lemma word_sum_app l1 l2 : zlen l1 mod 2 = 0 → word_sum (l1 ++ l2) = word_sum l1 + word_sum l2.
Proof.
  induction l1 as [|a|a b l IH] using list_ind2; intros HE; cbn [word_sum app].
  - done.
  - done.
  - rewrite IH; [lia|]. rewrite !zlen_cons in HE. by replace (1 + (1 + zlen l)) with (zlen l + 1 * 2) in HE by lia;
      rewrite Z.mod_add in HE.
Qed.

(** Without overflow the loop adds the sum of the words. *)
Lemma add_words_sum l : bytes l → zlen l mod 2 = 0 → ∀ t, 0 <= t → t + word_sum l <= UINT32_MAX →
  add_words t l = t + word_sum l.
Proof.
  induction l as [|a|a b l IH] using list_ind2; intros HB HE t Ht Hov; cbn [word_sum add_words] in *.
  - lia.
  - done.
  - inversion HB as [|? ? Ha HB']; subst. inversion HB' as [|? ? Hb HB'']; subst.
    pose proof (word_sum_bound l HB''). unfold is_u8, UINT8_MAX in *.
    rewrite read_be16, u32_small by (unfold is_u8, is_u32, UINT8_MAX; lia).
    rewrite IH; [lia|done| |lia|lia]. rewrite !zlen_cons in HE.
    replace (1 + (1 + zlen l)) with (zlen l + 1 * 2) in HE by lia. by rewrite Z.mod_add in HE.
Qed.

Lemma fold_step t : 0 <= t → Z.land t 65535 + Z.shiftr t 16 = t mod 65536 + t / 65536.
Proof. intros. rewrite Z.shiftr_div_pow2 by lia. change 65535 with (Z.ones 16). by rewrite Z.land_ones by lia. Qed.

(** The loop ends after two rounds, and adds the carries. *)
Lemma fold_carry_ones n t : 0 <= t <= UINT32_MAX → (2 <= n)%nat → fold_carry n t = ones_sum t.
Proof.
  unfold UINT32_MAX. intros Ht Hn.
  assert (HS : ∀ u, 0 <= u → ones_sum (u mod 65536 + u / 65536) = ones_sum u).
  { intros u Hu. unfold ones_sum. pose proof (Z.div_mod u 65536). pose proof (Z.mod_pos_bound u 65536).
    pose proof (Z.div_pos u 65536). destruct (Z.eq_dec u 0) as [->|Hnz]; [done|]. zdec.
    replace (u - 1) with (u mod 65536 + u / 65536 - 1 + (u / 65536) * 65535) by lia. by rewrite Z.mod_add. }
  assert (HB : ∀ u, 0 <= u < 65536 → ones_sum u = u).
  { intros u Hu. unfold ones_sum. case_if; [lia|]. rewrite Z.mod_small; lia. }
  assert (HZ : ∀ u, 0 <= u → (Z.shiftr u 16 =? 0) = (u <? 65536)).
  { intros u Hu. rewrite Z.shiftr_div_pow2 by lia. change (2 ^ 16) with 65536.
    destruct (u <? 65536) eqn:Hlt; zb; [apply Z.eqb_eq, Z.div_small; lia|].
    apply Z.eqb_neq. assert (1 <= u / 65536) by (apply Z.div_le_lower_bound; lia). lia. }
  destruct n as [|[|n]]; [lia|lia|]. cbn [fold_carry]. rewrite HZ by lia. case_if; [rewrite HB; lia|].
  rewrite fold_step by lia. set (u := t mod 65536 + t / 65536).
  assert (Hu : 0 <= u <= 131070).
  { unfold u. pose proof (Z.mod_pos_bound t 65536). pose proof (Z.div_pos t 65536).
    assert (t / 65536 < 65536) by (apply Z.div_lt_upper_bound; lia). lia. }
  rewrite <-HS by lia. fold u. rewrite HZ by lia. case_if; [rewrite HB; lia|]. rewrite fold_step by lia.
  set (v := u mod 65536 + u / 65536).
  assert (Hv : 0 <= v < 65536).
  { unfold v. pose proof (Z.mod_pos_bound u 65536). assert (u / 65536 = 1) as E.
    { apply Z.le_antisymm; [apply Z.lt_succ_r, Z.div_lt_upper_bound; lia|apply Z.div_le_lower_bound; lia]. }
    pose proof (Z.div_mod u 65536). lia. }
  rewrite <-(HS u) by lia. fold v. rewrite HB by done. destruct n; cbn [fold_carry]; [done|]. rewrite HZ by lia. by zdec.
Qed.

Lemma ones_sum_range n : 0 <= n → 0 <= ones_sum n <= 65535 ∧ (ones_sum n = 0 ↔ n = 0).
Proof.
  intros Hn. unfold ones_sum. pose proof (Z.mod_pos_bound (n - 1) 65535). case_if; [lia|]. split; [lia|]. lia.
Qed.

(** A sum is all ones exactly when it is a positive multiple of 65535. *)
Lemma ones_sum_full n : 0 <= n → (ones_sum n = 65535 ↔ 0 < n ∧ n mod 65535 = 0).
Proof.
  intros Hn. unfold ones_sum. pose proof (Z.mod_pos_bound (n - 1) 65535). case_if; [split; lia|].
  pose proof (Z.div_mod n 65535). pose proof (Z.div_mod (n - 1) 65535). pose proof (Z.mod_pos_bound n 65535). split.
  - intros E. split; [lia|]. assert (E2 : n - 1 = 65534 + (n - 1) / 65535 * 65535) by lia.
    replace n with (0 + (1 + (n - 1) / 65535) * 65535) by lia. by rewrite Z.mod_add.
  - intros [_ E]. replace (n - 1) with (65534 + (n / 65535 - 1) * 65535) by lia. by rewrite Z.mod_add.
Qed.

(** Adding a word makes the sum all ones exactly when it is the complement. *)
Lemma complement_full n c : 0 <= n → 0 <= c < 65535 → (ones_sum (n + c) = 65535 ↔ c = 65535 - ones_sum n).
Proof.
  intros Hn Hc. rewrite ones_sum_full by lia. destruct (ones_sum_range n Hn) as [Hr Hz].
  destruct (Z.eq_dec n 0) as [->|Hnz]; [change (ones_sum 0) with 0; split; [|lia]; rewrite Z.mod_small; lia|].
  set (s := ones_sum n) in *.
  assert (HM : n = s + (n - 1) / 65535 * 65535).
  { unfold s, ones_sum. zdec. pose proof (Z.div_mod (n - 1) 65535). lia. }
  replace (n + c) with (s + c + (n - 1) / 65535 * 65535) at 2 by lia. rewrite Z.mod_add by lia. split.
  - intros [_ E]. pose proof (Z.div_mod (s + c) 65535). pose proof (Z.div_pos (s + c) 65535).
    assert ((s + c) / 65535 < 2) by (apply Z.div_lt_upper_bound; lia). lia.
  - intros ->. replace (s + (65535 - s)) with 65535 by lia. split; [lia|done].
Qed.

End Checksum.

(** ** Packed structures in memory *)

Definition field (off n : Z) (l : list Z) : Z := of_le (slice off n l).

Fixpoint store_fields (sizes : list nat) (vals : list Z) : list Z :=
  match sizes, vals with
  | n :: sizes', v :: vals' => le_bytes n v ++ store_fields sizes' vals'
  | _, _ => []
  end.
Fixpoint load_fields (sizes : list nat) (l : list Z) : list Z :=
  match sizes with
  | [] => []
  | n :: sizes' => of_le (take n l) :: load_fields sizes' (drop n l)
  end.
(** Each value fits its field. *)
Definition fits (n : nat) (v : Z) : Prop := 0 <= v < 256 ^ Z.of_nat n.

Lemma store_load sizes l : bytes l → length l = sum_list sizes → store_fields sizes (load_fields sizes l) = l.
Proof.
  revert l. induction sizes as [|n sizes IH]; intros l HB HL; cbn in *; [by destruct l|].
  rewrite le_bytes_of_le_n; [|by apply Forall_take|rewrite length_take; lia].
  rewrite IH; [apply take_drop|by apply Forall_drop|rewrite length_drop; lia].
Qed.

Lemma load_fits sizes l : bytes l → Forall2 fits sizes (load_fields sizes l).
Proof.
  revert l. induction sizes as [|n sizes IH]; intros l HB; cbn; constructor; [|by apply IH, Forall_drop].
  assert (HB' : bytes (take n l)) by (by apply Forall_take). pose proof (of_le_range _ HB') as Hr. unfold fits.
  split; [lia|]. eapply Z.lt_le_trans; [apply Hr|]. apply Z.pow_le_mono_r; [lia|]. unfold zlen. rewrite length_take. lia.
Qed.

Lemma load_store sizes vals rest : Forall2 fits sizes vals → load_fields sizes (store_fields sizes vals ++ rest) = vals.
Proof.
  induction 1 as [|n v sizes vals Hf HF IH]; cbn; [done|]. rewrite <-app_assoc.
  rewrite take_app_le by (rewrite length_le_bytes; lia). rewrite take_ge by (rewrite length_le_bytes; lia).
  rewrite of_le_le_bytes, drop_app_ge by (rewrite length_le_bytes; lia). rewrite length_le_bytes, Nat.sub_diag, drop_0, IH.
  unfold fits in Hf. by rewrite Z.mod_small.
Qed.

Lemma bytes_store_fields sizes vals : bytes (store_fields sizes vals).
Proof.
  revert vals. induction sizes as [|n sizes IH]; intros [|v vals]; cbn; try constructor.
  apply Forall_app. split; [apply bytes_le_bytes|apply IH].
Qed.

Lemma length_store_fields sizes vals : length sizes = length vals → length (store_fields sizes vals) = sum_list sizes.
Proof.
  revert vals. induction sizes as [|n sizes IH]; intros [|v vals]; cbn; try done.
  intros [= HL]. by rewrite length_app, length_le_bytes, IH.
Qed.

(** A 16-bit field is one word of a sum. *)
Lemma word_sum_field v : Checksum.word_sum (le_bytes 2 v) = ntoh16 v.
Proof.
  unfold ntoh16, hton16, badvpn_reverse16. assert (HL : length (le_bytes 2 v) = 2%nat) by apply length_le_bytes.
  destruct (le_bytes 2 v) as [|a [|b [|? ?]]]; try done. cbn. unfold of_le. lia.
Qed.

(** ** IPv4 ([misc/ipv4_proto.h]) *)

Module Ipv4.

Definition IPV4_PROTOCOL_UDP : Z := 17.

Record ipv4_header := mk {
  version4_ihl4 : Z;
  ds : Z;
  total_length : Z;
  identification : Z;
  flags3_fragmentoffset13 : Z;
  ttl : Z;
  protocol : Z;
  checksum : Z;
  source_address : Z;
  destination_address : Z
}.

Definition layout : list nat := [1; 1; 2; 2; 2; 1; 1; 2; 4; 4]%nat.
Definition vals (h : ipv4_header) : list Z :=
  [version4_ihl4 h; ds h; total_length h; identification h; flags3_fragmentoffset13 h; ttl h; protocol h; checksum h;
   source_address h; destination_address h].
Definition mem (h : ipv4_header) : list Z := store_fields layout (vals h).
Definition load (l : list Z) : ipv4_header :=
  mk (field 0 1 l) (field 1 1 l) (field 2 2 l) (field 4 2 l) (field 6 2 l) (field 8 1 l) (field 9 1 l) (field 10 2 l)
     (field 12 4 l) (field 16 4 l).
Definition header_ok (h : ipv4_header) : Prop := Forall2 fits layout (vals h).

Definition with_checksum (c : Z) (h : ipv4_header) : ipv4_header :=
  mk (version4_ihl4 h) (ds h) (total_length h) (identification h) (flags3_fragmentoffset13 h) (ttl h) (protocol h) c
     (source_address h) (destination_address h).

Definition IPV4_GET_VERSION (h : ipv4_header) : Z := Z.shiftr (Z.land (version4_ihl4 h) 240) 4.
Definition IPV4_GET_IHL (h : ipv4_header) : Z := Z.shiftr (Z.land (version4_ihl4 h) 15) 0.
Definition IPV4_MAKE_VERSION_IHL (size : Z) : Z := size / 4 + Z.shiftl 4 4.

(** The result is the [uint16_t] in network byte order; [~t] is cut to it. *)
Definition ipv4_checksum (h : ipv4_header) (extra : list Z) : Z :=
  let t := Checksum.add_words (Checksum.add_words 0 (mem h)) extra in
  hton16 (u16 (Z.lnot (Checksum.fold_carry 4 t))).

(** The header and the payload of an accepted packet. *)
Definition ipv4_check (data : list Z) : option (ipv4_header * list Z) :=
  if zlen data <? 20 then None
  else
    let h := load (slice 0 20 data) in
    if negb (IPV4_GET_VERSION h =? 4) then None
    else
      let header_len := u16 (IPV4_GET_IHL h * 4) in
      if header_len <? 20 then None
      else if header_len >? zlen data then None
      else
        let total := ntoh16 (total_length h) in
        if total <? header_len then None
        else if total >? zlen data then None
        else
          let computed := ipv4_checksum (with_checksum (hton16 0) h) (slice 20 (header_len - 20) data) in
          if negb (checksum h =? computed) then None
          else Some (h, slice header_len (total - header_len) data).

Lemma ip4_zlen_mem h : zlen (mem h) = 20.
Proof. unfold zlen, mem. by rewrite length_store_fields. Qed.

Lemma ip4_bytes_mem h : bytes (mem h).
Proof. apply bytes_store_fields. Qed.

Lemma ip4_load_vals l : vals (load l) = load_fields layout l.
Proof. unfold vals, load, field, slice. cbn. by rewrite !drop_drop. Qed.

Lemma mem_load l : bytes l → zlen l = 20 → mem (load l) = l.
Proof. intros HB HL. unfold mem. rewrite ip4_load_vals. apply store_load; [done|]. unfold zlen in HL. cbn. lia. Qed.

Lemma ip4_load_mem h rest : header_ok h → load (mem h ++ rest) = h.
Proof.
  intros HO. assert (E : vals (load (mem h ++ rest)) = vals h) by (rewrite ip4_load_vals; by apply load_store).
  revert E. generalize (load (mem h ++ rest)). intros h' E. destruct h, h'. unfold vals in E. cbn in E. congruence.
Qed.

Lemma ip4_load_ok l : bytes l → header_ok (load l).
Proof. intros HB. unfold header_ok. rewrite ip4_load_vals. by apply load_fits. Qed.

(** The sum of the header: that of the header with a zero checksum, and the
    checksum. *)
Lemma ip4_mem_checksum_sum c h rest : header_ok h →
  Checksum.word_sum (mem (with_checksum c h) ++ rest) =
  Checksum.word_sum (mem (with_checksum (hton16 0) h) ++ rest) + ntoh16 c.
Proof.
  intros _.
  set (A := store_fields [1; 1; 2; 2; 2; 1; 1]%nat (take 7 (vals h))).
  set (B := store_fields [4; 4]%nat [source_address h; destination_address h]).
  assert (HA : zlen A mod 2 = 0) by (unfold zlen, A; by rewrite length_store_fields).
  assert (HE : ∀ c, mem (with_checksum c h) = A ++ le_bytes 2 c ++ B).
  { intros c'. unfold mem, A, B, vals, with_checksum. cbn. by rewrite <-!app_assoc. }
  rewrite !HE, <-!app_assoc.
  rewrite !(Checksum.word_sum_app A) by done.
  rewrite !(Checksum.word_sum_app (le_bytes 2 _)) by (by rewrite zlen_le_bytes).
  rewrite !word_sum_field. change (ntoh16 (hton16 0)) with 0. lia.
Qed.

(** [ipv4_checksum] computes the complement of the ones' complement sum. *)
Lemma ipv4_checksum_ones h extra : bytes extra → zlen extra mod 2 = 0 → zlen extra <= 65535 →
  ntoh16 (ipv4_checksum h extra) = 65535 - Checksum.ones_sum (Checksum.word_sum (mem h ++ extra)).
Proof.
  intros HB HE HL. unfold ipv4_checksum.
  pose proof (Checksum.word_sum_bound (mem h) (ip4_bytes_mem h)) as H1. rewrite ip4_zlen_mem in H1.
  pose proof (Checksum.word_sum_bound extra HB) as H2.
  assert ((zlen extra + 1) / 2 <= 32768) by (apply Z.div_le_upper_bound; lia). change ((20 + 1) / 2) with 10 in H1.
  rewrite (Checksum.add_words_sum (mem h)); [|apply ip4_bytes_mem|by rewrite ip4_zlen_mem|lia|unfold UINT32_MAX; lia].
  rewrite Checksum.add_words_sum; [|done|done|lia|unfold UINT32_MAX; lia].
  rewrite Checksum.fold_carry_ones by (unfold UINT32_MAX; lia).
  rewrite Checksum.word_sum_app by (by rewrite ip4_zlen_mem). rewrite Z.add_0_l.
  set (n := Checksum.word_sum (mem h) + Checksum.word_sum extra).
  destruct (Checksum.ones_sum_range n) as [Hr _]; [unfold n; lia|].
  rewrite ntoh16_hton16, (u16_small (u16 _)) by apply u16_range. unfold u16, Z.lnot.
  replace (Z.pred (- Checksum.ones_sum n)) with (65535 - Checksum.ones_sum n + (-1) * 65536) by lia.
  rewrite Z.mod_add, Z.mod_small; lia.
Qed.

Lemma get_version h : 0 <= version4_ihl4 h <= 255 → IPV4_GET_VERSION h = version4_ihl4 h / 16.
Proof.
  intros Hv. unfold IPV4_GET_VERSION. rewrite Z.shiftr_land. change (Z.shiftr 240 4) with (Z.ones 4).
  rewrite Z.land_ones, Z.shiftr_div_pow2 by lia. apply Z.mod_small. change (2 ^ 4) with 16.
  split; [apply Z.div_pos; lia|apply Z.div_lt_upper_bound; lia].
Qed.

Lemma get_header_len h : u16 (IPV4_GET_IHL h * 4) = 4 * (version4_ihl4 h mod 16).
Proof.
  unfold IPV4_GET_IHL. rewrite Z.shiftr_0_r. change 15 with (Z.ones 4). rewrite Z.land_ones by lia. change (2 ^ 4) with 16.
  pose proof (Z.mod_pos_bound (version4_ihl4 h) 16). rewrite u16_small by (unfold is_u16, UINT16_MAX; lia). lia.
Qed.

Lemma header_fields h : header_ok h →
  0 <= version4_ihl4 h <= 255 ∧ is_u16 (total_length h) ∧ is_u16 (checksum h) ∧ 0 <= protocol h <= 255 ∧
  is_u32 (source_address h) ∧ is_u32 (destination_address h).
Proof.
  intros HO. unfold header_ok, vals, layout, fits in HO.
  repeat match goal with H : Forall2 _ (_ :: _) (_ :: _) |- _ => inversion H; clear H; subst end.
  unfold is_u16, is_u32, UINT16_MAX, UINT32_MAX. cbn in *. lia.
Qed.

(** The check of the checksum field accepts exactly the headers whose words,
    the checksum included, add up to all ones; except that it does not accept
    a checksum field of all ones (minus zero). *)
Lemma checksum_field_ok h extra : header_ok h → version4_ihl4 h / 16 = 4 → bytes extra → zlen extra mod 2 = 0 →
  zlen extra <= 65535 →
  checksum h = ipv4_checksum (with_checksum (hton16 0) h) extra ↔
  Checksum.ones_sum (Checksum.word_sum (mem h ++ extra)) = 65535 ∧ ntoh16 (checksum h) ≠ 65535.
Proof.
  intros HO Hv HB HE HL. destruct (header_fields h HO) as (Hvr & _ & Hc & _).
  assert (Hh : mem h = mem (with_checksum (checksum h) h)) by (by destruct h).
  rewrite Hh, ip4_mem_checksum_sum by done. set (n := Checksum.word_sum (mem (with_checksum (hton16 0) h) ++ extra)).
  assert (Hn : 0 < n).
  { assert (HB' : bytes (mem (with_checksum (hton16 0) h) ++ extra)) by (apply Forall_app; split; [apply ip4_bytes_mem|done]).
    assert (H4 : 4 <= version4_ihl4 h / 16) by lia. apply Z.mul_le_mono_nonneg_r with (p := 16) in H4; [|lia].
    pose proof (Z.mul_div_le (version4_ihl4 h) 16).
    assert (Hf : ∃ r, mem (with_checksum (hton16 0) h) ++ extra = version4_ihl4 h mod 256 :: r) by (eexists; reflexivity).
    destruct Hf as [r Hf]. unfold n. rewrite Hf in *. pose proof (Checksum.word_sum_first _ _ HB'). rewrite Z.mod_small in * by lia. lia. }
  assert (Hcn : 0 <= ntoh16 (checksum h) <= 65535) by (pose proof (hton16_range (checksum h)) as Hr; unfold is_u16, UINT16_MAX in Hr; exact Hr).
  destruct (Checksum.ones_sum_range n) as [Hr Hz]; [lia|].
  assert (Heq : checksum h = ipv4_checksum (with_checksum (hton16 0) h) extra ↔ ntoh16 (checksum h) = 65535 - Checksum.ones_sum n).
  { unfold n. rewrite <-(ipv4_checksum_ones (with_checksum (hton16 0) h) extra) by done. split; [by intros <-|].
    apply ntoh16_inj; [done|apply hton16_range]. }
  rewrite Heq. destruct (Z.eq_dec (ntoh16 (checksum h)) 65535) as [E|E]; [split; [lia|tauto]|].
  rewrite (Checksum.complement_full n) by lia. tauto.
Qed.

(** [ipv4_check] accepts exactly the well-formed IPv4 packets of RFC 791:
    version 4, a header of at least 20 bytes inside the packet, a total length
    between the header length and what was received, and header words (options
    included) whose ones' complement sum is all ones; only a checksum field of
    all ones, which no sender computes, is refused.  The payload is what lies
    between the header and the total length, inside the received bytes. *)
Lemma ipv4_check_exact data h payload : bytes data →
  ipv4_check data = Some (h, payload) ↔
  20 <= zlen data ∧ h = load (slice 0 20 data) ∧ version4_ihl4 h / 16 = 4 ∧
  let header_len := 4 * (version4_ihl4 h mod 16) in
  let total := ntoh16 (total_length h) in
  20 <= header_len <= total ∧ total <= zlen data ∧
  Checksum.ones_sum (Checksum.word_sum (slice 0 header_len data)) = 65535 ∧ ntoh16 (checksum h) ≠ 65535 ∧
  payload = slice header_len (total - header_len) data.
Proof.
  intros HB. unfold ipv4_check. destruct (zlen data <? 20) eqn:Hlen; zb; [split; [done|lia]|].
  set (h0 := load (slice 0 20 data)). cbn zeta.
  assert (HB20 : bytes (slice 0 20 data)) by (by apply Forall_take, Forall_drop).
  assert (HL20 : zlen (slice 0 20 data) = 20) by (apply zlen_slice; lia).
  pose proof (ip4_load_ok _ HB20) as HO. fold h0 in HO. destruct (header_fields h0 HO) as (Hv & _).
  rewrite get_version, get_header_len by done. set (hl := 4 * (version4_ihl4 h0 mod 16)).
  assert (HE : hl mod 2 = 0) by (unfold hl; replace (4 * (version4_ihl4 h0 mod 16)) with ((2 * (version4_ihl4 h0 mod 16)) * 2) by lia; apply Z.mod_mul; lia).
  assert (Hhl : hl <= 60) by (unfold hl; pose proof (Z.mod_pos_bound (version4_ihl4 h0) 16); lia).
  destruct (version4_ihl4 h0 / 16 =? 4) eqn:H4; zb; cbn [negb].
  2:{ split; [done|]. intros (_ & -> & ? & _). done. }
  destruct (hl <? 20) eqn:H20; zb; [split; [done|]; intros (_ & -> & _ & Hx & _); fold h0 hl in Hx; lia|].
  destruct (hl >? zlen data) eqn:Hhd; zb; [split; [done|]; intros (_ & -> & _ & Hx & Hy & _); fold h0 hl in Hx, Hy; lia|].
  set (total := ntoh16 (total_length h0)).
  destruct (total <? hl) eqn:Ht1; zb; [split; [done|]; intros (_ & -> & _ & Hx & _); fold h0 hl total in Hx; lia|].
  destruct (total >? zlen data) eqn:Ht2; zb; [split; [done|]; intros (_ & -> & _ & _ & Hx & _); fold h0 total in Hx; lia|].
  assert (Hsl : slice 0 hl data = mem h0 ++ slice 20 (hl - 20) data).
  { unfold h0. rewrite mem_load by done. replace hl with (20 + (hl - 20)) at 1 by lia. by rewrite slice_split by lia. }
  assert (HBx : bytes (slice 20 (hl - 20) data)) by (by apply Forall_take, Forall_drop).
  assert (HLx : zlen (slice 20 (hl - 20) data) = hl - 20) by (apply zlen_slice; lia).
  pose proof (checksum_field_ok h0 (slice 20 (hl - 20) data) HO H4 HBx) as Hck.
  rewrite HLx, <-Hsl in Hck. rewrite Zminus_mod, HE in Hck. specialize (Hck eq_refl ltac:(lia)).
  destruct (checksum h0 =? _) eqn:Hc; zb; cbn [negb].
  - apply Hck in Hc as [Hc1 Hc2]. split.
    + intros [= <- <-]. fold h0 hl total. split_and!; try done; lia.
    + by intros (_ & -> & _ & _ & _ & _ & _ & ->).
  - split; [done|]. intros (_ & -> & _ & _ & _ & Hx & Hy & _). destruct Hc. by apply Hck.
Qed.

Lemma ipv4_check_exact_witness :
  let data := [69; 0; 0; 21; 0; 0; 0; 0; 64; 17; 102; 214; 10; 0; 0; 1; 10; 0; 0; 2; 7; 99] in
  ∃ h, ipv4_check data = Some (h, [7]) ∧ Checksum.ones_sum (Checksum.word_sum (slice 0 20 data)) = 65535.
Proof.
  intros data. eexists. split; [|reflexivity]. apply (ipv4_check_exact data).
  - repeat constructor; done.
  - split; [done|]. split; [reflexivity|]. by vm_compute.
Defined.

#[global] Arguments mem : simpl never.
#[global] Arguments load : simpl never.

End Ipv4.

(** ** UDP ([misc/udp_proto.h]) *)

Module Udp.

Record udp_header := mk { source_port : Z; dest_port : Z; length : Z; checksum : Z }.

Definition layout : list nat := [2; 2; 2; 2]%nat.
Definition vals (h : udp_header) : list Z := [source_port h; dest_port h; length h; checksum h].
Definition mem (h : udp_header) : list Z := store_fields layout (vals h).
Definition load (l : list Z) : udp_header := mk (field 0 2 l) (field 2 2 l) (field 4 2 l) (field 6 2 l).
Definition header_ok (h : udp_header) : Prop := Forall2 fits layout (vals h).
Definition with_checksum (c : Z) (h : udp_header) : udp_header := mk (source_port h) (dest_port h) (length h) c.

Definition udp_checksum_summer (l : list Z) : Z := Checksum.add_words 0 l.

(** The payload, with a zero byte after an odd last byte. *)
Definition sum_payload (t : Z) (payload : list Z) : Z :=
  let payload_len := zlen payload in
  if payload_len mod 2 =? 0 then u32 (t + udp_checksum_summer payload)
  else
    let t := u32 (t + udp_checksum_summer (slice 0 (payload_len - 1) payload)) in
    let x := hton16 (u16 (Z.shiftl (default 0 (last payload)) 8)) in
    u32 (t + udp_checksum_summer (le_bytes 2 x)).

(** The carries, and the complement. *)
Definition finish (t : Z) : Z :=
  let t := Checksum.fold_carry 4 t in
  let t := if t =? 0 then UINT16_MAX else t in
  hton16 (u16 (Z.lnot t)).

Definition udp_checksum (h : udp_header) (payload : list Z) (source_addr dest_addr : Z) : Z :=
  let t := u32 (0 + udp_checksum_summer (le_bytes 4 source_addr)) in
  let t := u32 (t + udp_checksum_summer (le_bytes 4 dest_addr)) in
  let t := u32 (t + udp_checksum_summer (le_bytes 2 (hton16 Ipv4.IPV4_PROTOCOL_UDP))) in
  let t := u32 (t + udp_checksum_summer (le_bytes 2 (hton16 (8 + u16 (zlen payload))))) in
  let t := u32 (t + udp_checksum_summer (mem h)) in
  finish (sum_payload t payload).

Definition IPV6_NEXT_UDP : Z := 17.

Definition udp_ip6_checksum (h : udp_header) (payload : list Z) (source_addr dest_addr : list Z) : Z :=
  let t := u32 (0 + udp_checksum_summer source_addr) in
  let t := u32 (t + udp_checksum_summer dest_addr) in
  let t := u32 (t + udp_checksum_summer (le_bytes 4 (hton32 (8 + u16 (zlen payload))))) in
  let t := u32 (t + udp_checksum_summer (le_bytes 4 (hton32 IPV6_NEXT_UDP))) in
  let t := u32 (t + udp_checksum_summer (mem h)) in
  finish (sum_payload t payload).

Definition udp_check (data : list Z) : option (udp_header * list Z) :=
  if zlen data <? 8 then None
  else
    let h := load (slice 0 8 data) in
    let udp_length := ntoh16 (length h) in
    if udp_length <? 8 then None
    else if udp_length >? 8 + (zlen data - 8) then None
    else Some (h, slice 8 (udp_length - 8) data).

(** The pseudo header of RFC 768, and that of RFC 2460. *)
Definition pseudo4 (source_addr dest_addr len : Z) : list Z :=
  le_bytes 4 source_addr ++ le_bytes 4 dest_addr ++ be_bytes 2 17 ++ be_bytes 2 (8 + len).
Definition pseudo6 (source_addr dest_addr : list Z) (len : Z) : list Z :=
  source_addr ++ dest_addr ++ be_bytes 4 (8 + len) ++ be_bytes 4 17.

Lemma udp_zlen_mem h : zlen (mem h) = 8.
Proof. unfold zlen, mem. by rewrite length_store_fields. Qed.
Lemma udp_bytes_mem h : bytes (mem h).
Proof. apply bytes_store_fields. Qed.
Lemma udp_load_vals l : vals (load l) = load_fields layout l.
Proof. unfold vals, load, field, slice. cbn. by rewrite !drop_drop. Qed.
Lemma udp_load_mem h rest : header_ok h → load (mem h ++ rest) = h.
Proof.
  intros HO. assert (E : vals (load (mem h ++ rest)) = vals h) by (rewrite udp_load_vals; by apply load_store).
  revert E. generalize (load (mem h ++ rest)). intros h' E. destruct h, h'. unfold vals in E. cbn in E. congruence.
Qed.
Lemma udp_load_ok l : bytes l → header_ok (load l).
Proof. intros HB. unfold header_ok. rewrite udp_load_vals. by apply load_fits. Qed.

(** One more summand, of an even number of bytes. *)
Lemma add_part t l : bytes l → zlen l mod 2 = 0 → 0 <= t → t + Checksum.word_sum l <= UINT32_MAX →
  u32 (t + udp_checksum_summer l) = t + Checksum.word_sum l.
Proof.
  intros HB HE Ht Hov. unfold udp_checksum_summer. pose proof (Checksum.word_sum_bound l HB).
  rewrite Checksum.add_words_sum by (done || lia). rewrite Z.add_0_l. apply u32_small. unfold is_u32. lia.
Qed.

Lemma sum_payload_ok t payload : bytes payload → 0 <= t → t + Checksum.word_sum payload <= UINT32_MAX →
  sum_payload t payload = t + Checksum.word_sum payload.
Proof.
  intros HB Ht Hov. unfold sum_payload. destruct (zlen payload mod 2 =? 0) eqn:HE; zb; [by apply add_part|].
  destruct payload as [|b payload _] using rev_ind; [done|]. rewrite last_snoc. cbn [default from_option id].
  apply Forall_app in HB as [HB Hb]. inversion Hb as [|? ? Hb0 _]; subst. unfold is_u8, UINT8_MAX in Hb0.
  assert (HL : zlen (payload ++ [b]) = zlen payload + 1) by (by rewrite zlen_app).
  rewrite HL in *. replace (zlen payload + 1 - 1) with (zlen payload) by lia. rewrite slice_prefix.
  assert (HE' : zlen payload mod 2 = 0).
  { pose proof (Z.mod_pos_bound (zlen payload) 2). rewrite Z.add_mod in HE by lia. change (1 mod 2) with 1 in HE.
    assert (zlen payload mod 2 = 0 ∨ zlen payload mod 2 = 1) as [?|E] by lia; [done|]. by rewrite E in HE. }
  rewrite Checksum.word_sum_app in * by done. cbn [Checksum.word_sum] in *. pose proof (Checksum.word_sum_bound payload HB).
  assert (HS : u16 (Z.shiftl b 8) = 256 * b).
  { rewrite Z.shiftl_mul_pow2 by lia. rewrite u16_small; unfold is_u16, UINT16_MAX; lia. }
  assert (HS' : ntoh16 (hton16 (256 * b)) = 256 * b).
  { rewrite ntoh16_hton16. apply u16_small. unfold is_u16, UINT16_MAX. lia. }
  rewrite (add_part t payload), HS by (done || lia).
  rewrite add_part; rewrite ?word_sum_field, ?HS'; [lia|apply bytes_le_bytes|done|lia|lia].
Qed.

Lemma finish_ok n : 0 < n <= UINT32_MAX → ntoh16 (finish n) = 65535 - Checksum.ones_sum n.
Proof.
  intros Hn. unfold finish. rewrite Checksum.fold_carry_ones by lia. destruct (Checksum.ones_sum_range n) as [Hr Hz]; [lia|].
  rewrite (proj2 (Z.eqb_neq (Checksum.ones_sum n) 0)) by lia.
  rewrite ntoh16_hton16, (u16_small (u16 _)) by apply u16_range. unfold u16, Z.lnot.
  replace (Z.pred (- Checksum.ones_sum n)) with (65535 - Checksum.ones_sum n + (-1) * 65536) by lia.
  rewrite Z.mod_add, Z.mod_small; lia.
Qed.

Definition even_bytes (l : list Z) : Prop := bytes l ∧ zlen l mod 2 = 0.

Lemma parts_sum parts : Forall even_bytes parts → ∀ t, 0 <= t → t + Checksum.word_sum (mjoin parts) <= UINT32_MAX →
  foldl (λ t l, u32 (t + udp_checksum_summer l)) t parts = t + Checksum.word_sum (mjoin parts).
Proof.
  induction 1 as [|l parts [HB HE] HF IH]; intros t Ht Hov; cbn [foldl]; [cbn; lia|].
  change (mjoin (l :: parts)) with (l ++ mjoin parts) in Hov |- *.
  assert (HBj : bytes (mjoin parts)).
  { clear -HF. induction HF as [|? ? [? _] _ IH]; [constructor|]. by apply Forall_app. }
  pose proof (Checksum.word_sum_bound _ HBj). pose proof (Checksum.word_sum_bound _ HB).
  rewrite Checksum.word_sum_app in Hov |- * by done. rewrite (add_part t l) by (done || lia). rewrite IH by lia. lia.
Qed.

(** Both checksums are the complement of the ones' complement sum of parts
    that contain the number 17. *)
Lemma checksum_parts parts payload : Forall even_bytes parts → bytes payload → zlen payload <= 65535 →
  0 < Checksum.word_sum (mjoin parts) → zlen (mjoin parts) <= 65535 →
  ntoh16 (finish (sum_payload (foldl (λ t l, u32 (t + udp_checksum_summer l)) 0 parts) payload)) =
  65535 - Checksum.ones_sum (Checksum.word_sum (mjoin parts ++ payload)).
Proof.
  intros HF HB HL Hpos HLp.
  assert (HBj : even_bytes (mjoin parts)).
  { clear -HF. induction HF as [|l parts [HB HE] _ [IH1 IH2]]; [by split; [constructor|]|].
    change (mjoin (l :: parts)) with (l ++ mjoin parts). split; [by apply Forall_app|].
    rewrite zlen_app, Z.add_mod, HE by lia. by rewrite IH2. }
  destruct HBj as [HBj HEj]. pose proof (Checksum.word_sum_bound _ HBj). pose proof (Checksum.word_sum_bound _ HB).
  assert ((zlen (mjoin parts) + 1) / 2 <= 32768) by (apply Z.div_le_upper_bound; lia).
  assert ((zlen payload + 1) / 2 <= 32768) by (apply Z.div_le_upper_bound; lia).
  rewrite parts_sum by (done || unfold UINT32_MAX; lia). rewrite sum_payload_ok by (done || unfold UINT32_MAX; lia).
  rewrite Checksum.word_sum_app, Z.add_0_l by done. apply finish_ok. unfold UINT32_MAX. lia.
Qed.

Lemma udp_checksum_ones h payload src dst : bytes payload → zlen payload <= 65535 →
  ntoh16 (udp_checksum h payload src dst) =
  65535 - Checksum.ones_sum (Checksum.word_sum (pseudo4 src dst (zlen payload) ++ mem h ++ payload)).
Proof.
  intros HB HL. pose proof (zlen_nonneg payload).
  set (parts := [le_bytes 4 src; le_bytes 4 dst; be_bytes 2 17; be_bytes 2 (8 + zlen payload); mem h]).
  assert (Hj : mjoin parts = pseudo4 src dst (zlen payload) ++ mem h).
  { unfold pseudo4. cbn [mjoin list_join parts]. by rewrite app_nil_r, <-!app_assoc. }
  assert (HF : Forall even_bytes parts).
  { unfold parts. repeat apply Forall_cons_2; try apply Forall_nil_2; split;
      try (apply bytes_le_bytes || apply bytes_be_bytes || apply udp_bytes_mem); by rewrite ?zlen_le_bytes, ?zlen_be_bytes, ?udp_zlen_mem. }
  rewrite app_assoc, <-Hj, <-(checksum_parts parts payload HF HB HL).
  - unfold udp_checksum. rewrite !hton16_bytes, u16_small by (unfold is_u16, UINT16_MAX; lia). done.
  - cbn [mjoin list_join parts]. rewrite !Checksum.word_sum_app by (by rewrite ?zlen_le_bytes, ?zlen_be_bytes, ?udp_zlen_mem).
    pose proof (Checksum.word_sum_bound _ (bytes_le_bytes 4 src)). pose proof (Checksum.word_sum_bound _ (bytes_le_bytes 4 dst)).
    pose proof (Checksum.word_sum_bound _ (bytes_be_bytes 2 (8 + zlen payload))). pose proof (Checksum.word_sum_bound _ (udp_bytes_mem h)).
    change (Checksum.word_sum (be_bytes 2 17)) with 17. cbn [Checksum.word_sum]. lia.
  - rewrite Hj. unfold pseudo4. rewrite !zlen_app, !zlen_le_bytes, !zlen_be_bytes, udp_zlen_mem. lia.
Qed.

Lemma udp_ip6_checksum_ones h payload src dst : bytes payload → zlen payload <= 65535 →
  bytes src → zlen src = 16 → bytes dst → zlen dst = 16 →
  ntoh16 (udp_ip6_checksum h payload src dst) =
  65535 - Checksum.ones_sum (Checksum.word_sum (pseudo6 src dst (zlen payload) ++ mem h ++ payload)).
Proof.
  intros HB HL HBs HLs HBd HLd. pose proof (zlen_nonneg payload).
  set (parts := [src; dst; be_bytes 4 (8 + zlen payload); be_bytes 4 17; mem h]).
  assert (Hj : mjoin parts = pseudo6 src dst (zlen payload) ++ mem h).
  { unfold pseudo6. cbn [mjoin list_join parts]. by rewrite app_nil_r, <-!app_assoc. }
  assert (HF : Forall even_bytes parts).
  { unfold parts. repeat apply Forall_cons_2; try apply Forall_nil_2; split;
      try (done || apply bytes_be_bytes || apply udp_bytes_mem); by rewrite ?HLs, ?HLd, ?zlen_be_bytes, ?udp_zlen_mem. }
  rewrite app_assoc, <-Hj, <-(checksum_parts parts payload HF HB HL).
  - unfold udp_ip6_checksum. rewrite !hton32_bytes, u16_small by (unfold is_u16, UINT16_MAX; lia). done.
  - cbn [mjoin list_join parts]. rewrite !Checksum.word_sum_app by (by rewrite ?HLs, ?HLd, ?zlen_be_bytes, ?udp_zlen_mem).
    pose proof (Checksum.word_sum_bound _ HBs). pose proof (Checksum.word_sum_bound _ HBd).
    pose proof (Checksum.word_sum_bound _ (bytes_be_bytes 4 (8 + zlen payload))). pose proof (Checksum.word_sum_bound _ (udp_bytes_mem h)).
    change (Checksum.word_sum (be_bytes 4 17)) with 17. cbn [Checksum.word_sum]. lia.
  - rewrite Hj. unfold pseudo6. rewrite !zlen_app, !zlen_be_bytes, udp_zlen_mem. lia.
Qed.

(** The checksum field is the last word of the header. *)
Lemma udp_mem_checksum_sum c h pre payload : zlen pre mod 2 = 0 →
  Checksum.word_sum (pre ++ mem (with_checksum c h) ++ payload) =
  Checksum.word_sum (pre ++ mem (with_checksum 0 h) ++ payload) + ntoh16 c.
Proof.
  intros HE. set (A := store_fields [2; 2; 2]%nat [source_port h; dest_port h; length h]).
  assert (HA : zlen A mod 2 = 0) by (unfold zlen, A; by rewrite length_store_fields).
  assert (Hm : ∀ c, mem (with_checksum c h) = A ++ le_bytes 2 c).
  { intros c'. unfold mem, A, vals, with_checksum. cbn. by rewrite app_nil_r, <-!app_assoc. }
  rewrite !(Checksum.word_sum_app pre) by done. rewrite !Hm, <-!app_assoc, !(Checksum.word_sum_app A) by done.
  rewrite !(Checksum.word_sum_app (le_bytes 2 _)) by (by rewrite zlen_le_bytes). rewrite !word_sum_field.
  change (ntoh16 0) with 0. lia.
Qed.

(** The UDP checksum over IPv4.  The value [udp_checksum] computes for a
    header makes the ones' complement sum of pseudo header, header and payload
    all ones, as RFC 768 asks.  It is never all ones itself: where that sum is
    all ones already, the code returns zero, which RFC 768 reserves for
    "no checksum" and replaces by all ones. *)
Lemma udp_checksum_rfc h payload src dst : bytes payload → zlen payload <= 65535 →
  let c := udp_checksum (with_checksum 0 h) payload src dst in
  let pre := pseudo4 src dst (zlen payload) in
  Checksum.ones_sum (Checksum.word_sum (pre ++ mem (with_checksum c h) ++ payload)) = 65535 ∧
  ntoh16 c ≠ 65535 ∧
  (ntoh16 c = 0 ↔ Checksum.ones_sum (Checksum.word_sum (pre ++ mem (with_checksum 0 h) ++ payload)) = 65535).
Proof.
  intros HB HL c pre. pose proof (zlen_nonneg payload) as Hlen.
  assert (HE : zlen pre mod 2 = 0) by (unfold pre, pseudo4; by rewrite !zlen_app, !zlen_le_bytes, !zlen_be_bytes).
  rewrite udp_mem_checksum_sum by done. set (n := Checksum.word_sum (pre ++ mem (with_checksum 0 h) ++ payload)).
  assert (Hc : ntoh16 c = 65535 - Checksum.ones_sum n) by (by apply udp_checksum_ones).
  assert (Hn : 0 < n).
  { assert (HBm : bytes (mem (with_checksum 0 h) ++ payload)) by (apply Forall_app; split; [apply udp_bytes_mem|done]).
    unfold n, pre, pseudo4. rewrite <-!app_assoc.
    rewrite !Checksum.word_sum_app by (by rewrite ?zlen_le_bytes, ?zlen_be_bytes, ?udp_zlen_mem).
    change (Checksum.word_sum (be_bytes 2 17)) with 17.
    pose proof (Checksum.word_sum_bound _ (bytes_le_bytes 4 src)). pose proof (Checksum.word_sum_bound _ (bytes_le_bytes 4 dst)).
    pose proof (Checksum.word_sum_bound _ (bytes_be_bytes 2 (8 + zlen payload))). pose proof (Checksum.word_sum_bound _ HB).
    pose proof (Checksum.word_sum_bound _ (udp_bytes_mem (with_checksum 0 h))). lia. }
  destruct (Checksum.ones_sum_range n) as [Hr Hz]; [lia|]. split_and!; [|lia|lia].
  apply Checksum.complement_full; lia.
Qed.

Lemma udp_checksum_rfc_witness :
  let c := udp_checksum (with_checksum 0 (mk 1 2 3 0)) [1; 2; 3] 5 6 in
  Checksum.ones_sum (Checksum.word_sum (pseudo4 5 6 3 ++ mem (with_checksum c (mk 1 2 3 0)) ++ [1; 2; 3])) = 65535.
Proof.
  destruct (udp_checksum_rfc (mk 1 2 3 0) [1; 2; 3] 5 6) as [H _].
  - repeat constructor; done.
  - done.
  - exact H.
Defined.

#[global] Arguments mem : simpl never.
#[global] Arguments load : simpl never.

End Udp.

(** ** IPv6 ([misc/ipv6_proto.h]) *)

Module Ipv6.

Record ipv6_header := mk {
  version4_tc4 : Z;
  tc4_fl4 : Z;
  fl : Z;
  payload_length : Z;
  next_header : Z;
  hop_limit : Z;
  source_address : list Z;
  destination_address : list Z
}.

Definition layout : list nat := [1; 1; 2; 2; 1; 1]%nat.
Definition vals (h : ipv6_header) : list Z :=
  [version4_tc4 h; tc4_fl4 h; fl h; payload_length h; next_header h; hop_limit h].
Definition mem (h : ipv6_header) : list Z :=
  store_fields layout (vals h) ++ source_address h ++ destination_address h.
Definition load (l : list Z) : ipv6_header :=
  mk (field 0 1 l) (field 1 1 l) (field 2 2 l) (field 4 2 l) (field 6 1 l) (field 7 1 l) (slice 8 16 l) (slice 24 16 l).
Definition header_ok (h : ipv6_header) : Prop :=
  Forall2 fits layout (vals h) ∧ bytes (source_address h) ∧ zlen (source_address h) = 16 ∧
  bytes (destination_address h) ∧ zlen (destination_address h) = 16.

Definition ipv6_check (data : list Z) : option (ipv6_header * list Z) :=
  if zlen data <? 40 then None
  else
    let h := load (slice 0 40 data) in
    if negb (Z.shiftr (version4_tc4 h) 4 =? 6) then None
    else
      let payload_length := ntoh16 (payload_length h) in
      if payload_length >? zlen data - 40 then None
      else Some (h, slice 40 payload_length data).

Lemma ip6_zlen_mem h : header_ok h → zlen (mem h) = 40.
Proof.
  intros (_ & _ & Hs & _ & Hd). unfold mem. rewrite !zlen_app, Hs, Hd. unfold zlen. by rewrite length_store_fields.
Qed.

Lemma ip6_load_vals l : vals (load l) = load_fields layout l.
Proof. unfold vals, load, field, slice. cbn. by rewrite !drop_drop. Qed.

Lemma ip6_load_mem h rest : header_ok h → load (mem h ++ rest) = h.
Proof.
  intros (HO & _ & Hs & _ & Hd). set (A := store_fields layout (vals h)).
  assert (HA : zlen A = 8) by (unfold zlen, A; by rewrite length_store_fields).
  assert (HS : source_address (load (mem h ++ rest)) = source_address h).
  { change (slice 8 16 ((A ++ source_address h ++ destination_address h) ++ rest) = source_address h).
    rewrite <-!app_assoc. rewrite slice_app_r, HA by lia. change (8 - 8) with 0.
    rewrite <-Hs. apply slice_prefix. }
  assert (HD : destination_address (load (mem h ++ rest)) = destination_address h).
  { change (slice 24 16 ((A ++ source_address h ++ destination_address h) ++ rest) = destination_address h).
    rewrite <-!app_assoc. rewrite slice_app_r, HA by lia. rewrite slice_app_r, Hs by lia. change (24 - 8 - 16) with 0. rewrite <-Hd. apply slice_prefix. }
  assert (E : vals (load (mem h ++ rest)) = vals h).
  { rewrite ip6_load_vals. unfold mem. rewrite <-!app_assoc. by apply load_store. }
  revert E HS HD. generalize (load (mem h ++ rest)). intros h' E HS HD. destruct h, h'. unfold vals in E. cbn in *. congruence.
Qed.

Lemma ip6_load_ok l : bytes l → zlen l = 40 → header_ok (load l).
Proof.
  intros HB HL. unfold header_ok. rewrite ip6_load_vals. split_and!; [by apply load_fits| | | |];
    try (by apply Forall_take, Forall_drop); apply zlen_slice; lia.
Qed.

#[global] Arguments mem : simpl never.
#[global] Arguments load : simpl never.

End Ipv6.
