(* ===== verification/DevicePackets.v ===== *)
(** * Packets of the TUN device ([tun2socks/tun2socks.c])

    What happens to a packet read from the device: queries to the DNS gateway
    and its answers are rewritten and sent back to the device, other UDP
    packets go to the UDP gateway, everything else to the TCP/IP stack; and
    how packets from the UDP gateway and from the stack are written to the
    device.  The stack (lwIP) and the device are parameters: they appear as
    the calls made to them. *)

From S2P Require Import Prelude Net IpUdp.

(** The options and addresses in effect; [device_mtu] is also the size of
    [device_write_buf]. *)
Record settings := mkSettings {
  have_dnsgw : bool;
  dnsgw_ip : Z;
  dnsgw_port : Z;
  have_udpgw : bool;
  udpgw_transparent_dns : bool;
  netif_ipaddr : Z;
  have_ip6addr : bool;
  udp_mtu : Z;
  device_mtu : Z
}.

(** ** Connections to the DNS gateway *)

Record Connection := mkConnection { local_addr : BAddr; remote_addr : BAddr; count : Z }.

(** The tree, by port, once [BAVL_Init] was called; [quitting]. *)
Record device := mkDevice {
  init : bool;
  connections_tree : gmap Z Connection;
  quitting : bool
}.

Definition set_connections (b : bool) (t : gmap Z Connection) (d : device) : device := mkDevice b t (quitting d).

Inductive eff :=
  | BTap_Send (packet : list Z)
  | SubmitPacket (local remote : BAddr) (is_dns : bool) (data : list Z)
  | ip_input (packet : list Z)
  | ip6_input (packet : list Z)
  | pbuf_free.

Definition DM := M device eff.

Definition find_connection (port : Z) : DM (option Connection) :=
  d ← get;
  mret (connections_tree d !! port).

Definition remove_connection (port : Z) (con : Connection) : DM unit :=
  let con := mkConnection (local_addr con) (remote_addr con) (count con - 1) in
  modify (λ d, set_connections (init d)
    (if count con <=? 0 then delete port (connections_tree d) else <[port := con]> (connections_tree d)) d).

(** The allocation of a new connection is not checked in the source; here it
    succeeds. *)
Definition insert_connection (local remote : BAddr) (port : Z) : DM unit :=
  con ← find_connection port;
  match con with
  | Some con =>
      modify (λ d, set_connections (init d)
        (<[port := mkConnection (local_addr con) (remote_addr con) (count con + 1)]> (connections_tree d)) d)
  | None =>
      modify (λ d, set_connections (init d) (<[port := mkConnection local remote 1]> (connections_tree d)) d)
  end.

Definition free_connections : DM unit := modify (λ d, set_connections (init d) ∅ d).

(** [addr.ipv4] of an address. *)
Definition ipv4_ip (a : BAddr) : Z := match a with BAddr_MakeIPv4 ip _ => ip | _ => 0 end.
Definition ipv4_port (a : BAddr) : Z := match a with BAddr_MakeIPv4 _ port => port | _ => 0 end.

Section Device.
Context (o : settings).

(** Copying a packet into [device_write_buf] and sending it. *)
Definition send_packet (packet : list Z) : DM unit :=
  ASSERT (zlen packet <=? device_mtu o);;
  emit (BTap_Send packet).

(** The beginning that both functions have in common: headers and payload of
    an IPv4 packet with UDP and a right checksum; the checksum field of the
    returned UDP header is zero. *)
Definition receive_udp4 (data : list Z) : option (Ipv4.ipv4_header * Udp.udp_header * list Z) :=
  if (zlen data <? 20) || negb (field 9 1 data =? Ipv4.IPV4_PROTOCOL_UDP) then None
  else
    '(ipv4_header, data) ← Ipv4.ipv4_check data;
    '(udp_header, data) ← Udp.udp_check data;
    let checksum_in_packet := Udp.checksum udp_header in
    let udp_header := Udp.with_checksum 0 udp_header in
    let checksum_computed :=
      Udp.udp_checksum udp_header data (Ipv4.source_address ipv4_header) (Ipv4.destination_address ipv4_header) in
    if negb (checksum_in_packet =? checksum_computed) then None
    else Some (ipv4_header, udp_header, data).

(** The end of building a packet: both checksums. *)
Definition finish_udp4 (iph : Ipv4.ipv4_header) (udph : Udp.udp_header) (data : list Z) : list Z :=
  let iph := Ipv4.with_checksum (hton16 0) iph in
  let iph := Ipv4.with_checksum (Ipv4.ipv4_checksum iph []) iph in
  let udph := Udp.with_checksum (hton16 0) udph in
  let udph := Udp.with_checksum (Udp.udp_checksum udph data (Ipv4.source_address iph) (Ipv4.destination_address iph)) udph in
  Ipv4.mem iph ++ Udp.mem udph ++ data.

Definition with_addresses (src dst : Z) (h : Ipv4.ipv4_header) : Ipv4.ipv4_header :=
  Ipv4.mk (Ipv4.version4_ihl4 h) (Ipv4.ds h) (Ipv4.total_length h) (Ipv4.identification h) (Ipv4.flags3_fragmentoffset13 h)
    (Ipv4.ttl h) (Ipv4.protocol h) (Ipv4.checksum h) src dst.
Definition with_ports (src dst : Z) (h : Udp.udp_header) : Udp.udp_header :=
  Udp.mk src dst (Udp.length h) (Udp.checksum h).

(** [data[0] >> 4], or zero. *)
Definition ip_version (data : list Z) : Z := if 0 <? zlen data then Z.shiftr (field 0 1 data) 4 else 0.

Definition process_device_dns_packet (data : list Z) : DM bool :=
  if negb (have_dnsgw o) then mret false
  else if negb (ip_version data =? 4) then mret false
  else
    match receive_udp4 data with
    | None => mret false
    | Some (iph, udph, payload) =>
        let to_dns := Udp.dest_port udph =? hton16 53 in
        let from_dns := Udp.source_port udph =? dnsgw_port o in
        if negb to_dns && negb from_dns then mret false
        else if to_dns then
          modify (λ d, if init d then d else set_connections true ∅ d);;
          insert_connection (BAddr_MakeIPv4 (Ipv4.source_address iph) (Udp.source_port udph))
            (BAddr_MakeIPv4 (Ipv4.destination_address iph) (Udp.dest_port udph)) (Udp.source_port udph);;
          let iph := with_addresses (netif_ipaddr o) (dnsgw_ip o) iph in
          let udph := with_ports (Udp.source_port udph) (dnsgw_port o) udph in
          send_packet (finish_udp4 iph udph payload);;
          mret true
        else
          d ← get;
          if negb (init d) then mret false
          else
            con ← find_connection (Udp.dest_port udph);
            match con with
            | None => mret false
            | Some con =>
                let iph := with_addresses (ipv4_ip (remote_addr con)) (ipv4_ip (local_addr con)) iph in
                let port := Udp.dest_port udph in
                let udph := with_ports (ipv4_port (remote_addr con)) port udph in
                remove_connection port con;;
                send_packet (finish_udp4 iph udph payload);;
                mret true
            end
    end.

(** The IPv6 case of [process_device_udp_packet]. *)
Definition receive_udp6 (data : list Z) : option (Ipv6.ipv6_header * Udp.udp_header * list Z) :=
  if (zlen data <? 40) || negb (field 6 1 data =? Udp.IPV6_NEXT_UDP) then None
  else
    '(ipv6_header, data) ← Ipv6.ipv6_check data;
    '(udp_header, data) ← Udp.udp_check data;
    let checksum_in_packet := Udp.checksum udp_header in
    let udp_header := Udp.with_checksum 0 udp_header in
    let checksum_computed :=
      Udp.udp_ip6_checksum udp_header data (Ipv6.source_address ipv6_header) (Ipv6.destination_address ipv6_header) in
    if negb (checksum_in_packet =? checksum_computed) then None
    else Some (ipv6_header, udp_header, data).

(** Addresses, kind and payload of a packet for the UDP gateway. *)
Definition classify_udp (data : list Z) : option (BAddr * BAddr * bool * list Z) :=
  if ip_version data =? 4 then
    '(iph, udph, payload) ← receive_udp4 data;
    Some (BAddr_MakeIPv4 (Ipv4.source_address iph) (Udp.source_port udph),
          BAddr_MakeIPv4 (Ipv4.destination_address iph) (Udp.dest_port udph),
          udpgw_transparent_dns o && (Ipv4.destination_address iph =? netif_ipaddr o) &&
          (Udp.dest_port udph =? hton16 53), payload)
  else if ip_version data =? 6 then
    if negb (have_ip6addr o) then None
    else
      '(iph, udph, payload) ← receive_udp6 data;
      Some (BAddr_MakeIPv6 (Ipv6.source_address iph) (Udp.source_port udph),
            BAddr_MakeIPv6 (Ipv6.destination_address iph) (Udp.dest_port udph), false, payload)
  else None.

Definition process_device_udp_packet (data : list Z) : DM bool :=
  if negb (have_udpgw o) then mret false
  else
    match classify_udp data with
    | None => mret false
    | Some (local, remote, is_dns, payload) =>
        if zlen payload >? udp_mtu o then mret false
        else emit (SubmitPacket local remote is_dns payload);; mret true
    end.

(** A packet buffer of the stack is the list of its chunks; [ok]: the stack
    accepts the packet ([ERR_OK]). *)
Definition netif_input_func (ok : bool) (p : list (list Z)) : DM bool :=
  let version := match p with c :: _ => ip_version c | [] => 0 end in
  if version =? 4 then emit (ip_input (mjoin p));; mret ok
  else if (version =? 6) && have_ip6addr o then emit (ip6_input (mjoin p));; mret ok
  else emit pbuf_free;; mret true.

(** The end of [device_read_handler_send]; [pbuf]: the chunks [pbuf_alloc]
    makes for the packet, if it succeeds. *)
Definition pass_to_stack (pbuf : option (list Z → list (list Z))) (ok : bool) (data : list Z) : DM unit :=
  if zlen data >? UINT16_MAX then mret tt
  else
    match pbuf with
    | None => mret tt
    | Some chunks =>
        err ← netif_input_func ok (chunks data);
        when (negb err) (emit pbuf_free)
    end.

Definition device_read_handler_send (pbuf : option (list Z → list (list Z))) (ok : bool) (data : list Z) : DM unit :=
  d ← get;
  ASSERT (negb (quitting d));;
  dns ← process_device_dns_packet data;
  if (dns : bool) then mret tt
  else
    udp ← process_device_udp_packet data;
    if (udp : bool) then mret tt
    else pass_to_stack pbuf ok data.

(** The loop over the chunks: [buf] is what was copied so far. *)
Fixpoint copy_chunks (buf : list Z) (p : list (list Z)) : option (list Z) :=
  match p with
  | [] => Some buf
  | c :: p' => if zlen c >? device_mtu o - zlen buf then None else copy_chunks (buf ++ c) p'
  end.

Definition common_netif_output (p : list (list Z)) : DM unit :=
  d ← get;
  if quitting d then mret tt
  else
    match p with
    | [c] => if zlen c >? device_mtu o then mret tt else send_packet c
    | _ =>
        match copy_chunks [] p with
        | None => mret tt
        | Some buf => send_packet buf
        end
    end.

Definition udpgw_client_handler_received (local remote : BAddr) (data : list Z) : DM unit :=
  ASSERT (have_udpgw o);;
  match local, remote with
  | BAddr_MakeIPv4 lip lport, BAddr_MakeIPv4 rip rport =>
      if (zlen data >? UINT16_MAX - 28) || (zlen data >? device_mtu o - 28) then mret tt
      else
        let iph := Ipv4.mk (Ipv4.IPV4_MAKE_VERSION_IHL 20) 0 (hton16 (20 + 8 + zlen data)) (hton16 0) (hton16 0) 64
                     Ipv4.IPV4_PROTOCOL_UDP (hton16 0) rip lip in
        let udph := Udp.mk rport lport (hton16 (8 + zlen data)) (hton16 0) in
        send_packet (finish_udp4 iph udph data)
  | BAddr_MakeIPv6 lip lport, BAddr_MakeIPv6 rip rport =>
      if negb (have_ip6addr o) then mret tt
      else if (zlen data >? UINT16_MAX - 8) || (zlen data >? device_mtu o - 48) then mret tt
      else
        let iph := Ipv6.mk (Z.shiftl 6 4) 0 (hton16 0) (hton16 (8 + zlen data)) Udp.IPV6_NEXT_UDP 64 rip lip in
        let udph := Udp.mk rport lport (hton16 (8 + zlen data)) (hton16 0) in
        let udph := Udp.with_checksum (Udp.udp_ip6_checksum udph data rip lip) udph in
        send_packet (Ipv6.mem iph ++ Udp.mem udph ++ data)
  | _, _ => ASSERT false
  end.

End Device.

(** ** Packets that are built are received *)

(** A UDP packet without IP options and without bytes after the payload. *)
Record canonical (iph : Ipv4.ipv4_header) (udph : Udp.udp_header) (data : list Z) : Prop := mkCanonical {
  c_ip : Ipv4.header_ok iph;
  c_udp : Udp.header_ok udph;
  c_data : bytes data ∧ zlen data <= 65507;
  c_version : Ipv4.version4_ihl4 iph = 69;
  c_protocol : Ipv4.protocol iph = Ipv4.IPV4_PROTOCOL_UDP;
  c_total : Ipv4.total_length iph = hton16 (28 + zlen data);
  c_length : Udp.length udph = hton16 (8 + zlen data)
}.

Lemma ip_checksum_ok c h : Ipv4.header_ok h → is_u16 c → Ipv4.header_ok (Ipv4.with_checksum c h).
Proof.
  unfold Ipv4.header_ok, Ipv4.layout, Ipv4.vals. cbn. intros HO Hc. rewrite !Forall2_cons in *. unfold fits, is_u16, UINT16_MAX in *.
  change (256 ^ Z.of_nat 2) with 65536 in *. intuition lia.
Qed.

Lemma udp_checksum_ok c h : Udp.header_ok h → is_u16 c → Udp.header_ok (Udp.with_checksum c h).
Proof.
  unfold Udp.header_ok, Udp.layout, Udp.vals. cbn. intros HO Hc. rewrite !Forall2_cons in *. unfold fits, is_u16, UINT16_MAX in *.
  change (256 ^ Z.of_nat 2) with 65536 in *. intuition lia.
Qed.

Lemma ntoh_small n : 0 <= n <= 65535 → ntoh16 (hton16 n) = n.
Proof. intros. rewrite ntoh16_hton16. apply u16_small. unfold is_u16, UINT16_MAX. lia. Qed.

Lemma udp_check_built h data rest : Udp.header_ok h → zlen data <= 65527 → Udp.length h = hton16 (8 + zlen data) →
  Udp.udp_check (Udp.mem h ++ data ++ rest) = Some (h, data).
Proof.
  intros HO HL Hl. pose proof (zlen_nonneg data). pose proof (zlen_nonneg rest).
  unfold Udp.udp_check. rewrite !zlen_app, Udp.udp_zlen_mem. zdec.
  assert (Hs : slice 0 8 (Udp.mem h ++ data ++ rest) = Udp.mem h) by (rewrite <-(Udp.udp_zlen_mem h); apply slice_prefix).
  rewrite Hs. replace (Udp.load (Udp.mem h)) with h by (rewrite <-(app_nil_r (Udp.mem h)); by rewrite Udp.udp_load_mem).
  rewrite Hl, ntoh_small by lia. zdec. do 2 f_equal. rewrite slice_app_r, Udp.udp_zlen_mem by (rewrite Udp.udp_zlen_mem; lia).
  replace (8 + zlen data - 8) with (zlen data) by lia. apply slice_prefix.
Qed.

Lemma ipv4_check_built h payload : Ipv4.header_ok h → Ipv4.version4_ihl4 h = 69 →
  Ipv4.total_length h = hton16 (20 + zlen payload) → zlen payload <= 65515 →
  Ipv4.checksum h = Ipv4.ipv4_checksum (Ipv4.with_checksum (hton16 0) h) [] →
  Ipv4.ipv4_check (Ipv4.mem h ++ payload) = Some (h, payload).
Proof.
  intros HO Hv Ht HL Hc. pose proof (zlen_nonneg payload). unfold Ipv4.ipv4_check. rewrite zlen_app, Ipv4.ip4_zlen_mem. zdec.
  assert (Hs : slice 0 20 (Ipv4.mem h ++ payload) = Ipv4.mem h) by (rewrite <-(Ipv4.ip4_zlen_mem h); apply slice_prefix).
  rewrite Hs. replace (Ipv4.load (Ipv4.mem h)) with h by (rewrite <-(app_nil_r (Ipv4.mem h)); by rewrite Ipv4.ip4_load_mem).
  rewrite Ipv4.get_version, Ipv4.get_header_len, Hv by (rewrite Hv; lia). change (69 / 16) with 4. change (4 * (69 mod 16)) with 20.
  rewrite Ht, ntoh_small by lia. cbn. zdec. rewrite slice_zero, <-Hc, Z.eqb_refl. cbn. do 2 f_equal.
  rewrite slice_app_r, Ipv4.ip4_zlen_mem by (rewrite Ipv4.ip4_zlen_mem; lia). replace (20 + zlen payload - 20) with (zlen payload) by lia.
  apply slice_all.
Qed.

Lemma zlen_finish iph udph data : zlen (finish_udp4 iph udph data) = 28 + zlen data.
Proof. unfold finish_udp4. rewrite !zlen_app, Ipv4.ip4_zlen_mem, Udp.udp_zlen_mem. lia. Qed.

Lemma receive_finished iph udph data : canonical iph udph data →
  receive_udp4 (finish_udp4 iph udph data) =
  Some (Ipv4.with_checksum (Ipv4.ipv4_checksum (Ipv4.with_checksum (hton16 0) iph) []) iph, Udp.with_checksum 0 udph, data) ∧
  ip_version (finish_udp4 iph udph data) = 4.
Proof.
  intros [HI HU [HB HL] Hv Hp Ht Hl]. pose proof (zlen_nonneg data).
  set (iph' := Ipv4.with_checksum (Ipv4.ipv4_checksum (Ipv4.with_checksum (hton16 0) iph) []) iph).
  set (uc := Udp.udp_checksum (Udp.with_checksum (hton16 0) udph) data (Ipv4.source_address iph) (Ipv4.destination_address iph)).
  set (udph' := Udp.with_checksum uc udph).
  assert (HI' : Ipv4.header_ok iph') by (apply ip_checksum_ok; [done|apply hton16_range]).
  assert (HU' : Udp.header_ok udph') by (apply udp_checksum_ok; [done|apply hton16_range]).
  assert (HF : finish_udp4 iph udph data = Ipv4.mem iph' ++ Udp.mem udph' ++ data) by done.
  assert (H0 : field 0 1 (finish_udp4 iph udph data) = 69).
  { rewrite HF. change (field 0 1 ?l) with (Ipv4.version4_ihl4 (Ipv4.load l)). by rewrite Ipv4.ip4_load_mem. }
  assert (H9 : field 9 1 (finish_udp4 iph udph data) = 17).
  { rewrite HF. change (field 9 1 ?l) with (Ipv4.protocol (Ipv4.load l)). by rewrite Ipv4.ip4_load_mem. }
  split; [|unfold ip_version; rewrite H0, zlen_finish; by zdec].
  unfold receive_udp4. rewrite H9, zlen_finish. zdec. cbn. rewrite HF, ipv4_check_built; try done.
  - unfold mbind, option_bind. rewrite <-(app_nil_r data) at 1. rewrite udp_check_built by (done || lia).
    change ((if negb (uc =? uc) then None else Some (iph', Udp.with_checksum 0 udph, data)) =
            Some (iph', Udp.with_checksum 0 udph, data)). by rewrite Z.eqb_refl.
  - rewrite zlen_app, Udp.udp_zlen_mem. change (Ipv4.total_length iph') with (Ipv4.total_length iph). rewrite Ht. f_equal. lia.
  - rewrite zlen_app, Udp.udp_zlen_mem. lia.
Qed.

Lemma receive6_built h udph data :
  Ipv6.header_ok h → Udp.header_ok udph → bytes data → zlen data <= 65527 →
  Ipv6.version4_tc4 h = 96 → Ipv6.next_header h = Udp.IPV6_NEXT_UDP →
  Ipv6.payload_length h = hton16 (8 + zlen data) → Udp.length udph = hton16 (8 + zlen data) →
  Udp.checksum udph = Udp.udp_ip6_checksum (Udp.with_checksum 0 udph) data (Ipv6.source_address h) (Ipv6.destination_address h) →
  receive_udp6 (Ipv6.mem h ++ Udp.mem udph ++ data) = Some (h, Udp.with_checksum 0 udph, data) ∧
  ip_version (Ipv6.mem h ++ Udp.mem udph ++ data) = 6.
Proof.
  intros HO HU HB HL Hv Hn Hp Hl Hc. pose proof (zlen_nonneg data). set (pkt := Ipv6.mem h ++ Udp.mem udph ++ data).
  assert (HLp : zlen pkt = 48 + zlen data) by (unfold pkt; rewrite !zlen_app, Ipv6.ip6_zlen_mem, Udp.udp_zlen_mem by done; lia).
  assert (H0 : field 0 1 pkt = 96).
  { change (field 0 1 ?l) with (Ipv6.version4_tc4 (Ipv6.load l)). unfold pkt. by rewrite Ipv6.ip6_load_mem. }
  assert (H6 : field 6 1 pkt = 17).
  { change (field 6 1 ?l) with (Ipv6.next_header (Ipv6.load l)). unfold pkt. by rewrite Ipv6.ip6_load_mem. }
  split; [|unfold ip_version; rewrite H0, HLp; by zdec].
  assert (Hs : slice 0 40 pkt = Ipv6.mem h) by (unfold pkt; rewrite <-(Ipv6.ip6_zlen_mem h HO); apply slice_prefix).
  assert (HC : Ipv6.ipv6_check pkt = Some (h, Udp.mem udph ++ data)).
  { unfold Ipv6.ipv6_check. rewrite HLp. zdec.
    rewrite Hs. replace (Ipv6.load (Ipv6.mem h)) with h by (rewrite <-(app_nil_r (Ipv6.mem h)); by rewrite Ipv6.ip6_load_mem).
    rewrite Hv, Hp, ntoh_small by lia. cbn. zdec. do 2 f_equal. unfold pkt.
    rewrite slice_app_r, Ipv6.ip6_zlen_mem by (done || rewrite Ipv6.ip6_zlen_mem by done; lia). change (40 - 40) with 0.
    rewrite <-(Udp.udp_zlen_mem udph), <-zlen_app. apply slice_all. }
  unfold receive_udp6. rewrite H6, HLp. zdec. cbn [orb negb Z.eqb]. rewrite HC. unfold mbind, option_bind.
  rewrite <-(app_nil_r data) at 1. rewrite udp_check_built by (done || lia). rewrite <-Hc, !Z.eqb_refl. done.
Qed.

(** Space that the headers need, for addresses of a family. *)
Definition overhead (a : BAddr) : Z := match a with BAddr_MakeIPv6 _ _ => 48 | _ => 28 end.
Definition largest (a : BAddr) : Z := match a with BAddr_MakeIPv6 _ _ => 65527 | _ => 65507 end.

Definition dns_kind (o : settings) (a : BAddr) : bool :=
  match a with
  | BAddr_MakeIPv4 ip port => udpgw_transparent_dns o && (ip =? netif_ipaddr o) && (port =? hton16 53)
  | _ => false
  end.

Lemma fits_u8 x : 0 <= x <= 255 → fits 1 x.
Proof. unfold fits. change (256 ^ Z.of_nat 1) with 256. lia. Qed.
Lemma fits_u16 x : is_u16 x → fits 2 x.
Proof. unfold fits, is_u16, UINT16_MAX. change (256 ^ Z.of_nat 2) with 65536. lia. Qed.
Lemma fits_u32 x : is_u32 x → fits 4 x.
Proof. unfold fits, is_u32, UINT32_MAX. change (256 ^ Z.of_nat 4) with 4294967296. lia. Qed.

(** The checksum and the reply of [receive_udp4] do not depend on the
    settings; the packet is sent when it fits. *)
Lemma send_packet_run o packet d : zlen packet <= device_mtu o →
  send_packet o packet d = Some (tt, d, [BTap_Send packet]).
Proof. intros HL. unfold send_packet. mrun. by zdec. Qed.

(** C35: A datagram from the UDP gateway that fits the device is written to it
    as one packet, and that packet, read from the device, is handed to the UDP
    gateway with the addresses exchanged and the same data: headers, lengths
    and checksums are those the receiving side expects, over IPv4 and IPv6. *)
Theorem udp_packet_roundtrip o local remote data d d' :
  have_udpgw o = true → baddr_ok local → baddr_ok remote → BAddr_IsInvalid local = false →
  baddr_type local = baddr_type remote → (baddr_type local = BADDR_TYPE_IPV6 → have_ip6addr o = true) →
  bytes data → zlen data <= udp_mtu o → zlen data <= device_mtu o - overhead local → zlen data <= largest local →
  ∃ packet,
    udpgw_client_handler_received o local remote data d = Some (tt, d, [BTap_Send packet]) ∧
    zlen packet = overhead local + zlen data ∧
    process_device_udp_packet o packet d' = Some (true, d', [SubmitPacket remote local (dns_kind o local) data]).
Proof.
  intros Hu Hlo Hro Hli Hty H6 HB Hmtu Hdev Hlg. pose proof (zlen_nonneg data).
  unfold udpgw_client_handler_received, process_device_udp_packet. mrun. rewrite Hu. cbn.
  destruct local as [|lip lport|lip lport], remote as [|rip rport|rip rport]; try done; cbn [overhead largest baddr_ok] in *; unfold UINT16_MAX in *.
  - set (iph := Ipv4.mk _ _ _ _ _ _ _ _ _ _). set (udph := Udp.mk _ _ _ _).
    assert (HC : canonical iph udph data).
    { split; [|repeat constructor; apply fits_u16; try apply hton16_range; by destruct Hlo, Hro|split; [done|lia]|done|done| |done].
      - repeat constructor; try (apply fits_u8; done || lia); try (apply fits_u16, hton16_range); apply fits_u32; by destruct Hlo, Hro.
      - cbn. f_equal; lia. }
    destruct (receive_finished iph udph data HC) as [HR HV].
    exists (finish_udp4 iph udph data). split_and!.
    + zdec. cbn. rewrite send_packet_run by (rewrite zlen_finish; lia). done.
    + by rewrite zlen_finish.
    + unfold classify_udp. rewrite HV, HR. cbn. mrun. by zdec.
  - rewrite (H6 eq_refl). cbn. set (iph := Ipv6.mk _ _ _ _ _ _ _ _). set (udph0 := Udp.mk _ _ _ _).
    set (udph := Udp.with_checksum _ udph0). destruct Hlo as (HBl & HLl & Hpl), Hro as (HBr & HLr & Hpr).
    assert (HU : Udp.header_ok udph).
    { apply udp_checksum_ok; [|apply hton16_range]. repeat constructor; apply fits_u16; try apply hton16_range; done. }
    assert (HO : Ipv6.header_ok iph).
    { split_and!; try done; try (unfold zlen; cbn; by rewrite ?HLl, ?HLr).
      repeat constructor; try (apply fits_u8; done || lia); apply fits_u16, hton16_range. }
    destruct (receive6_built iph udph data HO HU HB) as [HR HV]; try done.
    exists (Ipv6.mem iph ++ Udp.mem udph ++ data).
    assert (HL : zlen (Ipv6.mem iph ++ Udp.mem udph ++ data) = 48 + zlen data).
    { rewrite !zlen_app, Ipv6.ip6_zlen_mem, Udp.udp_zlen_mem by done. lia. }
    split_and!; [|done|].
    + zdec. cbn. rewrite send_packet_run by lia. done.
    + unfold classify_udp. rewrite HV, HR, (H6 eq_refl). cbn. mrun. by zdec.
Qed.

Lemma udp_packet_roundtrip_witness :
  let o := mkSettings false 0 0 true false 1 true 1400 1500 in
  let d := mkDevice false ∅ false in
  ∃ packet,
    udpgw_client_handler_received o (BAddr_MakeIPv6 (replicate 16 7) 513) (BAddr_MakeIPv6 (replicate 16 9) 770) [1; 2; 3] d =
      Some (tt, d, [BTap_Send packet]) ∧
    process_device_udp_packet o packet d =
      Some (true, d, [SubmitPacket (BAddr_MakeIPv6 (replicate 16 9) 770) (BAddr_MakeIPv6 (replicate 16 7) 513) false [1; 2; 3]]).
Proof.
  intros o d.
  destruct (udp_packet_roundtrip o (BAddr_MakeIPv6 (replicate 16 7) 513) (BAddr_MakeIPv6 (replicate 16 9) 770) [1; 2; 3] d d)
    as (packet & H1 & _ & H2); try done; try (by repeat constructor); try (by split_and!; repeat constructor).
  exists packet. by split; [exact H1|exact H2].
Defined.

(** ** DNS queries *)

(** The connections that are known: none before the tree is initialized. *)
Definition known (d : device) : gmap Z Connection := if init d then connections_tree d else ∅.

Lemma canonical_readdress iph udph data a b p q : canonical iph udph data → is_u32 a → is_u32 b → is_u16 p → is_u16 q →
  canonical (with_addresses a b iph) (with_ports p q udph) data.
Proof.
  intros [HI HU HB Hv Hp Ht Hl] Ha Hb Hpp Hq. split; try done.
  - unfold Ipv4.header_ok, Ipv4.layout, Ipv4.vals in *. cbn. rewrite !Forall2_cons in *. apply fits_u32 in Ha, Hb. tauto.
  - unfold Udp.header_ok, Udp.layout, Udp.vals in *. cbn. rewrite !Forall2_cons in *. apply fits_u16 in Hpp, Hq. tauto.
Qed.

Lemma dns_query_run o iph udph q d : have_dnsgw o = true → canonical iph udph q → Udp.dest_port udph = hton16 53 →
  28 + zlen q <= device_mtu o → known d !! Udp.source_port udph = None →
  process_device_dns_packet o (finish_udp4 iph udph q) d =
  Some (true,
        mkDevice true (<[Udp.source_port udph :=
          mkConnection (BAddr_MakeIPv4 (Ipv4.source_address iph) (Udp.source_port udph))
            (BAddr_MakeIPv4 (Ipv4.destination_address iph) (hton16 53)) 1]> (known d)) (quitting d),
        [BTap_Send (finish_udp4 (with_addresses (netif_ipaddr o) (dnsgw_ip o) iph)
                      (with_ports (Udp.source_port udph) (dnsgw_port o) udph) q)]).
Proof.
  intros Hg HC Hdp Hlen Hk. destruct (receive_finished iph udph q HC) as [HR HV].
  unfold process_device_dns_packet. rewrite Hg, HV, HR. cbn [negb Z.eqb Pos.eqb].
  change (Udp.dest_port (Udp.with_checksum 0 udph)) with (Udp.dest_port udph). rewrite Hdp, !Z.eqb_refl. cbn [negb andb].
  unfold insert_connection, find_connection. mrun. unfold known in *.
  destruct d as [[] t qt]; cbn in *; rewrite Hk; mrun; rewrite send_packet_run by (rewrite zlen_finish; lia); done.
Qed.

Lemma dns_reply_run o iph udph r d con : have_dnsgw o = true → canonical iph udph r → Udp.source_port udph = dnsgw_port o →
  Udp.dest_port udph ≠ hton16 53 → 28 + zlen r <= device_mtu o → known d !! Udp.dest_port udph = Some con → count con = 1 →
  process_device_dns_packet o (finish_udp4 iph udph r) d =
  Some (true, mkDevice true (delete (Udp.dest_port udph) (known d)) (quitting d),
        [BTap_Send (finish_udp4 (with_addresses (ipv4_ip (remote_addr con)) (ipv4_ip (local_addr con)) iph)
                      (with_ports (ipv4_port (remote_addr con)) (Udp.dest_port udph) udph) r)]).
Proof.
  intros Hg HC Hsp Hdp Hlen Hk Hc. destruct (receive_finished iph udph r HC) as [HR HV].
  unfold process_device_dns_packet. rewrite Hg, HV, HR. cbn [negb Z.eqb Pos.eqb].
  change (Udp.dest_port (Udp.with_checksum 0 udph)) with (Udp.dest_port udph).
  change (Udp.source_port (Udp.with_checksum 0 udph)) with (Udp.source_port udph).
  rewrite (proj2 (Z.eqb_neq _ _) Hdp), Hsp, !Z.eqb_refl. cbn [negb andb].
  unfold find_connection, remove_connection. unfold known in *. destruct d as [[] t qt]; cbn in *; [|by rewrite lookup_empty in Hk].
  mrun. rewrite Hk. mrun. rewrite Hc. cbn. rewrite send_packet_run by (rewrite zlen_finish; lia). done.
Qed.

(** DNS queries are translated and their answers translated back.  A query
    (a UDP packet to port 53, without IP options) from a port with no query
    under way is sent to the DNS gateway, from the address of the interface
    and the same port; the answer of the gateway to that port is sent to the
    client, from the server the query was for; and then the table of queries
    is what it was before. *)
Lemma dns_translation o iph udph q iph2 udph2 r d :
  have_dnsgw o = true → is_u32 (netif_ipaddr o) → is_u32 (dnsgw_ip o) → is_u16 (dnsgw_port o) →
  canonical iph udph q → Udp.dest_port udph = hton16 53 → known d !! Udp.source_port udph = None →
  canonical iph2 udph2 r → Udp.source_port udph2 = dnsgw_port o → Udp.dest_port udph2 = Udp.source_port udph →
  Udp.source_port udph ≠ hton16 53 → 28 + zlen q <= device_mtu o → 28 + zlen r <= device_mtu o →
  ∃ d1 iph1 udph1 d2 iph3 udph3,
    process_device_dns_packet o (finish_udp4 iph udph q) d = Some (true, d1, [BTap_Send (finish_udp4 iph1 udph1 q)]) ∧
    canonical iph1 udph1 q ∧
    Ipv4.source_address iph1 = netif_ipaddr o ∧ Ipv4.destination_address iph1 = dnsgw_ip o ∧
    Udp.source_port udph1 = Udp.source_port udph ∧ Udp.dest_port udph1 = dnsgw_port o ∧
    process_device_dns_packet o (finish_udp4 iph2 udph2 r) d1 = Some (true, d2, [BTap_Send (finish_udp4 iph3 udph3 r)]) ∧
    canonical iph3 udph3 r ∧
    Ipv4.source_address iph3 = Ipv4.destination_address iph ∧ Ipv4.destination_address iph3 = Ipv4.source_address iph ∧
    Udp.source_port udph3 = Udp.dest_port udph ∧ Udp.dest_port udph3 = Udp.source_port udph ∧
    known d2 = known d.
Proof.
  intros Hg Hni Hdi Hdpo HC Hdp Hk HC2 Hsp2 Hdp2 Hn53 Hlq Hlr.
  pose proof (dns_query_run o iph udph q d Hg HC Hdp Hlq Hk) as E1.
  set (con := mkConnection (BAddr_MakeIPv4 (Ipv4.source_address iph) (Udp.source_port udph))
                (BAddr_MakeIPv4 (Ipv4.destination_address iph) (hton16 53)) 1) in E1.
  set (d1 := mkDevice true (<[Udp.source_port udph := con]> (known d)) (quitting d)) in E1.
  assert (Hk1 : known d1 !! Udp.dest_port udph2 = Some con) by (cbn; by rewrite Hdp2, lookup_insert_eq).
  pose proof (dns_reply_run o iph2 udph2 r d1 con Hg HC2 Hsp2 ltac:(congruence) Hlr Hk1 eq_refl) as E2.
  destruct (Ipv4.header_fields iph (c_ip _ _ _ HC)) as (_ & _ & _ & _ & Hs & Hd).
  assert (Hports : is_u16 (Udp.source_port udph)).
  { pose proof (c_udp _ _ _ HC) as HU. unfold Udp.header_ok, Udp.layout, Udp.vals in HU. rewrite !Forall2_cons in HU.
    destruct HU as [HU _]. unfold fits in HU. change (256 ^ Z.of_nat 2) with 65536 in HU. unfold is_u16, UINT16_MAX. lia. }
  eexists _, _, _, _, _, _. split; [exact E1|]. split; [by apply canonical_readdress|]. do 4 (split; [done|]).
  split; [exact E2|]. split; [apply canonical_readdress; try done; apply hton16_range || by rewrite Hdp2|].
  split; [done|]. split; [done|]. split; [by rewrite Hdp|]. split; [by rewrite <-Hdp2|].
  cbn. rewrite Hdp2, delete_insert_id by done. done.
Qed.

(** A query of four bytes from 10.0.0.2, port 4660, to 8.8.8.8; its answer. *)
Definition example_settings : settings := mkSettings true 16777343 55327 false false 33685514 false 0 1500.
Definition example_ip (src dst : Z) (len : Z) : Ipv4.ipv4_header :=
  Ipv4.mk 69 0 (hton16 (28 + len)) 0 0 64 17 0 src dst.
Definition example_udp (sport dport len : Z) : Udp.udp_header := Udp.mk sport dport (hton16 (8 + len)) 0.

Lemma example_canonical src dst sport dport data :
  is_u32 src → is_u32 dst → is_u16 sport → is_u16 dport → bytes data → zlen data <= 65507 →
  canonical (example_ip src dst (zlen data)) (example_udp sport dport (zlen data)) data.
Proof.
  intros Hs Hd Hsp Hdp HB HL. split; try done.
  - repeat constructor; try (apply fits_u8; done || lia); try (apply fits_u16; apply hton16_range || done); by apply fits_u32.
  - repeat constructor; apply fits_u16; done || apply hton16_range.
Qed.

Lemma dns_translation_witness :
  ∃ d1 d2 iph1 udph1 iph3 udph3,
    process_device_dns_packet example_settings
      (finish_udp4 (example_ip 33554442 134744072 4) (example_udp 13330 (hton16 53) 4) [1; 2; 3; 4]) (mkDevice false ∅ false) =
      Some (true, d1, [BTap_Send (finish_udp4 iph1 udph1 [1; 2; 3; 4])]) ∧
    process_device_dns_packet example_settings
      (finish_udp4 (example_ip 16777343 33685514 2) (example_udp 55327 13330 2) [5; 6]) d1 =
      Some (true, d2, [BTap_Send (finish_udp4 iph3 udph3 [5; 6])]) ∧
    Ipv4.source_address iph3 = 134744072 ∧ Udp.source_port udph3 = hton16 53.
Proof.
  assert (HC1 : canonical (example_ip 33554442 134744072 4) (example_udp 13330 (hton16 53) 4) [1; 2; 3; 4]).
  { by apply (example_canonical 33554442 134744072 13330 (hton16 53) [1; 2; 3; 4]); [| | | |repeat constructor|]. }
  assert (HC2 : canonical (example_ip 16777343 33685514 2) (example_udp 55327 13330 2) [5; 6]).
  { by apply (example_canonical 16777343 33685514 55327 13330 [5; 6]); [| | | |repeat constructor|]. }
  destruct (dns_translation example_settings _ _ _ _ _ _ (mkDevice false ∅ false) eq_refl ltac:(done) ltac:(done) ltac:(done)
    HC1 eq_refl (lookup_empty _) HC2 eq_refl eq_refl ltac:(done) ltac:(done) ltac:(done))
    as (d1 & iph1 & udph1 & d2 & iph3 & udph3 & H1 & _ & _ & _ & _ & _ & H2 & _ & H3 & _ & H4 & _ & _).
  exists d1, d2, iph1, udph1, iph3, udph3. split; [exact H1|]. split; [exact H2|]. by split; [exact H3|exact H4].
Defined.

(** What an accepted packet satisfies. *)
Lemma receive_udp4_facts data iph udph payload : bytes data → receive_udp4 data = Some (iph, udph, payload) →
  Ipv4.header_ok iph ∧ Udp.header_ok udph ∧ bytes payload ∧
  20 <= 4 * (Ipv4.version4_ihl4 iph mod 16) ∧
  4 * (Ipv4.version4_ihl4 iph mod 16) + 8 + zlen payload <= ntoh16 (Ipv4.total_length iph) <= zlen data ∧
  Ipv4.version4_ihl4 iph / 16 = 4.
Proof.
  intros HB. unfold receive_udp4. destruct (_ || _); [done|]. unfold mbind, option_bind.
  destruct (Ipv4.ipv4_check data) as [[h p]|] eqn:Hi; [|done].
  destruct (Udp.udp_check p) as [[u x]|] eqn:Hu; [|done]. destruct (negb _); [done|]. intros [= <- <- <-].
  unfold Ipv4.ipv4_check in Hi. destruct (zlen data <? 20) eqn:H20; [done|]. zb.
  set (h0 := Ipv4.load (slice 0 20 data)) in *.
  assert (HB0 : bytes (slice 0 20 data)) by (by apply Forall_take, Forall_drop).
  pose proof (Ipv4.ip4_load_ok _ HB0 : Ipv4.header_ok h0) as HO. destruct (Ipv4.header_fields h0 HO) as (Hv & _).
  rewrite Ipv4.get_version, Ipv4.get_header_len in Hi by done. cbn zeta in Hi.
  destruct (Ipv4.version4_ihl4 h0 / 16 =? 4) eqn:H4; [|done]. zb. cbn [negb] in Hi.
  set (hl := 4 * (Ipv4.version4_ihl4 h0 mod 16)) in *. set (total := ntoh16 (Ipv4.total_length h0)) in *.
  destruct (hl <? 20) eqn:E1; [done|]. destruct (hl >? zlen data) eqn:E2; [done|].
  destruct (total <? hl) eqn:E3; [done|]. destruct (total >? zlen data) eqn:E4; [done|]. destruct (negb _); [done|].
  injection Hi as <- <-. zb. unfold Udp.udp_check in Hu.
  assert (HLp : zlen (slice hl (total - hl) data) = total - hl) by (apply zlen_slice; lia). rewrite HLp in Hu.
  assert (HBp : bytes (slice hl (total - hl) data)) by (by apply Forall_take, Forall_drop).
  set (pp := slice hl (total - hl) data) in *. destruct (total - hl <? 8) eqn:E5; [done|].
  set (u0 := Udp.load (slice 0 8 pp)) in *. cbn zeta in Hu. destruct (ntoh16 (Udp.length u0) <? 8) eqn:E6; [done|].
  destruct (ntoh16 (Udp.length u0) >? _) eqn:E7; [done|]. injection Hu as <- <-. zb.
  assert (HB8 : bytes (slice 0 8 pp)) by (by apply Forall_take, Forall_drop).
  assert (HLx : zlen (slice 8 (ntoh16 (Udp.length u0) - 8) pp) = ntoh16 (Udp.length u0) - 8) by (apply zlen_slice; lia).
  split_and!; try done; try lia.
  - apply udp_checksum_ok; [by apply Udp.udp_load_ok|unfold is_u16, UINT16_MAX; lia].
  - by apply Forall_take, Forall_drop.
  - change (field 4 2 (slice 0 8 pp)) with (Udp.length u0). lia.
Qed.

(** IP options break DNS queries.  The rewritten packet has only the first
    20 bytes of the IP header but keeps the header length and total length of
    the original: whenever the query (or the answer) had IP options, the packet
    sent is refused by the check every receiver makes. *)
Lemma dns_options_refused o data d d' packet iph udph payload :
  bytes data → receive_udp4 data = Some (iph, udph, payload) → 5 < Ipv4.version4_ihl4 iph mod 16 →
  process_device_dns_packet o data d = Some (true, d', [BTap_Send packet]) → Ipv4.ipv4_check packet = None.
Proof.
  intros HB HR Hopt. destruct (receive_udp4_facts data iph udph payload HB HR) as (HO & HU & HBp & Hhl & Htot & Hver).
  assert (Hbad : ∀ a b u, Ipv4.ipv4_check (finish_udp4 (with_addresses a b iph) u payload) = None).
  { intros a b u. pose proof (zlen_nonneg payload). unfold Ipv4.ipv4_check. rewrite zlen_finish. zdec. unfold finish_udp4.
    set (h := Ipv4.with_checksum _ _). set (rest := Udp.mem _ ++ payload).
    assert (Hs : slice 0 20 (Ipv4.mem h ++ rest) = Ipv4.mem h) by (rewrite <-(Ipv4.ip4_zlen_mem h); apply slice_prefix).
    rewrite Hs.
    assert (Hload : Ipv4.version4_ihl4 (Ipv4.load (Ipv4.mem h)) = Ipv4.version4_ihl4 iph ∧
                    Ipv4.total_length (Ipv4.load (Ipv4.mem h)) = Ipv4.total_length iph).
    { assert (Hpre : load_fields [1; 1; 2]%nat (Ipv4.mem h) = [Ipv4.version4_ihl4 iph; Ipv4.ds iph; Ipv4.total_length iph]).
      { change (Ipv4.mem h) with (store_fields [1; 1; 2]%nat [Ipv4.version4_ihl4 iph; Ipv4.ds iph; Ipv4.total_length iph] ++
          drop 4 (Ipv4.mem h)). apply load_store. unfold Ipv4.header_ok, Ipv4.layout, Ipv4.vals in HO.
        rewrite !Forall2_cons in HO |- *. destruct HO as (? & ? & ? & _). split; [done|]. split; [done|]. split; [done|apply Forall2_nil_2]. }
      assert (Hl3 : load_fields [1; 1; 2]%nat (Ipv4.mem h) = [field 0 1 (Ipv4.mem h); field 1 1 (Ipv4.mem h); field 2 2 (Ipv4.mem h)]).
      { unfold field, slice. cbn. by rewrite !drop_drop. }
      rewrite Hl3 in Hpre. by injection Hpre as ? ? ?. }
    destruct Hload as [Hlv Hlt]. destruct (Ipv4.header_fields iph HO) as (Hvr & _).
    rewrite Ipv4.get_version, Ipv4.get_header_len, Hlv, Hlt by (rewrite Hlv; lia). cbn zeta. rewrite Hver. cbn [negb Z.eqb Pos.eqb].
    repeat (case_if; [done|]). lia. }
  unfold process_device_dns_packet. destruct (negb (have_dnsgw o)); [done|]. destruct (negb _); [done|]. rewrite HR.
  destruct (_ && _); [done|]. destruct (Udp.dest_port udph =? hton16 53).
  - unfold insert_connection, find_connection, send_packet. mrun. destruct (_ !! _); mrun; destruct (_ <=? _); try done; mrun; intros [= _ <-]; apply Hbad.
  - unfold find_connection, remove_connection, send_packet. mrun. destruct (negb (init d)); [done|]. mrun.
    destruct (_ !! _); [|done]. mrun. destruct (_ <=? device_mtu o); try done; mrun; intros [= _ <-]; apply Hbad.
Qed.

(** The query of the example with four bytes of IP options. *)
Definition options_query : list Z :=
  let options := [1; 1; 1; 1] in
  let iph := Ipv4.mk 70 0 (hton16 36) 0 0 64 17 0 33554442 134744072 in
  let iph := Ipv4.with_checksum (Ipv4.ipv4_checksum iph options) iph in
  let udph := example_udp 13330 (hton16 53) 4 in
  let udph := Udp.with_checksum (Udp.udp_checksum udph [1; 2; 3; 4] 33554442 134744072) udph in
  Ipv4.mem iph ++ options ++ Udp.mem udph ++ [1; 2; 3; 4].

Lemma dns_options_refused_witness :
  ∃ d' packet, process_device_dns_packet example_settings options_query (mkDevice false ∅ false) = Some (true, d', [BTap_Send packet]) ∧
    Ipv4.ipv4_check packet = None.
Proof.
  eexists _, _. split; [vm_compute; reflexivity|].
  eapply (dns_options_refused example_settings options_query (mkDevice false ∅ false)).
  - vm_compute. repeat constructor; done.
  - vm_compute. reflexivity.
  - vm_compute. reflexivity.
  - vm_compute. reflexivity.
Defined.

(** ** Everything read from the device *)

(** What the calls made for a packet satisfy: the device gets at most what its
    buffer holds; the UDP gateway gets addresses of the two families and data
    it can pass on. *)
Definition call_ok (o : settings) (e : eff) : Prop :=
  match e with
  | BTap_Send packet => zlen packet <= device_mtu o
  | SubmitPacket local remote _ data =>
      baddr_ok local ∧ baddr_ok remote ∧ BAddr_IsInvalid local = false ∧ BAddr_IsInvalid remote = false ∧
      bytes data ∧ zlen data <= udp_mtu o
  | _ => True
  end.

Lemma udp_ports h : Udp.header_ok h → is_u16 (Udp.source_port h) ∧ is_u16 (Udp.dest_port h).
Proof.
  unfold Udp.header_ok, Udp.layout, Udp.vals, fits. rewrite !Forall2_cons. unfold is_u16, UINT16_MAX.
  change (256 ^ Z.of_nat 2) with 65536. intuition lia.
Qed.

Lemma dns_safe o data d : bytes data → zlen data <= device_mtu o →
  ∃ r d' es, process_device_dns_packet o data d = Some (r, d', es) ∧ quitting d' = quitting d ∧
    ((r = false ∧ d' = d ∧ es = []) ∨ (r = true ∧ ∃ packet, es = [BTap_Send packet] ∧ zlen packet <= zlen data)).
Proof.
  intros HB HL. unfold process_device_dns_packet. mrun.
  destruct (negb (have_dnsgw o)); [by do 3 eexists; split; [reflexivity|split; [|left]]|].
  destruct (negb (ip_version data =? 4)); [by do 3 eexists; split; [reflexivity|split; [|left]]|].
  destruct (receive_udp4 data) as [[[iph udph] payload]|] eqn:HR; [|by do 3 eexists; split; [reflexivity|split; [|left]]].
  destruct (receive_udp4_facts _ _ _ _ HB HR) as (_ & _ & _ & Hh & Ht & _).
  assert (Hfin : ∀ i u, zlen (finish_udp4 i u payload) <= zlen data) by (intros i u; rewrite zlen_finish; lia).
  destruct (_ && _); [by do 3 eexists; split; [reflexivity|split; [|left]]|].
  destruct (Udp.dest_port udph =? hton16 53).
  - unfold insert_connection, find_connection. mrun. destruct (_ !! _); mrun; rewrite send_packet_run by (etrans; [apply Hfin|done]); mrun;
      do 3 eexists; (split; [reflexivity|]); (split; [by destruct (init d)|right]); (split; [done|]); eexists; by split.
  - mrun. destruct (negb (init d)); [by do 3 eexists; split; [reflexivity|split; [|left]]|].
    unfold find_connection, remove_connection. mrun. destruct (_ !! _) as [con|]; mrun; [|by do 3 eexists; split; [reflexivity|split; [|left]]].
    rewrite send_packet_run by (etrans; [apply Hfin|done]). mrun.
    do 3 eexists. split; [reflexivity|]. split; [done|right]. split; [done|]. eexists. by split.
Qed.

Lemma udp6_facts data iph udph payload : bytes data → receive_udp6 data = Some (iph, udph, payload) →
  Ipv6.header_ok iph ∧ Udp.header_ok udph ∧ bytes payload.
Proof.
  intros HB. unfold receive_udp6. destruct (_ || _); [done|]. unfold mbind, option_bind.
  destruct (Ipv6.ipv6_check data) as [[h p]|] eqn:Hi; [|done].
  destruct (Udp.udp_check p) as [[u x]|] eqn:Hu; [|done]. destruct (negb _); [done|]. intros [= <- <- <-].
  unfold Ipv6.ipv6_check in Hi. destruct (zlen data <? 40) eqn:H40; [done|]. zb. destruct (negb _); [done|].
  destruct (_ >? _); [done|]. injection Hi as <- <-. unfold Udp.udp_check in Hu. destruct (_ <? 8); [done|].
  cbn zeta in Hu. destruct (_ <? 8); [done|]. destruct (_ >? _); [done|]. injection Hu as <- <-.
  split_and!.
  - apply Ipv6.ip6_load_ok; [by apply Forall_take, Forall_drop|apply zlen_slice; lia].
  - apply udp_checksum_ok; [|unfold is_u16, UINT16_MAX; lia]. by apply Udp.udp_load_ok, Forall_take, Forall_drop, Forall_take, Forall_drop.
  - by apply Forall_take, Forall_drop, Forall_take, Forall_drop.
Qed.

Lemma classify_ok o data l r k payload : bytes data → classify_udp o data = Some (l, r, k, payload) →
  baddr_ok l ∧ baddr_ok r ∧ BAddr_IsInvalid l = false ∧ BAddr_IsInvalid r = false ∧ bytes payload.
Proof.
  intros HB. unfold classify_udp, mbind, option_bind. destruct (ip_version data =? 4).
  - destruct (receive_udp4 data) as [[[iph udph] pl]|] eqn:HR; [|done]. intros [= <- <- <- <-].
    destruct (receive_udp4_facts _ _ _ _ HB HR) as (HO & HU & HBp & _). destruct (Ipv4.header_fields iph HO) as (_ & _ & _ & _ & ? & ?).
    destruct (udp_ports udph HU). done.
  - destruct (ip_version data =? 6); [|done]. destruct (negb _); [done|].
    destruct (receive_udp6 data) as [[[iph udph] pl]|] eqn:HR; [|done]. intros [= <- <- <- <-].
    destruct (udp6_facts _ _ _ _ HB HR) as ((_ & Hs & Hsl & Hd & Hdl) & HU & HBp). destruct (udp_ports udph HU).
    unfold zlen in *. cbn. split_and!; try done; lia.
Qed.

Definition one_call (es : list eff) : Prop := match es with [] | [_] | [_; pbuf_free] => True | _ => False end.

Lemma pass_to_stack_safe o pbuf ok data d :
  ∃ es, pass_to_stack o pbuf ok data d = Some (tt, d, es) ∧ Forall (call_ok o) es ∧ one_call es.
Proof.
  unfold pass_to_stack. destruct (_ >? _); mrun; [by eexists|]. destruct pbuf as [chunks|]; mrun; [|by eexists].
  unfold netif_input_func. destruct (_ =? 4); [|destruct (_ && _)]; mrun; destruct ok; mrun;
    eexists; (split; [reflexivity|]); (split; [by repeat constructor|done]).
Qed.

Lemma udp_safe o data d : bytes data →
  ∃ r es, process_device_udp_packet o data d = Some (r, d, es) ∧ Forall (call_ok o) es ∧
    ((r = false ∧ es = []) ∨ (r = true ∧ ∃ e, es = [e])).
Proof.
  intros HB. unfold process_device_udp_packet. destruct (have_udpgw o); mrun; [|by do 2 eexists; split; [|split; [|left]]].
  destruct (classify_udp o data) as [[[[l r] k] payload]|] eqn:HC; mrun; [|by do 2 eexists; split; [|split; [|left]]].
  destruct (zlen payload >? udp_mtu o) eqn:Hm; zb; mrun; [by do 2 eexists; split; [|split; [|left]]|].
  destruct (classify_ok o data l r k payload HB HC) as (? & ? & ? & ? & ?).
  do 2 eexists. split; [reflexivity|]. split; [|right; split; [done|by eexists]].
  constructor; [|done]. cbn. split_and!; done || lia.
Qed.

(** C30: Reading from the device is total and safe.  For every packet of at
    most the device's MTU, whatever its bytes: no assertion fails and nothing
    is written past [device_write_buf]; at most one thing is done with the
    packet (sent back as a DNS packet, submitted to the UDP gateway, or given
    to the stack and perhaps freed); and a packet submitted to the UDP gateway
    meets what [SocksUdpGwClient_SubmitPacket] asserts. *)
Theorem device_read_safe o pbuf ok data d :
  bytes data → zlen data <= device_mtu o → quitting d = false →
  ∃ d' es, device_read_handler_send o pbuf ok data d = Some (tt, d', es) ∧ quitting d' = false ∧
    Forall (call_ok o) es ∧ one_call es.
Proof.
  intros HB HL Hq. unfold device_read_handler_send. mrun. rewrite Hq. cbn.
  destruct (dns_safe o data d HB HL) as (r & d1 & es1 & E1 & Hq1 & HC1). rewrite E1.
  destruct HC1 as [(-> & -> & ->)|(-> & packet & -> & Hp)].
  2:{ mrun. do 2 eexists. split; [reflexivity|]. split_and!; [congruence| |done]. constructor; [cbn; lia|done]. }
  destruct (udp_safe o data d HB) as (r & es2 & E2 & HF2 & HC2). rewrite E2.
  destruct HC2 as [(-> & ->)|(-> & e & ->)]; mrun; [|by do 2 eexists; split; [reflexivity|]].
  destruct (pass_to_stack_safe o pbuf ok data d) as (es3 & E3 & HF3 & HO3). rewrite E3.
  do 2 eexists. by split; [reflexivity|].
Qed.

Lemma device_read_safe_witness :
  ∃ d' es, device_read_handler_send example_settings None true options_query (mkDevice false ∅ false) = Some (tt, d', es) ∧
    Forall (call_ok example_settings) es.
Proof.
  destruct (device_read_safe example_settings None true options_query (mkDevice false ∅ false)) as (d' & es & H1 & _ & H2 & _).
  - vm_compute. repeat constructor; done.
  - by vm_compute.
  - done.
  - exists d', es. by split; [exact H1|exact H2].
Defined.

(** ** Writing to the device *)

Lemma copy_chunks_spec o p : ∀ buf, zlen buf <= device_mtu o →
  copy_chunks o buf p = if zlen (buf ++ mjoin p) <=? device_mtu o then Some (buf ++ mjoin p) else None.
Proof.
  induction p as [|c p IH]; intros buf HL; cbn [copy_chunks].
  - change (mjoin []) with (@nil Z). rewrite app_nil_r. by zdec.
  - change (mjoin (c :: p)) with (c ++ mjoin p). pose proof (zlen_nonneg (mjoin p)). destruct (zlen c >? _) eqn:Hc; zb.
    + rewrite !zlen_app. by zdec.
    + rewrite IH by (rewrite zlen_app; lia). by rewrite <-app_assoc.
Qed.

(** A packet of the stack is written to the device whole or not at all.
    However it is cut into chunks, the device gets exactly the concatenation of
    the chunks when that fits its MTU and nothing otherwise, and nothing is
    copied past the end of [device_write_buf]. *)
Lemma netif_output_exact o p d : 0 <= device_mtu o → quitting d = false →
  common_netif_output o p d =
  Some (tt, d, if zlen (mjoin p) <=? device_mtu o then [BTap_Send (mjoin p)] else []).
Proof.
  intros Hm Hq. unfold common_netif_output. mrun. rewrite Hq.
  assert (HG : match copy_chunks o [] p with None => mret tt | Some buf => send_packet o buf end d =
               Some (tt, d, if zlen (mjoin p) <=? device_mtu o then [BTap_Send (mjoin p)] else [])).
  { rewrite copy_chunks_spec by done. rewrite app_nil_l. destruct (_ <=? _) eqn:HL; [|done]. zb. by rewrite send_packet_run. }
  unfold mret, M_ret in HG. destruct p as [|c [|c' p]]; [by rewrite HG| |by rewrite HG].
  change (mjoin [c]) with (c ++ []). rewrite app_nil_r. rewrite Z.gtb_ltb.
  destruct (device_mtu o <? zlen c) eqn:HL; zb; zdec; [done|]. by rewrite send_packet_run.
Qed.

Lemma netif_output_exact_witness :
  common_netif_output example_settings [[1; 2]; [3]] (mkDevice false ∅ false) =
  Some (tt, mkDevice false ∅ false, [BTap_Send [1; 2; 3]]).
Proof. apply (netif_output_exact example_settings [[1; 2]; [3]] (mkDevice false ∅ false)); done. Defined.
