(* ===== verification/TcpClient.v ===== *)
(** * TCP connections ([tun2socks/tun2socks.c])

    A TCP connection accepted from the device is forwarded over a SOCKS
    connection: data in both directions with flow control, closing of either
    side while data is still on its way, errors at any moment.  The state is
    the structure [tcp_client], what the stack (lwIP) and the SOCKS client hold
    for it, and the history of the data.  Calls to the stack and to the SOCKS
    client are operations on that state that fail, as a failed assertion does,
    when they are not permitted: on a connection that is gone, while an
    operation is outstanding, after the memory of the client was freed. *)

From S2P Require Import Prelude Net.
From S2P Require Import SocksClient.

Module TcpClient.

Definition CLIENT_SOCKS_RECV_BUF_SIZE : Z := 8192.
Definition TCP_MSS : Z := 1460.
Definition TCP_WND : Z := 4 * TCP_MSS.

(** [buf] holds the [buf_used] bytes in use; [socks_recv_buf] what was
    received last. *)
Record tcp_client := mkClient {
  client_closed : bool;
  buf : list Z;
  socks_up : bool;
  socks_closed : bool;
  socks_recv_buf : list Z;
  socks_recv_buf_used : Z;
  socks_recv_buf_sent : Z;
  socks_recv_waiting : bool;
  socks_recv_tcp_pending : Z
}.

(** The connection in the stack and its callbacks, the SOCKS client, its
    outstanding operations and whether it has reported that it is up. *)
Record environment := mkEnv {
  pcb : bool;
  cb_err : bool;
  cb_recv : bool;
  cb_sent : bool;
  socks : bool;
  sending : option Z;
  receiving : bool;
  socks_ready : bool
}.


(** The streams so far, the bytes acknowledged in each direction, and whether
    the SOCKS side reported an error or end, the TCP side an end. *)
Record history := mkHistory {
  from_tcp : list Z;
  to_socks : list Z;
  from_socks : list Z;
  to_tcp : list Z;
  recved : Z;
  confirmed : Z;
  socks_failed : bool;
  tcp_ended : bool
}.


Definition set_client_closed (x : bool) (c : tcp_client) : tcp_client := mkClient x (buf c) (socks_up c) (socks_closed c) (socks_recv_buf c) (socks_recv_buf_used c) (socks_recv_buf_sent c) (socks_recv_waiting c) (socks_recv_tcp_pending c).
Definition set_buf (x : list Z) (c : tcp_client) : tcp_client := mkClient (client_closed c) x (socks_up c) (socks_closed c) (socks_recv_buf c) (socks_recv_buf_used c) (socks_recv_buf_sent c) (socks_recv_waiting c) (socks_recv_tcp_pending c).
Definition set_socks_up (x : bool) (c : tcp_client) : tcp_client := mkClient (client_closed c) (buf c) x (socks_closed c) (socks_recv_buf c) (socks_recv_buf_used c) (socks_recv_buf_sent c) (socks_recv_waiting c) (socks_recv_tcp_pending c).
Definition set_socks_closed (x : bool) (c : tcp_client) : tcp_client := mkClient (client_closed c) (buf c) (socks_up c) x (socks_recv_buf c) (socks_recv_buf_used c) (socks_recv_buf_sent c) (socks_recv_waiting c) (socks_recv_tcp_pending c).
Definition set_socks_recv_buf (x : list Z) (c : tcp_client) : tcp_client := mkClient (client_closed c) (buf c) (socks_up c) (socks_closed c) x (socks_recv_buf_used c) (socks_recv_buf_sent c) (socks_recv_waiting c) (socks_recv_tcp_pending c).
Definition set_socks_recv_buf_used (x : Z) (c : tcp_client) : tcp_client := mkClient (client_closed c) (buf c) (socks_up c) (socks_closed c) (socks_recv_buf c) x (socks_recv_buf_sent c) (socks_recv_waiting c) (socks_recv_tcp_pending c).
Definition set_socks_recv_buf_sent (x : Z) (c : tcp_client) : tcp_client := mkClient (client_closed c) (buf c) (socks_up c) (socks_closed c) (socks_recv_buf c) (socks_recv_buf_used c) x (socks_recv_waiting c) (socks_recv_tcp_pending c).
Definition set_socks_recv_waiting (x : bool) (c : tcp_client) : tcp_client := mkClient (client_closed c) (buf c) (socks_up c) (socks_closed c) (socks_recv_buf c) (socks_recv_buf_used c) (socks_recv_buf_sent c) x (socks_recv_tcp_pending c).
Definition set_socks_recv_tcp_pending (x : Z) (c : tcp_client) : tcp_client := mkClient (client_closed c) (buf c) (socks_up c) (socks_closed c) (socks_recv_buf c) (socks_recv_buf_used c) (socks_recv_buf_sent c) (socks_recv_waiting c) x.


Definition set_pcb (x : bool) (e : environment) : environment := mkEnv x (cb_err e) (cb_recv e) (cb_sent e) (socks e) (sending e) (receiving e) (socks_ready e).
Definition set_cb_err (x : bool) (e : environment) : environment := mkEnv (pcb e) x (cb_recv e) (cb_sent e) (socks e) (sending e) (receiving e) (socks_ready e).
Definition set_cb_recv (x : bool) (e : environment) : environment := mkEnv (pcb e) (cb_err e) x (cb_sent e) (socks e) (sending e) (receiving e) (socks_ready e).
Definition set_cb_sent (x : bool) (e : environment) : environment := mkEnv (pcb e) (cb_err e) (cb_recv e) x (socks e) (sending e) (receiving e) (socks_ready e).
Definition set_socks (x : bool) (e : environment) : environment := mkEnv (pcb e) (cb_err e) (cb_recv e) (cb_sent e) x (sending e) (receiving e) (socks_ready e).
Definition set_sending (x : option Z) (e : environment) : environment := mkEnv (pcb e) (cb_err e) (cb_recv e) (cb_sent e) (socks e) x (receiving e) (socks_ready e).
Definition set_receiving (x : bool) (e : environment) : environment := mkEnv (pcb e) (cb_err e) (cb_recv e) (cb_sent e) (socks e) (sending e) x (socks_ready e).
Definition set_socks_ready (x : bool) (e : environment) : environment := mkEnv (pcb e) (cb_err e) (cb_recv e) (cb_sent e) (socks e) (sending e) (receiving e) x.


Definition set_from_tcp (x : list Z) (h : history) : history := mkHistory x (to_socks h) (from_socks h) (to_tcp h) (recved h) (confirmed h) (socks_failed h) (tcp_ended h).
Definition set_to_socks (x : list Z) (h : history) : history := mkHistory (from_tcp h) x (from_socks h) (to_tcp h) (recved h) (confirmed h) (socks_failed h) (tcp_ended h).
Definition set_from_socks (x : list Z) (h : history) : history := mkHistory (from_tcp h) (to_socks h) x (to_tcp h) (recved h) (confirmed h) (socks_failed h) (tcp_ended h).
Definition set_to_tcp (x : list Z) (h : history) : history := mkHistory (from_tcp h) (to_socks h) (from_socks h) x (recved h) (confirmed h) (socks_failed h) (tcp_ended h).
Definition set_recved (x : Z) (h : history) : history := mkHistory (from_tcp h) (to_socks h) (from_socks h) (to_tcp h) x (confirmed h) (socks_failed h) (tcp_ended h).
Definition set_confirmed (x : Z) (h : history) : history := mkHistory (from_tcp h) (to_socks h) (from_socks h) (to_tcp h) (recved h) x (socks_failed h) (tcp_ended h).
Definition set_socks_failed (x : bool) (h : history) : history := mkHistory (from_tcp h) (to_socks h) (from_socks h) (to_tcp h) (recved h) (confirmed h) x (tcp_ended h).
Definition set_tcp_ended (x : bool) (h : history) : history := mkHistory (from_tcp h) (to_socks h) (from_socks h) (to_tcp h) (recved h) (confirmed h) (socks_failed h) x.

(** [freed]: the memory of the client is freed; [dead_client]: the variable
    [DEAD_ENTER(client->dead_client)] sets up. *)
Record world := mkWorld {
  cli : tcp_client;
  env : environment;
  hist : history;
  freed : bool;
  dead_client : bool
}.

Definition upd_cli (f : tcp_client → tcp_client) (w : world) : world := mkWorld (f (cli w)) (env w) (hist w) (freed w) (dead_client w).
Definition upd_env (f : environment → environment) (w : world) : world := mkWorld (cli w) (f (env w)) (hist w) (freed w) (dead_client w).
Definition upd_hist (f : history → history) (w : world) : world := mkWorld (cli w) (env w) (f (hist w)) (freed w) (dead_client w).
Definition set_freed (b : bool) (w : world) : world := mkWorld (cli w) (env w) (hist w) b (dead_client w).
Definition set_dead (b : bool) (w : world) : world := mkWorld (cli w) (env w) (hist w) (freed w) b.

(** What the rest of the program sees: the client enters the list of clients
    and leaves it; a buffer of the stack is freed. *)
Inductive call := append_client | dealloc | pbuf_free.

#[export] Instance call_eq_dec : EqDecision call.
Proof. solve_decision. Defined.

Inductive err_t := ERR_OK | ERR_MEM | ERR_ABRT | ERR_OTHER.

Definition TM := M world call.

(** Reading the client: only while its memory is there. *)
Definition client : TM tcp_client := w ← get; ASSERT (negb (freed w));; mret (cli w).
Definition put_client (f : tcp_client → tcp_client) : TM unit := w ← get; ASSERT (negb (freed w));; modify (upd_cli f).

(** ** The stack *)

Definition tcp_call (f : world → world) : TM unit := w ← get; ASSERT (pcb (env w));; modify f.

(** [tcp_err(NULL)], [tcp_recv(NULL)], [tcp_sent(NULL)]. *)
Definition tcp_err_null : TM unit := tcp_call (upd_env (set_cb_err false)).
Definition tcp_recv_null : TM unit := tcp_call (upd_env (set_cb_recv false)).
Definition tcp_sent_null : TM unit := tcp_call (upd_env (set_cb_sent false)).
Definition tcp_sent : TM unit := tcp_call (upd_env (set_cb_sent true)).
Definition tcp_abort : TM unit := tcp_call (λ w, upd_hist (set_tcp_ended true) (upd_env (set_pcb false) w)).
(** On failure the connection still exists. *)
Definition tcp_close (ok : bool) : TM bool := tcp_call (λ w, if ok then upd_env (set_pcb false) w else w);; mret ok.
Definition tcp_recved (n : Z) : TM unit := tcp_call (upd_hist (λ h, set_recved (recved h + n) h)).
Definition tcp_write (d : list Z) (err : err_t) : TM err_t :=
  tcp_call (λ w, match err with ERR_OK => upd_hist (λ h, set_to_tcp (to_tcp h ++ d) h) w | _ => w end);; mret err.
Definition tcp_output (ok : bool) : TM bool := tcp_call id;; mret ok.

(** ** The SOCKS client *)

Definition StreamPassInterface_Sender_Send (d : list Z) : TM unit :=
  w ← get;
  ASSERT (socks (env w) && bool_decide (sending (env w) = None) && (0 <? zlen d));;
  modify (upd_env (set_sending (Some (zlen d)))).
Definition StreamRecvInterface_Receiver_Recv : TM unit :=
  w ← get;
  ASSERT (socks (env w) && negb (receiving (env w)));;
  modify (upd_env (set_receiving true)).
Definition BSocksClient_Free : TM unit :=
  w ← get;
  ASSERT (socks (env w));;
  modify (upd_env (λ e, set_socks false (set_sending None (set_receiving false e)))).

(** Answers of the stack to the calls an event makes: [tcp_sndbuf] and the
    result of each [tcp_write] (a buffer without space after that),
    [tcp_output] and [tcp_close]. *)
Record oracle := mkOracle { writes : list (Z * err_t); output_ok : bool; close_ok : bool }.

Definition client_dealloc : TM unit :=
  c ← client;
  ASSERT (client_closed c);;
  ASSERT (socks_closed c);;
  emit dealloc;;
  modify (set_freed true).

(** [client_free_socks], [client_handle_freed_client] and [client_free_client]
    call each other: each closes its own side, then the other side if nothing
    is left to be done.  The parts that close one side: *)
Definition remove_callbacks : TM unit := tcp_err_null;; tcp_recv_null;; tcp_sent_null.

Definition kill_client : TM unit :=
  modify (set_dead true);;
  put_client (set_client_closed true).

Definition release_socks : TM unit :=
  c ← client;
  ASSERT (negb (socks_closed c));;
  when (socks_up c) (when (negb (client_closed c)) tcp_recv_null);;
  BSocksClient_Free;;
  put_client (set_socks_closed true).

Definition release_client (o : oracle) : TM unit :=
  remove_callbacks;;
  ok ← tcp_close (close_ok o);
  when (negb ok) tcp_abort.

(** [client_free_socks] when the client is closed. *)
Definition free_socks_last : TM unit := release_socks;; client_dealloc.

Definition client_handle_freed_client : TM unit :=
  c ← client;
  ASSERT (negb (client_closed c));;
  kill_client;;
  c ← client;
  if (0 <? zlen (buf c)) && negb (socks_closed c) then mret tt
  else if negb (socks_closed c) then free_socks_last
  else client_dealloc.

Definition client_free_client (o : oracle) : TM unit :=
  c ← client;
  ASSERT (negb (client_closed c));;
  release_client o;;
  client_handle_freed_client.

Definition client_abort_client : TM unit :=
  c ← client;
  ASSERT (negb (client_closed c));;
  remove_callbacks;;
  tcp_abort;;
  client_handle_freed_client.

Definition client_free_socks (o : oracle) : TM unit :=
  release_socks;;
  c ← client;
  if socks_up c && ((0 <=? socks_recv_buf_used c) || (0 <? socks_recv_tcp_pending c)) && negb (client_closed c) then mret tt
  else if negb (client_closed c) then client_free_client o
  else client_dealloc.

Definition client_murder : TM unit :=
  c ← client;
  when (negb (client_closed c)) (remove_callbacks;; tcp_abort;; kill_client);;
  c ← client;
  when (negb (socks_closed c)) (BSocksClient_Free;; put_client (set_socks_closed true));;
  client_dealloc.

Definition client_err_func : TM unit :=
  c ← client;
  ASSERT (negb (client_closed c));;
  client_handle_freed_client.

Definition client_send_to_socks : TM unit :=
  c ← client;
  ASSERT (negb (socks_closed c));;
  ASSERT (socks_up c);;
  ASSERT (0 <? zlen (buf c));;
  StreamPassInterface_Sender_Send (buf c).

Definition client_socks_send_handler_done (o : oracle) (data_len : Z) : TM unit :=
  c ← client;
  ASSERT (negb (socks_closed c));;
  ASSERT (socks_up c);;
  ASSERT (0 <? zlen (buf c));;
  ASSERT (0 <? data_len);;
  ASSERT (data_len <=? zlen (buf c));;
  put_client (set_buf (slice data_len (zlen (buf c) - data_len) (buf c)));;
  when (negb (client_closed c)) (tcp_recved data_len);;
  c ← client;
  if 0 <? zlen (buf c) then StreamPassInterface_Sender_Send (buf c)
  else when (client_closed c) (client_free_socks o).

Definition client_socks_recv_initiate : TM unit :=
  c ← client;
  ASSERT (negb (client_closed c));;
  ASSERT (negb (socks_closed c));;
  ASSERT (socks_up c);;
  ASSERT (socks_recv_buf_used c =? -1);;
  StreamRecvInterface_Receiver_Recv.

(** The loop of [client_socks_recv_send_out]: whether it ended without a
    fatal error of [tcp_write]. *)
Fixpoint write_out (answers : list (Z * err_t)) : TM bool :=
  match answers with
  | [] => mret true
  | (sndbuf, err) :: answers' =>
      c ← client;
      let to_write := Z.min (socks_recv_buf_used c - socks_recv_buf_sent c) (u16 sndbuf) in
      if to_write =? 0 then mret true
      else
        err ← tcp_write (slice (socks_recv_buf_sent c) to_write (socks_recv_buf c)) err;
        match err with
        | ERR_OK =>
            put_client (λ c, set_socks_recv_tcp_pending (socks_recv_tcp_pending c + to_write)
                               (set_socks_recv_buf_sent (socks_recv_buf_sent c + to_write) c));;
            c ← client;
            if socks_recv_buf_sent c <? socks_recv_buf_used c then write_out answers' else mret true
        | ERR_MEM => mret true
        | _ => mret false
        end
  end.

(** [false] for the return value -1: the client was aborted. *)
Definition client_socks_recv_send_out (o : oracle) : TM bool :=
  c ← client;
  ASSERT (negb (client_closed c));;
  ASSERT (socks_up c);;
  ASSERT (0 <? socks_recv_buf_used c);;
  ASSERT (socks_recv_buf_sent c <? socks_recv_buf_used c);;
  ASSERT (negb (socks_recv_waiting c));;
  ok ← write_out (writes o);
  if negb ok then client_abort_client;; mret false
  else
    ok ← tcp_output (output_ok o);
    if negb ok then client_abort_client;; mret false
    else
      c ← client;
      if socks_recv_buf_sent c <? socks_recv_buf_used c then
        if socks_recv_tcp_pending c =? 0 then client_abort_client;; mret false
        else put_client (set_socks_recv_waiting true);; mret true
      else put_client (set_socks_recv_buf_used (-1));; mret true.

Definition client_socks_recv_handler_done (o : oracle) (d : list Z) : TM unit :=
  c ← client;
  ASSERT (0 <? zlen d);;
  ASSERT (zlen d <=? CLIENT_SOCKS_RECV_BUF_SIZE);;
  ASSERT (negb (socks_closed c));;
  ASSERT (socks_up c);;
  ASSERT (socks_recv_buf_used c =? -1);;
  if client_closed c then mret tt
  else
    put_client (λ c, set_socks_recv_buf d (set_socks_recv_buf_used (zlen d) (set_socks_recv_buf_sent 0
                       (set_socks_recv_waiting false c))));;
    ok ← client_socks_recv_send_out o;
    if negb ok then mret tt
    else
      c ← client;
      when (socks_recv_buf_used c =? -1) client_socks_recv_initiate.

Definition client_socks_handler (o : oracle) (event : SocksClient.event) : TM unit :=
  c ← client;
  ASSERT (negb (socks_closed c));;
  match event with
  | SocksClient.EVENT_ERROR => client_free_socks o
  | SocksClient.EVENT_UP =>
      ASSERT (negb (socks_up c));;
      put_client (λ c, set_socks_recv_buf_used (-1) (set_socks_recv_tcp_pending 0 c));;
      when (negb (client_closed c)) tcp_sent;;
      put_client (set_socks_up true);;
      when (0 <? zlen (buf c)) client_send_to_socks;;
      when (negb (client_closed c)) client_socks_recv_initiate
  | SocksClient.EVENT_ERROR_CLOSED =>
      ASSERT (socks_up c);;
      client_free_socks o
  end.

(** ** Events of the SOCKS client *)

Inductive socks_ev :=
  | Handler (event : SocksClient.event)
  | SendDone (data_len : Z)
  | RecvDone (d : list Z).

(** When they can happen. *)
Definition socks_allowed (w : world) (e : socks_ev) : bool :=
  negb (freed w) && socks (env w) &&
  match e with
  | Handler SocksClient.EVENT_UP => negb (socks_ready (env w))
  | Handler SocksClient.EVENT_ERROR => true
  | Handler SocksClient.EVENT_ERROR_CLOSED => socks_ready (env w)
  | SendDone n => match sending (env w) with Some len => (0 <? n) && (n <=? len) | None => false end
  | RecvDone d => receiving (env w) && (0 <? zlen d) && (zlen d <=? CLIENT_SOCKS_RECV_BUF_SIZE)
  end.

(** What happens outside of the client, then its handler. *)
Definition socks_event (oe : oracle * socks_ev) : TM unit :=
  let '(o, e) := oe in
  match e with
  | Handler event =>
      modify (λ w, match event with SocksClient.EVENT_UP => upd_env (set_socks_ready true) w | _ => upd_hist (set_socks_failed true) w end);;
      client_socks_handler o event
  | SendDone n =>
      modify (λ w, upd_hist (set_to_socks (to_socks (hist w) ++ slice 0 n (buf (cli w)))) (upd_env (set_sending None) w));;
      client_socks_send_handler_done o n
  | RecvDone d =>
      modify (λ w, upd_hist (set_from_socks (from_socks (hist w) ++ d)) (upd_env (set_receiving false) w));;
      client_socks_recv_handler_done o d
  end.

(** [BReactor_Synchronize]: the jobs set so far, and with them events of the
    SOCKS client, run before the callback continues. *)
Fixpoint sync (es : list (oracle * socks_ev)) : TM unit :=
  match es with
  | [] => mret tt
  | e :: es' => w ← get; when (socks_allowed w (snd e)) (socks_event e);; sync es'
  end.

(** ** Callbacks of the stack *)

(** [DEAD_ENTER], the jobs, [DEAD_LEAVE2]: whether the client was killed. *)
Definition sync_dead (es : list (oracle * socks_ev)) : TM bool :=
  modify (set_dead false);;
  sync es;;
  w ← get;
  mret (dead_client w).

(** [None]: the peer has closed the connection. *)
Definition client_recv_func (o : oracle) (es : list (oracle * socks_ev)) (p : option (list Z)) : TM err_t :=
  c ← client;
  ASSERT (negb (client_closed c));;
  match p with
  | None => client_free_client o;; mret ERR_ABRT
  | Some d =>
      ASSERT (0 <? zlen d);;
      if zlen d >? TCP_WND - zlen (buf c) then mret ERR_MEM
      else
        put_client (set_buf (buf c ++ d));;
        modify (upd_hist (λ h, set_from_tcp (from_tcp h ++ d) h));;
        c ← client;
        killed ← (if (zlen (buf c) =? zlen d) && socks_up c then
                    ASSERT (negb (socks_closed c));;
                    client_send_to_socks;;
                    sync_dead es
                  else mret false);
        if (killed : bool) then mret ERR_ABRT else emit pbuf_free;; mret ERR_OK
  end.

Definition client_sent_func (o : oracle) (es : list (oracle * socks_ev)) (len : Z) : TM err_t :=
  c ← client;
  ASSERT (negb (client_closed c));;
  ASSERT (socks_up c);;
  ASSERT (0 <? len);;
  ASSERT (len <=? socks_recv_tcp_pending c);;
  put_client (set_socks_recv_tcp_pending (socks_recv_tcp_pending c - len));;
  if 0 <? socks_recv_buf_used c then
    ASSERT (socks_recv_waiting c);;
    ASSERT (socks_recv_buf_sent c <? socks_recv_buf_used c);;
    put_client (set_socks_recv_waiting false);;
    ok ← client_socks_recv_send_out o;
    if negb ok then mret ERR_ABRT
    else
      c ← client;
      ASSERT (0 <? socks_recv_tcp_pending c);;
      killed ← (if (socks_recv_buf_used c =? -1) && negb (socks_closed c) then client_socks_recv_initiate;; sync_dead es
                else mret false);
      if (killed : bool) then mret ERR_ABRT else mret ERR_OK
  else
    c ← client;
    if socks_closed c && (socks_recv_tcp_pending c =? 0) then client_free_client o;; mret ERR_ABRT
    else mret ERR_OK.

(** ** Everything that can happen to a client *)

Inductive ev :=
  | Recv (es : list (oracle * socks_ev)) (p : option (list Z))
  | Sent (es : list (oracle * socks_ev)) (len : Z)
  | Err
  | Socks (e : socks_ev).

(** The stack calls a callback that is set, and reports as sent what was
    written; it gives up the connection before it calls the error callback. *)
Definition allowed (w : world) (e : ev) : bool :=
  negb (freed w) &&
  match e with
  | Recv _ p => pcb (env w) && cb_recv (env w) && match p with Some d => 0 <? zlen d | None => true end
  | Sent _ len => pcb (env w) && cb_sent (env w) && (0 <? len) && (len <=? zlen (to_tcp (hist w)) - confirmed (hist w))
  | Err => pcb (env w) && cb_err (env w)
  | Socks e => socks_allowed w e
  end.

Definition handler (o : oracle) (e : ev) : TM err_t :=
  match e with
  | Recv es p =>
      when (match p with None => true | Some _ => false end) (modify (upd_hist (set_tcp_ended true)));;
      client_recv_func o es p
  | Sent es len => modify (upd_hist (λ h, set_confirmed (confirmed h + len) h));; client_sent_func o es len
  | Err =>
      modify (λ w, upd_hist (set_tcp_ended true) (upd_env (λ e, set_pcb false (set_cb_err false (set_cb_recv false (set_cb_sent false e)))) w));;
      client_err_func;; mret ERR_OK
  | Socks e => socks_event (o, e);; mret ERR_OK
  end.

(** A connection the stack has just accepted: there is no client yet.  The
    fields of the client are set when it is allocated. *)
Definition incoming : world :=
  mkWorld (mkClient false [] false false [] 0 0 false 0) (mkEnv true false false false false None false false)
          (mkHistory [] [] [] [] 0 0 false false) true false.

(** The operations that can fail when a connection is accepted. *)
Record accept_oracle := mkAccept { malloc_ok : bool; concat_ok : bool; init_ok : bool }.

(** [append_source]: the options ask for the source address in the user
    name. *)
Definition listener_accept_func (append_source : bool) (a : accept_oracle) (es : list (oracle * socks_ev)) : TM err_t :=
  if negb (malloc_ok a) then mret ERR_MEM
  else
    modify (set_freed false);;
    if (append_source && negb (concat_ok a)) || negb (init_ok a) then modify (set_freed true);; mret ERR_MEM
    else
      modify (upd_env (set_socks true));;
      emit append_client;;
      put_client (set_client_closed false);;
      tcp_call (upd_env (set_cb_err true));;
      tcp_call (upd_env (set_cb_recv true));;
      put_client (set_buf []);;
      put_client (set_socks_up false);;
      put_client (set_socks_closed false);;
      killed ← sync_dead es;
      if (killed : bool) then mret ERR_ABRT else mret ERR_OK.

(** A connection from its acceptance on: events that cannot happen in the
    state they meet are skipped. *)
Fixpoint events (es : list (oracle * ev)) : TM unit :=
  match es with
  | [] => mret tt
  | (o, e) :: es' => w ← get; when (allowed w e) (handler o e;; mret tt);; events es'
  end.

Definition connection (append_source : bool) (a : accept_oracle) (sync_es : list (oracle * socks_ev)) (es : list (oracle * ev)) : TM err_t :=
  r ← listener_accept_func append_source a sync_es;
  events es;;
  mret r.

(** ** All connections

    [tcp_clients] and [num_clients]; the list holds the clients in the order
    in which they were accepted. *)
Record tunnel := mkTunnel { tcp_clients : list world; num_clients : Z }.

(** The counter follows the calls on the list. *)
Fixpoint count_clients (es : list call) (n : Z) : option Z :=
  match es with
  | [] => Some n
  | append_client :: es' => if 0 <=? n then count_clients es' (n + 1) else None
  | dealloc :: es' => if 0 <? n then count_clients es' (n - 1) else None
  | pbuf_free :: es' => count_clients es' n
  end.

Inductive tunnel_ev :=
  | Accept (append_source : bool) (a : accept_oracle) (es : list (oracle * socks_ev))
  | ClientEvent (i : nat) (o : oracle) (e : ev).

Definition tunnel_step (e : tunnel_ev) (T : tunnel) : option tunnel :=
  match e with
  | Accept append_source a es =>
      match listener_accept_func append_source a es incoming with
      | Some (_, w', t) =>
          match count_clients t (num_clients T) with
          | Some n => Some (mkTunnel (if freed w' then tcp_clients T else tcp_clients T ++ [w']) n)
          | None => None
          end
      | None => None
      end
  | ClientEvent i o e =>
      match tcp_clients T !! i with
      | Some w =>
          if allowed w e then
            match handler o e w with
            | Some (_, w', t) =>
                match count_clients t (num_clients T) with
                | Some n => Some (mkTunnel (if freed w' then delete i (tcp_clients T) else <[i := w']> (tcp_clients T)) n)
                | None => None
                end
            | None => None
            end
          else Some T
      | None => Some T
      end
  end.

Fixpoint tunnel_run (es : list tunnel_ev) (T : tunnel) : option tunnel :=
  match es with
  | [] => Some T
  | e :: es' => match tunnel_step e T with Some T' => tunnel_run es' T' | None => None end
  end.

(** The loop at the end of [main]: what is left of each client and the
    counter. *)
Fixpoint free_clients (l : list world) (n : Z) : option (list world * Z) :=
  match l with
  | [] => Some ([], n)
  | w :: l' =>
      match client_murder w with
      | Some (_, w', t) =>
          match count_clients t n with
          | Some n' => match free_clients l' n' with Some (ws, n'') => Some (w' :: ws, n'') | None => None end
          | None => None
          end
      | None => None
      end
  end.

(** ** Invariant *)

(** What was received from SOCKS and is not yet written to the stack. *)
Definition unsent (c : tcp_client) : list Z :=
  if 0 <? socks_recv_buf_used c
  then slice (socks_recv_buf_sent c) (socks_recv_buf_used c - socks_recv_buf_sent c) (socks_recv_buf c) else [].

(** The data, whatever is open. *)
Record data_ok (w : world) : Prop := mkData {
  d_buf : zlen (buf (cli w)) <= TCP_WND;
  d_in : from_tcp (hist w) = to_socks (hist w) ++ buf (cli w);
  d_out : to_tcp (hist w) `prefix_of` from_socks (hist w)
}.

(** The SOCKS side, while it is open. *)
Record socks_ok (w : world) : Prop := mkSocks {
  s_down : socks_up (cli w) = false →
    sending (env w) = None ∧ receiving (env w) = false ∧ from_socks (hist w) = [] ∧ to_tcp (hist w) = [] ∧
    to_socks (hist w) = [] ∧ confirmed (hist w) = 0;
  s_sending : socks_up (cli w) = true →
    match sending (env w) with None => buf (cli w) = [] | Some n => 0 < n <= zlen (buf (cli w)) end;
  s_receiving : receiving (env w) = true → socks_recv_buf_used (cli w) = -1;
  s_ready : socks_ready (env w) = socks_up (cli w)
}.

(** The TCP side, while it is open. *)
Record tcp_ok (w : world) : Prop := mkTcp {
  t_recved : recved (hist w) = zlen (to_socks (hist w));
  t_pending : socks_up (cli w) = true →
    socks_recv_tcp_pending (cli w) = zlen (to_tcp (hist w)) - confirmed (hist w) ∧ 0 <= socks_recv_tcp_pending (cli w);
  t_out : socks_up (cli w) = true → from_socks (hist w) = to_tcp (hist w) ++ unsent (cli w);
  t_buffer : socks_up (cli w) = true →
    socks_recv_buf_used (cli w) = -1 ∨
    (0 <= socks_recv_buf_sent (cli w) < socks_recv_buf_used (cli w) ∧
     zlen (socks_recv_buf (cli w)) = socks_recv_buf_used (cli w) ∧
     socks_recv_waiting (cli w) = true ∧ 0 < socks_recv_tcp_pending (cli w))
}.

(** The callbacks that are set, and the objects that exist. *)
Definition env_ok (w : world) : Prop :=
  pcb (env w) = negb (client_closed (cli w)) ∧ cb_err (env w) = negb (client_closed (cli w)) ∧
  cb_recv (env w) = negb (client_closed (cli w)) && negb (socks_closed (cli w)) ∧
  cb_sent (env w) = negb (client_closed (cli w)) && socks_up (cli w) ∧
  socks (env w) = negb (socks_closed (cli w)).

Record inv (w : world) : Prop := mkInv {
  v_live : freed w = false;
  v_env : env_ok w;
  v_data : data_ok w;
  v_socks : socks_closed (cli w) = false → socks_ok w;
  v_tcp : client_closed (cli w) = false → tcp_ok w;
  v_sc : socks_closed (cli w) = true →
    socks_up (cli w) = true ∧ client_closed (cli w) = false ∧ 0 < socks_recv_tcp_pending (cli w) ∧
    socks_failed (hist w) = true ∧ sending (env w) = None ∧ receiving (env w) = false;
  v_cc : client_closed (cli w) = true →
    socks_closed (cli w) = false ∧ 0 < zlen (buf (cli w)) ∧ tcp_ended (hist w) = true;
  v_receiving : socks_up (cli w) = true → socks_closed (cli w) = false → client_closed (cli w) = false →
    socks_recv_buf_used (cli w) = -1 → receiving (env w) = true
}.

(** The end of a client: both sides are closed, the memory is freed once, and
    data is missing at the other end only if that end failed. *)
Record final (w : world) : Prop := mkFinal {
  e_freed : freed w = true;
  e_closed : pcb (env w) = false ∧ socks (env w) = false ∧ cb_err (env w) = false ∧ cb_recv (env w) = false ∧ cb_sent (env w) = false;
  e_in : to_socks (hist w) `prefix_of` from_tcp (hist w) ∧
         (socks_failed (hist w) = false → to_socks (hist w) = from_tcp (hist w));
  e_out : to_tcp (hist w) `prefix_of` from_socks (hist w) ∧
          (tcp_ended (hist w) = false → to_tcp (hist w) = from_socks (hist w) ∧ confirmed (hist w) = zlen (to_tcp (hist w)))
}.

(** The outcome of an event: the client goes on, or it is freed, and with the
    only call. *)
Definition outcome (w' : world) (es : list call) : Prop := (inv w' ∧ es = []) ∨ (final w' ∧ es = [dealloc]).

(** [dead_client] records that the connection of the stack went away. *)
Definition dead_ok (w w' : world) : Prop :=
  dead_client w' = dead_client w || (pcb (env w) && negb (pcb (env w'))) ∧ (pcb (env w) = false → pcb (env w') = false).

Lemma dead_same w w' : dead_client w' = dead_client w → pcb (env w') = pcb (env w) → dead_ok w w'.
Proof. unfold dead_ok. intros -> ->. split; [|done]. destruct (pcb (env w)); cbn; by rewrite orb_false_r. Qed.

Lemma dead_gone w w' : pcb (env w) = true → dead_client w' = true → pcb (env w') = false → dead_ok w w'.
Proof. unfold dead_ok. intros -> -> ->. split; [|done]. cbn. by rewrite orb_true_r. Qed.

Lemma dead_trans w1 w2 w3 : dead_ok w1 w2 → dead_ok w2 w3 → dead_ok w1 w3.
Proof.
  unfold dead_ok. intros [-> H2] [-> H3]. split; [|auto].
  destruct (pcb (env w1)), (pcb (env w2)), (pcb (env w3)); cbn; try (by rewrite ?orb_false_r, ?orb_true_r); naive_solver.
Qed.

Lemma outcome_quiet w : inv w → outcome w [].
Proof. intros HI. by left. Qed.

(** A client whose connection is gone in the stack, before
    [client_handle_freed_client]. *)
Record gone (w : world) : Prop := mkGone {
  g_live : freed w = false;
  g_env : client_closed (cli w) = false ∧ pcb (env w) = false ∧ cb_err (env w) = false ∧ cb_recv (env w) = false ∧
          cb_sent (env w) = false ∧ socks (env w) = negb (socks_closed (cli w));
  g_data : data_ok w;
  g_socks : socks_closed (cli w) = false → socks_ok w ∧ tcp_ended (hist w) = true;
  g_sc : socks_closed (cli w) = true → socks_failed (hist w) = true;
  g_end : tcp_ended (hist w) = false → to_tcp (hist w) = from_socks (hist w) ∧ confirmed (hist w) = zlen (to_tcp (hist w))
}.

Ltac unpack w := destruct w as [[cc b up sc rb ru rs rw rp] [pc ce cr cs so sn rc rdy] [ft ts fs tt_ rv cf sf te] fr dd].

(** Computes the state of a world that is given by its fields. *)
Ltac fields := cbv [upd_cli upd_env upd_hist set_freed set_dead
  set_client_closed set_buf set_socks_up set_socks_closed set_socks_recv_buf set_socks_recv_buf_used set_socks_recv_buf_sent
  set_socks_recv_waiting set_socks_recv_tcp_pending set_pcb set_cb_err set_cb_recv set_cb_sent set_socks set_sending set_receiving set_socks_ready
  set_from_tcp set_to_socks set_from_socks set_to_tcp set_recved set_confirmed set_socks_failed set_tcp_ended id] in *; cbn in *.

Lemma handle_freed_run w : gone w →
  ∃ w' es, client_handle_freed_client w = Some (tt, w', es) ∧ outcome w' es ∧ dead_client w' = true ∧ pcb (env w') = false.
Proof.
  intros [Hl (Hcc & Hpc & Hce & Hcr & Hcs & Hso) [Hb Hin Hout] Hsk Hsc Hend]. unpack w. cbn in *. subst.
  unfold client_handle_freed_client, client, kill_client, put_client. mrun.
  destruct (0 <? zlen b) eqn:Hz; zb; destruct sc; cbn; mrun.
  - unfold client_dealloc, client. mrun. do 2 eexists. split; [reflexivity|]. split; [|done]. right. split; [|done]. split; cbn; try done.
    split; [by exists b|]. intros ->. by specialize (Hsc eq_refl).
  - do 2 eexists. split; [reflexivity|]. split; [|done]. apply outcome_quiet. destruct (Hsk eq_refl) as [[S1 S2 S3 S4] Hte].
    by split.
  - unfold client_dealloc, client. mrun. do 2 eexists. split; [reflexivity|]. split; [|done]. right. split; [|done]. split; cbn; try done.
    split; [by exists b|]. intros ->. by specialize (Hsc eq_refl).
  - unfold free_socks_last, release_socks, client_dealloc, client, BSocksClient_Free, put_client. mrun.
    assert (Hb0 : b = []) by (apply zlen_zero_inv; pose proof (zlen_nonneg b); lia). subst b.
    destruct up; mrun; (do 2 eexists; split; [reflexivity|]; split; [|done]; right; split; [|done]; split; cbn; try done);
      rewrite app_nil_r; done.
Qed.

(** The connection of the stack is given up. *)
Definition drop_pcb (w : world) : world :=
  upd_env (λ e, mkEnv false false false false (socks e) (sending e) (receiving e) (socks_ready e)) w.
Definition end_tcp (w : world) : world := upd_hist (set_tcp_ended true) w.

Lemma gone_end w : gone w → gone (end_tcp w).
Proof.
  intros [Hl He [D1 D2 D3] Hs Hsc Hend]. split; cbn in *; try done. intros H. destruct (Hs H) as [[? ? ? ?] _]. done.
Qed.

Lemma free_client_run o w : freed w = false → pcb (env w) = true → gone (drop_pcb w) →
  ∃ w' es, client_free_client o w = Some (tt, w', es) ∧ outcome w' es ∧ dead_client w' = true ∧ pcb (env w') = false.
Proof.
  intros Hl Hp HG. destruct (g_env _ HG) as (Hcc & _). cbn in Hcc.
  unfold client_free_client, client, release_client, remove_callbacks, tcp_err_null, tcp_recv_null, tcp_sent_null, tcp_close, tcp_abort, tcp_call.
  mrun. destruct (handle_freed_run (drop_pcb w) HG) as (w1 & es1 & E1 & HO1).
  destruct (handle_freed_run (end_tcp (drop_pcb w)) (gone_end _ HG)) as (w2 & es2 & E2 & HO2).
  unpack w. unfold drop_pcb, end_tcp in *. cbn in *. subst. cbn. destruct (close_ok o); mrun; fields.
  - rewrite E1. do 2 eexists. by split; [reflexivity|].
  - rewrite E2. do 2 eexists. by split; [reflexivity|].
Qed.

Lemma abort_client_run w : freed w = false → pcb (env w) = true → gone (end_tcp (drop_pcb w)) →
  ∃ w' es, client_abort_client w = Some (tt, w', es) ∧ outcome w' es ∧ dead_client w' = true ∧ pcb (env w') = false.
Proof.
  intros Hl Hp HG. destruct (g_env _ HG) as (Hcc & _). cbn in Hcc.
  unfold client_abort_client, client, remove_callbacks, tcp_err_null, tcp_recv_null, tcp_sent_null, tcp_abort, tcp_call.
  mrun. destruct (handle_freed_run (end_tcp (drop_pcb w)) HG) as (w' & es & E & HO).
  unpack w. unfold drop_pcb, end_tcp in *. cbn in *. subst. mrun. fields. rewrite E.
  do 2 eexists. by split; [reflexivity|].
Qed.

(** From a state in order, the connection can be given up. *)
Lemma inv_gone w : inv w → client_closed (cli w) = false → gone (end_tcp (drop_pcb w)).
Proof.
  intros [Hl (Hpc & _ & _ & _ & Hso) [D1 D2 D3] Hs Ht Hsc Hcc Hr] Hc. split; cbn in *; try done.
  - intros Hk. destruct (Hs Hk) as [S1 S2 S3 S4]. done.
  - intros Hk. by destruct (Hsc Hk) as (_ & _ & _ & ? & _).
Qed.

(** [client_free_socks] of a closed client is what
    [client_handle_freed_client] needs of it. *)
Lemma free_socks_closed o w : client_closed (cli w) = true → client_free_socks o w = free_socks_last w.
Proof.
  intros Hc. unfold client_free_socks, free_socks_last, release_socks, client, put_client, BSocksClient_Free, tcp_recv_null, tcp_call. mrun.
  unpack w. cbn in *. subst. destruct fr; cbn; [done|]. destruct sc; cbn; [done|]. destruct so; [|by destruct up].
  destruct up; cbn; [|by destruct (client_dealloc _) as [[[[] ?] ?]|]].
  rewrite andb_false_r. by destruct (client_dealloc _) as [[[[] ?] ?]|].
Qed.

Lemma free_socks_after_client o w : freed w = false → env_ok w → data_ok w → client_closed (cli w) = true → socks_closed (cli w) = false →
  tcp_ended (hist w) = true → buf (cli w) = [] ∨ socks_failed (hist w) = true →
  ∃ w' es, client_free_socks o w = Some (tt, w', es) ∧ outcome w' es ∧ dead_ok w w'.
Proof.
  intros Hl (Hpc & Hce & Hcr & Hcs & Hso) [D1 D2 D3] Hc Hk Hte Hf. rewrite free_socks_closed by done.
  unfold free_socks_last, release_socks, client_dealloc, client, BSocksClient_Free, put_client. mrun.
  unpack w. cbn in *. subst. cbn.
  destruct up; cbn; (do 2 eexists; split; [reflexivity|]; split; [|by apply dead_same]; right; split; [|done]);
    (split; cbn; try done; split; [by exists b|]; destruct Hf as [->| ->]; [rewrite app_nil_r|]; done).
Qed.

Lemma free_socks_run o w : inv w → socks_closed (cli w) = false → socks_failed (hist w) = true →
  ∃ w' es, client_free_socks o w = Some (tt, w', es) ∧ outcome w' es ∧ dead_ok w w'.
Proof.
  intros HI Hk Hf. destruct HI as [Hl HE HD Hs Ht Hsc Hcc Hr]. specialize (Hs Hk).
  destruct (client_closed (cli w)) eqn:Hc.
  { apply free_socks_after_client; try done; [by apply Hcc|by right]. }
  destruct HE as (Hpc & Hce & Hcr & Hcs & Hso). rewrite Hc in Hpc, Hce, Hcr, Hcs. specialize (Ht eq_refl).
  unfold client_free_socks, release_socks, client, BSocksClient_Free, put_client, tcp_recv_null, tcp_call. mrun.
  set (w1 := mkWorld (set_socks_closed true (cli w))
    (mkEnv (pcb (env w)) (cb_err (env w)) (if socks_up (cli w) then false else cb_recv (env w)) (cb_sent (env w)) false None false (socks_ready (env w)))
    (hist w) (freed w) (dead_client w)).
  assert (HG : (socks_up (cli w) = false ∨ (socks_recv_buf_used (cli w) = -1 ∧ socks_recv_tcp_pending (cli w) = 0)) → gone (drop_pcb w1)).
  { intros Hdone. split; unfold w1; cbn; try done. { by destruct HD. } intros _. destruct Hs as [S1 S2 S3 S4], Ht as [T1 T2 T3 T4].
    destruct (socks_up (cli w)) eqn:Hup.
    - destruct Hdone as [|[Hu Hpn]]; [done|]. specialize (T3 eq_refl). unfold unsent in T3. rewrite Hu in T3. cbn in T3. rewrite app_nil_r in T3.
      destruct (T2 eq_refl) as [T2' _]. split; [done|lia].
    - destruct (S1 eq_refl) as (_ & _ & -> & -> & _ & ->). done. }
  pose proof (free_client_run o w1 Hl Hpc) as HFC.
  unpack w. cbn in *. subst. cbn. destruct up; cbn.
  - destruct (_ || _) eqn:Hwait; cbn.
    + do 2 eexists. split; [reflexivity|]. split; [|by apply dead_same]. apply outcome_quiet. destruct Ht as [T1 T2 T3 T4]. destruct HD as [D1 D2 D3].
      assert (Hp : 0 < rp). { destruct (T4 eq_refl) as [Hu|(_ & _ & _ & ?)]; [|done]. cbn in Hu. apply orb_true_iff in Hwait as [?|?]; zb; lia. }
      split; cbn; try done.
    + zb. destruct HFC as (w' & es & E & HO & Hd & Hp'); [apply HG; right|].
      { destruct (t_pending _ Ht eq_refl) as [_ ?]. destruct (t_buffer _ Ht eq_refl) as [?|(? & _)]; cbn in *; [split; [done|lia]|lia]. }
      subst w1. fields. rewrite E. do 2 eexists. split; [reflexivity|]. split; [done|]. by apply dead_gone.
  - destruct HFC as (w' & es & E & HO & Hd & Hp'); [apply HG; by left|].
    subst w1. fields. rewrite E. do 2 eexists. split; [reflexivity|]. split; [done|]. by apply dead_gone.
Qed.

(** What is left of the buffer when its first [n] bytes are gone. *)
Lemma slice_cut {A} n (l : list A) : 0 <= n <= zlen l →
  ∃ l1 l2, l = l1 ++ l2 ∧ slice 0 n l = l1 ∧ slice n (zlen l - n) l = l2 ∧ zlen l1 = n.
Proof.
  intros. do 2 eexists. split; [|repeat split]; [|apply zlen_slice; lia].
  rewrite <-(slice_all l) at 1. replace (zlen l) with (n + (zlen l - n)) at 1 by lia. by rewrite slice_split by lia.
Qed.

(** ** Symbolic execution *)

Lemma runs_client w (Q : tcp_client → world → list call → Prop) : freed w = false → Q (cli w) w [] → runs client w Q.
Proof. intros Hf HQ. unfold runs, client. mrun. by rewrite Hf. Qed.

Lemma runs_put_client f w (Q : unit → world → list call → Prop) : freed w = false → Q tt (upd_cli f w) [] → runs (put_client f) w Q.
Proof. intros Hf HQ. unfold runs, put_client. mrun. by rewrite Hf. Qed.

Lemma runs_tcp_call f w (Q : unit → world → list call → Prop) : pcb (env w) = true → Q tt (f w) [] → runs (tcp_call f) w Q.
Proof. intros Hf HQ. unfold runs, tcp_call. mrun. by rewrite Hf. Qed.

(** One step on a world given by its fields; the assertions that arithmetic
    or evaluation decides are discharged. *)
Ltac go :=
  fields; repeat (first
    [ progress step1
    | apply runs_client
    | apply runs_put_client
    | apply runs_tcp_call ]; fields; try (progress zdec; done); try done).

(** What an event leaves behind. *)
Definition after (w : world) {A} (_ : A) (w' : world) (es : list call) : Prop := outcome w' es ∧ dead_ok w w'.

Lemma runs_ended {m : TM unit} {w} : (∃ w' es, m w = Some (tt, w', es) ∧ outcome w' es ∧ dead_ok w w') →
  ∀ Q, (∀ w' es, after w tt w' es → Q tt w' es) → runs m w Q.
Proof. intros (w' & es & E & HP) Q HPQ. unfold runs. rewrite E. by apply HPQ. Qed.

Lemma send_done_run o w n : inv w → socks_allowed w (SendDone n) = true → runs (socks_event (o, SendDone n)) w (after w).
Proof.
  intros [Hl HE [D1 D2 D3] Hs Ht Hsc Hcc Hr] Ha. unfold socks_allowed in Ha. apply andb_true_iff in Ha as [Ha1 Ha2]. zb.
  assert (Hk : socks_closed (cli w) = false). { destruct HE as (_ & _ & _ & _ & E). destruct (socks_closed (cli w)); [cbn in E; congruence|done]. }
  destruct (Hs Hk) as [S1 S2 S3 S4]. destruct (sending (env w)) as [len|] eqn:Hsn; [|done]. zb.
  assert (Hup : socks_up (cli w) = true). { destruct (socks_up (cli w)); [done|]. destruct (S1 eq_refl); done. }
  specialize (S2 Hup). destruct (slice_cut n (buf (cli w)) ltac:(lia)) as (b1 & b2 & Hb & Hb1 & Hb2 & Hn).
  unfold socks_event, client_socks_send_handler_done, tcp_recved, StreamPassInterface_Sender_Send.
  unpack w. destruct HE as (Hpc & Hce & Hcr & Hcs & Hso). cbn in *. subst b. subst. go. rewrite Hb1, Hb2 in *. autorewrite with flow_len in *.
  assert (HD : (ts ++ b1 ++ b2) = (ts ++ b1) ++ b2) by by rewrite app_assoc.
  destruct cc; go; (case_if; go).
  - split; [apply outcome_quiet|by apply dead_same]. destruct (Hcc eq_refl) as (_ & _ & ->).
    split; cbn; try done. split; cbn; [zlia|done|done].
  - assert (b2 = []) as -> by (apply zlen_zero_inv; zlia). destruct (Hcc eq_refl) as (_ & _ & ->). rewrite app_nil_r in *.
    eapply runs_ended; [apply free_socks_after_client|]; cbn; try done. by left.
  - split; [apply outcome_quiet|by apply dead_same]. destruct (Ht eq_refl) as [T1 T2 T3 T4]. cbn in *.
    split; cbn; try done; [split; cbn; [zlia|done|done]|intros _; split; cbn; [zlia|done..]].
  - assert (b2 = []) as -> by (apply zlen_zero_inv; zlia). rewrite app_nil_r in *. destruct (Ht eq_refl) as [T1 T2 T3 T4]. cbn in *.
    split; [apply outcome_quiet|by apply dead_same].
    split; cbn; try done. intros _; split; cbn; [zlia|done..].
Qed.

Lemma allowed_open w e : inv w → socks_allowed w e = true → socks_closed (cli w) = false.
Proof.
  intros HI Ha. unfold socks_allowed in Ha. zb. destruct (v_env _ HI) as (_ & _ & _ & _ & E).
  destruct (socks_closed (cli w)); [cbn in E; congruence|done].
Qed.

Lemma socks_up_run o w : inv w → socks_allowed w (Handler SocksClient.EVENT_UP) = true →
  runs (socks_event (o, Handler SocksClient.EVENT_UP)) w (after w).
Proof.
  intros HI Ha. pose proof (allowed_open _ _ HI Ha) as Hk. destruct HI as [Hl HE [D1 D2 D3] Hs Ht Hsc Hcc Hr].
  unfold socks_allowed in Ha. zb. destruct (Hs Hk) as [S1 S2 S3 S4]. destruct S1 as (Hsn & Hrc & Hfs & Htt & Hts & Hcf); [congruence|]. rename H0 into Hup. rewrite S4 in Hup.
  unfold socks_event, client_socks_handler, tcp_sent, client_send_to_socks, client_socks_recv_initiate, StreamPassInterface_Sender_Send, StreamRecvInterface_Receiver_Recv.
  unpack w. destruct HE as (Hpc & Hce & Hcr & Hcs & Hso). cbn in *. subst. cbn in *. go.
  destruct cc; [destruct (Hcc eq_refl) as (_ & Hb & ->)|specialize (Ht eq_refl); destruct Ht as [T1 _ _ _]]; go;
    (destruct (0 <? zlen b) eqn:Hz; zb; [|assert (b = []) as -> by (apply zlen_zero_inv; zlia)]; go; try zlia);
    (split; [apply outcome_quiet|by apply dead_same]).
  all: split; cbn; try done; intros _; split; cbn; try done; try lia; intros _; lia.
Qed.

Lemma socks_error_run o ev w : inv w → ev ≠ SocksClient.EVENT_UP → socks_allowed w (Handler ev) = true →
  runs (socks_event (o, Handler ev)) w (after w).
Proof.
  intros HI Hev Ha. pose proof (allowed_open _ _ HI Ha) as Hk.
  assert (HI' : inv (upd_hist (set_socks_failed true) w)).
  { destruct HI as [Hl HE [D1 D2 D3] Hs Ht Hsc Hcc Hr]. split; try done; cbn; try congruence.
    - intros H. by destruct (Hs H).
    - intros H. by destruct (Ht H). }
  pose proof (free_socks_run o _ HI' Hk eq_refl) as Hrun.
  assert (Hup : ev = SocksClient.EVENT_ERROR_CLOSED → socks_up (cli w) = true). { intros ->. unfold socks_allowed in Ha. zb. rewrite <-(s_ready _ (v_socks _ HI Hk)). done. }
  unfold socks_event, client_socks_handler. destruct ev; try done; cbn; step1; cbn; step1;
    (apply runs_client; [apply (v_live _ HI)|]); cbn; step1; step1; try (by rewrite Hk); cbn.
  - by eapply runs_ended.
  - step1. step1; [by apply Hup|]. by eapply runs_ended.
Qed.

(** [n] more bytes of the receive buffer are written to the stack. *)
Definition pushed (n : Z) (w : world) : world :=
  upd_hist (λ h, set_to_tcp (to_tcp h ++ slice (socks_recv_buf_sent (cli w)) n (socks_recv_buf (cli w))) h)
    (upd_cli (λ c, set_socks_recv_tcp_pending (socks_recv_tcp_pending c + n) (set_socks_recv_buf_sent (socks_recv_buf_sent c + n) c)) w).

Lemma pushed_pushed m n w : 0 <= m → 0 <= n → 0 <= socks_recv_buf_sent (cli w) → pushed n (pushed m w) = pushed (m + n) w.
Proof.
  intros. unpack w. cbn in *. unfold pushed. fields. rewrite slice_split by lia. rewrite <-app_assoc, !Z.add_assoc. done.
Qed.

Lemma pushed_none w : pushed 0 w = w.
Proof. unpack w. unfold pushed. fields. by rewrite slice_zero, app_nil_r, !Z.add_0_r. Qed.

Definition wrote (w : world) (_ : bool) (w' : world) (es : list call) : Prop :=
  es = [] ∧ ∃ n, 0 <= n <= socks_recv_buf_used (cli w) - socks_recv_buf_sent (cli w) ∧ w' = pushed n w.

Lemma write_out_run answers w : freed w = false → pcb (env w) = true → 0 <= socks_recv_buf_sent (cli w) <= socks_recv_buf_used (cli w) →
  runs (write_out answers) w (wrote w).
Proof.
  revert w. induction answers as [|[snd err] answers IH]; intros w Hl Hp Hr; cbn.
  { split; [done|]. exists 0. split; [lia|]. by rewrite pushed_none. }
  step1. apply runs_client; [done|]. set (n := Z.min _ (u16 snd)).
  assert (Hn : 0 <= n <= socks_recv_buf_used (cli w) - socks_recv_buf_sent (cli w)).
  { pose proof (u16_range snd) as Hu. unfold is_u16 in Hu. lia. }
  assert (H0 : ∀ b : bool, wrote w b w []).
  { intros. split; [done|]. exists 0. split; [lia|]. by rewrite pushed_none. }
  case_if; [apply H0|]. unfold tcp_write. repeat step1. apply runs_tcp_call; [done|]. step1. destruct err; [|apply H0..].
  step1. apply runs_put_client; [done|]. step1. apply runs_client; [done|]. cbn [cli upd_cli upd_hist].
  change (upd_cli _ _) with (pushed n w).
  case_if; [|split; [done|by exists n]].
  eapply runs_mono; [apply IH; cbn; [done|done|lia]|]. cbn. intros a w' es (-> & m & Hm & ->). split; [done|].
  cbn in Hm. exists (n + m). split; [lia|]. rewrite pushed_pushed by lia. done.
Qed.

(** The state in which [client_socks_recv_send_out] writes: data in the
    receive buffer, nothing being received. *)
Record busy (w : world) : Prop := mkBusy {
  b_live : freed w = false;
  b_open : client_closed (cli w) = false ∧ socks_up (cli w) = true ∧ socks_recv_waiting (cli w) = false ∧ receiving (env w) = false;
  b_env : env_ok w;
  b_data : data_ok w;
  b_sending : match sending (env w) with None => socks_closed (cli w) = false → buf (cli w) = [] | Some n => 0 < n <= zlen (buf (cli w)) end;
  b_sc : socks_closed (cli w) = true → socks_failed (hist w) = true ∧ sending (env w) = None;
  b_recved : recved (hist w) = zlen (to_socks (hist w));
  b_pending : socks_recv_tcp_pending (cli w) = zlen (to_tcp (hist w)) - confirmed (hist w) ∧ 0 <= socks_recv_tcp_pending (cli w);
  b_out : from_socks (hist w) = to_tcp (hist w) ++ unsent (cli w);
  b_buffer : 0 <= socks_recv_buf_sent (cli w) <= socks_recv_buf_used (cli w) ∧ 0 < socks_recv_buf_used (cli w) ∧
             zlen (socks_recv_buf (cli w)) = socks_recv_buf_used (cli w);
  b_ready : socks_closed (cli w) = false → socks_ready (env w) = true
}.

Lemma busy_pushed n w : busy w → 0 <= n <= socks_recv_buf_used (cli w) - socks_recv_buf_sent (cli w) → busy (pushed n w).
Proof.
  intros [Hl Ho HE [D1 D2 D3] Hsn Hsc Hrv [P1 P2] Hout (B1 & B2 & B3) Hrdy] Hn.
  assert (Hz : zlen (slice (socks_recv_buf_sent (cli w)) n (socks_recv_buf (cli w))) = n) by (apply zlen_slice; lia).
  unfold unsent in Hout. rewrite (proj2 (Z.ltb_lt _ _)) in Hout by lia.
  replace (socks_recv_buf_used (cli w) - socks_recv_buf_sent (cli w)) with
    (n + (socks_recv_buf_used (cli w) - (socks_recv_buf_sent (cli w) + n))) in Hout by lia.
  rewrite slice_split, app_assoc in Hout by lia.
  split; cbn; try done.
  - split; cbn; [done|done|]. rewrite Hout. by eexists.
  - rewrite zlen_app. lia.
  - unfold unsent. cbn. by rewrite (proj2 (Z.ltb_lt _ _)) by lia.
  - lia.
Qed.

Lemma busy_gone w : busy w → gone (end_tcp (drop_pcb w)).
Proof.
  intros [Hl Ho HE [D1 D2 D3] Hsn Hsc Hrv Hp Hout Hb Hrdy]. destruct HE as (Hpc & Hce & Hcr & Hcs & Hso). destruct Ho as (Hc & Hup & Hw & Hrc).
  split; cbn; try done; [|by intros [? _]%Hsc].
  intros Hk. split; [|done]. split; cbn; [congruence|intros _|congruence|rewrite Hup; auto]. destruct (sending (env w)); auto.
Qed.

(** The client was given up on the TCP side. *)
Definition given_up {A} (_ : A) (w' : world) (es : list call) : Prop := outcome w' es ∧ dead_client w' = true ∧ pcb (env w') = false.

Lemma abort_busy w : busy w → runs client_abort_client w given_up.
Proof.
  intros HB. destruct (abort_client_run w) as (w' & es & E & HO); [apply HB|..|by apply busy_gone|].
  - destruct HB as [? (Hc & _) (-> & _)]. by rewrite Hc.
  - unfold runs. by rewrite E.
Qed.

(** Everything is written and the next receive can start. *)
Record idle (w : world) : Prop := mkIdle {
  i_used : socks_recv_buf_used (cli w) = -1;
  i_open : freed w = false ∧ client_closed (cli w) = false ∧ socks_closed (cli w) = false ∧ socks_up (cli w) = true;
  i_socks : socks (env w) = true ∧ receiving (env w) = false;
  i_inv : inv (upd_env (set_receiving true) w)
}.

Definition sent_out (w : world) (ok : bool) (w' : world) (es : list call) : Prop :=
  if ok then es = [] ∧ dead_client w' = dead_client w ∧ pcb (env w') = true ∧ freed w' = false ∧ 0 < socks_recv_tcp_pending (cli w') ∧
    socks_closed (cli w') = socks_closed (cli w) ∧
    ((inv w' ∧ (socks_recv_buf_used (cli w') =? -1) && negb (socks_closed (cli w')) = false) ∨ idle w')
  else given_up tt w' es.

Lemma busy_waiting w : busy w → socks_recv_buf_sent (cli w) < socks_recv_buf_used (cli w) → socks_recv_tcp_pending (cli w) ≠ 0 →
  inv (upd_cli (set_socks_recv_waiting true) w).
Proof.
  intros [Hl (Hc & Hup & Hw & Hrc) HE [D1 D2 D3] Hsn Hsc Hrv Hp Hout Hb Hrdy] Hlt H0. split; cbn; try done.
  - intros Hk. split; cbn; try congruence; [destruct (sending (env w)); auto|rewrite Hup; auto].
  - intros _. split; cbn; try done. intros _. right. repeat split; try done; lia.
  - intros Hk. destruct (Hsc Hk). repeat split; try done. lia.
  - congruence.
  - lia.
Qed.

Lemma busy_empty w : busy w → socks_recv_buf_used (cli w) <= socks_recv_buf_sent (cli w) → 0 < socks_recv_tcp_pending (cli w) →
  let w' := upd_cli (set_socks_recv_buf_used (-1)) w in (inv w' ∧ socks_closed (cli w') = true) ∨ idle w'.
Proof.
  intros [Hl (Hc & Hup & Hw & Hrc) HE [D1 D2 D3] Hsn Hsc Hrv Hp Hout Hb Hrdy] Hge H0 w'.
  assert (Hall : from_socks (hist w) = to_tcp (hist w)).
  { rewrite Hout. unfold unsent. replace (_ - _) with 0 by lia. rewrite slice_zero. by case_if; rewrite app_nil_r. }
  assert (HT : ∀ e, tcp_ok (upd_env e w')).
  { intros e. split; cbn; try done; [|by left]. intros _. unfold unsent. cbn. by rewrite app_nil_r. }
  destruct (socks_closed (cli w)) eqn:Hk.
  - left. split; [|done]. destruct (Hsc eq_refl). split; cbn; try done; [congruence|intros; apply (HT id)|congruence..].
  - right. split; cbn; try done. { destruct HE as (_ & _ & _ & _ & ->). by rewrite Hk. }
    split; cbn; try done; [intros _|congruence..]. split; cbn; try done; [congruence| |rewrite Hup; auto]. destruct (sending (env w)); auto.
Qed.

Lemma send_out_run o w : busy w → socks_recv_buf_sent (cli w) < socks_recv_buf_used (cli w) →
  runs (client_socks_recv_send_out o) w (sent_out w).
Proof.
  intros HB Hlt. pose proof HB as [Hl Ho HE HD Hsn Hsc Hrv Hp Hout Hb Hrdy]. destruct Ho as (Hc & Hup & Hw & Hrc).
  unfold client_socks_recv_send_out. step1. apply runs_client; [done|]. rewrite Hc, Hup, Hw. do 5 (step1; step1; [zdec; done|]).
  step1. eapply runs_mono.
  { apply write_out_run; [done| |lia]. destruct HE as (-> & _). by rewrite Hc. }
  intros ok w' es (-> & n & Hn & ->). pose proof (busy_pushed n w HB Hn) as HB'. 
  destruct ok; cbn [negb]; [|step1; eapply runs_mono; [by apply abort_busy|]; intros [] w' es HG; cbn; by rewrite app_nil_r].
  unfold tcp_output. step1. step1. apply runs_tcp_call; [cbn; destruct HE as (-> & _); by rewrite Hc|]. step1.
  destruct (output_ok o); cbn [negb id]; [|step1; eapply runs_mono; [by apply abort_busy|]; intros [] w' es HG; cbn; by rewrite app_nil_r].
  step1. apply runs_client; [done|]. case_if; [case_if|].
  { step1; eapply runs_mono; [by apply abort_busy|]; intros [] w' es HG; cbn; by rewrite app_nil_r. }
  - step1. apply runs_put_client; [done|]. step1. split_and!; cbn; try done.
    + destruct HE as (-> & _). by rewrite Hc.
    + destruct (b_pending _ HB'). cbn in *. lia.
    + left. split; [by apply busy_waiting|]. zdec. done.
  - step1. apply runs_put_client; [done|]. step1.
    assert (H0 : 0 < socks_recv_tcp_pending (cli (pushed n w))) by (cbn in *; lia). split_and!; cbn; try done.
    + destruct HE as (-> & _). by rewrite Hc.
    + destruct (busy_empty _ HB' Hif H0) as [[HI Hk]|HI]; [left|by right]. split; [done|]. cbn in Hk. by rewrite Hk.
Qed.

Lemma initiate_run w : idle w →
  runs client_socks_recv_initiate w (λ _ w' es, es = [] ∧ w' = upd_env (set_receiving true) w ∧ inv w').
Proof.
  intros [Hu (Hl & Hc & Hk & Hup) (Hso & Hrc) HI]. unfold client_socks_recv_initiate, StreamRecvInterface_Receiver_Recv.
  step1. apply runs_client; [done|]. rewrite Hc, Hk, Hup, Hu. do 4 (step1; step1; [done|]). step1. step1. step1. step1; [by rewrite Hso, Hrc|]. step1. done.
Qed.

Lemma given_up_after w w' es : pcb (env w) = true → given_up tt w' es → after w tt w' es.
Proof. intros Hp (HO & Hd & Hp'). split; [done|by apply dead_gone]. Qed.

Lemma recv_done_run o w d : inv w → socks_allowed w (RecvDone d) = true → runs (socks_event (o, RecvDone d)) w (after w).
Proof.
  intros HI Ha. pose proof (allowed_open _ _ HI Ha) as Hk. destruct HI as [Hl HE HD Hs Ht Hsc Hcc Hr].
  unfold socks_allowed in Ha. zb. destruct (Hs Hk) as [S1 S2 S3 S4].
  assert (Hup : socks_up (cli w) = true). { destruct (socks_up (cli w)); [done|]. destruct (S1 eq_refl) as (_ & ? & _). congruence. }
  specialize (S2 Hup). assert (Hu : socks_recv_buf_used (cli w) = -1) by auto.
  unfold socks_event, client_socks_recv_handler_done. step1. step1. cbn. step1. apply runs_client; [done|].
  cbn [cli upd_hist upd_env]. rewrite Hk, Hup, Hu. do 5 (step1; step1; [zdec; done|]). case_if.
  - step1. split; [apply outcome_quiet|by apply dead_same]. destruct HD as [D1 D2 D3].
    split; cbn; try done; try congruence.
    + split; cbn; [done|done|]. by apply prefix_app_r.
    + intros _. split; cbn; congruence.
    + auto.
  - destruct (Ht eq_refl) as [T1 T2 T3 T4]. destruct (T2 Hup) as [T2' T2'']. specialize (T3 Hup). unfold unsent in T3. rewrite Hu in T3. cbn in T3. rewrite app_nil_r in T3.
    step1. apply runs_put_client; [done|]. step1. eapply runs_mono.
    { apply send_out_run; cbn; [|lia]. destruct HD as [D1 D2 D3]. split; cbn; try done; try congruence; try lia.
      - split; cbn; [done|done|]. by apply prefix_app_r.
      - destruct (sending (env w)); auto.
      - unfold unsent. cbn. rewrite (proj2 (Z.ltb_lt _ _)) by lia. rewrite Z.sub_0_r, slice_all. congruence. }
    assert (Hpw : pcb (env w) = true). { destruct HE as (-> & _). by rewrite Hif. }
    intros ok w' es HS. destruct ok; cbn in HS |- *.
    + destruct HS as (-> & Hd & Hp & Hl' & _ & Hk' & HS). step1. apply runs_client; [done|]. unfold when. destruct HS as [[HI Hn]|HI].
      * rewrite Hk', Hk, andb_true_r in Hn. rewrite Hn. step1. split; [by apply outcome_quiet|apply dead_same; cbn; congruence].
      * rewrite (i_used _ HI). eapply runs_mono; [by apply initiate_run|]. cbn. intros [] w'' es (-> & -> & HI'). split; [by apply outcome_quiet|apply dead_same; cbn; congruence].
    + rewrite app_nil_r. by apply given_up_after.
Qed.

Lemma socks_event_run o e w : inv w → socks_allowed w e = true → runs (socks_event (o, e)) w (after w).
Proof.
  intros HI Ha. destruct e as [ev|n|d].
  - destruct ev; first [by apply socks_up_run|by apply socks_error_run].
  - by apply send_done_run.
  - by apply recv_done_run.
Qed.

Lemma sync_freed es w : freed w = true → sync es w = Some (tt, w, []).
Proof. intros Hf. induction es as [|e es IH]; [done|]. cbn. mrun. unfold socks_allowed. rewrite Hf. cbn. mrun. by rewrite IH. Qed.

(** Any events while the jobs run. *)
Lemma sync_run es w : inv w → runs (sync es) w (after w).
Proof.
  revert w. induction es as [|[o e] es IH]; intros w HI; cbn.
  { split; [by apply outcome_quiet|by apply dead_same]. }
  step1. step1. step1. unfold when. case_if.
  - eapply runs_mono; [by apply socks_event_run|]. intros [] w1 es1 [[[HI1 ->]|[HF1 ->]] Hd1].
    + eapply runs_mono; [by apply IH|]. intros [] w2 es2 [HO2 Hd2]. cbn [app]. split; [done|by eapply dead_trans].
    + unfold runs. rewrite sync_freed by apply HF1. split; [by right|done].
  - step1. by apply IH.
Qed.

(** ** The callbacks *)

(** A callback of the stack: [ERR_ABRT] is returned exactly if the connection
    is gone. *)
Definition answered (r : err_t) (w' : world) (es : list call) : Prop := outcome w' es ∧ r ≠ ERR_MEM ∧ (r = ERR_ABRT ↔ pcb (env w') = false).

(** Data received in state [w]: refused, and left with the stack, exactly if
    there is no space; otherwise its buffer is freed if the connection
    stays. *)
Definition received (w : world) (d : list Z) (r : err_t) (w' : world) (es : list call) : Prop :=
  match r with
  | ERR_MEM => TCP_WND - zlen (buf (cli w)) < zlen d ∧ w' = w ∧ es = []
  | ERR_OK => zlen d <= TCP_WND - zlen (buf (cli w)) ∧ inv w' ∧ pcb (env w') = true ∧ es = [pbuf_free]
  | ERR_ABRT => zlen d <= TCP_WND - zlen (buf (cli w)) ∧ outcome w' es ∧ pcb (env w') = false
  | ERR_OTHER => False
  end.

Lemma given_up_answered w' es : given_up tt w' es → answered ERR_ABRT w' es.
Proof. intros (HO & _ & Hp). by split. Qed.

Lemma free_client_given o w : freed w = false → pcb (env w) = true → gone (drop_pcb w) → runs (client_free_client o) w given_up.
Proof. intros Hl Hp HG. destruct (free_client_run o w Hl Hp HG) as (w' & es & E & HO). unfold runs. by rewrite E. Qed.

Lemma sync_dead_run es w : inv w → pcb (env w) = true → runs (sync_dead es) w (λ killed w' t, outcome w' t ∧ pcb (env w') = negb killed).
Proof.
  intros HI Hp. unfold sync_dead. step1. step1. step1. eapply runs_mono.
  { apply sync_run. destruct HI as [Hl HE [D1 D2 D3] Hs Ht Hsc Hcc Hr]. split; try done; cbn.
    - intros H. by destruct (Hs H).
    - intros H. by destruct (Ht H). }
  intros [] w' t [HO [Hd _]]. do 3 step1. cbn in *. rewrite app_nil_r. split; [done|]. rewrite Hd, Hp. cbn. by rewrite negb_involutive.
Qed.

Lemma inv_answered w : inv w → pcb (env w) = true → answered ERR_OK w [].
Proof. intros HI Hp. split; [by apply outcome_quiet|]. rewrite Hp. naive_solver. Qed.

Lemma recv_closed_run o es w : inv w → cb_recv (env w) = true →
  runs (client_recv_func o es None) (end_tcp w) (λ r w' t, r = ERR_ABRT ∧ outcome w' t ∧ pcb (env w') = false).
Proof.
  intros HI Hr. pose proof HI as [Hl (Hpc & _ & Hcr & _) _ _ _ _ _ _].
  assert (Hc : client_closed (cli w) = false). { rewrite Hr in Hcr. by destruct (client_closed (cli w)). }
  rewrite Hc in Hpc. unfold client_recv_func. step1. apply runs_client; [done|]. step1. step1; [cbn; by rewrite Hc|]. step1. eapply runs_mono.
  { apply free_client_given; [done|done|]. apply (inv_gone _ HI Hc). }
  intros [] w' es' (HO & _ & Hp). step1. by rewrite app_nil_r.
Qed.

(** Data from the stack, appended to the buffer. *)
Definition taken (d : list Z) (w : world) : world :=
  upd_hist (λ h, set_from_tcp (from_tcp h ++ d) h) (upd_cli (λ c, set_buf (buf c ++ d) c) w).

Lemma taken_inv d w : inv w → 0 < zlen d → zlen (buf (cli w) ++ d) <= TCP_WND →
  socks_up (cli w) = false ∨ 0 < zlen (buf (cli w)) ∨ socks_closed (cli w) = true → inv (taken d w).
Proof.
  intros [Hl HE [D1 D2 D3] Hs Ht Hsc Hcc Hr] Hd Hw Hor. split; cbn; try done.
  - split; cbn; [done|by rewrite D2, app_assoc|done].
  - intros Hk. destruct (Hs Hk) as [S1 S2 S3 S4]. split; cbn; try done. intros Hup. specialize (S2 Hup).
    destruct (sending (env w)); [zlia|]. rewrite S2 in Hor. rewrite Hup, Hk in Hor. change (zlen (@nil Z)) with 0 in Hor. destruct Hor as [|[|]]; [done|lia|done].
  - intros Hc. by destruct (Ht Hc).
  - intros H. destruct (Hcc H) as (? & ? & ?). split_and!; try done. zlia.
Qed.

(** Data that arrives when nothing is being sent is sent at once. *)
Lemma taken_sent_inv d w : inv w → 0 < zlen d → zlen (buf (cli w) ++ d) <= TCP_WND →
  socks_up (cli w) = true → client_closed (cli w) = false → socks_closed (cli w) = false → buf (cli w) = [] →
  inv (upd_env (set_sending (Some (zlen (buf (cli w) ++ d)))) (taken d w)) ∧ sending (env w) = None.
Proof.
  intros [Hl HE [D1 D2 D3] Hs Ht Hsc Hcc Hr] Hd Hw Hup Hc Hk Hb. destruct (Hs Hk) as [S1 S2 S3 S4]. specialize (S2 Hup).
  split; [|destruct (sending (env w)); [|done]; rewrite Hb in S2; change (zlen (@nil Z)) with 0 in S2; lia].
  split; cbn; try done; try congruence.
  - split; cbn; [done|by rewrite D2, app_assoc|done].
  - intros _. split; cbn; [congruence|intros _; zlia|done..].
  - intros _. by destruct (Ht Hc).
Qed.

Lemma recv_data_run o es d w : inv w → cb_recv (env w) = true → 0 < zlen d → runs (client_recv_func o es (Some d)) w (received w d).
Proof.
  intros HI Hr Hd. pose proof HI as [Hl (Hpc & _ & Hcr & _ & Hso) [D1 D2 D3] Hs Ht _ _ _].
  rewrite Hr in Hcr. destruct (client_closed (cli w)) eqn:Hc; [done|]. destruct (socks_closed (cli w)) eqn:Hk; [done|]. cbn in Hpc.
  unfold client_recv_func. step1. apply runs_client; [done|]. rewrite Hc. step1. step1; [done|]. step1. step1; [by zdec|].
  case_if; [step1; split_and!; [lia|done|done]|]. step1. apply runs_put_client; [done|]. step1. step1. step1. apply runs_client; [done|].
  change (upd_hist _ _) with (taken d w). cbn [cli upd_cli upd_hist taken buf set_buf socks_up].
  assert (Hw : zlen (buf (cli w) ++ d) <= TCP_WND) by (rewrite zlen_app; lia). rewrite zlen_app.
  step1. destruct ((zlen (buf (cli w)) + zlen d =? zlen d) && socks_up (cli w)) eqn:Hif2.
  - zb. destruct (taken_sent_inv d w) as [HI' Hsn]; try done; [apply zlen_zero_inv; lia|].
    unfold client_send_to_socks, StreamPassInterface_Sender_Send. cbn [socks_closed set_buf]. step1. step1; [by rewrite Hk|]. step1. step1.
    apply runs_client; [done|]. cbn. do 2 (step1; step1; [by rewrite ?Hk|]). step1. step1; [rewrite zlen_app; by zdec|]. step1. step1. step1.
    step1; [cbn; rewrite Hsn, Hso, zlen_app; by zdec|]. step1. eapply runs_mono; [by apply sync_dead_run|].
    intros killed w' t (HO & Hp). cbn [app]. destruct killed; cbn in Hp; [step1; by rewrite app_nil_r|]. do 3 step1.
    destruct HO as [[HI2 ->]|[HF _]]; [done|]. destruct (e_closed _ HF). congruence.
  - do 4 step1. cbn. split_and!; try done. apply taken_inv; try done.
    apply andb_false_iff in Hif2 as [Hif2|Hif2]; [zb; right; left; zlia|by left].
Qed.

(** [len] bytes are confirmed by the peer. *)
Definition confirm (len : Z) (w : world) : world :=
  upd_cli (λ c, set_socks_recv_tcp_pending (socks_recv_tcp_pending c - len) c)
    (upd_hist (λ h, set_confirmed (confirmed h + len) h) w).

Lemma confirm_busy len w : inv w → client_closed (cli w) = false → socks_up (cli w) = true → 0 < socks_recv_buf_used (cli w) →
  len <= socks_recv_tcp_pending (cli w) →
  busy (upd_cli (set_socks_recv_waiting false) (confirm len w)) ∧
  socks_recv_waiting (cli w) = true ∧ socks_recv_buf_sent (cli w) < socks_recv_buf_used (cli w).
Proof.
  intros [Hl HE [D1 D2 D3] Hs Ht Hsc Hcc Hr] Hc Hup Hu Hlen. destruct (Ht Hc) as [T1 T2 T3 T4]. specialize (T2 Hup).
  destruct (T4 Hup) as [?|(B1 & B2 & B3 & B4)]; [lia|]. split; [|split; [done|lia]].
  split; cbn; try done.
  - split_and!; try done. destruct (receiving (env w)) eqn:Hrc; [|done]. destruct (socks_closed (cli w)) eqn:Hk; [by destruct (Hsc eq_refl) as (_ & _ & _ & _ & _ & ?)|].
    rewrite (s_receiving _ (Hs eq_refl) Hrc) in Hu. lia.
  - destruct (socks_closed (cli w)) eqn:Hk; [by destruct (Hsc eq_refl) as (_ & _ & _ & _ & -> & _)|].
    pose proof (s_sending _ (Hs eq_refl) Hup). by destruct (sending (env w)).
  - intros Hk. by destruct (Hsc Hk) as (_ & _ & _ & ? & ? & _).
  - lia.
  - apply T3, Hup.
  - lia.
  - intros Hk. by rewrite (s_ready _ (Hs Hk)).
Qed.

Lemma confirm_inv len w : inv w → client_closed (cli w) = false → socks_up (cli w) = true → socks_recv_buf_used (cli w) <= 0 →
  len <= socks_recv_tcp_pending (cli w) → socks_closed (cli w) = false ∨ len < socks_recv_tcp_pending (cli w) → inv (confirm len w).
Proof.
  intros [Hl HE [D1 D2 D3] Hs Ht Hsc Hcc Hr] Hc Hup Hu Hlen Hor. destruct (Ht Hc) as [T1 T2 T3 T4].
  split; cbn; try done.
  - intros Hk. destruct (Hs Hk) as [S1 S2 S3 S4]. split; cbn; try done. congruence.
  - intros _. specialize (T2 Hup). split; cbn; try done; [intros _; lia|]. intros _. destruct (T4 Hup) as [?|(? & _)]; [by left|lia].
  - intros Hk. destruct (Hsc Hk) as (? & ? & ? & ? & ? & ?). split_and!; try done. destruct Hor; [congruence|lia].
Qed.

Lemma confirm_gone len w : inv w → client_closed (cli w) = false → socks_closed (cli w) = true → socks_recv_buf_used (cli w) <= 0 →
  len = socks_recv_tcp_pending (cli w) → gone (drop_pcb (confirm len w)).
Proof.
  intros [Hl HE [D1 D2 D3] Hs Ht Hsc Hcc Hr] Hc Hk Hu Hlen. destruct (Hsc Hk) as (Hup & _ & _ & Hf & _).
  destruct (Ht Hc) as [T1 T2 T3 T4]. specialize (T2 Hup). specialize (T3 Hup). unfold unsent in T3. rewrite (proj2 (Z.ltb_ge _ _)) in T3 by lia.
  rewrite app_nil_r in T3. destruct HE as (_ & _ & _ & _ & Hso). split; cbn; try done; [congruence|]. intros _. split; [done|]. lia.
Qed.

Lemma sent_run o es len w : inv w → cb_sent (env w) = true → 0 < len <= zlen (to_tcp (hist w)) - confirmed (hist w) →
  runs (client_sent_func o es len) (upd_hist (λ h, set_confirmed (confirmed h + len) h) w) answered.
Proof.
  intros HI Hs Hlen. pose proof HI as [Hl (Hpc & _ & _ & Hcs & Hso) _ _ Ht _ _ _].
  rewrite Hs in Hcs. destruct (client_closed (cli w)) eqn:Hc; [done|]. destruct (socks_up (cli w)) eqn:Hup; [|done]. cbn in Hpc.
  destruct (t_pending _ (Ht eq_refl) Hup) as [Hp _]. rewrite <-Hp in Hlen. clear Hs Ht Hcs.
  unfold client_sent_func. step1. apply runs_client; [done|]. cbn. rewrite Hc, Hup. do 4 (step1; step1; [zdec; done|]).
  step1. apply runs_put_client; [done|]. change (upd_cli _ _) with (confirm len w). case_if.
  - destruct (confirm_busy len w) as (HB & Hw & Hlt); try done; [lia|]. rewrite Hw. do 2 (step1; step1; [zdec; done|]).
    step1. apply runs_put_client; [done|]. step1. eapply runs_mono; [apply send_out_run; [done|cbn; lia]|].
    intros ok w' es' HS. destruct ok; cbn [negb]; [|step1; rewrite app_nil_r; by apply given_up_answered].
    destruct HS as (-> & _ & Hp' & Hl' & Hpend & Hk & HS). step1. apply runs_client; [done|]. step1. step1; [by zdec|]. step1.
    destruct HS as [[HI' Hn]|HI'].
    + rewrite Hn. do 2 step1. by apply inv_answered.
    + rewrite (i_used _ HI'). destruct (i_open _ HI') as (_ & _ & -> & _). rewrite Z.eqb_refl. cbn [andb negb]. step1. eapply runs_mono; [by apply initiate_run|]. cbn.
      intros [] w'' es'' (-> & -> & HI''). eapply runs_mono; [by apply sync_dead_run|]. intros killed w'' t (HO & Hp'').
      cbn [app]. destruct killed; step1; rewrite app_nil_r; (split; [done|rewrite Hp''; done]).
  - step1. apply runs_client; [done|]. cbn. destruct (socks_closed (cli w) && _) eqn:Hend; zb.
    + step1. eapply runs_mono; [apply free_client_given; [done|done|apply confirm_gone; try done; lia]|].
      intros [] w' es' HG. step1. rewrite app_nil_r. by apply given_up_answered.
    + step1. apply inv_answered; [|done]. apply confirm_inv; try done; [lia|].
      apply andb_false_iff in Hend as [?|?]; [by left|]. zb. right. lia.
Qed.

Lemma err_run w : inv w → pcb (env w) = true → 
  runs client_err_func (end_tcp (drop_pcb w)) given_up.
Proof.
  intros HI Hp. assert (Hc : client_closed (cli w) = false).
  { destruct (v_env _ HI) as (H & _). rewrite Hp in H. by destruct (client_closed (cli w)). }
  unfold client_err_func. step1. apply runs_client; [apply (v_live _ HI)|]. step1. step1; [cbn; by rewrite Hc|].
  destruct (handle_freed_run _ (inv_gone w HI Hc)) as (w' & es & E & HO). unfold runs. rewrite E. done.
Qed.

(** What a callback or event leaves, and what the stack is told. *)
Definition step_ok (w : world) (e : ev) (r : err_t) (w' : world) (es : list call) : Prop :=
  match e with
  | Recv _ (Some d) => received w d r w' es
  | Recv _ None => r = ERR_ABRT ∧ pcb (env w') = false ∧ outcome w' es
  | Sent _ _ => answered r w' es
  | Err => pcb (env w') = false ∧ outcome w' es
  | Socks _ => outcome w' es
  end.

Lemma handler_run o e w : inv w → allowed w e = true → runs (handler o e) w (step_ok w e).
Proof.
  intros HI Ha. unfold allowed in Ha. destruct e as [es p|es len| |e]; zb; unfold handler.
  - destruct p as [d|]; zb; cbn; repeat step1; cbn.
    + eapply runs_mono; [by apply recv_data_run|]. done.
    + eapply runs_mono; [by apply (recv_closed_run o es w)|]. by intros r w' t (? & ? & ?).
  - step1. step1. eapply runs_mono; [by apply sent_run|]. done.
  - step1. step1. step1. eapply runs_mono; [by apply (err_run w)|]. intros [] w' es (HO & _ & Hp). step1. cbn. by rewrite app_nil_r.
  - step1. eapply runs_mono; [by apply socks_event_run|]. intros [] w' es (HO & _). step1. cbn. by rewrite app_nil_r.
Qed.

(** The calls to the list of clients. *)
Definition list_calls (es : list call) : list call := filter (λ x, x ≠ pbuf_free) es.

Lemma list_calls_app es1 es2 : list_calls (es1 ++ es2) = list_calls es1 ++ list_calls es2.
Proof. apply filter_app. Qed.

Lemma outcome_calls w es : outcome w es → outcome w (list_calls es).
Proof. intros [[HI ->]|[HF ->]]; [by left|by right]. Qed.

Lemma step_outcome w e r w' es : inv w → step_ok w e r w' es → outcome w' (list_calls es).
Proof.
  intros HI Hs. destruct e as [? [d|]| ? ?| |]; cbn in Hs; [|apply outcome_calls; apply Hs..].
  destruct r; cbn in Hs; [|..|done].
  - destruct Hs as (_ & HI' & _ & ->). by left.
  - destruct Hs as (_ & -> & ->). by left.
  - apply outcome_calls, Hs.
Qed.

(** The client [listener_accept_func] sets up. *)
Definition accepted : world :=
  mkWorld (mkClient false [] false false [] 0 0 false 0) (mkEnv true true true false true None false false)
          (mkHistory [] [] [] [] 0 0 false false) false false.

Lemma accepted_inv : inv accepted.
Proof.
  intros. split; cbn; try done.
Qed.

Lemma events_freed es w : freed w = true → events es w = Some (tt, w, []).
Proof. intros Hf. induction es as [|[o e] es IH]; [done|]. cbn. mrun. unfold allowed. rewrite Hf. cbn. mrun. by rewrite IH. Qed.

Lemma events_run es w t : outcome w (list_calls t) → runs (events es) w (λ _ w' t', outcome w' (list_calls (t ++ t'))).
Proof.
  revert w t. induction es as [|[o e] es IH]; intros w t HO.
  { cbn. by rewrite app_nil_r. }
  destruct HO as [[HI Ht]|[HF Ht]].
  - cbn. step1. step1. step1. unfold when. case_if; [|step1; apply IH; by left].
    step1. eapply runs_mono; [by apply handler_run|]. intros r w' t1 Hs. apply step_outcome in Hs; [|done]. step1. cbn [app]. rewrite app_nil_r.
    eapply runs_mono; [apply (IH _ (t ++ t1)); by rewrite list_calls_app, Ht|]. intros [] w'' t2. by rewrite <-app_assoc.
  - unfold runs. rewrite events_freed by apply HF. rewrite app_nil_r. by right.
Qed.

Definition refused (r : err_t) (w' : world) (t : list call) : Prop := r = ERR_MEM ∧ w' = incoming ∧ t = [].

Definition served (r : err_t) (w' : world) (t : list call) : Prop := r ≠ ERR_MEM ∧ ∃ t', t = append_client :: t' ∧ outcome w' (list_calls t').

Lemma accept_run append_source a es :
  runs (listener_accept_func append_source a es) incoming (λ r w' t,
    refused r w' t ∨ (served r w' t ∧ (r = ERR_ABRT ↔ pcb (env w') = false))).
Proof.
  unfold listener_accept_func. destruct (malloc_ok a); cbn [negb]; [|step1; by left]. step1. step1. case_if; [do 3 step1; by left|].
  step1. step1. step1. step1. do 6 (step1; first [apply runs_put_client; [done|]|apply runs_tcp_call; [done|]]). step1.
  match goal with |- runs _ ?w _ => change w with accepted end.
  eapply runs_mono; [apply sync_dead_run; [apply accepted_inv|done]|]. intros killed w' t (HO & Hp). cbn [app].
  destruct killed; step1; (right; split; [split; [done|]; eexists; split; [done|]; rewrite app_nil_r; by apply outcome_calls|rewrite Hp; done]).
Qed.

Lemma connection_run append_source a es evs :
  runs (connection append_source a es evs) incoming (λ r w' t, refused r w' t ∨ served r w' t).
Proof.
  unfold connection. step1. eapply runs_mono; [by apply accept_run|].
  intros r w t [(-> & -> & ->)|[(Hr & t' & -> & HO) _]]; step1.
  - unfold runs. rewrite events_freed by done. by left.
  - eapply runs_mono; [by apply events_run|]. intros [] w' t2 HO2. step1. right. split; [done|].
    eexists. split; [|done]. by rewrite app_nil_r.
Qed.

(** ** Theorems *)

Lemma murder_run w : inv w → ∃ w', client_murder w = Some (tt, w', [dealloc]) ∧ freed w' = true ∧ pcb (env w') = false ∧ socks (env w') = false.
Proof.
  intros [Hl (Hpc & Hce & Hcr & Hcs & Hso) _ _ _ _ Hcc _].
  unfold client_murder, client, remove_callbacks, tcp_err_null, tcp_recv_null, tcp_sent_null, tcp_abort, tcp_call, kill_client, put_client, BSocksClient_Free, client_dealloc.
  unpack w. cbn in *. subst. mrun. destruct cc, sc; mrun; eexists; done.
Qed.

Definition tunnel_ok (T : tunnel) : Prop := Forall inv (tcp_clients T) ∧ num_clients T = zlen (tcp_clients T).

Lemma count_list_calls es n : count_clients es n = count_clients (list_calls es) n.
Proof.
  revert n. induction es as [|[] es IH]; intros n; [done|..].
  - change (list_calls _) with (append_client :: list_calls es). cbn. by rewrite IH.
  - change (list_calls _) with (dealloc :: list_calls es). cbn. by rewrite IH.
  - apply IH.
Qed.

Lemma accept_step append_source a es T : tunnel_ok T → ∃ T', tunnel_step (Accept append_source a es) T = Some T' ∧ tunnel_ok T'.
Proof.
  intros [HF HN]. cbn. destruct (runs_inv _ _ _ (accept_run append_source a es)) as (r & w' & t & -> & H).
  destruct H as [(-> & -> & ->)|[(_ & t' & -> & HO) _]]; [by eexists|]. rewrite count_list_calls. change (list_calls _) with (append_client :: list_calls t'). cbn [count_clients].
  rewrite HN. zdec. destruct HO as [[HI ->]|[HE ->]]; cbn.
  - rewrite (v_live _ HI). eexists. split; [done|]. split; cbn; [by apply Forall_app_2, Forall_singleton|zlia].
  - rewrite (e_freed _ HE). zdec. eexists. split; [done|]. split; cbn; [done|lia].
Qed.

Lemma zlen_delete {A} (l : list A) i x : l !! i = Some x → zlen (delete i l) = zlen l - 1.
Proof. intros H. unfold zlen. rewrite length_delete by by eexists. apply lookup_lt_Some in H. lia. Qed.

Lemma client_step i o e T : tunnel_ok T → ∃ T', tunnel_step (ClientEvent i o e) T = Some T' ∧ tunnel_ok T'.
Proof.
  intros [HF HN]. cbn. destruct (tcp_clients T !! i) as [w|] eqn:Hi; [|by eexists]. case_if; [|by eexists].
  assert (HI : inv w) by by eapply Forall_lookup_1. destruct (runs_inv _ _ _ (handler_run o e w HI Hif)) as (r & w' & t & -> & H).
  apply step_outcome in H; [|done]. rewrite count_list_calls. pose proof (lookup_lt_Some _ _ _ Hi) as Hlt.
  destruct H as [[HI' ->]|[HE ->]]; cbn.
  - rewrite (v_live _ HI'). eexists. split; [done|]. split; cbn; [by apply Forall_insert|]. unfold zlen. by rewrite length_insert.
  - rewrite (e_freed _ HE), HN. unfold zlen at 1. zdec. eexists. split; [done|]. split; cbn; [by apply Forall_delete|]. by erewrite zlen_delete.
Qed.

Lemma tunnel_run_ok es T : tunnel_ok T → ∃ T', tunnel_run es T = Some T' ∧ tunnel_ok T'.
Proof.
  revert T. induction es as [|e es IH]; intros T HT; [by eexists|]. cbn.
  destruct e; [destruct (accept_step append_source a es0 T HT) as (T' & -> & HT')|destruct (client_step i o e T HT) as (T' & -> & HT')]; auto.
Qed.

Lemma free_clients_run l : Forall inv l →
  ∃ ws, free_clients l (zlen l) = Some (ws, 0) ∧ Forall (λ w, freed w = true ∧ pcb (env w) = false ∧ socks (env w) = false) ws.
Proof.
  induction 1 as [|w l HI HF (ws & E & Hws)]; [by exists []|]. destruct (murder_run w HI) as (w' & Hm & Hw'). cbn. rewrite Hm. cbn.
  rewrite zlen_cons. zdec. replace (1 + zlen l - 1) with (zlen l) by lia. rewrite E. eexists. split; [done|]. by constructor.
Qed.

(** C1: Whatever the stack and the SOCKS client do with a connection, in any
    order (also while the jobs of a callback run), no assertion fails, no
    memory of the client is used after it was freed, and no operation is done
    on an object that is gone or busy.  Either the connection is refused and
    nothing is left of the client, or the client is added to the list of
    clients and is then in order, or completely freed: both sides closed, all
    callbacks removed, taken from the list exactly once. *)
Theorem connection_safe append_source a es evs :
  runs (connection append_source a es evs) incoming (λ r w' t, refused r w' t ∨ served r w' t).
Proof. apply connection_run. Qed.

(** What holds of the state of every connection. *)
Lemma connection_state append_source a es evs (P : world → Prop) :
  P incoming → (∀ w, inv w → P w) → (∀ w, final w → P w) → runs (connection append_source a es evs) incoming (λ _ w _, P w).
Proof.
  intros H0 HI HF. eapply runs_mono; [apply connection_run|]. intros r w t [(_ & -> & _)|(_ & t' & _ & [[? _]|[? _]])]; auto.
Qed.

(** C2: Data keeps its order in both directions.  While the client exists,
    what the device sent and is not yet sent to the SOCKS server is exactly
    what the buffer holds, no more than a window, and the window the device is
    offered is closed by exactly that amount.  A freed client has delivered
    everything the device sent unless the SOCKS side failed, and everything
    the SOCKS server sent, confirmed by the device, unless the TCP side
    ended. *)
Theorem connection_data append_source a es evs :
  runs (connection append_source a es evs) incoming (λ _ w _,
    let h := hist w in
    to_socks h `prefix_of` from_tcp h ∧ to_tcp h `prefix_of` from_socks h ∧
    (freed w = false →
       from_tcp h = to_socks h ++ buf (cli w) ∧ zlen (buf (cli w)) <= TCP_WND ∧
       (client_closed (cli w) = false → zlen (from_tcp h) - recved h = zlen (buf (cli w)))) ∧
    (freed w = true →
       (socks_failed h = false → to_socks h = from_tcp h) ∧
       (tcp_ended h = false → to_tcp h = from_socks h ∧ confirmed h = zlen (to_tcp h)))).
Proof.
  apply connection_state; [done|..]; intros w H; cbn.
  - pose proof (v_live _ H) as Hl. destruct (v_data _ H) as [D1 D2 D3]. split_and!; [rewrite D2; by eexists|done| |congruence]. intros _. split_and!; try done.
    intros Hc. rewrite (t_recved _ (v_tcp _ H Hc)), D2. zlia.
  - destruct H as [Hf _ [H1 H2] [H3 H4]]. split_and!; try done. congruence.
Qed.

(** C31: In every state of a connection, every callback returns what the
    stack has to be told: [ERR_ABRT] exactly when the connection is gone,
    [ERR_MEM] exactly when received data does not fit (the state and the
    ownership of the data are then unchanged), [ERR_OK] with the data taken
    and its buffer freed otherwise.  When the connection goes away while the
    received data is passed on, the buffer is not freed. *)
Theorem callbacks_exact append_source a es evs :
  runs (connection append_source a es evs) incoming (λ _ w _, ∀ o e, allowed w e = true → runs (handler o e) w (step_ok w e)).
Proof.
  apply connection_state; [done|..]; intros w H o e Ha.
  - by apply handler_run.
  - unfold allowed in Ha. by rewrite (e_freed _ H) in Ha.
Qed.

(** C9: No connection is forgotten: while a client exists, something is under
    way that will bring its next event.  As long as the SOCKS client has not
    reported that it is up, and only then, the client waits for that report,
    with the SOCKS client there to make it.  After it, data for the SOCKS
    server is being sent, data from it is being received or waits for the
    device to confirm data; a client that lost one side still has data for the
    other. *)
Theorem connection_driven append_source a es evs :
  runs (connection append_source a es evs) incoming (λ _ w _,
    let c := cli w in freed w = false →
    (socks_closed c = false → socks_up c = socks_ready (env w)) ∧
    (socks_up c = false → socks_allowed w (Handler SocksClient.EVENT_UP) = true) ∧
    (socks_closed c = false → socks_up c = true → buf c ≠ [] → ∃ n, sending (env w) = Some n ∧ 0 < n <= zlen (buf c)) ∧
    (socks_closed c = false → socks_up c = true → client_closed c = false → socks_recv_buf_used c = -1 → receiving (env w) = true) ∧
    (socks_up c = true → client_closed c = false → socks_recv_buf_used c ≠ -1 → cb_sent (env w) = true ∧ confirmed (hist w) < zlen (to_tcp (hist w))) ∧
    (socks_closed c = true → cb_sent (env w) = true ∧ confirmed (hist w) < zlen (to_tcp (hist w))) ∧
    (client_closed c = true → socks (env w) = true ∧ buf c ≠ [])).
Proof.
  apply connection_state; [done|..]; intros w H; cbn -[socks_allowed]; [intros _|intros Hf; by rewrite (e_freed _ H) in Hf].
  destruct H as [Hl HE HD Hs Ht Hsc Hcc Hr]. destruct HE as (_ & _ & _ & Hcs & Hso). split_and!.
  - intros Hk. by rewrite (s_ready _ (Hs Hk)).
  - intros Hup. assert (socks_closed (cli w) = false) as Hk.
    { destruct (socks_closed (cli w)) eqn:Hk; [|done]. destruct (Hsc eq_refl) as (? & _). congruence. }
    unfold socks_allowed. by rewrite Hl, Hso, (s_ready _ (Hs Hk)), Hk, Hup.
  - intros Hk Hup Hb. pose proof (s_sending _ (Hs Hk) Hup) as H. destruct (sending (env w)); [by eexists|done].
  - auto.
  - intros Hup Hc Hu. rewrite Hcs, Hup, Hc. destruct (t_pending _ (Ht Hc) Hup). destruct (t_buffer _ (Ht Hc) Hup) as [?|(_ & _ & _ & ?)]; [done|]. split; [done|lia].
  - intros Hk. destruct (Hsc Hk) as (Hup & Hc & ? & _). rewrite Hcs, Hup, Hc. destruct (t_pending _ (Ht Hc) Hup). split; [done|lia].
  - intros Hc. destruct (Hcc Hc) as (Hk & Hb & _). rewrite Hso, Hk. split; [done|]. intros Hn. by rewrite Hn in Hb.
Qed.

(** With any number of connections, the counter of clients is the length
    of the list of clients and its assertions hold; at the end of the program
    every client is freed, its connections closed, and the counter is zero. *)
Lemma tunnel_safe es :
  ∃ T, tunnel_run es (mkTunnel [] 0) = Some T ∧ num_clients T = zlen (tcp_clients T) ∧
  ∃ ws, free_clients (tcp_clients T) (num_clients T) = Some (ws, 0) ∧
        Forall (λ w, freed w = true ∧ pcb (env w) = false ∧ socks (env w) = false) ws.
Proof.
  destruct (tunnel_run_ok es (mkTunnel [] 0)) as (T & E & HF & HN); [done|]. exists T. split; [done|]. split; [done|]. rewrite HN. by apply free_clients_run.
Qed.

(** C40: The loop that writes received data to the stack ends after at most as
    many rounds as there are bytes left: every round that does not end it
    writes at least one byte. *)
Theorem write_out_ends answers more w : freed w = false → pcb (env w) = true →
  0 <= socks_recv_buf_sent (cli w) < socks_recv_buf_used (cli w) →
  socks_recv_buf_used (cli w) - socks_recv_buf_sent (cli w) <= zlen answers →
  write_out (answers ++ more) w = write_out answers w.
Proof.
  revert w. induction answers as [|[snd err] answers IH]; intros w Hl Hp Hr Hn. { zlia. }
  cbn. unfold client, tcp_write, tcp_call, put_client. mrun. rewrite Hl. cbn.
  set (n := Z.min _ (u16 snd)). destruct (n =? 0) eqn:H0; [done|]. zb. cbn. rewrite Hp. cbn. destruct err; try done. cbn. rewrite Hl. cbn. rewrite Hl. cbn.
  case_if; [|done].
  match goal with |- context [write_out answers ?w'] => rewrite (IH w'); [done|done|done|..] end; cbn;
    pose proof (u16_range snd) as Hu; unfold is_u16 in Hu; zlia.
Qed.

Definition writing : world :=
  mkWorld (mkClient false [] true false [1; 2; 3] 3 0 false 0) (mkEnv true true true true true None false true)
          (mkHistory [] [] [1; 2; 3] [] 0 0 false false) false false.

Lemma write_out_ends_witness : write_out ([(1, ERR_OK); (1, ERR_OK); (1, ERR_OK)] ++ [(5, ERR_OTHER)]) writing =
  write_out [(1, ERR_OK); (1, ERR_OK); (1, ERR_OK)] writing.
Proof. apply (write_out_ends [(1, ERR_OK); (1, ERR_OK); (1, ERR_OK)] [(5, ERR_OTHER)] writing); cbn; [reflexivity|reflexivity|lia|unfold zlen; cbn; lia]. Defined.

End TcpClient.
