(* ===== verification/DnsNames.v ===== *)
(** * Domain names of the DNS proxy ([pdnsd/src/dns.c], [helpers.c], [helpers.h])

    Names in messages are sequences of labels, each a length byte and that many
    bytes, ended by a zero byte; a pair of bytes that starts with two set bits
    is an offset in the message where the name continues.  The functions read
    and write memory byte by byte; an access outside of the message, of a name
    or of a name buffer makes them fail ([None]). *)

From S2P Require Import Prelude.

Module DnsNames.

Definition DNSNAMEBUFSIZE : Z := 256.
Definition RC_OK : Z := 0.
Definition RC_FORMAT : Z := 1.
Definition RC_TRUNC : Z := 65534.

(** [m[i]]. *)
Definition rd (m : list Z) (i : Z) : option Z := if 0 <=? i then m !! Z.to_nat i else None.

(** [tgt[tpos++] = c] for a buffer of [DNSNAMEBUFSIZE] bytes, of which the
    first [tpos] are written. *)
Definition put_byte (tgt : list Z) (c : Z) : option (list Z) :=
  if zlen tgt <? DNSNAMEBUFSIZE then Some (tgt ++ [c]) else None.

Definition tolower (c : Z) : Z := if (65 <=? c) && (c <=? 90) then c + 32 else c.

(** ** Names in memory ([helpers.h], [helpers.c])

    The loops are bounded by the memory the name is in: each round moves at
    least one byte forward. *)

Fixpoint rhnlen_loop (fuel : nat) (rhn : list Z) (i : Z) : option Z :=
  match fuel with
  | O => None
  | S fuel' =>
      lb ← rd rhn i;
      if lb =? 0 then Some (i + 1) else rhnlen_loop fuel' rhn (i + 1 + lb)
  end.

Definition rhnlen (rhn : list Z) : option Z := rhnlen_loop (S (length rhn)) rhn 0.

(** The offset of what is left after [k] segments. *)
Fixpoint skipsegs (nm : list Z) (k : nat) (i : Z) : option Z :=
  match k with
  | O => Some i
  | S k' => lb ← rd nm i; if lb =? 0 then Some i else skipsegs nm k' (i + (lb + 1))
  end.

Fixpoint rhnsegcnt_loop (fuel : nat) (rhn : list Z) (i res : Z) : option Z :=
  match fuel with
  | O => None
  | S fuel' =>
      lb ← rd rhn i;
      if lb =? 0 then Some res else rhnsegcnt_loop fuel' rhn (i + (lb + 1)) (res + 1)
  end.

Definition rhnsegcnt (rhn : list Z) : option Z := rhnsegcnt_loop (S (length rhn)) rhn 0 0.

(** The assertion is active in every build. *)
Definition rhncpy (src : list Z) : option (Z * list Z) :=
  len ← rhnlen src;
  if len <=? DNSNAMEBUFSIZE then Some (len, slice 0 len src) else None.

Fixpoint isnormalencdomname_loop (fuel : nat) (rhn : list Z) (maxlen i : Z) : option bool :=
  match fuel with
  | O => None
  | S fuel' =>
      if i >=? maxlen then Some false
      else
        lb ← rd rhn i;
        if lb =? 0 then Some true
        else if lb >? 63 then Some false
        else isnormalencdomname_loop fuel' rhn maxlen (i + 1 + lb)
  end.

Definition isnormalencdomname (rhn : list Z) (maxlen : Z) : option bool :=
  isnormalencdomname_loop (S (length rhn)) rhn (if maxlen >? DNSNAMEBUFSIZE then DNSNAMEBUFSIZE else maxlen) 0.

(** The inner loop of [rhnicmp]: [lb] bytes from [i] on. *)
Fixpoint same_bytes (lb : nat) (a b : list Z) (i : Z) : option bool :=
  match lb with
  | O => Some true
  | S lb' =>
      x ← rd a i;
      y ← rd b i;
      if negb (tolower x =? tolower y) then Some false else same_bytes lb' a b (i + 1)
  end.

Fixpoint rhnicmp_loop (fuel : nat) (a b : list Z) (i : Z) : option bool :=
  match fuel with
  | O => None
  | S fuel' =>
      lb ← rd a i;
      lb' ← rd b i;
      if negb (lb =? lb') then Some false
      else if lb =? 0 then Some true
      else
        eq ← same_bytes (Z.to_nat lb) a b (i + 1);
        if (eq : bool) then rhnicmp_loop fuel' a b (i + 1 + lb) else Some false
  end.

Definition rhnicmp (a b : list Z) : option bool := rhnicmp_loop (S (length a)) a b 0.

(** ** [decompress_name] *)

(** The label copied to the target: the next position and the target. *)
Fixpoint copy_label (lb : nat) (msg : list Z) (lptr : Z) (tgt : list Z) : option (Z * list Z) :=
  match lb with
  | O => Some (lptr, tgt)
  | S lb' =>
      c ← rd msg lptr;
      tgt ← put_byte tgt c;
      copy_label lb' msg (lptr + 1) tgt
  end.

(** The name in the target, or an error code. *)
Inductive verdict := Name (tgt : list Z) | Error (rc : Z).

Section Decompress.
Context (msg : list Z).

(** After the first jump.  The rounds of the outer loop and of the loop over
    offsets are rounds of one loop. *)
Fixpoint jumped (fuel : nat) (lptr hops : Z) (tgt : list Z) : option verdict :=
  match fuel with
  | O => None
  | S fuel' =>
      lb ← rd msg lptr;
      let lptr := lptr + 1 in
      if lb >? 63 then
        if lb <? 192 then Some (Error RC_FORMAT)
        else if lptr >=? zlen msg then Some (Error RC_FORMAT)
        else if hops + 1 >? 255 then Some (Error RC_FORMAT)
        else
          lo ← rd msg lptr;
          let offs := Z.lor (Z.shiftl (Z.land lb 63) 8) lo in
          if offs >=? zlen msg then Some (Error RC_FORMAT)
          else jumped fuel' offs (hops + 1) tgt
      else
        tgt ← put_byte tgt lb;
        if lb =? 0 then Some (Name tgt)
        else if lptr + lb >=? zlen msg then Some (Error RC_FORMAT)
        else if zlen tgt + lb >? DNSNAMEBUFSIZE - 1 then Some (Error RC_FORMAT)
        else
          '(lptr, tgt) ← copy_label (Z.to_nat lb) msg lptr tgt;
          jumped fuel' lptr hops tgt
  end.

(** Enough for 255 offsets and a target of [DNSNAMEBUFSIZE] bytes, see
    [decompress_total]. *)
Definition decompress_fuel : nat := 600.

(** Up to the end of the name or the first jump; with the verdict, what is
    left of the data. *)
Fixpoint direct (fuel : nat) (lptr newsz : Z) (tgt : list Z) : option (verdict * Z) :=
  match fuel with
  | O => None
  | S fuel' =>
      let newsz := newsz - 1 in
      lb ← rd msg lptr;
      let lptr := lptr + 1 in
      if lb >? 63 then
        if lb <? 192 then Some (Error RC_FORMAT, newsz)
        else if newsz =? 0 then Some (Error RC_TRUNC, newsz)
        else if lptr >=? zlen msg then Some (Error RC_FORMAT, newsz)
        else
          let newsz := newsz - 1 in
          lo ← rd msg lptr;
          let offs := Z.lor (Z.shiftl (Z.land lb 63) 8) lo in
          if offs >=? zlen msg then Some (Error RC_FORMAT, newsz)
          else v ← jumped decompress_fuel offs 1 tgt; Some (v, newsz)
      else
        tgt ← put_byte tgt lb;
        if lb =? 0 then Some (Name tgt, newsz)
        else if newsz <=? lb then Some (Error RC_TRUNC, newsz)
        else if lptr + lb >=? zlen msg then Some (Error RC_FORMAT, newsz)
        else if zlen tgt + lb >? DNSNAMEBUFSIZE - 1 then Some (Error RC_FORMAT, newsz)
        else
          let newsz := newsz - lb in
          '(lptr, tgt) ← copy_label (Z.to_nat lb) msg lptr tgt;
          direct fuel' lptr newsz tgt
  end.

(** The return code, [*src] and [*sz] (unchanged on errors), and the target
    on success. *)
Definition decompress_name (src sz : Z) : option (Z * Z * Z * list Z) :=
  if sz =? 0 then Some (RC_TRUNC, src, sz, [])
  else if src >=? zlen msg then Some (RC_FORMAT, src, sz, [])
  else
    '(v, newsz) ← direct decompress_fuel src sz [];
    match v with
    | Name tgt => Some (RC_OK, src + (sz - newsz), newsz, tgt)
    | Error rc => Some (rc, src, sz, [])
    end.
End Decompress.

Lemma fuel_value : Z.of_nat decompress_fuel = 600.
Proof. reflexivity. Qed.
#[local] Opaque decompress_fuel.

(** ** [domain_match] and [compress_name] *)

(** The length bytes of a name, in order, and the position of its end. *)
Fixpoint length_bytes (fuel : nat) (m : list Z) (i : Z) (ls : list Z) : option (list Z * Z) :=
  match fuel with
  | O => None
  | S fuel' =>
      lb ← rd m i;
      if lb =? 0 then Some (ls, i)
      else if zlen ls <? 128 then length_bytes fuel' m (i + (lb + 1)) (ls ++ [lb])
      else None
  end.

(** [lb] bytes, backwards from [i] and [j]. *)
Fixpoint match_back (lb : nat) (ms md : list Z) (i j : Z) : option bool :=
  match lb with
  | O => Some true
  | S lb' =>
      x ← rd ms (i - 1);
      y ← rd md (j - 1);
      if negb (tolower x =? tolower y) then Some false else match_back lb' ms md (i - 1) (j - 1)
  end.

(** The length bytes are read from the last on: [ls] and [ld] are reversed.
    The number of segments that match and the offsets of the match. *)
Fixpoint match_segs (ls ld : list Z) (ms md : list Z) (i j k : Z) : option (Z * Z * Z) :=
  match ls, ld with
  | lb :: ls', lb' :: ld' =>
      if negb (lb =? lb') then Some (k, i, j)
      else
        eq ← match_back (Z.to_nat lb) ms md i j;
        if (eq : bool) then match_segs ls' ld' ms md (i - lb - 1) (j - lb - 1) (k + 1) else Some (k, i, j)
  | _, _ => Some (k, i, j)
  end.

Definition domain_match (ms md : list Z) : option (Z * Z * Z) :=
  '(ls, i) ← length_bytes (S (length ms)) ms 0 [];
  '(ld, j) ← length_bytes (S (length md)) md 0 [];
  match_segs (reverse ls) (reverse ld) ms md i j 0.

Record compel_t := mkCompel { index : Z; s : list Z }.

(** Part 1: the longest match and where it is ([longest], [lrem], [coffs]). *)
Fixpoint best_match (nm : list Z) (cb : list compel_t) (longest lrem coffs : Z) : option (Z * Z * Z) :=
  match cb with
  | [] => Some (longest, lrem, coffs)
  | ci :: cb' =>
      '(rv, rem, to) ← domain_match nm (s ci);
      if rv >? longest then
        let newoffs := u32 (index ci + to) in
        if newoffs <=? 16383 then best_match nm cb' rv rem newoffs
        else best_match nm cb' longest lrem coffs
      else best_match nm cb' longest lrem coffs
  end.

(** [grow]: the memory for the new element is there.  The length ([0] on an
    error), the output, and the list of names. *)
Definition compress_name (grow : bool) (nm : list Z) (offs : Z) (cb : list compel_t) : option (Z * list Z * list compel_t) :=
  ilen ← rhnlen nm;
  if negb (ilen <=? DNSNAMEBUFSIZE) then None
  else
    '(longest, lrem, coffs) ← best_match nm cb 0 0 0;
    '(rl, out, add) ←
      (if longest >? 0 then
         if lrem + 2 <=? ilen
         then Some (lrem + 2, slice 0 lrem nm ++ [Z.lor 192 (Z.shiftr (Z.land coffs 16128) 8); Z.land coffs 255], negb (lrem =? 0))
         else None
       else Some (ilen, slice 0 ilen nm, true));
    if (add : bool) then
      if grow then Some (rl, out, cb ++ [mkCompel offs (slice 0 ilen nm)]) else Some (0, out, [])
    else Some (rl, out, cb).

(** ** Reading *)

Lemma rd_some m i : 0 <= i < zlen m → ∃ x, rd m i = Some x.
Proof.
  intros H. unfold rd. zdec. destruct (lookup_lt_is_Some_2 m (Z.to_nat i)) as [x Hx]; [unfold zlen in H; lia|]. by exists x.
Qed.

Lemma rd_range m i x : rd m i = Some x → 0 <= i < zlen m.
Proof. unfold rd, zlen. case_if; [|done]. intros H%lookup_lt_Some. lia. Qed.

Lemma rd_byte m i x : bytes m → rd m i = Some x → 0 <= x <= 255.
Proof. unfold rd. intros Hm. case_if; [|done]. intros H. by eapply (Forall_lookup_1 _ _ _ _ Hm) in H. Qed.

Lemma rd_here (m1 m2 : list Z) x : rd (m1 ++ x :: m2) (zlen m1) = Some x.
Proof. unfold rd. zdec. unfold zlen. rewrite Nat2Z.id. by apply list_lookup_middle. Qed.

Lemma rd_app_l m1 m2 i x : rd m1 i = Some x → rd (m1 ++ m2) i = Some x.
Proof. unfold rd. case_if; [|done]. apply lookup_app_l_Some. Qed.

Lemma slice_cons i n m x : rd m i = Some x → 0 < n → slice i n m = x :: slice (i + 1) (n - 1) m.
Proof.
  intros H Hn. pose proof (rd_range _ _ _ H). unfold rd in H. rewrite (proj2 (Z.leb_le _ _)) in H by lia.
  unfold slice. replace (Z.to_nat (i + 1)) with (S (Z.to_nat i)) by lia. replace (Z.to_nat n) with (S (Z.to_nat (n - 1))) by lia.
  by rewrite (drop_S _ _ _ H).
Qed.

Lemma slice_app_in {A} i n (m1 m2 : list A) : 0 <= i → 0 <= n → i + n <= zlen m1 → slice i n (m1 ++ m2) = slice i n m1.
Proof.
  unfold slice, zlen. intros. rewrite drop_app_le by lia. rewrite take_app_le; [done|]. rewrite length_drop. lia.
Qed.

(** ** Names as lists of labels *)

Definition label_ok (l : list Z) : Prop := 1 <= zlen l <= 63.
Definition segs (ls : list (list Z)) : list Z := mjoin ((λ l, zlen l :: l) <$> ls).
Definition wire (ls : list (list Z)) : list Z := segs ls ++ [0].

(** A name as the proxy keeps it. *)
Definition name_ok (ls : list (list Z)) : Prop := Forall label_ok ls ∧ zlen (wire ls) <= DNSNAMEBUFSIZE.

Lemma segs_cons l ls : segs (l :: ls) = (zlen l :: l) ++ segs ls.
Proof. done. Qed.

Lemma segs_app ls1 ls2 : segs (ls1 ++ ls2) = segs ls1 ++ segs ls2.
Proof. unfold segs. by rewrite fmap_app, join_app. Qed.

Lemma wire_cons l ls : wire (l :: ls) = zlen l :: l ++ wire ls.
Proof. unfold wire. rewrite segs_cons, <-app_assoc. done. Qed.

Lemma wire_app ls1 ls2 : wire (ls1 ++ ls2) = segs ls1 ++ wire ls2.
Proof. unfold wire. by rewrite segs_app, <-app_assoc. Qed.

(** What a message says at an offset: the labels, the offsets followed and the
    bytes the name takes in place. *)
Inductive name_at (msg : list Z) : Z → list (list Z) → Z → Z → Prop :=
  | at_root p : rd msg p = Some 0 → name_at msg p [] 0 1
  | at_label p l ls h n : label_ok l → rd msg p = Some (zlen l) → slice (p + 1) (zlen l) msg = l →
      name_at msg (p + 1 + zlen l) ls h n → name_at msg p (l :: ls) h (1 + zlen l + n)
  | at_offset p hi lo ls h n : 192 <= hi → rd msg p = Some hi → rd msg (p + 1) = Some lo →
      name_at msg (256 * (hi - 192) + lo) ls h n → name_at msg p ls (h + 1) 2.

Lemma name_at_range msg p ls h n : name_at msg p ls h n → 0 <= p < zlen msg ∧ 0 <= h ∧ 0 < n.
Proof. induction 1 as [p H|p l ls h n Hl H Hs _ IH|p hi lo ls h n Hi H _ _ IH]; apply rd_range in H; unfold label_ok in *; lia. Qed.

(** ** Decompression *)

Lemma offset_bits hi lo : 192 <= hi <= 255 → 0 <= lo <= 255 → Z.lor (Z.shiftl (Z.land hi 63) 8) lo = 256 * (hi - 192) + lo.
Proof.
  intros Hh Hl. change 63 with (Z.ones 6). rewrite Z.land_ones, Z.shiftl_mul_pow2 by lia. change (2 ^ 6) with 64. change (2 ^ 8) with 256.
  assert (hi mod 64 = hi - 192) as -> by (symmetry; apply Z.mod_unique with 3; lia).
  pose proof (Z.add_lor_land ((hi - 192) * 256) lo) as E. assert (Z.land ((hi - 192) * 256) lo = 0) as H0; [|lia].
  apply Z.bits_inj'. intros n Hn. rewrite Z.land_spec, Z.bits_0. change 256 with (2 ^ 8). destruct (Z.ltb_spec n 8).
  - by rewrite Z.mul_pow2_bits_low by lia.
  - rewrite (Z.bits_above_log2 lo n), andb_false_r; [done|lia|]. destruct (decide (lo = 0)) as [->|]; [cbn; lia|].
    apply Z.log2_lt_pow2; [lia|]. apply Z.lt_le_trans with (2 ^ 8); [lia|]. apply Z.pow_le_mono_r; lia.
Qed.

Lemma copy_label_run lb msg p tgt : 0 <= lb → 0 <= p → p + lb <= zlen msg → zlen tgt + lb <= DNSNAMEBUFSIZE →
  copy_label (Z.to_nat lb) msg p tgt = Some (p + lb, tgt ++ slice p lb msg).
Proof.
  intros H0. revert p tgt. pattern lb. apply natlike_ind; [..|done]; clear lb H0.
  - intros p tgt _ _ _. cbn. by rewrite Z.add_0_r, slice_zero, app_nil_r.
  - intros lb H0 IH p tgt Hp Hm Ht. rewrite Z2Nat.inj_succ by done. cbn. destruct (rd_some msg p) as [x Hx]; [lia|].
    rewrite Hx. cbn. unfold put_byte. zdec. cbn. rewrite IH by (rewrite ?zlen_app; zlia).
    rewrite (slice_cons _ _ _ _ Hx) by lia. replace (Z.succ lb - 1) with lb by lia. rewrite <-app_assoc. do 2 f_equal. lia.
Qed.

Lemma name_at_inv msg p ls h n lb : rd msg p = Some lb → name_at msg p ls h n →
  (lb = 0 ∧ ls = [] ∧ h = 0 ∧ n = 1) ∨
  (1 <= lb <= 63 ∧ ∃ ls' n', ls = slice (p + 1) lb msg :: ls' ∧ p + 1 + lb < zlen msg ∧ name_at msg (p + 1 + lb) ls' h n' ∧ n = 1 + lb + n') ∨
  (192 <= lb ∧ ∃ lo h' n', rd msg (p + 1) = Some lo ∧ name_at msg (256 * (lb - 192) + lo) ls h' n' ∧ h = h' + 1 ∧ n = 2).
Proof.
  intros Hr H. destruct H as [p H|p l ls h n Hl H Hs Hn|p hi lo ls h n Hi H H' Hn]; rewrite H in Hr; injection Hr as <-.
  - by left.
  - right. left. split; [done|]. exists ls, n. rewrite Hs. pose proof (name_at_range _ _ _ _ _ Hn). split_and!; try done. lia.
  - right. right. split; [done|]. by exists lo, h, n.
Qed.

(** A message says at most one thing at an offset. *)
Lemma name_at_fun msg p ls h n : name_at msg p ls h n → ∀ ls' h' n', name_at msg p ls' h' n' → ls = ls' ∧ h = h' ∧ n = n'.
Proof.
  induction 1 as [p H|p l ls h n Hl H Hs Hn IH|p hi lo ls h n Hi H H' Hn IH]; intros ls2 h2 n2 H2;
    destruct (name_at_inv _ _ _ _ _ _ H H2) as [(E & -> & -> & ->)|[(? & ls' & n' & -> & _ & Hn' & ->)|(? & lo' & h' & n' & Hlo & Hn' & -> & ->)]]; unfold label_ok in *; try lia; try done.
  - destruct (IH _ _ _ Hn') as (-> & -> & ->). by rewrite Hs.
  - rewrite H' in Hlo. injection Hlo as <-. by destruct (IH _ _ _ Hn') as (-> & -> & _).
Qed.

(** A label in a message. *)
Lemma name_at_label msg p lb ls h n : 1 <= lb <= 63 → rd msg p = Some lb → p + 1 + lb < zlen msg →
  name_at msg (p + 1 + lb) ls h n → name_at msg p (slice (p + 1) lb msg :: ls) h (1 + lb + n).
Proof.
  intros Hlb Hr Hm Hn. pose proof (rd_range _ _ _ Hr).
  assert (Hz : zlen (slice (p + 1) lb msg) = lb) by (apply zlen_slice; lia). rewrite <-Hz at 2.
  constructor; rewrite ?Hz; try done. unfold label_ok. by rewrite Hz.
Qed.

Lemma zlen_wire_pos ls : 1 <= zlen (wire ls).
Proof. unfold wire. zlia. Qed.

(** The target after a label. *)
Lemma zlen_target (tgt : list Z) lb msg p ls : 0 <= lb → 0 <= p → p + lb <= zlen msg →
  zlen (tgt ++ wire (slice p lb msg :: ls)) = zlen tgt + 1 + lb + zlen (wire ls).
Proof. intros. rewrite wire_cons, zlen_app, zlen_cons, zlen_app, zlen_slice by lia. lia. Qed.

Lemma target_label (tgt : list Z) lb msg p ls : 0 <= lb → 0 <= p → p + lb <= zlen msg →
  ((tgt ++ [lb]) ++ slice p lb msg) ++ wire ls = tgt ++ wire (slice p lb msg :: ls).
Proof. intros. rewrite wire_cons, zlen_slice, <-!app_assoc by lia. done. Qed.

(** Exactly the names with at most 255 offsets and at most
    [DNSNAMEBUFSIZE] bytes, for any state of the loop. *)
Definition jumped_exact (msg : list Z) (lptr hops : Z) (tgt : list Z) (v : verdict) : Prop :=
  match v with
  | Name t => ∃ ls h n, name_at msg lptr ls h n ∧ t = tgt ++ wire ls ∧ hops + h <= 255 ∧ zlen t <= DNSNAMEBUFSIZE
  | Error rc => rc = RC_FORMAT ∧ ∀ ls h n, name_at msg lptr ls h n → hops + h <= 255 → zlen (tgt ++ wire ls) <= DNSNAMEBUFSIZE → False
  end.

Lemma jumped_spec fuel msg lptr hops tgt : bytes msg → 0 <= lptr < zlen msg → hops <= 255 → zlen tgt < DNSNAMEBUFSIZE →
  (255 - hops) + (DNSNAMEBUFSIZE - zlen tgt) < Z.of_nat fuel →
  ∃ v, jumped msg fuel lptr hops tgt = Some v ∧ jumped_exact msg lptr hops tgt v.
Proof.
  intros Hm. revert lptr hops tgt. induction fuel as [|fuel IH]; intros lptr hops tgt Hp Hh Ht Hf; [unfold DNSNAMEBUFSIZE in *; lia|].
  cbn [jumped]. destruct (rd_some msg lptr Hp) as [lb Hlb]. rewrite Hlb. cbn. pose proof (rd_byte _ _ _ Hm Hlb) as Hlb'.
  assert (Herr : (∀ ls h n, name_at msg lptr ls h n → hops + h <= 255 → zlen (tgt ++ wire ls) <= DNSNAMEBUFSIZE → False) →
    ∃ v, Some (Error RC_FORMAT) = Some v ∧ jumped_exact msg lptr hops tgt v) by (intros H; by exists (Error RC_FORMAT)).
  rewrite ?Z.gtb_ltb. case_if.
  - case_if.
    { apply Herr. intros ls h n Hn. destruct (name_at_inv _ _ _ _ _ _ Hlb Hn) as [?|[?|?]]; lia. }
    rewrite ?Z.geb_leb. case_if.
    { apply Herr. intros ls h n Hn. destruct (name_at_inv _ _ _ _ _ _ Hlb Hn) as [?|[?|(_ & lo & _ & _ & Hlo & _)]]; [lia..|]. apply rd_range in Hlo. lia. }
    case_if.
    { apply Herr. intros ls h n Hn. destruct (name_at_inv _ _ _ _ _ _ Hlb Hn) as [?|[?|(_ & lo & h' & n' & _ & Hn' & -> & _)]]; [lia..|].
      pose proof (name_at_range _ _ _ _ _ Hn'). lia. }
    destruct (rd_some msg (lptr + 1)) as [lo Hlo]; [lia|]. rewrite Hlo. cbn. pose proof (rd_byte _ _ _ Hm Hlo) as Hlo'. rewrite offset_bits by lia.
    rewrite ?Z.geb_leb. case_if.
    { apply Herr. intros ls h n Hn. destruct (name_at_inv _ _ _ _ _ _ Hlb Hn) as [?|[?|(_ & lo' & h' & n' & Hlo2 & Hn' & _)]]; [lia..|].
      rewrite Hlo in Hlo2. injection Hlo2 as <-. pose proof (name_at_range _ _ _ _ _ Hn'). lia. }
    destruct (IH (256 * (lb - 192) + lo) (hops + 1) tgt) as (v & E & HE); [lia..|]. exists v. split; [done|]. destruct v as [t|rc]; cbn in *.
    + destruct HE as (ls & h & n & Hn & -> & Hh' & Hz). exists ls, (h + 1), 2. split_and!; try done; [|lia]. eapply at_offset; [|done..]. lia.
    + destruct HE as [-> HE]. split; [done|]. intros ls h n Hn Hh' Hz.
      destruct (name_at_inv _ _ _ _ _ _ Hlb Hn) as [?|[?|(_ & lo' & h' & n' & Hlo2 & Hn' & -> & _)]]; [lia..|].
      rewrite Hlo in Hlo2. injection Hlo2 as <-. eapply HE; [done|lia|done].
  - unfold put_byte. zdec. cbn. case_if.
    { exists (Name (tgt ++ [lb])). split; [done|]. subst lb. exists [], 0, 1. split_and!; try done; [by constructor|lia|rewrite zlen_app; zlia]. }
    rewrite ?Z.geb_leb. case_if.
    { apply Herr. intros ls h n Hn. destruct (name_at_inv _ _ _ _ _ _ Hlb Hn) as [?|[(_ & ls' & n' & _ & ? & _)|?]]; lia. }
    rewrite zlen_app, zlen_cons, zlen_nil. case_if.
    { apply Herr. intros ls h n Hn _ Hz. destruct (name_at_inv _ _ _ _ _ _ Hlb Hn) as [?|[(_ & ls' & n' & -> & ? & _)|?]]; [lia| |lia].
      rewrite zlen_target in Hz by lia. pose proof (zlen_wire_pos ls'). lia. }
    rewrite copy_label_run by (rewrite ?zlen_app, ?zlen_cons, ?zlen_nil; unfold DNSNAMEBUFSIZE in *; lia). cbn.
    assert (Hz : zlen (slice (lptr + 1) lb msg) = lb) by (apply zlen_slice; lia).
    destruct (IH (lptr + 1 + lb) hops ((tgt ++ [lb]) ++ slice (lptr + 1) lb msg)) as (v & E & HE);
      [lia|lia|rewrite !zlen_app, Hz; zlia|rewrite !zlen_app, Hz; zlia|]. exists v. split; [done|]. destruct v as [t|rc]; cbn in *.
    + destruct HE as (ls & h & n & Hn & -> & Hh' & Hz'). exists (slice (lptr + 1) lb msg :: ls), h, (1 + lb + n).
      rewrite target_label in * by lia. split_and!; try done. apply name_at_label; try done; lia.
    + destruct HE as [-> HE]. split; [done|]. intros ls h n Hn Hh' Hz'.
      destruct (name_at_inv _ _ _ _ _ _ Hlb Hn) as [?|[(_ & ls' & n' & -> & _ & Hn' & _)|?]]; [lia| |lia].
      eapply HE; [done|done|]. by rewrite target_label by lia.
Qed.

(** The same before the first jump, where the name also has to end in the
    data. *)
Definition direct_exact (msg : list Z) (lptr newsz : Z) (tgt : list Z) (v : verdict) (newsz' : Z) : Prop :=
  match v with
  | Name t => ∃ ls h n, name_at msg lptr ls h n ∧ t = tgt ++ wire ls ∧ h <= 255 ∧ zlen t <= DNSNAMEBUFSIZE ∧ n <= newsz ∧ newsz' = newsz - n
  | Error rc => (rc = RC_FORMAT ∨ rc = RC_TRUNC) ∧
      ∀ ls h n, name_at msg lptr ls h n → h <= 255 → zlen (tgt ++ wire ls) <= DNSNAMEBUFSIZE → newsz < n ∧ rc = RC_TRUNC
  end.

Lemma direct_jump msg lptr newsz tgt lb lo : bytes msg → zlen tgt < DNSNAMEBUFSIZE → 192 <= lb → rd msg lptr = Some lb → rd msg (lptr + 1) = Some lo →
  2 <= newsz → 256 * (lb - 192) + lo < zlen msg →
  ∃ v, jumped msg decompress_fuel (256 * (lb - 192) + lo) 1 tgt = Some v ∧ direct_exact msg lptr newsz tgt v (newsz - 2).
Proof.
  intros Hm Ht Hl Hlb Hlo Hn Ho. pose proof (rd_byte _ _ _ Hm Hlb). pose proof (rd_byte _ _ _ Hm Hlo).
  destruct (jumped_spec decompress_fuel msg (256 * (lb - 192) + lo) 1 tgt) as (v & E & HE);
    [done|lia|lia|done|pose proof (zlen_nonneg tgt); rewrite fuel_value; unfold DNSNAMEBUFSIZE in *; lia|].
  exists v. split; [done|]. destruct v as [t|rc]; cbn in *.
  - destruct HE as (ls & h & n & Hn' & -> & Hh & Hz). exists ls, (h + 1), 2. split_and!; try done; [by eapply at_offset|lia].
  - destruct HE as [-> HE]. split; [by left|]. intros ls h n Hna Hh Hz. exfalso.
    destruct (name_at_inv _ _ _ _ _ _ Hlb Hna) as [?|[?|(_ & lo' & h' & n' & Hlo2 & Hn' & -> & _)]]; [lia..|].
    rewrite Hlo in Hlo2. injection Hlo2 as <-. eapply HE; [done|lia|done].
Qed.

Lemma direct_spec fuel msg lptr newsz tgt : bytes msg → 0 <= lptr < zlen msg → 0 < newsz → zlen tgt < DNSNAMEBUFSIZE →
  DNSNAMEBUFSIZE - zlen tgt < Z.of_nat fuel →
  ∃ v newsz', direct msg fuel lptr newsz tgt = Some (v, newsz') ∧ direct_exact msg lptr newsz tgt v newsz'.
Proof.
  intros Hm. revert lptr newsz tgt. induction fuel as [|fuel IH]; intros lptr newsz tgt Hp Hn0 Ht Hf; [unfold DNSNAMEBUFSIZE in *; lia|].
  cbn [direct]. destruct (rd_some msg lptr Hp) as [lb Hlb]. rewrite Hlb. cbn. pose proof (rd_byte _ _ _ Hm Hlb) as Hlb'.
  assert (Herr : ∀ rc z, rc = RC_FORMAT ∨ rc = RC_TRUNC →
    (∀ ls h n, name_at msg lptr ls h n → h <= 255 → zlen (tgt ++ wire ls) <= DNSNAMEBUFSIZE → newsz < n ∧ rc = RC_TRUNC) →
    ∃ v newsz', Some (Error rc, z) = Some (v, newsz') ∧ direct_exact msg lptr newsz tgt v newsz') by (intros rc z H1 H2; by exists (Error rc), z).
  rewrite ?Z.gtb_ltb. case_if.
  - case_if.
    { apply Herr; [by left|]. intros ls h n Hn. destruct (name_at_inv _ _ _ _ _ _ Hlb Hn) as [?|[?|?]]; lia. }
    case_if.
    { apply Herr; [by right|]. intros ls h n Hn. destruct (name_at_inv _ _ _ _ _ _ Hlb Hn) as [?|[?|(_ & lo & _ & _ & _ & _ & _ & ->)]]; [lia..|]. split; [lia|done]. }
    rewrite ?Z.geb_leb. case_if.
    { apply Herr; [by left|]. intros ls h n Hn. destruct (name_at_inv _ _ _ _ _ _ Hlb Hn) as [?|[?|(_ & lo & _ & _ & Hlo & _)]]; [lia..|]. apply rd_range in Hlo. lia. }
    destruct (rd_some msg (lptr + 1)) as [lo Hlo]; [lia|]. rewrite Hlo. cbn. pose proof (rd_byte _ _ _ Hm Hlo) as Hlo'. rewrite offset_bits by lia.
    rewrite ?Z.geb_leb. case_if.
    { apply Herr; [by left|]. intros ls h n Hn. destruct (name_at_inv _ _ _ _ _ _ Hlb Hn) as [?|[?|(_ & lo' & h' & n' & Hlo2 & Hn' & _)]]; [lia..|].
      rewrite Hlo in Hlo2. injection Hlo2 as <-. pose proof (name_at_range _ _ _ _ _ Hn'). lia. }
    destruct (direct_jump msg lptr newsz tgt lb lo) as (v & -> & HE); try done; [lia..|]. exists v, (newsz - 2). cbn. split; [do 2 f_equal; lia|done].
  - unfold put_byte. zdec. cbn. case_if.
    { exists (Name (tgt ++ [lb])), (newsz - 1). split; [done|]. subst lb. exists [], 0, 1. split_and!; try done; [by constructor|rewrite zlen_app; zlia|lia]. }
    case_if.
    { apply Herr; [by right|]. intros ls h n Hn. destruct (name_at_inv _ _ _ _ _ _ Hlb Hn) as [?|[(_ & ls' & n' & _ & _ & Hn' & ->)|?]]; [lia| |lia].
      pose proof (name_at_range _ _ _ _ _ Hn'). split; [lia|done]. }
    rewrite ?Z.geb_leb. case_if.
    { apply Herr; [by left|]. intros ls h n Hn. destruct (name_at_inv _ _ _ _ _ _ Hlb Hn) as [?|[(_ & ls' & n' & _ & ? & _)|?]]; lia. }
    rewrite zlen_app, zlen_cons, zlen_nil. case_if.
    { apply Herr; [by left|]. intros ls h n Hn _ Hz. destruct (name_at_inv _ _ _ _ _ _ Hlb Hn) as [?|[(_ & ls' & n' & -> & ? & _)|?]]; [lia| |lia].
      rewrite zlen_target in Hz by lia. pose proof (zlen_wire_pos ls'). lia. }
    rewrite copy_label_run by (rewrite ?zlen_app, ?zlen_cons, ?zlen_nil; unfold DNSNAMEBUFSIZE in *; lia). cbn.
    assert (Hz : zlen (slice (lptr + 1) lb msg) = lb) by (apply zlen_slice; lia).
    destruct (IH (lptr + 1 + lb) (newsz - 1 - lb) ((tgt ++ [lb]) ++ slice (lptr + 1) lb msg)) as (v & z & E & HE);
      [lia|lia|rewrite !zlen_app, Hz; zlia|rewrite !zlen_app, Hz; zlia|]. exists v, z. split; [done|]. destruct v as [t|rc]; cbn in *.
    + destruct HE as (ls & h & n & Hn & -> & Hh' & Hz' & Hns & ->). exists (slice (lptr + 1) lb msg :: ls), h, (1 + lb + n).
      rewrite target_label in * by lia. split_and!; try done; [apply name_at_label; try done; lia|lia..].
    + destruct HE as [Hrc HE]. split; [done|]. intros ls h n Hn Hh' Hz'.
      destruct (name_at_inv _ _ _ _ _ _ Hlb Hn) as [?|[(_ & ls' & n' & -> & _ & Hn' & ->)|?]]; [lia| |lia].
      destruct (HE ls' h n' Hn' Hh') as [? ->]; [by rewrite target_label by lia|]. split; [lia|done].
Qed.

Lemma decompress_spec msg src sz : bytes msg → 0 <= src → 0 <= sz →
  ∃ rc src' sz' tgt, decompress_name msg src sz = Some (rc, src', sz', tgt) ∧
  ((rc = RC_OK ∧ ∃ ls h n, name_at msg src ls h n ∧ h <= 255 ∧ zlen (wire ls) <= DNSNAMEBUFSIZE ∧ n <= sz ∧
                           tgt = wire ls ∧ src' = src + n ∧ sz' = sz - n) ∨
   ((rc = RC_FORMAT ∨ rc = RC_TRUNC) ∧ src' = src ∧ sz' = sz ∧ tgt = [] ∧
      ∀ ls h n, name_at msg src ls h n → h <= 255 → zlen (wire ls) <= DNSNAMEBUFSIZE → sz < n ∧ rc = RC_TRUNC)).
Proof.
  intros Hm Hs Hz. unfold decompress_name. case_if.
  { do 4 eexists. split; [done|]. right. split_and!; try done; [by right|]. intros ls h n Hn. apply name_at_range in Hn. lia. }
  rewrite ?Z.geb_leb. case_if.
  { do 4 eexists. split; [done|]. right. split_and!; try done; [by left|]. intros ls h n Hn. apply name_at_range in Hn. lia. }
  destruct (direct_spec decompress_fuel msg src sz []) as (v & z & -> & HE); [done|lia|lia|done|by rewrite fuel_value|]. cbn. destruct v as [t|rc].
  - destruct HE as (ls & h & n & Hn & -> & Hh & Hl & Hns & ->). do 4 eexists. split; [done|]. left. split; [done|]. exists ls, h, n.
    split_and!; try done. lia.
  - destruct HE as [Hrc HE]. do 4 eexists. split; [done|]. right. done.
Qed.

(** ** Names in memory *)

Lemma rd_wire pre ls rest : rd (pre ++ wire ls ++ rest) (zlen pre) = Some (match ls with [] => 0 | l :: _ => zlen l end).
Proof. destruct ls as [|l ls]; [apply rd_here|]. rewrite wire_cons. apply rd_here. Qed.

Lemma wire_step pre l ls rest : pre ++ wire (l :: ls) ++ rest = (pre ++ zlen l :: l) ++ wire ls ++ rest.
Proof. rewrite wire_cons. cbn. by rewrite <-!app_assoc. Qed.

Lemma zlen_step (pre l : list Z) : zlen (pre ++ zlen l :: l) = zlen pre + 1 + zlen l.
Proof. rewrite zlen_app, zlen_cons. lia. Qed.

Lemma segs_length ls : Forall label_ok ls → 2 * zlen ls <= zlen (segs ls).
Proof.
  induction 1 as [|l ls Hl _ IH]; [done|]. rewrite segs_cons, zlen_app, !zlen_cons. unfold label_ok in Hl. lia.
Qed.

(** At most 127 labels. *)
Lemma name_ok_labels ls : name_ok ls → zlen ls <= 127.
Proof. intros [H1 H2]. pose proof (segs_length ls H1). unfold wire, DNSNAMEBUFSIZE in H2. rewrite zlen_app in H2. change (zlen [0]) with 1 in H2. lia. Qed.

Lemma rhnlen_loop_run fuel pre ls rest : Forall label_ok ls → (length ls < fuel)%nat →
  rhnlen_loop fuel (pre ++ wire ls ++ rest) (zlen pre) = Some (zlen pre + zlen (wire ls)).
Proof.
  revert pre ls. induction fuel as [|fuel IH]; intros pre ls Hl Hf; [lia|]. cbn [rhnlen_loop]. rewrite rd_wire. cbn.
  destruct Hl as [|l ls Hl Hls]; [done|]. unfold label_ok in Hl. zdec. rewrite wire_step. rewrite <-zlen_step, IH by (cbn in Hf; auto with lia).
  rewrite zlen_step, wire_cons, zlen_cons, zlen_app. f_equal. lia.
Qed.

Lemma wire_long ls rest : (length ls < S (length (wire ls ++ rest)))%nat.
Proof.
  rewrite length_app. unfold wire. rewrite length_app. cbn. assert (length ls <= length (segs ls))%nat; [|lia].
  induction ls as [|l ls IH]; [done|]. rewrite segs_cons. cbn. rewrite length_app. lia.
Qed.

Lemma rhnlen_wire ls rest : Forall label_ok ls → rhnlen (wire ls ++ rest) = Some (zlen (wire ls)).
Proof. intros Hl. unfold rhnlen. apply (rhnlen_loop_run _ []); [done|]. apply wire_long. Qed.

Lemma length_bytes_run fuel pre ls rest acc : Forall label_ok ls → (length ls < fuel)%nat → zlen acc + zlen ls <= 128 →
  length_bytes fuel (pre ++ wire ls ++ rest) (zlen pre) acc = Some (acc ++ (zlen <$> ls), zlen pre + zlen (segs ls)).
Proof.
  revert pre ls acc. induction fuel as [|fuel IH]; intros pre ls acc Hl Hf Ha; [lia|]. cbn [length_bytes]. rewrite rd_wire. cbn.
  destruct Hl as [|l ls Hl Hls]; [by rewrite app_nil_r, Z.add_0_r|]. unfold label_ok in Hl. rewrite zlen_cons in Ha. zdec. rewrite wire_step.
  replace (zlen pre + (zlen l + 1)) with (zlen (pre ++ zlen l :: l)) by (rewrite zlen_step; lia).
  rewrite IH; [|done|cbn in Hf; lia|rewrite zlen_app; zlia]. rewrite zlen_step, <-app_assoc, segs_cons, zlen_app, zlen_cons. cbn. do 2 f_equal. lia.
Qed.

(** ** The longest common end of two names, without regard to case *)

Definition fold_case (l : list Z) : list Z := tolower <$> l.

(** From the last label on. *)
Fixpoint common (x y : list (list Z)) : nat :=
  match x, y with
  | l :: x', m :: y' => if bool_decide (fold_case l = fold_case m) then S (common x' y') else O
  | _, _ => O
  end.

Lemma common_le x y : (common x y <= length x)%nat ∧ (common x y <= length y)%nat.
Proof. revert y. induction x as [|l x IH]; intros [|m y]; cbn; try lia. case_bool_decide; cbn; [|lia]. destruct (IH y). lia. Qed.

Lemma common_prefix x y : fold_case <$> take (common x y) x = fold_case <$> take (common x y) y.
Proof. revert y. induction x as [|l x IH]; intros [|m y]; cbn; try done. case_bool_decide as H; [|done]. cbn. by rewrite H, IH. Qed.

Lemma common_ge n x y : (n <= length x)%nat → (n <= length y)%nat → fold_case <$> take n x = fold_case <$> take n y → (n <= common x y)%nat.
Proof.
  revert x y. induction n as [|n IH]; intros x y Hx Hy H; [lia|]. destruct x as [|l x], y as [|m y]; cbn in *; try lia.
  injection H as H1 H2. rewrite bool_decide_eq_true_2 by done. apply le_n_S, IH; [lia..|done].
Qed.

(** Two names that share an end with a third share the shorter of both. *)
Lemma common_trans x y z n : (n <= common x y)%nat → (n <= common y z)%nat → (n <= common x z)%nat.
Proof.
  intros H1 H2. destruct (common_le x y), (common_le y z). apply common_ge; [lia..|].
  trans (fold_case <$> take n y).
  - pose proof (common_prefix x y) as E. apply (f_equal (take n)) in E. by rewrite <-!fmap_take, !take_take, !Nat.min_l in E by lia.
  - pose proof (common_prefix y z) as E. apply (f_equal (take n)) in E. by rewrite <-!fmap_take, !take_take, !Nat.min_l in E by lia.
Qed.

Lemma match_back_run p l x q m y : length l = length m →
  match_back (length l) (p ++ l ++ x) (q ++ m ++ y) (zlen p + zlen l) (zlen q + zlen m) = Some (bool_decide (fold_case l = fold_case m)).
Proof.
  revert x m y. induction l as [|c l IH] using rev_ind; intros x m y Hlen.
  { destruct m; [|done]. done. }
  destruct m as [|d m _] using rev_ind; [rewrite length_app in Hlen; cbn in Hlen; lia|]. rewrite !length_app in Hlen. cbn in Hlen.
  rewrite length_app, Nat.add_comm. cbn [match_back Nat.add length]. rewrite !zlen_app. change (zlen [c]) with 1. change (zlen [d]) with 1.
  replace (zlen p + (zlen l + 1) - 1) with (zlen (p ++ l)) by (rewrite zlen_app; lia).
  replace (zlen q + (zlen m + 1) - 1) with (zlen (q ++ m)) by (rewrite zlen_app; lia).
  replace (p ++ (l ++ [c]) ++ x) with ((p ++ l) ++ c :: x) by by rewrite <-!app_assoc.
  replace (q ++ (m ++ [d]) ++ y) with ((q ++ m) ++ d :: y) by by rewrite <-!app_assoc.
  rewrite !rd_here. cbn. rewrite !zlen_app, <-!app_assoc. rewrite IH by lia. unfold fold_case. rewrite !fmap_app. cbn.
  destruct (tolower c =? tolower d) eqn:E; zb; cbn; f_equal; apply bool_decide_ext || (symmetry; apply bool_decide_eq_false_2).
  - rewrite E. split; [by intros ->|]. by intros [? _]%app_inj_tail.
  - by intros [_ ?]%app_inj_tail.
Qed.

Lemma segs_snoc ls l : segs (ls ++ [l]) = segs ls ++ zlen l :: l.
Proof. rewrite segs_app. unfold segs at 2. cbn. by rewrite app_nil_r. Qed.

(** The names from their last labels on. *)
Lemma match_segs_run ra rb x y k :
  match_segs (zlen <$> ra) (zlen <$> rb) (segs (reverse ra) ++ x) (segs (reverse rb) ++ y) (zlen (segs (reverse ra))) (zlen (segs (reverse rb))) k =
  Some (k + Z.of_nat (common ra rb), zlen (segs (reverse (drop (common ra rb) ra))), zlen (segs (reverse (drop (common ra rb) rb)))).
Proof.
  revert rb x y k. induction ra as [|l ra IH]; intros [|m rb] x y k; cbn [match_segs fmap list_fmap common drop]; try by rewrite Z.add_0_r.
  rewrite !reverse_cons, !segs_snoc. destruct (zlen l =? zlen m) eqn:Hlen; zb; cbn [negb].
  - assert (Hn : Z.to_nat (zlen l) = length l) by (unfold zlen; lia). rewrite Hn. rewrite !zlen_app, !zlen_cons.
    replace ((segs (reverse ra) ++ zlen l :: l) ++ x) with ((segs (reverse ra) ++ [zlen l]) ++ l ++ x) by by rewrite <-!app_assoc.
    replace ((segs (reverse rb) ++ zlen m :: m) ++ y) with ((segs (reverse rb) ++ [zlen m]) ++ m ++ y) by by rewrite <-!app_assoc.
    replace (zlen (segs (reverse ra)) + (1 + zlen l)) with (zlen (segs (reverse ra) ++ [zlen l]) + zlen l) by zlia.
    replace (zlen (segs (reverse rb)) + (1 + zlen m)) with (zlen (segs (reverse rb) ++ [zlen m]) + zlen m) by zlia.
    rewrite match_back_run by (unfold zlen in Hlen; lia). cbn. case_bool_decide as Hb.
    + rewrite !zlen_app. change (zlen [zlen l]) with 1. change (zlen [zlen m]) with 1. rewrite <-!app_assoc.
      replace (zlen (segs (reverse ra)) + 1 + zlen l - zlen l - 1) with (zlen (segs (reverse ra))) by lia.
      replace (zlen (segs (reverse rb)) + 1 + zlen m - zlen l - 1) with (zlen (segs (reverse rb))) by lia.
      rewrite IH. cbn [drop]. do 2 f_equal. f_equal. lia.
    + cbn [drop]. rewrite !reverse_cons, !segs_snoc, Z.add_0_r, !zlen_app, !zlen_cons. do 2 f_equal; [f_equal|]; zlia.
  - rewrite bool_decide_eq_false_2; [cbn [drop]; by rewrite !reverse_cons, !segs_snoc, Z.add_0_r|].
    intros H%(f_equal length). unfold fold_case in H. rewrite !length_fmap in H. unfold zlen in Hlen. lia.
Qed.

(** The number of labels two names have in common at their ends. *)
Definition shared (a b : list (list Z)) : nat := common (reverse a) (reverse b).
#[local] Arguments shared : simpl never.

(** Where the last [c] labels of a name start. *)
Definition tail_at (a : list (list Z)) (c : nat) : Z := zlen (segs (take (length a - c) a)).

Lemma domain_match_wire a b : name_ok a → name_ok b →
  domain_match (wire a) (wire b) = Some (Z.of_nat (shared a b), tail_at a (shared a b), tail_at b (shared a b)).
Proof.
  intros Ha Hb. unfold domain_match. pose proof (name_ok_labels _ Ha). pose proof (name_ok_labels _ Hb).
  pose proof (length_bytes_run (S (length (wire a))) [] a [] [] (proj1 Ha)) as Ea. rewrite app_nil_r in Ea. cbn [app] in Ea.
  pose proof (length_bytes_run (S (length (wire b))) [] b [] [] (proj1 Hb)) as Eb. rewrite app_nil_r in Eb. cbn [app] in Eb.
  change (zlen (@nil Z)) with 0 in Ea, Eb. rewrite Ea, Eb; [|pose proof (wire_long b []) as Hl; rewrite app_nil_r in Hl; lia|lia|pose proof (wire_long a []) as Hl; rewrite app_nil_r in Hl; lia|lia].
  cbn [mbind option_bind]. unfold wire. rewrite <-!fmap_reverse, !Z.add_0_l. cbn [app].
  pose proof (match_segs_run (reverse a) (reverse b) [0] [0] 0) as E. rewrite !reverse_involutive in E. rewrite E.
  unfold shared, tail_at. by rewrite !drop_reverse, !reverse_involutive.
Qed.

(** The last [k] labels of a name. *)
Definition ending (k : nat) (ls : list (list Z)) : list (list Z) := drop (length ls - k) ls.

Lemma take_reverse_fold k ls : fold_case <$> take k (reverse ls) = reverse (fold_case <$> ending k ls).
Proof. unfold ending. by rewrite <-fmap_reverse, take_reverse. Qed.

(** [shared] is the largest number of labels in which the ends are equal. *)
Lemma shared_spec a b : (shared a b <= length a)%nat ∧ (shared a b <= length b)%nat ∧
  fold_case <$> ending (shared a b) a = fold_case <$> ending (shared a b) b ∧
  ∀ k, (k <= length a)%nat → (k <= length b)%nat → fold_case <$> ending k a = fold_case <$> ending k b → (k <= shared a b)%nat.
Proof.
  unfold shared. destruct (common_le (reverse a) (reverse b)) as [Ha Hb]. rewrite !length_reverse in *. split_and!; [done|done| |].
  - pose proof (common_prefix (reverse a) (reverse b)) as E. rewrite !take_reverse_fold in E. by apply (inj reverse) in E.
  - intros k Hka Hkb E. apply common_ge; rewrite ?length_reverse; [done..|]. by rewrite !take_reverse_fold, E.
Qed.

(** ** Compressed names in a message *)

(** What is behind an element of the list: the labels of the name, how many of
    them are stored in place, and where. *)
Record entry := mkEntry { e_at : Z; e_ls : list (list Z); e_in : nat }.

Definition compel (e : entry) : compel_t := mkCompel (e_at e) (wire (e_ls e)).

(** The position of the [t]-th label of an entry. *)
Definition e_pos (e : entry) (t : nat) : Z := e_at e + zlen (segs (take t (e_ls e))).

(** An entry, after the entries [before]: the labels stored in place are read
    back, with the rest of the name, up to case; the rest is shared with an
    earlier entry. *)
Record entry_ok (msg : list Z) (before : list entry) (e : entry) : Prop := mkEntryOk {
  k_name : name_ok (e_ls e);
  k_at : 0 <= e_at e <= zlen msg;
  k_in : (e_in e <= length (e_ls e))%nat;
  k_read : ∀ t, (t < e_in e)%nat → ∃ ls h n, name_at msg (e_pos e t) ls h n ∧ fold_case <$> ls = fold_case <$> drop t (e_ls e) ∧
                h < zlen (e_ls e) - Z.of_nat t;
  k_after : ∀ f t, f ∈ before → (t < e_in f)%nat → e_pos f t < e_at e;
  k_rest : (e_in e < length (e_ls e))%nat → ∃ f, f ∈ before ∧ (length (e_ls e) - e_in e <= shared (e_ls e) (e_ls f))%nat
}.

Definition entries_ok (msg : list Z) (es : list entry) : Prop := ∀ i e, es !! i = Some e → entry_ok msg (take i es) e.

(** The first name that shares enough has what it shares in place: this is why
    the first longest match is a match the message contains. *)
Lemma first_in_place msg es nm c i e : entries_ok msg es → (0 < c)%nat → es !! i = Some e → (c <= shared nm (e_ls e))%nat →
  ∃ j f, (j <= i)%nat ∧ es !! j = Some f ∧ (c <= shared nm (e_ls f))%nat ∧ (length (e_ls f) - shared nm (e_ls f) < e_in f)%nat.
Proof.
  intros Hes Hc. revert e. induction (lt_wf i) as [i _ IH]; intros e Hi Hs.
  destruct (decide (length (e_ls e) - shared nm (e_ls e) < e_in e)%nat) as [?|Hn]; [by exists i, e|].
  destruct (common_le (reverse nm) (reverse (e_ls e))) as [_ Hle]. rewrite length_reverse in Hle. fold (shared nm (e_ls e)) in Hle.
  destruct (k_rest _ _ _ (Hes i e Hi)) as (f & Hf & Hsh); [lia|].
  apply list_elem_of_lookup in Hf as [j Hj]. pose proof (lookup_lt_Some _ _ _ Hj) as Hlt. rewrite length_take in Hlt.
  rewrite lookup_take_lt in Hj by lia. destruct (IH j ltac:(lia) f Hj) as (j' & f' & ? & ? & ? & ?).
  - unfold shared in *. eapply common_trans; [done|]. lia.
  - exists j', f'. split_and!; try done. lia.
Qed.

(** The state of the search after the entries [es]. *)
Definition reachable (nm : list (list Z)) (e : entry) : Prop := e_at e + tail_at (e_ls e) (shared nm (e_ls e)) <= 16383.

#[export] Instance reachable_dec nm e : Decision (reachable nm e).
Proof. unfold reachable. apply _. Defined.

Record search_ok (nm : list (list Z)) (es : list entry) (longest : nat) (lrem coffs : Z) : Prop := mkSearch {
  q_max : ∀ f, f ∈ es → reachable nm f → (shared nm (e_ls f) <= longest)%nat;
  q_best : (0 < longest)%nat → ∃ i e, es !! i = Some e ∧ longest = shared nm (e_ls e) ∧ reachable nm e ∧ lrem = tail_at nm longest ∧
    coffs = e_at e + tail_at (e_ls e) longest ∧
    ∀ j f, (j < i)%nat → es !! j = Some f → reachable nm f → (shared nm (e_ls f) < longest)%nat
}.

Lemma tail_at_bounds ls c : name_ok ls → 0 <= tail_at ls c <= 255.
Proof.
  intros [_ H]. unfold tail_at. split; [apply zlen_nonneg|]. rewrite <-(take_drop (length ls - c) ls), wire_app, zlen_app in H.
  pose proof (zlen_wire_pos (drop (length ls - c) ls)). unfold DNSNAMEBUFSIZE in H. lia.
Qed.

Lemma best_match_run nm es done longest lrem coffs : name_ok nm → Forall (λ e, name_ok (e_ls e) ∧ 0 <= e_at e < 4294967040) es →
  search_ok nm done longest lrem coffs →
  ∃ longest' lrem' coffs', best_match (wire nm) (compel <$> es) (Z.of_nat longest) lrem coffs = Some (Z.of_nat longest', lrem', coffs') ∧
    search_ok nm (done ++ es) longest' lrem' coffs'.
Proof.
  intros Hnm Hes. revert done longest lrem coffs. induction Hes as [|e es [He Hat] Hes IH]; intros done longest lrem coffs HS.
  { rewrite app_nil_r. by do 3 eexists. }
  cbn [fmap list_fmap best_match]. cbn [s compel index]. rewrite domain_match_wire by done. cbn [mbind option_bind].
  pose proof (tail_at_bounds (e_ls e) (shared nm (e_ls e)) He) as Hb.
  assert (Hu : u32 (e_at e + tail_at (e_ls e) (shared nm (e_ls e))) = e_at e + tail_at (e_ls e) (shared nm (e_ls e))).
  { unfold u32. apply Z.mod_small. lia. }
  assert (Hskip : ¬ (reachable nm e ∧ (longest < shared nm (e_ls e))%nat) → search_ok nm (done ++ [e]) longest lrem coffs).
  { intros Hn. destruct HS as [H1 H2]. split.
    - intros f [Hf|Hf]%elem_of_app; [auto|]. apply list_elem_of_singleton in Hf as ->. intros Hr. destruct (decide (longest < shared nm (e_ls e))%nat); [naive_solver|lia].
    - intros H0. destruct (H2 H0) as (i & f & Hi & Hl & Hr & E1 & E2 & Hj). exists i, f. split_and!; try done; [by apply lookup_app_l_Some|].
      intros j g Hji Hg. apply Hj with j; [done|]. pose proof (lookup_lt_Some _ _ _ Hi). rewrite lookup_app_l in Hg by lia. done. }
  rewrite Hu, !(cons_middle e done es), app_assoc. unfold reachable in Hskip. rewrite Z.gtb_ltb. case_if; [case_if|].
  - apply IH. split.
    + intros f [Hf|Hf]%elem_of_app; [|by apply list_elem_of_singleton in Hf as ->]. intros Hr. pose proof (q_max _ _ _ _ _ HS f Hf Hr). lia.
    + intros _. exists (length done), e. split_and!; try done; [by apply list_lookup_middle|]. intros j f Hj Hf Hr. rewrite lookup_app_l in Hf by done.
      pose proof (q_max _ _ _ _ _ HS f ltac:(by eapply list_elem_of_lookup_2) Hr). lia.
  - apply IH, Hskip. lia.
  - apply IH, Hskip. lia.
Qed.

(** Nothing that is appended changes what a message says. *)
Lemma name_at_app msg x p ls h n : name_at msg p ls h n → name_at (msg ++ x) p ls h n.
Proof.
  induction 1 as [p H|p l ls h n Hl H Hs Hn IH|p hi lo ls h n Hi H H' _ IH].
  - constructor. by apply rd_app_l.
  - constructor; try done; [by apply rd_app_l|]. pose proof (name_at_range _ _ _ _ _ Hn). apply rd_range in H. unfold label_ok in Hl.
    rewrite slice_app_in by lia. done.
  - eapply at_offset; eauto using rd_app_l.
Qed.

(** Labels in place, and what follows them. *)
Lemma name_at_segs pre ls post ls' h n : Forall label_ok ls → name_at (pre ++ segs ls ++ post) (zlen pre + zlen (segs ls)) ls' h n →
  name_at (pre ++ segs ls ++ post) (zlen pre) (ls ++ ls') h (zlen (segs ls) + n).
Proof.
  intros Hls. revert pre. induction Hls as [|l ls Hl Hls IH]; intros pre Hn; [by rewrite Z.add_0_r in Hn|].
  assert (E : pre ++ segs (l :: ls) ++ post = (pre ++ zlen l :: l) ++ segs ls ++ post) by (rewrite segs_cons; cbn; by rewrite <-!app_assoc).
  assert (Hz : zlen (segs (l :: ls)) = 1 + zlen l + zlen (segs ls)) by (rewrite segs_cons, zlen_app, zlen_cons; lia).
  rewrite Hz in *. replace (1 + zlen l + zlen (segs ls) + n) with (1 + zlen l + (zlen (segs ls) + n)) by lia. cbn [app]. apply at_label.
  - done.
  - rewrite segs_cons. apply rd_here.
  - rewrite segs_cons. cbn [app]. replace (pre ++ zlen l :: (l ++ segs ls) ++ post) with ((pre ++ [zlen l]) ++ l ++ segs ls ++ post) by by rewrite <-!app_assoc.
    replace (zlen pre + 1) with (zlen (pre ++ [zlen l])) by zlia. rewrite slice_app_r by lia. rewrite Z.sub_diag. apply slice_prefix.
  - rewrite E. rewrite <-zlen_step. apply IH. rewrite zlen_step, <-E. by replace (zlen pre + 1 + zlen l + zlen (segs ls)) with (zlen pre + (1 + zlen l + zlen (segs ls))) by lia.
Qed.

(** The bytes of an offset. *)
Lemma offset_bytes o : 0 <= o <= 16383 → Z.lor 192 (Z.shiftr (Z.land o 16128) 8) = 192 + o / 256 ∧ Z.land o 255 = o mod 256.
Proof.
  intros Ho. split; [|change 255 with (Z.ones 8); by rewrite Z.land_ones by lia].
  rewrite Z.shiftr_land. change (Z.shiftr 16128 8) with (Z.ones 6). rewrite Z.land_ones, Z.shiftr_div_pow2 by lia. change (2 ^ 8) with 256. change (2 ^ 6) with 64.
  assert (Hq : 0 <= o / 256 < 64) by (split; [apply Z.div_pos; lia|apply Z.div_lt_upper_bound; lia]). rewrite Z.mod_small by done.
  pose proof (Z.add_lor_land 192 (o / 256)) as E. assert (Z.land 192 (o / 256) = 0) as H0; [|lia].
  change 192 with (Z.shiftl 3 6). apply Z.bits_inj'. intros n Hn. rewrite Z.land_spec, Z.bits_0. destruct (Z.ltb_spec n 6).
  - by rewrite Z.shiftl_spec_low by lia.
  - rewrite (Z.bits_above_log2 (o / 256) n), andb_false_r; [done|lia|]. destruct (decide (o / 256 = 0)) as [->|]; [cbn; lia|].
    apply Z.log2_lt_pow2; [lia|]. apply Z.lt_le_trans with (2 ^ 6); [lia|]. apply Z.pow_le_mono_r; lia.
Qed.

(** A name that ends in an offset. *)
Lemma name_at_pointer msg ls o post ls' h n : Forall label_ok ls → 0 <= o <= 16383 → name_at msg o ls' h n →
  name_at (msg ++ segs ls ++ [Z.lor 192 (Z.shiftr (Z.land o 16128) 8); Z.land o 255] ++ post) (zlen msg) (ls ++ ls') (h + 1) (zlen (segs ls) + 2).
Proof.
  intros Hls Ho Hn. destruct (offset_bytes o Ho) as [-> ->]. apply name_at_segs; [done|]. rewrite <-zlen_app, app_assoc.
  assert (0 <= o / 256) by (apply Z.div_pos; lia).
  eapply at_offset with (hi := 192 + o / 256) (lo := o mod 256); [lia|apply rd_here| |].
  - replace (zlen (msg ++ segs ls) + 1) with (zlen ((msg ++ segs ls) ++ [192 + o / 256])) by zlia.
    replace ((msg ++ segs ls) ++ [192 + o / 256; o mod 256] ++ post) with (((msg ++ segs ls) ++ [192 + o / 256]) ++ o mod 256 :: post) by by rewrite <-!app_assoc.
    apply rd_here.
  - replace (256 * (192 + o / 256 - 192) + o mod 256) with o by (rewrite (Z.div_mod o 256) at 1 by lia; lia).
    rewrite <-app_assoc. by apply name_at_app.
Qed.

Lemma entry_ok_app msg x before e : entry_ok msg before e → entry_ok (msg ++ x) before e.
Proof.
  intros [K1 K2 K3 K4 K5 K6]. split; try done; [zlia|].
  intros t Ht. destruct (K4 t Ht) as (ls & h & n & ? & ? & ?). exists ls, h, n. split_and!; try done. by apply name_at_app.
Qed.

Lemma entries_app msg x es : entries_ok msg es → entries_ok (msg ++ x) es.
Proof. intros H i e Hi. apply entry_ok_app. by apply H. Qed.

Lemma entries_snoc msg es e : entries_ok msg es → entry_ok msg es e → entries_ok msg (es ++ [e]).
Proof.
  intros H He i f [Hi|[Hge Hi]]%lookup_app_Some.
  - rewrite take_app_le by (apply lookup_lt_Some in Hi; lia). by apply H.
  - apply list_lookup_singleton_Some in Hi as [Hz <-]. rewrite take_app_length' by lia. done.
Qed.

Lemma shared_le a b : (shared a b <= length a)%nat ∧ (shared a b <= length b)%nat.
Proof. unfold shared. pose proof (common_le (reverse a) (reverse b)) as H. by rewrite !length_reverse in H. Qed.

(** What two names share is the same up to case. *)
Lemma shared_tail a b : fold_case <$> drop (length a - shared a b) a = fold_case <$> drop (length b - shared a b) b.
Proof.
  pose proof (common_prefix (reverse a) (reverse b)) as H. fold (shared a b) in H. rewrite !take_reverse, !fmap_reverse in H. by apply (inj reverse) in H.
Qed.

(** The match that is used is a match the message contains. *)
Lemma match_in_place msg es nm longest lrem coffs : entries_ok msg es → search_ok nm es longest lrem coffs → (0 < longest)%nat →
  ∃ e ls h n, e ∈ es ∧ longest = shared nm (e_ls e) ∧ 0 <= coffs <= 16383 ∧ lrem = tail_at nm longest ∧
    name_at msg coffs ls h n ∧ fold_case <$> ls = fold_case <$> drop (length nm - longest) nm ∧ h < Z.of_nat longest.
Proof.
  intros Hes HS H0. destruct (q_best _ _ _ _ _ HS H0) as (i & e & Hi & Hl & Hr & -> & -> & Hj).
  destruct (first_in_place msg es nm longest i e) as (j & f & Hji & Hf & Hc & Hin); try done; [lia|].
  assert (j = i) as ->.
  { destruct (decide (j = i)); [done|]. exfalso. destruct (decide (reachable nm f)) as [Hrf|Hnf].
    - pose proof (Hj j f ltac:(lia) Hf Hrf). lia.
    - pose proof (k_after _ _ _ (Hes i e Hi) f (length (e_ls f) - shared nm (e_ls f))%nat) as Hafter.
      unfold reachable, e_pos, tail_at in *. pose proof (zlen_nonneg (segs (take (length (e_ls e) - shared nm (e_ls e)) (e_ls e)))).
      assert (f ∈ take i es) by (apply list_elem_of_lookup; exists j; rewrite lookup_take_lt; [done|lia]). specialize (Hafter ltac:(done) Hin). lia. }
  rewrite Hi in Hf. injection Hf as <-. pose proof (Hes i e Hi) as He. destruct (k_read _ _ _ He (length (e_ls e) - longest)%nat) as (ls & h & n & Hn & Hfold & Hh); [lia|].
  destruct (shared_le nm (e_ls e)) as [_ Hle]. exists e, ls, h, n. split_and!; try done.
  - by eapply list_elem_of_lookup_2.
  - pose proof (name_at_range _ _ _ _ _ Hn). unfold e_pos in *. unfold tail_at. lia.
  - rewrite Hl. apply Hr.
  - rewrite Hfold, Hl. by rewrite shared_tail.
  - unfold zlen in Hh. lia.
Qed.

(** A name stored in full. *)
Lemma compress_full msg es nm : name_ok nm → entries_ok msg es →
  entries_ok (msg ++ wire nm) (es ++ [mkEntry (zlen msg) nm (length nm)]) ∧ name_at (msg ++ wire nm) (zlen msg) nm 0 (zlen (wire nm)).
Proof.
  intros Hnm Hes. assert (Hat : ∀ t, name_at (msg ++ wire nm) (zlen msg + zlen (segs (take t nm))) (drop t nm) 0 (zlen (wire (drop t nm)))).
  { intros t. rewrite <-(take_drop t nm) at 1. rewrite wire_app, app_assoc. unfold wire. rewrite (zlen_app (segs (drop t nm))), <-(zlen_app msg). change (zlen [0]) with 1.
    rewrite <-(app_nil_r (drop t nm)) at 2. apply name_at_segs; [apply Forall_drop, Hnm|]. rewrite <-zlen_app, app_assoc. constructor. apply rd_here. }
  split.
  - apply entries_snoc; [by apply entries_app|]. split; cbn; try done; [zlia|..].
    + intros t Ht. exists (drop t nm), 0, (zlen (wire (drop t nm))). split_and!; [apply Hat|done|unfold zlen; lia].
    + intros f t Hf Ht. apply list_elem_of_lookup in Hf as [i Hi]. destruct (k_read _ _ _ (Hes i f Hi) t Ht) as (? & ? & ? & Hn & _). apply name_at_range in Hn. lia.
    + lia.
  - specialize (Hat 0%nat). by rewrite Z.add_0_r, drop_0 in Hat.
Qed.

(** A name that ends in the offset of a match. *)
Lemma compress_pointer msg es nm c o e ls h n : name_ok nm → entries_ok msg es → (0 < c <= length nm)%nat → e ∈ es → c = shared nm (e_ls e) →
  0 <= o <= 16383 → name_at msg o ls h n → fold_case <$> ls = fold_case <$> drop (length nm - c) nm → h < Z.of_nat c →
  let out := segs (take (length nm - c) nm) ++ [Z.lor 192 (Z.shiftr (Z.land o 16128) 8); Z.land o 255] in
  entries_ok (msg ++ out) (if bool_decide (c = length nm) then es else es ++ [mkEntry (zlen msg) nm (length nm - c)]) ∧
  ∃ ls', name_at (msg ++ out) (zlen msg) ls' (h + 1) (zlen out) ∧ fold_case <$> ls' = fold_case <$> nm.
Proof.
  intros Hnm Hes Hc He Hcs Ho Hn Hf Hh out. set (u := (length nm - c)%nat) in *.
  assert (Hat : ∀ t, (t <= u)%nat → ∃ ls', name_at (msg ++ out) (zlen msg + zlen (segs (take t nm))) ls' (h + 1) (zlen (segs (drop t (take u nm))) + 2) ∧
    fold_case <$> ls' = fold_case <$> drop t nm).
  { intros t Ht. exists (drop t (take u nm) ++ ls). split.
    - unfold out. rewrite <-(take_drop t (take u nm)) at 1. rewrite segs_app, take_take, Nat.min_l by done. rewrite <-!app_assoc, app_assoc, <-zlen_app.
      rewrite <-(app_nil_r [_; _]). eapply name_at_pointer; [apply Forall_drop, Forall_take, Hnm|done|]. by apply name_at_app.
    - rewrite fmap_app, Hf, <-fmap_app. f_equal. rewrite <-(take_drop u nm) at 3. by rewrite drop_app_le by (rewrite length_take; lia). }
  split.
  - case_bool_decide; [by apply entries_app|]. apply entries_snoc; [by apply entries_app|]. split; cbn; try done; [zlia|lia|..].
    + intros t Ht. destruct (Hat t ltac:(lia)) as (ls' & Hn' & Hf'). exists ls'. do 2 eexists. split_and!; [apply Hn'|done|unfold zlen; lia].
    + intros f t Hfe Ht. apply list_elem_of_lookup in Hfe as [i Hi]. destruct (k_read _ _ _ (Hes i f Hi) t Ht) as (? & ? & ? & Hn' & _). apply name_at_range in Hn'. lia.
    + intros _. exists e. split; [done|]. lia.
  - destruct (Hat 0%nat ltac:(lia)) as (ls' & Hn' & Hf'). rewrite take_0, drop_0, Z.add_0_r in *. exists ls'. split; [|done]. unfold out. rewrite zlen_app. done.
Qed.

Lemma wire_split k ls : wire ls = segs (take k ls) ++ wire (drop k ls).
Proof. by rewrite <-wire_app, take_drop. Qed.

Lemma bytes_segs ls : Forall label_ok ls → Forall bytes ls → bytes (segs ls).
Proof.
  induction 1 as [|l ls Hl _ IH]; intros Hb; [constructor|]. apply Forall_cons in Hb as [Hb1 Hb2]. rewrite segs_cons. apply bytes_app. split; [|auto].
  constructor; [|done]. unfold label_ok in Hl. unfold is_u8, UINT8_MAX. lia.
Qed.

Lemma bytes_wire ls : Forall label_ok ls → Forall bytes ls → bytes (wire ls).
Proof. intros. unfold wire. apply bytes_app. split; [by apply bytes_segs|]. by repeat constructor. Qed.

Lemma tail_at_zero ls c : (0 < c <= length ls)%nat → (tail_at ls c =? 0) = bool_decide (c = length ls).
Proof.
  intros Hc. unfold tail_at. case_bool_decide as H.
  - subst. by rewrite Nat.sub_diag.
  - apply Z.eqb_neq. destruct (length ls - c)%nat eqn:E; [lia|]. destruct ls as [|l ls]; [cbn in *; lia|]. cbn [take]. rewrite segs_cons. zlia.
Qed.

Lemma slice_tail ls c : slice 0 (tail_at ls c) (wire ls) = segs (take (length ls - c) ls).
Proof. rewrite (wire_split (length ls - c)). apply slice_prefix. Qed.

(** A match takes at least one label and the end of the name. *)
Lemma tail_room ls c : Forall label_ok ls → (0 < c <= length ls)%nat → tail_at ls c + 3 <= zlen (wire ls).
Proof.
  intros Hls Hc. rewrite (wire_split (length ls - c)), zlen_app. unfold tail_at.
  assert (Hd : Forall label_ok (drop (length ls - c) ls)) by by apply Forall_drop. apply segs_length in Hd. unfold wire. rewrite zlen_app. change (zlen [0]) with 1.
  assert (zlen (drop (length ls - c) ls) = Z.of_nat c) by (unfold zlen; rewrite length_drop; lia). lia.
Qed.

(** Compressing a name at the end of a message. *)
Lemma compress_step msg es nm : name_ok nm → entries_ok msg es → zlen msg < 4294967040 →
  ∃ out es' ls h, compress_name true (wire nm) (zlen msg) (compel <$> es) = Some (zlen out, out, compel <$> es') ∧
    entries_ok (msg ++ out) es' ∧ zlen out <= zlen (wire nm) ∧ (Forall bytes nm → bytes out) ∧
    name_at (msg ++ out) (zlen msg) ls h (zlen out) ∧ fold_case <$> ls = fold_case <$> nm ∧ h <= 255.
Proof.
  intros Hnm Hes Hm. unfold compress_name. pose proof (rhnlen_wire nm [] (proj1 Hnm)) as El. rewrite app_nil_r in El. rewrite El. cbn [mbind option_bind].
  rewrite (proj2 (Z.leb_le _ _)) by apply Hnm. cbn [negb].
  destruct (best_match_run nm es [] 0 0 0) as (c & lrem & coffs & E & HS); [done| | |].
  { apply Forall_lookup. intros i e Hi. destruct (Hes i e Hi). split; [done|lia]. }
  { split; [by intros ? ?%not_elem_of_nil|lia]. }
  change (Z.of_nat 0) with 0 in E. rewrite E.
  cbn [mbind option_bind app] in *. rewrite slice_all, Z.gtb_ltb. case_if.
  - destruct (match_in_place msg es nm c lrem coffs) as (e & ls & h & n & He & Hc & Ho & -> & Hn & Hf & Hh); try done; [lia|].
    destruct (shared_le nm (e_ls e)) as [Hcl _]. rewrite <-Hc in Hcl.
    pose proof (tail_room nm c (proj1 Hnm) ltac:(lia)) as Hroom. rewrite (proj2 (Z.leb_le _ _)) by lia. cbn [mbind option_bind].
    destruct (compress_pointer msg es nm c coffs e ls h n) as (Hes' & ls' & Hn' & Hf'); try done; [lia|].
    rewrite slice_tail, tail_at_zero by lia. set (out := segs _ ++ _) in *.
    assert (Hout : zlen out = tail_at nm c + 2) by (unfold out; rewrite zlen_app; done).
    exists out, (if bool_decide (c = length nm) then es else es ++ [mkEntry (zlen msg) nm (length nm - c)]), ls', (h + 1).
    split; [|split_and!; try done; [lia| |]].
    + rewrite <-Hout. case_bool_decide; cbn [negb]; [done|]. by rewrite fmap_app.
    + intros Hb. unfold out. apply bytes_app. split; [apply bytes_segs; [apply Forall_take, Hnm|by apply Forall_take]|].
      destruct (offset_bytes coffs Ho) as [-> ->]. pose proof (Z.mod_pos_bound coffs 256 ltac:(lia)).
      assert (0 <= coffs / 256 < 64) by (split; [apply Z.div_pos; lia|apply Z.div_lt_upper_bound; lia]).
      apply Forall_cons. split; [unfold is_u8, UINT8_MAX; lia|]. apply Forall_singleton. unfold is_u8, UINT8_MAX. lia.
    + pose proof (name_ok_labels _ Hnm). unfold zlen in *. lia.
  - destruct (compress_full msg es nm Hnm Hes) as [Hes' Hn]. cbn [mbind option_bind].
    exists (wire nm), (es ++ [mkEntry (zlen msg) nm (length nm)]), nm, 0. split; [by rewrite fmap_app|]. split_and!; try done. intros. by apply bytes_wire; [apply Hnm|].
Qed.

(** ** Messages with compressed names *)

(** What an answer is put together from: other data, and names. *)
Inductive chunk := Raw (d : list Z) | Dname (ls : list (list Z)).

(** The message so far is extended by each chunk, a name by what
    [compress_name] writes; with the message, where each name is. *)
Fixpoint assemble (cs : list chunk) (msg : list Z) (cb : list compel_t) : option (list Z * list (Z * list (list Z))) :=
  match cs with
  | [] => Some (msg, [])
  | Raw d :: cs' => assemble cs' (msg ++ d) cb
  | Dname ls :: cs' =>
      '(rl, out, cb) ← compress_name true (wire ls) (zlen msg) cb;
      '(m, placed) ← assemble cs' (msg ++ slice 0 rl out) cb;
      Some (m, (zlen msg, ls) :: placed)
  end.

Definition chunk_ok (c : chunk) : Prop :=
  match c with Raw d => bytes d | Dname ls => name_ok ls ∧ Forall bytes ls end.
(** The size without compression. *)
Definition chunk_size (c : chunk) : Z := match c with Raw d => zlen d | Dname ls => zlen (wire ls) end.
Definition size (cs : list chunk) : Z := foldr (λ c n, chunk_size c + n) 0 cs.
Definition names_of (cs : list chunk) : list (list (list Z)) :=
  mjoin ((λ c, match c with Raw _ => [] | Dname ls => [ls] end) <$> cs).

(** A name at a position is read back, up to case. *)
Definition reads_back (m : list Z) (pn : Z * list (list Z)) : Prop :=
  ∃ ls h n, name_at m pn.1 ls h n ∧ fold_case <$> ls = fold_case <$> pn.2 ∧ h <= 255 ∧ n <= zlen m - pn.1.

Lemma size_nonneg cs : 0 <= size cs.
Proof. unfold size. induction cs as [|[d|ls] cs IH]; cbn [foldr chunk_size]; zlia. Qed.

Lemma assemble_run cs msg es : Forall chunk_ok cs → bytes msg → entries_ok msg es → zlen msg + size cs < 4294967040 →
  ∃ x placed, assemble cs msg (compel <$> es) = Some (msg ++ x, placed) ∧ bytes (msg ++ x) ∧ placed.*2 = names_of cs ∧ zlen x <= size cs ∧
    Forall (reads_back (msg ++ x)) placed ∧ Forall (λ pn, 0 <= pn.1 ∧ name_ok pn.2) placed.
Proof.
  intros Hcs. revert msg es. induction Hcs as [|c cs Hc _ IH]; intros msg es Hm Hes Hz; cbn [assemble].
  { exists [], []. rewrite app_nil_r. split_and!; try done; constructor. }
  cbn [size foldr] in Hz. fold (size cs) in Hz. pose proof (size_nonneg cs). destruct c as [d|ls]; cbn [chunk_ok chunk_size] in Hc, Hz.
  - destruct (IH (msg ++ d) es) as (x & placed & E & Hb & Hp & Hx & HF); [by apply bytes_app|by apply entries_app|rewrite zlen_app; lia|].
    exists (d ++ x), placed. rewrite app_assoc. split_and!; try done; [|apply HF..]. rewrite zlen_app. cbn. fold (size cs). lia.
  - destruct Hc as [Hn Hb]. destruct (compress_step msg es ls Hn Hes) as (out & es' & ls' & h & -> & Hes' & Hout & Hbo & Hna & Hf & Hh); [pose proof (zlen_nonneg (wire ls)); lia|].
    cbn [mbind option_bind]. rewrite slice_all. destruct (IH (msg ++ out) es') as (x & placed & -> & Hbx & Hp & Hx & HF1 & HF2); [apply bytes_app; auto|done|rewrite zlen_app; lia|].
    cbn [mbind option_bind]. exists (out ++ x), ((zlen msg, ls) :: placed). rewrite <-app_assoc in *. split_and!; try done.
    + cbn. by rewrite Hp.
    + cbn. fold (size cs). rewrite zlen_app. lia.
    + constructor; [|done]. exists ls', h, (zlen out). split_and!; try done; [|cbn; zlia]. rewrite app_assoc. by apply name_at_app.
    + constructor; [|done]. cbn. split; [apply zlen_nonneg|done].
Qed.

(** Names that differ only in case have the same length in a message. *)
Lemma fold_wire ls ls' : fold_case <$> ls = fold_case <$> ls' → zlen (wire ls) = zlen (wire ls').
Proof.
  revert ls'. induction ls as [|l ls IH]; intros [|l' ls'] H; try done. cbn in H. injection H as H1 H2.
  rewrite !wire_cons, !zlen_cons, !zlen_app, (IH ls' H2). apply (f_equal length) in H1. unfold fold_case in H1. rewrite !length_fmap in H1. unfold zlen. lia.
Qed.

(** What [decompress_name] makes of a name that is read back. *)
Lemma decompress_reads m pn : bytes m → 0 <= pn.1 → name_ok pn.2 → reads_back m pn →
  ∃ ls n, decompress_name m pn.1 (zlen m - pn.1) = Some (RC_OK, pn.1 + n, zlen m - pn.1 - n, wire ls) ∧ fold_case <$> ls = fold_case <$> pn.2.
Proof.
  intros Hm Hp Hn (ls & h & n & Hna & Hf & Hh & Hle). pose proof (name_at_range _ _ _ _ _ Hna).
  destruct (decompress_spec m pn.1 (zlen m - pn.1)) as (rc & src' & sz' & tgt & E & [(-> & ls' & h' & n' & Hna' & Hh' & Hl' & Hn' & -> & -> & ->)|(_ & _ & _ & _ & Herr)]); [done|lia|lia|..].
  - destruct (name_at_fun _ _ _ _ _ Hna _ _ _ Hna') as (-> & _ & ->). by exists ls', n'.
  - destruct (Herr ls h n Hna Hh) as [? _]; [|lia]. rewrite (fold_wire _ _ Hf). apply Hn.
Qed.

(** ** Well-formed names *)

Lemma same_bytes_run p l x q m y : zlen p = zlen q → length l = length m →
  same_bytes (length l) (p ++ l ++ x) (q ++ m ++ y) (zlen p) = Some (bool_decide (fold_case l = fold_case m)).
Proof.
  revert p q m. induction l as [|c l IH]; intros p q [|d m] Hpq Hlen; try done. cbn [same_bytes length]. cbn [app].
  rewrite rd_here. cbn [mbind option_bind]. replace (rd (q ++ d :: m ++ y) (zlen p)) with (Some d) by (rewrite Hpq; symmetry; apply rd_here). cbn [mbind option_bind].
  replace (p ++ c :: l ++ x) with ((p ++ [c]) ++ l ++ x) by by rewrite <-app_assoc.
  replace (q ++ d :: m ++ y) with ((q ++ [d]) ++ m ++ y) by by rewrite <-app_assoc.
  replace (zlen p + 1) with (zlen (p ++ [c])) by zlia. rewrite IH; [|rewrite !zlen_app, Hpq; done|by injection Hlen].
  destruct (tolower c =? tolower d) eqn:E; zb; cbn; f_equal; apply bool_decide_ext || (symmetry; apply bool_decide_eq_false_2).
  - unfold fold_case. cbn. rewrite E. split; [by intros ->|]. by intros [= ?].
  - by intros [= ? _].
Qed.

Lemma rhnicmp_run fuel p a x q b y : zlen p = zlen q → Forall label_ok a → Forall label_ok b → (length a < fuel)%nat →
  rhnicmp_loop fuel (p ++ wire a ++ x) (q ++ wire b ++ y) (zlen p) = Some (bool_decide (fold_case <$> a = fold_case <$> b)).
Proof.
  intros Hpq Ha. revert p a q b Hpq Ha. induction fuel as [|fuel IH]; intros p a q b Hpq Ha Hb Hf; [lia|]. cbn [rhnicmp_loop].
  rewrite rd_wire. cbn [mbind option_bind]. replace (rd (q ++ wire b ++ y) (zlen p)) with (Some (match b with [] => 0 | l :: _ => zlen l end)) by (rewrite Hpq; symmetry; apply rd_wire).
  cbn [mbind option_bind]. destruct Ha as [|l a Hl Ha], Hb as [|m b Hm Hb]; cbn [fmap list_fmap]; unfold label_ok in *; [done|zdec; by rewrite bool_decide_eq_false_2..|].
  destruct (zlen l =? zlen m) eqn:E; zb; cbn [negb].
  - zdec. rewrite (wire_cons l a), (wire_cons m b). replace (Z.to_nat (zlen l)) with (length l) by (unfold zlen; lia).
    replace (p ++ (zlen l :: l ++ wire a) ++ x) with ((p ++ [zlen l]) ++ l ++ wire a ++ x) by (cbn; by rewrite <-!app_assoc).
    replace (q ++ (zlen m :: m ++ wire b) ++ y) with ((q ++ [zlen m]) ++ m ++ wire b ++ y) by (cbn; by rewrite <-!app_assoc).
    replace (zlen p + 1) with (zlen (p ++ [zlen l])) by zlia. rewrite same_bytes_run; [|rewrite !zlen_app, Hpq; done|unfold zlen in E; lia]. cbn [mbind option_bind].
    case_bool_decide as Hc.
    + rewrite !app_assoc. rewrite <-zlen_app, <-!(app_assoc _ (wire _)). cbn in Hf. rewrite IH; [|rewrite !zlen_app, Hpq, E; done|done..|lia].
      f_equal. apply bool_decide_ext. rewrite Hc. split; [by intros ->|by intros [= ?]].
    + f_equal. symmetry. apply bool_decide_eq_false_2. by intros [= ? _].
  - f_equal. symmetry. apply bool_decide_eq_false_2. intros [= H _]. apply (f_equal length) in H. unfold fold_case in H. rewrite !length_fmap in H. unfold zlen in E. lia.
Qed.

(** The name at a position of memory, up to its end. *)
Definition name_from (m : list Z) (i maxlen : Z) : Prop :=
  ∃ ls rest, drop (Z.to_nat i) m = wire ls ++ rest ∧ Forall label_ok ls ∧ i + zlen (wire ls) <= maxlen.

Lemma drop_rd m i x : rd m i = Some x → drop (Z.to_nat i) m = x :: drop (Z.to_nat (i + 1)) m.
Proof.
  intros H. pose proof (rd_range _ _ _ H). unfold rd in H. rewrite (proj2 (Z.leb_le _ _)) in H by lia.
  rewrite (drop_S _ _ _ H). do 2 f_equal. lia.
Qed.

Lemma name_from_label m i maxlen lb : 0 < lb <= 63 → 0 <= i → maxlen <= zlen m → rd m i = Some lb →
  name_from m (i + 1 + lb) maxlen ↔ name_from m i maxlen.
Proof.
  intros Hlb Hi Hmax Hr. pose proof (drop_rd _ _ _ Hr) as Hd. split.
  - intros (ls & rest & E & Hls & Hz). pose proof (zlen_wire_pos ls).
    assert (Hl : zlen (slice (i + 1) lb m) = lb) by (apply zlen_slice; lia). exists (slice (i + 1) lb m :: ls), rest.
    rewrite wire_cons, Hl, Hd. split_and!.
    + cbn. f_equal. rewrite <-app_assoc, <-E. unfold slice. rewrite <-(take_drop (Z.to_nat lb) (drop (Z.to_nat (i + 1)) m)) at 1. f_equal.
      rewrite drop_drop. f_equal. lia.
    + constructor; [unfold label_ok; lia|done].
    + rewrite zlen_cons, zlen_app, Hl. lia.
  - intros (ls & rest & E & Hls & Hz). rewrite Hd in E. destruct Hls as [|l ls Hl Hls]; [cbn in E; injection E as -> _; lia|].
    rewrite wire_cons in E, Hz. cbn in E. injection E as -> E. exists ls, rest. split_and!; [|done|rewrite zlen_cons, zlen_app in Hz; lia].
    rewrite <-app_assoc in E. apply (f_equal (drop (length l))) in E. rewrite drop_drop, drop_app_length in E. rewrite <-E. f_equal. unfold zlen. lia.
Qed.

Lemma isnormal_run fuel m maxlen i : bytes m → 0 <= i → maxlen <= zlen m → Z.max 0 (maxlen - i) < Z.of_nat fuel →
  ∃ b, isnormalencdomname_loop fuel m maxlen i = Some b ∧ (b = true ↔ name_from m i maxlen).
Proof.
  intros Hm. revert i. induction fuel as [|fuel IH]; intros i Hi Hmax Hf; cbn [isnormalencdomname_loop]; [lia|].
  rewrite Z.geb_leb. case_if.
  { exists false. split; [done|]. split; [done|]. intros (ls & rest & _ & _ & Hz). pose proof (zlen_wire_pos ls). lia. }
  destruct (rd_some m i) as [lb Hr]; [lia|]. rewrite Hr. cbn [mbind option_bind]. pose proof (rd_byte _ _ _ Hm Hr). pose proof (drop_rd _ _ _ Hr) as Hd. case_if.
  { exists true. split; [done|]. split; [|done]. intros _. subst lb. exists [], (drop (Z.to_nat (i + 1)) m). split_and!; [done|done|].
    change (zlen (wire [])) with 1. lia. }
  rewrite Z.gtb_ltb. case_if.
  { exists false. split; [done|]. split; [done|]. intros (ls & rest & E & Hls & _). rewrite Hd in E.
    destruct Hls as [|l ls Hl Hls]; [cbn in E; injection E as -> _; lia|]. rewrite wire_cons in E. injection E as -> _. unfold label_ok in Hl. lia. }
  destruct (IH (i + 1 + lb)) as (b & E & Hb); [lia..|]. exists b. split; [done|]. rewrite Hb. apply name_from_label; [lia|lia|done|done].
Qed.

Lemma rhnsegcnt_run fuel pre ls rest res : Forall label_ok ls → (length ls < fuel)%nat →
  rhnsegcnt_loop fuel (pre ++ wire ls ++ rest) (zlen pre) res = Some (res + zlen ls).
Proof.
  revert pre ls res. induction fuel as [|fuel IH]; intros pre ls res Hl Hf; [lia|]. cbn [rhnsegcnt_loop]. rewrite rd_wire. cbn [mbind option_bind].
  destruct Hl as [|l ls Hl Hls]; [by rewrite Z.add_0_r|]. unfold label_ok in Hl. zdec. rewrite wire_step.
  replace (zlen pre + (zlen l + 1)) with (zlen (pre ++ zlen l :: l)) by (rewrite zlen_step; lia). cbn in Hf. rewrite IH by auto with lia.
  rewrite zlen_cons. f_equal. lia.
Qed.

Lemma skipsegs_run k pre ls rest : Forall label_ok ls →
  skipsegs (pre ++ wire ls ++ rest) k (zlen pre) = Some (zlen pre + zlen (segs (take k ls))).
Proof.
  revert pre ls. induction k as [|k IH]; intros pre ls Hl; cbn [skipsegs]; [by rewrite take_0, Z.add_0_r|]. rewrite rd_wire. cbn [mbind option_bind].
  destruct Hl as [|l ls Hl Hls]; [by rewrite take_nil, Z.add_0_r|]. unfold label_ok in Hl. zdec. rewrite wire_step.
  replace (zlen pre + (zlen l + 1)) with (zlen (pre ++ zlen l :: l)) by (rewrite zlen_step; lia). rewrite IH by done.
  cbn [take]. rewrite segs_cons, zlen_step, zlen_app, zlen_cons. f_equal. lia.
Qed.

Lemma name_at_labels msg p ls h n : name_at msg p ls h n → Forall label_ok ls.
Proof. induction 1; auto. Qed.

Lemma isnormal_exact rhn maxlen : bytes rhn → 0 <= maxlen <= zlen rhn →
  ∃ b, isnormalencdomname rhn maxlen = Some b ∧ (b = true ↔ ∃ ls rest, rhn = wire ls ++ rest ∧ name_ok ls ∧ zlen (wire ls) <= maxlen).
Proof.
  intros Hb Hm. unfold isnormalencdomname. set (ml := if maxlen >? DNSNAMEBUFSIZE then DNSNAMEBUFSIZE else maxlen).
  assert (Hml : ml = Z.min maxlen DNSNAMEBUFSIZE) by (unfold ml; rewrite Z.gtb_ltb; case_if; lia).
  destruct (isnormal_run (S (length rhn)) rhn ml 0) as (b & E & HE); [done|lia|lia|unfold zlen in *; unfold DNSNAMEBUFSIZE in *; lia|].
  exists b. split; [done|]. rewrite HE. unfold name_from, name_ok. change (Z.to_nat 0) with 0%nat. rewrite drop_0.
  split; intros (ls & rest & E' & H); exists ls, rest; (split; [done|]); [destruct H; split_and!; [done|lia..]|destruct H as [[? ?] ?]; split; [done|lia]].
Qed.

Lemma name_at_bytes msg p ls h n : bytes msg → name_at msg p ls h n → Forall bytes ls.
Proof. intros Hm. induction 1 as [|p l ls h n _ _ Hs _ IH|]; auto. constructor; [|done]. rewrite <-Hs. by apply bytes_slice. Qed.

(** ** Theorems *)

(** C7: For every message, whatever its bytes, and every place in it,
    [decompress_name] ends, reads only the message and writes only the
    [DNSNAMEBUFSIZE] bytes of its target.  It succeeds exactly if the message
    has a name there (RFC 1035, offsets followed at most 255 times) that fits
    the target and, where it is, the remaining data; it returns that name and
    moves behind it.  On an error nothing moves, and the error is [RC_TRUNC]
    for a good name that only runs over the remaining data. *)
Theorem decompress_exact msg src sz : bytes msg → 0 <= src → 0 <= sz →
  ∃ rc src' sz' tgt, decompress_name msg src sz = Some (rc, src', sz', tgt) ∧
    (rc = RC_OK ↔ ∃ ls h n, name_at msg src ls h n ∧ h <= 255 ∧ zlen (wire ls) <= DNSNAMEBUFSIZE ∧ n <= sz) ∧
    (∀ ls h n, name_at msg src ls h n → rc = RC_OK → tgt = wire ls ∧ src' = src + n ∧ sz' = sz - n) ∧
    (rc ≠ RC_OK → (rc = RC_FORMAT ∨ rc = RC_TRUNC) ∧ src' = src ∧ sz' = sz) ∧
    (∀ ls h n, name_at msg src ls h n → h <= 255 → zlen (wire ls) <= DNSNAMEBUFSIZE → sz < n → rc = RC_TRUNC).
Proof.
  intros Hm Hs Hz. destruct (decompress_spec msg src sz Hm Hs Hz) as (rc & src' & sz' & tgt & E & HE). exists rc, src', sz', tgt. split; [done|].
  destruct HE as [(-> & ls & h & n & Hn & Hh & Hl & Hns & -> & -> & ->)|(Hrc & -> & -> & -> & Herr)].
  - split_and!; [split; [intros _; by exists ls, h, n|done]|..].
    + intros ls' h' n' Hn' _. by destruct (name_at_fun _ _ _ _ _ Hn _ _ _ Hn') as (-> & -> & ->).
    + done.
    + intros ls' h' n' Hn' _ _ Hlt. destruct (name_at_fun _ _ _ _ _ Hn _ _ _ Hn') as (_ & _ & ->). lia.
  - assert (Hok : rc ≠ RC_OK) by (destruct Hrc as [-> | ->]; done).
    split_and!; [split; [done|]; intros (ls & h & n & Hn & Hh & Hl & Hns); destruct (Herr ls h n Hn Hh Hl); lia|done..|].
    intros ls h n Hn Hh Hl _. by destruct (Herr ls h n Hn Hh Hl).
Qed.

(** "www" at 0, and a second name "ftp" that continues there. *)
Definition sample : list Z := [3; 119; 119; 119; 0; 3; 102; 116; 112; 192; 0].

Lemma sample_bytes : bytes sample.
Proof. unfold bytes, sample, is_u8, UINT8_MAX. repeat (apply Forall_cons; split; [lia|]). apply Forall_nil_2. Qed.

Lemma decompress_exact_witness : decompress_name sample 5 6 = Some (RC_OK, 11, 0, wire [[102; 116; 112]; [119; 119; 119]]) ∧
  ∃ rc src' sz' tgt, decompress_name sample 5 6 = Some (rc, src', sz', tgt) ∧ (rc ≠ RC_OK → src' = 5).
Proof.
  split; [vm_compute; reflexivity|]. destruct (decompress_exact sample 5 6 sample_bytes) as (rc & src' & sz' & tgt & E & _ & _ & H & _); [lia|lia|].
  exists rc, src', sz', tgt. split; [exact E|]. intros Hrc. apply (H Hrc).
Defined.

(** C4: A message put together from any data and any names, each written by
    [compress_name] where the message ends, is never longer than without
    compression, and at the place of every name [decompress_name] finds that
    name again, up to the case of its letters: every offset the compression
    writes leads to the labels it stands for. *)
Theorem compression_roundtrip cs : Forall chunk_ok cs → size cs < 4294967040 →
  ∃ m placed, assemble cs [] [] = Some (m, placed) ∧ placed.*2 = names_of cs ∧ zlen m <= size cs ∧
    Forall (λ pn, ∃ ls n, decompress_name m pn.1 (zlen m - pn.1) = Some (RC_OK, pn.1 + n, zlen m - pn.1 - n, wire ls) ∧
                          fold_case <$> ls = fold_case <$> pn.2) placed.
Proof.
  intros Hcs Hz. destruct (assemble_run cs [] []) as (m & placed & E & Hb & Hp & Hle & HF1 & HF2); [done|constructor|by intros ? ? ?|done|].
  exists m, placed. split_and!; try done. apply Forall_lookup. intros i pn Hi.
  destruct (Forall_lookup_1 _ _ _ _ HF2 Hi) as [H0 Hn]. apply decompress_reads; [done|done|done|]. by eapply (Forall_lookup_1 _ _ _ _ HF1).
Qed.

Lemma labels_ok_dec (ls : list (list Z)) : forallb (λ l, (1 <=? zlen l) && (zlen l <=? 63) && forallb (λ c, (0 <=? c) && (c <=? 255)) l) ls = true →
  Forall label_ok ls ∧ Forall bytes ls.
Proof.
  rewrite forallb_forall. intros H. rewrite !Forall_forall. split; intros l Hl; apply list_elem_of_In, H in Hl; zb; [done|].
  apply Forall_forall. intros c Hc. rewrite forallb_forall in *. apply list_elem_of_In in Hc. match goal with H : ∀ x, In x l → _ |- _ => apply H in Hc end. by zb.
Qed.

(** WWW.ex. and www.ex. after a header: the second is an offset. *)
Definition two_names : list chunk := [Raw [0; 1; 2]; Dname [[87; 87; 87]; [101; 120]]; Dname [[119; 119; 119]; [101; 120]]].

Lemma compression_roundtrip_witness : ∃ m placed, assemble two_names [] [] = Some (m, placed) ∧ zlen m = 13 ∧ placed.*2 = names_of two_names.
Proof.
  destruct (compression_roundtrip two_names) as (m & placed & E & Hn & _).
  - unfold two_names. apply Forall_cons_2; [|apply Forall_cons_2; [|apply Forall_cons_2; [|apply Forall_nil_2]]]; cbn.
    + unfold bytes, is_u8, UINT8_MAX. apply Forall_cons_2; [lia|apply Forall_cons_2; [lia|apply Forall_cons_2; [lia|apply Forall_nil_2]]].
    + destruct (labels_ok_dec [[87; 87; 87]; [101; 120]] eq_refl). split; [split; [done|vm_compute; discriminate]|done].
    + destruct (labels_ok_dec [[119; 119; 119]; [101; 120]] eq_refl). split; [split; [done|vm_compute; discriminate]|done].
  - vm_compute. reflexivity.
  - exists m, placed. split; [exact E|]. split; [|exact Hn]. revert E. vm_compute. intros [= <- _]. reflexivity.
Defined.

(** C39: Every name that [decompress_name] delivers is well-formed for all the
    functions that work on names without checks: it passes
    [isnormalencdomname], and its length, the copy, the number of its labels,
    the start of each label and the comparison with any other name are computed
    inside its memory and are those of its labels; [domain_match] computes the
    largest number of labels at the end that it has in common with another name,
    up to case, and where these start in both. *)
Theorem names_well_formed msg src sz src' sz' tgt : bytes msg → 0 <= src → 0 <= sz →
  decompress_name msg src sz = Some (RC_OK, src', sz', tgt) →
  ∃ ls, tgt = wire ls ∧ name_ok ls ∧ isnormalencdomname tgt (zlen tgt) = Some true ∧
    rhnlen tgt = Some (zlen tgt) ∧ rhncpy tgt = Some (zlen tgt, tgt) ∧ rhnsegcnt tgt = Some (zlen ls) ∧
    (∀ k, skipsegs tgt k 0 = Some (zlen (segs (take k ls)))) ∧
    (∀ ls', name_ok ls' → rhnicmp tgt (wire ls') = Some (bool_decide (fold_case <$> ls = fold_case <$> ls')) ∧
       ∃ k, domain_match tgt (wire ls') = Some (Z.of_nat k, zlen (segs (take (length ls - k) ls)), zlen (segs (take (length ls' - k) ls'))) ∧
         (k <= length ls)%nat ∧ (k <= length ls')%nat ∧ fold_case <$> ending k ls = fold_case <$> ending k ls' ∧
         ∀ k', (k' <= length ls)%nat → (k' <= length ls')%nat → fold_case <$> ending k' ls = fold_case <$> ending k' ls' → (k' <= k)%nat).
Proof.
  intros Hm Hs Hz E. destruct (decompress_spec msg src sz Hm Hs Hz) as (rc & ? & ? & ? & E' & HE). rewrite E in E'. injection E' as <- <- <- <-.
  destruct HE as [(_ & ls & h & n & Hn & _ & Hl & _ & -> & _ & _)|([?|?] & _)]; [|done..]. pose proof (name_at_labels _ _ _ _ _ Hn) as Hls.
  pose proof (wire_long ls []) as Hlong. rewrite app_nil_r in Hlong. pose proof (rhnlen_wire ls [] Hls) as Er. rewrite app_nil_r in Er.
  exists ls. split_and!; try done.
  - destruct (isnormal_exact (wire ls) (zlen (wire ls))) as (b & -> & Hb).
    + apply bytes_wire; [done|]. by eapply name_at_bytes.
    + pose proof (zlen_nonneg (wire ls)). lia.
    + f_equal. apply Hb. exists ls, []. rewrite app_nil_r. done.
  - unfold rhncpy. rewrite Er. cbn. rewrite (proj2 (Z.leb_le _ _)) by done. by rewrite slice_all.
  - pose proof (rhnsegcnt_run (S (length (wire ls))) [] ls [] 0 Hls) as Ec. rewrite app_nil_r in Ec. by apply Ec.
  - intros k. pose proof (skipsegs_run k [] ls [] Hls) as Ek. rewrite app_nil_r in Ek. exact Ek.
  - intros ls' H. split; [|exists (shared ls ls'); split; [by apply domain_match_wire|apply shared_spec]].
    pose proof (rhnicmp_run (S (length (wire ls))) [] ls [] [] ls' []) as Ec. rewrite !app_nil_r in Ec. apply Ec; try done. apply H.
Qed.

(** ftp.www and WWW have one label in common. *)
Lemma names_well_formed_witness : ∃ ls k, wire [[102; 116; 112]; [119; 119; 119]] = wire ls ∧ name_ok ls ∧
  domain_match (wire ls) (wire [[87; 87; 87]]) = Some (Z.of_nat k, zlen (segs (take (length ls - k) ls)), zlen (segs (take (1 - k) [[87; 87; 87]]))) ∧ (k <= 1)%nat.
Proof.
  destruct (names_well_formed sample 5 6 11 0 (wire [[102; 116; 112]; [119; 119; 119]]) sample_bytes) as (ls & E & Hn & _ & _ & _ & _ & _ & Hm); [lia|lia|vm_compute; reflexivity|].
  destruct (Hm [[87; 87; 87]]) as (_ & k & Hk & _ & Hk1 & _).
  - destruct (labels_ok_dec [[87; 87; 87]] eq_refl). split; [done|vm_compute; discriminate].
  - exists ls, k. rewrite <-E at 2. split_and!; [exact E|exact Hn|exact Hk|exact Hk1].
Defined.

End DnsNames.
