(* ===== verification/DnsText.v ===== *)
(** * Domain names as text ([pdnsd/src/helpers.c])

    The conversion of names between their form in messages and the usual
    dotted notation, with the buffers byte by byte. *)

From S2P Require Import Prelude DnsNames.

Module DnsText.
Import DnsNames.

(** [b[i] = c]. *)
Definition wr (b : list Z) (i c : Z) : option (list Z) :=
  if (0 <=? i) && (i <? zlen b) then Some (blit i [c] b) else None.

(** ** [str2rhn] *)

(** The loop over one element: where and at which character it stopped, or
    nothing if the element is too long. *)
Fixpoint copy_elem (fuel : nat) (str rhn : list Z) (j jlim : Z) : option (option (Z * Z) * list Z) :=
  match fuel with
  | O => None
  | S fuel' =>
      c ← rd str j;
      if (c =? 0) || (c =? 46) then Some (Some (j, c), rhn)
      else if j >=? jlim then Some (None, rhn)
      else
        rhn ← wr rhn (j + 1) c;
        copy_elem fuel' str rhn (j + 1) jlim
  end.

Fixpoint str2rhn_loop (fuel : nat) (str rhn : list Z) (i : Z) : option (bool * list Z) :=
  match fuel with
  | O => None
  | S fuel' =>
      let jlim := i + 63 in
      let jlim := if jlim >? DNSNAMEBUFSIZE - 2 then DNSNAMEBUFSIZE - 2 else jlim in
      '(r, rhn) ← copy_elem (S (length str)) str rhn i jlim;
      match r with
      | None => Some (false, rhn)
      | Some (j, c) =>
          if c =? 0 then
            rhn ← wr rhn i 0;
            Some (negb ((j >? i) || (i =? 0)), rhn)
          else if j <=? i then Some (false, rhn)
          else
            rhn ← wr rhn i (u8 (j - i));
            str2rhn_loop fuel' str rhn (j + 1)
      end
  end.

Definition str2rhn (str rhn : list Z) : option (bool * list Z) :=
  c ← rd str 0;
  root ← (if c =? 46 then c1 ← rd str 1; Some (c1 =? 0) else Some false);
  if (root : bool) then rhn ← wr rhn 0 0; Some (true, rhn)
  else str2rhn_loop (S (length str)) str rhn 0.

(** ** [rhn2str] *)

(** In the C locale. *)
Definition isgraph (c : Z) : bool := (33 <=? c) && (c <=? 126).
Definition special (c : Z) : bool := (c =? 46) || (c =? 92) || (c =? 34).

(** [snprintf(&str[j], rem, "\\%03o", c)]; it returns 4. *)
Definition octal (c : Z) : list Z := [92; 48 + c / 64; 48 + (c / 8) mod 8; 48 + c mod 8].
Definition print_octal (str : list Z) (j rem c : Z) : option (list Z) :=
  let t := slice 0 (rem - 1) (octal c) ++ [0] in
  if (0 <? rem) && (0 <=? j) && (j + zlen t <=? zlen str) then Some (blit j t str) else None.

(** What follows the label [overflow]. *)
Definition overflow (str : list Z) (size : Z) : option (list Z) :=
  let j := size - 1 in
  str ← wr str j 0;
  if j >? 0 then
    let j := j - 1 in
    str ← wr str j 46;
    if j >? 0 then
      let j := j - 1 in
      str ← wr str j 46;
      if j >? 0 then wr str (j - 1) 46 else Some str
    else Some str
  else Some str.

(** A label: the buffer and the next position in it, or nothing when it
    overflows. *)
Fixpoint put_label (lb : nat) (rhn str : list Z) (size i j : Z) : option (list Z * option Z) :=
  match lb with
  | O => Some (str, Some j)
  | S lb' =>
      if j + 2 >=? size then Some (str, None)
      else
        c ← rd rhn i;
        if isgraph c then
          if special c then
            str ← wr str j 92;
            if j + 1 + 2 >=? size then Some (str, None)
            else
              str ← wr str (j + 1) c;
              put_label lb' rhn str size (i + 1) (j + 2)
          else
            str ← wr str j c;
            put_label lb' rhn str size (i + 1) (j + 1)
        else
          let rem := size - 1 - j in
          str ← print_octal str j rem c;
          if 4 >=? rem then
            str ← wr str j 46;
            Some (str, None)
          else put_label lb' rhn str size (i + 1) (j + 4)
  end.

Fixpoint put_labels (fuel : nat) (rhn str : list Z) (size i j lb : Z) : option (list Z) :=
  match fuel with
  | O => None
  | S fuel' =>
      '(str, r) ← put_label (Z.to_nat lb) rhn str size i j;
      match r with
      | None => overflow str size
      | Some j =>
          str ← wr str j 46;
          lb' ← rd rhn (i + lb);
          if lb' =? 0 then wr str (j + 1) 0
          else put_labels fuel' rhn str size (i + lb + 1) (j + 1) lb'
      end
  end.

(** [None] inside for the return value [NULL]. *)
Definition rhn2str (rhn str : list Z) (size : Z) : option (option (list Z)) :=
  if size =? 0 then Some None
  else
    lb ← rd rhn 0;
    str ← (if lb =? 0 then
             if size >=? 2 then str ← wr str 0 46; wr str 1 0 else wr str 0 0
           else put_labels (S (length rhn)) rhn str size 1 0 lb);
    Some (Some str).

(** ** Text *)

(** A label that is written as it is. *)
Definition plain (l : list Z) : Prop := Forall (λ c, isgraph c = true ∧ special c = false) l.
(** A label that can be given as text. *)
Definition clean (l : list Z) : Prop := Forall (λ c, c ≠ 0 ∧ c ≠ 46) l.
Definition text (ls : list (list Z)) : list Z := mjoin ((λ l, l ++ [46]) <$> ls).
Definition dotted (ls : list (list Z)) : list Z := match ls with [] => [46] | _ => text ls end.

Lemma text_cons l ls : text (l :: ls) = l ++ 46 :: text ls.
Proof. unfold text. cbn. by rewrite <-app_assoc. Qed.

Lemma text_app ls1 ls2 : text (ls1 ++ ls2) = text ls1 ++ text ls2.
Proof. unfold text. by rewrite fmap_app, join_app. Qed.

Lemma zlen_text ls : zlen (text ls) = zlen (segs ls).
Proof. induction ls as [|l ls IH]; [done|]. rewrite text_cons, segs_cons, !zlen_app, !zlen_cons. zlia. Qed.

Lemma wr_some b i c : 0 <= i < zlen b → wr b i c = Some (blit i [c] b).
Proof. intros. unfold wr. by zdec. Qed.

Lemma clean_split w c p w' c' p' : clean w → clean w' → c = 0 ∨ c = 46 → c' = 0 ∨ c' = 46 → w ++ c :: p = w' ++ c' :: p' → w = w' ∧ c = c' ∧ p = p'.
Proof.
  intros Hw. revert w'. induction Hw as [|x w Hx Hw IH]; intros w' Hw' Hc Hc' E; destruct Hw' as [|y w' Hy Hw']; cbn in E; injection E as E1 E2; subst.
  - done.
  - naive_solver.
  - naive_solver.
  - destruct (IH w' Hw' Hc Hc' E2) as (-> & -> & ->). done.
Qed.

(** Every string has a first separator or its end. *)
Lemma first_special m : 0 ∈ m → ∃ w c p, m = w ++ c :: p ∧ clean w ∧ (c = 0 ∨ c = 46).
Proof.
  induction m as [|x m IH]; [by intros ?%not_elem_of_nil|]. intros H. destruct (decide (x = 0)) as [->|H0]; [exists [], 0, m; split_and!; [done|constructor|by left]|].
  destruct (decide (x = 46)) as [->|H1]; [exists [], 46, m; split_and!; [done|constructor|by right]|].
  apply elem_of_cons in H as [?|H]; [done|]. destruct (IH H) as (w & c & p & -> & Hw & Hc). exists (x :: w), c, p. split_and!; [done|by constructor|done].
Qed.

Lemma slice_agree {A} n (a b : list A) : 0 <= n → n + 1 <= zlen a → n + 1 <= zlen b → slice 0 (n + 1) a = slice 0 (n + 1) b →
  slice 0 n a = slice 0 n b ∧ slice n 1 a = slice n 1 b.
Proof.
  intros Hn Ha Hb. rewrite !(slice_split 0 n 1) by lia. intros [H1 H2]%app_inj_1; [done|].
  pose proof (zlen_slice 0 n a). pose proof (zlen_slice 0 n b). unfold zlen in *. lia.
Qed.

Lemma copy_elem_run fuel pre w c p rhn jlim : clean w → c = 0 ∨ c = 46 → (length w < fuel)%nat → zlen rhn = DNSNAMEBUFSIZE → jlim <= DNSNAMEBUFSIZE - 2 →
  ∃ r rhn', copy_elem fuel (pre ++ w ++ c :: p) rhn (zlen pre) jlim = Some (r, rhn') ∧ zlen rhn' = DNSNAMEBUFSIZE ∧
    if bool_decide (w = [] ∨ zlen pre + zlen w <= jlim)
    then r = Some (zlen pre + zlen w, c) ∧ slice 0 (zlen pre + 1) rhn' = slice 0 (zlen pre + 1) rhn ∧ slice (zlen pre + 1) (zlen w) rhn' = w
    else r = None.
Proof.
  intros Hw Hc. revert fuel pre rhn. induction Hw as [|x w [Hx0 Hx1] Hw IH]; intros fuel pre rhn Hf Hr Hj; (destruct fuel as [|fuel]; [cbn in Hf; lia|]); cbn [copy_elem app].
  - rewrite rd_here. cbn [mbind option_bind]. assert ((c =? 0) || (c =? 46) = true) as -> by (destruct Hc as [-> | ->]; done).
    do 2 eexists. split; [done|]. rewrite bool_decide_eq_true_2 by by left. rewrite slice_zero, Z.add_0_r. done.
  - rewrite rd_here. cbn [mbind option_bind]. rewrite (proj2 (Z.eqb_neq x 0)), (proj2 (Z.eqb_neq x 46)) by done. cbn [orb]. rewrite Z.geb_leb. case_if.
    { do 2 eexists. split; [done|]. split; [done|]. rewrite bool_decide_eq_false_2; [done|]. intros [?|?]; [done|]. zlia. }
    pose proof (zlen_nonneg pre). rewrite wr_some by lia. cbn [mbind option_bind].
    replace (pre ++ x :: w ++ c :: p) with ((pre ++ [x]) ++ w ++ c :: p) by by rewrite <-app_assoc.
    replace (zlen pre + 1) with (zlen (pre ++ [x])) by zlia. cbn in Hf.
    assert (Hb : zlen (blit (zlen (pre ++ [x])) [x] rhn) = DNSNAMEBUFSIZE).
    { rewrite zlen_blit; [done|zlia|]. rewrite zlen_app. change (zlen [x]) with 1. unfold DNSNAMEBUFSIZE in *. lia. }
    destruct (IH fuel (pre ++ [x]) (blit (zlen (pre ++ [x])) [x] rhn)) as (r & rhn' & -> & Hz & Hres); [lia|done|done|].
    exists r, rhn'. split; [done|]. split; [done|]. rewrite zlen_app in *. change (zlen [x]) with 1 in *. rewrite (zlen_cons x w).
    destruct (decide (zlen pre + (1 + zlen w) <= jlim)) as [Hle|Hgt].
    + rewrite bool_decide_eq_true_2 by by right. rewrite bool_decide_eq_true_2 in Hres by (right; lia). destruct Hres as (-> & H1 & H2).
      apply slice_agree in H1 as [H1 H1']; [|unfold DNSNAMEBUFSIZE in *; lia..]. split_and!.
      * do 2 f_equal. lia.
      * rewrite H1. by rewrite slice_blit_before by (unfold DNSNAMEBUFSIZE in *; lia).
      * rewrite slice_split by zlia. rewrite H2, H1'. rewrite (slice_blit_len _ 1 [x]); [done|done|lia|]. change (zlen [x]) with 1. unfold DNSNAMEBUFSIZE in *. lia.
    + rewrite bool_decide_eq_false_2 by (intros [?|?]; [done|lia]).
      destruct (decide (w = [])) as [->|Hne]; [change (zlen (@nil Z)) with 0 in *; lia|].
      rewrite bool_decide_eq_false_2 in Hres by (intros [?|?]; [done|lia]). done.
Qed.

(** Names given as text: what [str2rhn] accepts from a position on. *)
Definition named (rem : list Z) (ls : list (list Z)) : Prop := Forall label_ok ls ∧ Forall clean ls ∧ ∃ p, rem = text ls ++ 0 :: p.

Lemma named_cons w c p ls : clean w → c = 0 ∨ c = 46 → named (w ++ c :: p) ls →
  (ls = [] ∧ w = [] ∧ c = 0) ∨ (c = 46 ∧ label_ok w ∧ ∃ ls', ls = w :: ls' ∧ named p ls').
Proof.
  intros Hw Hc (Hl & Hcl & q & E). destruct ls as [|l ls].
  - left. destruct (clean_split w c p [] 0 q) as (-> & -> & _); try done; [constructor|by left].
  - right. apply Forall_cons in Hl as [Hl Hls], Hcl as [Hcl Hcls]. rewrite text_cons, <-app_assoc in E. cbn in E.
    destruct (clean_split w c p l 46 (text ls ++ 0 :: q)) as (-> & -> & ->); try done; [by right|]. split_and!; try done. exists ls. split; [done|]. split_and!; try done. by exists q.
Qed.

Lemma str2rhn_loop_run fuel done rem rhn : Forall label_ok done → 0 ∈ rem → zlen (segs done) <= 255 → zlen rhn = DNSNAMEBUFSIZE →
  slice 0 (zlen (segs done)) rhn = segs done → (length rem < fuel)%nat →
  ∃ b rhn', str2rhn_loop fuel (text done ++ rem) rhn (zlen (text done)) = Some (b, rhn') ∧ zlen rhn' = DNSNAMEBUFSIZE ∧
    (b = true ↔ ∃ ls, named rem ls ∧ done ++ ls ≠ [] ∧ zlen (segs (done ++ ls)) <= 255) ∧
    (b = true → ∀ ls, named rem ls → slice 0 (zlen (wire (done ++ ls))) rhn' = wire (done ++ ls)).
Proof.
  revert done rem rhn. induction fuel as [|fuel IH]; intros done rem rhn Hd H0 Hi Hr Hs Hf; [lia|]. cbn [str2rhn_loop].
  destruct (first_special rem H0) as (w & c & p & -> & Hw & Hc). set (jlim := if _ >? _ then _ else _).
  assert (Hj : jlim = Z.min (zlen (text done) + 63) (DNSNAMEBUFSIZE - 2)) by (unfold jlim; rewrite Z.gtb_ltb; case_if; lia).
  destruct (copy_elem_run (S (length (text done ++ w ++ c :: p))) (text done) w c p rhn jlim) as (r & rhn1 & -> & Hz1 & Hres); [done|done|rewrite !length_app; lia|done|lia|].
  cbn [mbind option_bind]. rewrite zlen_text in *. assert (Hwl : 0 <= zlen w) by apply zlen_nonneg.
  assert (Hi0 : 0 <= zlen (segs done)) by apply zlen_nonneg. assert (Hdone : zlen (segs done) = 0 → done = []).
  { pose proof (segs_length done Hd). intros. apply zlen_zero_inv. pose proof (zlen_nonneg done). lia. }
  case_bool_decide as Hfit; [destruct Hres as (-> & H1 & H2)|subst r].
  2: { exists false, rhn1. split_and!; [done|done| |done]. split; [done|]. intros (ls & Hn & _ & Hle). exfalso. apply Hfit.
       destruct (named_cons _ _ _ _ Hw Hc Hn) as [(_ & -> & _)|(_ & Hlw & ls' & -> & _)]; [by left|right]. unfold label_ok in Hlw.
       rewrite segs_app, segs_cons, !zlen_app, zlen_cons in Hle. pose proof (zlen_nonneg (segs ls')). unfold DNSNAMEBUFSIZE in *. lia. }
  apply slice_agree in H1 as [H1 _]; [|unfold DNSNAMEBUFSIZE in *; lia..]. rewrite Hs in H1. destruct (c =? 0) eqn:Hc0; zb.
  - subst c. rewrite wr_some by (unfold DNSNAMEBUFSIZE in *; lia). cbn [mbind option_bind]. do 2 eexists. split; [done|].
    split; [rewrite zlen_blit; [done|lia|change (zlen [0]) with 1; unfold DNSNAMEBUFSIZE in *; lia]|]. split.
    + rewrite negb_true_iff, orb_false_iff, Z.eqb_neq, Z.gtb_ltb, Z.ltb_ge. split.
      * intros [Hw0 Hne]. exists []. rewrite app_nil_r. split_and!; [|intros ->; done|done]. assert (w = []) as -> by (apply zlen_zero_inv; lia).
        split_and!; [constructor..|by exists p].
      * intros (ls & Hn & Hne & _). destruct (named_cons _ _ _ _ Hw Hc Hn) as [(-> & -> & _)|(? & _)]; [|done]. rewrite app_nil_r in Hne.
        change (zlen (@nil Z)) with 0. split; [lia|]. intros Hz. auto.
    + intros _ ls Hn. destruct (named_cons _ _ _ _ Hw Hc Hn) as [(-> & _)|(? & _)]; [|done]. rewrite app_nil_r. unfold wire. rewrite zlen_app. change (zlen [0]) with 1.
      rewrite slice_split by lia. rewrite slice_blit_before by (unfold DNSNAMEBUFSIZE in *; lia). rewrite H1. f_equal. apply slice_blit_len; [done|lia|change (zlen [0]) with 1; unfold DNSNAMEBUFSIZE in *; lia].
  - assert (c = 46) as -> by tauto. destruct (zlen (segs done) + zlen w <=? zlen (segs done)) eqn:Hj0; zb.
    { exists false, rhn1. split_and!; [done|done| |done]. split; [done|]. intros (ls & Hn & _ & _).
      destruct (named_cons _ _ _ _ Hw Hc Hn) as [(_ & _ & ?)|(_ & Hlw & _)]; [done|]. unfold label_ok in Hlw. lia. }
    assert (Hlw : label_ok w /\ zlen (segs done) + zlen w <= 254).
    { destruct Hfit as [->|Hfit]; [change (zlen (@nil Z)) with 0 in *; lia|]. unfold label_ok, DNSNAMEBUFSIZE in *. lia. } destruct Hlw as [Hlw Hlim].
    rewrite wr_some by (unfold DNSNAMEBUFSIZE in *; lia). cbn [mbind option_bind]. replace (zlen (segs done) + zlen w - zlen (segs done)) with (zlen w) by lia.
    rewrite u8_small by (unfold label_ok, is_u8, UINT8_MAX in *; lia). set (rhn2 := blit _ _ _).
    assert (Hz2 : zlen rhn2 = DNSNAMEBUFSIZE) by (unfold rhn2; rewrite zlen_blit; [done|lia|change (zlen [zlen w]) with 1; unfold DNSNAMEBUFSIZE in *; lia]).
    assert (Hsg : zlen (segs (done ++ [w])) = zlen (segs done) + 1 + zlen w) by (rewrite segs_snoc, zlen_app, zlen_cons; lia).
    assert (Htx : text done ++ w ++ 46 :: p = text (done ++ [w]) ++ p) by (rewrite text_app, text_cons, <-!app_assoc; done).
    destruct (IH (done ++ [w]) p rhn2) as (b & rhn3 & E & Hz3 & Hb & Hwire).
    + apply Forall_app_2; [done|by apply Forall_singleton].
    + apply elem_of_app in H0 as [H0|H0]; [|by apply elem_of_cons in H0 as [?|?]]. apply (proj1 (Forall_forall _ _) Hw) in H0. tauto.
    + lia.
    + done.
    + rewrite Hsg. replace (zlen (segs done) + 1 + zlen w) with (zlen (segs done) + (1 + zlen w)) by lia. unfold rhn2.
      rewrite (slice_split 0 (zlen (segs done))), (slice_split (0 + zlen (segs done)) 1) by lia.
      rewrite slice_blit_before by (unfold DNSNAMEBUFSIZE in *; lia). rewrite Z.add_0_l, (slice_blit_len _ 1 [zlen w]) by (unfold DNSNAMEBUFSIZE in *; change (zlen [zlen w]) with 1; lia).
      rewrite slice_blit_after by (unfold DNSNAMEBUFSIZE in *; change (zlen [zlen w]) with 1; lia). by rewrite H1, H2, segs_snoc.
    + rewrite length_app in Hf. cbn in Hf. lia.
    + rewrite zlen_text, Hsg in E. exists b, rhn3. rewrite Htx. replace (zlen (segs done) + zlen w + 1) with (zlen (segs done) + 1 + zlen w) by lia. split; [exact E|]. split; [done|].
      assert (Hnamed : ∀ ls, named p ls → named (w ++ 46 :: p) (w :: ls)).
      { intros ls (N1 & N2 & q & ->). split_and!; [by constructor..|]. exists q. by rewrite text_cons, <-app_assoc. }
      split.
      * rewrite Hb. split; intros (ls & Hn & Hne & Hle).
        -- exists (w :: ls). split; [by apply Hnamed|]. rewrite <-app_assoc in *. done.
        -- destruct (named_cons _ _ _ _ Hw Hc Hn) as [(_ & _ & ?)|(_ & _ & ls' & -> & Hn')]; [done|]. exists ls'. rewrite <-app_assoc. done.
      * intros Ht ls Hn. destruct (named_cons _ _ _ _ Hw Hc Hn) as [(_ & _ & ?)|(_ & _ & ls' & -> & Hn')]; [done|].
        specialize (Hwire Ht ls' Hn'). by rewrite <-app_assoc in Hwire.
Qed.

(** A string that gives a name in dotted notation. *)
Definition spells (str : list Z) (ls : list (list Z)) : Prop := name_ok ls ∧ Forall clean ls ∧ ∃ p, str = dotted ls ++ 0 :: p.

Lemma name_ok_segs ls : name_ok ls ↔ Forall label_ok ls ∧ zlen (segs ls) <= 255.
Proof. unfold name_ok, wire, DNSNAMEBUFSIZE. rewrite zlen_app. change (zlen [0]) with 1. split; intros [? ?]; (split; [done|lia]). Qed.

Lemma spells_root p ls : spells (46 :: 0 :: p) ls → ls = [].
Proof.
  intros ([Hl _] & Hcl & q & E). destruct ls as [|l ls]; [done|]. exfalso. apply Forall_cons in Hl as [Hl _], Hcl as [Hcl _].
  cbn [dotted] in E. rewrite text_cons in E. destruct Hcl as [|x l Hx _]; [unfold label_ok in Hl; change (zlen (@nil Z)) with 0 in Hl; lia|].
  cbn in E. injection E as <- _. tauto.
Qed.

Lemma str2rhn_run str rhn : 0 ∈ str → zlen rhn = DNSNAMEBUFSIZE →
  ∃ b rhn', str2rhn str rhn = Some (b, rhn') ∧ zlen rhn' = DNSNAMEBUFSIZE ∧ (b = true ↔ ∃ ls, spells str ls) ∧
    (∀ ls, spells str ls → slice 0 (zlen (wire ls)) rhn' = wire ls).
Proof.
  intros H0 Hr. unfold str2rhn. destruct str as [|c str]; [by apply not_elem_of_nil in H0|]. change (rd (c :: str) 0) with (Some c). cbn [mbind option_bind].
  destruct (decide (c = 46 ∧ head str = Some 0)) as [(-> & [p ->]%head_Some)|Hroot].
  - change (rd (46 :: 0 :: p) 1) with (Some 0). cbn [mbind option_bind]. rewrite Z.eqb_refl. cbn. rewrite wr_some by (rewrite Hr; done). cbn.
    assert (Hsp : spells (46 :: 0 :: p) []). { split_and!; [by split; [constructor|]|constructor|by exists p]. }
    do 2 eexists. split; [done|]. split_and!.
    + rewrite zlen_blit; [done|lia|rewrite Hr; done].
    + split; [|done]. intros _. by exists [].
    + intros ls ->%spells_root. apply slice_blit_len; [done|lia|rewrite Hr; done].
  - assert (Hrd : (if c =? 46 then c1 ← rd (c :: str) 1; Some (c1 =? 0) else Some false) = Some false).
    { destruct (c =? 46) eqn:E; [|done]. zb. subst c. destruct str as [|c1 str]; [by apply elem_of_cons in H0 as [?|?%not_elem_of_nil]|].
      change (rd (46 :: c1 :: str) 1) with (Some c1). cbn [mbind option_bind]. f_equal. apply Z.eqb_neq. intros ->. by apply Hroot. }
    rewrite Hrd. cbn [mbind option_bind]. destruct (str2rhn_loop_run (S (length (c :: str))) [] (c :: str) rhn) as (b & rhn' & E & Hz & Hb & Hwire); [constructor|done|done|done|done|lia|].
    cbn [text fmap list_fmap mjoin list_join app] in E. change (zlen (text [])) with 0 in E. exists b, rhn'. split; [exact E|]. split; [done|].
    assert (Hsp : ∀ ls, spells (c :: str) ls ↔ named (c :: str) ls ∧ ls ≠ [] ∧ zlen (segs ls) <= 255).
    { intros ls. unfold spells, named. rewrite name_ok_segs. destruct ls as [|l ls]; [|naive_solver]. split; [|naive_solver].
      intros (_ & _ & p & Ep). cbn in Ep. injection Ep as -> ->. exfalso. by apply Hroot. }
    split; [rewrite Hb; by setoid_rewrite Hsp|]. intros ls Hls. apply Hwire; [|by apply Hsp]. apply Hb. exists ls. by apply Hsp.
Qed.

(** ** Printing *)

Lemma zlen_wr (b : list Z) i c : 0 <= i < zlen b → zlen (blit i [c] b) = zlen b.
Proof. intros. apply zlen_blit; [lia|]. change (zlen [c]) with 1. lia. Qed.

Lemma print_octal_safe str j rem c : 0 <= j → 2 <= rem → j + rem <= zlen str → ∃ str', print_octal str j rem c = Some str' ∧ zlen str' = zlen str.
Proof.
  intros Hj Hr Hz. unfold print_octal. assert (zlen (slice 0 (rem - 1) (octal c)) <= rem - 1) by (unfold zlen, slice; rewrite length_take; lia).
  rewrite zlen_app. change (zlen [0]) with 1. zdec. eexists. split; [done|]. rewrite zlen_blit; [done|lia|]. rewrite zlen_app. change (zlen [0]) with 1. lia.
Qed.

Lemma put_label_safe l pre post str j : 0 <= j →
  ∃ str' r, put_label (length l) (pre ++ l ++ post) str (zlen str) (zlen pre) j = Some (str', r) ∧ zlen str' = zlen str ∧
    match r with Some j' => 0 <= j' ∧ (l = [] → j' = j) ∧ (l ≠ [] → j' <= zlen str - 2) | None => 0 <= zlen str - 1 ∨ l ≠ [] end.
Proof.
  revert pre str j. induction l as [|c l IH]; intros pre str j Hj; cbn [put_label length]; [by do 2 eexists|].
  rewrite Z.geb_leb. case_if; [do 2 eexists; split; [done|]; split; [done|by right]|]. cbn [app]. rewrite rd_here. cbn [mbind option_bind].
  assert (Hgo : ∀ str1 j1, zlen str1 = zlen str → 0 <= j1 <= zlen str - 2 →
    ∃ str' r, put_label (length l) (pre ++ c :: l ++ post) str1 (zlen str) (zlen pre + 1) j1 = Some (str', r) ∧ zlen str' = zlen str ∧
      match r with Some j' => 0 <= j' ∧ (c :: l = [] → j' = j) ∧ (c :: l ≠ [] → j' <= zlen str - 2) | None => 0 <= zlen str - 1 ∨ c :: l ≠ [] end).
  { intros str1 j1 Hz Hj1. replace (pre ++ c :: l ++ post) with ((pre ++ [c]) ++ l ++ post) by by rewrite <-app_assoc.
    replace (zlen pre + 1) with (zlen (pre ++ [c])) by zlia. destruct (IH (pre ++ [c]) str1 j1) as (str' & r & E & Hz' & Hres); [lia|].
    rewrite Hz in *. exists str', r. split; [done|]. split; [done|]. destruct r as [j'|]; [|by right]. destruct Hres as (H1 & H2 & H3). split_and!; [done|done|].
    intros _. destruct l; [rewrite H2 by done; lia|by apply H3]. }
  destruct (isgraph c); [destruct (special c)|].
  - rewrite wr_some by lia. cbn [mbind option_bind]. rewrite Z.geb_leb. case_if; [do 2 eexists; split; [done|]; split; [by apply zlen_wr; lia|by right]|].
    rewrite wr_some by (rewrite zlen_wr; lia). cbn [mbind option_bind]. apply Hgo; [rewrite !zlen_wr by (rewrite ?zlen_wr; lia); done|lia].
  - rewrite wr_some by lia. cbn [mbind option_bind]. apply Hgo; [rewrite zlen_wr by lia; done|lia].
  - destruct (print_octal_safe str j (zlen str - 1 - j) c) as (str1 & -> & Hz1); [lia..|]. cbn [mbind option_bind]. rewrite Z.geb_leb. case_if.
    + rewrite wr_some by lia. cbn [mbind option_bind]. do 2 eexists. split; [done|]. split; [rewrite zlen_wr by lia; done|by right].
    + apply Hgo; [done|lia].
Qed.

Lemma elem_slice {A} i n (m : list A) x : x ∈ slice i n m → x ∈ m.
Proof.
  unfold slice. intros H. rewrite <-(take_drop (Z.to_nat i) m), <-(take_drop (Z.to_nat n) (drop (Z.to_nat i) m)), !elem_of_app. auto.
Qed.

Lemma overflow_safe str : 0 < zlen str → ∃ str', overflow str (zlen str) = Some str' ∧ zlen str' = zlen str ∧ 0 ∈ str'.
Proof.
  intros Hz. unfold overflow. rewrite wr_some by lia. cbn [mbind option_bind]. set (s0 := blit _ [0] str).
  assert (Hz0 : zlen s0 = zlen str) by (apply zlen_wr; lia).
  assert (Hend : ∀ str', zlen str' = zlen str → slice (zlen str - 1) 1 str' = [0] → zlen str' = zlen str ∧ 0 ∈ str').
  { intros str' Hz' Hs. split; [done|]. eapply (elem_slice (zlen str - 1) 1). rewrite Hs. by apply list_elem_of_singleton. }
  assert (H0 : slice (zlen str - 1) 1 s0 = [0]) by (apply slice_blit_len; [done|lia|change (zlen [0]) with 1; lia]).
  assert (Hstep : ∀ b i, zlen b = zlen str → 0 <= i < zlen str - 1 → slice (zlen str - 1) 1 b = [0] →
    zlen (blit i [46] b) = zlen str ∧ slice (zlen str - 1) 1 (blit i [46] b) = [0]).
  { intros b i Hb Hi Hs. rewrite zlen_wr by lia. split; [done|]. rewrite slice_blit_after; [done|lia|change (zlen [46]) with 1; lia|change (zlen [46]) with 1; lia]. }
  rewrite Z.gtb_ltb. case_if; [|eexists; split; [done|by apply Hend]]. rewrite wr_some by lia. cbn [mbind option_bind].
  destruct (Hstep s0 (zlen str - 1 - 1)) as [Hz1 H1]; [done|lia|done|]. rewrite Z.gtb_ltb. case_if; [|eexists; split; [done|by apply Hend]].
  rewrite wr_some by lia. cbn [mbind option_bind]. destruct (Hstep _ (zlen str - 1 - 1 - 1) Hz1) as [Hz2 H2]; [lia|done|].
  rewrite Z.gtb_ltb. case_if; [|eexists; split; [done|by apply Hend]]. rewrite wr_some by lia.
  destruct (Hstep _ (zlen str - 1 - 1 - 1 - 1) Hz2) as [Hz3 H3]; [lia|done|]. eexists; split; [done|by apply Hend].
Qed.

(** After a label: the dot, then the end or the next label. *)
Lemma put_labels_step fuel l ls pre str size j : zlen str = size →
  put_labels (S fuel) (pre ++ l ++ wire ls) str size (zlen pre) j (zlen l) =
  ('(str, r) ← put_label (length l) (pre ++ l ++ wire ls) str size (zlen pre) j;
   match r with
   | None => overflow str size
   | Some j =>
       str ← wr str j 46;
       match ls with
       | [] => wr str (j + 1) 0
       | l' :: ls' => if zlen l' =? 0 then wr str (j + 1) 0
                      else put_labels fuel ((pre ++ l ++ [zlen l']) ++ l' ++ wire ls') str size (zlen (pre ++ l ++ [zlen l'])) (j + 1) (zlen l')
       end
   end).
Proof.
  intros Hz. cbn [put_labels]. replace (Z.to_nat (zlen l)) with (length l) by (unfold zlen; lia).
  destruct (put_label _ _ _ _ _ _) as [[str1 [j1|]]|]; [|done..]. cbn [mbind option_bind]. destruct (wr str1 j1 46) as [str2|]; [|done]. cbn [mbind option_bind].
  pose proof (rd_wire (pre ++ l) ls []) as Hr. rewrite app_nil_r, <-app_assoc, zlen_app in Hr. rewrite Hr. cbn [mbind option_bind].
  destruct ls as [|l' ls]; [done|]. rewrite wire_cons. replace (pre ++ l ++ zlen l' :: l' ++ wire ls) with ((pre ++ l ++ [zlen l']) ++ l' ++ wire ls) by by rewrite <-!app_assoc.
  replace (zlen pre + zlen l + 1) with (zlen (pre ++ l ++ [zlen l'])) by zlia. done.
Qed.

Lemma put_labels_safe fuel l ls pre str j : label_ok l → Forall label_ok ls → 0 <= j → 0 < zlen str → (length ls < fuel)%nat →
  ∃ str', put_labels fuel (pre ++ l ++ wire ls) str (zlen str) (zlen pre) j (zlen l) = Some str' ∧ zlen str' = zlen str ∧ 0 ∈ str'.
Proof.
  intros Hl Hls. revert fuel l pre str j Hl. induction Hls as [|l' ls Hl' Hls IH]; intros fuel l pre str j Hl Hj Hz Hf; (destruct fuel as [|fuel]; [cbn in Hf; lia|]);
    rewrite put_labels_step by done; unfold label_ok in Hl; assert (Hne : l ≠ []) by (intros ->; change (zlen (@nil Z)) with 0 in Hl; lia).
  - destruct (put_label_safe l pre (wire []) str j Hj) as (str1 & r & -> & Hz1 & Hr). cbn [mbind option_bind]. destruct r as [j1|].
    + destruct Hr as (Hj1 & _ & Hle). specialize (Hle Hne). rewrite wr_some by lia. cbn [mbind option_bind]. rewrite wr_some by (rewrite zlen_wr; lia).
      eexists. split; [done|]. rewrite !zlen_wr by (rewrite ?zlen_wr; lia). split; [done|].
      apply (elem_slice (j1 + 1) 1). rewrite (slice_blit_len _ 1 [0]); [by apply list_elem_of_singleton|done|lia|]. rewrite zlen_wr by lia. change (zlen [0]) with 1. lia.
    + rewrite <-Hz1. apply overflow_safe. lia.
  - destruct (put_label_safe l pre (wire (l' :: ls)) str j Hj) as (str1 & r & -> & Hz1 & Hr). cbn [mbind option_bind]. destruct r as [j1|].
    + destruct Hr as (Hj1 & _ & Hle). specialize (Hle Hne). rewrite wr_some by lia. cbn [mbind option_bind]. pose proof Hl' as Hl2. unfold label_ok in Hl2. zdec.
      assert (Hz2 : zlen (blit j1 [46] str1) = zlen str) by (rewrite zlen_wr by lia; done). cbn in Hf. rewrite <-Hz2. apply IH; [done|lia|lia|lia].
    + rewrite <-Hz1. apply overflow_safe. lia.
Qed.

(** A plain label is copied. *)
Lemma put_label_plain l pre post str j : plain l → 0 <= j → j + zlen l + 2 <= zlen str →
  ∃ str', put_label (length l) (pre ++ l ++ post) str (zlen str) (zlen pre) j = Some (str', Some (j + zlen l)) ∧ zlen str' = zlen str ∧
    slice 0 (j + zlen l) str' = slice 0 j str ++ l.
Proof.
  intros Hp. revert pre str j. induction Hp as [|c l [Hg Hs] Hp IH]; intros pre str j Hj Hle; cbn [put_label length].
  { exists str. rewrite Z.add_0_r, app_nil_r. done. }
  rewrite zlen_cons in Hle. pose proof (zlen_nonneg l). rewrite Z.geb_leb. zdec. cbn [app]. rewrite rd_here. cbn [mbind option_bind]. rewrite Hg, Hs, wr_some by lia. cbn [mbind option_bind].
  replace (pre ++ c :: l ++ post) with ((pre ++ [c]) ++ l ++ post) by by rewrite <-app_assoc. replace (zlen pre + 1) with (zlen (pre ++ [c])) by zlia.
  assert (Hz : zlen (blit j [c] str) = zlen str) by (apply zlen_wr; lia). rewrite <-Hz. destruct (IH (pre ++ [c]) (blit j [c] str) (j + 1)) as (str' & -> & Hz' & Hsl); [lia|lia|].
  exists str'. split; [do 3 f_equal; zlia|]. split; [lia|]. rewrite zlen_cons, Z.add_assoc, Hsl, slice_split by lia.
  rewrite slice_blit_before by lia. rewrite Z.add_0_l, (slice_blit_len _ 1 [c]) by (change (zlen [c]) with 1; lia). by rewrite <-app_assoc.
Qed.

Lemma slice_put i c (b : list Z) : 0 <= i < zlen b → slice 0 (i + 1) (blit i [c] b) = slice 0 i b ++ [c].
Proof.
  intros. rewrite slice_split by lia. rewrite slice_blit_before by lia. rewrite Z.add_0_l. f_equal. apply slice_blit_len; [done|lia|change (zlen [c]) with 1; lia].
Qed.

Lemma put_labels_plain fuel l ls pre str j : label_ok l → Forall label_ok ls → plain l → Forall plain ls → 0 <= j → (length ls < fuel)%nat →
  j + zlen (text (l :: ls)) + 1 <= zlen str →
  ∃ str', put_labels fuel (pre ++ l ++ wire ls) str (zlen str) (zlen pre) j (zlen l) = Some str' ∧ zlen str' = zlen str ∧
    slice 0 (j + zlen (text (l :: ls)) + 1) str' = slice 0 j str ++ text (l :: ls) ++ [0].
Proof.
  intros Hl Hls. revert fuel l pre str j Hl. induction Hls as [|l' ls Hl' Hls IH]; intros fuel l pre str j Hl Hp Hps Hj Hf; (destruct fuel as [|fuel]; [cbn in Hf; lia|]);
    rewrite put_labels_step by done; rewrite (text_cons l), zlen_app, zlen_cons; intros Hle; pose proof (zlen_nonneg l).
  - change (zlen (text [])) with 0 in *. destruct (put_label_plain l pre (wire []) str j) as (str1 & -> & Hz1 & Hs1); [done|lia|lia|]. cbn [mbind option_bind].
    rewrite wr_some by lia. cbn [mbind option_bind]. rewrite wr_some by (rewrite zlen_wr; lia). eexists. split; [done|]. rewrite !zlen_wr by (rewrite ?zlen_wr; lia). split; [done|].
    replace (j + (zlen l + (1 + 0)) + 1) with (j + zlen l + 1 + 1) by lia. rewrite slice_put by (rewrite zlen_wr; lia). rewrite slice_put by lia. rewrite Hs1, <-!app_assoc. done.
  - pose proof (zlen_nonneg (text (l' :: ls))). apply Forall_cons in Hps as [Hp' Hps]. destruct (put_label_plain l pre (wire (l' :: ls)) str j) as (str1 & -> & Hz1 & Hs1); [done|lia|lia|].
    cbn [mbind option_bind]. rewrite wr_some by lia. cbn [mbind option_bind]. pose proof Hl' as Hl2. unfold label_ok in Hl2. zdec.
    assert (Hz2 : zlen (blit (j + zlen l) [46] str1) = zlen str) by (rewrite zlen_wr by lia; done). cbn in Hf. rewrite <-Hz2.
    destruct (IH fuel l' (pre ++ l ++ [zlen l']) (blit (j + zlen l) [46] str1) (j + zlen l + 1)) as (str' & -> & Hz' & Hs'); [done|done|done|lia|lia|lia|].
    exists str'. split; [done|]. split; [done|]. replace (j + (zlen l + (1 + zlen (text (l' :: ls)))) + 1) with (j + zlen l + 1 + zlen (text (l' :: ls)) + 1) by lia.
    rewrite Hs'. rewrite slice_put by lia. rewrite Hs1, <-!app_assoc. done.
Qed.

(** The whole of [rhn2str] on a name. *)
Lemma rhn2str_safe ls str : name_ok ls → 0 < zlen str → ∃ str', rhn2str (wire ls) str (zlen str) = Some (Some str') ∧ zlen str' = zlen str ∧ 0 ∈ str'.
Proof.
  intros [Hl _] Hz. unfold rhn2str. zdec. pose proof (rd_wire [] ls []) as Hr. rewrite app_nil_r in Hr. change (zlen (@nil Z)) with 0 in Hr. cbn [app] in Hr. rewrite Hr. cbn [mbind option_bind].
  assert (Hend : ∀ i b, zlen b = zlen str → 0 <= i < zlen str → zlen (blit i [0] b) = zlen str ∧ 0 ∈ blit i [0] b).
  { intros i b Hb Hi. rewrite zlen_wr by lia. split; [done|]. apply (elem_slice i 1). rewrite (slice_blit_len _ 1 [0]); [by apply list_elem_of_singleton|done|lia|change (zlen [0]) with 1; lia]. }
  destruct Hl as [|l ls Hl Hls].
  - rewrite ?Z.eqb_refl, ?Z.geb_leb. case_if.
    + rewrite wr_some by lia. cbn [mbind option_bind]. rewrite wr_some by (rewrite zlen_wr; lia). cbn. eexists. split; [done|]. apply Hend; [by rewrite zlen_wr by lia|lia].
    + rewrite wr_some by lia. cbn. eexists. split; [done|]. by apply Hend; [|lia].
  - pose proof Hl as Hl2. unfold label_ok in Hl2. zdec. rewrite wire_cons. change (zlen l :: l ++ wire ls) with ([zlen l] ++ l ++ wire ls).
    destruct (put_labels_safe (S (length ([zlen l] ++ l ++ wire ls))) l ls [zlen l] str 0) as (str' & E & Hz' & H0); [done|done|lia|lia|rewrite !length_app; unfold wire; pose proof (wire_long ls []) as Hw; rewrite app_nil_r in Hw; unfold wire in Hw; rewrite length_app in *; lia|].
    change (zlen [zlen l]) with 1 in E. rewrite E. cbn. by eexists.
Qed.

Lemma rhn2str_plain ls str : name_ok ls → Forall plain ls → zlen (dotted ls) + 1 <= zlen str →
  ∃ str', rhn2str (wire ls) str (zlen str) = Some (Some str') ∧ slice 0 (zlen (dotted ls) + 1) str' = dotted ls ++ [0].
Proof.
  intros [Hl _] Hp Hz. pose proof (zlen_nonneg (dotted ls)). unfold rhn2str. zdec. pose proof (rd_wire [] ls []) as Hr. rewrite app_nil_r in Hr. change (zlen (@nil Z)) with 0 in Hr. cbn [app] in Hr. rewrite Hr. cbn [mbind option_bind].
  destruct Hl as [|l ls Hl Hls].
  - change (zlen (dotted [])) with 1 in *. rewrite ?Z.eqb_refl, ?Z.geb_leb. zdec. rewrite wr_some by lia. cbn [mbind option_bind]. rewrite wr_some by (rewrite zlen_wr; lia). cbn.
    eexists. split; [done|]. rewrite (slice_put 1) by (rewrite zlen_wr; lia). pose proof (slice_put 0 46 str ltac:(lia)) as E0. change (0 + 1) with 1 in E0. by rewrite E0, slice_zero.
  - pose proof Hl as Hl2. unfold label_ok in Hl2. zdec. rewrite wire_cons. change (zlen l :: l ++ wire ls) with ([zlen l] ++ l ++ wire ls). apply Forall_cons in Hp as [Hp Hps]. cbn [dotted] in *.
    destruct (put_labels_plain (S (length ([zlen l] ++ l ++ wire ls))) l ls [zlen l] str 0) as (str' & E & Hz' & Hs); [done|done|done|done|lia|rewrite !length_app; pose proof (wire_long ls []) as Hw; rewrite app_nil_r in Hw; lia|lia|].
    change (zlen [zlen l]) with 1 in E. rewrite E. cbn [mbind option_bind]. eexists. split; [done|]. rewrite Z.add_0_l, slice_zero in Hs. done.
Qed.

Lemma plain_clean l : plain l → clean l.
Proof.
  intros H. eapply Forall_impl; [exact H|]. unfold isgraph, special. intros c [Hg Hs]. zb. lia.
Qed.

Lemma slice_terminated str (t : list Z) : slice 0 (zlen t + 1) str = t ++ [0] → ∃ p, str = t ++ 0 :: p.
Proof.
  intros H. exists (drop (Z.to_nat (zlen t + 1)) str). unfold slice in H. rewrite drop_0 in H. rewrite <-(take_drop (Z.to_nat (zlen t + 1)) str) at 1. rewrite H. by rewrite <-app_assoc.
Qed.

(** ** Theorems *)

(** [str2rhn] ends for every string, reads nothing behind its end and
    stays inside the name buffer.  It accepts exactly the dotted notations of
    names (the root as a single dot, otherwise every label followed by a dot)
    whose labels have 1 to 63 characters and which fit the buffer, and the
    buffer then holds the name. *)
Lemma str2rhn_exact str rhn : 0 ∈ str → zlen rhn = DNSNAMEBUFSIZE →
  ∃ b rhn', str2rhn str rhn = Some (b, rhn') ∧ zlen rhn' = DNSNAMEBUFSIZE ∧ (b = true ↔ ∃ ls, spells str ls) ∧
    (∀ ls, spells str ls → slice 0 (zlen (wire ls)) rhn' = wire ls).
Proof. apply str2rhn_run. Qed.

Definition name_buffer : list Z := replicate 256 0.

Lemma str2rhn_exact_witness : str2rhn [119; 46; 0] name_buffer = Some (true, blit 0 [1; 119] name_buffer) ∧
  ∃ b rhn', str2rhn [119; 46; 0] name_buffer = Some (b, rhn') ∧ (b = true ↔ ∃ ls, spells [119; 46; 0] ls).
Proof.
  split; [vm_compute; reflexivity|]. destruct (str2rhn_exact [119; 46; 0] name_buffer) as (b & rhn' & E & _ & H & _).
  - apply elem_of_cons. right. apply elem_of_cons. right. apply elem_of_cons. left. reflexivity.
  - reflexivity.
  - exists b, rhn'. split; [exact E|exact H].
Defined.

(** Printing a name into a buffer of any size ends, stays inside the
    buffer and leaves a terminated string there.  A name of printable
    characters without dots, backslashes and quotes that fits the buffer is
    printed so that [str2rhn] reads the same name back. *)
Lemma text_roundtrip ls str rhn : name_ok ls → 0 < zlen str → zlen rhn = DNSNAMEBUFSIZE →
  ∃ str', rhn2str (wire ls) str (zlen str) = Some (Some str') ∧ zlen str' = zlen str ∧ 0 ∈ str' ∧
    (Forall plain ls → zlen (dotted ls) + 1 <= zlen str →
     ∃ rhn', str2rhn str' rhn = Some (true, rhn') ∧ slice 0 (zlen (wire ls)) rhn' = wire ls).
Proof.
  intros Hn Hz Hr. destruct (rhn2str_safe ls str Hn Hz) as (str' & E & Hz' & H0). exists str'. split_and!; try done. intros Hp Hle.
  destruct (rhn2str_plain ls str Hn Hp Hle) as (str2 & E2 & Hs). rewrite E in E2. injection E2 as <-.
  assert (Hsp : spells str' ls). { split_and!; [done|by eapply Forall_impl; [|apply plain_clean]|by apply slice_terminated]. }
  destruct (str2rhn_run str' rhn H0 Hr) as (b & rhn' & E2 & _ & Hb & Hw). exists rhn'. split; [|by apply Hw]. rewrite E2. do 2 f_equal. apply Hb. by exists ls.
Qed.

Lemma text_roundtrip_witness : rhn2str (wire [[119]]) (replicate 8 7) 8 = Some (Some [119; 46; 0; 7; 7; 7; 7; 7]) ∧
  ∃ str', rhn2str (wire [[119]]) (replicate 8 7) (zlen (replicate 8 7)) = Some (Some str') ∧ zlen str' = 8.
Proof.
  split; [vm_compute; reflexivity|]. destruct (text_roundtrip [[119]] (replicate 8 7) name_buffer) as (str' & E & Hz & _).
  - split; [|vm_compute; discriminate]. apply Forall_cons_2; [|apply Forall_nil_2]. unfold label_ok, zlen. cbn. lia.
  - reflexivity.
  - reflexivity.
  - exists str'. split; [exact E|exact Hz].
Defined.

End DnsText.
