(* ===== verification/DnsHash.v ===== *)
(** * Hash table of the DNS cache ([pdnsd/src/hash.c], [hash.h])

    Cache entries are found by name through [2^HASH_SZ] chains.  A name is
    hashed twice, without regard to case: the short hash selects the chain, the
    long one orders the entries of a chain and saves most comparisons of names.
    The chains are lists; a location in the table, a pointer to a link in the
    source, is a chain and a position in it.  Entries are addresses of cache
    entries, whose names are found through [qn].

    [NameTable] is what the cache needs of the table; the instance at the end
    shows that the hash table provides it: it is a map from names without
    regard to case to entries. *)

From stdpp Require Import sorting.
From S2P Require Import Prelude DnsNames.
Import DnsNames.

(** ** The contract of a table of names

    [holds qn t m]: with the names [qn] of the entries the table [t] is the map
    [m], from names in lower case to entries.  The functions fail ([None]) when
    they access memory they must not. *)
Abbreviation key := (list (list Z)).
Definition fold_name (ls : list (list Z)) : key := fold_case <$> ls.

Class NameTable (T L : Type) := {
  nt_holds : (positive → option (list Z)) → T → gmap key positive → Prop;
  nt_empty : T;
  nt_lookup : (positive → option (list Z)) → list Z → T → option (option positive * L);
  nt_add : positive → L → T → option T;
  nt_del_at : L → T → option (positive * T);
  nt_del : (positive → option (list Z)) → list Z → T → option (option positive * T);
  (** all entries, in the order in which they are deleted *)
  nt_entries : T → list positive;
  nt_empty_ok qn : nt_holds qn nt_empty ∅;
  nt_lookup_ok qn t m ls :
    nt_holds qn t m → name_ok ls →
    ∃ l, nt_lookup qn (wire ls) t = Some (m !! fold_name ls, l) ∧
      (∀ qn' p, m !! fold_name ls = None → (∀ k p, m !! k = Some p → qn' p = qn p) → qn' p = Some (wire ls) →
        ∃ t', nt_add p l t = Some t' ∧ nt_holds qn' t' (<[fold_name ls := p]> m)) ∧
      (∀ p, m !! fold_name ls = Some p →
        ∃ t', nt_del_at l t = Some (p, t') ∧ nt_holds qn t' (delete (fold_name ls) m));
  nt_del_ok qn t m ls :
    nt_holds qn t m → name_ok ls →
    ∃ t', nt_del qn (wire ls) t = Some (m !! fold_name ls, t') ∧
      nt_holds qn t' (delete (fold_name ls) m);
  (** the names of other entries do not matter *)
  nt_names qn qn' t m :
    nt_holds qn t m → (∀ k p, m !! k = Some p → qn' p = qn p) → nt_holds qn' t m;
  nt_name_of qn t m k p :
    nt_holds qn t m → m !! k = Some p → ∃ ls, qn p = Some (wire ls) ∧ name_ok ls ∧ k = fold_name ls;
  nt_entries_ok qn t m : nt_holds qn t m → nt_entries t ≡ₚ (map_to_list m).*2
}.

Module DnsHash.

Definition HASH_SZ : Z := 10.
Definition HASH_NUM_BUCKETS : Z := 1024.
Definition HASH_BITMASK : Z := HASH_NUM_BUCKETS - 1.

Definition toupper (c : Z) : Z := if (97 <=? c) && (c <=? 122) then c - 32 else c.

(** [s+=c<<(i%(HASH_SZ-5))] and [r+=((unsigned long)c)<<(i%(8*sizeof(unsigned long)-7))] *)
Definition hash_step (c i : Z) (sr : Z * Z) : Z * Z :=
  (u32 (sr.1 + u32 (Z.shiftl c (i mod (HASH_SZ - 5)))),
   u64 (sr.2 + u64 (Z.shiftl c (i mod (8 * 8 - 7))))).

(** The characters of a label. *)
Fixpoint hash_chars (lb : nat) (str : list Z) (i : Z) (sr : Z * Z) : option (Z * Z) :=
  match lb with
  | O => Some sr
  | S lb' => c ← rd str i; hash_chars lb' str (i + 1) (hash_step (toupper c) i sr)
  end.

Fixpoint hash_labels (fuel : nat) (str : list Z) (i : Z) (sr : Z * Z) : option (Z * Z) :=
  match fuel with
  | O => None
  | S fuel' =>
      lb ← rd str i;
      if lb =? 0 then Some sr
      else
        sr ← hash_chars (Z.to_nat lb) str (i + 1) (hash_step lb i sr);
        hash_labels fuel' str (i + 1 + lb) sr
  end.

(** [s=(s&HASH_BITMASK)+((s&(~HASH_BITMASK))>>HASH_SZ)] *)
Definition fold_hash (s : Z) : Z :=
  u32 (Z.land s HASH_BITMASK + Z.shiftr (Z.land s (UINT32_MAX - HASH_BITMASK)) HASH_SZ).

(** The chain and the long hash. *)
Definition dns_hash (str : list Z) : option (Z * Z) :=
  '(s, r) ← hash_labels (S (length str)) str 0 (0, 0);
  Some (Z.land (fold_hash (fold_hash s)) HASH_BITMASK, r).

Record dns_hash_ent_t := mkEnt { rhash : Z; ent : positive }.
Abbreviation table := (list (list dns_hash_ent_t)).
(** [dns_hash_loc_t]: the chain and the position of the link in it. *)
Record dns_hash_loc_t := mkLoc { bucket : nat; pos : nat; lrhash : Z }.

Definition mk_dns_hash : table := replicate (Z.to_nat HASH_NUM_BUCKETS) [].

(** Goes through a chain as long as the hashes are not greater. *)
Fixpoint find_ent (qn : positive → option (list Z)) (k : list Z) (rh : Z) (chain : list dns_hash_ent_t) (i : nat)
  : option (option positive * nat) :=
  match chain with
  | [] => Some (None, i)
  | he :: chain' =>
      if rhash he <=? rh then
        same ← (if rhash he =? rh then n ← qn (ent he); rhnicmp k n else Some false);
        if (same : bool) then Some (Some (ent he), i) else find_ent qn k rh chain' (S i)
      else Some (None, i)
  end.

Definition dns_lookup (qn : positive → option (list Z)) (k : list Z) (t : table)
  : option (option positive * dns_hash_loc_t) :=
  '(idx, rh) ← dns_hash k;
  chain ← t !! Z.to_nat idx;
  '(r, i) ← find_ent qn k rh chain 0;
  Some (r, mkLoc (Z.to_nat idx) i rh).

(** The allocation of the entry is the caller's. *)
Definition add_dns_hash (data : positive) (loc : dns_hash_loc_t) (t : table) : option table :=
  chain ← t !! bucket loc;
  Some (<[bucket loc := take (pos loc) chain ++ mkEnt (lrhash loc) data :: drop (pos loc) chain]> t).

Definition del_dns_hash_ent (loc : dns_hash_loc_t) (t : table) : option (positive * table) :=
  chain ← t !! bucket loc;
  he ← chain !! pos loc;
  Some (ent he, <[bucket loc := take (pos loc) chain ++ drop (S (pos loc)) chain]> t).

Definition del_dns_hash (qn : positive → option (list Z)) (k : list Z) (t : table) : option (option positive * table) :=
  '(idx, rh) ← dns_hash k;
  chain ← t !! Z.to_nat idx;
  '(r, i) ← find_ent qn k rh chain 0;
  match r with
  | Some p => Some (Some p, <[Z.to_nat idx := take i chain ++ drop (S i) chain]> t)
  | None => Some (None, t)
  end.

(** What [free_dns_hash] goes through. *)
Definition entries (t : table) : list positive := ent <$> mjoin t.

(** ** The hash of a name *)
Fixpoint chars_sum (l : list Z) (i : Z) (sr : Z * Z) : Z * Z :=
  match l with [] => sr | c :: l => chars_sum l (i + 1) (hash_step (toupper c) i sr) end.
Fixpoint name_sum (ls : list (list Z)) (i : Z) (sr : Z * Z) : Z * Z :=
  match ls with
  | [] => sr
  | l :: ls => name_sum ls (i + 1 + zlen l) (chars_sum l (i + 1) (hash_step (zlen l) i sr))
  end.

(** The chain and the long hash of a key. *)
Definition chain_of (k : key) : nat :=
  Z.to_nat (Z.land (fold_hash (fold_hash (name_sum k 0 (0, 0)).1)) HASH_BITMASK).
Definition long_of (k : key) : Z := (name_sum k 0 (0, 0)).2.

Lemma toupper_tolower c : toupper (tolower c) = toupper c.
Proof. unfold toupper, tolower. repeat case_if; lia. Qed.

Lemma zlen_fold l : zlen (fold_case l) = zlen l.
Proof. unfold fold_case, zlen. by rewrite length_fmap. Qed.

Lemma chars_sum_fold l i sr : chars_sum (fold_case l) i sr = chars_sum l i sr.
Proof. revert i sr. induction l as [|c l IH]; intros i sr; cbn; [done|]. by rewrite toupper_tolower, IH. Qed.

Lemma name_sum_fold ls i sr : name_sum (fold_name ls) i sr = name_sum ls i sr.
Proof.
  revert i sr. induction ls as [|l ls IH]; intros i sr; cbn; [done|].
  by rewrite zlen_fold, chars_sum_fold, IH.
Qed.

Lemma hash_chars_run p l x sr :
  hash_chars (length l) (p ++ l ++ x) (zlen p) sr = Some (chars_sum l (zlen p) sr).
Proof.
  revert p sr. induction l as [|c l IH]; intros p sr; [done|]. cbn [hash_chars length chars_sum app].
  rewrite rd_here. cbn [mbind option_bind].
  replace (p ++ c :: l ++ x) with ((p ++ [c]) ++ l ++ x) by (by rewrite <-app_assoc).
  replace (zlen p + 1) with (zlen (p ++ [c])) by zlia. apply IH.
Qed.

Lemma hash_labels_run fuel p ls x sr : Forall label_ok ls → (length ls < fuel)%nat →
  hash_labels fuel (p ++ wire ls ++ x) (zlen p) sr = Some (name_sum ls (zlen p) sr).
Proof.
  intros Hls. revert fuel p sr. induction Hls as [|l ls Hl Hls IH]; intros fuel p sr Hf;
    (destruct fuel as [|fuel]; [lia|]); cbn [hash_labels]; rewrite rd_wire; cbn [mbind option_bind]; [done|].
  unfold label_ok in Hl. zdec. rewrite wire_cons.
  replace (p ++ (zlen l :: l ++ wire ls) ++ x) with ((p ++ [zlen l]) ++ l ++ wire ls ++ x)
    by (cbn; by rewrite <-!app_assoc).
  replace (Z.to_nat (zlen l)) with (length l) by (unfold zlen; lia).
  replace (zlen p + 1) with (zlen (p ++ [zlen l])) by zlia.
  rewrite hash_chars_run. cbn [mbind option_bind]. rewrite app_assoc, <-zlen_app.
  rewrite IH; [|cbn in Hf; lia]. cbn [name_sum]. rewrite !zlen_app. done.
Qed.

Lemma dns_hash_wire ls : Forall label_ok ls →
  ∃ i, dns_hash (wire ls) = Some (i, long_of (fold_name ls)) ∧ Z.to_nat i = chain_of (fold_name ls).
Proof.
  intros Hls. unfold dns_hash, long_of, chain_of. rewrite !name_sum_fold.
  pose proof (hash_labels_run (S (length (wire ls))) [] ls [] (0, 0) Hls) as E.
  rewrite app_nil_r in E. cbn [app] in E. change (zlen (@nil Z)) with 0 in E. pose proof (wire_long ls []) as Hl. rewrite app_nil_r in Hl.
  rewrite E by done. cbn [mbind option_bind].
  destruct (name_sum ls 0 (0, 0)) as [s r]. cbn. by eexists.
Qed.

Lemma chain_of_bound k : (chain_of k < Z.to_nat HASH_NUM_BUCKETS)%nat.
Proof.
  unfold chain_of. set (x := fold_hash _).
  replace HASH_BITMASK with (Z.ones HASH_SZ) by done. rewrite Z.land_ones by done.
  pose proof (Z.mod_pos_bound x (2 ^ HASH_SZ) ltac:(done)). change (2 ^ HASH_SZ) with HASH_NUM_BUCKETS in *. lia.
Qed.

Lemma wire_inj a b : Forall label_ok a → Forall label_ok b → wire a = wire b → a = b.
Proof.
  intros Ha. revert b. induction Ha as [|l a Hl Ha IH]; intros b Hb E.
  - destruct Hb as [|m b Hm Hb]; [done|]. rewrite wire_cons in E. unfold label_ok in Hm. injection E. lia.
  - destruct Hb as [|m b Hm Hb]; rewrite wire_cons in E.
    + unfold label_ok in Hl. injection E. lia.
    + rewrite wire_cons in E. injection E as E1 E2. apply app_inj_1 in E2 as [-> E2]; [|unfold zlen in E1; lia].
      f_equal. by apply IH.
Qed.

(** ** Chains *)

(** An entry of a chain: its name and that the hash is that of the name. *)
Definition ent_ok (qn : positive → option (list Z)) (he : dns_hash_ent_t) (k : key) : Prop :=
  ∃ ls, qn (ent he) = Some (wire ls) ∧ name_ok ls ∧ k = fold_name ls ∧ rhash he = long_of k.

Definition by_hash (a b : dns_hash_ent_t) : Prop := rhash a <= rhash b.

Lemma rhnicmp_wire a b : name_ok a → name_ok b → rhnicmp (wire a) (wire b) = Some (bool_decide (fold_name a = fold_name b)).
Proof.
  intros [Ha _] [Hb _]. pose proof (rhnicmp_run (S (length (wire a))) [] a [] [] b []) as E.
  rewrite !app_nil_r in E. apply E; try done.
  pose proof (wire_long a []) as Hl. by rewrite app_nil_r in Hl.
Qed.

Lemma find_ent_ok qn ls chain i0 :
  name_ok ls → Forall (λ he, ∃ k, ent_ok qn he k) chain → StronglySorted by_hash chain →
  ∃ r i, find_ent qn (wire ls) (long_of (fold_name ls)) chain i0 = Some (r, (i0 + i)%nat) ∧
    match r with
    | Some p => ∃ he, chain !! i = Some he ∧ ent he = p ∧ ent_ok qn he (fold_name ls)
    | None =>
        Forall (λ he, ¬ ent_ok qn he (fold_name ls)) chain ∧
        Forall (λ he, rhash he <= long_of (fold_name ls)) (take i chain) ∧
        Forall (λ he, long_of (fold_name ls) <= rhash he) (drop i chain)
    end.
Proof.
  intros Hls Hch Hs. revert i0. induction Hch as [|he chain (k & Hk) Hch IH]; intros i0; cbn [find_ent].
  { exists None, 0%nat. rewrite Nat.add_0_r. split_and!; by try constructor. }
  inversion Hs as [|? ? Hs' Hle]; subst. destruct (rhash he <=? long_of (fold_name ls)) eqn:E1; zb.
  2:{ exists None, 0%nat. rewrite Nat.add_0_r. split_and!; [done| | |].
      - constructor; [intros (ls' & _ & _ & _ & ?); lia|].
        eapply Forall_impl; [exact Hle|]. intros he' H (ls' & _ & _ & _ & ?). unfold by_hash in H. lia.
      - constructor.
      - cbn. constructor; [lia|]. eapply Forall_impl; [exact Hle|]. intros he' H. unfold by_hash in H. lia. }
  assert (∃ b : bool, (if rhash he =? long_of (fold_name ls) then n ← qn (ent he); rhnicmp (wire ls) n else Some false) = Some b ∧
    (b = true ↔ ent_ok qn he (fold_name ls))) as (b & -> & Hb).
  { destruct Hk as (ls' & Hq & Hls' & -> & Hr). case_if.
    - rewrite Hq. cbn [mbind option_bind]. rewrite rhnicmp_wire by done. eexists. split; [done|]. rewrite bool_decide_eq_true. split.
      + intros E. exists ls'. split_and!; try done.
      + intros (ls2 & Hq2 & Hls2 & E & _). rewrite Hq in Hq2. injection Hq2 as Hq2.
        apply wire_inj in Hq2; [by subst|apply Hls'|apply Hls2].
    - exists false. split; [done|]. split; [done|]. by intros (ls2 & _ & _ & _ & ?). }
  cbn [mbind option_bind]. destruct b.
  { exists (Some (ent he)), 0%nat. rewrite Nat.add_0_r. split; [done|]. exists he. split_and!; [done|done|by apply Hb]. }
  destruct (IH Hs' (S i0)) as (r & i & -> & Hr). exists r, (S i). split; [do 2 f_equal; lia|].
  destruct r as [p|]; [exact Hr|]. destruct Hr as (H1 & H2 & H3). cbn [take drop]. split_and!; [|by constructor|done].
  constructor; [|done]. intros H. apply Hb in H. done.
Qed.

Lemma sorted_insert chain i he :
  StronglySorted by_hash chain → Forall (λ x, rhash x <= rhash he) (take i chain) →
  Forall (λ x, rhash he <= rhash x) (drop i chain) →
  StronglySorted by_hash (take i chain ++ he :: drop i chain).
Proof.
  intros Hs. revert i. induction Hs as [|x chain Hs IH Hx]; intros i H1 H2.
  - destruct i; cbn; by repeat constructor.
  - destruct i as [|i]; cbn in *; [constructor; [by constructor|done]|].
    inversion H1 as [|? ? Hh H1']; subst. constructor; [by apply IH|].
    apply Forall_app. rewrite <-(take_drop i chain) in Hx. apply Forall_app in Hx as [Hx1 Hx2].
    split; [done|]. by constructor.
Qed.

Lemma sorted_delete chain i : StronglySorted by_hash chain → StronglySorted by_hash (take i chain ++ drop (S i) chain).
Proof.
  intros Hs. revert i. induction Hs as [|x chain Hs IH Hx]; intros i; [destruct i; constructor|].
  destruct i as [|i]; [cbn; by rewrite drop_0|]. cbn. constructor; [apply IH|].
  apply Forall_app. split; [by apply Forall_take|by apply Forall_drop].
Qed.

(** ** The table as a map *)
Record holds (qn : positive → option (list Z)) (t : table) (m : gmap key positive) : Prop := mkHolds {
  h_length : length t = Z.to_nat HASH_NUM_BUCKETS;
  h_chain i chain : t !! i = Some chain →
    StronglySorted by_hash chain ∧ NoDup (ent <$> chain) ∧
    Forall (λ he, ∃ k, ent_ok qn he k ∧ chain_of k = i ∧ m !! k = Some (ent he)) chain;
  h_map k p : m !! k = Some p →
    ∃ chain he, t !! chain_of k = Some chain ∧ he ∈ chain ∧ ent he = p ∧ ent_ok qn he k
}.

Lemma ent_ok_inj qn he he' k k' : ent he = ent he' → ent_ok qn he k → ent_ok qn he' k' → k = k'.
Proof.
  intros E (ls & Hq & Hls & -> & _) (ls' & Hq' & Hls' & -> & _). rewrite E, Hq' in Hq. injection Hq as Hq.
  apply wire_inj in Hq; [by subst|apply Hls'|apply Hls].
Qed.

Lemma chain_lookup qn t m k : holds qn t m → ∃ chain, t !! chain_of k = Some chain.
Proof. intros H. apply lookup_lt_is_Some_2. rewrite (h_length _ _ _ H). apply chain_of_bound. Qed.

Lemma chain_ents qn t m i chain : holds qn t m → t !! i = Some chain → Forall (λ he, ∃ k, ent_ok qn he k) chain.
Proof. intros H Hi. destruct (h_chain _ _ _ H _ _ Hi) as (_ & _ & HF). eapply Forall_impl; [exact HF|]. naive_solver. Qed.

Lemma lookup_find qn t m ls : holds qn t m → name_ok ls →
  ∃ chain i, t !! chain_of (fold_name ls) = Some chain ∧
    find_ent qn (wire ls) (long_of (fold_name ls)) chain 0 = Some (m !! fold_name ls, i) ∧
    match m !! fold_name ls with
    | Some p => ∃ he, chain !! i = Some he ∧ ent he = p ∧ ent_ok qn he (fold_name ls)
    | None => Forall (λ he, rhash he <= long_of (fold_name ls)) (take i chain) ∧
              Forall (λ he, long_of (fold_name ls) <= rhash he) (drop i chain)
    end.
Proof.
  intros H Hls. destruct (chain_lookup _ _ _ (fold_name ls) H) as [chain Hc]. exists chain.
  destruct (h_chain _ _ _ H _ _ Hc) as (Hs & _ & HF).
  destruct (find_ent_ok qn ls chain 0 Hls (chain_ents _ _ _ _ _ H Hc) Hs) as (r & i & E & Hr). exists i.
  assert (r = m !! fold_name ls) as ->.
  { destruct r as [p|].
    - destruct Hr as (he & Hi & <- & Hk). apply (Forall_lookup_1 _ _ _ _ HF) in Hi as (k & Hk' & _ & Hm).
      by rewrite (ent_ok_inj _ _ _ _ _ eq_refl Hk Hk').
    - destruct Hr as (Hno & _ & _). destruct (m !! fold_name ls) as [p|] eqn:Em; [|done].
      apply (h_map _ _ _ H) in Em as (chain' & he & Hc' & Hin & _ & Hk). rewrite Hc in Hc'. injection Hc' as <-.
      rewrite Forall_forall in Hno. by apply Hno in Hin. }
  split_and!; [done|done|]. destruct (m !! fold_name ls); [done|]. naive_solver.
Qed.

Lemma holds_add qn t m ls p chain i :
  holds qn t m → name_ok ls → m !! fold_name ls = None → qn p = Some (wire ls) →
  t !! chain_of (fold_name ls) = Some chain →
  Forall (λ he, rhash he <= long_of (fold_name ls)) (take i chain) →
  Forall (λ he, long_of (fold_name ls) <= rhash he) (drop i chain) →
  holds qn (<[chain_of (fold_name ls) := take i chain ++ mkEnt (long_of (fold_name ls)) p :: drop i chain]> t)
    (<[fold_name ls := p]> m).
Proof.
  intros H Hls Hm Hq Hc H1 H2. set (k := fold_name ls) in *. set (ne := mkEnt (long_of k) p).
  assert (ent_ok qn ne k) as Hne by (exists ls; done).
  assert (Hp : ∀ k' he, ent_ok qn he k' → m !! k' = Some (ent he) → ent he ≠ p).
  { intros k' he Hk' Hm' E. assert (k' = k) as -> by by apply (ent_ok_inj qn he ne). congruence. }
  split.
  - rewrite length_insert. apply H.
  - intros j chain' Hj. destruct (decide (j = chain_of k)) as [-> | Hjk].
    + rewrite list_lookup_insert_eq in Hj by (by eapply lookup_lt_Some). injection Hj as <-.
      destruct (h_chain _ _ _ H _ _ Hc) as (Hs & Hn & HF).
      assert (take i chain ++ ne :: drop i chain ≡ₚ ne :: chain) as HP
        by (rewrite <-Permutation_middle, take_drop; done).
      split_and!; [by apply sorted_insert| |].
      * rewrite HP. cbn. apply NoDup_cons. split; [|done]. intros (he & E & Hin)%list_elem_of_fmap.
        rewrite Forall_forall in HF. destruct (HF _ Hin) as (k' & Hk' & _ & Hm'). by apply (Hp k' he).
      * rewrite HP. constructor; [exists k; by rewrite lookup_insert_eq|].
        eapply Forall_impl; [exact HF|]. intros he (k' & Hk' & Hch & Hm'). exists k'. split_and!; [done|done|].
        rewrite lookup_insert_ne; [done|]. intros <-. congruence.
    + rewrite list_lookup_insert_ne in Hj by done. destruct (h_chain _ _ _ H _ _ Hj) as (Hs & Hn & HF).
      split_and!; [done|done|]. eapply Forall_impl; [exact HF|]. intros he (k' & Hk' & Hch & Hm').
      exists k'. split_and!; [done|done|]. rewrite lookup_insert_ne; [done|]. intros <-. congruence.
  - intros k' q Hk'. destruct (decide (k = k')) as [<- | Hkk].
    + rewrite lookup_insert_eq in Hk'. injection Hk' as <-. eexists _, ne.
      rewrite list_lookup_insert_eq by (by eapply lookup_lt_Some). split_and!; [done|set_solver|done|done].
    + rewrite lookup_insert_ne in Hk' by done. apply (h_map _ _ _ H) in Hk' as (chain' & he & Hc' & Hin & He & Hk').
      destruct (decide (chain_of k' = chain_of k)) as [E | Hne'].
      * rewrite E in *. rewrite Hc in Hc'. injection Hc' as <-. eexists _, he.
        rewrite list_lookup_insert_eq by (by eapply lookup_lt_Some). split_and!; [done| |done|done].
        rewrite <-(take_drop i chain) in Hin. set_solver.
      * exists chain', he. by rewrite list_lookup_insert_ne.
Qed.

Lemma holds_delete qn t m ls chain i he :
  holds qn t m → t !! chain_of (fold_name ls) = Some chain → chain !! i = Some he → ent_ok qn he (fold_name ls) →
  holds qn (<[chain_of (fold_name ls) := take i chain ++ drop (S i) chain]> t) (delete (fold_name ls) m).
Proof.
  intros H Hc Hi Hne. set (k := fold_name ls) in *. destruct (h_chain _ _ _ H _ _ Hc) as (Hs & Hn & HF).
  pose proof (Forall_lookup_1 _ _ _ _ HF Hi) as (k0 & Hk0 & _ & Hm).
  assert (k0 = k) as -> by by apply (ent_ok_inj qn he he).
  pose proof (take_drop_middle _ _ _ Hi) as Esp.
  assert (chain ≡ₚ he :: take i chain ++ drop (S i) chain) as HP by (rewrite <-Esp at 1; by rewrite Permutation_middle).
  assert (Hothers : ∀ x, x ∈ take i chain ++ drop (S i) chain → ent x ≠ ent he).
  { intros x Hx E. rewrite HP in Hn. cbn in Hn. apply NoDup_cons in Hn as [Hn _]. apply Hn.
    rewrite <-E. by apply list_elem_of_fmap_2. }
  split.
  - rewrite length_insert. apply H.
  - intros j chain' Hj. destruct (decide (j = chain_of k)) as [-> | Hjk].
    + rewrite list_lookup_insert_eq in Hj by (by eapply lookup_lt_Some). injection Hj as <-.
      split_and!; [by apply sorted_delete| |].
      * rewrite HP in Hn. cbn in Hn. by apply NoDup_cons in Hn as [_ Hn].
      * apply Forall_forall. intros x Hx. rewrite HP in HF. apply Forall_cons in HF as [_ HF].
        rewrite Forall_forall in HF. destruct (HF _ Hx) as (k' & Hk' & Hch & Hm'). exists k'.
        split_and!; [done|done|]. rewrite lookup_delete_ne; [done|]. intros <-. rewrite Hm in Hm'.
        injection Hm' as E. by apply (Hothers x).
    + rewrite list_lookup_insert_ne in Hj by done. destruct (h_chain _ _ _ H _ _ Hj) as (Hs' & Hn' & HF').
      split_and!; [done|done|]. eapply Forall_impl; [exact HF'|]. intros x (k' & Hk' & Hch & Hm').
      exists k'. split_and!; [done|done|]. rewrite lookup_delete_ne; [done|]. by intros <-.
  - intros k' q Hk'. apply lookup_delete_Some in Hk' as [Hkk Hk'].
    pose proof Hk' as (chain' & x & Hc' & Hin & He & Hk2)%(h_map _ _ _ H).
    destruct (decide (chain_of k' = chain_of k)) as [E | Hne'].
    + rewrite E in *. rewrite Hc in Hc'. injection Hc' as <-. eexists _, x.
      rewrite list_lookup_insert_eq by (by eapply lookup_lt_Some). split_and!; [done| |done|done].
      rewrite HP in Hin. apply elem_of_cons in Hin as [-> | Hin]; [|done]. destruct Hkk. by apply (ent_ok_inj qn he he).
    + exists chain', x. by rewrite list_lookup_insert_ne.
Qed.

(** ** The contract *)
Lemma names_ok qn qn' t m : holds qn t m → (∀ k p, m !! k = Some p → qn' p = qn p) → holds qn' t m.
Proof.
  intros H Hq. assert (He : ∀ he k, m !! k = Some (ent he) → ent_ok qn he k → ent_ok qn' he k).
  { intros he k Hm (ls & Hn & Hls & -> & Hr). exists ls. by rewrite (Hq _ _ Hm). }
  split; [apply H| |].
  - intros i chain Hi. destruct (h_chain _ _ _ H _ _ Hi) as (Hs & Hn & HF). split_and!; [done|done|].
    eapply Forall_impl; [exact HF|]. intros he (k & Hk & Hc & Hm). exists k. split_and!; [by apply He|done|done].
  - intros k p Hm. pose proof Hm as (chain & he & Hc & Hin & <- & Hk)%(h_map _ _ _ H).
    exists chain, he. split_and!; [done|done|done|by apply He].
Qed.

Lemma lookup_ok qn t m ls :
  holds qn t m → name_ok ls →
  ∃ l, dns_lookup qn (wire ls) t = Some (m !! fold_name ls, l) ∧
    (∀ qn' p, m !! fold_name ls = None → (∀ k p, m !! k = Some p → qn' p = qn p) → qn' p = Some (wire ls) →
      ∃ t', add_dns_hash p l t = Some t' ∧ holds qn' t' (<[fold_name ls := p]> m)) ∧
    (∀ p, m !! fold_name ls = Some p →
      ∃ t', del_dns_hash_ent l t = Some (p, t') ∧ holds qn t' (delete (fold_name ls) m)).
Proof.
  intros H Hls. destruct (dns_hash_wire ls (proj1 Hls)) as (j & Ej & Hj).
  destruct (lookup_find _ _ _ _ H Hls) as (chain & i & Hc & Hf & Hr). unfold dns_lookup. rewrite Ej.
  cbn [mbind option_bind]. rewrite Hj, Hc. cbn [mbind option_bind]. rewrite Hf. cbn [mbind option_bind].
  eexists. split; [done|]. unfold add_dns_hash, del_dns_hash_ent. cbn [bucket pos lrhash]. rewrite Hc. cbn [mbind option_bind].
  split.
  - intros qn' p Hm Hn Hq. rewrite Hm in Hr. destruct Hr. eexists. split; [done|]. apply holds_add; try done. by eapply names_ok.
  - intros p Hm. rewrite Hm in Hr. destruct Hr as (he & Hi & <- & Hk). rewrite Hi. cbn [mbind option_bind].
    eexists. split; [done|]. by eapply holds_delete.
Qed.

Lemma del_ok qn t m ls :
  holds qn t m → name_ok ls →
  ∃ t', del_dns_hash qn (wire ls) t = Some (m !! fold_name ls, t') ∧ holds qn t' (delete (fold_name ls) m).
Proof.
  intros H Hls. destruct (dns_hash_wire ls (proj1 Hls)) as (j & Ej & Hj).
  destruct (lookup_find _ _ _ _ H Hls) as (chain & i & Hc & Hf & Hr). unfold del_dns_hash. rewrite Ej.
  cbn [mbind option_bind]. rewrite Hj, Hc. cbn [mbind option_bind]. rewrite Hf. cbn [mbind option_bind].
  destruct (m !! fold_name ls) as [p|] eqn:Hm.
  - destruct Hr as (he & Hi & <- & Hk). eexists. split; [done|]. by eapply holds_delete.
  - exists t. split; [done|]. by rewrite delete_id.
Qed.

Lemma empty_ok qn : holds qn mk_dns_hash ∅.
Proof.
  split; [done| |].
  - intros i chain [-> _]%lookup_replicate_1. split_and!; constructor.
  - intros k p Hk. by rewrite lookup_empty in Hk.
Qed.

Lemma elem_of_entries qn t m p : holds qn t m → p ∈ entries t ↔ ∃ k, m !! k = Some p.
Proof.
  intros H. unfold entries. rewrite list_elem_of_fmap. split.
  - intros (he & -> & (chain & Hin & Hc)%list_elem_of_join). apply list_elem_of_lookup in Hc as [i Hi].
    destruct (h_chain _ _ _ H _ _ Hi) as (_ & _ & HF). rewrite Forall_forall in HF.
    destruct (HF _ Hin) as (k & _ & _ & Hm). eauto.
  - intros [k (chain & he & Hc & Hin & <- & _)%(h_map _ _ _ H)]. exists he. split; [done|].
    apply list_elem_of_join. exists chain. split; [done|]. by eapply list_elem_of_lookup_2.
Qed.

Lemma entries_nodup qn t m : holds qn t m → NoDup (entries t).
Proof.
  intros H. unfold entries.
  assert (∀ t0 i0, (∀ i chain, t0 !! i = Some chain → t !! (i0 + i)%nat = Some chain) → NoDup (ent <$> mjoin t0)) as Hg.
  { induction t0 as [|chain t0 IH]; intros i0 Ht0; cbn; [constructor|]. rewrite fmap_app.
    destruct (h_chain _ _ _ H _ _ (Ht0 0%nat chain eq_refl)) as (_ & Hn & HF). rewrite Nat.add_0_r in HF.
    apply NoDup_app. split_and!; [done| |].
    - intros p (he & -> & Hin)%list_elem_of_fmap (he' & E & (chain' & Hin' & Hc')%list_elem_of_join)%list_elem_of_fmap.
      apply list_elem_of_lookup in Hc' as [j Hj].
      destruct (h_chain _ _ _ H _ _ (Ht0 (S j) chain' Hj)) as (_ & _ & HF'). rewrite Forall_forall in HF, HF'.
      destruct (HF _ Hin) as (k & Hk & Hc & _), (HF' _ Hin') as (k' & Hk' & Hc' & _).
      assert (k = k') as <- by by apply (ent_ok_inj qn he he'). lia.
    - apply (IH (S i0)). intros i c Hi. replace (S i0 + i)%nat with (i0 + S i)%nat by lia. by apply Ht0. }
  by apply (Hg t 0%nat).
Qed.

Lemma name_of qn t m k p : holds qn t m → m !! k = Some p → ∃ ls, qn p = Some (wire ls) ∧ name_ok ls ∧ k = fold_name ls.
Proof. intros H (chain & he & _ & _ & <- & ls & Hq & Hls & -> & _)%(h_map _ _ _ H). eauto. Qed.

Lemma entries_ok qn t m : holds qn t m → entries t ≡ₚ (map_to_list m).*2.
Proof.
  intros H. apply NoDup_Permutation.
  - by eapply entries_nodup.
  - apply NoDup_fmap_2_strong; [|apply NoDup_map_to_list].
    intros [k p] [k' p'] Hk Hk' E. cbn in E. subst p'. apply elem_of_map_to_list in Hk, Hk'. f_equal.
    destruct (name_of _ _ _ _ _ H Hk) as (ls & Hq & Hls & ->), (name_of _ _ _ _ _ H Hk') as (ls' & Hq' & Hls' & ->).
    rewrite Hq in Hq'. injection Hq' as Hq'. apply wire_inj in Hq'; [by subst|apply Hls|apply Hls'].
  - intros p. rewrite (elem_of_entries _ _ _ _ H), list_elem_of_fmap. split.
    + intros [k Hk]. exists (k, p). split; [done|]. by apply elem_of_map_to_list.
    + intros ([k p'] & -> & Hk). exists k. by apply elem_of_map_to_list.
Qed.

#[export] Instance hash_table : NameTable table dns_hash_loc_t := {
  nt_holds := holds;
  nt_empty := mk_dns_hash;
  nt_lookup := dns_lookup;
  nt_add := add_dns_hash;
  nt_del_at := del_dns_hash_ent;
  nt_del := del_dns_hash;
  nt_entries := entries;
  nt_empty_ok := empty_ok;
  nt_lookup_ok := lookup_ok;
  nt_del_ok := del_ok;
  nt_names := names_ok;
  nt_name_of := name_of;
  nt_entries_ok := entries_ok
}.

(** ** Sequences of operations *)
Inductive top :=
  | TAdd (ls : list (list Z)) (p : positive)
  | TDel (ls : list (list Z))
  | TFind (ls : list (list Z)).

(** The cache adds an entry if the name is not there, at the location the lookup delivers. *)
Definition run_op (qn : positive → option (list Z)) (o : top) (t : table) : option (option positive * table) :=
  match o with
  | TAdd ls p =>
      '(r, l) ← dns_lookup qn (wire ls) t;
      match r with Some _ => Some (r, t) | None => t' ← add_dns_hash p l t; Some (r, t') end
  | TDel ls => del_dns_hash qn (wire ls) t
  | TFind ls => '(r, _) ← dns_lookup qn (wire ls) t; Some (r, t)
  end.
Fixpoint run_table (qn : positive → option (list Z)) (os : list top) (t : table) : option (list (option positive)) :=
  match os with
  | [] => Some []
  | o :: os' => '(r, t') ← run_op qn o t; rs ← run_table qn os' t'; Some (r :: rs)
  end.

(** The same on a map from names in lower case. *)
Definition map_op (o : top) (m : gmap key positive) : option positive * gmap key positive :=
  match o with
  | TAdd ls p => match m !! fold_name ls with Some q => (Some q, m) | None => (None, <[fold_name ls := p]> m) end
  | TDel ls => (m !! fold_name ls, delete (fold_name ls) m)
  | TFind ls => (m !! fold_name ls, m)
  end.
Fixpoint run_map (os : list top) (m : gmap key positive) : list (option positive) :=
  match os with
  | [] => []
  | o :: os' => let '(r, m') := map_op o m in r :: run_map os' m'
  end.

(** Names are well-formed, and an entry has the name under which it is added. *)
Definition op_ok (qn : positive → option (list Z)) (o : top) : Prop :=
  match o with
  | TAdd ls p => name_ok ls ∧ qn p = Some (wire ls)
  | TDel ls | TFind ls => name_ok ls
  end.

Lemma run_op_ok qn o t m : holds qn t m → op_ok qn o → ∃ t', run_op qn o t = Some ((map_op o m).1, t') ∧ holds qn t' (map_op o m).2.
Proof.
  intros H Ho. destruct o as [ls p|ls|ls]; cbn [run_op map_op op_ok fst snd] in *.
  - destruct Ho as [Hls Hq]. destruct (lookup_ok _ _ _ _ H Hls) as (l & -> & Ha & _). cbn [mbind option_bind].
    destruct (m !! fold_name ls) as [q|]; [by exists t|]. destruct (Ha qn p eq_refl ltac:(done) Hq) as (t' & -> & Ht'). by exists t'.
  - by apply del_ok.
  - destruct (lookup_ok _ _ _ _ H Ho) as (l & -> & _). by exists t.
Qed.

(** C19: The hash table is a map from names, without regard to case, to
    entries: any sequence of additions, deletions and lookups delivers what a
    map delivers, and never leaves the memory of the table or of a name. *)
Theorem hash_table_exact qn os : Forall (op_ok qn) os → run_table qn os mk_dns_hash = Some (run_map os ∅).
Proof.
  assert (∀ t m, holds qn t m → Forall (op_ok qn) os → run_table qn os t = Some (run_map os m)) as Hg; [|by apply Hg, empty_ok].
  induction os as [|o os IH]; intros t m H Ho; [done|]. inversion Ho as [|? ? Ho1 Ho2]; subst.
  destruct (run_op_ok _ _ _ _ H Ho1) as (t' & E & Ht'). cbn [run_table run_map]. rewrite E. cbn [mbind option_bind].
  destruct (map_op o m) as [r m']. cbn [fst snd] in *. rewrite (IH _ _ Ht' Ho2). done.
Qed.

(** Two names in different case, and another one. *)
Definition ex_names : gmap positive (list Z) := {[1%positive := wire [[87; 119; 119]]; 2%positive := wire [[119; 119; 120]]]}.
Definition ex_ops : list top := [TAdd [[87; 119; 119]] 1; TAdd [[119; 119; 120]] 2; TFind [[119; 87; 119]]; TDel [[119; 119; 119]]; TFind [[87; 119; 119]]].

Lemma hash_table_exact_witness :
  run_table (λ p, ex_names !! p) ex_ops mk_dns_hash = Some (run_map ex_ops ∅) ∧
  run_map ex_ops ∅ = [None; None; Some 1%positive; Some 1%positive; None].
Proof.
  split; [|vm_compute; reflexivity]. apply hash_table_exact.
  repeat (apply Forall_cons; split); [| | | | |apply Forall_nil; exact I]; repeat split; try (repeat constructor; done); done.
Defined.

End DnsHash.
