(* ===== verification/DnsCache.v ===== *)
(** * Cache of the DNS proxy ([pdnsd/src/cache.c], [cache.h])

    A cache entry ([dns_cent_t]) holds what is known of a name: either that
    the name does not exist, or sets of records by type.  Entries are found by
    name through the hash table.  Every set that may be deleted is in a list,
    oldest first, from which [purge_cache] deletes when the cache has become
    too large; for a name that does not exist the entry itself is in the list.

    Entries live in memory and are known by their address, as are the
    elements of the list; the sets of an entry are part of it.  The array of
    rarely used sets, if it is allocated, follows the array of frequently used
    ones.  The doubly linked list is a sequence of addresses.  A pointer that
    is [NULL] or dangling where it is followed, the wrong member of a union
    and a failed assertion make a function fail ([None]).  Allocations succeed
    or fail as [mallocs] says.  The functions are those that run under the
    lock of the cache ([CacheLock]); time stands still in them.  Flags are 16 bits wide in
    the source, where only the bits below are ever set.  Warnings are effects. *)

From S2P Require Import Prelude DnsNames DnsHash.
Import DnsNames.

Module DnsCache.

(** ** Types of records ([rr_types.h]) *)
Definition T_MIN : Z := 1.
Definition T_NUM : Z := 51.
Definition NRRMU : Z := 8.
Definition NRREXT : Z := 39.
Definition NRRTOT : Z := 47.

Definition rrlkuptab : list Z :=
  [0; 1; 8; 9; 2; 3; 10; 11; 12; 13; 14; 4; 15; 16; 5; 6; 17; 18; 19; 20; 21; 22; 23; 24; 25; 26; 27; 7;
   28; 29; 30; 31; 32; 33; 34; 35; 36; 47; 48; 49; 50; 37; 38; 39; 40; 41; 42; 43; 44; 45; 46].

Definition RRCL_ALIAS : Z := 1.
Definition RRCL_RECORD : Z := 2.
Definition RRCL_IDEM : Z := 4.
Definition RRCL_PTR : Z := 8.

(** The class of a type of records and the classes it excludes. *)
Definition ALIAS : Z * Z := (RRCL_ALIAS, Z.lor RRCL_RECORD RRCL_PTR).
Definition RECORD : Z * Z := (RRCL_RECORD, Z.lor RRCL_ALIAS RRCL_PTR).
Definition IDEM : Z * Z := (RRCL_IDEM, 0).
Definition PTR : Z * Z := (RRCL_PTR, Z.lor RRCL_ALIAS RRCL_RECORD).
Definition rr_info : list (Z * Z) :=
  [RECORD; IDEM; ALIAS; IDEM; PTR; IDEM; IDEM; RECORD; IDEM; IDEM; IDEM; IDEM; IDEM; IDEM; RECORD; RECORD;
   IDEM; RECORD; RECORD; RECORD; RECORD; RECORD; RECORD; PTR; IDEM; IDEM; IDEM; RECORD; RECORD; IDEM; RECORD;
   RECORD; RECORD; RECORD; RECORD; RECORD; RECORD; IDEM; IDEM; IDEM; IDEM; IDEM; IDEM; IDEM; IDEM; IDEM; IDEM].

(** ** Flags *)
Definition CF_NEGATIVE : Z := 1.
Definition CF_LOCAL : Z := 2.
Definition CF_AUTH : Z := 4.
Definition CF_NOCACHE : Z := 8.
Definition CF_ADDITIONAL : Z := 16.
Definition CF_NOPURGE : Z := 32.
Definition CF_ROOTSERV : Z := 64.
Definition DF_NEGATIVE : Z := 1.
Definition DF_LOCAL : Z := 2.
Definition DF_AUTH : Z := 4.
Definition DF_NOCACHE : Z := 8.
Definition DF_WILD : Z := 16.
Definition cundef : Z := 255.
Definition CACHE_LAT : Z := 120.
Definition MCSZ : Z := 10240.

(** [f&b] as a condition, [f & ~b] *)
Definition has (f b : Z) : bool := negb (Z.land f b =? 0).
Definition clear (f b : Z) : Z := Z.ldiff f b.

(** ** Data *)
Record rr_set_t := mkSet { lent : option positive; ttl : Z; ts : Z; rflags : Z; rrs : list (list Z) }.

(** The union of an entry: for a name that does not exist, and for one that does. *)
Inductive union_t :=
  | Neg (nlent : option positive) (nttl nts : Z)
  | Sets (arr : list (option rr_set_t)).

Record dns_cent_t := mkCent {
  qname : list Z;
  cs : Z;
  num_rrs : Z;
  flags : Z;
  rr : union_t;
  c_ns : Z;
  c_soa : Z
}.

(** An element of the list: the entry, and the index of the set, if any. *)
Record rr_lent_t := mkLent { l_cent : positive; l_idx : option nat }.

Definition sizeof_dns_cent_t : Z := 104.
Definition sizeof_rr_set_t : Z := 40.
Definition sizeof_rr_bucket_t : Z := 16.
(** The size of the [NRREXT] pointers of [rrext]. *)
Definition sizeof_rrext : Z := 8 * NRREXT.

(** The options of the configuration that the cache uses. *)
Record globparm_t := mkGlob { perm_cache : Z; min_ttl : Z; max_ttl : Z; neg_ttl : Z }.

(** Messages about the file of the cache. *)
Inductive file_msg := CannotOpen | ReadError | BadVersion | BadName | BadType | TypeOrder | WriteError | CountedWrong | LockFailed | Exiting.
Inductive warning := NotFound | Mismatch | OutOfMemory | FileMsg (m : file_msg).

Definition set_lent (e : option positive) (r : rr_set_t) : rr_set_t := mkSet e (ttl r) (ts r) (rflags r) (rrs r).
Definition set_ttl (t : Z) (r : rr_set_t) : rr_set_t := mkSet (lent r) t (ts r) (rflags r) (rrs r).
Definition set_ts (t : Z) (r : rr_set_t) : rr_set_t := mkSet (lent r) (ttl r) t (rflags r) (rrs r).
Definition set_rflags (f : Z) (r : rr_set_t) : rr_set_t := mkSet (lent r) (ttl r) (ts r) f (rrs r).
Definition set_rrs (l : list (list Z)) (r : rr_set_t) : rr_set_t := mkSet (lent r) (ttl r) (ts r) (rflags r) l.

Definition set_cs (n : Z) (c : dns_cent_t) : dns_cent_t :=
  mkCent (qname c) n (num_rrs c) (flags c) (rr c) (c_ns c) (c_soa c).
Definition set_num (n : Z) (c : dns_cent_t) : dns_cent_t :=
  mkCent (qname c) (cs c) n (flags c) (rr c) (c_ns c) (c_soa c).
Definition set_flags (f : Z) (c : dns_cent_t) : dns_cent_t :=
  mkCent (qname c) (cs c) (num_rrs c) f (rr c) (c_ns c) (c_soa c).
Definition set_rr (u : union_t) (c : dns_cent_t) : dns_cent_t :=
  mkCent (qname c) (cs c) (num_rrs c) (flags c) u (c_ns c) (c_soa c).
Definition set_cns (n : Z) (c : dns_cent_t) : dns_cent_t :=
  mkCent (qname c) (cs c) (num_rrs c) (flags c) (rr c) n (c_soa c).
Definition set_csoa (n : Z) (c : dns_cent_t) : dns_cent_t :=
  mkCent (qname c) (cs c) (num_rrs c) (flags c) (rr c) (c_ns c) n.

Section Cache.
Context {T L : Type} `{!NameTable T L} (global : globparm_t).

Record cache := mkCache {
  cents : gmap positive dns_cent_t;
  lents : gmap positive rr_lent_t;
  rrset_l : list positive;
  hash_buckets : T;
  cache_size : Z;
  ent_num : Z;
  insert_sort : bool;
  mallocs : list bool;
  now : Z
}.

Definition set_cents (x : gmap positive dns_cent_t) (s : cache) : cache :=
  mkCache x (lents s) (rrset_l s) (hash_buckets s) (cache_size s) (ent_num s) (insert_sort s) (mallocs s) (now s).
Definition set_list (x : gmap positive rr_lent_t) (l : list positive) (s : cache) : cache :=
  mkCache (cents s) x l (hash_buckets s) (cache_size s) (ent_num s) (insert_sort s) (mallocs s) (now s).
Definition set_table (x : T) (s : cache) : cache :=
  mkCache (cents s) (lents s) (rrset_l s) x (cache_size s) (ent_num s) (insert_sort s) (mallocs s) (now s).
Definition set_size (x : Z) (s : cache) : cache :=
  mkCache (cents s) (lents s) (rrset_l s) (hash_buckets s) x (ent_num s) (insert_sort s) (mallocs s) (now s).
Definition set_ents (x : Z) (s : cache) : cache :=
  mkCache (cents s) (lents s) (rrset_l s) (hash_buckets s) (cache_size s) x (insert_sort s) (mallocs s) (now s).
Definition set_sort (x : bool) (s : cache) : cache :=
  mkCache (cents s) (lents s) (rrset_l s) (hash_buckets s) (cache_size s) (ent_num s) x (mallocs s) (now s).
Definition set_mallocs (x : list bool) (s : cache) : cache :=
  mkCache (cents s) (lents s) (rrset_l s) (hash_buckets s) (cache_size s) (ent_num s) (insert_sort s) x (now s).

#[local] Abbreviation act := (M cache warning).

Definition crash {A} : act A := λ _, None.
Definition lift {A} (o : option A) : act A := λ s, match o with Some a => Some (a, s, []) | None => None end.

(** Whether the next allocation succeeds. *)
Definition malloc : act bool := λ s,
  match mallocs s with
  | [] => Some (true, s, [])
  | b :: l => Some (b, set_mallocs l s, [])
  end.

Definition load (p : positive) : act dns_cent_t := s ← get; lift (cents s !! p).
Definition store (p : positive) (f : dns_cent_t → dns_cent_t) : act unit :=
  c ← load p;
  modify (λ s, set_cents (<[p := f c]> (cents s)) s).

(** Access to the sets of an entry that is not negative. *)
Definition sets_of (c : dns_cent_t) : act (list (option rr_set_t)) :=
  match rr c with Sets arr => mret arr | Neg _ _ _ => crash end.
(** The sets of an entry, none for a negative one; the length of the result is
    [RRARR_LEN], its elements are [RRARR_INDEX_TESTEXT]. *)
Definition rrarr (c : dns_cent_t) : act (list (option rr_set_t)) :=
  if has (flags c) DF_NEGATIVE then mret [] else sets_of c.

Definition getrrset (c : dns_cent_t) (type : Z) : act (option rr_set_t) :=
  if negb (has (flags c) DF_NEGATIVE) then
    let tpi := type - T_MIN in
    if (tpi >=? 0) && (tpi <? T_NUM) then
      idx ← lift (rrlkuptab !! Z.to_nat tpi);
      arr ← sets_of c;
      mret (mjoin (arr !! Z.to_nat idx))
    else mret None
  else mret None.

Definition have_rr (c : dns_cent_t) (type : Z) : act bool :=
  if has (flags c) DF_NEGATIVE then mret false
  else
    idx ← lift (rrlkuptab !! Z.to_nat (type - T_MIN));
    arr ← sets_of c;
    mret (match mjoin (arr !! Z.to_nat idx) with
          | Some r => match rrs r with [] => false | _ => true end
          | None => false
          end).

Definition CLAT_ADJ (t : Z) : Z := if t <? CACHE_LAT then CACHE_LAT else t.
Definition timedout (t : Z) (r : rr_set_t) : bool := ts r + CLAT_ADJ (ttl r) <? t.
(** Reads the members of the union that a negative entry has. *)
Definition timedout_nxdom (c : dns_cent_t) : act bool :=
  s ← get;
  match rr c with Neg _ t t0 => mret (t0 + CLAT_ADJ t <? now s) | Sets _ => crash end.

(** ** The list *)
Definition remove_rrl (e : positive) : act unit :=
  s ← get;
  _ ← lift (lents s !! e);
  modify (λ s, set_list (delete e (lents s)) (filter (λ x, x ≠ e) (rrset_l s)) s).

Definition get_rrlent_ts (e : positive) : act Z :=
  s ← get;
  le ← lift (lents s !! e);
  c ← load (l_cent le);
  match l_idx le with
  | Some i =>
      arr ← sets_of c;
      r ← lift (mjoin (arr !! i));
      mret (ts r)
  | None => match rr c with Neg _ _ t => mret t | Sets _ => crash end
  end.

(** The list with [ne] inserted, found from the end of the list on: [l] is the
    part that is left, reversed, [acc] what is behind. *)
Fixpoint insert_from (t : Z) (ne : positive) (l acc : list positive) : act (list positive) :=
  match l with
  | [] => mret (ne :: acc)
  | le :: l' =>
      t' ← get_rrlent_ts le;
      if t >=? t' then mret (reverse l ++ ne :: acc) else insert_from t ne l' (le :: acc)
  end.

Definition insert_rrl (p : positive) (idx : option nat) : act bool :=
  c ← load p;
  '(t, local) ←
    (match idx with
     | Some i => arr ← sets_of c; r ← lift (mjoin (arr !! i)); mret (ts r, has (rflags r) CF_LOCAL)
     | None => match rr c with Neg _ _ t => mret (t, false) | Sets _ => crash end
     end);
  if local || has (flags c) DF_LOCAL then mret true
  else
    ok ← malloc;
    if negb ok then mret false
    else
      s ← get;
      let ne := fresh (dom (lents s)) in
      l ← (if insert_sort s then insert_from t ne (reverse (rrset_l s)) [] else mret (rrset_l s ++ [ne]));
      modify (λ s, set_list (<[ne := mkLent p idx]> (lents s)) l s);;
      match idx with
      | Some i =>
          arr ← sets_of c;
          r ← lift (mjoin (arr !! i));
          store p (set_rr (Sets (<[i := Some (set_lent (Some ne) r)]> arr)))
      | None =>
          match rr c with
          | Neg _ t0 t1 => store p (set_rr (Neg (Some ne) t0 t1))
          | Sets _ => crash
          end
      end;;
      mret true.

(** ** Entries *)
Definition set_bytes (r : rr_set_t) : Z :=
  sizeof_rr_set_t + foldr (λ d n, sizeof_rr_bucket_t + zlen d + n) 0 (rrs r).

(** The memory that is freed. *)
Definition del_rrset (r : rr_set_t) : act Z :=
  match lent r with Some e => remove_rrl e | None => mret tt end;;
  mret (set_bytes r).

Definition del_cent_rrset_by_index (p : positive) (i : nat) : act Z :=
  c ← load p;
  arr ← rrarr c;
  match mjoin (arr !! i) with
  | Some r =>
      rv ← del_rrset r;
      store p (λ c, mkCent (qname c) (cs c - rv) (num_rrs c - 1) (clear (flags c) DF_AUTH)
                           (Sets (<[i := None]> arr)) (c_ns c) (c_soa c));;
      mret rv
  | None => mret 0
  end.

Definition init_cent (name : list Z) (t t0 f : Z) : act (option positive) :=
  namesz ← lift (rhnlen name);
  ok ← malloc;
  if negb ok then mret None
  else
    s ← get;
    let p := fresh (dom (cents s)) in
    let u := if has f DF_NEGATIVE then Neg None t t0 else Sets (replicate (Z.to_nat NRRMU) None) in
    modify (λ s, set_cents (<[p := mkCent (slice 0 namesz name) (sizeof_dns_cent_t + namesz) 0 f u cundef cundef]>
                              (cents s)) s);;
    mret (Some p).

Definition add_cent_rrset_by_index (p : positive) (idx t t0 f : Z) : act bool :=
  c ← load p;
  when (has (flags c) DF_NEGATIVE)
    (match rr c with
     | Neg e _ _ => match e with Some e => remove_rrl e | None => mret tt end
     | Sets _ => crash
     end;;
     store p (λ c, set_rr (Sets (replicate (Z.to_nat NRRMU) None)) (set_flags (clear (flags c) DF_NEGATIVE) c)));;
  c ← load p;
  arr ← sets_of c;
  room ←
    (if idx <? NRRMU then mret true
     else
       ASSERT (idx - NRRMU <? NRREXT);;
       if zlen arr =? NRRMU then
         ok ← malloc;
         when ok (store p (λ c, set_rr (Sets (arr ++ replicate (Z.to_nat NRREXT) None))
                                  (set_cs (cs c + sizeof_rrext) c)));;
         mret ok
       else mret true);
  if negb room then mret false
  else
    c ← load p;
    arr ← sets_of c;
    ok ← malloc;
    if (ok : bool) then
      store p (λ c, mkCent (qname c) (cs c + sizeof_rr_set_t) (num_rrs c + 1) (flags c)
                      (Sets (<[Z.to_nat idx := Some (mkSet None t t0 f [])]> arr)) (c_ns c) (c_soa c));;
      mret true
    else
      store p (set_rr (Sets (<[Z.to_nat idx := None]> arr)));;
      mret false.

Definition add_cent_rrset_by_type (p : positive) (type t t0 f : Z) : act bool :=
  let tpi := type - T_MIN in
  ASSERT ((tpi >=? 0) && (tpi <? T_NUM));;
  idx ← lift (rrlkuptab !! Z.to_nat tpi);
  add_cent_rrset_by_index p idx t t0 f.

(** [tail]: a record of the set is known, behind which the new one goes. *)
Definition add_cent_rr_int (p : positive) (idx t t0 f : Z) (data : list Z) (tail : bool) : act bool :=
  ok ← malloc;
  if negb ok then mret false
  else
    c ← load p;
    arr ← rrarr c;
    have ←
      (if tail then mret true
       else match mjoin (arr !! Z.to_nat idx) with
            | Some _ => mret true
            | None => add_cent_rrset_by_index p idx t t0 f
            end);
    if negb have then mret false
    else
      c ← load p;
      arr ← sets_of c;
      r ← lift (mjoin (arr !! Z.to_nat idx));
      let l := if tail then rrs r ++ [data] else data :: rrs r in
      store p (λ c, set_rr (Sets (<[Z.to_nat idx := Some (set_rrs l r)]> arr))
                      (set_cs (cs c + (sizeof_rr_bucket_t + zlen data)) c));;
      mret true.

Definition add_cent_rr (p : positive) (type t t0 f : Z) (data : list Z) : act bool :=
  c ← load p;
  if has (flags c) DF_LOCAL && negb (has f CF_LOCAL) then mret true
  else
    let tpi := type - T_MIN in
    ASSERT ((tpi >=? 0) && (tpi <? T_NUM));;
    idx ← lift (rrlkuptab !! Z.to_nat tpi);
    ASSERT (idx <? NRRTOT);;
    arr ← rrarr c;
    match mjoin (arr !! Z.to_nat idx) with
    | Some r =>
        when (t <? ttl r) (store p (set_rr (Sets (<[Z.to_nat idx := Some (set_ttl t r)]> arr))));;
        if bool_decide (data ∈ rrs r) then mret true
        else add_cent_rr_int p idx t t0 f data (match rrs r with [] => false | _ => true end)
    | None => add_cent_rr_int p idx t t0 f data false
    end.

(** Frees the sets; the memory they took. *)
Fixpoint del_rrsets (arr : list (option rr_set_t)) : act Z :=
  match arr with
  | [] => mret 0
  | None :: arr' => del_rrsets arr'
  | Some r :: arr' => n ← del_rrset r; n' ← del_rrsets arr'; mret (n + n')
  end.

Definition free_cent (p : positive) : act unit :=
  c ← load p;
  if has (flags c) DF_NEGATIVE then
    match rr c with
    | Neg e _ _ => match e with Some e => remove_rrl e | None => mret tt end
    | Sets _ => crash
    end
  else arr ← sets_of c; del_rrsets arr;; mret tt.

(** [free(cent)] *)
Definition free (p : positive) : act unit := modify (λ s, set_cents (delete p (cents s)) s).

Definition negate_cent (p : positive) (t t0 : Z) : act unit :=
  c ← load p;
  if negb (has (flags c) DF_NEGATIVE) then
    arr ← sets_of c;
    n ← del_rrsets arr;
    store p (λ c, mkCent (qname c) (cs c - n - (if zlen arr =? NRRMU then 0 else sizeof_rrext)) 0
                    (Z.lor (flags c) DF_NEGATIVE) (Neg None t t0) (c_ns c) (c_soa c))
  else
    match rr c with
    | Neg e _ _ => store p (set_rr (Neg e t t0))
    | Sets _ => crash
    end.

(** ** Copies *)

(** One allocation for each record. *)
Fixpoint copy_rrs (l : list (list Z)) : act (option (list (list Z))) :=
  match l with
  | [] => mret (Some [])
  | d :: l' =>
      ok ← malloc;
      if negb ok then mret None
      else r ← copy_rrs l'; mret (match r with Some l'' => Some (d :: l'') | None => None end)
  end.

Definition copy_rrset (r : rr_set_t) : act (option rr_set_t) :=
  ok ← malloc;
  if negb ok then mret None
  else l ← copy_rrs (rrs r);
       mret (match l with Some l => Some (mkSet None (ttl r) (ts r) (rflags r) l) | None => None end).

Fixpoint copy_sets (arr : list (option rr_set_t)) : act (option (list (option rr_set_t))) :=
  match arr with
  | [] => mret (Some [])
  | None :: arr' =>
      r ← copy_sets arr'; mret (match r with Some a => Some (None :: a) | None => None end)
  | Some x :: arr' =>
      y ← copy_rrset x;
      match y with
      | None => mret None
      | Some y => r ← copy_sets arr'; mret (match r with Some a => Some (Some y :: a) | None => None end)
      end
  end.

(** What a failed copy has allocated is freed again. *)
Definition copy_cent (p : positive) : act (option positive) :=
  c ← load p;
  ok1 ← malloc;
  if negb ok1 then mret None
  else
    namesz ← lift (rhnlen (qname c));
    ok2 ← malloc;
    if negb ok2 then mret None
    else
      u ← (if has (flags c) DF_NEGATIVE then
             match rr c with
             | Neg _ t t0 => mret (Some (Neg None t t0))
             | Sets _ => crash
             end
           else
             arr ← sets_of c;
             ext ← (if zlen arr =? NRRMU then mret true else malloc);
             if negb ext then mret None
             else r ← copy_sets arr; mret (Sets <$> r));
      match u with
      | None => mret None
      | Some u =>
          s ← get;
          let q := fresh (dom (cents s)) in
          modify (λ s, set_cents (<[q := mkCent (slice 0 namesz (qname c)) (cs c) (num_rrs c) (flags c) u (c_ns c) (c_soa c)]>
                                    (cents s)) s);;
          mret (Some q)
      end.

(** ** Deletion *)
Definition qn (s : cache) (p : positive) : option (list Z) := qname <$> cents s !! p.

Definition lookup (name : list Z) : act (option positive * L) :=
  s ← get;
  lift (nt_lookup (qn s) name (hash_buckets s)).

Definition del_cent (p : positive) : act unit :=
  c ← load p;
  modify (λ s, set_size (cache_size s - cs c) s);;
  free_cent p;;
  free p;;
  modify (λ s, set_ents (ent_num s - 1) s).

Definition del_cache_ent (p : positive) (loc : option L) : act unit :=
  s ← get;
  data ←
    (match loc with
     | Some l =>
         '(q, t) ← lift (nt_del_at l (hash_buckets s));
         modify (set_table t);;
         mret (Some q)
     | None =>
         c ← load p;
         '(q, t) ← lift (nt_del (qn s) (qname c) (hash_buckets s));
         modify (set_table t);;
         mret q
     end);
  match data with
  | None => emit NotFound
  | Some q => when (negb (bool_decide (q = p))) (emit Mismatch)
  end;;
  del_cent p.

Definition del_cache (name : list Z) : act unit :=
  s ← get;
  '(q, t) ← lift (nt_del (qn s) name (hash_buckets s));
  modify (set_table t);;
  match q with Some p => del_cent p | None => mret tt end.

(** [free_dns_hash]; [empty_cache] without a list of names does the same chain
    by chain. *)
Fixpoint del_cents (l : list positive) : act unit :=
  match l with [] => mret tt | p :: l' => del_cent p;; del_cents l' end.
Definition free_dns_hash : act unit :=
  s ← get;
  modify (set_table nt_empty);;
  del_cents (nt_entries (hash_buckets s)).

(** ** Purging *)
Definition purgeable (t : Z) (r : rr_set_t) : bool :=
  negb (has (rflags r) CF_NOPURGE || has (rflags r) CF_LOCAL) && timedout t r.

(** [cache_size -= del_cent_rrset_by_index(cent,i)] *)
Definition purge_at (p : positive) (i : nat) : act unit :=
  n ← del_cent_rrset_by_index p i;
  modify (λ s, set_size (cache_size s - n) s).

(** The source passes [test] too, which is 0 in its only call. *)
Definition purge_rrset (p : positive) (i : nat) : act bool :=
  s ← get;
  c ← load p;
  arr ← rrarr c;
  match mjoin (arr !! i) with
  | Some r =>
      if purgeable (now s) r then
        purge_at p i;;
        mret true
      else mret false
  | None => mret false
  end.

(** From index [i] on, [n] sets: the number of sets deleted, left, and left in
    the array of rarely used sets. *)
Fixpoint purge_loop (test : bool) (p : positive) (n i : nat) : act (Z * Z * Z) :=
  match n with
  | O => mret (0, 0, 0)
  | S n' =>
      s ← get;
      c ← load p;
      arr ← sets_of c;
      '(a, b, d) ←
        (match mjoin (arr !! i) with
         | Some r =>
             if purgeable (now s) r then
               when (negb test) (purge_at p i);;
               mret (1, 0, 0)
             else mret (0, 1, if Z.of_nat i >=? NRRMU then 1 else 0)
         | None => mret (0, 0, 0)
         end);
      '(a', b', d') ← purge_loop test p n' (S i);
      mret (a + a', b + b', d + d')
  end.

(** The number of items deleted and of sets left. *)
Definition purge_all_rrsets (p : positive) (test : bool) : act (Z * Z) :=
  c ← load p;
  if has (flags c) DF_NEGATIVE then mret (0, 0)
  else
    arr ← sets_of c;
    '(rv, numrrs, numrrext) ← purge_loop test p (length arr) 0;
    if negb (zlen arr =? NRRMU) && (numrrext =? 0) then
      when (negb test)
        (c ← load p;
         arr ← sets_of c;
         store p (λ c, set_rr (Sets (take (Z.to_nat NRRMU) arr)) (set_cs (cs c - sizeof_rrext) c));;
         modify (λ s, set_size (cache_size s - sizeof_rrext) s));;
      mret (rv + 1, numrrs)
    else mret (rv, numrrs).

(** Whether a reference to the NS ([idx] 1) or SOA ([idx] 3) records of a parent domain, or of
    the domain itself, is stale. *)
Definition stale (p : positive) (n : Z) (idx : nat) : act bool :=
  s ← get;
  c ← load p;
  scnt ← lift (rhnsegcnt (qname c));
  r ←
    (if n =? scnt then arr ← rrarr c; mret (mjoin (arr !! idx))
     else if n <? scnt then
       off ← lift (skipsegs (qname c) (Z.to_nat (scnt - n)) 0);
       '(q, _) ← lookup (drop (Z.to_nat off) (qname c));
       match q with
       | Some q => ce ← load q; arr ← rrarr ce; mret (mjoin (arr !! idx))
       | None => mret None
       end
     else mret None);
  mret (match r with
        | None => true
        | Some r => match rrs r with
                    | [] => true
                    | _ => negb (has (rflags r) CF_LOCAL) && timedout (now s) r
                    end
        end).

(** [-1] if the entry was deleted, else the number of items deleted. *)
Definition purge_cent (p : positive) (delete test : bool) : act Z :=
  '(npurge, numrrs) ← purge_all_rrsets p test;
  c ← load p;
  gone ←
    (if delete && (numrrs =? 0) then
       if negb (has (flags c) DF_NEGATIVE) then mret true
       else if negb (has (flags c) DF_LOCAL) then timedout_nxdom c
       else mret false
     else mret false);
  if (gone : bool) then
    when (negb test) (del_cache_ent p None);;
    mret (-1)
  else if has (flags c) DF_LOCAL then mret npurge
  else
    n1 ← (if c_ns c =? cundef then mret 0
          else
            b ← stale p (c_ns c) 1;
            when (b && negb test) (store p (set_cns cundef));;
            mret (if (b : bool) then 1 else 0));
    n2 ← (if c_soa c =? cundef then mret 0
          else
            b ← stale p (c_soa c) 3;
            when (b && negb test) (store p (set_csoa cundef));;
            mret (if (b : bool) then 1 else 0));
    mret (npurge + n1 + n2).

(** [le->next] *)
Fixpoint next_of (e : positive) (l : list positive) : option positive :=
  match l with
  | [] => None
  | x :: l' => if decide (x = e) then head l' else next_of e l'
  end.

(** Whether the set or the entry of an element is local. *)
Definition local_lent (le : rr_lent_t) : act bool :=
  c ← load (l_cent le);
  '(b : bool) ←
    (match l_idx le with
     | Some i => arr ← sets_of c; r ← lift (mjoin (arr !! i)); mret (has (rflags r) CF_LOCAL)
     | None => mret false
     end);
  mret (b || has (flags c) DF_LOCAL).

(** The first walk: what is timed out. *)
Definition purge_timedout (e : positive) : act unit :=
  s ← get;
  le ← lift (lents s !! e);
  loc ← local_lent le;
  when (negb loc)
    (match l_idx le with Some i => purge_rrset (l_cent le) i;; mret tt | None => mret tt end;;
     c ← load (l_cent le);
     when (num_rrs c =? 0)
       (gone ← (if negb (has (flags c) DF_NEGATIVE) then mret true
                else if negb (has (flags c) DF_LOCAL) then timedout_nxdom c
                else mret false);
        when gone (del_cache_ent (l_cent le) None))).

(** The second walk: everything that is not local, oldest first. *)
Definition purge_oldest (e : positive) : act unit :=
  s ← get;
  le ← lift (lents s !! e);
  loc ← local_lent le;
  when (negb loc)
    (match l_idx le with
     | Some i => purge_at (l_cent le) i
     | None => mret tt
     end;;
     c ← load (l_cent le);
     when (num_rrs c =? 0) (del_cache_ent (l_cent le) None)).

(** Walks the list as long as [go] holds, the next element being read before
    the step. *)
Fixpoint walk (fuel : nat) (go : cache → bool) (step : positive → act unit) (le : option positive) : act unit :=
  match le with
  | None => mret tt
  | Some e =>
      s ← get;
      if go s then
        _ ← lift (lents s !! e);
        let next := next_of e (rrset_l s) in
        step e;;
        match fuel with
        | O => crash
        | S fuel' => walk fuel' go step next
        end
      else mret tt
  end.

(** ** Sorting *)

(** Merges two sorted lists; [fuel] is the number of rounds. *)
Fixpoint listmerge (fuel : nat) (p q : list positive) : act (list positive) :=
  match p, q with
  | [], _ => mret q
  | _, [] => mret p
  | x :: p', y :: q' =>
      match fuel with
      | O => crash
      | S fuel' =>
          t ← get_rrlent_ts x;
          t' ← get_rrlent_ts y;
          if t <=? t' then l ← listmerge fuel' p' q; mret (x :: l)
          else l ← listmerge fuel' p q'; mret (y :: l)
      end
  end.

Definition merge (p q : list positive) : act (list positive) := listmerge (length p + length q) p q.

Definition NTMPSORT : nat := 32.

(** Adds a list to the array [tmp], of which [fill] slots are in use: slots
    that are taken are merged and emptied. *)
Fixpoint carry_into (tmp : list (list positive)) (carry : list positive) : act (list (list positive)) :=
  match tmp with
  | [] => mret [carry]
  | [] :: tmp' => mret (carry :: tmp')
  | l :: tmp' => carry ← merge l carry; tmp' ← carry_into tmp' carry; mret ([] :: tmp')
  end.

Fixpoint sort_loop (rem : list positive) (tmp : list (list positive)) : act (list (list positive)) :=
  match rem with
  | [] => mret tmp
  | e :: rem' =>
      tmp ← carry_into tmp [e];
      ASSERT (Nat.leb (length tmp) NTMPSORT);;
      sort_loop rem' tmp
  end.

Fixpoint merge_all (tmp : list (list positive)) (carry : list positive) : act (list positive) :=
  match tmp with
  | [] => mret carry
  | l :: tmp' => carry ← merge l carry; merge_all tmp' carry
  end.

Definition sort_rrl : act unit :=
  s ← get;
  match rrset_l s with
  | _ :: _ :: _ =>
      tmp ← sort_loop (rrset_l s) [];
      l ← merge_all (tail tmp) (default [] (head tmp));
      modify (λ s, set_list (lents s) l s)
  | _ => mret tt
  end.

Definition purge_cache (sz : Z) (lazy : bool) : act unit :=
  s ← get;
  walk (S (length (rrset_l s))) (λ s, negb lazy || (cache_size s >? sz)) purge_timedout (head (rrset_l s));;
  s ← get;
  if cache_size s <=? sz then mret tt
  else
    when (negb (insert_sort s)) (sort_rrl;; modify (set_sort true));;
    s ← get;
    walk (S (length (rrset_l s))) (λ s, cache_size s >? sz) purge_oldest (head (rrset_l s)).

(** ** Additions *)
Definition adjust_ttl (r : rr_set_t) : rr_set_t :=
  if has (rflags r) CF_NOCACHE then set_ttl 0 (set_rflags (clear (rflags r) CF_NOCACHE) r)
  else
    let mn := if has (rflags r) CF_NEGATIVE && (neg_ttl global <? min_ttl global) then neg_ttl global else min_ttl global in
    if ttl r <? mn then set_ttl mn r
    else if ttl r >? max_ttl global then set_ttl (max_ttl global) r
    else r.

Definition adjust_dom_ttl (c : dns_cent_t) : act dns_cent_t :=
  match rr c with
  | Neg e t t0 =>
      mret (if has (flags c) DF_NOCACHE then set_rr (Neg e 0 t0) (set_flags (clear (flags c) DF_NOCACHE) c)
            else
              let mn := if neg_ttl global <? min_ttl global then neg_ttl global else min_ttl global in
              if t <? mn then set_rr (Neg e mn t0) c
              else if t >? max_ttl global then set_rr (Neg e (max_ttl global) t0) c
              else c)
  | Sets _ => crash
  end.

(** Whether a type conflicts with another. *)
Definition conflict (a b : Z * Z) : bool := has a.1 b.2 || has a.2 b.1.

(** The sets that conflict with a new one: [None] if one is local, else their
    number and the sum of their times to live. *)
Fixpoint count_conflicts (t : Z) (rri : Z * Z) (arr : list (option rr_set_t)) (infos : list (Z * Z)) : option (Z * Z) :=
  match arr, infos with
  | x :: arr', i :: infos' =>
      match x with
      | Some r =>
          if negb (has (rflags r) CF_NEGATIVE) && conflict rri i then
            if has (rflags r) CF_LOCAL then None
            else
              '(n, sum) ← count_conflicts t rri arr' infos';
              let rttl := ttl r + ts r - t in
              Some (n + 1, (if rttl >? 0 then rttl else 0) + sum)
          else count_conflicts t rri arr' infos'
      | None => count_conflicts t rri arr' infos'
      end
  | _, _ => Some (0, 0)
  end.

(** Deletes the sets that conflict, [n] of them from index [i] on. *)
Fixpoint del_conflicts (p : positive) (rri : Z * Z) (n i : nat) : act unit :=
  match n with
  | O => mret tt
  | S n' =>
      c ← load p;
      arr ← rrarr c;
      info ← lift (rr_info !! i);
      match mjoin (arr !! i) with
      | Some r =>
          when (negb (has (rflags r) CF_NEGATIVE) && conflict rri info)
            (del_cent_rrset_by_index p i;; mret tt)
      | None => mret tt
      end;;
      del_conflicts p rri n' (S i)
  end.

Definition cr_check_add (p : positive) (i : nat) (t f : Z) : act bool :=
  if has f CF_NEGATIVE then mret true
  else
    s ← get;
    c ← load p;
    rri ← lift (rr_info !! i);
    arr ← rrarr c;
    '(verdict, nttl) ←
      (if has f CF_LOCAL then mret (None, 0)
       else if has (flags c) DF_LOCAL then mret (Some false, 0)
       else
         match count_conflicts (now s) rri arr rr_info with
         | None => mret (Some false, 0)
         | Some (n, sum) => if n =? 0 then mret (Some true, 0) else mret (None, Z.quot sum n)
         end);
    match verdict with
    | Some b => mret b
    | None =>
        if has f CF_LOCAL || (t >? nttl) then del_conflicts p rri (length arr) 0;; mret true
        else mret false
    end.

(** Puts the sets of a new entry into the list. *)
Fixpoint list_sets (p : positive) (n i : nat) : act bool :=
  match n with
  | O => mret true
  | S n' =>
      c ← load p;
      arr ← sets_of c;
      match mjoin (arr !! i) with
      | Some r =>
          store p (set_rr (Sets (<[i := Some (adjust_ttl r)]> arr)));;
          ok ← insert_rrl p (Some i);
          if negb ok then mret false else list_sets p n' (S i)
      | None => list_sets p n' (S i)
      end
  end.

(** The first branch of [add_cache]: an entry that is new. *)
Definition add_new (p : positive) (loc : L) : act bool :=
  q ← copy_cent p;
  match q with
  | None => emit OutOfMemory;; mret false
  | Some q =>
      c ← load q;
      listed ←
        (if negb (has (flags c) DF_NEGATIVE) then arr ← sets_of c; list_sets q (length arr) 0
         else
           c' ← adjust_dom_ttl c;
           store q (λ _, c');;
           insert_rrl q None);
      ok ← (if (listed : bool) then malloc else mret false);
      if (ok : bool) then
        s ← get;
        t ← lift (nt_add q loc (hash_buckets s));
        modify (set_table t);;
        modify (λ s, set_ents (ent_num s + 1) s);;
        c ← load q;
        modify (λ s, set_size (cache_size s + cs c) s);;
        mret true
      else
        free_cent q;;
        free q;;
        emit OutOfMemory;;
        mret false
  end.

Fixpoint add_rrs (q : positive) (idx : Z) (r : rr_set_t) (l : list (list Z)) (tail : bool) : act bool :=
  match l with
  | [] => mret true
  | d :: l' =>
      ok ← add_cent_rr_int q idx (ttl r) (ts r) (rflags r) d tail;
      if negb ok then mret false else add_rrs q idx r l' true
  end.

(** Whether a cached set has precedence over a new one. *)
Definition keep_old (t : Z) (new old : rr_set_t) : bool :=
  (negb (has (rflags new) CF_LOCAL) && has (rflags old) CF_LOCAL) ||
  (has (rflags new) CF_ADDITIONAL &&
   (negb (has (rflags old) CF_ADDITIONAL) || (negb (has (rflags new) CF_ROOTSERV) && has (rflags old) CF_ROOTSERV)) &&
   negb (timedout t old)).

(** One set [r] of the new entry into the cached entry [q]: [Some true] if it
    was added, [Some false] if it is not to be added, [None] out of memory. *)
Definition replace_set (q : positive) (i : nat) (r : rr_set_t) : act (option bool) :=
  s ← get;
  c ← load q;
  arr ← rrarr c;
  if match mjoin (arr !! i) with Some old => keep_old (now s) r old | None => false end then mret (Some false)
  else
    del_cent_rrset_by_index q i;;
    ok ← cr_check_add q i (ttl r) (rflags r);
    if negb ok then mret (Some false)
    else
      ok ← add_cent_rrset_by_index q (Z.of_nat i) (ttl r) (ts r) (rflags r);
      if negb ok then mret None
      else
        ok ← add_rrs q (Z.of_nat i) r (rrs r) false;
        ok ← (if (ok : bool) then
                c ← load q;
                arr ← sets_of c;
                x ← lift (mjoin (arr !! i));
                store q (set_rr (Sets (<[i := Some (adjust_ttl x)]> arr)));;
                insert_rrl q (Some i)
              else mret false);
        if (ok : bool) then mret (Some true)
        else del_cent_rrset_by_index q i;; mret None.

(** The sets of the new entry, from index [i] on. *)
Fixpoint merge_sets (q : positive) (new : list (option rr_set_t)) (i : nat) : act bool :=
  match new with
  | [] => mret true
  | None :: new' => merge_sets q new' (S i)
  | Some r :: new' =>
      res ← replace_set q i r;
      match res with None => mret false | Some _ => merge_sets q new' (S i) end
  end.

Definition merge_count (new old : Z) : Z :=
  if negb (new =? cundef) && ((old =? cundef) || (old <? new)) then new else old.

(** The second branch: the entry [q] is there. *)
Definition add_merge (p q : positive) : act bool :=
  purge_cent q false false;;
  c ← load q;
  modify (λ s, set_size (cache_size s - cs c) s);;
  n ← load p;
  arr ← rrarr n;
  ok ← merge_sets q arr 0;
  when ok
    (store q (λ c, mkCent (qname c) (cs c) (num_rrs c) (Z.lor (flags c) (Z.land (flags n) (Z.lor DF_AUTH DF_WILD)))
                     (rr c) (merge_count (c_ns n) (c_ns c)) (merge_count (c_soa n) (c_soa c))));;
  c ← load q;
  modify (λ s, set_size (cache_size s + cs c) s);;
  when (negb ok) (emit OutOfMemory);;
  mret ok.

Definition purge_limit : Z := perm_cache global * 1024 + MCSZ.

(** [goto retry] is taken at most once: the second time the entry is new. *)
Fixpoint add_cache_loop (fuel : nat) (p : positive) : act unit :=
  n ← load p;
  '(q, loc) ← lookup (qname n);
  match q with
  | None =>
      if (num_rrs n =? 0) && negb (has (flags n) DF_NEGATIVE) then purge_cache purge_limit true
      else ok ← add_new p loc; when ok (purge_cache purge_limit true)
  | Some q =>
      if has (flags n) DF_NEGATIVE then
        c ← load q;
        arr ← rrarr c;
        if existsb (λ x, match x with Some r => has (rflags r) CF_LOCAL | None => false end) arr then mret tt
        else
          del_cache_ent q (Some loc);;
          match fuel with O => crash | S fuel' => add_cache_loop fuel' p end
      else
        ok ← add_merge p q;
        when ok (purge_cache purge_limit true)
  end.

Definition add_cache (p : positive) : act unit := add_cache_loop 1 p.

(** ** Other operations *)
Definition invalidate_set (r : rr_set_t) : rr_set_t := set_rflags (clear (rflags r) CF_AUTH) (set_ts 0 r).

Definition invalidate_record (name : list Z) : act unit :=
  '(q, _) ← lookup name;
  match q with
  | None => mret tt
  | Some q =>
      c ← load q;
      (if negb (has (flags c) DF_NEGATIVE) then
         arr ← sets_of c;
         store q (set_rr (Sets (map (option_map invalidate_set) arr)))
       else
         match rr c with
         | Neg e t _ => store q (set_rr (Neg e t 0))
         | Sets _ => crash
         end);;
      store q (λ c, set_flags (clear (flags c) DF_AUTH) c)
  end.

Definition set_cent_flags (name : list Z) (f : Z) : act bool :=
  '(q, _) ← lookup name;
  match q with
  | None => mret false
  | Some q => store q (λ c, set_flags (Z.lor (flags c) f) c);; mret true
  end.

Definition w_wild : Z := 1.
Definition w_neg : Z := 2.
Definition w_locnerr : Z := 3.

(** The search up the name hierarchy, from offset [off] of the name on.  The
    buffer for the wildcard name is large enough. *)
Fixpoint find_wild (fuel : nat) (name : list Z) (off : Z) : act (option positive * Z) :=
  lb ← lift (rd name off);
  if lb =? 0 then mret (None, 0)
  else
    let off := off + (lb + 1) in
    lb ← lift (rd name off);
    if lb =? 0 then mret (None, 0)
    else
      '(q, _) ← lookup (drop (Z.to_nat off) name);
      match q with
      | Some q =>
          c ← load q;
          if has (flags c) DF_NEGATIVE then mret (Some q, w_neg)
          else if has (flags c) DF_WILD then
            '(n, nm) ← lift (rhncpy (drop (Z.to_nat off) name));
            ASSERT (2 + n <=? DNSNAMEBUFSIZE);;
            '(q, _) ← lookup ([1; 42] ++ nm);
            mret (q, match q with Some _ => w_wild | None => 0 end)
          else if has (flags c) DF_LOCAL then mret (Some q, w_locnerr)
          else mret (None, 0)
      | None => match fuel with O => crash | S fuel' => find_wild fuel' name off end
      end.

Definition find_entry (name : list Z) (wild : bool) : act (option positive * Z) :=
  '(q, _) ← lookup name;
  match q with
  | Some q => mret (Some q, 0)
  | None => if wild then find_wild (length name) name 0 else mret (None, 0)
  end.

(** The first part of [lookup_cache], under the lock for reading: the copy, or
    that something is to be deleted first. *)
Definition lookup_read (name : list Z) (wild : bool) : act (option positive * Z * bool) :=
  '(q, w) ← find_entry name wild;
  match q with
  | None => mret (None, w, false)
  | Some q =>
      n ← purge_cent q true true;
      if n =? 0 then r ← copy_cent q; mret (r, w, false) else mret (None, w, true)
  end.

(** The second part, under the lock for writing. *)
Definition lookup_write (name : list Z) (wild : bool) : act (option positive * Z) :=
  '(q, w) ← find_entry name wild;
  match q with
  | None => mret (None, w)
  | Some q =>
      n ← purge_cent q true false;
      if n <? 0 then mret (None, w) else r ← copy_cent q; mret (r, w)
  end.

Definition lookup_cache_local_rrset (name : list Z) (type : Z) : act (option rr_set_t) :=
  '(q, _) ← lookup name;
  match q with
  | None => mret None
  | Some q =>
      c ← load q;
      r ← getrrset c type;
      match r with
      | Some r => if has (rflags r) CF_LOCAL then copy_rrset r else mret None
      | None => mret None
      end
  end.

(** The offset in the name of the owner. *)
Fixpoint owner_from (fuel : nat) (name : list Z) (off type : Z) : act (option Z) :=
  lb ← lift (rd name off);
  if lb =? 0 then mret None
  else
    let off := off + (lb + 1) in
    lb ← lift (rd name off);
    if lb =? 0 then mret None
    else
      '(q, _) ← lookup (drop (Z.to_nat off) name);
      '(stop, r) ←
        (match q with
         | Some q =>
             c ← load q;
             if negb (has (flags c) DF_LOCAL) then mret (true, None)
             else b ← have_rr c type; mret (b, if (b : bool) then Some off else None)
         | None => mret (false, None)
         end);
      if (stop : bool) then mret r
      else match fuel with O => crash | S fuel' => owner_from fuel' name off type end.

Definition getlocalowner (name : list Z) (type : Z) : act (option Z) := owner_from (length name) name 0 type.

(** The cache at the start. *)
Definition init_cache (t : Z) (m : list bool) : cache := mkCache ∅ ∅ [] nt_empty 0 0 true m t.

End Cache.
End DnsCache.
