(* ===== verification/DnsCacheMem.v ===== *)
(** * Memory of the DNS cache

    The invariant of the memory that [DnsCache] works on, and what the
    operations on single entries do to it.  Every entry has the size and the
    number of sets that it says it has, and has its flag for a name that does
    not exist if and only if the union holds that case ([cent_ok]).  The list
    is without duplicates, and its elements and the sets that point to an
    element point to one another ([mem]). *)

From S2P Require Import Prelude DnsNames DnsHash DnsCache.
Import DnsNames DnsCache.

Module DnsCacheMem.

(** ** Flags *)
Lemma has_clear_ne f a b : Z.ldiff b a = b → has (clear f a) b = has f b.
Proof.
  intros H. unfold has, clear. do 2 f_equal. rewrite <-H at 1. apply Z.bits_inj'. intros n Hn.
  rewrite !Z.land_spec, !Z.ldiff_spec. rewrite <-H at 2. rewrite Z.ldiff_spec.
  destruct (Z.testbit f n), (Z.testbit a n), (Z.testbit b n); done.
Qed.
Lemma has_clear f a : has (clear f a) a = false.
Proof.
  unfold has, clear. apply negb_false_iff, Z.eqb_eq. apply Z.bits_inj'. intros n Hn.
  rewrite Z.land_spec, Z.ldiff_spec, Z.bits_0. by destruct (Z.testbit f n), (Z.testbit a n).
Qed.
Lemma has_lor f g b : has (Z.lor f g) b = has f b || has g b.
Proof.
  unfold has. rewrite <-negb_andb. f_equal. rewrite Z.land_lor_distr_l. apply eq_true_iff_eq.
  rewrite andb_true_iff, !Z.eqb_eq. apply Z.lor_eq_0_iff.
Qed.
Lemma has_land_ne f g b : Z.land g b = 0 → has (Z.land f g) b = false.
Proof. intros H. unfold has. by rewrite <-Z.land_assoc, H, Z.land_0_r. Qed.

(** ** Entries *)

(** The set with an index, and the element of the list that the set or, if the
    name does not exist, the entry has. *)
Definition set_at (c : dns_cent_t) (i : nat) : option rr_set_t :=
  match rr c with Sets arr => mjoin (arr !! i) | Neg _ _ _ => None end.
Definition lent_at (c : dns_cent_t) (i : option nat) : option positive :=
  match i, rr c with
  | None, Neg e _ _ => e
  | Some i, Sets arr => mjoin (arr !! i) ≫= lent
  | _, _ => None
  end.

Definition weight (f : rr_set_t → Z) (x : option rr_set_t) : Z := match x with Some r => f r | None => 0 end.
Fixpoint arr_sum (f : rr_set_t → Z) (arr : list (option rr_set_t)) : Z :=
  match arr with [] => 0 | x :: arr' => weight f x + arr_sum f arr' end.
Abbreviation arr_num := (arr_sum (λ _, 1)).
Abbreviation arr_bytes := (arr_sum set_bytes).

Definition ext_bytes (arr : list (option rr_set_t)) : Z := if zlen arr =? NRRMU then 0 else sizeof_rrext.

(** The case of the union, the number of sets and the size. *)
Definition shape_ok (c : dns_cent_t) : Prop :=
  match rr c with
  | Neg _ _ _ =>
      has (flags c) DF_NEGATIVE = true ∧ num_rrs c = 0 ∧ cs c = sizeof_dns_cent_t + zlen (qname c)
  | Sets arr =>
      has (flags c) DF_NEGATIVE = false ∧ (zlen arr = NRRMU ∨ zlen arr = NRRTOT) ∧ num_rrs c = arr_num arr ∧
      cs c = sizeof_dns_cent_t + zlen (qname c) + ext_bytes arr + arr_bytes arr
  end.

Record cent_ok (c : dns_cent_t) : Prop := mkCentOk {
  c_name : ∃ ls, qname c = wire ls ∧ name_ok ls;
  c_shape : shape_ok c;
  c_refs : 0 <= c_ns c ∧ 0 <= c_soa c
}.

Lemma arr_sum_app f a b : arr_sum f (a ++ b) = arr_sum f a + arr_sum f b.
Proof. induction a as [|x a IH]; cbn; [done|]. rewrite IH. lia. Qed.
Lemma arr_sum_insert f arr i x y : arr !! i = Some x → arr_sum f (<[i := y]> arr) = arr_sum f arr - weight f x + weight f y.
Proof.
  revert i. induction arr as [|z arr IH]; intros [|i] H; [done|done| |].
  - injection H as ->. cbn. lia.
  - change (<[S i := y]> (z :: arr)) with (z :: <[i := y]> arr). cbn [arr_sum]. rewrite (IH i H). lia.
Qed.
Lemma arr_sum_none f n : arr_sum f (replicate n None) = 0.
Proof. induction n as [|n IH]; cbn; lia. Qed.
Lemma arr_num_nonneg arr : 0 <= arr_num arr.
Proof. induction arr as [|[r|] arr IH]; cbn in *; lia. Qed.
Lemma arr_num_zero arr i r : arr_num arr = 0 → mjoin (arr !! i) ≠ Some r.
Proof.
  revert i. induction arr as [|[x|] arr IH]; intros i H; cbn in H; [done| |].
  - pose proof (arr_num_nonneg arr). lia.
  - destruct i as [|i]; [done|]. by apply IH.
Qed.
Lemma zlen_insert {A} (l : list A) i x : zlen (<[i := x]> l) = zlen l.
Proof. unfold zlen. by rewrite length_insert. Qed.

Lemma mjoin_some {A} (l : list (option A)) i x : mjoin (l !! i) = Some x ↔ l !! i = Some (Some x).
Proof. destruct (l !! i) as [[y|]|]; naive_solver. Qed.

Lemma elem_of_option_list {A} (o : option A) x : x ∈ option_list o ↔ o = Some x.
Proof. destruct o as [y|]; cbn; [|set_solver]. rewrite list_elem_of_singleton. naive_solver. Qed.

(** ** The state *)
Section Mem.
Context {T L : Type} `{!NameTable T L}.
Abbreviation st := (@cache T).
Implicit Types (s : st) (c : dns_cent_t) (p e : positive) (D : list positive).

Record mem (s : st) : Prop := mkMem {
  m_cents p c : cents s !! p = Some c → cent_ok c;
  m_nodup : NoDup (rrset_l s);
  m_list e : e ∈ rrset_l s ↔ is_Some (lents s !! e);
  m_lents e p i : lents s !! e = Some (mkLent p i) ↔ ∃ c, cents s !! p = Some c ∧ lent_at c i = Some e
}.

Definition upd (p : positive) (c : dns_cent_t) (s : st) : st := set_cents (<[p := c]> (cents s)) s.
(** Without some elements of the list. *)
Definition unlist (D : list positive) (s : st) : st :=
  set_list (filter (λ x, x.1 ∉ D) (lents s)) (filter (λ x, x ∉ D) (rrset_l s)) s.

(** Only the entry [p] and the list have changed, and the name has not. *)
Record only (p : positive) (s s' : st) : Prop := mkOnly {
  o_hash : hash_buckets s' = hash_buckets s;
  o_size : cache_size s' = cache_size s;
  o_ent : ent_num s' = ent_num s;
  o_sort : insert_sort s' = insert_sort s;
  o_now : now s' = now s;
  o_mallocs : mallocs s = [] → mallocs s' = [];
  o_others q : q ≠ p → cents s' !! q = cents s !! q;
  o_name : qname <$> cents s' !! p = qname <$> cents s !! p
}.

Lemma only_refl p s : only p s s.
Proof. by split. Qed.
Lemma only_trans p s1 s2 s3 : only p s1 s2 → only p s2 s3 → only p s1 s3.
Proof. intros [] []. split; try congruence; auto. intros q Hq. rewrite o_others1, o_others0; done. Qed.

Lemma only_upd p c c' D s : cents s !! p = Some c → qname c' = qname c → only p s (upd p c' (unlist D s)).
Proof.
  intros Hp Hn. split; try done; cbn.
  - intros q Hq. by rewrite lookup_insert_ne.
  - rewrite lookup_insert_eq, Hp. cbn. by rewrite Hn.
Qed.

Lemma lookup_unlist D s e le : lents (unlist D s) !! e = Some le ↔ lents s !! e = Some le ∧ e ∉ D.
Proof. cbn. by rewrite map_lookup_filter_Some. Qed.

Lemma elem_of_unlist D s e : e ∈ rrset_l (unlist D s) ↔ e ∈ rrset_l s ∧ e ∉ D.
Proof. cbn. rewrite list_elem_of_filter. naive_solver. Qed.

Lemma unlist_list D s : mem s → NoDup (rrset_l (unlist D s)) ∧
  ∀ e, e ∈ rrset_l (unlist D s) ↔ is_Some (lents (unlist D s) !! e).
Proof.
  intros H. split; [apply NoDup_filter, H|]. intros e. rewrite elem_of_unlist, (m_list _ H). split.
  - intros [[le Hle] He]. exists le. by apply lookup_unlist.
  - intros [le [Hle He]%lookup_unlist]. eauto.
Qed.

Lemma unlist_nil s : lents (unlist [] s) = lents s ∧ rrset_l (unlist [] s) = rrset_l s.
Proof.
  split; cbn.
  - apply map_filter_id. intros; apply not_elem_of_nil.
  - induction (rrset_l s) as [|x l IH]; [done|]. rewrite filter_cons_True by apply not_elem_of_nil. by rewrite IH.
Qed.
Lemma unlist_nil_eq s : unlist [] s = s.
Proof. destruct (unlist_nil s) as [E1 E2]. destruct s. cbn in *. unfold unlist, set_list. cbn. by rewrite E1, E2. Qed.

Lemma unlist_app D D' s : unlist D' (unlist D s) = unlist (D ++ D') s.
Proof.
  unfold unlist, set_list. cbn. f_equal.
  - rewrite map_filter_filter. apply map_filter_ext. intros e le _. cbn. rewrite not_elem_of_app. naive_solver.
  - rewrite list_filter_filter. apply list_filter_iff. intros e. rewrite not_elem_of_app. naive_solver.
Qed.

(** The invariant after an entry has changed and some of its elements of the list are gone. *)
Lemma mem_upd D s p c c' :
  mem s → cents s !! p = Some c → cent_ok c' →
  (∀ i e, lent_at c' i = Some e ↔ lent_at c i = Some e ∧ e ∉ D) →
  (∀ e, e ∈ D → ∃ i, lent_at c i = Some e) →
  mem (upd p c' (unlist D s)).
Proof.
  intros H Hp Hc' Hl HD. destruct (unlist_list D s H) as [H1 H2]. split; [|exact H1|exact H2|].
  - intros q cq. cbn. intros [[-> <-]|[_ Hq]]%lookup_insert_Some; [done|]. by eapply m_cents.
  - intros e q i. change (lents (upd p c' (unlist D s))) with (lents (unlist D s)).
    rewrite lookup_unlist, (m_lents _ H). cbn. destruct (decide (q = p)) as [-> | Hq].
    + rewrite lookup_insert_eq, Hp. naive_solver.
    + rewrite lookup_insert_ne by done. split; [naive_solver|]. intros (cq & Hcq & Hi). split; [eauto|].
      intros [j Hj]%HD. assert (lents s !! e = Some (mkLent p j)) as E1 by (apply (m_lents _ H); eauto).
      assert (lents s !! e = Some (mkLent q i)) as E2 by (apply (m_lents _ H); eauto). congruence.
Qed.

(** No element of the list changes. *)
Lemma mem_upd_same s p c c' :
  mem s → cents s !! p = Some c → cent_ok c' → (∀ i, lent_at c' i = lent_at c i) → mem (upd p c' s).
Proof.
  intros H Hp Hc' Hl. rewrite <-(unlist_nil_eq s). eapply mem_upd; [done|done|done| |].
  - intros i e. rewrite Hl. set_solver.
  - intros e He. by apply not_elem_of_nil in He.
Qed.

Lemma mem_free D s p c :
  mem s → cents s !! p = Some c → (∀ e, e ∈ D ↔ ∃ i, lent_at c i = Some e) →
  mem (set_cents (delete p (cents s)) (unlist D s)).
Proof.
  intros H Hp HD. destruct (unlist_list D s H) as [H1 H2]. split; [|exact H1|exact H2|].
  - intros q cq. cbn. intros [_ Hq]%lookup_delete_Some. by eapply m_cents.
  - intros e q i. change (lents (set_cents _ ?x)) with (lents x). rewrite lookup_unlist, (m_lents _ H), HD. cbn. split.
    + intros [(cq & Hcq & Hi) He]. exists cq. split; [|done]. apply lookup_delete_Some. split; [|done].
      intros <-. destruct He. rewrite Hp in Hcq. injection Hcq as <-. eauto.
    + intros (cq & [Hpq Hcq]%lookup_delete_Some & Hi). split; [eauto|]. intros [j Hj].
      assert (lents s !! e = Some (mkLent p j)) as E1 by (apply (m_lents _ H); eauto).
      assert (lents s !! e = Some (mkLent q i)) as E2 by (apply (m_lents _ H); eauto). congruence.
Qed.

Lemma mem_new s p c : mem s → cents s !! p = None → cent_ok c → (∀ i, lent_at c i = None) → mem (upd p c s).
Proof.
  intros H Hp Hc Hl. split; [|apply H|apply H|].
  - intros q cq. cbn. intros [[-> <-]|[_ Hq]]%lookup_insert_Some; [done|]. by eapply m_cents.
  - intros e q i. change (lents (upd p c s)) with (lents s). rewrite (m_lents _ H). cbn. split.
    + intros (cq & Hcq & Hi). exists cq. split; [|done]. rewrite lookup_insert_ne; [done|]. congruence.
    + intros (cq & [[-> <-]|[_ Hq]]%lookup_insert_Some & Hi); [|eauto]. by rewrite Hl in Hi.
Qed.

Lemma mem_insert s p c c' i ne l :
  mem s → cents s !! p = Some c → cent_ok c' → lents s !! ne = None → l ≡ₚ ne :: rrset_l s → lent_at c i = None →
  (∀ j e, lent_at c' j = Some e ↔ lent_at c j = Some e ∨ (j = i ∧ e = ne)) →
  mem (upd p c' (set_list (<[ne := mkLent p i]> (lents s)) l s)).
Proof.
  intros H Hp Hc' Hne Hl Hi Hj. split.
  - intros q cq. cbn. intros [[-> <-]|[_ Hq]]%lookup_insert_Some; [done|]. by eapply m_cents.
  - cbn. rewrite Hl. apply NoDup_cons. split; [|apply H]. rewrite (m_list _ H), Hne. by intros [].
  - intros e. cbn. rewrite Hl, elem_of_cons, (m_list _ H). destruct (decide (e = ne)) as [-> | He].
    + rewrite lookup_insert_eq. naive_solver.
    + rewrite lookup_insert_ne by done. naive_solver.
  - intros e q j. cbn. destruct (decide (e = ne)) as [-> | He].
    + rewrite lookup_insert_eq. split.
      * intros [= <- <-]. exists c'. rewrite lookup_insert_eq. split; [done|]. apply Hj. by right.
      * intros (cq & Hcq & Hlj). destruct (decide (q = p)) as [-> | Hq].
        -- rewrite lookup_insert_eq in Hcq. injection Hcq as <-. apply Hj in Hlj as [Hlj|[-> _]]; [|done].
           assert (lents s !! ne = Some (mkLent p j)) by (apply (m_lents _ H); eauto). congruence.
        -- rewrite lookup_insert_ne in Hcq by done.
           assert (lents s !! ne = Some (mkLent q j)) by (apply (m_lents _ H); eauto). congruence.
    + rewrite lookup_insert_ne by done. rewrite (m_lents _ H). destruct (decide (q = p)) as [-> | Hq].
      * rewrite lookup_insert_eq, Hp. naive_solver.
      * by rewrite lookup_insert_ne.
Qed.

Lemma mem_mallocs s l : mem s → mem (set_mallocs l s).
Proof. by intros []. Qed.
Lemma only_mallocs p s l : (mallocs s = [] → l = []) → only p s (set_mallocs l s).
Proof. by split. Qed.

(** Besides, elements of the list are at most gone. *)
Record edits (p : positive) (s s' : st) : Prop := mkEdits {
  e_only : only p s s';
  e_lents : lents s' ⊆ lents s
}.
Lemma edits_refl p s : edits p s s.
Proof. split; [apply only_refl|done]. Qed.
Lemma edits_trans p s1 s2 s3 : edits p s1 s2 → edits p s2 s3 → edits p s1 s3.
Proof. intros [] []. split; [by eapply only_trans|by etrans]. Qed.
Lemma edits_upd p c c' D s : cents s !! p = Some c → qname c' = qname c → edits p s (upd p c' (unlist D s)).
Proof. intros. split; [by eapply only_upd|]. apply map_filter_subseteq. Qed.
Lemma edits_mallocs p s l : (mallocs s = [] → l = []) → edits p s (set_mallocs l s).
Proof. by split; [apply only_mallocs|]. Qed.

(** ** Steps *)
Lemma runs_lift {A} (o : option A) a s (Q : A → st → list warning → Prop) : o = Some a → Q a s [] → runs (lift o) s Q.
Proof. by intros ->. Qed.
Lemma runs_load p c s (Q : dns_cent_t → st → list warning → Prop) : cents s !! p = Some c → Q c s [] → runs (load p) s Q.
Proof. intros H HQ. unfold load. apply runs_bind, runs_get. by eapply runs_lift. Qed.
Lemma runs_store p c f s (Q : unit → st → list warning → Prop) :
  cents s !! p = Some c → Q tt (upd p (f c) s) [] → runs (store p f) s Q.
Proof. intros H HQ. unfold store. apply runs_bind. eapply runs_load; [done|]. by apply runs_modify. Qed.
Lemma runs_malloc s (Q : bool → st → list warning → Prop) :
  (∀ b l, (mallocs s = [] → b = true ∧ l = []) → Q b (set_mallocs l s) []) → runs malloc s Q.
Proof.
  intros H. unfold runs, malloc. destruct (mallocs s) as [|b l] eqn:E; [|by apply H].
  assert (s = set_mallocs [] s) as E' by (destruct s; cbn in *; by subst). rewrite E' at 1. apply H. done.
Qed.
Lemma runs_sets_of c arr s (Q : _ → st → list warning → Prop) : rr c = Sets arr → Q arr s [] → runs (sets_of c) s Q.
Proof. intros H HQ. unfold sets_of. by rewrite H. Qed.

Lemma upd_upd p c c' s : upd p c' (upd p c s) = upd p c' s.
Proof. unfold upd, set_cents. cbn. by rewrite insert_insert_eq. Qed.
Lemma lookup_upd p c s : cents (upd p c s) !! p = Some c.
Proof. apply lookup_insert_eq. Qed.

(** What [RRARR_INDEX_TESTEXT] goes through. *)
Definition arr_of c : list (option rr_set_t) := match rr c with Sets arr => arr | Neg _ _ _ => [] end.

Lemma set_at_arr c i : set_at c i = mjoin (arr_of c !! i).
Proof. unfold set_at, arr_of. by destruct (rr c). Qed.

Lemma shape_neg c : cent_ok c → has (flags c) DF_NEGATIVE = match rr c with Neg _ _ _ => true | Sets _ => false end.
Proof. intros [_ H _]. unfold shape_ok in H. destruct (rr c); naive_solver. Qed.

Lemma runs_rrarr c s (Q : _ → st → list warning → Prop) : cent_ok c → Q (arr_of c) s [] → runs (rrarr c) s Q.
Proof. intros H HQ. unfold rrarr, arr_of, sets_of in *. rewrite (shape_neg _ H). by destruct (rr c). Qed.

Lemma runs_remove e le s (Q : unit → st → list warning → Prop) :
  lents s !! e = Some le → Q tt (unlist [e] s) [] → runs (remove_rrl e) s Q.
Proof.
  intros He HQ. unfold remove_rrl. apply runs_bind, runs_get, runs_bind. eapply runs_lift; [done|]. apply runs_modify.
  assert (unlist [e] s = set_list (delete e (lents s)) (filter (λ x, x ≠ e) (rrset_l s)) s) as <-; [|done].
  unfold unlist. f_equal.
  - apply map_eq. intros x. apply option_eq. intros y. rewrite map_lookup_filter_Some, lookup_delete_Some. set_solver.
  - apply list_filter_iff. set_solver.
Qed.

Definition opt_remove (o : option positive) : M st warning unit :=
  match o with Some e => remove_rrl e | None => mret tt end.

Lemma runs_opt_remove o s (Q : unit → st → list warning → Prop) :
  (∀ e, o = Some e → is_Some (lents s !! e)) → Q tt (unlist (option_list o) s) [] → runs (opt_remove o) s Q.
Proof.
  intros H HQ. destruct o as [e|]; cbn in *; [|rewrite unlist_nil_eq in HQ; done].
  destruct (H e eq_refl) as [le Hle]. by eapply runs_remove.
Qed.

Lemma mem_listed s p c i e : mem s → cents s !! p = Some c → lent_at c i = Some e → lents s !! e = Some (mkLent p i).
Proof. intros H Hp Hi. apply (m_lents _ H). eauto. Qed.

Lemma listed_inj s p c i j e : mem s → cents s !! p = Some c → lent_at c i = Some e → lent_at c j = Some e → i = j.
Proof. intros H Hp Hi Hj. apply (mem_listed s p) in Hi, Hj; [|done..]. congruence. Qed.

(** *** Deletion of a set *)
Definition drop_set (i : nat) (r : rr_set_t) c : dns_cent_t :=
  mkCent (qname c) (cs c - set_bytes r) (num_rrs c - 1) (clear (flags c) DF_AUTH) (Sets (<[i := None]> (arr_of c)))
    (c_ns c) (c_soa c).

Lemma lent_at_insert c c' i x j : (i < length (arr_of c))%nat → rr c' = Sets (<[i := x]> (arr_of c)) →
  lent_at c' j = if decide (j = Some i) then x ≫= lent else lent_at c j.
Proof.
  unfold lent_at, arr_of. intros Hi ->. destruct (rr c) as [e t t0|arr]; [cbn in Hi; lia|].
  destruct j as [j|]; [|done]. destruct (decide (i = j)) as [<- | Hj].
  - rewrite decide_True by done. by rewrite list_lookup_insert_eq.
  - rewrite list_lookup_insert_ne by done. by rewrite decide_False by congruence.
Qed.

Lemma set_at_insert c c' i x j : (i < length (arr_of c))%nat → rr c' = Sets (<[i := x]> (arr_of c)) →
  set_at c' j = if decide (j = i) then x else set_at c j.
Proof.
  rewrite !set_at_arr. intros Hi E. unfold arr_of at 1. rewrite E. destruct (decide (j = i)) as [-> | Hj].
  - by rewrite list_lookup_insert_eq.
  - by rewrite list_lookup_insert_ne.
Qed.

Lemma set_at_lookup c i r : set_at c i = Some r → arr_of c !! i = Some (Some r).
Proof. rewrite set_at_arr. apply mjoin_some. Qed.
Lemma set_at_lt c i r : set_at c i = Some r → (i < length (arr_of c))%nat.
Proof. intros H%set_at_lookup. by eapply lookup_lt_Some. Qed.
Lemma set_at_sets c i r : set_at c i = Some r → rr c = Sets (arr_of c).
Proof. unfold set_at, arr_of. by destruct (rr c). Qed.
Lemma lent_at_set c i r : set_at c i = Some r → lent_at c (Some i) = lent r.
Proof. unfold lent_at, set_at. destruct (rr c); [done|]. by intros ->. Qed.

Lemma cent_ok_drop c i r : cent_ok c → set_at c i = Some r → cent_ok (drop_set i r c).
Proof.
  intros [Hn Hs Hr] H. split; [done| |done]. unfold shape_ok, drop_set in *. cbn. pose proof (set_at_lookup _ _ _ H) as Hi.
  rewrite (set_at_sets _ _ _ H) in Hs. unfold ext_bytes in *. rewrite zlen_insert, !(arr_sum_insert _ _ _ _ _ Hi). cbn.
  destruct Hs as (H1 & H2 & -> & ->). split_and!; [|done|lia|lia]. rewrite has_clear_ne; done.
Qed.

Lemma del_rrset_runs s p c i r (Q : Z → st → list warning → Prop) :
  mem s → cents s !! p = Some c → set_at c i = Some r →
  Q (set_bytes r) (unlist (option_list (lent r)) s) [] → runs (del_rrset r) s Q.
Proof.
  intros H Hp Hr HQ. unfold del_rrset. apply runs_bind. apply runs_opt_remove; [|by apply runs_ret].
  intros e He. eexists. eapply mem_listed; [done|done|]. by erewrite lent_at_set.
Qed.

Lemma del_set_runs s p c i :
  mem s → cents s !! p = Some c →
  runs (del_cent_rrset_by_index p i) s (λ rv s' t, t = [] ∧ mem s' ∧
    match set_at c i with
    | Some r => rv = set_bytes r ∧ s' = upd p (drop_set i r c) (unlist (option_list (lent r)) s)
    | None => rv = 0 ∧ s' = s
    end).
Proof.
  intros H Hp. unfold del_cent_rrset_by_index. apply runs_bind. eapply runs_load; [done|].
  apply runs_bind, runs_rrarr; [by eapply m_cents|]. rewrite <-set_at_arr.
  destruct (set_at c i) as [r|] eqn:Hr; [|by apply runs_ret].
  apply runs_bind. eapply del_rrset_runs; [done|done|done|]. apply runs_bind. eapply runs_store; [done|].
  apply runs_ret. split_and!; [done| |done|done]. eapply mem_upd; [done|done|by apply cent_ok_drop; [eapply m_cents|]| |].
  - intros j e. erewrite lent_at_insert; [|by eapply set_at_lt|done]. case_decide as Ej; cbn.
    + subst j. rewrite (lent_at_set _ _ _ Hr). split; [done|]. intros [-> He]. set_solver.
    + split; [|naive_solver]. intros Hj. split; [done|]. intros He. apply elem_of_option_list in He. destruct Ej.
      eapply listed_inj; [done|done|done|]. by erewrite lent_at_set.
  - intros e He. apply elem_of_option_list in He. exists (Some i). by erewrite lent_at_set.
Qed.

(** *** All sets of an entry *)
Definition arr_lents (arr : list (option rr_set_t)) : list positive := omap (λ x, x ≫= lent) arr.
Definition all_lents c : list positive := match rr c with Neg e _ _ => option_list e | Sets arr => arr_lents arr end.

Lemma elem_of_arr_lents arr e : e ∈ arr_lents arr ↔ ∃ i, mjoin (arr !! i) ≫= lent = Some e.
Proof.
  unfold arr_lents. rewrite list_elem_of_omap. split.
  - intros (x & [i Hi]%list_elem_of_lookup & Hx). exists i. by rewrite Hi.
  - intros [i Hi]. destruct (arr !! i) as [x|] eqn:E; [|done]. exists x. split; [by eapply list_elem_of_lookup_2|done].
Qed.
Lemma elem_of_all_lents c e : e ∈ all_lents c ↔ ∃ i, lent_at c i = Some e.
Proof.
  unfold all_lents, lent_at. destruct (rr c) as [x t t0|arr].
  - rewrite elem_of_option_list. split; [by exists None|]. by intros [[i|] Hi].
  - rewrite elem_of_arr_lents. split; [intros [i Hi]; by exists (Some i)|]. intros [[i|] Hi]; [eauto|done].
Qed.

Lemma del_rrsets_runs arr s (Q : Z → st → list warning → Prop) :
  (∀ e, e ∈ arr_lents arr → is_Some (lents s !! e)) →
  (∀ i j e, mjoin (arr !! i) ≫= lent = Some e → mjoin (arr !! j) ≫= lent = Some e → i = j) →
  Q (arr_bytes arr) (unlist (arr_lents arr) s) [] → runs (del_rrsets arr) s Q.
Proof.
  revert s Q. induction arr as [|x arr IH]; intros s Q Hl Hi HQ; cbn [del_rrsets].
  { apply runs_ret. cbn in HQ. by rewrite unlist_nil_eq in HQ. }
  assert (Hi' : ∀ i j e, mjoin (arr !! i) ≫= lent = Some e → mjoin (arr !! j) ≫= lent = Some e → i = j).
  { intros i j e H1 H2. specialize (Hi (S i) (S j) e H1 H2). lia. }
  destruct x as [r|].
  2:{ apply IH; [|done|done]. intros e He. by apply Hl. }
  apply runs_bind. unfold del_rrset. apply runs_bind. apply runs_opt_remove.
  { intros e He. apply Hl. cbn. rewrite He. cbn. set_solver. }
  apply runs_ret, runs_bind. apply IH.
  - intros e He. destruct (Hl e) as [le Hle]. { cbn. destruct (lent r); cbn; set_solver. }
    exists le. apply lookup_unlist. split; [done|]. intros Hr%elem_of_option_list.
    apply elem_of_arr_lents in He as [i Hi0]. specialize (Hi 0%nat (S i) e Hr Hi0). lia.
  - done.
  - apply runs_ret. cbn [app]. rewrite unlist_app. cbn [arr_sum weight] in HQ.
    replace (option_list (lent r) ++ arr_lents arr) with (arr_lents (Some r :: arr)); [done|].
    unfold arr_lents. cbn. by destruct (lent r).
Qed.

Lemma arr_del_runs s p c arr (Q : Z → st → list warning → Prop) :
  mem s → cents s !! p = Some c → rr c = Sets arr →
  Q (arr_bytes arr) (unlist (all_lents c) s) [] → runs (del_rrsets arr) s Q.
Proof.
  intros H Hp Hr HQ. unfold all_lents in HQ. rewrite Hr in HQ. apply del_rrsets_runs; [| |done].
  - intros e He. assert (e ∈ all_lents c) as [i Hi]%elem_of_all_lents by (unfold all_lents; by rewrite Hr).
    eexists. by eapply mem_listed.
  - intros i j e Hi Hj. assert (Some i = Some j) as [= ->]; [|done].
    eapply listed_inj; [done|done| |]; unfold lent_at; rewrite Hr; done.
Qed.

Lemma free_cent_runs s p c (Q : unit → st → list warning → Prop) :
  mem s → cents s !! p = Some c → Q tt (unlist (all_lents c) s) [] → runs (free_cent p) s Q.
Proof.
  intros H Hp HQ. unfold free_cent. apply runs_bind. eapply runs_load; [done|].
  rewrite (shape_neg c) by by eapply m_cents. destruct (rr c) as [e t t0|arr] eqn:Hr.
  - apply runs_opt_remove; [|unfold all_lents in HQ; by rewrite Hr in HQ].
    intros x ->. eexists. eapply (mem_listed _ _ _ None); [done|done|]. unfold lent_at. by rewrite Hr.
  - apply runs_bind. eapply runs_sets_of; [done|]. apply runs_bind. eapply arr_del_runs; [done..|]. by apply runs_ret.
Qed.

(** The entry and its elements of the list are gone. *)
Definition without (p : positive) c s : st := set_cents (delete p (cents s)) (unlist (all_lents c) s).

Lemma mem_without p c s : mem s → cents s !! p = Some c → mem (without p c s).
Proof. intros H Hp. eapply mem_free; [done|done|]. apply elem_of_all_lents. Qed.

Lemma negate_cent_runs s p c t t0 :
  mem s → cents s !! p = Some c →
  runs (negate_cent p t t0) s (λ _ s' w, w = [] ∧ mem s' ∧ edits p s s').
Proof.
  intros H Hp. pose proof (m_cents _ H _ _ Hp) as Hc. unfold negate_cent. apply runs_bind. eapply runs_load; [done|].
  pose proof (c_shape _ Hc) as Hs. unfold shape_ok in Hs.
  rewrite (shape_neg c Hc). destruct (rr c) as [e t1 t2|arr] eqn:Hr; cbn [negb].
  - eapply runs_store; [done|]. split_and!; [done| |].
    + eapply mem_upd_same; [done|done| |].
      * destruct Hc as [Hn _ Hrf]. split; [done| |done]. exact Hs.
      * intros [i|]; unfold lent_at; cbn; by rewrite Hr.
    + rewrite <-(unlist_nil_eq s) at 2. by eapply edits_upd.
  - apply runs_bind. eapply runs_sets_of; [done|]. apply runs_bind. eapply arr_del_runs; [done..|].
    eapply runs_store; [done|]. split_and!; [done| |by eapply edits_upd]. eapply mem_upd; [done|done| | |].
    + destruct Hc as [Hn _ Hrf]. split; [done| |done]. unfold shape_ok. cbn. split_and!; [|done|].
      * rewrite has_lor. by rewrite orb_true_r.
      * unfold ext_bytes in Hs. lia.
    + intros i e. split; [by destruct i|]. intros [Hi He]. destruct He. apply elem_of_all_lents. eauto.
    + intros e He. by apply elem_of_all_lents.
Qed.

(** *** Addition of a set

    The flags but [DF_NEGATIVE] and the references to other names stay. *)
Record keeps c c' : Prop := mkKeeps {
  k_flags b : Z.ldiff b DF_NEGATIVE = b → has (flags c') b = has (flags c) b;
  k_refs : c_ns c' = c_ns c ∧ c_soa c' = c_soa c
}.
Lemma keeps_refl c : keeps c c.
Proof. by split. Qed.
Lemma keeps_trans c1 c2 c3 : keeps c1 c2 → keeps c2 c3 → keeps c1 c3.
Proof. intros [H1 [? ?]] [H2 [? ?]]. split; [|split; congruence]. intros b Hb. rewrite H2, H1; done. Qed.

Lemma set_at_none n i : mjoin (replicate n (@None rr_set_t) !! i) = None.
Proof. destruct (replicate n None !! i) as [x|] eqn:E; [|done]. apply lookup_replicate_1 in E as [-> _]. done. Qed.

Lemma arr_of_sets c arr : rr c = Sets arr → arr_of c = arr.
Proof. unfold arr_of. by intros ->. Qed.

(** An entry changes, the elements of the list that its sets have do not. *)
Lemma step_upd s p c c' : mem s → cents s !! p = Some c → cent_ok c' → qname c' = qname c →
  (∀ i, lent_at c' i = lent_at c i) → mem (upd p c' s) ∧ edits p s (upd p c' s).
Proof.
  intros H Hp Hc Hn Hl. split; [by eapply mem_upd_same|]. rewrite <-(unlist_nil_eq s) at 2. by eapply edits_upd.
Qed.

Lemma positive_runs s p c :
  mem s → cents s !! p = Some c →
  runs (when (has (flags c) DF_NEGATIVE)
    (match rr c with
     | Neg e _ _ => match e with Some e => remove_rrl e | None => mret tt end
     | Sets _ => crash
     end;;
     store p (λ c, set_rr (Sets (replicate (Z.to_nat NRRMU) None)) (set_flags (clear (flags c) DF_NEGATIVE) c)))) s
    (λ _ s' w, w = [] ∧ mem s' ∧ edits p s s' ∧ ∃ c', cents s' !! p = Some c' ∧ rr c' = Sets (arr_of c') ∧
      (∀ j, set_at c' j = set_at c j) ∧ keeps c c' ∧ (rr c = Sets (arr_of c) → zlen (arr_of c') = zlen (arr_of c))).
Proof.
  intros H Hp. pose proof (m_cents _ H _ _ Hp) as Hc. pose proof (c_shape _ Hc) as Hs. unfold shape_ok in Hs.
  unfold when. rewrite (shape_neg c Hc). destruct (rr c) as [e t1 t2|arr] eqn:Hr.
  - apply runs_bind. apply runs_opt_remove.
    { intros x ->. eexists. eapply (mem_listed _ _ _ None); [done|done|]. unfold lent_at. by rewrite Hr. }
    eapply runs_store; [done|]. split_and!; [done| |by eapply edits_upd|].
    + eapply mem_upd; [done|done| | |].
      * destruct Hc as [Hn _ Hrf]. split; [done| |done]. unfold shape_ok, ext_bytes. cbn [rr set_rr flags set_flags num_rrs cs qname].
        rewrite !arr_sum_none. split_and!; [apply has_clear|by left|lia|]. change (zlen _ =? NRRMU) with true. cbn. lia.
      * intros i x. rewrite elem_of_option_list. unfold lent_at. cbn. rewrite Hr. split; [|destruct i; naive_solver].
        destruct i as [i|]; [|done]. by rewrite set_at_none.
      * intros x ->%elem_of_option_list. exists None. unfold lent_at. by rewrite Hr.
    + eexists. split; [apply lookup_upd|]. split_and!; [done| | |].
      * intros j. unfold set_at. cbn. rewrite Hr. apply set_at_none.
      * split; [|done]. intros b Hb. cbn. by apply has_clear_ne.
      * done.
  - apply runs_ret. split_and!; [done|done|apply edits_refl|]. exists c. split_and!; [done| |done|apply keeps_refl|done].
    by rewrite (arr_of_sets _ _ Hr).
Qed.

Lemma zlen_lookup {A} (l : list A) i : 0 <= i < zlen l → ∃ x, l !! Z.to_nat i = Some x.
Proof. unfold zlen. intros. apply lookup_lt_is_Some_2. lia. Qed.

(** Space for a set with the index [idx]. *)
Lemma room_runs s p c idx :
  mem s → cents s !! p = Some c → rr c = Sets (arr_of c) → 0 <= idx < NRRTOT →
  runs (if idx <? NRRMU then mret true
        else
          ASSERT (idx - NRRMU <? NRREXT);;
          if zlen (arr_of c) =? NRRMU then
            ok ← malloc;
            when ok (store p (λ c', set_rr (Sets (arr_of c ++ replicate (Z.to_nat NRREXT) None))
                                     (set_cs (cs c' + sizeof_rrext) c')));;
            mret ok
          else mret true) s
    (λ b s' w, w = [] ∧ mem s' ∧ edits p s s' ∧ (mallocs s = [] → b = true) ∧
      ∃ c', cents s' !! p = Some c' ∧ rr c' = Sets (arr_of c') ∧
      (∀ j, set_at c' j = set_at c j) ∧ keeps c c' ∧ (b = true → idx < zlen (arr_of c')) ∧ (idx < NRRMU → zlen (arr_of c') = zlen (arr_of c))).
Proof.
  intros H Hp Hr Hidx. pose proof (m_cents _ H _ _ Hp) as Hc. pose proof (c_shape _ Hc) as Hs. unfold shape_ok in Hs.
  rewrite Hr in Hs. destruct Hs as (H1 & H2 & H3 & H4). unfold NRRMU, NRREXT, NRRTOT in Hidx, H2 |- *. case_if.
  { apply runs_ret. split_and!; [done|done|apply edits_refl|done|]. exists c. split_and!; [done..|apply keeps_refl|lia|done]. }
  apply runs_bind, runs_ASSERT; [by zdec|]. case_if.
  2:{ apply runs_ret. split_and!; [done|done|apply edits_refl|done|]. exists c. split_and!; [done..|apply keeps_refl|lia|done]. }
  apply runs_bind, runs_malloc. intros b l Hb. destruct b; cbn [when].
  2:{ apply runs_bind, runs_ret, runs_ret. split_and!; [done|by apply mem_mallocs|apply edits_mallocs; naive_solver|naive_solver|].
      exists c. by split_and!. }
  apply runs_bind. eapply runs_store; [exact Hp|]. apply runs_ret.
  set (c' := set_rr _ _). assert (Hl : ∀ i, lent_at c' i = lent_at c i).
  { intros [i|]; unfold lent_at; cbn; rewrite Hr; [|done]. rewrite lookup_app. destruct (arr_of c !! i) as [x|] eqn:E; [done|].
    by rewrite set_at_none. }
  destruct (step_upd (set_mallocs l s) p c c') as [Hm Ho]; [by apply mem_mallocs|done| |done|done|].
  - destruct Hc as [Hn _ Hrf]. split; [done| |done]. unfold shape_ok, ext_bytes in *. cbn. rewrite !arr_sum_app, !arr_sum_none.
    rewrite zlen_app. change (zlen (replicate _ None)) with 39. unfold NRRMU, NRRTOT, sizeof_rrext, NRREXT in *.
    rewrite Hif0 in *. split_and!; [done|lia|lia|]. rewrite H4. zdec. lia.
  - split_and!; [done|done| |done|].
    + eapply edits_trans; [|done]. apply edits_mallocs. naive_solver.
    + exists c'. split_and!; [apply lookup_upd|done| | | |lia].
      * intros j. unfold set_at. cbn. rewrite Hr. rewrite lookup_app. destruct (arr_of c !! j) as [x|]; [done|]. by rewrite set_at_none.
      * by split.
      * intros _. cbn. rewrite zlen_app. change (zlen (replicate _ None)) with 39. lia.
Qed.

Lemma decide_both {A} (j i : nat) (b : bool) (x y : A) :
  (if decide (j = i ∧ b = true) then x else y) = if b then if decide (j = i) then x else y else y.
Proof. destruct b; repeat case_decide; naive_solver. Qed.

Definition new_set t t0 f : rr_set_t := mkSet None t t0 f [].

Lemma set_bytes_new x t t0 f : set_bytes (mkSet x t t0 f []) = sizeof_rr_set_t.
Proof. done. Qed.

Lemma add_set_runs s p c idx t t0 f :
  mem s → cents s !! p = Some c → 0 <= idx < NRRTOT → set_at c (Z.to_nat idx) = None →
  runs (add_cent_rrset_by_index p idx t t0 f) s (λ b s' w, w = [] ∧ mem s' ∧ edits p s s' ∧ (mallocs s = [] → b = true) ∧
    ∃ c', cents s' !! p = Some c' ∧ keeps c c' ∧ rr c' = Sets (arr_of c') ∧
      (∀ j, set_at c' j = if decide (j = Z.to_nat idx ∧ b = true) then Some (new_set t t0 f) else set_at c j) ∧
      (rr c = Sets (arr_of c) → idx < NRRMU → zlen (arr_of c') = zlen (arr_of c))).
Proof.
  intros H Hp Hidx Hno. unfold add_cent_rrset_by_index. apply runs_bind. eapply runs_load; [done|]. apply runs_bind.
  eapply runs_mono; [by apply positive_runs|]. intros [] s1 w1 (-> & H1 & Ho1 & c1 & Hp1 & Hr1 & Hs1 & Hk1 & Hz1).
  apply runs_bind. eapply runs_load; [done|]. apply runs_bind. eapply runs_sets_of; [done|]. apply runs_bind.
  eapply runs_mono; [by apply room_runs|]. intros b s2 w2 (-> & H2 & Ho2 & Hb & c2 & Hp2 & Hr2 & Hs2 & Hk2 & Hl & Hz2).
  assert (Hz : rr c = Sets (arr_of c) → idx < NRRMU → zlen (arr_of c2) = zlen (arr_of c)) by (intros; rewrite Hz2, Hz1; done).
  pose proof (edits_trans _ _ _ _ Ho1 Ho2) as Ho. pose proof (keeps_trans _ _ _ Hk1 Hk2) as Hk.
  assert (Hm1 : mallocs s = [] → mallocs s1 = []) by apply (e_only _ _ _ Ho1).
  destruct b; cbn [negb].
  2:{ apply runs_ret. split_and!; [done..|naive_solver|]. exists c2. split_and!; [done..| |done]. intros j.
      by rewrite decide_both, Hs2. }
  apply runs_bind. eapply runs_load; [done|]. apply runs_bind. eapply runs_sets_of; [done|].
  apply runs_bind, runs_malloc. intros b l Hbl.
  destruct (zlen_lookup (arr_of c2) idx) as [x Hx]; [lia|].
  assert (x = None) as ->.
  { rewrite <-Hs1, <-Hs2, set_at_arr, Hx in Hno. by destruct x. }
  pose proof (m_cents _ H2 _ _ Hp2) as [Hn2 Hsh2 Hrf2]. unfold shape_ok in Hsh2. rewrite Hr2 in Hsh2.
  assert (Hlt : (Z.to_nat idx < length (arr_of c2))%nat) by by eapply lookup_lt_Some.
  assert (Hm2 : mem (set_mallocs l s2)) by by apply mem_mallocs.
  assert (Ho3 : edits p s (set_mallocs l s2)).
  { eapply edits_trans; [exact Ho|]. apply edits_mallocs. naive_solver. }
  assert (Hmal : mallocs s = [] → b = true). { intros E. apply Hbl. by apply (e_only _ _ _ Ho2), (e_only _ _ _ Ho1). }
  assert (Hle : ∀ (c3 : dns_cent_t) y, y ≫= lent = None → rr c3 = Sets (<[Z.to_nat idx := y]> (arr_of c2)) →
    ∀ i, lent_at c3 i = lent_at c2 i).
  { intros c3 y Hy E i. erewrite lent_at_insert by done. case_decide; [|done]. subst i. rewrite Hy. unfold lent_at.
    by rewrite Hr2, Hx. }
  destruct b; apply runs_bind; (eapply runs_store; [done|]); apply runs_ret.
  - match goal with |- context [upd p ?c _] => set (c3 := c) end.
    destruct (step_upd (set_mallocs l s2) p c2 c3) as [Hm3 Ho4]; [done|done| |done|by apply (Hle c3 (Some (new_set t t0 f)))|].
    + split; [done| |done]. unfold shape_ok, c3, ext_bytes in *. cbn. rewrite zlen_insert, !(arr_sum_insert _ _ _ _ _ Hx). cbn.
      rewrite set_bytes_new. destruct Hsh2 as (A1 & A2 & A3 & A4). split_and!; [done|done|lia|lia].
    + split_and!; [done|done|by eapply edits_trans|done|]. exists c3. split_and!; [apply lookup_upd| |done| |unfold arr_of at 1; cbn; by rewrite zlen_insert].
      * eapply keeps_trans; [exact Hk|]. by split.
      * intros j. erewrite set_at_insert by done. by rewrite decide_both, <-Hs1, <-Hs2.
  - match goal with |- context [upd p ?c _] => set (c3 := c) end.
    destruct (step_upd (set_mallocs l s2) p c2 c3) as [Hm3 Ho4]; [done|done| |done|by apply (Hle c3 None)|].
    + split; [done| |done]. unfold shape_ok, c3, ext_bytes in *. cbn. rewrite zlen_insert, !(arr_sum_insert _ _ _ _ _ Hx). cbn.
      destruct Hsh2 as (A1 & A2 & A3 & A4). split_and!; [done|done|lia|lia].
    + split_and!; [done|done|by eapply edits_trans|done|]. exists c3. split_and!; [apply lookup_upd| |done| |unfold arr_of at 1; cbn; by rewrite zlen_insert].
      * eapply keeps_trans; [exact Hk|]. by split.
      * intros j. erewrite set_at_insert by done. rewrite decide_both. case_decide; [|by rewrite Hs2]. by subst j.
Qed.

(** *** A set is changed *)
Definition put_set (i : nat) (r : rr_set_t) (n : Z) c : dns_cent_t :=
  set_rr (Sets (<[i := Some r]> (arr_of c))) (set_cs (cs c + n) c).

Lemma set_at_put i r' r n c j : set_at c i = Some r → set_at (put_set i r' n c) j = if decide (j = i) then Some r' else set_at c j.
Proof. intros H. by erewrite set_at_insert; [|by eapply set_at_lt|done]. Qed.

Lemma put_set_ok c i r r' n : cent_ok c → set_at c i = Some r → set_bytes r' = set_bytes r + n → cent_ok (put_set i r' n c).
Proof.
  intros [Hn Hs Hr] H Hb. split; [done| |done]. unfold shape_ok, put_set in *. cbn. pose proof (set_at_lookup _ _ _ H) as Hi.
  rewrite (set_at_sets _ _ _ H) in Hs. unfold ext_bytes in *. rewrite zlen_insert, !(arr_sum_insert _ _ _ _ _ Hi). cbn.
  rewrite Hb. destruct Hs as (H1 & H2 & -> & ->). split_and!; [done|done|lia|lia].
Qed.

Lemma put_set_step s p c i r r' n :
  mem s → cents s !! p = Some c → set_at c i = Some r → set_bytes r' = set_bytes r + n → lent r' = lent r →
  mem (upd p (put_set i r' n c) s) ∧ edits p s (upd p (put_set i r' n c) s).
Proof.
  intros H Hp Hi Hb Hl. apply (step_upd _ _ c); [done|done| |done|].
  - eapply put_set_ok; [by eapply m_cents|done|done].
  - intros j. erewrite lent_at_insert; [|by eapply set_at_lt|done]. case_decide; [|done]. subst j.
    by rewrite (lent_at_set _ _ _ Hi).
Qed.

Lemma set_cs_same c n : n = cs c → set_cs n c = c.
Proof. intros ->. by destruct c. Qed.
Lemma put_set_zero i r c : put_set i r 0 c = set_rr (Sets (<[i := Some r]> (arr_of c))) c.
Proof. unfold put_set. by rewrite set_cs_same by lia. Qed.

Lemma set_bytes_rrs l r : set_bytes (set_rrs l r) = sizeof_rr_set_t + foldr (λ d n, sizeof_rr_bucket_t + zlen d + n) 0 l.
Proof. done. Qed.
Lemma set_bytes_snoc r d : set_bytes (set_rrs (rrs r ++ [d]) r) = set_bytes r + (sizeof_rr_bucket_t + zlen d).
Proof.
  unfold set_bytes. cbn [rrs set_rrs]. rewrite foldr_app. cbn. generalize (rrs r). intros l.
  induction l as [|x l IH]; cbn; lia.
Qed.
Lemma set_bytes_cons r d : set_bytes (set_rrs (d :: rrs r) r) = set_bytes r + (sizeof_rr_bucket_t + zlen d).
Proof. unfold set_bytes. cbn. lia. Qed.

Definition with_rr (tail : bool) (d : list Z) (r : rr_set_t) : rr_set_t :=
  set_rrs (if tail then rrs r ++ [d] else d :: rrs r) r.
Lemma set_bytes_with tail r d : set_bytes (with_rr tail d r) = set_bytes r + (sizeof_rr_bucket_t + zlen d).
Proof. destruct tail; [apply set_bytes_snoc|apply set_bytes_cons]. Qed.

(** The end of [add_cent_rr_int]. *)
Lemma link_rr_runs s p c i r d (tail : bool) :
  mem s → cents s !! p = Some c → set_at c i = Some r →
  runs (c ← load p;
        arr ← sets_of c;
        r ← lift (mjoin (arr !! i));
        let l := if tail then rrs r ++ [d] else d :: rrs r in
        store p (λ c, set_rr (Sets (<[i := Some (set_rrs l r)]> arr)) (set_cs (cs c + (sizeof_rr_bucket_t + zlen d)) c));;
        mret true) s
    (λ b s' w, b = true ∧ w = [] ∧ mem s' ∧ edits p s s' ∧
      cents s' !! p = Some (put_set i (with_rr tail d r) (sizeof_rr_bucket_t + zlen d) c)).
Proof.
  intros H Hp Hi. apply runs_bind. eapply runs_load; [done|]. apply runs_bind. eapply runs_sets_of; [by eapply set_at_sets|].
  apply runs_bind. eapply runs_lift; [by rewrite <-set_at_arr|]. apply runs_bind. eapply runs_store; [done|]. apply runs_ret.
  destruct (put_set_step s p c i r (with_rr tail d r) (sizeof_rr_bucket_t + zlen d)) as [Hm Ho]; [done..| |by destruct tail|].
  - apply set_bytes_with.
  - split_and!; [done|done|done|done|apply lookup_upd].
Qed.

Lemma add_rr_int_runs s p c idx t t0 f d (tail : bool) :
  mem s → cents s !! p = Some c → 0 <= idx < NRRTOT → (tail = true → is_Some (set_at c (Z.to_nat idx))) →
  runs (add_cent_rr_int p idx t t0 f d tail) s (λ b s' w, w = [] ∧ mem s' ∧ edits p s s' ∧ (mallocs s = [] → b = true) ∧
    ∃ c', cents s' !! p = Some c' ∧ keeps c c' ∧
      (∀ j, set_at c' j =
        if decide (j = Z.to_nat idx ∧ b = true) then Some (with_rr tail d (default (new_set t t0 f) (set_at c j))) else set_at c j) ∧
      (is_Some (set_at c (Z.to_nat idx)) → zlen (arr_of c') = zlen (arr_of c))).
Proof.
  intros H Hp Hidx Ht. unfold add_cent_rr_int. apply runs_bind, runs_malloc. intros b l Hb.
  assert (Ho : edits p s (set_mallocs l s)) by (apply edits_mallocs; naive_solver).
  assert (Hm : mem (set_mallocs l s)) by by apply mem_mallocs. destruct b; cbn [negb].
  2:{ apply runs_ret. split_and!; [done..|naive_solver|]. exists c. split_and!; [done|apply keeps_refl| |done]. intros j.
      by rewrite decide_both. }
  apply runs_bind. eapply runs_load; [exact Hp|]. apply runs_bind, runs_rrarr; [by eapply m_cents|]. rewrite <-set_at_arr.
  apply runs_bind.
  assert (Hmal : mallocs s = [] → mallocs (set_mallocs l s) = []) by naive_solver.
  destruct (set_at c (Z.to_nat idx)) as [r|] eqn:Hi.
  - assert (∀ Q : bool → st → list warning → Prop, Q true (set_mallocs l s) [] → runs (if tail then mret true else mret true) (set_mallocs l s) Q) as Hr
      by (intros Q HQ; destruct tail; by apply runs_ret).
    apply Hr. cbn [negb]. eapply runs_mono; [exact (link_rr_runs (set_mallocs l s) p c _ _ d tail Hm Hp Hi)|].
    intros b s' w (-> & -> & H1 & H2 & H3). split_and!; [done|done|by eapply edits_trans|done|].
    eexists. split_and!; [done|by split| |unfold arr_of at 1; cbn; by rewrite zlen_insert]. intros j. rewrite (set_at_put _ _ _ _ _ _ Hi), decide_both.
    case_decide; [|done]. subst j. by rewrite Hi.
  - destruct tail; [by destruct (Ht eq_refl)|]. eapply runs_mono; [by eapply (add_set_runs _ _ c)|].
    intros b s1 w1 (-> & H1 & H2 & H3 & c1 & Hp1 & Hk1 & _ & Hs1 & _). destruct b; cbn [negb].
    2:{ apply runs_ret. split_and!; [done|done|by eapply edits_trans|naive_solver|]. exists c1. split_and!; [done..| |by intros []].
        intros j. by rewrite Hs1, !decide_both. }
    pose proof (Hs1 (Z.to_nat idx)) as Hi1. rewrite decide_both, decide_True in Hi1 by done.
    eapply runs_mono; [exact (link_rr_runs s1 p c1 _ _ d false H1 Hp1 Hi1)|].
    intros b s' w (-> & -> & H4 & H5 & H6). split_and!; [done|done|by do 2 (eapply edits_trans; [done|])|done|].
    eexists. split_and!; [done|eapply keeps_trans; [done|by split]| |by intros []]. intros j. rewrite (set_at_put _ _ _ _ _ _ Hi1), Hs1, !decide_both.
    destruct (decide (j = Z.to_nat idx)) as [-> | Hj]; [|done]. by rewrite Hi.
Qed.

Definition type_ok (type : Z) : Prop :=
  1 <= type <= T_NUM ∧ ∀ idx, rrlkuptab !! Z.to_nat (type - T_MIN) = Some idx → idx < NRRTOT.

Lemma type_index type : type_ok type → ∃ idx, rrlkuptab !! Z.to_nat (type - T_MIN) = Some idx ∧ 0 <= idx < NRRTOT.
Proof.
  intros [H1 H2]. unfold T_NUM in H1. destruct (lookup_lt_is_Some_2 rrlkuptab (Z.to_nat (type - T_MIN))) as [idx Hi].
  { cbn. unfold T_MIN. lia. }
  exists idx. split; [done|]. split; [|by apply H2].
  assert (Forall (λ x, 0 <= x) rrlkuptab) as HF by (unfold rrlkuptab; repeat constructor; lia).
  by eapply (Forall_lookup_1 _ _ _ _ HF).
Qed.

(** The records of other types stay; a record that is new to its set is appended. *)
Lemma add_cent_rr_spec s p c type t t0 f d idx :
  mem s → cents s !! p = Some c → type_ok type → rrlkuptab !! Z.to_nat (type - T_MIN) = Some idx →
  runs (add_cent_rr p type t t0 f d) s (λ b s' w, w = [] ∧ mem s' ∧ edits p s s' ∧ (mallocs s = [] → b = true) ∧
    ∃ c', cents s' !! p = Some c' ∧ keeps c c' ∧ (∀ j, j ≠ Z.to_nat idx → set_at c' j = set_at c j) ∧
      (b = true → has (flags c) DF_LOCAL = false → ∀ r, set_at c (Z.to_nat idx) = Some r → ttl r <= t → d ∉ rrs r →
        set_at c' (Z.to_nat idx) = Some (set_rrs (rrs r ++ [d]) r)) ∧
      (is_Some (set_at c (Z.to_nat idx)) → zlen (arr_of c') = zlen (arr_of c))).
Proof.
  intros H Hp Ht Hi. unfold add_cent_rr. apply runs_bind. eapply runs_load; [done|].
  destruct (has (flags c) DF_LOCAL && negb (has f CF_LOCAL)) eqn:Hloc.
  { apply runs_ret. split_and!; [done..|apply edits_refl|done|]. exists c. split_and!; [done|apply keeps_refl|done| |done].
    intros _ E. by rewrite E in Hloc. }
  destruct (type_index _ Ht) as (idx' & Hi' & Hidx). assert (idx' = idx) as -> by congruence. destruct Ht as [Ht _].
  apply runs_bind, runs_ASSERT. { unfold T_MIN, T_NUM in *. by zdec. }
  apply runs_bind. eapply runs_lift; [done|]. apply runs_bind, runs_ASSERT; [by zdec|].
  apply runs_bind, runs_rrarr; [by eapply m_cents|]. rewrite <-set_at_arr.
  destruct (set_at c (Z.to_nat idx)) as [r|] eqn:Hr.
  - apply runs_bind.
    assert (∃ s1 c1 r1, runs (when (t <? ttl r) (store p (set_rr (Sets (<[Z.to_nat idx := Some (set_ttl t r)]> (arr_of c)))))) s (λ _ s' w, s' = s1 ∧ w = []) ∧
      mem s1 ∧ edits p s s1 ∧ cents s1 !! p = Some c1 ∧ keeps c c1 ∧
      (∀ j, set_at c1 j = if decide (j = Z.to_nat idx) then Some r1 else set_at c j) ∧ (ttl r <= t → r1 = r) ∧ zlen (arr_of c1) = zlen (arr_of c)) as (s1 & c1 & r1 & Hrun & H1 & H2 & H3 & Hk & H4 & H5 & Hz1).
    { unfold when. case_if.
      - destruct (put_set_step s p c (Z.to_nat idx) r (set_ttl t r) 0) as [A B]; [done..|unfold set_bytes; cbn; lia|done|].
        eexists _, _, _. split_and!; [eapply runs_store; [done|]; rewrite <-put_set_zero; done|done|done|apply lookup_upd|by split| |lia|unfold arr_of at 1; cbn; by rewrite zlen_insert].
        intros j. by rewrite (set_at_put _ _ _ _ _ _ Hr).
      - eexists s, c, r. split_and!; [by apply runs_ret|done|apply edits_refl|done|apply keeps_refl| |done|done].
        intros j. case_decide; [by subst j|done]. }
    pose proof (H4 (Z.to_nat idx)) as Hr1. rewrite decide_True in Hr1 by done.
    eapply runs_mono; [exact Hrun|]. intros [] s' w [-> ->]. cbn [app]. case_bool_decide as Hd.
    { apply runs_ret. split_and!; [done..|]. exists c1. split_and!; [done|done| | |done].
      - intros j Hj. by rewrite H4, decide_False.
      - intros _ _ r0 [= <-] _ Hnd. done. }
    eapply runs_mono; [eapply (add_rr_int_runs _ _ c1); [done..|eauto]|]. intros b s' w (-> & H6 & H7 & H8 & c2 & Hc2 & Hk2 & Hs2 & Hz2).
    split_and!; [done..|by eapply edits_trans|by intros E; apply H8, (e_only _ _ _ H2)|].
    exists c2. split_and!; [done|by eapply keeps_trans| | |intros _; rewrite Hz2, Hz1; [done|by rewrite Hr1]].
    + intros j Hj. rewrite Hs2, decide_both. destruct b; [rewrite decide_False by done|]; by rewrite H4, decide_False.
    + intros -> _ r0 [= <-] Ht0 _. rewrite Hs2, decide_both, decide_True, Hr1, H5 by done. cbn. unfold with_rr. by destruct (rrs r).
  - eapply runs_mono; [by eapply add_rr_int_runs|]. intros b s' w (-> & H6 & H7 & H8 & c2 & Hc2 & Hk2 & Hs2 & Hz2). split_and!; [done..|].
    exists c2. split_and!; [done|done| |done|by intros []]. intros j Hj. rewrite Hs2, decide_both. destruct b; [by rewrite decide_False|done].
Qed.

Lemma add_cent_rr_runs s p c type t t0 f d :
  mem s → cents s !! p = Some c → type_ok type →
  runs (add_cent_rr p type t t0 f d) s (λ _ s' w, w = [] ∧ mem s' ∧ edits p s s').
Proof.
  intros H Hp Ht. destruct (type_index _ Ht) as (idx & Hi & _). eapply runs_mono; [by eapply add_cent_rr_spec|]. naive_solver.
Qed.

Lemma add_by_type_spec s p c type t t0 f idx :
  mem s → cents s !! p = Some c → type_ok type →
  rrlkuptab !! Z.to_nat (type - T_MIN) = Some idx → set_at c (Z.to_nat idx) = None →
  runs (add_cent_rrset_by_type p type t t0 f) s (λ b s' w, w = [] ∧ mem s' ∧ edits p s s' ∧ (mallocs s = [] → b = true) ∧
    ∃ c', cents s' !! p = Some c' ∧ keeps c c' ∧ rr c' = Sets (arr_of c') ∧
      (∀ j, set_at c' j = if decide (j = Z.to_nat idx ∧ b = true) then Some (new_set t t0 f) else set_at c j) ∧
      (rr c = Sets (arr_of c) → idx < NRRMU → zlen (arr_of c') = zlen (arr_of c))).
Proof.
  intros H Hp Ht Hi Hno. unfold add_cent_rrset_by_type. destruct (type_index _ Ht) as (idx' & Hi' & Hidx). assert (idx' = idx) as -> by congruence.
  destruct Ht as [Ht _]. apply runs_bind, runs_ASSERT. { unfold T_MIN, T_NUM in *. by zdec. }
  apply runs_bind. eapply runs_lift; [done|]. eapply runs_mono; [by apply (add_set_runs s p c)|]. done.
Qed.

Lemma add_by_type_runs s p c type t t0 f :
  mem s → cents s !! p = Some c → type_ok type →
  (∀ idx, rrlkuptab !! Z.to_nat (type - T_MIN) = Some idx → set_at c (Z.to_nat idx) = None) →
  runs (add_cent_rrset_by_type p type t t0 f) s (λ _ s' w, w = [] ∧ mem s' ∧ edits p s s').
Proof.
  intros H Hp Ht Hno. destruct (type_index _ Ht) as (idx & Hi & _). eapply runs_mono; [by eapply add_by_type_spec; eauto|]. naive_solver.
Qed.

(** *** Insertion into the list *)
Definition ts_at c (i : option nat) : Z :=
  match i, rr c with
  | Some i, _ => weight ts (set_at c i)
  | None, Neg _ _ t => t
  | None, Sets _ => 0
  end.
(** The time of an element of the list. *)
Definition age s (e : positive) : Z :=
  match lents s !! e with
  | Some le => match cents s !! l_cent le with Some c => ts_at c (l_idx le) | None => 0 end
  | None => 0
  end.

Lemma age_eq s p c i e : mem s → cents s !! p = Some c → lent_at c i = Some e → age s e = ts_at c i.
Proof. intros H Hp Hi. unfold age. rewrite (mem_listed _ _ _ _ _ H Hp Hi). cbn. by rewrite Hp. Qed.

Lemma listed_place s e : mem s → e ∈ rrset_l s → ∃ p i c, lents s !! e = Some (mkLent p i) ∧ cents s !! p = Some c ∧ lent_at c i = Some e.
Proof.
  intros H [[p i] Hl]%(m_list _ H). pose proof Hl as (c & Hc & Hi)%(m_lents _ H). naive_solver.
Qed.

Lemma lent_at_some c i e : lent_at c (Some i) = Some e → ∃ r, set_at c i = Some r ∧ lent r = Some e.
Proof. unfold lent_at, set_at. destruct (rr c) as [x t t0|arr]; [done|]. destruct (mjoin (arr !! i)); naive_solver. Qed.
Lemma lent_at_neg c e : lent_at c None = Some e → ∃ t t0, rr c = Neg (Some e) t t0.
Proof. unfold lent_at. destruct (rr c) as [x t t0|arr]; [|done]. intros ->. eauto. Qed.

Lemma get_ts_runs s e (Q : Z → st → list warning → Prop) :
  mem s → e ∈ rrset_l s → Q (age s e) s [] → runs (get_rrlent_ts e) s Q.
Proof.
  intros H He HQ. destruct (listed_place _ _ H He) as (p & i & c & Hl & Hc & Hi). rewrite (age_eq _ _ _ _ _ H Hc Hi) in HQ.
  unfold get_rrlent_ts. apply runs_bind, runs_get, runs_bind. eapply runs_lift; [done|]. apply runs_bind.
  eapply runs_load; [done|]. cbn. destruct i as [i|].
  - apply lent_at_some in Hi as (r & Hr & _). cbn in HQ. rewrite Hr in HQ. apply runs_bind.
    eapply runs_sets_of; [by eapply set_at_sets|]. apply runs_bind. eapply runs_lift; [by rewrite <-set_at_arr|]. by apply runs_ret.
  - apply lent_at_neg in Hi as (t & t0 & Hr). cbn in HQ. rewrite Hr in HQ. rewrite Hr. by apply runs_ret.
Qed.

Lemma insert_from_runs s t ne l acc :
  mem s → Forall (λ e, e ∈ rrset_l s) l →
  runs (insert_from t ne l acc) s (λ l' s' w, s' = s ∧ w = [] ∧ ∃ a b, l = a ++ b ∧ l' = reverse b ++ ne :: reverse a ++ acc ∧
    Forall (λ e, t < age s e) a ∧ ∀ e, head b = Some e → age s e <= t).
Proof.
  intros H Hl. revert acc. induction Hl as [|e l He Hl IH]; intros acc; cbn [insert_from].
  - apply runs_ret. split_and!; [done|done|]. exists [], []. by split_and!.
  - apply runs_bind. apply get_ts_runs; [done|done|]. case_if.
    + apply runs_ret. split_and!; [done|done|]. exists [], (e :: l). split_and!; [done..|]. intros x [= <-]. lia.
    + eapply runs_mono; [apply IH|]. intros l' s' w (-> & -> & a & b & -> & -> & Ha & Hb). split_and!; [done|done|].
      exists (e :: a), b. split_and!; [done| |constructor; [lia|done]|done]. rewrite reverse_cons, <-app_assoc. done.
Qed.

(** Whether the set or entry at a place is not to be listed. *)
Definition local_at c (i : option nat) : bool :=
  match i with
  | Some i => match set_at c i with Some r => has (rflags r) CF_LOCAL | None => false end
  | None => false
  end || has (flags c) DF_LOCAL.

(** There is something at the place, and it is not in the list. *)
Definition unlisted_at c (i : option nat) : Prop :=
  match i with
  | Some i => ∃ r, set_at c i = Some r ∧ lent r = None
  | None => ∃ t t0, rr c = Neg None t t0
  end.

Definition list_at (i : option nat) (ne : positive) c : dns_cent_t :=
  match i with
  | Some i => match set_at c i with Some r => put_set i (set_lent (Some ne) r) 0 c | None => c end
  | None => match rr c with Neg _ t t0 => set_rr (Neg (Some ne) t t0) c | Sets _ => c end
  end.

Lemma list_at_ok i ne c : cent_ok c → cent_ok (list_at i ne c).
Proof.
  intros Hc. unfold list_at. destruct i as [i|].
  - destruct (set_at c i) as [r|] eqn:Hr; [|done]. eapply put_set_ok; [done|done|]. unfold set_bytes. cbn. lia.
  - destruct (rr c) as [x t t0|arr] eqn:Hr; [|done]. destruct Hc as [Hn Hs Hrf]. split; [done| |done].
    unfold shape_ok in *. by rewrite Hr in Hs.
Qed.

Lemma list_at_lents i ne c j e : unlisted_at c i →
  lent_at (list_at i ne c) j = Some e ↔ lent_at c j = Some e ∨ (j = i ∧ e = ne).
Proof.
  intros Hu. unfold list_at. destruct i as [i|]; cbn in Hu.
  - destruct Hu as (r & Hr & Hl). rewrite Hr. erewrite lent_at_insert; [|by eapply set_at_lt|done]. case_decide as E; [|naive_solver].
    subst j. rewrite (lent_at_set _ _ _ Hr), Hl. cbn. naive_solver.
  - destruct Hu as (t & t0 & Hr). rewrite Hr. unfold lent_at. cbn. rewrite Hr. destruct j as [j|]; naive_solver.
Qed.

Lemma unlisted_none c i : unlisted_at c i → lent_at c i = None.
Proof. destruct i as [i|]; [intros (r & Hr & Hl)|intros (t & t0 & Hr)]; [by rewrite (lent_at_set _ _ _ Hr)|unfold lent_at; by rewrite Hr]. Qed.

Lemma qname_list_at i ne c : qname (list_at i ne c) = qname c.
Proof. unfold list_at. destruct i as [i|]; [by destruct (set_at c i)|by destruct (rr c)]. Qed.

(** The place of a new element: behind all that are not younger if the list is sorted. *)
Definition placed s (t : Z) (ne : positive) (l : list positive) : Prop :=
  ∃ a b, rrset_l s = a ++ b ∧ l = a ++ ne :: b ∧
    (insert_sort s = true → (∀ e, last a = Some e → age s e <= t) ∧ Forall (λ e, t < age s e) b).

Definition listed s p c (i : option nat) (ne : positive) l : st :=
  upd p (list_at i ne c) (set_list (<[ne := mkLent p i]> (lents s)) l s).

Lemma insert_rrl_runs s p c i :
  mem s → cents s !! p = Some c → unlisted_at c i →
  runs (insert_rrl p i) s (λ b s' w, w = [] ∧ mem s' ∧ only p s s' ∧ (mallocs s = [] → b = true) ∧
    if (local_at c i : bool) then b = true ∧ s' = s
    else ∃ l, if b then ∃ ne l', lents s !! ne = None ∧ placed s (ts_at c i) ne l' ∧ s' = set_mallocs l (listed s p c i ne l')
              else s' = set_mallocs l s).
Proof.
  intros H Hp Hu. pose proof (m_cents _ H _ _ Hp) as Hc. unfold insert_rrl. apply runs_bind. eapply runs_load; [done|].
  apply runs_bind.
  assert (∀ Q : Z * bool → st → list warning → Prop, Q (ts_at c i, match i with Some i => match set_at c i with Some r => has (rflags r) CF_LOCAL | None => false end | None => false end) s [] →
    runs (match i with
     | Some i => arr ← sets_of c; r ← lift (mjoin (arr !! i)); mret (ts r, has (rflags r) CF_LOCAL)
     | None => match rr c with Neg _ _ t => mret (t, false) | Sets _ => crash end
     end) s Q) as Hfirst.
  { intros Q HQ. destruct i as [i|]; cbn in Hu.
    - destruct Hu as (r & Hr & Hl). unfold ts_at in HQ. rewrite Hr in HQ. apply runs_bind. eapply runs_sets_of; [by eapply set_at_sets|].
      apply runs_bind. eapply runs_lift; [by rewrite <-set_at_arr|]. by apply runs_ret.
    - destruct Hu as (t & t0 & Hr). unfold ts_at in HQ. rewrite Hr in HQ. rewrite Hr. by apply runs_ret. }
  apply Hfirst. clear Hfirst. unfold local_at. case_if.
  { apply runs_ret. split_and!; [done|done|apply only_refl|done..]. }
  apply runs_bind, runs_malloc. intros b ml Hb. assert (Hm : mem (set_mallocs ml s)) by by apply mem_mallocs.
  assert (Ho : only p s (set_mallocs ml s)) by (apply only_mallocs; naive_solver). destruct b; cbn [negb].
  2:{ apply runs_ret. split_and!; [done..|naive_solver|]. by exists ml. }
  apply runs_bind, runs_get, runs_bind. cbn [lents set_mallocs insert_sort rrset_l]. set (ne := fresh (dom (lents s))).
  assert (lents s !! ne = None) as Hne by (apply not_elem_of_dom, is_fresh).
  assert (∀ Q : list positive → st → list warning → Prop, (∀ l', placed s (ts_at c i) ne l' → Q l' (set_mallocs ml s) []) →
    runs (if insert_sort s then insert_from (ts_at c i) ne (reverse (rrset_l s)) [] else mret (rrset_l s ++ [ne])) (set_mallocs ml s) Q) as Hins.
  { intros Q HQ. destruct (insert_sort s) eqn:Hsort.
    - eapply runs_mono; [apply insert_from_runs; [done|]|].
      { apply Forall_forall. intros e He. by rewrite elem_of_reverse in He. }
      intros l' s' w (-> & -> & a & b & E & -> & Ha & Hb'). apply HQ. exists (reverse b), (reverse a).
      split_and!; [by rewrite <-reverse_app, <-E, reverse_involutive|by rewrite app_nil_r|]. intros _. split.
      + intros e He. apply Hb'. rewrite <-He. by rewrite <-head_reverse, reverse_involutive.
      + by apply Forall_reverse.
    - apply runs_ret, HQ. exists (rrset_l s), []. rewrite app_nil_r. split_and!; [done..|]. by rewrite Hsort. }
  apply Hins. clear Hins. intros l' Hl'. apply runs_bind, runs_modify.
  assert (Hperm : l' ≡ₚ ne :: rrset_l s).
  { destruct Hl' as (a & b & -> & -> & _). by rewrite Permutation_middle. }
  assert (mem (listed s p c i ne l')) as Hml.
  { eapply mem_insert; [done|done|by apply list_at_ok|done|done|by apply unlisted_none|]. intros j e. by apply list_at_lents. }
  assert (only p s (listed s p c i ne l')) as Hol.
  { split; try done; cbn; [intros q Hq; by rewrite lookup_insert_ne|]. rewrite lookup_insert_eq, Hp. cbn. by rewrite qname_list_at. }
  apply runs_bind.
  assert (∀ Q : unit → st → list warning → Prop, Q tt (set_mallocs ml (listed s p c i ne l')) [] →
    runs (match i with
      | Some i => arr ← sets_of c; r ← lift (mjoin (arr !! i)); store p (set_rr (Sets (<[i := Some (set_lent (Some ne) r)]> arr)))
      | None => match rr c with Neg _ t0 t1 => store p (set_rr (Neg (Some ne) t0 t1)) | Sets _ => crash end
      end) (set_list (<[ne := mkLent p i]> (lents s)) l' (set_mallocs ml s)) Q) as Hst.
  { intros Q HQ. unfold listed, list_at in HQ. destruct i as [i|]; cbn in Hu.
    - destruct Hu as (r & Hr & Hl). rewrite Hr, put_set_zero in HQ. apply runs_bind. eapply runs_sets_of; [by eapply set_at_sets|].
      apply runs_bind. eapply runs_lift; [by rewrite <-set_at_arr|]. eapply runs_store; [exact Hp|]. exact HQ.
    - destruct Hu as (t & t0 & Hr). rewrite Hr in *. eapply runs_store; [exact Hp|]. exact HQ. }
  apply Hst, runs_ret. split_and!; [done|by apply mem_mallocs| |done|].
  - eapply only_trans; [exact Hol|]. apply only_mallocs. cbn. naive_solver.
  - exists ml, ne, l'. done.
Qed.

(** *** New entries and copies *)

(** A result that depends on allocations only. *)
Definition allocates {A} (m : M st warning (option A)) s (a : A) : Prop :=
  runs m s (λ r s' w, w = [] ∧ (∃ l, s' = set_mallocs l s) ∧ (mallocs s = [] → r = Some a ∧ mallocs s' = []) ∧
    (r = None ∨ r = Some a)).

Lemma allocates_ret {A} s (a : A) : allocates (mret (Some a)) s a.
Proof. apply runs_ret. split_and!; [done| |done|by right]. exists (mallocs s). by destruct s. Qed.

Lemma allocates_bind {A B} (m : M st warning (option A)) (k : option A → M st warning (option B)) s a b :
  allocates m s a → (∀ l, (mallocs s = [] → l = []) → allocates (k (Some a)) (set_mallocs l s) b) → (∀ s', k None s' = Some (None, s', [])) →
  allocates (m ≫= k) s b.
Proof.
  intros Hm Hk Hn. apply runs_bind. eapply runs_mono; [exact Hm|]. intros r s' w (-> & [l ->] & Hml & [-> | ->]); cbn in Hml.
  - unfold runs. rewrite Hn. split_and!; [done|eauto|naive_solver|by left].
  - eapply runs_mono; [apply Hk; naive_solver|]. intros r s' w (-> & [l' ->] & Hml' & Hr). cbn in *.
    split_and!; [done|by exists l'|naive_solver|done].
Qed.

Lemma allocates_malloc {B} (k : M st warning (option B)) s b :
  (∀ l, (mallocs s = [] → l = []) → allocates k (set_mallocs l s) b) →
  allocates (ok ← malloc; if negb ok then mret None else k) s b.
Proof.
  intros Hk. apply runs_bind, runs_malloc. intros [] l Hl; cbn [negb].
  - eapply runs_mono; [apply Hk; naive_solver|]. intros r s' w (-> & [l' ->] & Hml & Hr). cbn in *.
    split_and!; [done|by exists l'|naive_solver|done].
  - apply runs_ret. split_and!; [done|eauto|naive_solver|by left].
Qed.

Lemma copy_rrs_runs l s : allocates (copy_rrs l) s l.
Proof.
  revert s. induction l as [|d l IH]; intros s; cbn [copy_rrs]; [apply allocates_ret|].
  apply allocates_malloc. intros ml _. eapply allocates_bind; [apply IH| |done]. intros l' _. apply allocates_ret.
Qed.

Lemma copy_rrset_runs r s : allocates (copy_rrset r) s (set_lent None r).
Proof.
  unfold copy_rrset. apply allocates_malloc. intros ml _. eapply allocates_bind; [apply copy_rrs_runs| |done].
  intros l' _. apply allocates_ret.
Qed.

Definition unlisted_arr (arr : list (option rr_set_t)) : list (option rr_set_t) := option_map (set_lent None) <$> arr.

Lemma copy_sets_runs arr s : allocates (copy_sets arr) s (unlisted_arr arr).
Proof.
  revert s. induction arr as [|[x|] arr IH]; intros s; cbn [copy_sets]; [apply allocates_ret| |].
  - eapply allocates_bind; [apply copy_rrset_runs| |done]. intros l _. cbn beta iota.
    eapply allocates_bind; [apply IH| |done]. intros l' _. apply allocates_ret.
  - eapply allocates_bind; [apply IH| |done]. intros l' _. apply allocates_ret.
Qed.

(** The entry without places in the list. *)
Definition unlisted c : dns_cent_t :=
  set_rr (match rr c with Neg _ t t0 => Neg None t t0 | Sets arr => Sets (unlisted_arr arr) end) c.

Lemma lookup_unlisted_arr arr i : mjoin (unlisted_arr arr !! i) = set_lent None <$> mjoin (arr !! i).
Proof. unfold unlisted_arr. rewrite list_lookup_fmap. by destruct (arr !! i) as [[r|]|]. Qed.

Lemma set_at_unlisted c i : set_at (unlisted c) i = set_lent None <$> set_at c i.
Proof. unfold set_at, unlisted. cbn. destruct (rr c); [done|]. apply lookup_unlisted_arr. Qed.

Lemma lent_at_unlisted c i : lent_at (unlisted c) i = None.
Proof.
  unfold lent_at, unlisted. cbn. destruct (rr c) as [e t t0|arr], i as [i|]; [done..| |done].
  rewrite lookup_unlisted_arr. by destruct (mjoin (arr !! i)).
Qed.

Lemma arr_sum_unlisted f arr : (∀ r, f (set_lent None r) = f r) → arr_sum f (unlisted_arr arr) = arr_sum f arr.
Proof.
  intros Hf. induction arr as [|x arr IH]; [done|].
  change (unlisted_arr (x :: arr)) with (option_map (set_lent None) x :: unlisted_arr arr). cbn [arr_sum]. rewrite IH.
  destruct x as [r|]; cbn; [by rewrite Hf|done].
Qed.
Lemma zlen_unlisted arr : zlen (unlisted_arr arr) = zlen arr.
Proof. unfold zlen, unlisted_arr. by rewrite length_fmap. Qed.

Lemma unlisted_ok c : cent_ok c → cent_ok (unlisted c).
Proof.
  intros [Hn Hs Hr]. split; [done| |done]. unfold shape_ok, unlisted in *. cbn. destruct (rr c) as [e t t0|arr]; [done|].
  unfold ext_bytes in *. by rewrite zlen_unlisted, !arr_sum_unlisted.
Qed.

Lemma name_copy c : cent_ok c → rhnlen (qname c) = Some (zlen (qname c)).
Proof.
  intros [(ls & -> & Hls & _) _ _]. pose proof (rhnlen_wire ls [] Hls) as E. by rewrite app_nil_r in E.
Qed.

(** A new entry at an address that was free. *)
Record fresh_at (q : positive) c s s' : Prop := mkFresh {
  f_free : cents s !! q = None;
  f_state : ∃ l, s' = set_mallocs l (upd q c s)
}.

Lemma copy_cent_runs s p c :
  mem s → cents s !! p = Some c →
  runs (copy_cent p) s (λ r s' w, w = [] ∧ mem s' ∧ (mallocs s = [] → mallocs s' = [] ∧ r ≠ None) ∧
    match r with
    | Some q => fresh_at q (unlisted c) s s'
    | None => ∃ l, s' = set_mallocs l s
    end).
Proof.
  intros H Hp. pose proof (m_cents _ H _ _ Hp) as Hc. unfold copy_cent. apply runs_bind. eapply runs_load; [done|].
  apply runs_bind, runs_malloc. intros [] l1 Hl1; cbn [negb].
  2:{ apply runs_ret. split_and!; [done|by apply mem_mallocs|naive_solver|eauto]. }
  apply runs_bind. eapply runs_lift; [by apply name_copy|]. apply runs_bind, runs_malloc. intros [] l2 Hl2; cbn [negb].
  2:{ apply runs_ret. split_and!; [done|by do 2 apply mem_mallocs|naive_solver|by exists l2]. }
  change (set_mallocs l2 (set_mallocs l1 s)) with (set_mallocs l2 s). apply runs_bind.
  eapply (runs_mono _ _ (λ r s' w, w = [] ∧ (∃ l, s' = set_mallocs l (set_mallocs l2 s)) ∧
    (mallocs (set_mallocs l2 s) = [] → r = Some (rr (unlisted c)) ∧ mallocs s' = []) ∧ (r = None ∨ r = Some (rr (unlisted c))))).
  - rewrite (shape_neg c Hc). unfold unlisted. cbn [rr set_rr]. destruct (rr c) as [e t t0|arr] eqn:Hr; [apply allocates_ret|].
    apply runs_bind. eapply runs_sets_of; [done|].
    assert (∀ s1, allocates (r ← copy_sets arr; mret (Sets <$> r)) s1 (Sets (unlisted_arr arr))) as Hcp.
    { intros s1. eapply allocates_bind; [apply copy_sets_runs|intros l _; apply allocates_ret|done]. }
    destruct (zlen arr =? NRRMU).
    + apply runs_bind, runs_ret. apply Hcp.
    + apply allocates_malloc. intros l _. apply Hcp.
  - intros r s' w (-> & [l ->] & Hml & Hr). assert (Hms : mallocs s = [] → r = Some (rr (unlisted c)) ∧ l = []) by naive_solver.
    destruct Hr as [-> | ->]; [apply runs_ret; split_and!; [done|by do 2 apply mem_mallocs|naive_solver|by exists l]|].
    apply runs_bind, runs_get, runs_bind, runs_modify, runs_ret. cbn [cents set_mallocs]. set (q := fresh (dom (cents s))).
    assert (cents s !! q = None) as Hq by (apply not_elem_of_dom, is_fresh).
    assert (slice 0 (zlen (qname c)) (qname c) = qname c) as -> by apply slice_all.
    change (mkCent _ _ _ _ _ _ _) with (unlisted c). split_and!; [done| |naive_solver|].
    + apply (mem_mallocs (upd q (unlisted c) s)). apply mem_new; [done|done|by apply unlisted_ok|apply lent_at_unlisted].
    + split; [done|]. by exists l.
Qed.

Definition new_cent ls t t0 f : dns_cent_t :=
  mkCent (wire ls) (sizeof_dns_cent_t + zlen (wire ls)) 0 f
    (if has f DF_NEGATIVE then Neg None t t0 else Sets (replicate (Z.to_nat NRRMU) None)) cundef cundef.

Lemma init_cent_runs s ls t t0 f :
  mem s → name_ok ls →
  runs (init_cent (wire ls) t t0 f) s (λ r s' w, w = [] ∧ mem s' ∧ (mallocs s = [] → mallocs s' = [] ∧ r ≠ None) ∧
    match r with
    | Some p => fresh_at p (new_cent ls t t0 f) s s'
    | None => ∃ l, s' = set_mallocs l s
    end).
Proof.
  intros H Hls. unfold init_cent. pose proof (rhnlen_wire ls [] (proj1 Hls)) as E. rewrite app_nil_r in E.
  apply runs_bind. eapply runs_lift; [done|]. apply runs_bind, runs_malloc. intros [] l Hl; cbn [negb].
  2:{ apply runs_ret. split_and!; [done|by apply mem_mallocs|naive_solver|eauto]. }
  apply runs_bind, runs_get, runs_bind, runs_modify, runs_ret. cbn [cents set_mallocs]. set (q := fresh (dom (cents s))).
  assert (cents s !! q = None) as Hq by (apply not_elem_of_dom, is_fresh). rewrite slice_all.
  change (mkCent _ _ _ _ _ _ _) with (new_cent ls t t0 f). set (c0 := new_cent ls t t0 f).
  split_and!; [done| |naive_solver|].
  - apply (mem_mallocs (upd q c0 s)). apply mem_new; [done|done| |].
    + split; [by exists ls| |done]. unfold shape_ok, c0, new_cent. cbn [rr flags num_rrs cs qname].
      destruct (has f DF_NEGATIVE); [done|]. rewrite !arr_sum_none. unfold ext_bytes.
      change (zlen (replicate _ _)) with NRRMU. split_and!; [done|by left|done|]. zdec. lia.
    + intros i. unfold lent_at, c0, new_cent. cbn [rr]. destruct (has f DF_NEGATIVE), i as [i|]; [done..| |done]. by rewrite set_at_none.
  - split; [done|]. by exists l.
Qed.
End Mem.
End DnsCacheMem.
