(* ===== verification/DnsCacheSort.v ===== *)
(** * Sorting of the list of the DNS cache

    The merge sort of [sort_rrl]: the array [tmp] is a binary counter of sorted
    lists.  It delivers a sorted permutation of the list, and the array is long
    enough for fewer than [2^32] elements. *)

From stdpp Require Import sorting.
From S2P Require Import Prelude DnsNames DnsHash DnsCache DnsCacheMem.
Import DnsNames DnsCache DnsCacheMem.

Module DnsCacheSort.

Section Sort.
Context {T L : Type} `{!NameTable T L}.
Abbreviation st := (@cache T).
Context (s : st) (Hmem : mem s).

(** The lists that are sorted consist of elements of the list. *)
Abbreviation inside := (Forall (λ e, e ∈ rrset_l s)).
Definition older (a b : positive) : Prop := age s a <= age s b.
Definition in_order (l : list positive) : Prop := StronglySorted older l.

#[local] Instance older_trans : Transitive older.
Proof. intros a b c. unfold older. lia. Qed.

(** A function that reads only and delivers such a list. *)
Definition delivers (m : M st warning (list positive)) (l : list positive) : Prop :=
  runs m s (λ r s' w, s' = s ∧ w = [] ∧ r ≡ₚ l ∧ in_order r).

Lemma in_order_cons x l l' : in_order l → l ≡ₚ l' → Forall (older x) l' → in_order (x :: l).
Proof. intros Hl HP HF. constructor; [done|]. by rewrite HP. Qed.

Lemma older_all x l : in_order (x :: l) → ∀ y, older y x → Forall (older y) (x :: l).
Proof.
  intros H y Hy. apply StronglySorted_inv in H as [_ H]. constructor; [done|].
  eapply Forall_impl; [exact H|]. intros z Hz. by etrans.
Qed.

Lemma listmerge_ok fuel p q : (length p + length q <= fuel)%nat → inside p → inside q → in_order p → in_order q →
  delivers (listmerge fuel p q) (p ++ q).
Proof.
  revert p q. induction fuel as [|fuel IH]; intros p q Hf Hp Hq Sp Sq.
  { destruct p, q; cbn in Hf; [|lia..]. by apply runs_ret. }
  destruct p as [|x p]; [by apply runs_ret|]. destruct q as [|y q].
  { apply runs_ret. by rewrite app_nil_r. }
  cbn [listmerge]. inversion Hp; inversion Hq; subst. apply runs_bind, get_ts_runs; [done|done|].
  apply runs_bind, get_ts_runs; [done|done|]. case_if; apply runs_bind.
  - pose proof Sp as [Sp' _]%StronglySorted_inv. eapply runs_mono; [apply IH; cbn in *; by auto with lia|].
    intros r s' w (-> & -> & HP & Hr). apply runs_ret. split_and!; [done|done|by rewrite HP|].
    eapply in_order_cons; [done|done|]. apply Forall_app. split; [by apply StronglySorted_inv in Sp as [_ ?]|].
    by apply older_all.
  - pose proof Sq as [Sq' _]%StronglySorted_inv. eapply runs_mono; [apply IH; cbn in *; by auto with lia|].
    intros r s' w (-> & -> & HP & Hr). apply runs_ret. split_and!; [done|done|rewrite HP; by rewrite <-Permutation_middle|].
    eapply in_order_cons; [done|done|]. rewrite Forall_app. split; [|by apply StronglySorted_inv in Sq as [_ ?]].
    apply older_all; [done|]. unfold older. lia.
Qed.

Lemma merge_ok p q : inside p → inside q → in_order p → in_order q → delivers (merge p q) (p ++ q).
Proof. intros. by apply listmerge_ok. Qed.

(** The array: slot [i] is empty or a sorted list of [2^i] elements, from slot [n] on. *)
Definition slot_ok (n : nat) (l : list positive) : Prop :=
  l = [] ∨ (length l = 2 ^ n)%nat ∧ inside l ∧ in_order l.
Fixpoint slots_ok (n : nat) (tmp : list (list positive)) : Prop :=
  match tmp with [] => True | l :: tmp' => slot_ok n l ∧ slots_ok (S n) tmp' end.
(** The last slot is taken. *)
Definition full_end (tmp : list (list positive)) : Prop := last tmp ≠ Some [].

Lemma carry_into_ok n tmp carry : slots_ok n tmp → full_end tmp →
  (length carry = 2 ^ n)%nat → inside carry → in_order carry →
  runs (carry_into tmp carry) s (λ tmp' s' w, s' = s ∧ w = [] ∧ slots_ok n tmp' ∧ full_end tmp' ∧ tmp' ≠ [] ∧
    mjoin tmp' ≡ₚ mjoin tmp ++ carry).
Proof.
  revert n carry. induction tmp as [|l tmp IH]; intros n carry Hs He Hl Hi Ho.
  { apply runs_ret. split_and!; [done|done|cbn; split; [by right|done]| |done|cbn; by rewrite app_nil_r].
    unfold full_end. cbn. intros [= ->]. cbn in Hl. pose proof (Nat.pow_nonzero 2 n). lia. }
  destruct Hs as [Hl0 Hs]. destruct l as [|x l].
  { cbn [carry_into]. apply runs_ret. split_and!; [done|done|cbn; split; [by right|done]| |done|].
    - unfold full_end in *. destruct tmp; [|done]. by destruct He.
    - cbn. by rewrite (comm (++)). }
  destruct Hl0 as [?|(Hlen & Hin & Hord)]; [done|]. cbn [carry_into]. apply runs_bind.
  eapply runs_mono; [by apply merge_ok|]. intros r s' w (-> & -> & HP & Hr). apply runs_bind.
  eapply runs_mono; [apply (IH (S n))|].
  - done.
  - unfold full_end in *. destruct tmp as [|l' tmp]; [done|]. exact He.
  - rewrite HP, length_app, Hlen, Hl. cbn. lia.
  - rewrite HP. by apply Forall_app.
  - done.
  - intros tmp' s' w (-> & -> & H1 & H2 & H3 & H4). apply runs_ret. split_and!; [done|done|cbn; split; [by left|done]| |done|].
    + unfold full_end in *. by destruct tmp'.
    + cbn [mjoin list_join app]. rewrite H4, HP. cbn. rewrite (comm (++) (x :: l) carry) at 1. solve_Permutation.
Qed.

Lemma mjoin_last tmp n l : slots_ok n tmp → last tmp = Some l → l ≠ [] → (2 ^ (n + length tmp - 1) <= length (mjoin tmp))%nat.
Proof.
  revert n. induction tmp as [|x tmp IH]; intros n Hs Hl Hne; [done|]. destruct Hs as [Hx Hs]. destruct tmp as [|y tmp].
  - injection Hl as ->. destruct Hx as [?|(E & _)]; [done|]. cbn. rewrite app_nil_r, E.
    apply Nat.pow_le_mono_r; lia.
  - specialize (IH (S n) Hs Hl Hne). cbn [mjoin list_join]. rewrite length_app. cbn [length] in *.
    replace (n + S (S (length tmp)) - 1)%nat with (S n + S (length tmp) - 1)%nat by lia.
    change (length (y ++ mjoin tmp)) with (length (mjoin (y :: tmp))). lia.
Qed.

Lemma sort_loop_ok rem tmp : slots_ok 0 tmp → full_end tmp → inside rem → zlen (mjoin tmp ++ rem) < 2 ^ 32 →
  runs (sort_loop rem tmp) s (λ tmp' s' w, s' = s ∧ w = [] ∧ slots_ok 0 tmp' ∧ mjoin tmp' ≡ₚ mjoin tmp ++ rem).
Proof.
  intros Hs He Hr. revert tmp Hs He. induction Hr as [|e rem Hrm Hr IH]; intros tmp Hs He Hn; cbn [sort_loop].
  { apply runs_ret. by rewrite app_nil_r. }
  apply runs_bind. eapply runs_mono; [apply (carry_into_ok 0)|]; [done|done|done|by repeat constructor|by repeat constructor|].
  intros tmp' s' w (-> & -> & H1 & H2 & H3 & H4).
  assert (Hlen : length (mjoin tmp') = S (length (mjoin tmp))).
  { rewrite H4, length_app. cbn. lia. }
  apply runs_bind, runs_ASSERT.
  { apply Nat.leb_le. destruct (last tmp') as [l|] eqn:El; [|by apply last_None in El].
    assert (l ≠ []) by (intros ->; by destruct H2).
    pose proof (mjoin_last tmp' 0 l H1 El ltac:(done)) as Hb. unfold NTMPSORT. destruct (decide (length tmp' <= 32)%nat); [done|].
    assert (2 ^ 32 <= 2 ^ (0 + length tmp' - 1))%nat as Hp by (apply Nat.pow_le_mono_r; lia).
    assert (Z.of_nat (2 ^ 32) <= Z.of_nat (length (mjoin tmp'))) as Hz by (apply inj_le; etrans; [exact Hp|exact Hb]).
    rewrite Nat2Z.inj_pow in Hz. unfold zlen in Hn. rewrite length_app in Hn. cbn [length] in Hn.
    change (Z.of_nat 2 ^ Z.of_nat 32) with (2 ^ 32) in Hz. lia. }
  eapply runs_mono; [apply IH; [done|done|]|].
  - unfold zlen in *. rewrite length_app in *. cbn in Hn. lia.
  - intros tmp2 s' w (-> & -> & H5 & H6). split_and!; [done|done|done|]. rewrite H6, H4, <-app_assoc. done.
Qed.

Lemma merge_all_ok n tmp carry : slots_ok n tmp → inside carry → in_order carry →
  delivers (merge_all tmp carry) (mjoin tmp ++ carry).
Proof.
  revert n carry. induction tmp as [|l tmp IH]; intros n carry Hs Hi Ho; [by apply runs_ret|].
  destruct Hs as [Hl Hs]. cbn [merge_all]. apply runs_bind.
  assert (inside l ∧ in_order l) as [Hil Hol]. { destruct Hl as [-> |(_ & ? & ?)]; [by repeat constructor|done]. }
  eapply runs_mono; [by apply merge_ok|]. intros r s' w (-> & -> & HP & Hr).
  eapply runs_mono; [apply (IH (S n)); [done|rewrite HP; by apply Forall_app|done]|].
  intros r' s' w (-> & -> & HP' & Hr'). split_and!; [done|done| |done]. rewrite HP', HP. cbn.
  rewrite <-app_assoc. rewrite (app_assoc (mjoin tmp)), (comm (++) (mjoin tmp) l), <-app_assoc. done.
Qed.

Lemma sort_rrl_ok : zlen (rrset_l s) < 2 ^ 32 →
  runs sort_rrl s (λ _ s' w, w = [] ∧ ∃ l, s' = set_list (lents s) l s ∧ l ≡ₚ rrset_l s ∧ in_order l).
Proof.
  intros Hn. unfold sort_rrl. apply runs_bind, runs_get.
  assert (inside (rrset_l s)) as Hin by by apply Forall_forall.
  assert (s = set_list (lents s) (rrset_l s) s) as Es by by destruct s.
  revert Hn Hin Es. destruct (rrset_l s) as [|x [|y l]] eqn:El; intros Hn Hin Es.
  - apply runs_ret. split; [done|]. exists []. split_and!; [done..|constructor].
  - apply runs_ret. split; [done|]. exists [x]. split_and!; [done..|by repeat constructor].
  - apply runs_bind. eapply runs_mono; [apply sort_loop_ok; [done|done|by rewrite El|cbn; exact Hn]|].
    intros tmp s' w (-> & -> & H1 & H2). apply runs_bind.
    eapply runs_mono; [apply (merge_all_ok 1 (tail tmp))|].
    + destruct tmp; [done|]. apply H1.
    + destruct tmp as [|t tmp]; [constructor|]. destruct H1 as [[-> |(_ & ? & ?)] _]; [constructor|done].
    + destruct tmp as [|t tmp]; [constructor|]. destruct H1 as [[-> |(_ & ? & ?)] _]; [constructor|done].
    + intros r s' w (-> & -> & HP & Hr). apply runs_modify. split; [done|]. exists r. split_and!; [done| |done].
      rewrite HP. cbn in H2. rewrite <-H2. destruct tmp as [|t tmp]; [done|]. cbn. by rewrite (comm (++)).
Qed.

End Sort.
End DnsCacheSort.
