(* ===== verification/DnsCacheOk.v ===== *)
(** * Correctness of the DNS cache

    [inv]: the memory is as in [DnsCacheMem], the hash table is a map from
    names to entries, the size of the cache and the number of entries are those
    of the entries in the table, only these are in the list, and what of them
    is not in the list is local. *)

From S2P Require Import Prelude DnsNames DnsHash DnsCache DnsCacheMem DnsCacheSort.
Import DnsNames DnsCache DnsCacheMem DnsCacheSort.

Module DnsCacheOk.

(** ** Sizes *)
Definition cs_of (ce : gmap positive dns_cent_t) (p : positive) : Z :=
  match ce !! p with Some c => cs c | None => 0 end.
Definition total (ce : gmap positive dns_cent_t) (m : gmap key positive) : Z := map_fold (λ _ p n, cs_of ce p + n) 0 m.

Lemma total_insert ce m k p : m !! k = None → total ce (<[k := p]> m) = cs_of ce p + total ce m.
Proof. intros. unfold total. rewrite map_fold_insert_L; [done|lia|done]. Qed.
Lemma total_delete ce m k p : m !! k = Some p → total ce m = cs_of ce p + total ce (delete k m).
Proof. intros. unfold total. by rewrite (map_fold_delete_L _ _ k p m); [|lia|]. Qed.
Lemma total_ext ce ce' m : (∀ k p, m !! k = Some p → cs_of ce p = cs_of ce' p) → total ce m = total ce' m.
Proof.
  induction m as [|k p m Hk IH] using map_ind; intros H; [done|].
  rewrite !total_insert, (H k p), IH; [done| |by rewrite lookup_insert_eq|done..].
  intros k' p' Hk'. apply (H k'). rewrite lookup_insert_ne; [done|]. congruence.
Qed.

Section Ok.
Context {T L : Type} `{!NameTable T L} (global : globparm_t).
Abbreviation st := (@cache T).
Abbreviation names := (gmap key positive).
Implicit Types (s : st) (m : names) (c : dns_cent_t) (p q e : positive) (k : key).

(** What is not in the list is local. *)
Definition local_ok c : Prop := ∀ i, unlisted_at c i → local_at c i = true.

Record inv (s : st) (m : names) : Prop := mkInv {
  i_mem : mem s;
  i_table : nt_holds (qn s) (hash_buckets s) m;
  i_num : ent_num s = Z.of_nat (base.size m);
  i_size : cache_size s = total (cents s) m;
  i_listed e le : lents s !! e = Some le → ∃ k, m !! k = Some (l_cent le);
  i_local k p c : m !! k = Some p → cents s !! p = Some c → local_ok c
}.

Definition cached m p : Prop := ∃ k, m !! k = Some p.

Lemma inv_cent s m k p : inv s m → m !! k = Some p → ∃ c ls, cents s !! p = Some c ∧ qname c = wire ls ∧ name_ok ls ∧ k = fold_name ls ∧ cent_ok c.
Proof.
  intros H Hk. destruct (nt_name_of _ _ _ _ _ (i_table _ _ H) Hk) as (ls & Hq & Hls & ->). unfold qn in Hq.
  destruct (cents s !! p) as [c|] eqn:Hp; [|done]. injection Hq as Hq. exists c, ls. split_and!; [done..|].
  by eapply m_cents; [apply H|].
Qed.

Lemma inv_inj s m k k' p : inv s m → m !! k = Some p → m !! k' = Some p → k = k'.
Proof.
  intros H Hk Hk'. destruct (inv_cent _ _ _ _ H Hk) as (c & ls & Hc & Hq & Hls & -> & _).
  destruct (inv_cent _ _ _ _ H Hk') as (c' & ls' & Hc' & Hq' & Hls' & -> & _).
  assert (c = c') as <- by congruence. rewrite Hq in Hq'. apply DnsHash.wire_inj in Hq'; [by subst|apply Hls|apply Hls'].
Qed.

(** One entry of the table has changed. *)
Lemma inv_change s m k q c c' s' :
  inv s m → m !! k = Some q → cents s !! q = Some c →
  only q (set_size (cache_size s') s) s' → cache_size s' = cache_size s - cs c + cs c' →
  mem s' → cents s' !! q = Some c' → local_ok c' → inv s' m.
Proof.
  intros H Hk Hq Ho Hsz Hm Hq' Hl. split; [done| | | | |].
  - rewrite (o_hash _ _ _ Ho). cbn. eapply nt_names; [apply H|]. intros k' p' _. unfold qn.
    destruct (decide (p' = q)) as [-> | Hne]; [by apply (o_name _ _ _ Ho)|by rewrite (o_others _ _ _ Ho)].
  - rewrite (o_ent _ _ _ Ho). apply H.
  - rewrite Hsz, (i_size _ _ H), !(total_delete _ _ _ _ Hk). unfold cs_of. rewrite Hq, Hq'.
    rewrite (total_ext (cents s') (cents s)); [lia|]. intros k' p' [Hne Hk']%lookup_delete_Some. unfold cs_of.
    rewrite (o_others _ _ _ Ho); [done|]. intros ->. by destruct Hne, (inv_inj _ _ _ _ _ H Hk Hk').
  - intros e [p i] He. cbn. destruct (decide (p = q)) as [-> | Hne]; [eauto|].
    apply (m_lents _ Hm) in He as (cp & Hp & Hi). rewrite (o_others _ _ _ Ho) in Hp by done. cbn in Hp.
    assert (lents s !! e = Some (mkLent p i)) as He by (eapply mem_listed; [apply H|done|done]).
    by apply (i_listed _ _ H) in He.
  - intros k' p cp Hk' Hp. destruct (decide (p = q)) as [-> | Hne]; [by assert (cp = c') as -> by congruence|].
    rewrite (o_others _ _ _ Ho) in Hp by done. by eapply i_local.
Qed.

(** An entry that is not in the table has changed. *)
Lemma inv_user s m p s' : inv s m → ¬ cached m p → edits p s s' → mem s' → inv s' m.
Proof.
  intros H Hu [Ho Hl] Hm. assert (Hne : ∀ k q, m !! k = Some q → q ≠ p) by (intros k q Hk ->; apply Hu; by exists k).
  split; [done| | | | |].
  - rewrite (o_hash _ _ _ Ho). eapply nt_names; [apply H|]. intros k q Hk. unfold qn. by rewrite (o_others _ _ _ Ho) by by eapply Hne.
  - rewrite (o_ent _ _ _ Ho). apply H.
  - rewrite (o_size _ _ _ Ho), (i_size _ _ H). apply total_ext. intros k q Hk. unfold cs_of. by rewrite (o_others _ _ _ Ho) by by eapply Hne.
  - intros e le He. apply (i_listed _ _ H e). by eapply lookup_weaken.
  - intros k q c Hk Hq. rewrite (o_others _ _ _ Ho) in Hq by by eapply Hne. by eapply i_local.
Qed.

Lemma inv_new s m p c s' : inv s m → fresh_at p c s s' → mem s' → inv s' m ∧ ¬ cached m p.
Proof.
  intros H [Hp [l ->]] Hm.
  assert (Hne : ∀ k q, m !! k = Some q → q ≠ p).
  { intros k q Hk ->. destruct (inv_cent _ _ _ _ H Hk) as (cq & ls & Hq & _). congruence. }
  split; [|by intros [k Hk]; apply (Hne k p)]. split; [done| | | | |]; cbn.
  - eapply nt_names; [apply H|]. intros k q Hk. unfold qn. cbn. rewrite lookup_insert_ne; [done|]. by apply not_eq_sym, (Hne k).
  - apply H.
  - rewrite (i_size _ _ H). apply total_ext. intros k q Hk. unfold cs_of. cbn. rewrite lookup_insert_ne; [done|]. by apply not_eq_sym, (Hne k).
  - apply H.
  - intros k q cq Hk. rewrite lookup_insert_ne by by apply not_eq_sym, (Hne k). intros Hq. by eapply i_local.
Qed.

Lemma inv_mallocs s m l : inv s m → inv (set_mallocs l s) m.
Proof. intros []. split; [by apply mem_mallocs|done..]. Qed.

(** An entry is gone. *)
Lemma without_others p c s q : q ≠ p → cents (without p c s) !! q = cents s !! q.
Proof. intros. cbn. by rewrite lookup_delete_ne. Qed.

Lemma without_lents p c s e le : mem s → cents s !! p = Some c → lents (without p c s) !! e = Some le → lents s !! e = Some le ∧ l_cent le ≠ p.
Proof.
  intros H Hp He. change (lents (without p c s)) with (lents (unlist (all_lents c) s)) in He. apply lookup_unlist in He as [He Hn].
  split; [done|]. intros E. destruct le as [p' i]. cbn in E. subst p'. apply Hn, elem_of_all_lents. exists i.
  apply (m_lents _ H) in He as (c' & Hc & Hi). congruence.
Qed.

Lemma inv_free s m p c : inv s m → cents s !! p = Some c → ¬ cached m p → inv (without p c s) m.
Proof.
  intros H Hp Hu. assert (Hne : ∀ k q, m !! k = Some q → q ≠ p) by (intros k q Hk ->; apply Hu; by exists k).
  split; [by apply mem_without; [apply H|]| |apply H| | |].
  - eapply nt_names; [apply H|]. intros k q Hk. unfold qn. by rewrite without_others by by eapply Hne.
  - cbn. rewrite (i_size _ _ H). apply total_ext. intros k q Hk. unfold cs_of. by rewrite lookup_delete_ne by by apply not_eq_sym, (Hne k).
  - intros e le He. apply (i_listed _ _ H e). by eapply without_lents; [apply H| |].
  - intros k q cq Hk. rewrite without_others by by eapply Hne. intros Hq. by eapply i_local.
Qed.

Lemma inv_delete s m k p c t :
  inv s m → m !! k = Some p → cents s !! p = Some c → nt_holds (qn s) t (delete k m) →
  inv (set_ents (ent_num s - 1) (set_size (cache_size s - cs c) (set_table t (without p c s)))) (delete k m).
Proof.
  intros H Hk Hp Ht.
  assert (Hne : ∀ k' q, delete k m !! k' = Some q → m !! k' = Some q ∧ q ≠ p).
  { intros k' q [Hn Hk']%lookup_delete_Some. split; [done|]. intros ->. by apply Hn, (inv_inj _ _ _ _ _ H Hk Hk'). }
  pose proof (mem_without p c s (i_mem _ _ H) Hp) as Hm.
  split; [by destruct Hm| | | | |].
  - cbn. eapply nt_names; [exact Ht|]. intros k' q [Hk' Hq]%Hne. unfold qn. cbn. by rewrite lookup_delete_ne.
  - cbn. rewrite (i_num _ _ H). rewrite (map_size_delete_Some k m); [|eauto]. 
    assert (base.size m ≠ 0%nat) by (intros E%map_size_empty_inv; subst; by rewrite lookup_empty in Hk). lia.
  - cbn. rewrite (i_size _ _ H), (total_delete _ _ _ _ Hk). unfold cs_of at 1. rewrite Hp.
    rewrite (total_ext (delete p (cents s)) (cents s)); [lia|]. intros k' q [Hk' Hq]%Hne. unfold cs_of. by rewrite lookup_delete_ne.
  - intros e le He. destruct (without_lents p c s e le (i_mem _ _ H) Hp He) as [He' Hn].
    apply (i_listed _ _ H e) in He' as [k' Hk']. exists k'. cbn. rewrite lookup_delete_ne; [done|]. intros <-. congruence.
  - intros k' q cq [Hk' Hq]%Hne. cbn. rewrite lookup_delete_ne by done. by eapply i_local.
Qed.

(** ** Steps of the cache

    [spares]: the local sets of entries are as before.  [P] is what that
    depends on.  The entries of callers do not change. *)
Definition spares s m s' m' : Prop := ∀ k p c i r,
  m !! k = Some p → cents s !! p = Some c → set_at c i = Some r → has (rflags r) CF_LOCAL = true →
  m' !! k = Some p ∧ ∃ c', cents s' !! p = Some c' ∧ set_at c' i = Some r.

Record step_ok (P : Prop) s m s' m' : Prop := mkStep {
  s_inv : inv s' m';
  s_spares : P → spares s m s' m';
  s_users p c : cents s !! p = Some c → ¬ cached m p → cents s' !! p = Some c ∧ ¬ cached m' p;
  s_now : now s' = now s
}.

Lemma step_refl P s m : inv s m → step_ok P s m s m.
Proof. intros H. split; [done| |done|done]. intros _ k p c i r Hk Hp Hi _. eauto. Qed.

Lemma step_trans P s1 m1 s2 m2 s3 m3 : step_ok P s1 m1 s2 m2 → step_ok P s2 m2 s3 m3 → step_ok P s1 m1 s3 m3.
Proof.
  intros [H1 S1 U1 N1] [H2 S2 U2 N2]. split; [done| | |congruence].
  - intros HP k p c i r Hk Hp Hi Hl. destruct (S1 HP _ _ _ _ _ Hk Hp Hi Hl) as (Hk2 & c2 & Hp2 & Hi2). by eapply S2.
  - intros p c Hp Hu. destruct (U1 _ _ Hp Hu). by eapply U2.
Qed.

Lemma step_any P s m s' m' : step_ok True s m s' m' → step_ok P s m s' m'.
Proof. intros []. split; auto. Qed.

Lemma step_mallocs P s m s' m' l : step_ok P s m s' m' → step_ok P s m (set_mallocs l s') m'.
Proof. intros [H S U N]. split; [by apply inv_mallocs|done..]. Qed.

(** One entry of the table changes, local sets in it do not. *)
Lemma step_change (P : Prop) s m k q c c' s' :
  inv s m → m !! k = Some q → cents s !! q = Some c →
  only q (set_size (cache_size s') s) s' → cache_size s' = cache_size s - cs c + cs c' →
  mem s' → cents s' !! q = Some c' → local_ok c' →
  (P → ∀ i r, set_at c i = Some r → has (rflags r) CF_LOCAL = true → set_at c' i = Some r) →
  step_ok P s m s' m.
Proof.
  intros H Hk Hq Ho Hsz Hm Hq' Hl Hs. split; [by eapply inv_change| | |by rewrite (o_now _ _ _ Ho)].
  - intros HP k' p cp i r Hk' Hp Hi Hloc. split; [done|]. destruct (decide (p = q)) as [-> | Hne].
    + exists c'. split; [done|]. apply Hs; [done| |done]. congruence.
    + exists cp. rewrite (o_others _ _ _ Ho) by done. done.
  - intros p cp Hp Hu. rewrite (o_others _ _ _ Ho); [done|]. intros ->. apply Hu. by exists k.
Qed.

Lemma only_size z q s s' : only q s s' → only q (set_size z s) (set_size z s').
Proof. intros []. by split. Qed.
Lemma only_size_eq q s s' : only q s s' → only q (set_size (cache_size s') s) s'.
Proof. intros []. by split. Qed.

Definition harmless (x : warning) : bool :=
  match x with NotFound | Mismatch | FileMsg CountedWrong => false | _ => true end.
Definition silent (w : list warning) : Prop := Forall (λ x, harmless x = true) w.

(** *** Lookup *)
Lemma lookup_runs s m ls (Q : option positive * L → st → list warning → Prop) :
  inv s m → name_ok ls →
  (∀ l, (∀ qn' p, m !! fold_name ls = None → (∀ k p, m !! k = Some p → qn' p = qn s p) → qn' p = Some (wire ls) →
          ∃ t', nt_add p l (hash_buckets s) = Some t' ∧ nt_holds qn' t' (<[fold_name ls := p]> m)) →
        (∀ p, m !! fold_name ls = Some p →
          ∃ t', nt_del_at l (hash_buckets s) = Some (p, t') ∧ nt_holds (qn s) t' (delete (fold_name ls) m)) →
        Q (m !! fold_name ls, l) s []) →
  runs (lookup (wire ls)) s Q.
Proof.
  intros H Hls HQ. destruct (nt_lookup_ok _ _ _ _ (i_table _ _ H) Hls) as (l & E & Ha & Hd). unfold lookup.
  apply runs_bind, runs_get. eapply runs_lift; [done|]. by apply HQ.
Qed.

(** *** Deletion *)
Lemma del_cent_runs s p c (Q : unit → st → list warning → Prop) :
  mem s → cents s !! p = Some c →
  Q tt (set_ents (ent_num s - 1) (set_size (cache_size s - cs c) (without p c s))) [] → runs (del_cent p) s Q.
Proof.
  intros H Hp HQ. unfold del_cent. apply runs_bind. eapply runs_load; [done|]. apply runs_bind, runs_modify, runs_bind.
  eapply (free_cent_runs _ p c); [by destruct H|done|]. apply runs_bind. unfold free. apply runs_modify. apply runs_modify. exact HQ.
Qed.

Definition no_locals c : Prop := ∀ i r, set_at c i = Some r → has (rflags r) CF_LOCAL = false.

(** The state without an entry of the table. *)
Definition deleted (t : T) p c s : st :=
  set_ents (ent_num s - 1) (set_size (cache_size s - cs c) (set_table t (without p c s))).

Lemma step_delete (P : Prop) s m k p c t :
  inv s m → m !! k = Some p → cents s !! p = Some c → nt_holds (qn s) t (delete k m) → (P → no_locals c) →
  step_ok P s m (deleted t p c s) (delete k m).
Proof.
  intros H Hk Hp Ht Hn. split; [by apply inv_delete| | |done].
  - intros HP k' q cq i r Hk' Hq Hi Hl. assert (q ≠ p).
    { intros ->. assert (cq = c) as -> by congruence. by rewrite (Hn HP _ _ Hi) in Hl. }
    split; [|exists cq; cbn; by rewrite lookup_delete_ne]. rewrite lookup_delete_ne; [done|]. intros <-. congruence.
  - intros q cq Hq Hu. split.
    + cbn. rewrite lookup_delete_ne; [done|]. intros <-. apply Hu. by exists k.
    + intros [k' [_ Hk']%lookup_delete_Some]. apply Hu. by exists k'.
Qed.

Lemma del_cache_ent_runs (P : Prop) s m k p c (loc : option L) (Q : unit → st → list warning → Prop) :
  inv s m → m !! k = Some p → cents s !! p = Some c → (P → no_locals c) →
  (∀ l, loc = Some l → ∃ t', nt_del_at l (hash_buckets s) = Some (p, t') ∧ nt_holds (qn s) t' (delete k m)) →
  (∀ t, step_ok P s m (deleted t p c s) (delete k m) → Q tt (deleted t p c s) []) →
  runs (del_cache_ent p loc) s Q.
Proof.
  intros H Hk Hp Hn Hloc HQ. unfold del_cache_ent. apply runs_bind, runs_get, runs_bind.
  assert (∀ Q' : option positive → st → list warning → Prop,
    (∀ t, nt_holds (qn s) t (delete k m) → Q' (Some p) (set_table t s) []) →
    runs (match loc with
     | Some l => '(q, t) ← lift (nt_del_at l (hash_buckets s)); modify (set_table t);; mret (Some q)
     | None => c ← load p; '(q, t) ← lift (nt_del (qn s) (qname c) (hash_buckets s)); modify (set_table t);; mret q
     end) s Q') as Hdel.
  { intros Q' HQ'. destruct loc as [l|].
    - destruct (Hloc l eq_refl) as (t & E & Ht). apply runs_bind. eapply runs_lift; [done|]. cbn.
      apply runs_bind, runs_modify, runs_ret. by apply HQ'.
    - apply runs_bind. eapply runs_load; [done|].
      destruct (inv_cent _ _ _ _ H Hk) as (c' & ls & Hc' & Hq & Hls & -> & _). assert (c' = c) as -> by congruence. rewrite Hq.
      destruct (nt_del_ok _ _ _ _ (i_table _ _ H) Hls) as (t & E & Ht). rewrite Hk in E.
      apply runs_bind. eapply runs_lift; [done|]. cbn. apply runs_bind, runs_modify, runs_ret. by apply HQ'. }
  apply Hdel. intros t Ht. cbn beta iota. apply runs_bind. rewrite bool_decide_true by done. apply runs_ret.
  eapply (del_cent_runs _ p c); [by destruct (i_mem _ _ H)|done|]. apply (HQ t).
  by apply (step_delete P s m k p c t).
Qed.

Lemma del_cache_runs s m ls :
  inv s m → name_ok ls →
  runs (del_cache (wire ls)) s (λ _ s' w, w = [] ∧ step_ok False s m s' (delete (fold_name ls) m)).
Proof.
  intros H Hls. unfold del_cache. apply runs_bind, runs_get.
  destruct (nt_del_ok _ _ _ _ (i_table _ _ H) Hls) as (t & E & Ht). apply runs_bind. eapply runs_lift; [done|]. cbn.
  apply runs_bind, runs_modify. destruct (m !! fold_name ls) as [p|] eqn:Hk.
  - destruct (inv_cent _ _ _ _ H Hk) as (c & ls' & Hp & _). eapply (del_cent_runs _ p c); [by destruct (i_mem _ _ H)|done|].
    split; [done|]. by apply (step_delete False s m _ p c t).
  - apply runs_ret. split; [done|]. rewrite (delete_id m) in Ht |- * by done. split; [|done|done|done].
    destruct H. split; [by destruct i_mem0|done..].
Qed.

(** *** Purging of an entry *)
Lemma local_ok_sub c c' :
  local_ok c → (has (flags c) DF_LOCAL = true → has (flags c') DF_LOCAL = true) →
  (∀ i r', set_at c' i = Some r' → lent r' = None →
     has (rflags r') CF_LOCAL = true ∨ ∃ r, set_at c i = Some r ∧ lent r = None ∧ (has (rflags r) CF_LOCAL = true → has (rflags r') CF_LOCAL = true)) →
  (∀ t t0, rr c' = Neg None t t0 → ∃ t1 t2, rr c = Neg None t1 t2) →
  local_ok c'.
Proof.
  intros H Hf Hs Hn [i|] Hu.
  - destruct Hu as (r' & Hr' & Hl'). unfold local_at. rewrite Hr'. destruct (Hs _ _ Hr' Hl') as [-> | (r & Hr & Hl & Hloc)]; [done|].
    specialize (H (Some i)). unfold local_at in H. rewrite Hr in H. apply orb_true_iff in H as [H|H]; [| |by exists r].
    + by rewrite (Hloc H).
    + by rewrite (Hf H), orb_true_r.
  - destruct Hu as (t & t0 & Hr). apply Hn in Hr as (t1 & t2 & Hr). specialize (H None (ex_intro _ t1 (ex_intro _ t2 Hr))).
    unfold local_at in *. cbn in *. by apply Hf.
Qed.

Lemma set_at_drop c i r j : set_at c i = Some r → set_at (drop_set i r c) j = if decide (j = i) then None else set_at c j.
Proof. intros H. by erewrite set_at_insert; [|by eapply set_at_lt|done]. Qed.

Lemma local_ok_drop c i r : local_ok c → set_at c i = Some r → local_ok (drop_set i r c).
Proof.
  intros H Hi. apply (local_ok_sub c); [done| | |done].
  - cbn. by rewrite has_clear_ne.
  - intros j r'. rewrite (set_at_drop _ _ _ _ Hi). case_decide; [done|]. intros Hr Hl. right. exists r'. done.
Qed.

(** A set is deleted and the size of the cache corrected. *)
Definition dropped p c (i : nat) (r : rr_set_t) s : st :=
  set_size (cache_size s - set_bytes r) (upd p (drop_set i r c) (unlist (option_list (lent r)) s)).

Lemma step_drop (P : Prop) s m k p c i r :
  inv s m → m !! k = Some p → cents s !! p = Some c → set_at c i = Some r → mem (upd p (drop_set i r c) (unlist (option_list (lent r)) s)) →
  (P → has (rflags r) CF_LOCAL = false) → step_ok P s m (dropped p c i r s) m.
Proof.
  intros H Hk Hp Hi Hm Hl. eapply (step_change _ _ _ _ p c (drop_set i r c)); [done|done|done| | | | | |].
  - apply (only_size (cache_size s - set_bytes r) p s). by eapply only_upd.
  - cbn. lia.
  - by destruct Hm.
  - apply lookup_insert_eq.
  - apply local_ok_drop; [by eapply i_local|done].
  - intros HP j r' Hj Hloc. rewrite (set_at_drop _ _ _ _ Hi). case_decide; [|done]. subst j. rewrite Hi in Hj. injection Hj as <-.
    by rewrite (Hl HP) in Hloc.
Qed.

Lemma drop_runs (P : Prop) s m k p c i r (Q : unit → st → list warning → Prop) :
  inv s m → m !! k = Some p → cents s !! p = Some c → set_at c i = Some r → (P → has (rflags r) CF_LOCAL = false) →
  (step_ok P s m (dropped p c i r s) m → Q tt (dropped p c i r s) []) →
  runs (purge_at p i) s Q.
Proof.
  intros H Hk Hp Hi Hl HQ. unfold purge_at. apply runs_bind. eapply runs_mono; [by eapply del_set_runs; [apply H|]|].
  intros n s' w (-> & Hm & Hs). rewrite Hi in Hs. destruct Hs as [-> ->]. apply runs_modify. by apply HQ, (step_drop P s m k).
Qed.

Lemma purgeable_local t r : purgeable t r = true → has (rflags r) CF_LOCAL = false.
Proof. unfold purgeable. intros H. by zb. Qed.

(** [purge_loop] without the test: what is left, and what the counts say. *)
Definition left_of (t : Z) (r : option rr_set_t) : option rr_set_t :=
  match r with Some x => if purgeable t x then None else r | None => None end.

Record purged (t : Z) c c' : Prop := mkPurged {
  pu_sets : ∃ arr arr', rr c = Sets arr ∧ rr c' = Sets arr' ∧ length arr' = length arr;
  pu_flags b : Z.ldiff b DF_AUTH = b → has (flags c') b = has (flags c) b
}.
Lemma purged_trans t c1 c2 c3 : purged t c1 c2 → purged t c2 c3 → purged t c1 c3.
Proof.
  intros [(a1 & a2 & E1 & E2 & El) F1] [(b2 & b3 & E3 & E4 & El') F2]. split.
  - exists a1, b3. split_and!; [done|done|]. rewrite E2 in E3. injection E3 as <-. congruence.
  - intros b Hb. by rewrite F2, F1.
Qed.

Lemma purge_loop_runs s m k p c n i :
  inv s m → m !! k = Some p → cents s !! p = Some c → rr c = Sets (arr_of c) →
  runs (purge_loop false p n i) s (λ '(a, b, d) s' w, w = [] ∧ step_ok True s m s' m ∧ 0 <= a ∧ 0 <= b ∧ 0 <= d ∧
    (mallocs s = [] → mallocs s' = []) ∧
    ∃ c', cents s' !! p = Some c' ∧ purged (now s) c c' ∧
      (∀ j, set_at c' j = if decide (i <= j < i + n)%nat then left_of (now s) (set_at c j) else set_at c j) ∧
      (b = 0 → ∀ j, (i <= j < i + n)%nat → set_at c' j = None) ∧
      (d = 0 → ∀ j, (i <= j < i + n)%nat → NRRMU <= Z.of_nat j → set_at c' j = None)).
Proof.
  revert s c i. induction n as [|n IH]; intros s c i H Hk Hp Hr; cbn [purge_loop].
  { apply runs_ret. split_and!; [done|by apply step_refl|lia..|done|]. exists c. split_and!; [done| | |lia|lia].
    - split; [|done]. by exists (arr_of c), (arr_of c).
    - intros j. by rewrite decide_False by lia. }
  apply runs_bind, runs_get, runs_bind. eapply runs_load; [done|]. apply runs_bind. eapply runs_sets_of; [done|].
  rewrite <-set_at_arr. apply runs_bind.
  eapply (runs_mono _ _ (λ '(a, b, d) s' w, w = [] ∧ step_ok True s m s' m ∧ 0 <= a ∧ 0 <= b ∧ 0 <= d ∧ (mallocs s = [] → mallocs s' = []) ∧
    ∃ c', cents s' !! p = Some c' ∧ purged (now s) c c' ∧
    (∀ j, set_at c' j = if decide (j = i) then left_of (now s) (set_at c j) else set_at c j) ∧
    (b = 0 → set_at c' i = None) ∧ (d = 0 → NRRMU <= Z.of_nat i → set_at c' i = None))).
  - assert (Hid : purged (now s) c c) by (split; [by exists (arr_of c), (arr_of c)|done]).
    destruct (set_at c i) as [r|] eqn:Hi.
    2:{ apply runs_ret. split_and!; [done|by apply step_refl|lia..|done|]. exists c. split_and!; [done|done| |done|done].
        intros j. case_decide; [|done]. subst j. by rewrite Hi. }
    destruct (purgeable (now s) r) eqn:Hpu.
    + apply runs_bind. unfold when. cbn [negb]. eapply drop_runs; [done..|by intros _; eapply purgeable_local|].
      intros Hst. apply runs_ret. split_and!; [done|done|lia..|done|]. eexists. split_and!; [apply lookup_insert_eq| | | |].
      * split; [exists (arr_of c), (<[i := None]> (arr_of c)); by rewrite length_insert|]. intros b Hb. cbn. by apply has_clear_ne.
      * intros j. rewrite (set_at_drop _ _ _ _ Hi). case_decide; [|done]. subst j. rewrite Hi. cbn. by rewrite Hpu.
      * intros _. rewrite (set_at_drop _ _ _ _ Hi). by rewrite decide_True.
      * intros _ _. rewrite (set_at_drop _ _ _ _ Hi). by rewrite decide_True.
    + apply runs_ret. split_and!; [done|by apply step_refl|lia|lia|by case_if|done|]. exists c. split_and!; [done|done| |lia|].
      * intros j. case_decide; [|done]. subst j. rewrite Hi. cbn. by rewrite Hpu.
      * case_if; lia.
  - intros [[a b] d] s1 w1 (-> & Hst1 & Ha & Hb & Hd & Hml1 & c1 & Hp1 & Hpu1 & Hs1 & Hb1 & Hd1). cbn beta iota. apply runs_bind.
    pose proof (s_inv _ _ _ _ _ Hst1) as H1. pose proof Hpu1 as [(a1 & a2 & Hra & Hra2 & Hla) _].
    eapply runs_mono; [eapply (IH s1 c1 (S i)); [done|done|done|by rewrite (arr_of_sets _ _ Hra2)]|].
    intros [[a' b'] d'] s2 w2 (-> & Hst2 & Ha' & Hb' & Hd' & Hml2 & c2 & Hp2 & Hpu2 & Hs2 & Hb2 & Hd2). apply runs_ret.
    rewrite (s_now _ _ _ _ _ Hst1) in *.
    split_and!; [done|by eapply step_trans|lia|lia|lia|naive_solver|]. exists c2. split_and!; [done|by eapply purged_trans| | |].
    + intros j. rewrite Hs2, Hs1. destruct (decide (j = i)) as [-> | Hne].
      * rewrite decide_False, decide_True by lia. done.
      * destruct (decide (S i <= j < S i + n)%nat) as [Hj|Hj]; [by rewrite decide_True by lia|by rewrite decide_False by lia].
    + intros E j Hj. destruct (decide (j = i)) as [-> | Hne]; [|apply Hb2; lia]. rewrite Hs2, decide_False by lia. apply Hb1. lia.
    + intros E j Hj Hmu. destruct (decide (j = i)) as [-> | Hne]; [|apply Hd2; lia]. rewrite Hs2, decide_False by lia. apply Hd1; lia.
Qed.

Lemma arr_sum_take f n arr : (∀ j, (n <= j)%nat → mjoin (arr !! j) = None) → arr_sum f (take n arr) = arr_sum f arr.
Proof.
  revert n. induction arr as [|x arr IH]; intros [|n] H; [done..| |].
  - assert (∀ l, (∀ j, mjoin (l !! j) = None) → arr_sum f l = 0) as Hz.
    { induction l as [|y l IHl]; intros Hl; [done|]. pose proof (Hl 0%nat) as E. cbn in E. cbn. destruct y; [done|].
      cbn. apply IHl. intros j. apply (Hl (S j)). }
    rewrite take_0, (Hz (x :: arr)); [done|]. intros j. apply H. lia.
  - cbn. f_equal. apply IH. intros j Hj. apply (H (S j)). lia.
Qed.

Lemma lookup_take_mjoin n (arr : list (option rr_set_t)) j : (∀ j, (n <= j)%nat → mjoin (arr !! j) = None) → mjoin (take n arr !! j) = mjoin (arr !! j).
Proof.
  intros H. destruct (decide (j < n)%nat) as [Hj|Hj]; [by rewrite lookup_take_lt|].
  rewrite lookup_take_ge by lia. rewrite H; [done|lia].
Qed.

(** The array of rarely used sets is freed when it is empty. *)
Definition shrunk c : dns_cent_t :=
  set_rr (Sets (take (Z.to_nat NRRMU) (arr_of c))) (set_cs (cs c - sizeof_rrext) c).

Lemma shrunk_ok s m k p c :
  inv s m → m !! k = Some p → cents s !! p = Some c → rr c = Sets (arr_of c) → zlen (arr_of c) ≠ NRRMU →
  (∀ j, NRRMU <= Z.of_nat j → set_at c j = None) →
  step_ok True s m (set_size (cache_size s - sizeof_rrext) (upd p (shrunk c) s)) m ∧ (∀ j, set_at (shrunk c) j = set_at c j).
Proof.
  intros H Hk Hp Hr Hl Hn. pose proof (m_cents _ (i_mem _ _ H) _ _ Hp) as [Hnm Hs Hrf].
  assert (Hno : ∀ j, (Z.to_nat NRRMU <= j)%nat → mjoin (arr_of c !! j) = None).
  { intros j Hj. rewrite <-set_at_arr. apply Hn. unfold NRRMU in *. lia. }
  assert (Hse : ∀ j, set_at (shrunk c) j = set_at c j).
  { intros j. rewrite !set_at_arr. unfold shrunk. cbn [arr_of rr set_rr set_cs]. by rewrite lookup_take_mjoin. }
  split; [|exact Hse].
  destruct (step_upd s p c (shrunk c)) as [Hm [Ho _]]; [apply H|done| |done| |].
  - split; [done| |done]. unfold shape_ok in *. rewrite Hr in Hs. cbn. unfold ext_bytes in *. rewrite !arr_sum_take by done.
    destruct Hs as (H1 & H2 & H3 & H4). unfold NRRMU, NRRTOT in *.
    assert (zlen (take (Z.to_nat 8) (arr_of c)) = 8) as -> by (unfold zlen in *; rewrite length_take; lia).
    revert H4. zdec. intros H4. split_and!; [done|by left|done|lia].
  - intros [j|]; unfold lent_at; cbn [shrunk rr set_rr set_cs]; rewrite Hr; [|done]. by rewrite lookup_take_mjoin.
  - eapply (step_change _ _ _ _ p c (shrunk c)); [done..| | | | | |].
    + by apply only_size.
    + cbn. lia.
    + by destruct Hm.
    + apply lookup_insert_eq.
    + apply (local_ok_sub c); [by eapply i_local|done| |done]. intros j r. rewrite Hse. eauto.
    + intros _ j r. by rewrite Hse.
Qed.

Lemma purge_all_runs s m k p c :
  inv s m → m !! k = Some p → cents s !! p = Some c →
  runs (purge_all_rrsets p false) s (λ '(rv, n) s' w, w = [] ∧ step_ok True s m s' m ∧ 0 <= rv ∧ (mallocs s = [] → mallocs s' = []) ∧
    ∃ c', cents s' !! p = Some c' ∧ (∀ j, set_at c' j = left_of (now s) (set_at c j)) ∧ (n = 0 → ∀ j, set_at c' j = None)).
Proof.
  intros H Hk Hp. pose proof (m_cents _ (i_mem _ _ H) _ _ Hp) as Hc. unfold purge_all_rrsets. apply runs_bind. eapply runs_load; [done|].
  rewrite (shape_neg c Hc). destruct (rr c) as [e t t0|arr] eqn:Hr.
  { apply runs_ret. split_and!; [done|by apply step_refl|lia|done|]. exists c. unfold set_at. rewrite Hr. by split_and!. }
  apply runs_bind. eapply runs_sets_of; [done|]. apply runs_bind. pose proof (arr_of_sets _ _ Hr) as Ea.
  eapply runs_mono; [eapply (purge_loop_runs s m k p c (length arr) 0); [done..|by rewrite Ea]|].
  intros [[rv n] d] s1 w1 (-> & Hst1 & Ha & Hb & Hd & Hml & c1 & Hp1 & Hpu1 & Hs1 & Hb1 & Hd1). cbn beta iota.
  assert (Hout : ∀ j, ¬ (0 <= j < 0 + length arr)%nat → set_at c j = None).
  { intros j Hj. rewrite set_at_arr, Ea, lookup_ge_None_2; [done|lia]. }
  assert (Hs : ∀ j, set_at c1 j = left_of (now s) (set_at c j)).
  { intros j. rewrite Hs1. case_decide; [done|]. by rewrite Hout. }
  assert (Hn : n = 0 → ∀ j, set_at c1 j = None).
  { intros E j. destruct (decide (0 <= j < 0 + length arr)%nat); [by apply Hb1|]. rewrite Hs, Hout; done. }
  pose proof (s_inv _ _ _ _ _ Hst1) as H1. destruct Hpu1 as [(a1 & a2 & Hra & Hra2 & Hla) Hfl]. rewrite Hr in Hra. injection Hra as <-.
  pose proof (arr_of_sets _ _ Hra2) as Ea2. case_if.
  - unfold when. cbn [negb]. apply runs_bind, runs_bind. eapply runs_load; [done|]. apply runs_bind. eapply runs_sets_of; [done|].
    apply runs_bind. eapply runs_store; [done|]. apply runs_modify, runs_ret. rewrite <-Ea2.
    destruct (shrunk_ok s1 m k p c1) as [Hst2 Hs2]; [done|done|done|by rewrite Ea2| | |].
    + rewrite Ea2. unfold zlen in *. by rewrite Hla.
    + intros j Hj. destruct (decide (0 <= j < 0 + length arr)%nat); [by apply Hd1|]. rewrite Hs, Hout; done.
    + split_and!; [done|by eapply step_trans|lia|done|]. exists (shrunk c1). split_and!; [apply lookup_insert_eq| |].
      * intros j. by rewrite Hs2.
      * intros E j. rewrite Hs2. by apply Hn.
  - apply runs_ret. split_and!; [done|done|lia|done|]. by exists c1.
Qed.

Lemma purge_rrset_runs s m k p c i r :
  inv s m → m !! k = Some p → cents s !! p = Some c → set_at c i = Some r →
  runs (purge_rrset p i) s (λ b s' w, w = [] ∧ b = purgeable (now s) r ∧
    if b then s' = dropped p c i r s ∧ step_ok True s m s' m else s' = s).
Proof.
  intros H Hk Hp Hi. unfold purge_rrset. apply runs_bind, runs_get, runs_bind. eapply runs_load; [done|].
  apply runs_bind, runs_rrarr; [by eapply m_cents; [apply H|]|]. rewrite <-set_at_arr, Hi.
  destruct (purgeable (now s) r) eqn:Hpu; [|by apply runs_ret].
  apply runs_bind.
  eapply drop_runs; [done..|by intros _; eapply purgeable_local|]. intros Hst. apply runs_ret. done.
Qed.

(** *** References to other names *)
Lemma name_ok_drop n ls : name_ok ls → name_ok (drop n ls).
Proof.
  intros [H1 H2]. split; [by apply Forall_drop|]. rewrite (wire_split n ls), zlen_app in H2.
  pose proof (zlen_nonneg (segs (take n ls))). lia.
Qed.
Lemma drop_wire n ls : drop (Z.to_nat (zlen (segs (take n ls)))) (wire ls) = wire (drop n ls).
Proof. rewrite (wire_split n ls) at 1. unfold zlen. rewrite Nat2Z.id. apply drop_app_length. Qed.

Lemma stale_runs s m k p c n idx :
  inv s m → m !! k = Some p → cents s !! p = Some c → 0 <= n →
  runs (stale p n idx) s (λ _ s' w, s' = s ∧ w = []).
Proof.
  intros H Hk Hp Hn. destruct (inv_cent _ _ _ _ H Hk) as (c' & ls & Hp' & Hq & Hls & _ & Hc). assert (c' = c) as -> by congruence.
  unfold stale. apply runs_bind, runs_get, runs_bind. eapply runs_load; [done|]. apply runs_bind.
  pose proof (rhnsegcnt_run (S (length (wire ls))) [] ls [] 0 (proj1 Hls)) as Ec. rewrite app_nil_r in Ec.
  pose proof (wire_long ls []) as Hlong. rewrite app_nil_r in Hlong.
  eapply runs_lift; [rewrite Hq; by apply Ec|]. rewrite Z.add_0_l. apply runs_bind.
  eapply (runs_mono _ _ (λ _ s' w, s' = s ∧ w = [])); [|by intros r s' w [-> ->]; apply runs_ret].
  case_if; [apply runs_bind, runs_rrarr; [done|]; by apply runs_ret|]. case_if; [|by apply runs_ret].
  pose proof (skipsegs_run (Z.to_nat (zlen ls - n)) [] ls [] (proj1 Hls)) as Ek. rewrite app_nil_r in Ek.
  apply runs_bind. eapply runs_lift; [rewrite Hq; exact Ek|]. rewrite Z.add_0_l, Hq, drop_wire.
  apply runs_bind. eapply lookup_runs; [done|by apply name_ok_drop|]. intros l _ _. cbn beta iota.
  destruct (m !! fold_name (drop (Z.to_nat (zlen ls - n)) ls)) as [q|] eqn:Hq'; [|by apply runs_ret].
  destruct (inv_cent _ _ _ _ H Hq') as (cq & lsq & Hpq & _ & _ & _ & Hcq). apply runs_bind. eapply runs_load; [done|].
  apply runs_bind, runs_rrarr; [done|]. by apply runs_ret.
Qed.

(** Flags and references of an entry of the table change. *)
Lemma step_attr P s m k q c c' :
  inv s m → m !! k = Some q → cents s !! q = Some c →
  rr c' = rr c → cs c' = cs c → qname c' = qname c → num_rrs c' = num_rrs c → 0 <= c_ns c' → 0 <= c_soa c' →
  has (flags c') DF_NEGATIVE = has (flags c) DF_NEGATIVE → (has (flags c) DF_LOCAL = true → has (flags c') DF_LOCAL = true) →
  step_ok P s m (upd q c' s) m.
Proof.
  intros H Hk Hq Er Ecs Eq En Hns Hsoa Hneg Hloc.
  assert (Hs : ∀ i, set_at c' i = set_at c i) by (intros i; unfold set_at; by rewrite Er).
  destruct (step_upd s q c c') as [Hm [Ho _]]; [apply H|done| |done| |].
  - pose proof (m_cents _ (i_mem _ _ H) _ _ Hq) as [Hn Hsh Hrf]. split; [by rewrite Eq| |done].
    unfold shape_ok in *. by rewrite Er, Hneg, En, Ecs, Eq.
  - intros i. unfold lent_at. by rewrite Er.
  - eapply (step_change _ _ _ _ q c c'); [done..|by apply only_size_eq|cbn; lia|done|apply lookup_upd| |].
    + apply (local_ok_sub c); [by eapply i_local|done| |by rewrite Er; eauto]. intros i r Hi Hl. rewrite Hs in Hi. eauto.
    + intros _ i r. by rewrite Hs.
Qed.

Lemma forget_runs s m k p c (b : bool) (f : dns_cent_t → dns_cent_t) (Q : unit → st → list warning → Prop) :
  inv s m → m !! k = Some p → cents s !! p = Some c → f = set_cns cundef ∨ f = set_csoa cundef →
  (∀ s' c', step_ok True s m s' m → (mallocs s = [] → mallocs s' = []) → cents s' !! p = Some c' → rr c' = rr c → Q tt s' []) →
  runs (when b (store p f)) s Q.
Proof.
  intros H Hk Hp Hf HQ. destruct b; cbn [when].
  - pose proof (m_cents _ (i_mem _ _ H) _ _ Hp) as [_ _ [? ?]]. eapply runs_store; [done|].
    eapply (HQ _ (f c)); [|done|apply lookup_upd|by destruct Hf as [-> | ->]].
    destruct Hf as [-> | ->]; by eapply step_attr.
  - apply runs_ret. eapply HQ; [by apply step_refl|done|done|done].
Qed.

Lemma purge_cent_runs s m k p c (d : bool) :
  inv s m → m !! k = Some p → cents s !! p = Some c →
  runs (purge_cent p d false) s (λ n s' w, w = [] ∧ ∃ m', step_ok True s m s' m' ∧ (mallocs s = [] → mallocs s' = []) ∧
    ((0 <= n ∧ m' = m ∧ ∃ c', cents s' !! p = Some c' ∧ ∀ j, set_at c' j = left_of (now s) (set_at c j)) ∨
     (n = -1 ∧ d = true ∧ m' = delete k m))).
Proof.
  intros H Hk Hp. unfold purge_cent. apply runs_bind. eapply runs_mono; [by eapply purge_all_runs|].
  intros [np nr] s1 w1 (-> & Hst1 & Hnp & Hml1 & c1 & Hp1 & Hs1 & Hz1). cbn beta iota. pose proof (s_inv _ _ _ _ _ Hst1) as H1.
  pose proof (m_cents _ (i_mem _ _ H1) _ _ Hp1) as Hc1. apply runs_bind. eapply runs_load; [done|]. apply runs_bind.
  eapply (runs_mono _ _ (λ b s' w, s' = s1 ∧ w = [] ∧ (b = true → d = true ∧ no_locals c1))).
  { destruct d; cbn [andb]; [|by apply runs_ret]. case_if; [|by apply runs_ret].
    assert (no_locals c1) by (intros i r Hi; by rewrite Hz1 in Hi). case_if; [by apply runs_ret|].
    case_if; [|by apply runs_ret]. unfold timedout_nxdom. rewrite (shape_neg c1 Hc1) in *.
    destruct (rr c1) as [x t t0|arr]; [|done]. apply runs_bind, runs_get, runs_ret. done. }
  intros b s' w (-> & -> & Hb). destruct b.
  { destruct (Hb eq_refl) as [-> Hn]. unfold when. cbn [negb]. apply runs_bind.
    eapply (del_cache_ent_runs True); [done|done|done|done|done|].
    intros t Hst2. apply runs_ret. split; [done|]. exists (delete k m). split_and!; [by eapply step_trans|naive_solver|by right]. }
  destruct (has (flags c1) DF_LOCAL).
  { apply runs_ret. split; [done|]. exists m. split_and!; [done|done|]. left. split_and!; [done|done|]. eauto. }
  destruct (c_refs _ Hc1) as [Hns Hsoa]. apply runs_bind.
  eapply (runs_mono _ _ (λ n s' w, w = [] ∧ 0 <= n ∧ step_ok True s1 m s' m ∧ (mallocs s1 = [] → mallocs s' = []) ∧ ∃ c', cents s' !! p = Some c' ∧ rr c' = rr c1)).
  { case_if; [apply runs_ret; split_and!; [done|lia|by apply step_refl|done|eauto]|].
    apply runs_bind. eapply runs_mono; [by eapply stale_runs|]. intros b ? ? [-> ->]. apply runs_bind.
    eapply forget_runs; [done|done|done|by left|]. intros s' c' Hst Hml Hp' Hr. apply runs_ret. split_and!; [done|by case_if|done|done|eauto]. }
  intros n1 s2 w (-> & Hn1 & Hst2 & Hml2 & c2 & Hp2 & Hr2). pose proof (s_inv _ _ _ _ _ Hst2) as H2. apply runs_bind.
  eapply (runs_mono _ _ (λ n s' w, w = [] ∧ 0 <= n ∧ step_ok True s2 m s' m ∧ (mallocs s2 = [] → mallocs s' = []) ∧ ∃ c', cents s' !! p = Some c' ∧ rr c' = rr c2)).
  { case_if; [apply runs_ret; split_and!; [done|lia|by apply step_refl|done|eauto]|].
    apply runs_bind. eapply runs_mono; [by eapply stale_runs|]. intros b ? ? [-> ->]. apply runs_bind.
    eapply forget_runs; [done|done|done|by right|]. intros s' c' Hst Hml Hp' Hr. apply runs_ret. split_and!; [done|by case_if|done|done|eauto]. }
  intros n2 s3 w (-> & Hn2 & Hst3 & Hml3 & c3 & Hp3 & Hr3). apply runs_ret. split; [done|]. exists m. split_and!.
  - eapply step_trans; [done|]. by eapply step_trans.
  - naive_solver.
  - left. split_and!; [lia|done|]. exists c3. split; [done|]. intros j. rewrite <-Hs1. unfold set_at. by rewrite Hr3, Hr2.
Qed.

(** *** Walks through the list *)

(** Whether an element of the list is of something local. *)
Definition local_el s e : Prop :=
  ∃ p i c, lents s !! e = Some (mkLent p i) ∧ cents s !! p = Some c ∧ local_at c i = true.

Lemma local_lent_runs s m e p i c (Q : bool → st → list warning → Prop) :
  inv s m → lents s !! e = Some (mkLent p i) → cents s !! p = Some c → Q (local_at c i) s [] → runs (local_lent (mkLent p i)) s Q.
Proof.
  intros H He Hp HQ. pose proof He as (c' & Hp' & Hi)%(m_lents _ (i_mem _ _ H)). assert (c' = c) as -> by congruence.
  unfold local_lent. apply runs_bind. eapply runs_load; [done|]. cbn [l_idx]. unfold local_at in HQ. destruct i as [i|].
  - apply lent_at_some in Hi as (r & Hr & _). rewrite Hr in HQ. apply runs_bind, runs_bind. eapply runs_sets_of; [by eapply set_at_sets|].
    apply runs_bind. eapply runs_lift; [by rewrite <-set_at_arr|]. apply runs_ret, runs_ret. done.
  - apply runs_bind, runs_ret, runs_ret. done.
Qed.

Lemma empty_sets c : cent_ok c → num_rrs c = 0 → (∀ j, set_at c j = None) ∧ no_locals c ∧ (rr c = Sets (arr_of c) → all_lents c = []).
Proof.
  intros Hc Hn. assert (Hs : ∀ j, set_at c j = None).
  { intros j. pose proof (c_shape _ Hc) as Hs. unfold shape_ok in Hs. destruct (set_at c j) as [r|] eqn:Hj; [|done].
    rewrite (set_at_sets _ _ _ Hj) in Hs. destruct Hs as (_ & _ & E & _). rewrite Hn in E. rewrite set_at_arr in Hj.
    by apply (arr_num_zero _ j r (eq_sym E)) in Hj. }
  split_and!; [done|intros i r Hi; by rewrite Hs in Hi|]. intros Hr. destruct (all_lents c) as [|e l] eqn:E; [done|].
  assert (e ∈ all_lents c) as [[i|] Hi]%elem_of_all_lents by (rewrite E; set_solver).
  - apply lent_at_some in Hi as (r & Hi & _). by rewrite Hs in Hi.
  - apply lent_at_neg in Hi as (t & t0 & Hi). congruence.
Qed.

Lemma local_el_dropped s p c i r e :
  mem s → cents s !! p = Some c → set_at c i = Some r → local_el s e → e ∈ rrset_l (dropped p c i r s) → local_el (dropped p c i r s) e.
Proof.
  intros H Hp Hi (q & j & cq & He & Hq & Hl) Hin. change (rrset_l (dropped p c i r s)) with (rrset_l (unlist (option_list (lent r)) s)) in Hin.
  apply elem_of_unlist in Hin as [_ Hn]. exists q, j.
  assert (lents (dropped p c i r s) !! e = Some (mkLent q j)) as He'.
  { change (lents (dropped p c i r s)) with (lents (unlist (option_list (lent r)) s)). by apply lookup_unlist. }
  destruct (decide (q = p)) as [-> | Hne].
  - assert (cq = c) as -> by congruence. exists (drop_set i r c). split_and!; [done|apply lookup_insert_eq|].
    unfold local_at in *. cbn [flags drop_set]. rewrite has_clear_ne by done. destruct j as [j|]; [|done].
    rewrite (set_at_drop _ _ _ _ Hi). destruct (decide (j = i)) as [-> | Hj]; [|done]. destruct Hn. apply elem_of_option_list.
    apply (m_lents _ H) in He as (c' & Hc' & Hij). assert (c' = c) as -> by congruence. by rewrite (lent_at_set _ _ _ Hi) in Hij.
  - exists cq. split_and!; [done| |done]. cbn. by rewrite lookup_insert_ne.
Qed.

Lemma local_el_deleted t s p c e :
  mem s → cents s !! p = Some c → local_el s e → e ∈ rrset_l (deleted t p c s) → local_el (deleted t p c s) e.
Proof.
  intros H Hp (q & j & cq & He & Hq & Hl) Hin. change (rrset_l (deleted t p c s)) with (rrset_l (unlist (all_lents c) s)) in Hin.
  apply elem_of_unlist in Hin as [_ Hn]. assert (q ≠ p).
  { intros ->. apply Hn, elem_of_all_lents. exists j. apply (m_lents _ H) in He as (c' & Hc' & Hij). congruence. }
  exists q, j, cq. split_and!; [|cbn; by rewrite lookup_delete_ne|done].
  change (lents (deleted t p c s)) with (lents (unlist (all_lents c) s)). by apply lookup_unlist.
Qed.

(** What a step of a walk may do: delete the element it is at, and things that have no element. *)
Record walked s m e s' : Prop := mkWalked {
  w_step : ∃ m', step_ok True s m s' m' ∧ m' ⊆ m;
  w_list : rrset_l s' = rrset_l s ∨ rrset_l s' = rrset_l (unlist [e] s);
  w_local e' : local_el s e' → e' ∈ rrset_l s' → local_el s' e';
  w_sort : insert_sort s' = insert_sort s;
  w_mallocs : mallocs s = [] → mallocs s' = []
}.

Lemma drop_shape i r c : rr (drop_set i r c) = Sets (arr_of (drop_set i r c)).
Proof. done. Qed.

(** There is something at a place. *)
Definition present c (i : option nat) : Prop :=
  match i with Some i => is_Some (set_at c i) | None => ∃ x t t0, rr c = Neg x t t0 end.

(** An entry in which there is nothing was so before. *)
Definition unemptied s s' : Prop := ∀ p c, cents s' !! p = Some c → (∀ i, ¬ present c i) → cents s !! p = Some c.

Lemma unemptied_trans s1 s2 s3 : unemptied s1 s2 → unemptied s2 s3 → unemptied s1 s3.
Proof. intros H1 H2 p c Hp Hc. apply H1; [by apply H2|done]. Qed.

Lemma unemptied_deleted t s p c : unemptied s (deleted t p c s).
Proof.
  intros q cq Hq _. assert (Hd : delete p (cents s) !! q = Some cq) by exact Hq. by apply lookup_delete_Some in Hd as [_ ?].
Qed.

Lemma arr_num_pos arr : arr_num arr ≠ 0 → ∃ j r, mjoin (arr !! j) = Some r.
Proof.
  induction arr as [|x arr IH]; [done|]. intros Hn. destruct x as [r|]; [by exists 0%nat, r|]. destruct IH as (j & r & Hj); [exact Hn|]. by exists (S j), r.
Qed.

Lemma unemptied_dropped s p c i r : cent_ok (drop_set i r c) → num_rrs (drop_set i r c) ≠ 0 → unemptied s (dropped p c i r s).
Proof.
  intros Hc Hn q cq Hq He. assert (Hi : <[p := drop_set i r c]> (cents s) !! q = Some cq) by exact Hq. apply lookup_insert_Some in Hi as [[-> <-]|[_ ?]]; [|done].
  destruct (arr_num_pos (arr_of (drop_set i r c))) as (j & x & Hj).
  - pose proof (c_shape _ Hc) as Hs. unfold shape_ok in Hs. rewrite drop_shape in Hs. destruct Hs as (_ & _ & E & _). by rewrite E in Hn.
  - destruct (He (Some j)). exists x. rewrite set_at_arr. exact Hj.
Qed.

Lemma walked_refl s m e : inv s m → walked s m e s.
Proof. intros H. split; [by eexists; split; [apply step_refl|]|by left|done..]. Qed.

(** The last set of an entry is deleted, and with it the entry. *)
Lemma walked_deleted t s m s1 e p c k :
  walked s m e s1 → step_ok True s m s1 m → inv s1 m → m !! k = Some p → cents s1 !! p = Some c → all_lents c = [] →
  step_ok True s1 m (deleted t p c s1) (delete k m) → walked s m e (deleted t p c s1).
Proof.
  intros [W1 W2 W3 W4 W5] Hst H1 Hk Hp Hl Hd. assert (Hlist : rrset_l (deleted t p c s1) = rrset_l s1).
  { change (rrset_l (deleted t p c s1)) with (rrset_l (unlist (all_lents c) s1)). by rewrite Hl, unlist_nil_eq. }
  split; [eexists; split; [by eapply step_trans|apply delete_subseteq]|by rewrite Hlist| |done|done].
  intros e' He' Hin. apply local_el_deleted; [apply H1|done| |done]. apply W3; [done|]. by rewrite <-Hlist.
Qed.

Lemma listed_cached s m e : inv s m → e ∈ rrset_l s →
  ∃ k p i c, lents s !! e = Some (mkLent p i) ∧ m !! k = Some p ∧ cents s !! p = Some c ∧ lent_at c i = Some e.
Proof.
  intros H He. destruct (listed_place _ _ (i_mem _ _ H) He) as (p & i & c & Hl & Hc & Hi).
  destruct (i_listed _ _ H _ _ Hl) as [k Hk]. by exists k, p, i, c.
Qed.

Lemma walked_dropped s m e k p c i r : inv s m → m !! k = Some p → cents s !! p = Some c → set_at c i = Some r → lent r = Some e →
  step_ok True s m (dropped p c i r s) m → walked s m e (dropped p c i r s).
Proof.
  intros H Hk Hp Hr Hl Hst. split; [by exists m| | |done|done].
  - right. change (rrset_l (dropped p c i r s)) with (rrset_l (unlist (option_list (lent r)) s)). by rewrite Hl.
  - intros e' He' Hin. apply local_el_dropped; [apply H|done..].
Qed.

(** The set at the element is deleted, and the entry with it if it was the last. *)
Lemma drop_then_runs s m e k p c i r (Q : unit → st → list warning → Prop) (fin : dns_cent_t → M st warning unit) :
  inv s m → m !! k = Some p → cents s !! p = Some c → set_at c i = Some r → lent r = Some e →
  step_ok True s m (dropped p c i r s) m →
  (∀ c' s' (Q' : unit → st → list warning → Prop),
    has (flags c') DF_NEGATIVE = false → runs (del_cache_ent p None) s' Q' → runs (fin c') s' Q') →
  (∀ s', walked s m e s' → e ∉ rrset_l s' → unemptied s s' → Q tt s' []) →
  runs (c ← load p; when (num_rrs c =? 0) (fin c)) (dropped p c i r s) Q.
Proof.
  intros H Hk Hp Hr Hl Hst Hfin HQ. pose proof (walked_dropped s m e k p c i r H Hk Hp Hr Hl Hst) as Hw.
  assert (He : e ∉ rrset_l (dropped p c i r s)).
  { change (rrset_l (dropped p c i r s)) with (rrset_l (unlist (option_list (lent r)) s)). rewrite elem_of_unlist, Hl. cbn. set_solver. }
  apply runs_bind. assert (cents (dropped p c i r s) !! p = Some (drop_set i r c)) as Hp' by apply lookup_insert_eq.
  eapply runs_load; [done|]. pose proof (s_inv _ _ _ _ _ Hst) as H1. pose proof (m_cents _ (i_mem _ _ H1) _ _ Hp') as Hc'.
  unfold when at 1. case_if; [|apply runs_ret; zb; by apply HQ; [..|apply unemptied_dropped]]. apply Hfin.
  { rewrite (shape_neg _ Hc'). by rewrite drop_shape. }
  destruct (empty_sets _ Hc' Hif) as (_ & Hno & Hall). eapply (del_cache_ent_runs True); [done|done|done|done|done|].
  intros t Hd. apply HQ; [by eapply walked_deleted; eauto| |].
  2:{ intros q cq Hq He'. assert (Hx : delete p (<[p := drop_set i r c]> (cents s)) !! q = Some cq) by exact Hq.
    apply lookup_delete_Some in Hx as [Hne Hx]. by rewrite lookup_insert_ne in Hx. }
  change (rrset_l (deleted t p (drop_set i r c) (dropped p c i r s))) with (rrset_l (unlist (all_lents (drop_set i r c)) (dropped p c i r s))).
  rewrite elem_of_unlist. naive_solver.
Qed.

(** A name that does not exist is deleted from the list and the table. *)
Lemma del_neg_runs s m e k p c t t0 (Q : unit → st → list warning → Prop) :
  inv s m → m !! k = Some p → cents s !! p = Some c → rr c = Neg (Some e) t t0 →
  (∀ s', walked s m e s' → e ∉ rrset_l s' → unemptied s s' → Q tt s' []) → runs (del_cache_ent p None) s Q.
Proof.
  intros H Hk Hp Hr HQ. assert (all_lents c = [e]) as Hal by (unfold all_lents; by rewrite Hr).
  eapply (del_cache_ent_runs True); [done|done|done|intros _ i r; unfold set_at; by rewrite Hr|done|]. intros t1 Hd.
  assert (Hl : rrset_l (deleted t1 p c s) = rrset_l (unlist [e] s)).
  { change (rrset_l (deleted t1 p c s)) with (rrset_l (unlist (all_lents c) s)). by rewrite Hal. }
  apply HQ; [|rewrite Hl, elem_of_unlist; set_solver|apply unemptied_deleted]. split; [eexists; split; [done|apply delete_subseteq]|by right| |done|done].
  intros e' He' Hin. apply local_el_deleted; [apply H|done..].
Qed.

(** One element of the first walk. *)
Lemma purge_timedout_runs s m e :
  inv s m → e ∈ rrset_l s → runs (purge_timedout e) s (λ _ s' w, w = [] ∧ walked s m e s' ∧ unemptied s s').
Proof.
  intros H He. destruct (listed_cached _ _ _ H He) as (k & p & i & c & Hl & Hk & Hp & Hi).
  unfold purge_timedout. apply runs_bind, runs_get, runs_bind. eapply runs_lift; [done|]. apply runs_bind.
  eapply local_lent_runs; [done..|]. unfold when at 1. case_if; [|apply runs_ret; split_and!; [done|by apply walked_refl|by intros ?]]. cbn [l_cent l_idx].
  pose proof (m_cents _ (i_mem _ _ H) _ _ Hp) as Hc. apply runs_bind. destruct i as [i|].
  - apply lent_at_some in Hi as (r & Hr & Hle). apply runs_bind. eapply runs_mono; [by eapply purge_rrset_runs|].
    intros b s1 w (-> & Hb & Hs1). apply runs_ret. destruct b.
    + destruct Hs1 as [-> Hst]. eapply drop_then_runs; [done..| |done].
      intros c' s' Q' Hn HQ'. apply runs_bind. rewrite Hn. apply runs_ret. exact HQ'.
    + subst s1. apply runs_bind. eapply runs_load; [done|]. unfold when. case_if; [|apply runs_ret; split_and!; [done|by apply walked_refl|by intros ?]].
      destruct (empty_sets _ Hc Hif0) as [Hno _]. by rewrite Hno in Hr.
  - apply lent_at_neg in Hi as (t & t0 & Hr). apply runs_ret, runs_bind. eapply runs_load; [done|]. unfold when at 1.
    case_if; [|apply runs_ret; split_and!; [done|by apply walked_refl|by intros ?]]. rewrite (shape_neg _ Hc), Hr. cbn [negb]. apply runs_bind.
    eapply (runs_mono _ _ (λ _ s' w, s' = s ∧ w = [])).
    { case_if; [|by apply runs_ret]. unfold timedout_nxdom. apply runs_bind, runs_get. rewrite Hr. by apply runs_ret. }
    intros g s' w [-> ->]. destruct g; cbn [when]; [|apply runs_ret; split_and!; [done|by apply walked_refl|by intros ?]].
    eapply del_neg_runs; [done..|]. done.
Qed.

(** One element of the second walk: only what is local is still there. *)
Lemma purge_oldest_runs s m e :
  inv s m → e ∈ rrset_l s → runs (purge_oldest e) s (λ _ s' w, w = [] ∧ walked s m e s' ∧ unemptied s s' ∧ (e ∈ rrset_l s' → local_el s' e)).
Proof.
  intros H He. destruct (listed_cached _ _ _ H He) as (k & p & i & c & Hl & Hk & Hp & Hi).
  unfold purge_oldest. apply runs_bind, runs_get, runs_bind. eapply runs_lift; [done|]. apply runs_bind.
  eapply local_lent_runs; [done..|]. unfold when at 1. case_if.
  2:{ apply runs_ret. split_and!; [done|by apply walked_refl|by intros ?|]. intros _. by exists p, i, c. }
  cbn [l_cent l_idx]. pose proof (m_cents _ (i_mem _ _ H) _ _ Hp) as Hc. apply runs_bind. destruct i as [i|].
  - apply lent_at_some in Hi as (r & Hr & Hle). eapply (drop_runs True); [done..| |].
    { intros _. unfold local_at in Hif. rewrite Hr in Hif. by zb. }
    intros Hst. eapply (drop_then_runs _ _ _ _ _ _ _ _ _ (λ _, del_cache_ent p None)); [done..|].
    intros s' Hw Hn Hu. split_and!; [done|done|done|]. by intros ?%Hn.
  - apply lent_at_neg in Hi as (t & t0 & Hr). apply runs_ret, runs_bind. eapply runs_load; [done|]. unfold when.
    pose proof (c_shape _ Hc) as Hs. unfold shape_ok in Hs. rewrite Hr in Hs. destruct Hs as (_ & -> & _). zdec.
    eapply del_neg_runs; [done..|]. intros s' Hw Hn Hu. split_and!; [done|done|done|]. by intros ?%Hn.
Qed.

Lemma next_of_app pre e suf : NoDup (pre ++ e :: suf) → next_of e (pre ++ e :: suf) = head suf.
Proof.
  induction pre as [|x pre IH]; cbn; intros Hn; [by rewrite decide_True|]. apply NoDup_cons in Hn as [Hx Hn].
  rewrite decide_False; [by apply IH|]. intros ->. set_solver.
Qed.

Lemma filter_others e (l : list positive) : e ∉ l → filter (λ x, x ∉ [e]) l = l.
Proof.
  induction l as [|x l IH]; intros H; [done|]. rewrite filter_cons_True by set_solver. f_equal. apply IH. set_solver.
Qed.

Lemma filter_middle pre e suf : NoDup (pre ++ e :: suf) → filter (λ x, x ∉ [e]) (pre ++ e :: suf) = pre ++ suf.
Proof.
  intros Hn. apply NoDup_app in Hn as (_ & H1 & H2). apply NoDup_cons in H2 as [H2 _].
  rewrite filter_app, filter_cons_False by set_solver. rewrite !filter_others; [done|done|]. intros He. apply (H1 e He). set_solver.
Qed.

(** A walk from an element on: it ends, and every element it leaves has [K] unless it stopped early. *)
Lemma walk_runs (K : st → positive → Prop) go f fuel pre suf s m :
  (∀ s m e, inv s m → e ∈ rrset_l s → runs (f e) s (λ _ s' w, w = [] ∧ walked s m e s' ∧ unemptied s s' ∧ (e ∈ rrset_l s' → K s' e) ∧
     (∀ e', e' ∈ rrset_l s' → K s e' → K s' e'))) →
  inv s m → rrset_l s = pre ++ suf → (length suf <= fuel)%nat → Forall (K s) pre →
  runs (walk fuel go f (head suf)) s (λ _ s' w, w = [] ∧ ∃ m', step_ok True s m s' m' ∧ m' ⊆ m ∧ unemptied s s' ∧ insert_sort s' = insert_sort s ∧
    (mallocs s = [] → mallocs s' = []) ∧ (length (rrset_l s') <= length (rrset_l s))%nat ∧ (go s' = false ∨ Forall (K s') (rrset_l s'))).
Proof.
  intros Hf. revert fuel pre s m. induction suf as [|e suf IH]; intros fuel pre s m H Hl Hfu HK.
  { destruct fuel; apply runs_ret; (split; [done|]; exists m; split_and!; [by apply step_refl|done|by intros ?|done|done|done|right; by rewrite Hl, app_nil_r]). }
  destruct fuel as [|fuel]; [cbn in Hfu; lia|]. cbn [walk head]. apply runs_bind, runs_get. destruct (go s) eqn:Hgo.
  2:{ apply runs_ret. split; [done|]. exists m. split_and!; [by apply step_refl|done|by intros ?|done|done|done|by left]. }
  assert (He : e ∈ rrset_l s) by (rewrite Hl; set_solver). pose proof He as [le Hle]%(m_list _ (i_mem _ _ H)).
  apply runs_bind. eapply runs_lift; [done|]. apply runs_bind. eapply runs_mono; [by apply Hf|].
  intros [] s1 w (-> & [ (m1 & Hst & Hsub1) W2 W3 W4 W5] & Hu1 & Hk1 & Hk2).
  pose proof (m_nodup _ (i_mem _ _ H)) as Hnd. rewrite Hl in Hnd.
  assert (∃ pre', rrset_l s1 = pre' ++ suf ∧ Forall (K s1) pre') as (pre' & Hl' & HK').
  { destruct W2 as [E|E].
    - exists (pre ++ [e]). rewrite E, Hl, <-app_assoc. split; [done|]. apply Forall_app. split.
      + apply Forall_forall. intros x Hx. apply Hk2; [rewrite E, Hl; set_solver|]. by rewrite Forall_forall in HK; apply HK.
      + constructor; [|done]. apply Hk1. rewrite E, Hl. set_solver.
    - assert (rrset_l s1 = pre ++ suf) as E' by (rewrite E; cbn; rewrite Hl; by apply filter_middle).
      exists pre. split; [done|]. apply Forall_forall. intros x Hx. apply Hk2; [rewrite E'; set_solver|].
      by rewrite Forall_forall in HK; apply HK. }
  assert (next_of e (rrset_l s) = head suf) as -> by (rewrite Hl; by apply next_of_app).
  eapply runs_mono; [apply (IH fuel pre' s1 m1 (s_inv _ _ _ _ _ Hst) Hl'); [cbn in Hfu; lia|done]|].
  intros [] s2 w (-> & m2 & Hst2 & Hsub2 & Hu2 & Hs2 & Hm2 & Hln & Hend). split; [done|]. exists m2.
  assert (length (rrset_l s1) <= length (rrset_l s))%nat.
  { destruct W2 as [-> | ->]; [done|]. apply length_filter. }
  split_and!; [by eapply step_trans|by etrans|by eapply unemptied_trans|congruence|naive_solver|lia|done].
Qed.

(** *** Purging of the cache *)
Lemma step_permute P s m l b : inv s m → l ≡ₚ rrset_l s → step_ok P s m (set_sort b (set_list (lents s) l s)) m.
Proof.
  intros [Hm H1 H2 H3 H4 H5] HP. split; [|by intros _ k p c i r Hk Hp Hi _; eauto|done|done]. split; [|done..].
  destruct Hm as [M1 M2 M3 M4]. split; [done|cbn; by rewrite HP|intros e; cbn; rewrite HP; apply M3|done].
Qed.

(** Nothing in the cache may be deleted. *)
Definition only_locals s m : Prop := ∀ k p c i,
  m !! k = Some p → cents s !! p = Some c → present c i → local_at c i = true.

Lemma all_local_el s m : inv s m → Forall (local_el s) (rrset_l s) → only_locals s m.
Proof.
  intros H HF k p c i Hk Hp Hpr. destruct (lent_at c i) as [e|] eqn:Hi.
  - pose proof (mem_listed _ _ _ _ _ (i_mem _ _ H) Hp Hi) as He. rewrite Forall_forall in HF.
    destruct (HF e) as (q & j & cq & Hq & Hcq & Hl); [apply (m_list _ (i_mem _ _ H)); eauto|]. naive_solver.
  - apply (i_local _ _ H k p c Hk Hp). destruct i as [i|]; cbn in Hpr.
    + destruct Hpr as [r Hr]. rewrite (lent_at_set _ _ _ Hr) in Hi. exists r. done.
    + destruct Hpr as (e & t & t0 & Hr). unfold lent_at in Hi. rewrite Hr in Hi. subst e. by exists t, t0.
Qed.

(** The list has at most [NRRTOT] elements for each entry. *)
Definition few (n : Z) : Prop := NRRTOT * n < 2 ^ 32.

Lemma length_all_lents c : cent_ok c → zlen (all_lents c) <= NRRTOT.
Proof.
  intros [_ Hs _]. unfold all_lents, shape_ok, zlen, NRRTOT, NRRMU in *. destruct (rr c) as [x t t0|arr]; [by destruct x|].
  assert (length (arr_lents arr) <= length arr)%nat; [|lia]. clear Hs. unfold arr_lents.
  induction arr as [|y arr IH]; cbn; [lia|]. destruct (y ≫= lent); cbn; lia.
Qed.

Lemma list_bound s m : inv s m → zlen (rrset_l s) <= NRRTOT * Z.of_nat (base.size m).
Proof.
  intros H. set (f := λ p, match cents s !! p with Some c => all_lents c | None => [] end).
  assert (rrset_l s ⊆+ ((map_to_list m).*2 ≫= f)) as Hsub.
  { apply NoDup_submseteq; [apply H|]. intros e He. destruct (listed_cached _ _ _ H He) as (k & p & i & c & _ & Hk & Hp & Hi).
    apply list_elem_of_bind. exists p. split; [unfold f; rewrite Hp; apply elem_of_all_lents; eauto|].
    apply list_elem_of_fmap. exists (k, p). split; [done|]. by apply elem_of_map_to_list. }
  apply submseteq_length in Hsub.
  assert (∀ l, Z.of_nat (length (l ≫= f)) <= NRRTOT * Z.of_nat (length l)) as Hb.
  { induction l as [|p l IH]; [done|]. cbn [mbind list_bind]. rewrite length_app. cbn [length].
    assert (zlen (f p) <= NRRTOT); [|unfold zlen in *; unfold NRRTOT in *; lia].
    unfold f. destruct (cents s !! p) as [c|] eqn:Hp; [|done]. apply length_all_lents. by eapply m_cents; [apply H|]. }
  specialize (Hb (map_to_list m).*2). rewrite length_fmap, length_map_to_list in Hb. unfold zlen. lia.
Qed.

Lemma purge_cache_runs sz lazy s m :
  inv s m → few (ent_num s) →
  runs (purge_cache sz lazy) s (λ _ s' w, w = [] ∧ ∃ m', step_ok True s m s' m' ∧ (mallocs s = [] → mallocs s' = []) ∧
    (cache_size s' <= sz ∨ only_locals s' m') ∧ m' ⊆ m ∧ unemptied s s').
Proof.
  intros H Hn. rewrite (i_num _ _ H) in Hn. pose proof (list_bound _ _ H) as Hlb. unfold few in Hn. unfold purge_cache. apply runs_bind, runs_get, runs_bind.
  eapply runs_mono; [eapply (walk_runs (λ _ _, True) _ _ _ [] (rrset_l s) s m); [|done|done|lia|done]|].
  { intros s0 m0 e H0 He. eapply runs_mono; [by apply purge_timedout_runs|]. intros [] s' w (-> & Hw & Hu). done. }
  intros [] s1 w (-> & m1 & Hst1 & Hsub1 & Hu1 & Hso1 & Hml1 & Hlen1 & _). apply runs_bind, runs_get. case_if.
  { apply runs_ret. split; [done|]. exists m1. split_and!; [done|done|by left|done|done]. }
  pose proof (s_inv _ _ _ _ _ Hst1) as H1. apply runs_bind.
  eapply (runs_mono _ _ (λ _ s' w, w = [] ∧ step_ok True s1 m1 s' m1 ∧ unemptied s1 s' ∧ length (rrset_l s') = length (rrset_l s1) ∧ (mallocs s1 = [] → mallocs s' = []))).
  { unfold when. case_if; [|apply runs_ret; split_and!; [done|by apply step_refl|by intros ?|done|done]]. apply runs_bind.
    eapply runs_mono; [apply sort_rrl_ok; [apply H1|unfold zlen in *; lia]|]. intros [] s' w (-> & l & -> & HP & _). apply runs_modify.
    split_and!; [done|by apply step_permute|by intros ?|cbn; by rewrite HP|done]. }
  intros [] s2 w (-> & Hst2 & Hu2 & Hl2 & Hml2). pose proof (s_inv _ _ _ _ _ Hst2) as H2. apply runs_bind, runs_get.
  eapply runs_mono; [eapply (walk_runs local_el _ _ _ [] (rrset_l s2) s2 m1); [|done|done|lia|done]|].
  { intros s0 m0 e H0 He. eapply runs_mono; [by apply purge_oldest_runs|]. intros [] s' w (-> & Hw & Hu & Hloc). split_and!; [done..|].
    intros e' He' Hk. by apply (w_local _ _ _ _ Hw). }
  intros [] s3 w (-> & m3 & Hst3 & Hsub3 & Hu3 & Hso3 & Hml3 & Hlen3 & Hend). split; [done|]. exists m3. split_and!.
  - eapply step_trans; [done|]. by eapply step_trans.
  - naive_solver.
  - destruct Hend as [Hgo|HF]; [left; by zb|right]. apply all_local_el; [|done]. apply (s_inv _ _ _ _ _ Hst3).
  - by etrans.
  - eapply unemptied_trans; [done|]. by eapply unemptied_trans.
Qed.
End Ok.
End DnsCacheOk.
