(* ===== verification/DnsCacheAdd.v ===== *)
(** * Additions to the DNS cache

    [add_cache]: an answer for a name that is new is copied into the cache, sets
    for a name that is there replace older ones unless local data or better
    data precede them.  Every allocation may fail, and then what was begun is
    undone. *)

From S2P Require Import Prelude DnsNames DnsHash DnsCache DnsCacheMem DnsCacheSort DnsCacheOk.
Import DnsNames DnsCache DnsCacheMem DnsCacheSort DnsCacheOk.

Module DnsCacheAdd.
Section Add.
Context {T L : Type} `{!NameTable T L} (global : globparm_t).
Abbreviation st := (@cache T).
Abbreviation names := (gmap key positive).
Implicit Types (s : st) (m : names) (c : dns_cent_t) (p q e : positive) (k : key) (r : rr_set_t).

Lemma runs_assoc {A B C} (f : M st warning A) (g : A → M st warning B) (h : B → M st warning C) s Q :
  runs ((f ≫= g) ≫= h) s Q → runs (f ≫= (λ a, g a ≫= h)) s Q.
Proof.
  unfold runs, mbind, M_bind. destruct (f s) as [[[a s1] w1]|]; [|done]. destruct (g a s1) as [[[b s2] w2]|]; [|done].
  destruct (h b s2) as [[[x s3] w3]|]; [|done]. by rewrite app_assoc.
Qed.

(** ** Times to live *)
Lemma adjust_lent r : lent (adjust_ttl global r) = lent r.
Proof. unfold adjust_ttl. repeat case_if; done. Qed.
Lemma adjust_bytes r : set_bytes (adjust_ttl global r) = set_bytes r.
Proof. unfold adjust_ttl. repeat case_if; done. Qed.
Lemma adjust_local r : has (rflags (adjust_ttl global r)) CF_LOCAL = has (rflags r) CF_LOCAL.
Proof. unfold adjust_ttl. repeat case_if; cbn; try done. by apply has_clear_ne. Qed.

(** ** A set into the list *)

(** What stays of an entry when its sets change but not in size and number. *)
Record attrs c c' : Prop := mkAttrs {
  at_name : qname c' = qname c;
  at_cs : cs c' = cs c;
  at_num : num_rrs c' = num_rrs c;
  at_flags : flags c' = flags c;
  at_refs : c_ns c' = c_ns c ∧ c_soa c' = c_soa c;
  at_len : length (arr_of c') = length (arr_of c);
  at_sets : rr c = Sets (arr_of c) → rr c' = Sets (arr_of c')
}.
Lemma attrs_refl c : attrs c c.
Proof. by split. Qed.
Lemma attrs_trans c1 c2 c3 : attrs c1 c2 → attrs c2 c3 → attrs c1 c3.
Proof. intros [? ? ? ? [? ?] ? ?] [? ? ? ? [? ?] ? ?]. split; [congruence..|split; congruence|congruence|auto]. Qed.

Lemma attrs_put i r r0 c : set_at c i = Some r0 → attrs c (put_set i r 0 c).
Proof.
  intros Hi. split; try done; [cbn; lia|]. unfold put_set. cbn. apply length_insert.
Qed.

Lemma adjust_insert_runs s q c i r :
  mem s → cents s !! q = Some c → set_at c i = Some r → lent r = None →
  runs (store q (set_rr (Sets (<[i := Some (adjust_ttl global r)]> (arr_of c))));; insert_rrl q (Some i)) s
    (λ b s' w, w = [] ∧ mem s' ∧ only q s s' ∧ (mallocs s = [] → b = true) ∧ ∃ c2 r2, cents s' !! q = Some c2 ∧ attrs c c2 ∧
      (∀ j, set_at c2 j = if decide (j = i) then Some r2 else set_at c j) ∧ set_lent None r2 = adjust_ttl global r ∧
      (b = true → lent r2 = None → local_at c2 (Some i) = true)).
Proof.
  intros H Hq Hi Hl. apply runs_bind. eapply runs_store; [done|]. rewrite <-put_set_zero. set (r1 := adjust_ttl global r).
  set (c1 := put_set i r1 0 c).
  assert (Hl1 : lent r1 = None) by (unfold r1; by rewrite adjust_lent).
  destruct (put_set_step s q c i r r1 0) as [Hm1 [Ho1 _]]; [done|done|done|unfold r1; rewrite adjust_bytes; lia|by rewrite Hl1|].
  assert (Hs1 : ∀ j, set_at c1 j = if decide (j = i) then Some r1 else set_at c j) by (intros j; by eapply set_at_put).
  assert (Hi1 : set_at c1 i = Some r1) by (rewrite Hs1; by rewrite decide_True).
  assert (Ha1 : attrs c c1) by by eapply attrs_put.
  eapply runs_mono; [eapply (insert_rrl_runs _ q c1 (Some i)); [done|apply lookup_upd|by exists r1]|].
  intros b s' w (-> & Hm & Ho & Hml & Hres). split_and!; [done|done|by eapply only_trans|done|].
  assert (Hn1 : set_lent None r1 = r1) by (destruct r1; cbn in *; by subst).
  destruct (local_at c1 (Some i)) eqn:Hloc.
  { destruct Hres as [-> ->]. exists c1, r1. split_and!; [apply lookup_upd|done|done|done|done]. }
  destruct Hres as [l Hres]. destruct b.
  - destruct Hres as (ne & l' & _ & _ & ->). exists (list_at (Some i) ne c1), (set_lent (Some ne) r1).
    assert (list_at (Some i) ne c1 = put_set i (set_lent (Some ne) r1) 0 c1) as E by (unfold list_at; by rewrite Hi1).
    split_and!; [apply lookup_insert_eq|rewrite E..|done|done].
    + eapply attrs_trans; [done|]. by eapply attrs_put.
    + intros j. rewrite (set_at_put _ _ _ _ _ _ Hi1), Hs1. by destruct (decide (j = i)).
  - subst s'. exists c1, r1. split_and!; [apply lookup_insert_eq|done|done|done|done].
Qed.

(** All sets of a new entry. *)
Lemma list_sets_runs s q c n i :
  mem s → cents s !! q = Some c → rr c = Sets (arr_of c) → (∀ j r, (i <= j)%nat → set_at c j = Some r → lent r = None) →
  runs (list_sets global q n i) s (λ b s' w, w = [] ∧ mem s' ∧ only q s s' ∧ (mallocs s = [] → b = true) ∧
    ∃ c', cents s' !! q = Some c' ∧ attrs c c' ∧
      (b = true → ∀ j, if decide (i <= j < i + n)%nat
                       then set_lent None <$> set_at c' j = adjust_ttl global <$> set_at c j ∧ (unlisted_at c' (Some j) → local_at c' (Some j) = true)
                       else set_at c' j = set_at c j)).
Proof.
  revert s c i. induction n as [|n IH]; intros s c i H Hq Hr Hu; cbn [list_sets].
  { apply runs_ret. split_and!; [done|done|apply only_refl|done|]. exists c. split_and!; [done|apply attrs_refl|].
    intros _ j. by rewrite decide_False by lia. }
  apply runs_bind. eapply runs_load; [done|]. apply runs_bind. eapply runs_sets_of; [done|]. rewrite <-set_at_arr.
  destruct (set_at c i) as [r|] eqn:Hi.
  - apply runs_assoc, runs_bind. eapply runs_mono; [apply adjust_insert_runs; [done|done|done|by eapply (Hu i)]|].
    intros b s1 w (-> & H1 & Ho1 & Hb1 & c1 & r1 & Hq1 & Ha1 & Hs1 & Hr1 & Hl1). destruct b; cbn [negb].
    2:{ apply runs_ret. split_and!; [done|done|done|done|]. exists c1. by split_and!. }
    eapply runs_mono; [apply (IH s1 c1 (S i)); [done|done|by apply (at_sets _ _ Ha1)|]|].
    { intros j r' Hj. rewrite Hs1, decide_False by lia. apply Hu. lia. }
    intros b s2 w (-> & H2 & Ho2 & Hb2 & c2 & Hq2 & Ha2 & Hs2). split_and!; [done|done|by eapply only_trans| |].
    { intros E. apply Hb2. by apply (o_mallocs _ _ _ Ho1). }
    exists c2. split_and!; [done|by eapply attrs_trans|]. intros Hb j. specialize (Hs2 Hb j).
    destruct (decide (j = i)) as [-> | Hne].
    + rewrite decide_False in Hs2 by lia. rewrite decide_True by lia. rewrite Hs2, Hs1, decide_True, Hi by done. cbn. rewrite Hr1. split; [done|].
      intros (r' & Hr' & Hn'). rewrite Hs2, Hs1, decide_True in Hr' by done. injection Hr' as <-.
      specialize (Hl1 eq_refl Hn'). unfold local_at in *. by rewrite Hs2, (at_flags _ _ Ha2).
    + assert (set_at c1 j = set_at c j) as E by (rewrite Hs1; by rewrite decide_False). rewrite E in Hs2. destruct (decide (S i <= j < S i + n)%nat).
      * by rewrite decide_True by lia.
      * by rewrite decide_False by lia.
  - eapply runs_mono; [apply (IH s c (S i)); [done|done|done|]|].
    { intros j r' Hj. apply Hu. lia. }
    intros b s2 w (-> & H2 & Ho2 & Hb2 & c2 & Hq2 & Ha2 & Hs2). split_and!; [done..|]. exists c2. split_and!; [done..|].
    intros Hb j. specialize (Hs2 Hb j). destruct (decide (j = i)) as [-> | Hne].
    + rewrite decide_False in Hs2 by lia. rewrite decide_True by lia. rewrite Hs2, Hi. split; [done|].
      intros (r' & Hr' & _). congruence.
    + destruct (decide (S i <= j < S i + n)%nat); [by rewrite decide_True by lia|by rewrite decide_False by lia].
Qed.

(** ** A name that is new *)

(** An entry outside of the table has got elements of the list and is freed again. *)
Lemma inv_undo s m q c' s' :
  inv s m → ¬ cached m q → cents s !! q = None → only q (upd q c' s) s' → mem s' →
  ∀ c2, cents s' !! q = Some c2 → step_ok True s m (without q c2 s') m.
Proof.
  intros H Hu Hq Ho Hm c2 Hc2.
  assert (Hne : ∀ k p, m !! k = Some p → p ≠ q) by (intros k p Hk ->; apply Hu; by exists k).
  assert (Hoth : ∀ p, p ≠ q → cents (without q c2 s') !! p = cents s !! p).
  { intros p Hp. rewrite without_others, (o_others _ _ _ Ho) by done. cbn. by rewrite lookup_insert_ne. }
  split; [split|..].
  - by apply mem_without.
  - cbn. rewrite (o_hash _ _ _ Ho). eapply nt_names; [apply H|]. intros k p Hk. unfold qn. by rewrite Hoth by by eapply Hne.
  - cbn. rewrite (o_ent _ _ _ Ho). apply H.
  - change (cache_size (without q c2 s')) with (cache_size s'). rewrite (o_size _ _ _ Ho).
    change (cache_size (upd q c' s)) with (cache_size s). rewrite (i_size _ _ H). apply total_ext. intros k p Hk. unfold cs_of. by rewrite (Hoth p) by by eapply Hne.
  - intros e [p j] He. destruct (without_lents q c2 s' e _ Hm Hc2 He) as [He' Hpq]. cbn in *.
    apply (m_lents _ Hm) in He' as (cp & Hp & Hj). rewrite (o_others _ _ _ Ho) in Hp by done. cbn in Hp. rewrite lookup_insert_ne in Hp by done.
    apply (i_listed _ _ H e (mkLent p j)). eapply mem_listed; [apply H|done|done].
  - intros k p c Hk. rewrite Hoth by by eapply Hne. intros Hp. by eapply i_local.
  - intros _ k p c j r Hk Hp Hj _. split; [done|]. exists c. split; [|done]. by rewrite Hoth by by eapply Hne.
  - intros p c Hp Hup. split; [|done]. rewrite Hoth; [done|]. intros ->. congruence.
  - cbn. by rewrite (o_now _ _ _ Ho).
Qed.

(** The entry goes into the table. *)
Lemma inv_enter s m k q c' s' c2 t :
  inv s m → cents s !! q = None → m !! k = None → only q (upd q c' s) s' → mem s' → cents s' !! q = Some c2 → local_ok c2 →
  nt_holds (qn s') t (<[k := q]> m) →
  step_ok True s m (set_size (cache_size s' + cs c2) (set_ents (ent_num s' + 1) (set_table t s'))) (<[k := q]> m).
Proof.
  intros H Hq Hk Ho Hm Hc2 Hl Ht.
  assert (Hne : ∀ k' p, m !! k' = Some p → p ≠ q).
  { intros k' p Hk' ->. destruct (inv_cent _ _ _ _ H Hk') as (cq & ls & Hcq & _). congruence. }
  assert (Hoth : ∀ p, p ≠ q → cents s' !! p = cents s !! p).
  { intros p Hp. rewrite (o_others _ _ _ Ho) by done. cbn. by rewrite lookup_insert_ne. }
  split; [split|..]; cbn.
  - by destruct Hm.
  - exact Ht.
  - rewrite (o_ent _ _ _ Ho). change (ent_num (upd q c' s)) with (ent_num s).
    rewrite (i_num _ _ H), map_size_insert_None by done. lia.
  - rewrite (o_size _ _ _ Ho). cbn. rewrite (i_size _ _ H), total_insert by done. unfold cs_of at 1. rewrite Hc2.
    rewrite (total_ext (cents s') (cents s)); [lia|]. intros k' p Hk'. unfold cs_of. by rewrite Hoth by by eapply Hne.
  - intros e [p j] He. cbn. destruct (decide (p = q)) as [-> | Hp]; [exists k; by rewrite lookup_insert_eq|].
    apply (m_lents _ Hm) in He as (cp & Hcp & Hj). rewrite Hoth in Hcp by done.
    destruct (i_listed _ _ H e (mkLent p j)) as [k' Hk']; [eapply mem_listed; [apply H|done|done]|]. cbn in Hk'.
    exists k'. rewrite lookup_insert_ne; [done|]. congruence.
  - intros k' p c [[<- <-]|[_ Hk']]%lookup_insert_Some Hp; [by assert (c = c2) as -> by congruence|].
    rewrite Hoth in Hp by by eapply Hne. by eapply i_local.
  - intros _ k' p c j r Hk' Hp Hj _. rewrite lookup_insert_ne by congruence. split; [done|]. exists c. split; [|done].
    by rewrite Hoth by by eapply Hne.
  - intros p c Hp Hup. assert (p ≠ q) by congruence. rewrite Hoth by done. split; [done|].
    intros [k' [[_ E]|[_ Hk']]%lookup_insert_Some]; [congruence|]. apply Hup. by exists k'.
  - by rewrite (o_now _ _ _ Ho).
Qed.

(** What the cache holds of an entry: the times to live are within the limits. *)
Definition adjust_neg (f t : Z) : Z :=
  if has f DF_NOCACHE then 0
  else
    let mn := if neg_ttl global <? min_ttl global then neg_ttl global else min_ttl global in
    if t <? mn then mn else if t >? max_ttl global then max_ttl global else t.
Definition adjusted c : dns_cent_t :=
  match rr c with
  | Neg _ t t0 =>
      set_rr (Neg None (adjust_neg (flags c) t) t0)
        (set_flags (if has (flags c) DF_NOCACHE then clear (flags c) DF_NOCACHE else flags c) c)
  | Sets arr => set_rr (Sets (option_map (λ r, set_lent None (adjust_ttl global r)) <$> arr)) c
  end.

Lemma adjust_dom_runs c x t t0 s (Q : dns_cent_t → st → list warning → Prop) :
  rr c = Neg x t t0 →
  (∀ c', rr c' = Neg x (adjust_neg (flags c) t) t0 → unlisted c' = adjusted c → qname c' = qname c → cs c' = cs c → num_rrs c' = num_rrs c →
     c_ns c' = c_ns c → c_soa c' = c_soa c → has (flags c') DF_NEGATIVE = has (flags c) DF_NEGATIVE → Q c' s []) →
  runs (adjust_dom_ttl global c) s Q.
Proof.
  intros Hr HQ. unfold adjust_dom_ttl, unlisted, adjusted, adjust_neg in *. rewrite Hr in *. apply runs_ret. apply HQ.
  all: repeat case_if; try done.
  all: try (destruct c; cbn in *; by subst).
  cbn. by apply has_clear_ne.
Qed.

Lemma adjust_unlist r : adjust_ttl global (set_lent None r) = set_lent None (adjust_ttl global r).
Proof. unfold adjust_ttl. cbn. repeat case_if; done. Qed.

Lemma unlisted_adjusted c c2 : attrs (unlisted c) c2 → rr c = Sets (arr_of c) →
  (∀ j, (j < length (arr_of c))%nat → set_lent None <$> set_at c2 j = adjust_ttl global <$> set_at (unlisted c) j) →
  unlisted c2 = adjusted c.
Proof.
  intros [E1 E2 E3 E4 [E5 E6] E7 E8] Hr Hs. unfold adjusted. rewrite Hr.
  assert (Ea : arr_of (unlisted c) = unlisted_arr (arr_of c)) by (unfold unlisted, arr_of at 1; cbn; by rewrite Hr).
  assert (Hr2 : rr c2 = Sets (arr_of c2)) by (apply E8; unfold unlisted, arr_of; cbn; by rewrite Hr).
  unfold unlisted at 1. rewrite Hr2. rewrite Ea in E7. unfold unlisted_arr in E7. rewrite length_fmap in E7.
  assert (unlisted_arr (arr_of c2) = option_map (λ r, set_lent None (adjust_ttl global r)) <$> arr_of c) as ->.
  { apply list_eq. intros j. unfold unlisted_arr. rewrite !list_lookup_fmap. destruct (decide (j < length (arr_of c))%nat) as [Hj|Hj].
    - specialize (Hs j Hj). rewrite set_at_unlisted, !set_at_arr in Hs.
      destruct (lookup_lt_is_Some_2 (arr_of c) j Hj) as [x Hx]. destruct (lookup_lt_is_Some_2 (arr_of c2) j) as [y Hy]; [lia|].
      rewrite Hx, Hy in *. cbn in *. f_equal. destruct x, y; cbn in *; try done. injection Hs as Hs. by rewrite Hs, adjust_unlist.
    - rewrite !lookup_ge_None_2 by lia. done. }
  unfold set_rr. cbn in *. by rewrite E1, E2, E3, E4, E5, E6.
Qed.

Definition listing (q : positive) c : M st warning bool :=
  if negb (has (flags c) DF_NEGATIVE) then arr ← sets_of c; list_sets global q (length arr) 0
  else c' ← adjust_dom_ttl global c; store q (λ _, c');; insert_rrl q None.

Lemma listing_runs s q c :
  mem s → cent_ok c → cents s !! q = Some (unlisted c) →
  runs (listing q (unlisted c)) s (λ b s' w, w = [] ∧ mem s' ∧ only q s s' ∧ (mallocs s = [] → b = true) ∧
    ∃ c2, cents s' !! q = Some c2 ∧ cs c2 = cs c ∧ (b = true → local_ok c2 ∧ unlisted c2 = adjusted c)).
Proof.
  intros H Hc Hq. pose proof (unlisted_ok _ Hc) as Hc0. unfold listing. rewrite (shape_neg _ Hc0).
  destruct (rr c) as [x t t0|arr] eqn:Hr.
  - assert (rr (unlisted c) = Neg None t t0) as Hr0 by (unfold unlisted; cbn; by rewrite Hr). rewrite Hr0. cbn [negb].
    apply runs_bind. eapply adjust_dom_runs; [done|]. intros c1 Hr1 Hu1 En Ecs Enum Ens Esoa Eneg. apply runs_bind.
    eapply runs_store; [done|]. destruct Hc0 as [Hn0 Hs0 Hrf0].
    destruct (step_upd s q (unlisted c) c1) as [Hm1 [Ho1 _]]; [done|done| |done| |].
    { split; [by rewrite En| |by rewrite Ens, Esoa]. unfold shape_ok in *. rewrite Hr0 in Hs0. by rewrite Hr1, Eneg, Enum, Ecs, En. }
    { intros [j|]; unfold lent_at; by rewrite Hr0, Hr1. }
    assert (Had : adjusted (unlisted c) = adjusted c).
    { unfold adjusted. rewrite Hr0. unfold unlisted. rewrite Hr. done. }
    eapply runs_mono; [eapply (insert_rrl_runs _ q c1 None); [done|apply lookup_upd|cbn; eauto]|].
    intros b s' w (-> & Hm & Ho & Hml & Hres). split_and!; [done|done|by eapply only_trans|done|].
    destruct (local_at c1 None) eqn:Hloc.
    { destruct Hres as [-> ->]. exists c1. split_and!; [apply lookup_upd|done|]. intros _. split; [|by rewrite Hu1].
      intros [j|] Hu; [|done]. destruct Hu as (r & Hj & _). unfold set_at in Hj. by rewrite Hr1 in Hj. }
    destruct Hres as [l Hres]. destruct b.
    + destruct Hres as (ne & l' & _ & _ & ->). exists (list_at None ne c1). unfold list_at. rewrite Hr1.
      split_and!; [cbn; unfold list_at; rewrite Hr1; apply lookup_insert_eq|done|]. intros _. split.
      * intros [j|] Hu; cbn in Hu; [destruct Hu as (r & Hj & _); done|by destruct Hu as (? & ? & ?)].
      * rewrite <-Had, <-Hu1. unfold unlisted. cbn. by rewrite Hr1.
    + subst s'. exists c1. split_and!; [apply lookup_insert_eq|done|done].
  - assert (Ea : arr_of c = arr) by by apply arr_of_sets.
    assert (rr (unlisted c) = Sets (unlisted_arr arr)) as Hr0 by (unfold unlisted; cbn; by rewrite Hr). rewrite Hr0. cbn [negb].
    pose proof (arr_of_sets _ _ Hr0) as Ea0. apply runs_bind. eapply runs_sets_of; [done|].
    eapply runs_mono; [eapply (list_sets_runs s q (unlisted c)); [done|done|by rewrite Ea0|]|].
    { intros j r _ Hj. rewrite set_at_unlisted in Hj. destruct (set_at c j); [|done]. by injection Hj as <-. }
    intros b s' w (-> & Hm & Ho & Hml & c2 & Hq2 & Ha2 & Hs2). split_and!; [done..|]. exists c2.
    split_and!; [done|by rewrite (at_cs _ _ Ha2)|]. intros Hb. specialize (Hs2 Hb).
    assert (Hlen : length (unlisted_arr arr) = length arr) by (unfold unlisted_arr; by rewrite length_fmap). split.
    + intros [j|] Hu.
      * specialize (Hs2 j). case_decide; [by apply Hs2|]. destruct Hu as (r & Hj & _). apply set_at_lt in Hj.
        rewrite (at_len _ _ Ha2), Ea0 in Hj. lia.
      * destruct Hu as (t & t0 & Hu). rewrite (at_sets _ _ Ha2) in Hu; [done|by rewrite Ea0].
    + apply unlisted_adjusted; [done|by rewrite Ea|]. intros j Hj. rewrite Ea in Hj. specialize (Hs2 j). rewrite decide_True in Hs2; [by apply Hs2|lia].
Qed.

Lemma add_new_runs s m p c ls loc :
  inv s m → cents s !! p = Some c → ¬ cached m p → qname c = wire ls → name_ok ls → m !! fold_name ls = None →
  (∀ qn' q, (∀ k p, m !! k = Some p → qn' p = qn s p) → qn' q = Some (wire ls) →
     ∃ t', nt_add q loc (hash_buckets s) = Some t' ∧ nt_holds qn' t' (<[fold_name ls := q]> m)) →
  runs (add_new global p loc) s (λ b s' w, silent w ∧ (b = true → w = []) ∧ (mallocs s = [] → b = true ∧ mallocs s' = []) ∧
    if b then ∃ q c2, step_ok True s m s' (<[fold_name ls := q]> m) ∧ cents s' !! q = Some c2 ∧ unlisted c2 = adjusted c ∧
           cache_size s' = cache_size s + cs c ∧ (∀ p', p' ≠ q → cents s' !! p' = cents s !! p') ∧ insert_sort s' = insert_sort s
    else step_ok True s m s' m).
Proof.
  intros H Hp Hu Hn Hls Hk Hloc. pose proof (m_cents _ (i_mem _ _ H) _ _ Hp) as Hc. unfold add_new. apply runs_bind.
  eapply runs_mono; [by eapply copy_cent_runs; [apply H|]|]. intros r s1 w (-> & Hm1 & Hml1 & Hr). destruct r as [q|].
  2:{ destruct Hr as [l ->]. apply runs_bind, runs_emit, runs_ret. split; [by repeat constructor|]. split; [done|]. split; [naive_solver|].
      apply step_mallocs. by apply step_refl. }
  pose proof (inv_new _ _ _ _ _ H Hr Hm1) as [H1 Huq]. destruct Hr as [Hq [l ->]].
  assert (Hq1 : cents (set_mallocs l (upd q (unlisted c) s)) !! q = Some (unlisted c)) by apply lookup_insert_eq.
  apply runs_bind. eapply runs_load; [done|]. apply runs_bind. eapply runs_mono; [by apply listing_runs|].
  intros b s2 w (-> & Hm2 & Ho2 & Hml2 & c2 & Hq2 & Hcs & Hb).
  assert (Ho : only q (upd q (unlisted c) s) s2).
  { eapply only_trans; [|exact Ho2]. apply only_mallocs. cbn. naive_solver. }
  apply runs_bind.
  eapply (runs_mono _ _ (λ ok s' w, w = [] ∧ (∃ l, s' = set_mallocs l s2) ∧ (mallocs s = [] → ok = true ∧ mallocs s' = []) ∧ (ok = true → b = true))).
  { assert (Hml : mallocs s = [] → b = true ∧ mallocs s2 = []).
    { intros E. destruct (Hml1 E) as [E' _]. split; [by apply Hml2|by apply (o_mallocs _ _ _ Ho2)]. }
    destruct b.
    - apply runs_malloc. intros ok l' Hl'. split_and!; [done|eauto|naive_solver|done].
    - apply runs_ret. split_and!; [done|exists (mallocs s2); by destruct s2|naive_solver|done]. }
  intros ok s3 w (-> & [l' ->] & Hml3 & Hok). assert (Hm3 : mem (set_mallocs l' s2)) by by apply mem_mallocs.
  destruct ok.
  - destruct (Hb (Hok eq_refl)) as [Hl2 Hu2].
    destruct (Hloc (qn s2) q) as (t & Et & Ht).
    { intros k' p' Hk'. unfold qn. rewrite (o_others _ _ _ Ho); [|intros ->; apply Huq; by exists k']. cbn. rewrite lookup_insert_ne; [done|].
      intros <-. apply Huq. by exists k'. }
    { unfold qn. rewrite (o_name _ _ _ Ho). cbn. rewrite lookup_insert_eq. cbn. by rewrite Hn. }
    apply runs_bind, runs_get, runs_bind. eapply runs_lift; [cbn; rewrite (o_hash _ _ _ Ho); exact Et|].
    apply runs_bind, runs_modify, runs_bind, runs_modify, runs_bind. eapply (runs_load q c2); [exact Hq2|].
    apply runs_bind, runs_modify, runs_ret. split; [constructor|]. split; [done|]. split; [naive_solver|]. exists q, c2. split_and!.
    + apply (step_mallocs _ _ _ (set_size (cache_size s2 + cs c2) (set_ents (ent_num s2 + 1) (set_table t s2)))).
      by eapply inv_enter.
    + exact Hq2.
    + done.
    + cbn. rewrite (o_size _ _ _ Ho). cbn. by rewrite Hcs.
    + intros p' Hp'. cbn. rewrite (o_others _ _ _ Ho) by done. cbn. by apply lookup_insert_ne, not_eq_sym.
    + by apply (o_sort _ _ _ Ho).
  - apply runs_bind. eapply (free_cent_runs _ q c2); [done|exact Hq2|]. apply runs_bind. unfold free. apply runs_modify.
    apply runs_bind, runs_emit, runs_ret. split; [by repeat constructor|]. split; [done|]. split; [naive_solver|].
    apply (step_mallocs _ _ _ (without q c2 s2)). by eapply inv_undo.
Qed.

(** ** A name that is there

    What the addition of sets to an entry keeps: what of it is not in the list
    is local, and local sets are as before if [P] holds. *)
Definition local_but (x : option (option nat)) c : Prop := ∀ i, Some i ≠ x → unlisted_at c i → local_at c i = true.

Record merged (P : Prop) (x : option (option nat)) q s c s' c' : Prop := mkMerged {
  g_mem : mem s';
  g_only : only q s s';
  g_cent : cents s' !! q = Some c';
  g_local : local_but x c';
  g_flags b : Z.ldiff b (Z.lor DF_NEGATIVE DF_AUTH) = b → has (flags c') b = has (flags c) b;
  g_refs : c_ns c' = c_ns c ∧ c_soa c' = c_soa c;
  g_spares : P → ∀ j r, set_at c j = Some r → has (rflags r) CF_LOCAL = true → set_at c' j = Some r
}.

Lemma merged_refl P x q s c : mem s → cents s !! q = Some c → local_but x c → merged P x q s c s c.
Proof. intros. by split; [|apply only_refl|..]. Qed.

Lemma merged_trans P x y q s1 c1 s2 c2 s3 c3 : merged P x q s1 c1 s2 c2 → merged P y q s2 c2 s3 c3 → merged P y q s1 c1 s3 c3.
Proof.
  intros [A1 A2 A3 A4 A5 [A6 A6'] A7] [B1 B2 B3 B4 B5 [B6 B6'] B7]. split; [done|by eapply only_trans|done|done| |split; congruence|].
  - intros b Hb. by rewrite B5, A5.
  - intros HP j r Hj Hl. apply B7; [done|by apply A7|done].
Qed.

Lemma local_but_none c : local_but None c ↔ local_ok c.
Proof. split; [intros H i; by apply H|intros H i _; apply H]. Qed.
Lemma local_but_some x c : local_ok c → local_but x c.
Proof. intros H i _. apply H. Qed.
Lemma local_but_gone i c : local_but (Some (Some i)) c → set_at c i = None → local_ok c.
Proof.
  intros H Hi j Hj. apply H; [|done]. intros [= ->]. destruct Hj as (r & Hr & _). congruence.
Qed.
Lemma ldiff_sub b x y : Z.ldiff b (Z.lor x y) = b → Z.ldiff b x = b ∧ Z.ldiff b y = b.
Proof.
  intros Hb. split; apply Z.bits_inj'; intros n Hn; rewrite <-Hb, !Z.ldiff_spec, Z.lor_spec;
    destruct (Z.testbit b n), (Z.testbit x n), (Z.testbit y n); done.
Qed.

(** Deletion of a set; the place may be the one that is excepted. *)
Lemma merged_drop (P : Prop) x q s c i r :
  mem s → cents s !! q = Some c → set_at c i = Some r → local_but x c → (P → has (rflags r) CF_LOCAL = false) →
  mem (upd q (drop_set i r c) (unlist (option_list (lent r)) s)) →
  merged P x q s c (upd q (drop_set i r c) (unlist (option_list (lent r)) s)) (drop_set i r c).
Proof.
  intros H Hq Hi Hl Hn Hm. split; [done|by eapply only_upd|apply lookup_insert_eq| | |done|].
  - intros [j|] Hj Hu; [|by destruct Hu as (? & ? & ?)]. destruct Hu as (r' & Hr' & Hlr). rewrite (set_at_drop _ _ _ _ Hi) in Hr'.
    case_decide as E; [done|]. specialize (Hl (Some j) Hj (ex_intro _ r' (conj Hr' Hlr))). unfold local_at in *.
    rewrite (set_at_drop _ _ _ _ Hi), decide_False by done. cbn [flags drop_set]. by rewrite has_clear_ne.
  - intros b Hb. cbn. by apply has_clear_ne, (ldiff_sub _ DF_NEGATIVE).
  - intros HP j r' Hj Hloc. rewrite (set_at_drop _ _ _ _ Hi). case_decide; [|done]. subst j. rewrite Hi in Hj. injection Hj as <-.
    by rewrite (Hn HP) in Hloc.
Qed.

Lemma del_merge_runs (P : Prop) x q s c i :
  mem s → cents s !! q = Some c → local_but x c →
  (P → ∀ r, set_at c i = Some r → has (rflags r) CF_LOCAL = false) →
  runs (del_cent_rrset_by_index q i) s (λ _ s' w, w = [] ∧ ∃ c', merged P x q s c s' c' ∧
    (∀ j, set_at c' j = if decide (j = i) then None else set_at c j)).
Proof.
  intros H Hq Hl Hn. eapply runs_mono; [by eapply del_set_runs|]. intros n s' w (-> & Hm & Hs). split; [done|].
  destruct (set_at c i) as [r|] eqn:Hi.
  - destruct Hs as [_ ->]. exists (drop_set i r c). split; [apply merged_drop; try done; intros HP; by apply Hn|]. intros j. by apply set_at_drop.
  - destruct Hs as [_ ->]. exists c. split; [by apply merged_refl|]. intros j. case_decide; [by subst|done].
Qed.

(** *** Conflicts *)
Definition conflicts (rri : Z * Z) c (i : nat) : Prop :=
  ∃ r info, set_at c i = Some r ∧ rr_info !! i = Some info ∧ negb (has (rflags r) CF_NEGATIVE) && conflict rri info = true.

Lemma count_conflicts_ok t rri arr infos n sum : count_conflicts t rri arr infos = Some (n, sum) →
  ∀ i r info, arr !! i = Some (Some r) → infos !! i = Some info → negb (has (rflags r) CF_NEGATIVE) && conflict rri info = true →
  has (rflags r) CF_LOCAL = false.
Proof.
  revert infos n sum. induction arr as [|x arr IH]; intros infos n sum E i r info Hi Hinf Hc; [done|].
  destruct infos as [|y infos]; [by rewrite lookup_nil in Hinf|]. cbn in E. destruct i as [|i]; cbn in Hi, Hinf.
  - injection Hi as ->. injection Hinf as ->. rewrite Hc in E. by destruct (has (rflags r) CF_LOCAL).
  - destruct x as [r0|]; [|by eapply IH]. destruct (negb _ && _); [|by eapply IH].
    destruct (has (rflags r0) CF_LOCAL); [done|]. destruct (count_conflicts t rri arr infos) as [[n' sum']|] eqn:E'; [|done]. by eapply IH.
Qed.

Lemma del_conflicts_runs (P : Prop) x q rri s c n i :
  mem s → cents s !! q = Some c → local_but x c → (i + n <= length rr_info)%nat →
  (P → ∀ j r, conflicts rri c j → set_at c j = Some r → has (rflags r) CF_LOCAL = false) →
  runs (del_conflicts q rri n i) s (λ _ s' w, w = [] ∧ ∃ c', merged P x q s c s' c' ∧
    (∀ j, set_at c' j = None ∨ set_at c' j = set_at c j)).
Proof.
  revert s c i. induction n as [|n IH]; intros s c i H Hq Hl Hi Hn; cbn [del_conflicts].
  { apply runs_ret. split; [done|]. exists c. split; [by apply merged_refl|]. by right. }
  apply runs_bind. eapply runs_load; [done|]. apply runs_bind, runs_rrarr; [by eapply m_cents|].
  destruct (lookup_lt_is_Some_2 rr_info i) as [info Hinfo]; [lia|]. apply runs_bind. eapply runs_lift; [done|]. rewrite <-set_at_arr.
  apply runs_bind.
  eapply (runs_mono _ _ (λ _ s' w, w = [] ∧ ∃ c', merged P x q s c s' c' ∧ ∀ j, set_at c' j = None ∨ set_at c' j = set_at c j)).
  { assert (Hno : ∃ c', merged P x q s c s c' ∧ ∀ j, set_at c' j = None ∨ set_at c' j = set_at c j) by (exists c; split; [by apply merged_refl|by right]).
    destruct (set_at c i) as [r|] eqn:Hr; [|by apply runs_ret]. unfold when. destruct (negb _ && _) eqn:Hcf; [|by apply runs_ret].
    apply runs_bind. eapply runs_mono; [apply (del_merge_runs P x q s c i); [done..|]|].
    { intros HP r' Hr'. apply (Hn HP i); [by exists r, info|done]. }
    intros z s' w (-> & c' & Hg & Hs). apply runs_ret. split; [done|]. exists c'. split; [done|]. intros j. rewrite Hs. case_decide; naive_solver. }
  intros [] s1 w (-> & c1 & Hg1 & Hs1). eapply runs_mono; [apply (IH s1 c1 (S i)); [by destruct Hg1..|lia|]|].
  { intros HP j r (r' & info' & Hj & Hinf & Hcf) Hj'. destruct (Hs1 j) as [E|E]; [congruence|]. rewrite E in Hj, Hj'.
    apply (Hn HP j); [by exists r', info'|done]. }
  intros [] s2 w (-> & c2 & Hg2 & Hs2). split; [done|]. exists c2. split; [by eapply merged_trans|].
  intros j. destruct (Hs2 j) as [E|E]; [by left|]. rewrite E. apply Hs1.
Qed.

Lemma cr_check_runs (P : Prop) x q s c i t f :
  mem s → cents s !! q = Some c → local_but x c → (i < length rr_info)%nat → (P → has f CF_LOCAL = false) →
  runs (cr_check_add q i t f) s (λ _ s' w, w = [] ∧ ∃ c', merged P x q s c s' c' ∧ (∀ j, set_at c' j = None ∨ set_at c' j = set_at c j)).
Proof.
  intros H Hq Hl Hi HP. pose proof (m_cents _ H _ _ Hq) as Hc. unfold cr_check_add.
  assert (Hno : ∃ c', merged P x q s c s c' ∧ ∀ j, set_at c' j = None ∨ set_at c' j = set_at c j) by (exists c; split; [by apply merged_refl|by right]).
  case_if; [by apply runs_ret|]. apply runs_bind, runs_get, runs_bind. eapply runs_load; [done|]. apply runs_bind.
  destruct (lookup_lt_is_Some_2 rr_info i Hi) as [rri Hrri]. eapply runs_lift; [done|]. apply runs_bind, runs_rrarr; [done|].
  apply runs_bind.
  eapply (runs_mono _ _ (λ '(v, _) s' w, s' = s ∧ w = [] ∧
    (P → v = None → ∀ j r, conflicts rri c j → set_at c j = Some r → has (rflags r) CF_LOCAL = false))).
  { case_if; [apply runs_ret; split_and!; [done|done|]; intros HP'; specialize (HP HP'); congruence|].
    case_if; [by apply runs_ret|]. destruct (count_conflicts _ _ _ _) as [[n sum]|] eqn:Ecc; [|by apply runs_ret].
    case_if; [by apply runs_ret|]. apply runs_ret. split_and!; [done|done|]. intros _ _ j r (r' & info & Hj & Hinf & Hcf) Hj'.
    assert (r' = r) as -> by congruence. eapply count_conflicts_ok; [exact Ecc|by apply set_at_lookup|done|done]. }
  intros [v nttl] s' w (-> & -> & Hv). cbn beta iota. destruct v as [b|]; [by apply runs_ret|]. case_if; [|by apply runs_ret].
  apply runs_bind. eapply runs_mono; [apply (del_conflicts_runs P x q rri s c); [done..| |by intros HP'; apply Hv]|].
  { pose proof (c_shape _ Hc) as Hs. unfold shape_ok, arr_of, zlen, NRRMU, NRRTOT in *. destruct (rr c); cbn [length rr_info] in *; [cbn; lia|]. cbn. lia. }
  intros [] s' w (-> & c' & Hg & Hs). apply runs_ret. split; [done|]. by exists c'.
Qed.

(** *** Replacement of a set *)
Lemma merged_keeps (P : Prop) q s c s' c' i :
  edits q s s' → mem s' → cents s' !! q = Some c' → keeps c c' → rr c' = Sets (arr_of c') →
  (∀ j, j ≠ i → set_at c' j = set_at c j) → local_but (Some (Some i)) c →
  (P → ∀ r, set_at c i = Some r → has (rflags r) CF_LOCAL = false) →
  merged P (Some (Some i)) q s c s' c'.
Proof.
  intros [Ho _] Hm Hq [Hf Hrf] Hr Hs Hl Hn. split; [done|done|done| | |done|].
  - intros [j|] Hj Hu; [|destruct Hu as (? & ? & ?); congruence]. destruct Hu as (r & Hjr & Hlr). assert (j ≠ i) as Hji by congruence.
    specialize (Hs j Hji). rewrite Hjr in Hs. specialize (Hl (Some j) Hj (ex_intro _ r (conj (eq_sym Hs) Hlr))).
    unfold local_at in *. rewrite Hjr. rewrite <-Hs in Hl. by rewrite Hf.
  - intros b Hb. by apply Hf, (ldiff_sub _ _ DF_AUTH).
  - intros HP j r Hj Hloc. destruct (decide (j = i)) as [-> | Hji]; [|by rewrite Hs]. specialize (Hn HP r Hj). congruence.
Qed.

Lemma add_rrs_runs (P : Prop) q i r l tail s c r0 :
  mem s → cents s !! q = Some c → (i < Z.to_nat NRRTOT)%nat → set_at c i = Some r0 → (tail = false → rrs r0 = []) →
  local_but (Some (Some i)) c → (P → has (rflags r0) CF_LOCAL = false) →
  runs (add_rrs q (Z.of_nat i) r l tail) s (λ b s' w, w = [] ∧ (mallocs s = [] → b = true) ∧
    ∃ c' r', merged P (Some (Some i)) q s c s' c' ∧ set_at c' i = Some r' ∧ lent r' = lent r0 ∧ rflags r' = rflags r0 ∧ (b = true → r' = set_rrs (rrs r0 ++ l) r0)).
Proof.
  revert tail s c r0. induction l as [|d l IH]; intros tail s c r0 H Hq Hi Hr0 Ht Hl Hn; cbn [add_rrs].
  { apply runs_ret. split_and!; [done|done|]. exists c, r0. split_and!; [by apply merged_refl|done..|]. intros _. rewrite app_nil_r. by destruct r0. }
  apply runs_bind. eapply runs_mono; [apply (add_rr_int_runs s q c)|]; [done|done|unfold NRRTOT in *; lia|rewrite Nat2Z.id, Hr0; eauto|].
  intros b s1 w (-> & H1 & He1 & Hb1 & c1 & Hq1 & Hk1 & Hs1 & _). rewrite Nat2Z.id in Hs1.
  assert (Hi1 : set_at c1 i = Some (if b then with_rr tail d r0 else r0)).
  { rewrite Hs1, decide_both, Hr0. destruct b; [by rewrite decide_True|done]. }
  assert (Hg1 : merged P (Some (Some i)) q s c s1 c1).
  { eapply merged_keeps; [done..|by eapply set_at_sets| |done|intros HP r' Hr'; rewrite Hr0 in Hr'; injection Hr' as <-; by apply Hn].
    intros j Hj. rewrite Hs1, decide_both. destruct b; [by rewrite decide_False|done]. }
  destruct b; cbn [negb].
  2:{ apply runs_ret. split_and!; [done|done|]. exists c1, r0. by split_and!. }
  assert (Hw : with_rr tail d r0 = set_rrs (rrs r0 ++ [d]) r0).
  { unfold with_rr. destruct tail; [done|]. by rewrite (Ht eq_refl). }
  rewrite Hw in Hi1. eapply runs_mono; [apply (IH true s1 c1 (set_rrs (rrs r0 ++ [d]) r0)); [by destruct Hg1..|exact Hn]|].
  intros b s2 w (-> & Hb2 & c2 & r2 & Hg2 & Hr2 & Hl2 & Hf2 & Hc2). split_and!; [done| |].
  { intros E. apply Hb2. by apply (o_mallocs _ _ _ (e_only _ _ _ He1)). }
  exists c2, r2. split_and!; [by eapply merged_trans|done|done|done|]. intros Hb. rewrite (Hc2 Hb). cbn. by rewrite <-app_assoc.
Qed.

(** The set that the cache holds of a new one. *)
Definition cached_set r : rr_set_t := adjust_ttl global (set_lent None r).

(** The set is in the list. *)
Lemma merged_listed (P : Prop) q i s c s' c' r r' :
  mem s' → only q s s' → cents s' !! q = Some c' → attrs c c' → set_at c i = Some r →
  (∀ j, set_at c' j = if decide (j = i) then Some r' else set_at c j) → local_but (Some (Some i)) c →
  (P → has (rflags r) CF_LOCAL = false) → merged P (Some (Some i)) q s c s' c'.
Proof.
  intros Hm Ho Hq Ha Hi Hs Hl Hn. split; [done|done|done| |intros b' _; by rewrite (at_flags _ _ Ha)|apply Ha|].
  - intros [j|] Hj Hu.
    + destruct Hu as (x & Hx & Hlx). rewrite Hs, decide_False in Hx by congruence.
      pose proof (Hl (Some j) Hj (ex_intro _ x (conj Hx Hlx))) as Hloc. unfold local_at in *.
      rewrite Hs, decide_False by congruence. by rewrite (at_flags _ _ Ha).
    + destruct Hu as (? & ? & Hu). rewrite (at_sets _ _ Ha) in Hu; [done|by eapply set_at_sets].
  - intros HP j x Hj Hloc. rewrite Hs. destruct (decide (j = i)) as [-> | Hji]; [|done]. rewrite Hi in Hj. injection Hj as <-.
    by rewrite (Hn HP) in Hloc.
Qed.

(** The set that was excepted is gone, or is listed or local. *)
Lemma merged_end (P : Prop) x q s c s' c' : merged P x q s c s' c' → local_ok c' → merged P None q s c s' c'.
Proof. intros [] Hl. split; try done. by apply local_but_none. Qed.

(** The last part of [replace_set]: the records are there, the set goes into
    the list, or is deleted if memory is missing. *)
Lemma replace_end_runs (P : Prop) q i r (ok : bool) s c r4 :
  mem s → cents s !! q = Some c → set_at c i = Some r4 → lent r4 = None → (ok = true → r4 = set_lent None r) →
  local_but (Some (Some i)) c → (P → has (rflags r4) CF_LOCAL = false) →
  runs (ok ← (if ok then
                c ← load q;
                arr ← sets_of c;
                x ← lift (mjoin (arr !! i));
                store q (set_rr (Sets (<[i := Some (adjust_ttl global x)]> arr)));;
                insert_rrl q (Some i)
              else mret false);
        if (ok : bool) then mret (Some true) else del_cent_rrset_by_index q i;; mret None) s
    (λ res s' w, w = [] ∧ (mallocs s = [] → ok = true → res ≠ None) ∧ ∃ c', merged P None q s c s' c' ∧
      (res = Some true → ∃ r', set_at c' i = Some r' ∧ set_lent None r' = cached_set r)).
Proof.
  intros H Hq Hi Hlr Hr Hl Hn. apply runs_bind.
  eapply (runs_mono _ _ (λ b s' w, w = [] ∧ (mallocs s = [] → ok = true → b = true) ∧ ∃ c', merged P (Some (Some i)) q s c s' c' ∧
    ∃ r', set_at c' i = Some r' ∧ (P → has (rflags r') CF_LOCAL = false) ∧ (b = true → local_ok c' ∧ set_lent None r' = cached_set r))).
  - destruct ok; [|apply runs_ret; split_and!; [done|done|]; exists c; split; [by apply merged_refl|]; by exists r4].
    apply runs_bind. eapply runs_load; [done|]. apply runs_bind. eapply runs_sets_of; [by eapply set_at_sets|].
    apply runs_bind. eapply runs_lift; [by rewrite <-set_at_arr|]. eapply runs_mono; [by apply adjust_insert_runs|].
    intros b s5 w (-> & H5 & Ho5 & Hb5 & c5 & r5 & Hq5 & Ha5 & Hs5 & Hr5 & Hl5). split_and!; [done|auto|]. exists c5.
    assert (Hg5 : merged P (Some (Some i)) q s c s5 c5) by by eapply merged_listed. split; [done|].
    exists r5. split_and!; [by rewrite Hs5, decide_True| |].
    { intros HP. change (rflags r5) with (rflags (set_lent None r5)). rewrite Hr5, adjust_local. by apply Hn. }
    intros Hb. split; [|by rewrite Hr5, (Hr eq_refl)]. intros j Hj. destruct (decide (j = Some i)) as [-> | Hne].
    + apply Hl5; [done|]. destruct Hj as (x & Hx & Hlx). rewrite Hs5, decide_True in Hx by done. by injection Hx as <-.
    + apply (g_local _ _ _ _ _ _ _ Hg5); [congruence|done].
  - intros b s5 w (-> & Hb5 & c5 & Hg5 & r5 & Hi5 & Hp5 & Hend). destruct b.
    + apply runs_ret. split_and!; [done|done|]. exists c5. destruct (Hend eq_refl) as [Hlk Hr5]. split; [by eapply merged_end|eauto].
    + apply runs_bind. eapply runs_mono; [apply (del_merge_runs P (Some (Some i)) q s5 c5 i); [by destruct Hg5..|]|].
      { intros HP' r' Hr'. rewrite Hi5 in Hr'. injection Hr' as <-. by apply Hp5. }
      intros z s6 w (-> & c6 & Hg6 & Hs6). apply runs_ret. split_and!; [done|intros E Ho; by apply (Hb5 E) in Ho|]. exists c6.
      split; [|done]. eapply merged_end; [by eapply merged_trans|]. eapply local_but_gone; [apply Hg6|]. by rewrite Hs6, decide_True.
Qed.

Lemma replace_set_runs (P : Prop) q i r s c :
  mem s → cents s !! q = Some c → (i < Z.to_nat NRRTOT)%nat → local_ok c → (P → has (rflags r) CF_LOCAL = false) →
  runs (replace_set global q i r) s (λ res s' w, w = [] ∧ (mallocs s = [] → res ≠ None) ∧
    ∃ c', merged P None q s c s' c' ∧
      (res = Some true → ∃ r', set_at c' i = Some r' ∧ set_lent None r' = cached_set r)).
Proof.
  intros H Hq Hi Hl HP. pose proof (m_cents _ H _ _ Hq) as Hc. pose proof (proj2 (local_but_none c) Hl) as Hln. unfold replace_set.
  apply runs_bind, runs_get, runs_bind. eapply runs_load; [done|]. apply runs_bind, runs_rrarr; [done|]. rewrite <-set_at_arr. case_if.
  { apply runs_ret. split_and!; [done|done|]. exists c. split; [by apply merged_refl|done]. }
  apply runs_bind. eapply runs_mono; [apply (del_merge_runs P None q s c i); [done..|]|].
  { intros HP' old Hold. rewrite Hold in Hif. unfold keep_old in Hif. rewrite (HP HP') in Hif. cbn in Hif. by zb. }
  intros n s1 w (-> & c1 & Hg1 & Hs1). apply runs_bind.
  eapply runs_mono; [apply (cr_check_runs P None q s1 c1 i (ttl r) (rflags r)); [by destruct Hg1..| |done]|].
  { unfold NRRTOT in Hi. cbn. lia. }
  intros ok s2 w (-> & c2 & Hg2 & Hs2). pose proof (merged_trans _ _ _ _ _ _ _ _ _ _ Hg1 Hg2) as Hg. destruct ok; cbn [negb].
  2:{ apply runs_ret. split_and!; [done|done|]. exists c2. done. }
  assert (Hi2 : set_at c2 i = None). { destruct (Hs2 i) as [E|E]; [done|]. rewrite E, Hs1. by rewrite decide_True. }
  apply runs_bind. eapply runs_mono; [apply (add_set_runs s2 q c2); [by destruct Hg2..|unfold NRRTOT in *; lia|by rewrite Nat2Z.id]|].
  intros ok s3 w (-> & H3 & He3 & Hb3 & c3 & Hq3 & Hk3 & Hr3 & Hs3 & _). rewrite Nat2Z.id in Hs3.
  assert (Hg3 : merged P (Some (Some i)) q s2 c2 s3 c3).
  { eapply merged_keeps; [done..| | |by intros _ r'; rewrite Hi2].
    - intros j Hj. rewrite Hs3, decide_both. destruct ok; [by rewrite decide_False|done].
    - apply local_but_some. apply local_but_none. apply Hg2. }
  assert (Hmal : mallocs s = [] → mallocs s2 = []) by apply (g_only _ _ _ _ _ _ _ Hg). destruct ok; cbn [negb].
  2:{ apply runs_ret. split_and!; [done|intros E; by apply Hmal, Hb3 in E|]. exists c3. split; [|done].
      eapply merged_end; [by eapply merged_trans|]. eapply local_but_gone; [apply Hg3|]. by rewrite Hs3, decide_both. }
  assert (Hi3 : set_at c3 i = Some (new_set (ttl r) (ts r) (rflags r))) by (rewrite Hs3, decide_both; by rewrite decide_True).
  apply runs_bind. eapply runs_mono; [apply (add_rrs_runs P q i r (rrs r) false s3 c3 _ H3 Hq3 Hi Hi3); [done|apply Hg3|done]|].
  intros ok s4 w (-> & Hb4 & c4 & r4 & Hg4 & Hi4 & Hl4 & Hf4 & Hc4).
  pose proof (merged_trans _ _ _ _ _ _ _ _ _ _ Hg (merged_trans _ _ _ _ _ _ _ _ _ _ Hg3 Hg4)) as Hg04.
  eapply runs_mono; [apply (replace_end_runs P q i r ok s4 c4 r4); [by destruct Hg4..|done|done|exact Hc4|apply Hg4|by rewrite Hf4]|].
  intros res s5 w (-> & Hres & c5 & Hg5 & Hend). split_and!; [done| |exists c5; split; [by eapply merged_trans|done]].
  intros E. apply Hres; [by apply (g_only _ _ _ _ _ _ _ Hg04)|]. apply Hb4, (g_only _ _ _ _ _ _ _ Hg3), Hmal, E.
Qed.

Lemma merge_sets_runs (P : Prop) q new i s c :
  mem s → cents s !! q = Some c → local_ok c → (i + length new <= Z.to_nat NRRTOT)%nat →
  (P → ∀ j r, new !! j = Some (Some r) → has (rflags r) CF_LOCAL = false) →
  runs (merge_sets global q new i) s (λ ok s' w, w = [] ∧ (mallocs s = [] → ok = true) ∧ ∃ c', merged P None q s c s' c').
Proof.
  revert i s c. induction new as [|x new IH]; intros i s c H Hq Hl Hi HP; cbn [merge_sets].
  { apply runs_ret. split_and!; [done|done|]. exists c. apply merged_refl; [done|done|]. by apply local_but_none. }
  cbn [length] in Hi. assert (HP' : P → ∀ j r, new !! j = Some (Some r) → has (rflags r) CF_LOCAL = false) by (intros HP' j; apply (HP HP' (S j))).
  destruct x as [r|]; [|apply (IH (S i)); [done..|lia|done]].
  apply runs_bind. eapply runs_mono; [apply (replace_set_runs P q i r s c); [done|done|lia|done|intros HPP; by apply (HP HPP 0%nat)]|].
  intros res s1 w (-> & Hres & c1 & Hg1 & _). destruct res as [b|].
  2:{ apply runs_ret. split_and!; [done|intros E; by apply Hres in E|]. by exists c1. }
  eapply runs_mono; [apply (IH (S i) s1 c1); [by destruct Hg1..|apply local_but_none, Hg1|lia|done]|].
  intros ok s2 w (-> & Hok & c2 & Hg2). split_and!; [done| |exists c2; by eapply merged_trans].
  intros E. apply Hok, (o_mallocs _ _ _ (g_only _ _ _ _ _ _ _ Hg1)), E.
Qed.

Lemma has_merge f g b : Z.land (Z.lor DF_AUTH DF_WILD) b = 0 → has (Z.lor f (Z.land g (Z.lor DF_AUTH DF_WILD))) b = has f b.
Proof. intros H. by rewrite has_lor, has_land_ne, orb_false_r. Qed.

Lemma merge_count_nonneg a b : 0 <= a → 0 <= b → 0 <= merge_count a b.
Proof. intros. unfold merge_count. by case_if. Qed.

Lemma length_arr_of c : cent_ok c → (length (arr_of c) <= Z.to_nat NRRTOT)%nat.
Proof.
  intros [_ Hs _]. unfold shape_ok, arr_of, zlen, NRRMU, NRRTOT in *. destruct (rr c); cbn [length] in *; lia.
Qed.

Lemma add_merge_runs s m k p n q :
  inv s m → cents s !! p = Some n → ¬ cached m p → m !! k = Some q →
  runs (add_merge global p q) s (λ ok s' w, silent w ∧ step_ok (no_locals n) s m s' m ∧ (mallocs s = [] → ok = true ∧ mallocs s' = [])).
Proof.
  intros H Hp Hu Hk. destruct (inv_cent _ _ _ _ H Hk) as (c & ls & Hq & _). unfold add_merge. apply runs_bind.
  eapply runs_mono; [by eapply (purge_cent_runs s m k q c false)|]. intros z s1 w (-> & m1 & Hst1 & Hml1 & [(_ & -> & c1 & Hq1 & Hs1)|(_ & ? & _)]); [|done].
  pose proof (s_inv _ _ _ _ _ Hst1) as H1. destruct (s_users _ _ _ _ _ Hst1 p n Hp Hu) as [Hp1 _].
  assert (Hpq : p ≠ q) by (intros ->; apply Hu; by exists k).
  apply runs_bind. eapply runs_load; [done|]. apply runs_bind, runs_modify, runs_bind. eapply runs_load; [exact Hp1|].
  apply runs_bind, runs_rrarr; [by eapply m_cents; [apply H1|]|]. set (s2 := set_size (cache_size s1 - cs c1) s1).
  assert (Hm2 : mem s2) by by destruct (i_mem _ _ H1).
  pose proof (m_cents _ (i_mem _ _ H1) _ _ Hp1) as Hcn.
  apply runs_bind. eapply runs_mono; [apply (merge_sets_runs (no_locals n) q (arr_of n) 0 s2 c1 Hm2)|]; [exact Hq1|by eapply i_local| | |].
  { by apply length_arr_of. }
  { intros Hno j r Hj. apply (Hno j). rewrite set_at_arr, Hj. done. }
  intros ok s3 w (-> & Hok & c3 & Hg). apply runs_bind.
  eapply (runs_mono _ _ (λ _ s' w, w = [] ∧ only q s2 s' ∧ mem s' ∧ ∃ c4, cents s' !! q = Some c4 ∧ local_ok c4 ∧
    (no_locals n → ∀ j r, set_at c1 j = Some r → has (rflags r) CF_LOCAL = true → set_at c4 j = Some r))).
  { destruct Hg as [G1 G2 G3 G4 G5 G6 G7]. rewrite local_but_none in G4. destruct ok; cbn [when]; [|apply runs_ret; split_and!; [done..|eauto]].
    eapply runs_store; [done|]. match goal with |- context [upd q ?x _] => set (c4 := x) end.
    pose proof (m_cents _ G1 _ _ G3) as [Hn3 Hs3 [Hr3 Hr3']]. destruct Hcn as [_ _ [Hr1 Hr2]].
    destruct (step_upd s3 q c3 c4) as [Hm4 [Ho4 _]]; [done|done| |done|done|].
    - split; [done| |cbn; split; by apply merge_count_nonneg]. unfold shape_ok in *. cbn. rewrite has_merge by done. exact Hs3.
    - split_and!; [done|by eapply only_trans|done|]. exists c4. split_and!; [apply lookup_upd| |done].
      apply (local_ok_sub c3); [done|cbn; by rewrite has_merge|intros j r Hj Hl; right; by exists r|]. intros t t0 Hr. by exists t, t0. }
  intros [] s4 w (-> & Ho4 & Hm4 & c4 & Hq4 & Hl4 & Hs4). apply runs_bind. eapply runs_load; [done|]. apply runs_bind, runs_modify, runs_bind.
  assert (Hst : step_ok (no_locals n) s m (set_size (cache_size s4 + cs c4) s4) m).
  { eapply step_trans; [by apply step_any|].
    eapply (step_change _ _ _ _ q c1 c4); [done..| | |by destruct Hm4|done|done|done].
    - cbn. change (set_size (cache_size s4 + cs c4) s1) with (set_size (cache_size s4 + cs c4) s2). by apply only_size.
    - cbn. rewrite (o_size _ _ _ Ho4). cbn. lia. }
  assert (Hmal : mallocs s = [] → ok = true ∧ mallocs s4 = []).
  { intros E. apply Hml1 in E. split; [by apply Hok|by apply (o_mallocs _ _ _ Ho4)]. }
  destruct ok; cbn [when negb].
  - apply runs_ret, runs_ret. split; [constructor|]. done.
  - apply runs_emit, runs_ret. split; [by repeat constructor|]. done.
Qed.

(** ** [add_cache] *)

(** What [add_cache] promises: at most one entry more. *)
Abbreviation added := (λ P s m (_ : unit) s' w, silent w ∧ ∃ m', step_ok P s m s' m' ∧ (base.size m' <= S (base.size m))%nat).

(** The purge at the end, after what has been done before. *)
Lemma purge_after (P : Prop) s m s1 m1 w0 :
  step_ok P s m s1 m1 → (base.size m1 <= S (base.size m))%nat → few (ent_num s1) → silent w0 →
  runs (purge_cache (purge_limit global) true) s1 (λ x s' w, added P s m x s' (w0 ++ w)).
Proof.
  intros Hst Hsz Hf Hw. eapply runs_mono; [apply purge_cache_runs; [by apply Hst|done]|]. intros [] s' w (-> & m' & Hst' & _ & _ & Hsub & _).
  rewrite app_nil_r. split; [done|]. exists m'. split; [eapply step_trans; [done|]; by apply step_any|].
  apply map_subseteq_size in Hsub. lia.
Qed.

(** The branch for a name that is not there. *)
Lemma add_absent_runs (P : Prop) s m s1 m1 p n ls loc :
  step_ok P s m s1 m1 → (base.size m1 <= base.size m)%nat → cents s1 !! p = Some n → ¬ cached m1 p → qname n = wire ls → name_ok ls → m1 !! fold_name ls = None →
  few (ent_num s1 + 1) →
  (∀ qn' q, (∀ k p, m1 !! k = Some p → qn' p = qn s1 p) → qn' q = Some (wire ls) →
     ∃ t', nt_add q loc (hash_buckets s1) = Some t' ∧ nt_holds qn' t' (<[fold_name ls := q]> m1)) →
  runs (if (num_rrs n =? 0) && negb (has (flags n) DF_NEGATIVE) then purge_cache (purge_limit global) true
        else ok ← add_new global p loc; when ok (purge_cache (purge_limit global) true)) s1 (added P s m).
Proof.
  intros Hst Hsz Hp Hu Hn Hls Hk Hf Hadd. pose proof (s_inv _ _ _ _ _ Hst) as H1.
  assert (Hf1 : few (ent_num s1)) by (unfold few, NRRTOT in *; lia).
  case_if; [exact (purge_after P s m s1 m1 [] Hst (Nat.le_le_succ_r _ _ Hsz) Hf1 (Forall_nil_2 _))|]. apply runs_bind. eapply runs_mono; [by apply (add_new_runs s1 m1 p n ls loc)|].
  intros b s2 w (Hw & _ & _ & Hres). destruct b; cbn [when].
  - destruct Hres as (q & c2 & Hst2 & _). eapply purge_after; [eapply step_trans; [done|by apply step_any]|rewrite map_size_insert_None by done; lia| |done].
    rewrite (i_num _ _ (s_inv _ _ _ _ _ Hst2)), map_size_insert_None by done. rewrite (i_num _ _ H1) in *. unfold few, NRRTOT in *. lia.
  - apply runs_ret. rewrite app_nil_r. split; [done|]. exists m1. split; [eapply step_trans; [done|]; by apply step_any|lia].
Qed.

(** The loop once the name is not there. *)
Lemma add_loop_absent (P : Prop) fuel s m s1 m1 p n ls :
  step_ok P s m s1 m1 → (base.size m1 <= base.size m)%nat → cents s1 !! p = Some n → ¬ cached m1 p → qname n = wire ls → name_ok ls → m1 !! fold_name ls = None →
  few (ent_num s1 + 1) → runs (add_cache_loop global fuel p) s1 (added P s m).
Proof.
  intros Hst Hsz Hp Hu Hn Hls Hk Hf. destruct fuel; cbn [add_cache_loop].
  all: apply runs_bind; eapply runs_load; [done|]; rewrite Hn; apply runs_bind.
  all: eapply lookup_runs; [by apply Hst|done|]; intros loc Hadd _; rewrite Hk; cbn beta iota.
  all: eapply add_absent_runs; [done..|]; intros; by apply Hadd.
Qed.

Lemma no_locals_existsb c :
  existsb (λ x : option rr_set_t, match x with Some r => has (rflags r) CF_LOCAL | None => false end) (arr_of c) = false → no_locals c.
Proof.
  intros Hex i r Hi%set_at_lookup. destruct (has (rflags r) CF_LOCAL) eqn:E; [|done]. rewrite <-Hex. symmetry.
  apply existsb_exists. exists (Some r). split; [|done]. apply list_elem_of_In. by eapply list_elem_of_lookup_2.
Qed.

Lemma add_cache_runs s m p n :
  inv s m → cents s !! p = Some n → ¬ cached m p → few (ent_num s + 1) → runs (add_cache global p) s (added (no_locals n) s m).
Proof.
  intros H Hp Hu Hf. pose proof (m_cents _ (i_mem _ _ H) _ _ Hp) as Hc. destruct (c_name _ Hc) as (ls & Hn & Hls).
  pose proof (step_refl (no_locals n) s m H) as Hst0. unfold add_cache.
  destruct (m !! fold_name ls) as [q|] eqn:Hk; [|by eapply add_loop_absent].
  cbn [add_cache_loop]. apply runs_bind. eapply runs_load; [done|]. rewrite Hn. apply runs_bind. eapply lookup_runs; [done|done|].
  intros loc _ Hdel. rewrite Hk. cbn beta iota. case_if.
  - destruct (inv_cent _ _ _ _ H Hk) as (c & ls' & Hq & _ & _ & _ & Hcq). apply runs_bind. eapply runs_load; [done|].
    apply runs_bind, runs_rrarr; [done|]. destruct (existsb _ _) eqn:Hex; [apply runs_ret; split; [constructor|]; exists m; split; [done|lia]|].
    apply runs_bind. eapply (del_cache_ent_runs (no_locals n)); [done..|intros _; by apply no_locals_existsb| |].
    + intros l [= <-]. by apply Hdel.
    + intros t Hst. destruct (s_users _ _ _ _ _ Hst p n Hp Hu) as [Hp1 Hu1].
      apply (add_loop_absent _ 0 s m _ _ p n ls Hst); [apply map_subseteq_size, delete_subseteq|done..|by rewrite lookup_delete_eq|cbn; unfold few, NRRTOT in *; lia].
  - apply runs_bind. eapply runs_mono; [by eapply add_merge_runs|]. intros ok s1 w (Hw & Hst & _). destruct ok; cbn [when].
    + eapply purge_after; [done|lia| |done]. rewrite (i_num _ _ (s_inv _ _ _ _ _ Hst)), <-(i_num _ _ H). unfold few, NRRTOT in *. lia.
    + apply runs_ret. rewrite app_nil_r. split; [done|]. exists m. split; [done|lia].
Qed.
End Add.
End DnsCacheAdd.
