(* ===== verification/DnsCacheOps.v ===== *)
(** * Lookups and the other operations of the DNS cache

    [lookup_cache] with its search up the name hierarchy, [getlocalowner],
    [invalidate_record], [set_cent_flags] and the deletion of everything. *)

From S2P Require Import Prelude DnsNames DnsHash DnsCache DnsCacheMem DnsCacheSort DnsCacheOk DnsCacheAdd.
Import DnsNames DnsCache DnsCacheMem DnsCacheSort DnsCacheOk DnsCacheAdd.

Module DnsCacheOps.
Section Ops.
Context {T L : Type} `{!NameTable T L}.
Abbreviation st := (@cache T).
Abbreviation names := (gmap key positive).
Implicit Types (s : st) (m : names) (c : dns_cent_t) (p q e : positive) (k : key) (r : rr_set_t).

(** ** Purging as a test *)

(** What would be deleted, left, and left among the rarely used sets. *)
Fixpoint purge_count (t : Z) (arr : list (option rr_set_t)) (i : nat) : Z * Z * Z :=
  match arr with
  | [] => (0, 0, 0)
  | x :: arr' =>
      let '(a, b, d) := match x with
                        | Some r => if purgeable t r then (1, 0, 0) else (0, 1, if Z.of_nat i >=? NRRMU then 1 else 0)
                        | None => (0, 0, 0)
                        end in
      let '(a', b', d') := purge_count t arr' (S i) in
      (a + a', b + b', d + d')
  end.

Lemma purge_loop_test p c n i s :
  cents s !! p = Some c → rr c = Sets (arr_of c) → (i + n = length (arr_of c))%nat →
  runs (purge_loop true p n i) s (λ x s' w, s' = s ∧ w = [] ∧ x = purge_count (now s) (drop i (arr_of c)) i).
Proof.
  intros Hp Hr. revert i. induction n as [|n IH]; intros i Hi; cbn [purge_loop].
  { apply runs_ret. split_and!; [done|done|]. by rewrite drop_ge by lia. }
  destruct (lookup_lt_is_Some_2 (arr_of c) i) as [x Hx]; [lia|]. rewrite (drop_S _ _ _ Hx).
  apply runs_bind, runs_get, runs_bind. eapply runs_load; [done|]. apply runs_bind. eapply runs_sets_of; [done|].
  rewrite Hx. cbn [mjoin option_join]. apply runs_bind. cbn [purge_count].
  eapply (runs_mono _ _ (λ y s' w, s' = s ∧ w = [] ∧ y = match x with
    | Some r => if purgeable (now s) r then (1, 0, 0) else (0, 1, if Z.of_nat i >=? NRRMU then 1 else 0)
    | None => (0, 0, 0) end)).
  { destruct x as [r|]; [|by apply runs_ret]. destruct (purgeable (now s) r); [|by apply runs_ret].
    apply runs_bind. cbn [when negb]. by apply runs_ret, runs_ret. }
  intros y s' w (-> & -> & ->). destruct (match x with Some r => _ | None => _ end) as [[a b] d]. cbn beta iota. apply runs_bind.
  eapply runs_mono; [apply (IH (S i)); lia|]. intros y s' w (-> & -> & ->). destruct (purge_count _ _ _) as [[a' b'] d']. by apply runs_ret.
Qed.

(** The numbers that [purge_all_rrsets] delivers as a test. *)
Definition purge_test (t : Z) c : Z * Z :=
  match rr c with
  | Neg _ _ _ => (0, 0)
  | Sets arr =>
      let '(a, b, d) := purge_count t arr 0 in
      if negb (zlen arr =? NRRMU) && (d =? 0) then (a + 1, b) else (a, b)
  end.

Lemma purge_all_test p c s : cent_ok c → cents s !! p = Some c →
  runs (purge_all_rrsets p true) s (λ x s' w, s' = s ∧ w = [] ∧ x = purge_test (now s) c).
Proof.
  intros Hc Hp. unfold purge_all_rrsets, purge_test. apply runs_bind. eapply runs_load; [done|]. rewrite (shape_neg c Hc).
  destruct (rr c) as [x t t0|arr] eqn:Hr; [by apply runs_ret|]. pose proof (arr_of_sets _ _ Hr) as Ea.
  apply runs_bind. eapply runs_sets_of; [done|]. apply runs_bind.
  eapply runs_mono; [apply (purge_loop_test p c (length arr) 0); [done|by rewrite Ea|by rewrite Ea]|].
  intros y s' w (-> & -> & ->). rewrite drop_0, Ea. destruct (purge_count _ _ _) as [[a b] d]. cbn beta iota.
  case_if; [|by apply runs_ret]. apply runs_bind. cbn [when negb]. by apply runs_ret, runs_ret.
Qed.

Lemma purge_cent_test s m k p c d :
  inv s m → m !! k = Some p → cents s !! p = Some c →
  runs (purge_cent p d true) s (λ n s' w, s' = s ∧ w = [] ∧
    ((purge_test (now s) c).1 = 0 → (d = false ∨ (purge_test (now s) c).2 ≠ 0 ∨ (∃ x t t0, rr c = Neg x t t0 ∧ now s <= t0 + CLAT_ADJ t)) →
     c_ns c = cundef → c_soa c = cundef → n = 0)).
Proof.
  intros H Hk Hp. pose proof (m_cents _ (i_mem _ _ H) _ _ Hp) as Hc. destruct (c_refs _ Hc) as [Hns Hsoa]. unfold purge_cent.
  apply runs_bind. eapply runs_mono; [by apply purge_all_test|]. intros x s' w (-> & -> & ->).
  destruct (purge_test (now s) c) as [a b] eqn:Et. cbn beta iota. apply runs_bind. eapply runs_load; [done|]. apply runs_bind.
  eapply (runs_mono _ _ (λ g s' w, s' = s ∧ w = [] ∧ (g = true → ¬ (d = false ∨ b ≠ 0 ∨ ∃ x t t0, rr c = Neg x t t0 ∧ now s <= t0 + CLAT_ADJ t)))).
  { case_if; [|by apply runs_ret]. rewrite (shape_neg c Hc). unfold timedout_nxdom.
    destruct (rr c) as [x t t0|arr]; cbn [negb]; [|apply runs_ret; naive_solver]. case_if; [|by apply runs_ret].
    apply runs_bind, runs_get, runs_ret. split_and!; [done|done|]. intros Hg. zb. intros [?|[?|(e' & t1 & t2 & E & Hle)]]; [by subst|lia|].
    injection E as <- <- <-. lia. }
  intros g s' w (-> & -> & Hg). destruct g.
  { apply runs_bind. cbn [when negb]. apply runs_ret, runs_ret. split_and!; [done|done|]. intros _ Hok. by destruct (Hg eq_refl). }
  destruct (has (flags c) DF_LOCAL); [by apply runs_ret|]. apply runs_bind.
  eapply (runs_mono _ _ (λ n s' w, s' = s ∧ w = [] ∧ (c_ns c = cundef → n = 0))).
  { case_if; [by apply runs_ret|]. apply runs_bind. eapply runs_mono; [by eapply stale_runs|]. intros x ? ? [-> ->]. apply runs_bind.
    rewrite andb_false_r. cbn [when]. apply runs_ret, runs_ret. split_and!; [done|done|]. congruence. }
  intros n1 s' w (-> & -> & Hn1). apply runs_bind.
  eapply (runs_mono _ _ (λ n s' w, s' = s ∧ w = [] ∧ (c_soa c = cundef → n = 0))).
  { case_if; [by apply runs_ret|]. apply runs_bind. eapply runs_mono; [by eapply stale_runs|]. intros x ? ? [-> ->]. apply runs_bind.
    rewrite andb_false_r. cbn [when]. apply runs_ret, runs_ret. split_and!; [done|done|]. congruence. }
  intros n2 s' w (-> & -> & Hn2). apply runs_ret. split_and!; [done|done|]. cbn. intros Ha _ E1 E2. rewrite Hn1, Hn2; [lia|done|done].
Qed.

(** ** The search up the name hierarchy *)
Lemma wire_at ls j : rd (wire ls) (zlen (segs (take j ls))) = Some (match drop j ls with [] => 0 | l :: _ => zlen l end).
Proof. rewrite (wire_split j ls). pose proof (rd_wire (segs (take j ls)) (drop j ls) []) as E. by rewrite app_nil_r in E. Qed.

Lemma segs_next ls j l rest : drop j ls = l :: rest → zlen (segs (take (S j) ls)) = zlen (segs (take j ls)) + (zlen l + 1).
Proof.
  intros E. assert (ls !! j = Some l) as Hj by (rewrite <-(Nat.add_0_r j), <-lookup_drop, E; done).
  rewrite (take_S_r _ _ _ Hj), segs_app, zlen_app. unfold segs at 2. cbn. rewrite app_nil_r, zlen_cons. lia.
Qed.

(** One label further. *)
Lemma label_step ls j : name_ok ls →
  match drop j ls with
  | [] => rd (wire ls) (zlen (segs (take j ls))) = Some 0
  | l :: rest =>
      rd (wire ls) (zlen (segs (take j ls))) = Some (zlen l) ∧ zlen l ≠ 0 ∧ drop (S j) ls = rest ∧ name_ok rest ∧
      zlen (segs (take (S j) ls)) = zlen (segs (take j ls)) + (zlen l + 1) ∧ length ls = (j + S (length rest))%nat
  end.
Proof.
  intros Hls. pose proof (wire_at ls j) as Hrd. destruct (drop j ls) as [|l rest] eqn:Ej; [done|].
  pose proof (name_ok_drop j ls Hls) as [Hj _]. rewrite Ej in Hj. inversion Hj as [|? ? Hl _]; subst. unfold label_ok in Hl.
  assert (Er : drop (S j) ls = rest) by (replace (S j) with (j + 1)%nat by lia; by rewrite <-drop_drop, Ej).
  split_and!; [done|lia|done|rewrite <-Er; by apply name_ok_drop|by eapply segs_next|].
  assert (length (drop j ls) = S (length rest)) as El by by rewrite Ej. rewrite length_drop in El. lia.
Qed.

Lemma wild_ok ls j l rest : name_ok ls → drop j ls = l :: rest → name_ok ([42] :: rest).
Proof.
  intros Hls E. pose proof (name_ok_drop j ls Hls) as [H1 H2]. rewrite E in H1, H2. inversion H1 as [|? ? Hl Hr]; subst.
  split; [constructor; [done|done]|]. rewrite wire_cons, zlen_cons, zlen_app in *. unfold label_ok in Hl. change (zlen [42]) with 1. lia.
Qed.

Lemma rhncpy_wire ls : name_ok ls → rhncpy (wire ls) = Some (zlen (wire ls), wire ls).
Proof.
  intros Hls. unfold rhncpy. pose proof (rhnlen_wire ls [] (proj1 Hls)) as En. rewrite app_nil_r in En. rewrite En.
  cbn [mbind option_bind]. by rewrite (proj2 (Z.leb_le _ _)), slice_all by apply Hls.
Qed.

Definition finds m (x : option positive) : Prop := ∀ q, x = Some q → cached m q.

Lemma find_wild_runs s m ls fuel j :
  inv s m → name_ok ls → (length ls <= j + fuel + 1)%nat →
  runs (find_wild fuel (wire ls) (zlen (segs (take j ls)))) s (λ '(x, _) s' w, s' = s ∧ w = [] ∧ finds m x).
Proof.
  intros H Hls. revert j. induction fuel as [|fuel IH]; intros j Hf; cbn [find_wild]; apply runs_bind.
  all: pose proof (label_step ls j Hls) as H1; destruct (drop j ls) as [|l rest] eqn:Ej;
    [eapply runs_lift; [done|]; apply runs_ret; by split_and!|].
  all: destruct H1 as (Hrd & Hne & Er & Hrest & Hoff & Hlen); eapply runs_lift; [done|]; zdec; rewrite <-Hoff; apply runs_bind.
  all: pose proof (label_step ls (S j) Hls) as H2; rewrite Er in H2; rewrite drop_wire, Er; destruct rest as [|l' rest];
    [eapply runs_lift; [done|]; apply runs_ret; by split_and!|].
  all: destruct H2 as (Hrd2 & Hne2 & _ & _ & _ & _); eapply runs_lift; [done|]; zdec.
  all: apply runs_bind; eapply lookup_runs; [done|done|]; intros loc _ _; cbn beta iota.
  all: destruct (m !! fold_name (l' :: rest)) as [q|] eqn:Hq; [|first [apply IH; lia|cbn in Hlen; lia]].
  all: destruct (inv_cent _ _ _ _ H Hq) as (c & ls' & Hp & _); apply runs_bind; eapply runs_load; [done|].
  all: assert (Hf1 : finds m (Some q)) by (intros x [= <-]; eexists; exact Hq).
  all: case_if; [by apply runs_ret|]; case_if; [|case_if; by apply runs_ret].
  all: apply runs_bind; eapply runs_lift; [apply rhncpy_wire; exact Hrest|]; cbn beta iota.
  all: pose proof (wild_ok ls j l _ Hls Ej) as Hw; apply runs_bind, runs_ASSERT; [by zdec; destruct Hw as [_ Hw]; revert Hw;
    rewrite wire_cons, zlen_cons, zlen_app; change (zlen [42]) with 1; lia|].
  all: change ([1; 42] ++ wire (l' :: rest)) with (wire ([42] :: l' :: rest)).
  all: apply runs_bind; eapply lookup_runs; [done|by apply (wild_ok ls j l)|]; intros loc' _ _; cbn beta iota; apply runs_ret.
  all: split_and!; [done|done|]; intros x Hx; by eexists.
Qed.

Lemma find_entry_runs s m ls wild :
  inv s m → name_ok ls →
  runs (find_entry (wire ls) wild) s (λ '(x, _) s' w, s' = s ∧ w = [] ∧ finds m x ∧
    (∀ q, m !! fold_name ls = Some q → x = Some q) ∧ (wild = false → x = m !! fold_name ls)).
Proof.
  intros H Hls. unfold find_entry. apply runs_bind. eapply lookup_runs; [done|done|]. intros l _ _. cbn beta iota.
  destruct (m !! fold_name ls) as [q|] eqn:Hq.
  { apply runs_ret. split_and!; [done|done| |naive_solver|done]. intros x [= <-]. by eexists. }
  destruct wild; [|apply runs_ret; by split_and!].
  eapply runs_mono; [apply (find_wild_runs s m ls (length (wire ls)) 0); [done|done|]|].
  { pose proof (wire_long ls []) as Hl. rewrite app_nil_r in Hl. lia. }
  intros [x z] s' w (-> & -> & Hx). by split_and!.
Qed.

(** ** Copies *)
Lemma step_new P s m q c s' : inv s m → fresh_at q c s s' → mem s' → step_ok P s m s' m ∧ ¬ cached m q ∧ cents s' !! q = Some c.
Proof.
  intros H Hf Hm. pose proof (inv_new _ _ _ _ _ H Hf Hm) as [H' Hu]. destruct Hf as [Hq [l ->]]. split; [|split; [done|apply lookup_insert_eq]].
  split; [done| | |done]; cbn.
  - intros _ k p cp i r Hk Hp Hi _. split; [done|]. exists cp. cbn. rewrite lookup_insert_ne; [done|]. intros <-. congruence.
  - intros p cp Hp Hup. cbn. rewrite lookup_insert_ne; [done|]. intros <-. congruence.
Qed.

Lemma copy_step_runs s m p c :
  inv s m → cents s !! p = Some c →
  runs (copy_cent p) s (λ x s' w, w = [] ∧ step_ok True s m s' m ∧ (mallocs s = [] → mallocs s' = [] ∧ x ≠ None) ∧
    ∀ q, x = Some q → cents s' !! q = Some (unlisted c) ∧ ¬ cached m q).
Proof.
  intros H Hp. eapply runs_mono; [by eapply copy_cent_runs; [apply H|]|]. intros r s' w (-> & Hm & Hml & Hr). destruct r as [q|].
  - destruct (step_new True _ _ _ _ _ H Hr Hm) as (Hst & Hu & Hq). split_and!; [done..|]. intros x [= <-]. done.
  - destruct Hr as [l ->]. split_and!; [done|by apply step_mallocs, step_refl|done|done].
Qed.

(** ** Lookups *)
Lemma lookup_read_runs s m ls wild :
  inv s m → name_ok ls →
  runs (lookup_read (wire ls) wild) s (λ '(x, _, again) s' w, w = [] ∧ step_ok True s m s' m ∧
    (x = None ∨ again = false) ∧ (∀ q, x = Some q → ¬ cached m q)).
Proof.
  intros H Hls. unfold lookup_read. apply runs_bind. eapply runs_mono; [by apply find_entry_runs|].
  intros [x z] s' w (-> & -> & Hx & _). cbn beta iota. destruct x as [q|]; [|apply runs_ret; split_and!; [done|by apply step_refl|by left|done]].
  destruct (Hx q eq_refl) as [k Hk]. destruct (inv_cent _ _ _ _ H Hk) as (c & ls' & Hq & _). apply runs_bind.
  eapply runs_mono; [by eapply purge_cent_test|]. intros n s' w (-> & -> & _).
  case_if; [|apply runs_ret; split_and!; [done|by apply step_refl|by left|done]]. apply runs_bind.
  eapply runs_mono; [by apply copy_step_runs|]. intros r s' w (-> & Hst & _ & Hr). apply runs_ret. split_and!; [done|done|by right|]. naive_solver.
Qed.

Lemma lookup_write_runs s m ls wild :
  inv s m → name_ok ls →
  runs (lookup_write (wire ls) wild) s (λ '(x, _) s' w, w = [] ∧ ∃ m', step_ok True s m s' m' ∧ (∀ q, x = Some q → ¬ cached m' q)).
Proof.
  intros H Hls. unfold lookup_write. apply runs_bind. eapply runs_mono; [by apply find_entry_runs|].
  intros [x z] s' w (-> & -> & Hx & _). cbn beta iota. destruct x as [q|]; [|apply runs_ret; split; [done|]; exists m; split; [by apply step_refl|done]].
  destruct (Hx q eq_refl) as [k Hk]. destruct (inv_cent _ _ _ _ H Hk) as (c & ls' & Hq & _). apply runs_bind.
  eapply runs_mono; [by eapply (purge_cent_runs s m k q c true)|]. intros n s1 w (-> & m1 & Hst1 & _ & Hn).
  destruct Hn as [(Hn & -> & c1 & Hq1 & _)|(-> & _ & ->)]; zdec.
  - apply runs_bind. eapply runs_mono; [apply copy_step_runs; [by apply Hst1|done]|]. intros r s2 w (-> & Hst2 & _ & Hr). apply runs_ret.
    split; [done|]. exists m. split; [by eapply step_trans|naive_solver].
  - apply runs_ret. split; [done|]. eexists. split; [done|]. done.
Qed.

Lemma getrrset_runs c type s (Q : option rr_set_t → st → list warning → Prop) :
  cent_ok c → (∀ x, Q x s []) → runs (getrrset c type) s Q.
Proof.
  intros Hc HQ. unfold getrrset. case_if; [|by apply runs_ret]. case_if; [|by apply runs_ret].
  destruct (lookup_lt_is_Some_2 rrlkuptab (Z.to_nat (type - T_MIN))) as [idx Hi]; [unfold T_NUM, T_MIN in *; cbn; lia|].
  apply runs_bind. eapply runs_lift; [done|]. rewrite (shape_neg c Hc) in *. destruct (rr c) as [x t t0|arr] eqn:Hr; [done|].
  apply runs_bind. eapply runs_sets_of; [done|]. by apply runs_ret.
Qed.

Lemma local_rrset_runs s m ls type :
  inv s m → name_ok ls → runs (lookup_cache_local_rrset (wire ls) type) s (λ _ s' w, w = [] ∧ step_ok True s m s' m).
Proof.
  intros H Hls. unfold lookup_cache_local_rrset. apply runs_bind. eapply lookup_runs; [done|done|]. intros l _ _. cbn beta iota.
  assert (Hid : step_ok True s m s m) by by apply step_refl.
  destruct (m !! fold_name ls) as [q|] eqn:Hk; [|by apply runs_ret]. destruct (inv_cent _ _ _ _ H Hk) as (c & ls' & Hq & _ & _ & _ & Hc).
  apply runs_bind. eapply runs_load; [done|]. apply runs_bind, getrrset_runs; [done|]. intros [r|]; [|by apply runs_ret].
  case_if; [|by apply runs_ret]. eapply runs_mono; [apply copy_rrset_runs|]. intros x s' w (-> & [ml ->] & _ & _). split; [done|]. by apply step_mallocs.
Qed.

Lemma have_rr_runs c type s (Q : bool → st → list warning → Prop) :
  cent_ok c → 1 <= type <= T_NUM → (∀ b, Q b s []) → runs (have_rr c type) s Q.
Proof.
  intros Hc Ht HQ. unfold have_rr. rewrite (shape_neg c Hc). destruct (rr c) as [x t t0|arr] eqn:Hr; [by apply runs_ret|].
  destruct (lookup_lt_is_Some_2 rrlkuptab (Z.to_nat (type - T_MIN))) as [idx Hi]; [unfold T_NUM, T_MIN in *; cbn; lia|].
  apply runs_bind. eapply runs_lift; [done|]. apply runs_bind. eapply runs_sets_of; [done|]. by apply runs_ret.
Qed.

Lemma owner_from_runs s m ls type fuel j :
  inv s m → name_ok ls → 1 <= type <= T_NUM → (length ls <= j + fuel + 1)%nat →
  runs (owner_from fuel (wire ls) (zlen (segs (take j ls))) type) s (λ _ s' w, s' = s ∧ w = []).
Proof.
  intros H Hls Ht. revert j. induction fuel as [|fuel IH]; intros j Hf; cbn [owner_from]; apply runs_bind.
  all: pose proof (label_step ls j Hls) as H1; destruct (drop j ls) as [|l rest] eqn:Ej; [eapply runs_lift; [done|]; by apply runs_ret|].
  all: destruct H1 as (Hrd & Hne & Er & Hrest & Hoff & Hlen); eapply runs_lift; [done|]; zdec; rewrite <-Hoff; apply runs_bind.
  all: pose proof (label_step ls (S j) Hls) as H2; rewrite Er in H2; rewrite drop_wire, Er; destruct rest as [|l' rest];
    [eapply runs_lift; [done|]; by apply runs_ret|].
  all: destruct H2 as (Hrd2 & Hne2 & _ & _ & _ & _); eapply runs_lift; [done|]; zdec.
  all: apply runs_bind; eapply lookup_runs; [done|done|]; intros loc _ _; cbn beta iota; apply runs_bind.
  all: eapply (runs_mono _ _ (λ _ s' w, s' = s ∧ w = [])).
  all: try (intros [stop r] s' w [-> ->]; destruct stop; [by apply runs_ret|first [apply IH; lia|cbn in Hlen; lia]]).
  all: destruct (m !! fold_name (l' :: rest)) as [q|] eqn:Hq; [|by apply runs_ret].
  all: destruct (inv_cent _ _ _ _ H Hq) as (c & ls' & Hp & _ & _ & _ & Hc); apply runs_bind; eapply runs_load; [done|].
  all: case_if; [by apply runs_ret|]; apply runs_bind, have_rr_runs; [done|done|]; intros b; by apply runs_ret.
Qed.

Lemma getlocalowner_runs s m ls type :
  inv s m → name_ok ls → 1 <= type <= T_NUM → runs (getlocalowner (wire ls) type) s (λ _ s' w, s' = s ∧ w = []).
Proof.
  intros H Hls Ht. apply (owner_from_runs s m ls type (length (wire ls)) 0); [done..|].
  pose proof (wire_long ls []) as Hl. rewrite app_nil_r in Hl. lia.
Qed.

(** ** Changes of an entry *)
Lemma set_cent_flags_runs s m ls f :
  inv s m → name_ok ls → has f DF_NEGATIVE = false →
  runs (set_cent_flags (wire ls) f) s (λ _ s' w, w = [] ∧ step_ok True s m s' m).
Proof.
  intros H Hls Hf. unfold set_cent_flags. apply runs_bind. eapply lookup_runs; [done|done|]. intros l _ _. cbn beta iota.
  destruct (m !! fold_name ls) as [q|] eqn:Hk; [|apply runs_ret; split; [done|by apply step_refl]].
  destruct (inv_cent _ _ _ _ H Hk) as (c & ls' & Hq & _ & _ & _ & Hc). apply runs_bind. eapply runs_store; [done|]. apply runs_ret.
  split; [done|]. destruct (c_refs _ Hc). eapply step_attr; try done; cbn; rewrite has_lor; [by rewrite Hf, orb_false_r|by intros ->].
Qed.

Definition invalidated c : dns_cent_t :=
  set_flags (clear (flags c) DF_AUTH)
    (set_rr (match rr c with Neg e t _ => Neg e t 0 | Sets arr => Sets (map (option_map invalidate_set) arr) end) c).

Lemma set_at_invalidated c i : set_at (invalidated c) i = invalidate_set <$> set_at c i.
Proof.
  unfold set_at, invalidated. cbn. destruct (rr c) as [x t t0|arr]; [done|]. change (map ?f ?l) with (f <$> l).
  rewrite list_lookup_fmap. by destruct (arr !! i) as [[r|]|].
Qed.

Lemma arr_sum_invalidated f arr : (∀ r, f (invalidate_set r) = f r) → arr_sum f (map (option_map invalidate_set) arr) = arr_sum f arr.
Proof. intros Hf. induction arr as [|[r|] arr IH]; [done| |]; cbn [map arr_sum option_map weight]; by rewrite IH, ?Hf. Qed.

Lemma step_invalidated s m k q c :
  inv s m → m !! k = Some q → cents s !! q = Some c → step_ok False s m (upd q (invalidated c) s) m.
Proof.
  intros H Hk Hq. pose proof (m_cents _ (i_mem _ _ H) _ _ Hq) as [Hn Hs Hr].
  destruct (step_upd s q c (invalidated c)) as [Hm [Ho _]]; [apply H|done| |done| |].
  - split; [done| |done]. unfold shape_ok, invalidated in *. cbn. rewrite has_clear_ne by done. destruct (rr c) as [x t t0|arr]; [done|].
    unfold ext_bytes, zlen in *. by rewrite length_map, !arr_sum_invalidated.
  - intros [i|].
    + pose proof (set_at_invalidated c i) as E. destruct (set_at c i) as [r|] eqn:Hi; cbn in E.
      * by rewrite (lent_at_set _ _ _ Hi), (lent_at_set _ _ _ E).
      * unfold lent_at, set_at in *. by destruct (rr c), (rr (invalidated c)); rewrite ?Hi, ?E.
    + unfold lent_at, invalidated. cbn. by destruct (rr c).
  - eapply (step_change _ _ _ _ q c (invalidated c)); [done..|by apply only_size_eq|cbn; lia|done|apply lookup_upd| |done].
    apply (local_ok_sub c); [by eapply i_local|cbn; by rewrite has_clear_ne| |].
    + intros i r'. rewrite set_at_invalidated. intros (r & Hi & ->)%fmap_Some Hl. right. exists r. split_and!; [done|done|].
      cbn. by rewrite has_clear_ne.
    + intros t t0. unfold invalidated. cbn. destruct (rr c) as [x t1 t2|arr]; [|done]. intros [= -> -> <-]. eauto.
Qed.

Lemma invalidate_runs s m ls :
  inv s m → name_ok ls → runs (invalidate_record (wire ls)) s (λ _ s' w, w = [] ∧ step_ok False s m s' m).
Proof.
  intros H Hls. unfold invalidate_record. apply runs_bind. eapply lookup_runs; [done|done|]. intros l _ _. cbn beta iota.
  destruct (m !! fold_name ls) as [q|] eqn:Hk; [|apply runs_ret; split; [done|by apply step_refl]].
  destruct (inv_cent _ _ _ _ H Hk) as (c & ls' & Hq & _ & _ & _ & Hc). pose proof (step_invalidated _ _ _ _ _ H Hk Hq) as Hst.
  unfold invalidated in Hst. apply runs_bind. eapply runs_load; [done|]. apply runs_bind. rewrite (shape_neg c Hc).
  destruct (rr c) as [x t t0|arr] eqn:Hr; cbn [negb].
  - eapply runs_store; [done|]. eapply runs_store; [apply lookup_upd|]. by rewrite upd_upd.
  - apply runs_bind. eapply runs_sets_of; [done|]. eapply runs_store; [done|]. eapply runs_store; [apply lookup_upd|]. by rewrite upd_upd.
Qed.

(** ** Everything is deleted *)
Lemma del_cents_runs l s m :
  inv s m → l ≡ₚ (map_to_list m).*2 →
  runs (del_cents l) (set_table nt_empty s) (λ _ s' w, w = [] ∧ step_ok False s m s' ∅).
Proof.
  revert s m. induction l as [|p l IH]; intros s m H Hl; cbn [del_cents].
  - assert (m = ∅) as ->.
    { destruct (map_to_list m) as [|x l] eqn:E; [by apply map_to_list_empty_iff|]. by apply Permutation_nil_cons in Hl. }
    apply runs_ret. split; [done|]. split; [|done|done|done]. destruct H as [Hm H1 H2 H3 H4 H5]. split; [by destruct Hm|apply nt_empty_ok|exact H2|exact H3|exact H4|exact H5].
  - assert (∃ k, m !! k = Some p) as [k Hk].
    { assert (p ∈ (map_to_list m).*2) as ([k p'] & -> & Hin)%list_elem_of_fmap by (rewrite <-Hl; set_solver).
      exists k. by apply elem_of_map_to_list. }
    destruct (inv_cent _ _ _ _ H Hk) as (c & ls & Hp & Hq & Hls & Ek & Hc).
    destruct (nt_del_ok _ _ _ _ (i_table _ _ H) Hls) as (t & _ & Ht). rewrite <-Ek in Ht.
    pose proof (step_delete False s m k p c t H Hk Hp Ht ltac:(done)) as Hst.
    apply runs_bind. eapply (del_cent_runs _ p c); [by destruct (i_mem _ _ H)|done|].
    eapply runs_mono; [apply (IH (deleted t p c s) (delete k m)); [by apply Hst|]|].
    + rewrite <-(insert_delete_id m k p Hk), map_to_list_insert in Hl by by rewrite lookup_delete_eq. cbn in Hl. by apply Permutation_cons_inv in Hl.
    + intros [] s' w [-> Hst']. split; [done|]. by eapply step_trans.
Qed.

Lemma free_dns_hash_runs s m : inv s m → runs free_dns_hash s (λ _ s' w, w = [] ∧ step_ok False s m s' ∅).
Proof.
  intros H. unfold free_dns_hash. apply runs_bind, runs_get, runs_bind, runs_modify. apply del_cents_runs; [done|].
  by eapply nt_entries_ok, H.
Qed.
End Ops.
End DnsCacheOps.
