(* ===== verification/DnsCacheFile.v ===== *)
(** * File of the DNS cache ([pdnsd/src/cache.c])

    At its end the program writes the cache to a file, at its start it reads
    it.  The file holds the entries one after the other, without the local
    sets: a header, the name, and for every set a header and its records.
    Integers are in the byte order and with the widths of the machine.

    A file that is read is a sequence of bytes, of which nothing is known; an
    error of the device is as the end of the file.  A file that is written has
    room for some number of bytes. *)

From S2P Require Import Prelude DnsNames DnsHash DnsCache.
Import DnsNames DnsCache.

Module DnsCacheFile.

Definition cachverid : list Z := [112; 100; 49; 51].
Definition int64 (x : Z) : Z := if x <? 9223372036854775808 then x else x - 18446744073709551616.

(** The members of a structure in the file: at an offset, of some bytes. *)
Definition member (off n : Z) (b : list Z) : Z := of_le (slice off n b).

Definition sizeof_dns_file_t : Z := 6.
Definition sizeof_rr_fset_t : Z := 20.
Definition sizeof_dom_fttlts_t : Z := 16.

Definition rrmuiterlist : list Z := [1; 2; 5; 6; 12; 15; 16; 28].
Definition rrcachiterlist : list Z :=
  [1; 2; 3; 4; 5; 6; 7; 8; 9; 10; 11; 12; 13; 14; 15; 16; 17; 18; 19; 20; 21; 22; 23; 24; 25; 26; 27; 28; 29; 30;
   31; 32; 33; 34; 35; 36; 37; 42; 43; 44; 45; 46; 47; 48; 49; 50; 51].

Definition PDNSD_NOT_CACHED_TYPE (type : Z) : bool :=
  (type <? T_MIN) || (type >? T_NUM) ||
  match rrlkuptab !! Z.to_nat (type - T_MIN) with Some idx => idx >=? NRRTOT | None => true end.

(** ** Reading *)
Definition fread (n : Z) (f : list Z) : option (list Z * list Z) :=
  if zlen f <? n then None else Some (take (Z.to_nat n) f, drop (Z.to_nat n) f).

(** The labels at the end of [read_disk_cache]. *)
Inductive label := free_cent_data_fclose | free_data_fclose | free_cent_data_fclose_exit | free_data_fclose_exit.

(** Whether the name consists of elements of 1 to 63 bytes. *)
Fixpoint check_name (fuel : nat) (nb : list Z) (i qlen : Z) : option bool :=
  if i <? qlen then
    lb ← rd nb i;
    if (lb =? 0) || (lb >? 63) || (i + (lb + 1) >? qlen) then Some false
    else match fuel with O => None | S fuel' => check_name fuel' nb (i + (lb + 1)) qlen end
  else Some true.

Section File.
Context {T L : Type} `{!NameTable T L} (global : globparm_t).
Abbreviation state := (@cache T).
Abbreviation act := (M state warning).

(** The records of a set, [n] of them; the size of the buffer [data], and what
    is left of the file. *)
Fixpoint read_rrs (n : nat) (p : positive) (tp t t0 fl dtsz : Z) (f : list Z) : act (label + Z * list Z) :=
  match n with
  | O => mret (inr (dtsz, f))
  | S n' =>
      match fread 2 f with
      | None => emit (FileMsg ReadError);; mret (inl free_cent_data_fclose)
      | Some (b, f) =>
          let rdlen := member 0 2 b in
          grown ← (if rdlen >? dtsz then ok ← malloc; mret (if (ok : bool) then Some rdlen else None) else mret (Some dtsz));
          match grown with
          | None => mret (inl free_cent_data_fclose_exit)
          | Some dtsz =>
              match (if rdlen =? 0 then Some ([], f) else fread rdlen f) with
              | None => emit (FileMsg ReadError);; mret (inl free_cent_data_fclose)
              | Some (data, f) =>
                  ok ← add_cent_rr p tp t t0 fl data;
                  if negb ok then mret (inl free_cent_data_fclose_exit) else read_rrs n' p tp t t0 fl dtsz f
              end
          end
      end
  end.

(** The sets of an entry, [n] of them. *)
Fixpoint read_sets (n : nat) (p : positive) (prevtp dtsz : Z) (f : list Z) : act (label + Z * list Z) :=
  match n with
  | O => mret (inr (dtsz, f))
  | S n' =>
      match fread sizeof_rr_fset_t f with
      | None => emit (FileMsg ReadError);; mret (inl free_cent_data_fclose)
      | Some (sh, f) =>
          let tp := member 0 1 sh in
          let num_rr := member 1 1 sh in
          let fl := member 2 2 sh in
          let t := int64 (member 4 8 sh) in
          let t0 := int64 (member 12 8 sh) in
          if PDNSD_NOT_CACHED_TYPE tp then emit (FileMsg BadType);; mret (inl free_data_fclose)
          else if tp <=? prevtp then emit (FileMsg TypeOrder);; mret (inl free_data_fclose)
          else
            ok ← add_cent_rrset_by_type p tp t t0 fl;
            if negb ok then mret (inl free_cent_data_fclose_exit)
            else
              r ← read_rrs (Z.to_nat num_rr) p tp t t0 fl dtsz f;
              match r with
              | inl l => mret (inl l)
              | inr (dtsz, f) => read_sets n' p tp dtsz f
              end
      end
  end.

(** The end of the body of the loop over the entries, and the labels that free
    the entry [ce], which is on the stack. *)
Definition end_entry (p : positive) (r : label + Z * list Z) : act (label + Z * list Z) :=
  match r with
  | inr x => add_cache global p;; free_cent p;; free p;; mret (inr x)
  | inl free_cent_data_fclose => free_cent p;; free p;; mret (inl free_data_fclose)
  | inl free_cent_data_fclose_exit => free_cent p;; free p;; mret (inl free_data_fclose_exit)
  | inl l => mret (inl l)
  end.

(** An entry whose header [fe] was read. *)
Definition read_cent (fe : list Z) (t t0 : Z) (nb : list Z) (dtsz : Z) (f : list Z) : act (label + Z * list Z) :=
  q ← init_cent (nb ++ [0]) t t0 (member 2 2 fe);
  match q with
  | None => mret (inl free_data_fclose_exit)
  | Some p =>
      store p (λ c, set_csoa (member 5 1 fe) (set_cns (member 4 1 fe) c));;
      r ← read_sets (Z.to_nat (member 1 1 fe)) p 0 dtsz f;
      end_entry p r
  end.

Definition read_entry (dtsz : Z) (f : list Z) : act (label + Z * list Z) :=
  match fread sizeof_dns_file_t f with
  | None => emit (FileMsg ReadError);; mret (inl free_data_fclose)
  | Some (fe, f) =>
      let qlen := member 0 1 fe in
      match (if has (member 2 2 fe) DF_NEGATIVE then
               '(b, f) ← fread sizeof_dom_fttlts_t f; Some (int64 (member 0 8 b), int64 (member 8 8 b), f)
             else Some (0, 0, f)) with
      | None => emit (FileMsg ReadError);; mret (inl free_data_fclose)
      | Some (t, t0, f) =>
          match (if qlen =? 0 then Some ([], f) else fread qlen f) with
          | None => emit (FileMsg ReadError);; mret (inl free_data_fclose)
          | Some (nb, f) =>
              ok ← lift (check_name (length nb) nb 0 qlen);
              if negb ok then emit (FileMsg BadName);; mret (inl free_data_fclose) else read_cent fe t t0 nb dtsz f
          end
      end
  end.

(** The loop over the entries.  [fuel] is the number of rounds. *)
Fixpoint read_entries (fuel : nat) (cnt dtsz : Z) (f : list Z) : act label :=
  if cnt >? 0 then
    r ← read_entry dtsz f;
    match r with
    | inl l => mret l
    | inr (dtsz, f) => match fuel with O => crash | S fuel' => read_entries fuel' (cnt - 1) dtsz f end
    end
  else mret free_data_fclose.

(** The version identifier, the number of entries, and the entries. *)
Definition read_file (f : list Z) : act label :=
  match fread (zlen cachverid) f with
  | None => when (negb (zlen f =? 0)) (emit (FileMsg ReadError));; mret free_data_fclose
  | Some (buf, f) =>
      if negb (bool_decide (buf = cachverid)) then emit (FileMsg BadVersion);; mret free_data_fclose
      else
        match fread 8 f with
        | None => emit (FileMsg ReadError);; mret free_data_fclose
        | Some (b, f) => read_entries (length f) (member 0 8 b) 512 f
        end
  end.

(** [false] if the program exits.  [None]: the file cannot be opened. *)
Definition read_disk_cache (file : option (list Z)) : act bool :=
  match file with
  | None => emit (FileMsg CannotOpen);; mret true
  | Some f =>
      ok ← malloc;
      if negb ok then emit (FileMsg Exiting);; mret false
      else
        modify (set_sort false);;
        l ← read_file f;
        match l with
        | free_data_fclose | free_cent_data_fclose =>
            s ← get;
            when (negb (insert_sort s)) (sort_rrl;; modify (set_sort true));;
            mret true
        | _ => emit (FileMsg Exiting);; mret false
        end
  end.

(** ** Writing *)
Record file := mkFile { room : Z; written : list Z }.
Abbreviation wr := (M file warning).
Definition need {A} (o : option A) : wr A := λ f, match o with Some a => Some (a, f, []) | None => None end.

Definition fwrite (d : list Z) : wr bool :=
  f ← get;
  if zlen d <=? room f then put (mkFile (room f - zlen d) (written f ++ d));; mret true
  else put (mkFile 0 (written f ++ take (Z.to_nat (room f)) d));; mret false.

(** The data of a record, the length of which is 16 bits wide in the file. *)
Fixpoint write_rrs (l : list (list Z)) : wr bool :=
  match l with
  | [] => mret true
  | d :: l' =>
      let rdlen := u16 (zlen d) in
      ok ← fwrite (le_bytes 2 rdlen);
      ok ← (if negb ok then mret false else if rdlen =? 0 then mret true else fwrite (take (Z.to_nat rdlen) d));
      if negb ok then emit (FileMsg WriteError);; mret false else write_rrs l'
  end.

Definition rr_fset_t (tp num_rr fl t t0 : Z) : list Z :=
  le_bytes 1 tp ++ le_bytes 1 num_rr ++ le_bytes 2 fl ++ le_bytes 8 t ++ le_bytes 8 t0.

Definition write_rrset (tp : Z) (r : rr_set_t) : wr bool :=
  let num_rr := Nat.min 255 (length (rrs r)) in
  ok ← fwrite (rr_fset_t tp (Z.of_nat num_rr) (rflags r) (ttl r) (ts r));
  if negb ok then emit (FileMsg WriteError);; mret false else write_rrs (take num_rr (rrs r)).

Definition remote_set (x : option rr_set_t) : bool :=
  match x with Some r => negb (has (rflags r) CF_LOCAL) | None => false end.

(** The sets of an entry, [RRARR_INDEX(le,j)] for all [j < RRARR_LEN(le)]. *)
Definition arr_need (c : dns_cent_t) : wr (list (option rr_set_t)) :=
  if has (flags c) DF_NEGATIVE then mret []
  else match rr c with Sets arr => mret arr | Neg _ _ _ => need None end.

(** Whether the entry is written. *)
Definition to_write (c : dns_cent_t) : wr bool :=
  if has (flags c) DF_NEGATIVE then mret (negb (has (flags c) DF_LOCAL))
  else arr ← arr_need c; mret (existsb remote_set arr).

Definition dns_file_t (qlen num_rrs fl ns soa : Z) : list Z :=
  le_bytes 1 qlen ++ le_bytes 1 num_rrs ++ le_bytes 2 fl ++ le_bytes 1 ns ++ le_bytes 1 soa.

(** The sets of the types of a list, in its order. *)
Fixpoint write_sets (arr : list (option rr_set_t)) (iterlist : list Z) : wr bool :=
  match iterlist with
  | [] => mret true
  | tp :: iterlist' =>
      idx ← need (rrlkuptab !! Z.to_nat (tp - T_MIN));
      match mjoin (arr !! Z.to_nat idx) with
      | Some r =>
          if negb (has (rflags r) CF_LOCAL) then
            ok ← write_rrset tp r;
            if negb ok then mret false else write_sets arr iterlist'
          else write_sets arr iterlist'
      | None => write_sets arr iterlist'
      end
  end.

Definition MAX_NUM_RRS_ERRS : Z := 10.

(** The entry [c] after [errs] entries with a wrong number of sets; [None] if writing failed. *)
Definition write_entry (c : dns_cent_t) (errs : Z) : wr (option Z) :=
  len ← need (rhnlen (qname c));
  arr ← arr_need c;
  let qlen := u8 (len - 1) in
  let num_rrs' := zlen (filter (λ x, is_Some x) arr) in
  let errs' := if num_rrs' =? num_rrs c then errs else errs + 1 in
  when (negb (num_rrs' =? num_rrs c) && (errs' <=? MAX_NUM_RRS_ERRS)) (emit (FileMsg CountedWrong));;
  ok ← fwrite (dns_file_t qlen (zlen (filter (λ x, remote_set x = true) arr)) (flags c) (c_ns c) (c_soa c));
  ok ← (if negb ok then mret false
        else match (if has (flags c) DF_NEGATIVE then Some (rr c) else None) with
             | Some (Neg _ t t0) => fwrite (le_bytes 8 t ++ le_bytes 8 t0)
             | Some (Sets _) => need None
             | None => mret true
             end);
  ok ← (if negb ok then mret false else if qlen =? 0 then mret true else fwrite (take (Z.to_nat qlen) (qname c)));
  if negb ok then emit (FileMsg WriteError);; mret None
  else
    ok ← write_sets arr (if has (flags c) DF_NEGATIVE then [] else if zlen arr =? NRRMU then rrmuiterlist else rrcachiterlist);
    mret (if (ok : bool) then Some errs' else None).

(** The entries of the table, in the order of [fetch_first] and [fetch_next]. *)
Fixpoint count_entries (s : state) (l : list positive) : wr Z :=
  match l with
  | [] => mret 0
  | p :: l' =>
      c ← need (cents s !! p);
      b ← to_write c;
      n ← count_entries s l';
      mret (if (b : bool) then n + 1 else n)
  end.

Fixpoint write_entries (s : state) (l : list positive) (errs : Z) : wr bool :=
  match l with
  | [] => mret true
  | p :: l' =>
      c ← need (cents s !! p);
      b ← to_write c;
      if (b : bool) then
        r ← write_entry c errs;
        match r with
        | Some errs => write_entries s l' errs
        | None => mret false
        end
      else write_entries s l' errs
  end.

Definition write_file (s : state) : wr bool :=
  ok ← fwrite cachverid;
  if negb ok then emit (FileMsg WriteError);; mret false
  else
    en ← count_entries s (nt_entries (hash_buckets s));
    ok ← fwrite (le_bytes 8 en);
    if negb ok then emit (FileMsg WriteError);; mret false
    else write_entries s (nt_entries (hash_buckets s)) 0.

(** What the system decides: whether the locks are obtained and released, the
    file is opened and closed, and the room there is. *)
Record system := mkSystem { lock_rw : bool; unlock_rw : bool; lock_r : bool; opened : bool; closed : bool; space : Z }.

(** What is in the file afterwards; [None] if it was not opened. *)
Definition write_disk_cache (e : system) : act (option (list Z)) :=
  if negb (lock_rw e) then emit (FileMsg LockFailed);; mret None
  else
    purge_cache (perm_cache global * 1024) false;;
    if negb (unlock_rw e && lock_r e) then emit (FileMsg LockFailed);; mret None
    else if negb (opened e) then emit (FileMsg CannotOpen);; mret None
    else
      s ← get;
      match write_file s (mkFile (space e) []) with
      | None => crash
      | Some (ok, f, w) =>
          (λ s, Some (tt, s, w));;
          when (ok && negb (closed e)) (emit (FileMsg WriteError));;
          mret (Some (written f))
      end.
End File.
End DnsCacheFile.
