(* ===== verification/DnsCacheFileOk.v ===== *)
(** * Reading and writing the file of the cache is safe

    Whatever bytes a file consists of, reading it ends and leaves the cache
    consistent; writing ends and leaves the cache as [purge_cache] does. *)

From S2P Require Import Prelude DnsNames DnsHash DnsCache DnsCacheMem DnsCacheSort DnsCacheOk DnsCacheAdd DnsCacheOps DnsCacheFile.
Import DnsNames DnsCache DnsCacheMem DnsCacheSort DnsCacheOk DnsCacheAdd DnsCacheOps DnsCacheFile.

Module DnsCacheFileOk.

(** ** Types *)
Lemma cached_type tp : PDNSD_NOT_CACHED_TYPE tp = false → type_ok tp.
Proof.
  unfold PDNSD_NOT_CACHED_TYPE, type_ok, T_MIN, T_NUM. intros [[H1 H2]%orb_false_iff H3]%orb_false_iff. zb. split; [lia|].
  intros idx Hi. rewrite Hi in H3. by zb.
Qed.

Lemma rrlkuptab_nodup : NoDup rrlkuptab.
Proof. by apply (bool_decide_unpack _). Qed.

Lemma type_inj tp tp' idx : type_ok tp → type_ok tp' →
  rrlkuptab !! Z.to_nat (tp - T_MIN) = Some idx → rrlkuptab !! Z.to_nat (tp' - T_MIN) = Some idx → tp = tp'.
Proof.
  intros [H1 _] [H2 _] E1 E2. pose proof (NoDup_lookup _ _ _ _ rrlkuptab_nodup E1 E2). unfold T_MIN in *. lia.
Qed.

(** No set of a type above [tp]. *)
Definition none_above (tp : Z) (c : dns_cent_t) : Prop := ∀ tp' idx, type_ok tp' → tp < tp' →
  rrlkuptab !! Z.to_nat (tp' - T_MIN) = Some idx → set_at c (Z.to_nat idx) = None.

(** A set of the type [tp] is new. *)
Lemma none_above_step tp tp' idx c c' : none_above tp c → tp < tp' → type_ok tp' → rrlkuptab !! Z.to_nat (tp' - T_MIN) = Some idx →
  (∀ j, j ≠ Z.to_nat idx → set_at c' j = set_at c j) → none_above tp' c'.
Proof.
  intros H Htp Ht Hi Hs tp2 idx2 Ht2 Htp2 Hi2. rewrite Hs; [by apply (H tp2); [|lia|]|]. intros E.
  destruct (type_index _ Ht) as (x & Hx & ?), (type_index _ Ht2) as (y & Hy & ?). assert (x = idx) as -> by congruence.
  assert (y = idx2) as -> by congruence. assert (idx2 = idx) as -> by lia. assert (tp2 = tp') by by eapply type_inj. lia.
Qed.

(** ** Names *)
Lemma check_name_ok fuel pre rest : (length rest <= fuel)%nat → bytes rest →
  ∃ b, check_name fuel (pre ++ rest) (zlen pre) (zlen (pre ++ rest)) = Some b ∧
    (b = true → ∃ ls, rest = segs ls ∧ Forall label_ok ls).
Proof.
  revert pre rest. induction fuel as [|fuel IH]; intros pre rest Hf Hb; cbn [check_name].
  { destruct rest; [|cbn in Hf; lia]. rewrite app_nil_r. zdec. exists true. split; [done|]. by exists []. }
  destruct rest as [|lb rest]; [rewrite app_nil_r; zdec; exists true; split; [done|]; by exists []|].
  rewrite zlen_app, zlen_cons. pose proof (zlen_nonneg rest). zdec. rewrite rd_here. cbn [mbind option_bind].
  inversion Hb as [|? ? Hlb Hb']; subst. unfold is_u8, UINT8_MAX in Hlb. destruct ((lb =? 0) || _ || _) eqn:Hif; [by exists false|].
  apply orb_false_iff in Hif as [[H1 H2]%orb_false_iff H3]. zb.
  set (l := take (Z.to_nat lb) rest). set (rest' := drop (Z.to_nat lb) rest).
  assert (Hl : zlen l = lb) by (unfold l, zlen in *; rewrite length_take; lia).
  assert (E : pre ++ lb :: rest = (pre ++ lb :: l) ++ rest') by (rewrite <-app_assoc; cbn; unfold l, rest'; by rewrite take_drop).
  destruct (IH (pre ++ lb :: l) rest') as (b & Hc & Hok).
  - unfold rest'. rewrite length_drop. cbn in Hf. lia.
  - by apply Forall_drop.
  - rewrite <-E in Hc. rewrite !zlen_app, zlen_cons, Hl in Hc. replace (zlen pre + (lb + 1)) with (zlen pre + (1 + lb)) by lia.
    rewrite zlen_cons in Hc. exists b. split; [exact Hc|]. intros Hbt. destruct (Hok Hbt) as (ls & Hr & Hls). exists (l :: ls). split.
    + rewrite segs_cons, Hl, <-Hr. cbn. f_equal. unfold l, rest'. by rewrite take_drop.
    + constructor; [|done]. unfold label_ok. lia.
Qed.

Lemma member_range off n b : bytes b → 0 <= member off n b.
Proof. intros Hb. unfold member. apply of_le_range. unfold slice. by apply Forall_take, Forall_drop. Qed.

Lemma fread_some n f b f' : fread n f = Some (b, f') → f = b ++ f' ∧ zlen b = Z.max 0 n.
Proof.
  unfold fread. case_if; [done|]. intros [= <- <-]. split; [by rewrite take_drop|]. unfold zlen in *. rewrite length_take. lia.
Qed.

(** What is left of a file. *)
Definition tail_of (f' f : list Z) : Prop := ∃ b, f = b ++ f'.
Lemma tail_refl f : tail_of f f.
Proof. by exists []. Qed.
Lemma tail_trans f1 f2 f3 : tail_of f1 f2 → tail_of f2 f3 → tail_of f1 f3.
Proof. intros [b ->] [b' ->]. exists (b' ++ b). by rewrite app_assoc. Qed.
Lemma tail_fread n f b f' : fread n f = Some (b, f') → tail_of f' f.
Proof. intros [-> _]%fread_some. by exists b. Qed.
Lemma tail_bytes f' f : tail_of f' f → bytes f → bytes f'.
Proof. intros [b ->] H. by apply Forall_app in H as [_ H]. Qed.
Lemma tail_zlen f' f : tail_of f' f → zlen f' <= zlen f.
Proof. intros [b ->]. rewrite zlen_app. pose proof (zlen_nonneg b). lia. Qed.
Lemma tail_optional n f b f' : (if n =? 0 then Some ([], f) else fread n f) = Some (b, f') → tail_of f' f.
Proof. case_if; [intros [= <- <-]; apply tail_refl|apply tail_fread]. Qed.

Abbreviation wr := (M file warning).

(** ** What is written *)
Definition rr_bytes (d : list Z) : list Z := le_bytes 2 (u16 (zlen d)) ++ take (Z.to_nat (u16 (zlen d))) d.
Definition rrs_bytes (l : list (list Z)) : list Z := mjoin (rr_bytes <$> l).

Definition set_file (tp : Z) (r : rr_set_t) : list Z :=
  rr_fset_t tp (Z.of_nat (Nat.min 255 (length (rrs r)))) (rflags r) (ttl r) (ts r) ++ rrs_bytes (take (Nat.min 255 (length (rrs r))) (rrs r)).

(** The set of a type. *)
Definition of_type (arr : list (option rr_set_t)) (tp : Z) : option rr_set_t :=
  rrlkuptab !! Z.to_nat (tp - T_MIN) ≫= λ idx, mjoin (arr !! Z.to_nat idx).

Definition sets_file (arr : list (option rr_set_t)) (iterlist : list Z) : list Z :=
  mjoin ((λ tp, match of_type arr tp with
                | Some r => if has (rflags r) CF_LOCAL then [] else set_file tp r
                | None => []
                end) <$> iterlist).

Definition worth (c : dns_cent_t) : bool :=
  match rr c with Neg _ _ _ => negb (has (flags c) DF_LOCAL) | Sets arr => existsb remote_set arr end.

Definition iterlist (arr : list (option rr_set_t)) : list Z := if zlen arr =? NRRMU then rrmuiterlist else rrcachiterlist.

Definition entry_file (c : dns_cent_t) : list Z :=
  let qlen := u8 (zlen (qname c) - 1) in
  dns_file_t qlen (zlen (filter (λ x, remote_set x = true) (arr_of c))) (flags c) (c_ns c) (c_soa c) ++
  match rr c with Neg _ t t0 => le_bytes 8 t ++ le_bytes 8 t0 | Sets _ => [] end ++
  take (Z.to_nat qlen) (qname c) ++
  match rr c with Neg _ _ _ => [] | Sets arr => sets_file arr (iterlist arr) end.

(** ** Writing in general

    [writes m d a b]: [m] writes [d] and returns [a] if there is room for it,
    and otherwise returns [b]; [fails m b]: it returns [b]. *)
Definition writes {A} (m : wr A) (d : list Z) (a b : A) : Prop := ∀ f, 0 <= room f →
  runs m f (λ x f' w, silent w ∧ 0 <= room f' ∧ (x = a ∨ x = b) ∧
    (zlen d <= room f → x = a ∧ w = [] ∧ f' = mkFile (room f - zlen d) (written f ++ d))).
Definition fails {A} (m : wr A) (b : A) : Prop := ∀ f, 0 <= room f → runs m f (λ x f' w, silent w ∧ 0 <= room f' ∧ x = b).

Lemma writes_bind {A B} (m : wr A) (k : A → wr B) d1 d2 a1 b1 a2 b2 :
  writes m d1 a1 b1 → writes (k a1) d2 a2 b2 → (b1 = a1 ∨ fails (k b1) b2) → writes (m ≫= k) (d1 ++ d2) a2 b2.
Proof.
  intros Hm Hk Hb f Hf. apply runs_bind. eapply runs_mono; [by apply Hm|]. intros x f1 w (Hw & Hf1 & Hx & Hd).
  pose proof (zlen_nonneg d1). pose proof (zlen_nonneg d2).
  assert (x = a1 ∨ (x = b1 ∧ room f < zlen d1 ∧ fails (k b1) b2)) as [-> | (-> & Hlt & Hfail)].
  { destruct Hb as [-> | Hb]; [naive_solver|]. destruct (decide (zlen d1 <= room f)); [left; by apply Hd|].
    destruct Hx; [by left|right]. split_and!; [done|lia|done]. }
  - eapply runs_mono; [by apply Hk|]. intros y f2 w2 (Hw2 & Hf2 & Hy & Hd2). split_and!; [by apply Forall_app|done|done|].
    rewrite zlen_app. intros Hr. destruct Hd as (_ & -> & ->); [lia|]. cbn in Hd2. destruct Hd2 as (-> & -> & ->); [lia|].
    split_and!; [done|done|]. by rewrite app_assoc, Z.sub_add_distr.
  - eapply runs_mono; [by apply Hfail|]. intros y f2 w2 (Hw2 & Hf2 & ->). split_and!; [by apply Forall_app|done|by right|].
    rewrite zlen_app. lia.
Qed.

Lemma writes_ret {A} (a b : A) : writes (mret a) [] a b.
Proof.
  intros f Hf. apply runs_ret. split_and!; [constructor|done|by left|]. intros _. split_and!; [done|done|]. destruct f. cbn.
  by rewrite app_nil_r, Z.sub_0_r.
Qed.
Lemma writes_need {A} (o : option A) a b : o = Some a → writes (need o) [] a b.
Proof. intros ->. apply writes_ret. Qed.
Lemma fails_ret {A} (b : A) : fails (mret b) b.
Proof. intros f Hf. apply runs_ret. split_and!; [constructor|done|done]. Qed.
Lemma fails_emit {A} (b : A) : fails (emit (FileMsg WriteError);; mret b) b.
Proof. intros f Hf. apply runs_bind, runs_emit, runs_ret. split_and!; [by repeat constructor|done|done]. Qed.
Lemma fails_bind {A B} (m : wr A) (k : A → wr B) a b : fails m a → fails (k a) b → fails (m ≫= k) b.
Proof.
  intros Hm Hk f Hf. apply runs_bind. eapply runs_mono; [by apply Hm|]. intros x f1 w (Hw & Hf1 & ->). eapply runs_mono; [by apply Hk|].
  intros y f2 w2 (Hw2 & Hf2 & ->). split_and!; [by apply Forall_app|done|done].
Qed.

Lemma writes_fwrite d : writes (fwrite d) d true false.
Proof.
  intros f Hf. unfold fwrite. apply runs_bind, runs_get. unfold runs. mrun. case_if; cbn.
  - split_and!; [constructor|lia|by left|done].
  - split_and!; [constructor|done|by right|lia].
Qed.

(** A step that writes nothing. *)
Lemma writes_pure {A B} (m : wr A) (k : A → wr B) a d a2 b2 : writes m [] a a → writes (k a) d a2 b2 → writes (m ≫= k) d a2 b2.
Proof. intros Hm Hk. rewrite <-(app_nil_l d). eapply writes_bind; [done|done|by left]. Qed.

Lemma writes_rrs l : writes (write_rrs l) (rrs_bytes l) true false.
Proof.
  induction l as [|d l IH]; cbn [write_rrs]; [apply writes_ret|]. change (rrs_bytes (d :: l)) with (rr_bytes d ++ rrs_bytes l).
  unfold rr_bytes. rewrite <-app_assoc. eapply (writes_bind _ _ _ _ true false); [apply writes_fwrite| |right; eapply fails_bind; [apply fails_ret|apply fails_emit]].
  cbn [negb]. eapply (writes_bind _ _ _ _ true false); [|exact IH|right; apply fails_emit]. case_if; [|apply writes_fwrite].
  rewrite Hif. apply writes_ret.
Qed.

Lemma writes_set tp r : writes (write_rrset tp r) (set_file tp r) true false.
Proof. unfold write_rrset, set_file. eapply (writes_bind _ _ _ _ true false); [apply writes_fwrite|apply writes_rrs|right; apply fails_emit]. Qed.

Lemma writes_sets arr l : Forall type_ok l → writes (write_sets arr l) (sets_file arr l) true false.
Proof.
  unfold sets_file. induction 1 as [|tp l Ht _ IH]; cbn [write_sets]; [apply writes_ret|].
  destruct (type_index _ Ht) as (idx & Hi & _). eapply writes_pure; [by apply writes_need|].
  change (mjoin ((?g <$> tp :: l))) with (g tp ++ mjoin (g <$> l)). unfold of_type at 1. rewrite Hi. cbn [mbind option_bind].
  destruct (mjoin (arr !! Z.to_nat idx)) as [r|]; [|exact IH]. destruct (has (rflags r) CF_LOCAL); cbn [negb]; [exact IH|].
  eapply (writes_bind _ _ _ _ true false); [apply writes_set|exact IH|right; apply fails_ret].
Qed.

Lemma iterlist_ok arr : Forall type_ok (iterlist arr).
Proof.
  assert (Forall (λ tp, PDNSD_NOT_CACHED_TYPE tp = false) (iterlist arr)) as H.
  { unfold iterlist. case_if; repeat constructor. }
  eapply Forall_impl; [exact H|]. apply cached_type.
Qed.

Lemma writes_arr c : cent_ok c → writes (arr_need c) [] (arr_of c) (arr_of c).
Proof.
  intros Hc. unfold arr_need, arr_of. rewrite (shape_neg c Hc). destruct (rr c); apply writes_ret.
Qed.

Lemma writes_worth c : cent_ok c → writes (to_write c) [] (worth c) (worth c).
Proof.
  intros Hc. unfold to_write, worth. pose proof (writes_arr c Hc) as Ha. rewrite (shape_neg c Hc). unfold arr_of in Ha.
  destruct (rr c); [apply writes_ret|]. eapply writes_pure; [done|apply writes_ret].
Qed.

Lemma count_some arr : zlen (filter (λ x : option rr_set_t, is_Some x) arr) = arr_num arr.
Proof.
  induction arr as [|[r|] arr IH]; [done| |].
  - rewrite filter_cons_True by done. rewrite zlen_cons, IH. done.
  - rewrite filter_cons_False by by intros []. rewrite IH. done.
Qed.

Lemma counted_right c : cent_ok c → zlen (filter (λ x : option rr_set_t, is_Some x) (arr_of c)) = num_rrs c.
Proof.
  intros [_ Hs _]. rewrite count_some. unfold shape_ok, arr_of in *. destruct (rr c); [by destruct Hs as (_ & -> & _)|]. by destruct Hs as (_ & _ & -> & _).
Qed.

Lemma writes_entry c errs : cent_ok c → writes (write_entry c errs) (entry_file c) (Some errs) None.
Proof.
  intros Hc. unfold write_entry. eapply writes_pure; [by apply writes_need, name_copy|]. eapply writes_pure; [by apply writes_arr|].
  rewrite (counted_right c Hc), Z.eqb_refl. cbn [negb andb when]. eapply writes_pure; [apply writes_ret|]. unfold entry_file.
  assert (Hfail : fails (emit (FileMsg WriteError);; mret (@None Z)) None) by apply fails_emit.
  eapply (writes_bind _ _ _ _ true false); [apply writes_fwrite| |].
  2:{ right. eapply fails_bind; [apply fails_ret|]. eapply fails_bind; [apply fails_ret|exact Hfail]. }
  cbn [negb]. rewrite (shape_neg c Hc). unfold arr_of. pose proof (iterlist_ok (arr_of c)) as Hit. unfold arr_of in Hit.
  eapply (writes_bind _ _ _ _ true false).
  - destruct (rr c); [apply writes_fwrite|apply writes_ret].
  - cbn [negb]. eapply (writes_bind _ _ _ _ true false); [| |right; exact Hfail].
    + case_if; [rewrite Hif; apply writes_ret|apply writes_fwrite].
    + cbn [negb]. destruct (rr c) as [x t t0|arr]; [by eapply writes_pure; [apply writes_ret|apply writes_ret]|].
      rewrite <-(app_nil_r (sets_file _ _)). eapply (writes_bind _ _ _ _ true false); [by apply writes_sets|apply writes_ret|right; apply fails_ret].
  - right. eapply fails_bind; [apply fails_ret|exact Hfail].
Qed.

Section Ok.
Context {T L : Type} `{!NameTable T L} (global : globparm_t).
Abbreviation st := (@cache T).
Abbreviation names := (gmap key positive).
Implicit Types (s : st) (m : names) (c : dns_cent_t) (p : positive).

(** Where the reading of sets and records leads: the entry [p] is built. *)
Definition building p (P : dns_cent_t → Prop) f s (r : label + Z * list Z) s' (w : list warning) : Prop :=
  silent w ∧ mem s' ∧ edits p s s' ∧ (∃ c', cents s' !! p = Some c' ∧ P c') ∧
  match r with inr (_, f') => tail_of f' f | inl _ => True end.

Lemma building_mono p (P P' : dns_cent_t → Prop) f f0 s0 s r s' w w0 :
  building p P f s r s' w → edits p s0 s → silent w0 → tail_of f f0 → (∀ c, P c → P' c) → building p P' f0 s0 r s' (w0 ++ w).
Proof.
  intros (Hw & Hm & He & (c' & Hc' & HP) & Hr) He0 Hw0 Hf HP'. split_and!; [by apply Forall_app|done|by eapply edits_trans|eauto|].
  destruct r as [|[d f']]; [done|]. by eapply tail_trans.
Qed.

(** An end with a message. *)
Lemma building_stop p (P : dns_cent_t → Prop) f s c x l :
  mem s → cents s !! p = Some c → P c → harmless x = true →
  runs (emit x;; mret (inl l)) s (building p P f s).
Proof.
  intros H Hp HP Hx. apply runs_bind, runs_emit, runs_ret. split_and!; [by repeat constructor|done|apply edits_refl|eauto|done].
Qed.
Lemma building_end p (P : dns_cent_t → Prop) f s c l :
  mem s → cents s !! p = Some c → P c → runs (mret (inl l)) s (building p P f s).
Proof. intros H Hp HP. apply runs_ret. split_and!; [constructor|done|apply edits_refl|eauto|done]. Qed.

Definition others_stay (idx : Z) c c' : Prop := ∀ j, j ≠ Z.to_nat idx → set_at c' j = set_at c j.

Lemma read_rrs_runs n p tp t t0 fl dtsz f s c idx :
  mem s → cents s !! p = Some c → type_ok tp → rrlkuptab !! Z.to_nat (tp - T_MIN) = Some idx →
  runs (read_rrs n p tp t t0 fl dtsz f) s (building p (others_stay idx c) f s).
Proof.
  intros H Hp Ht Hi. revert dtsz f s c H Hp. induction n as [|n IH]; intros dtsz f s c H Hp; cbn [read_rrs].
  { apply runs_ret. split_and!; [constructor|done|apply edits_refl|by exists c|apply tail_refl]. }
  destruct (fread 2 f) as [[b f1]|] eqn:Ef; [|by eapply building_stop]. pose proof (tail_fread _ _ _ _ Ef) as Hf1. apply runs_bind.
  eapply (runs_mono _ _ (λ g s' w, w = [] ∧ ∃ l, s' = set_mallocs l s ∧ (mallocs s = [] → l = []))).
  { case_if; [|apply runs_ret; split; [done|]; exists (mallocs s); split; [by destruct s|done]].
    apply runs_bind, runs_malloc. intros x l Hl. apply runs_ret. split; [done|]. exists l. split; [done|naive_solver]. }
  intros g s1 w (-> & l & -> & Hl). cbn [app]. assert (H1 : mem (set_mallocs l s)) by by apply mem_mallocs.
  assert (He : edits p s (set_mallocs l s)) by by apply edits_mallocs.
  assert (HQ : ∀ k, runs k (set_mallocs l s) (building p (others_stay idx c) f (set_mallocs l s)) →
    runs k (set_mallocs l s) (λ r s' w, building p (others_stay idx c) f s r s' ([] ++ w))).
  { intros k Hk. eapply runs_mono; [exact Hk|]. intros r s' w HB. eapply building_mono; [done|done|constructor|apply tail_refl|done]. }
  destruct g as [dtsz'|]; [|apply HQ; by eapply building_end].
  destruct (if member 0 2 b =? 0 then Some ([], f1) else fread (member 0 2 b) f1) as [[data f2]|] eqn:Ed; [|apply HQ; by eapply building_stop].
  pose proof (tail_trans _ _ _ (tail_optional _ _ _ _ Ed) Hf1) as Hf2. apply runs_bind.
  eapply runs_mono; [by eapply (add_cent_rr_spec (set_mallocs l s) p c)|].
  intros ok s2 w (-> & H2 & He2 & _ & c2 & Hp2 & _ & Hs2 & _ & _). cbn [app]. destruct ok; cbn [negb].
  - eapply runs_mono; [by apply (IH dtsz' f2 s2 c2)|]. intros r s' w HB. eapply (building_mono _ _ _ _ _ _ _ _ _ _ []); [done| |constructor|done|].
    + by eapply edits_trans.
    + intros c3 Hc3 j Hj. by rewrite Hc3, Hs2.
  - apply runs_ret. split_and!; [constructor|done|by eapply edits_trans|by exists c2|done].
Qed.

Lemma read_sets_runs n p prevtp dtsz f s c :
  mem s → cents s !! p = Some c → none_above prevtp c →
  runs (read_sets n p prevtp dtsz f) s (building p (λ _, True) f s).
Proof.
  revert prevtp dtsz f s c. induction n as [|n IH]; intros prevtp dtsz f s c H Hp Hna; cbn [read_sets].
  { apply runs_ret. split_and!; [constructor|done|apply edits_refl|by exists c|apply tail_refl]. }
  destruct (fread sizeof_rr_fset_t f) as [[sh f1]|] eqn:Ef; [|by eapply building_stop]. pose proof (tail_fread _ _ _ _ Ef) as Hf1.
  destruct (PDNSD_NOT_CACHED_TYPE (member 0 1 sh)) eqn:Ht; [by eapply building_stop|]. apply cached_type in Ht.
  case_if; [by eapply building_stop|]. destruct (type_index _ Ht) as (idx & Hi & _). apply runs_bind.
  eapply runs_mono; [eapply (add_by_type_spec s p c); [done..|by eapply Hna; [| |]]|].
  intros ok s1 w (-> & H1 & He1 & _ & c1 & Hp1 & _ & _ & Hs1 & _). cbn [app]. destruct ok; cbn [negb].
  2:{ apply runs_ret. split_and!; [constructor|done|done|by exists c1|done]. }
  apply runs_bind. eapply runs_mono; [by eapply (read_rrs_runs _ p (member 0 1 sh) _ _ _ _ f1 s1 c1)|].
  intros r s2 w (Hw & H2 & He2 & (c2 & Hp2 & Hs2) & Hr). destruct r as [l|[d f2]].
  - apply runs_ret. rewrite app_nil_r. split_and!; [done|done|by eapply edits_trans|by exists c2|done].
  - eapply runs_mono; [eapply (IH _ _ f2 s2 c2); [done|done|]|].
    + eapply (none_above_step prevtp); [exact Hna| |exact Ht|exact Hi|]; [lia|]. intros j Hj. rewrite Hs2 by done. rewrite Hs1, decide_both.
      by rewrite decide_False.
    + intros r s' w' HB. eapply building_mono; [done|by eapply edits_trans|done|by eapply tail_trans|done].
Qed.

(** After an entry the cache has at most one more. *)
Definition one_more f m (r : label + Z * list Z) s' (w : list warning) : Prop :=
  silent w ∧ (∃ m', inv s' m' ∧ (base.size m' <= S (base.size m))%nat) ∧
  match r with inr (_, f') => tail_of f' f | inl _ => True end.

Lemma free_user s m p c (Q : unit → st → list warning → Prop) :
  inv s m → cents s !! p = Some c → ¬ cached m p → (∀ s', inv s' m → Q tt s' []) → runs (free_cent p;; free p) s Q.
Proof.
  intros H Hp Hu HQ. apply runs_bind. eapply free_cent_runs; [apply H|done|]. unfold free. apply runs_modify. apply HQ. by apply (inv_free s m p c).
Qed.

Lemma end_entry_runs f p r s m c :
  inv s m → cents s !! p = Some c → ¬ cached m p → few (ent_num s + 1) → (∀ d f', r = inr (d, f') → tail_of f' f) →
  runs (end_entry global p r) s (one_more f m).
Proof.
  intros H Hp Hu Hf Hr.
  assert (Hfree : ∀ l, runs (free_cent p;; free p;; mret (inl l)) s (one_more f m)).
  { intros l. apply runs_bind. eapply free_cent_runs; [apply H|done|]. apply runs_bind. unfold free. apply runs_modify, runs_ret.
    split_and!; [constructor| |done]. exists m. split; [by apply (inv_free s m p c)|lia]. }
  destruct r as [[]|[d f']]; cbn [end_entry]; [apply Hfree| |apply Hfree| |].
  - apply runs_ret. split_and!; [constructor| |done]. exists m. split; [done|lia].
  - apply runs_ret. split_and!; [constructor| |done]. exists m. split; [done|lia].
  - apply runs_bind. eapply runs_mono; [by apply (add_cache_runs global s m p c)|]. intros [] s1 w (Hw & m1 & Hst & Hsz).
    destruct (s_users _ _ _ _ _ Hst p c Hp Hu) as [Hp1 Hu1]. pose proof (s_inv _ _ _ _ _ Hst) as H1.
    apply runs_bind. eapply free_cent_runs; [apply H1|done|]. apply runs_bind. unfold free. apply runs_modify, runs_ret.
    rewrite !app_nil_r. split_and!; [done| |by eapply Hr]. exists m1. split; [by apply (inv_free s1 m1 p c)|done].
Qed.

Lemma set_refs_step s p c ns soa : mem s → cents s !! p = Some c → 0 <= ns → 0 <= soa →
  mem (upd p (set_csoa soa (set_cns ns c)) s) ∧ edits p s (upd p (set_csoa soa (set_cns ns c)) s).
Proof.
  intros H Hp Hns Hsoa. pose proof (m_cents _ H _ _ Hp) as [Hn Hs Hr]. eapply step_upd; [done|done| |done|done]. by split.
Qed.

Lemma new_cent_none ls t t0 f j : set_at (new_cent ls t t0 f) j = None.
Proof. unfold set_at, new_cent. cbn [rr]. case_if; [done|]. apply set_at_none. Qed.

Lemma read_cent_runs fe t t0 nb dtsz f s m :
  inv s m → few (ent_num s + 1) → bytes fe → (∃ ls, nb ++ [0] = wire ls ∧ name_ok ls) →
  runs (read_cent global fe t t0 nb dtsz f) s (one_more f m).
Proof.
  intros H Hf Hfe (ls & Enb & Hls). unfold read_cent. rewrite Enb. apply runs_bind. eapply runs_mono; [by apply init_cent_runs; [apply H|]|].
  intros q s1 w (-> & Hm1 & _ & Hq). cbn [app]. destruct q as [p|].
  2:{ destruct Hq as [l ->]. apply runs_ret. split_and!; [constructor| |done]. exists m. split; [by apply inv_mallocs|lia]. }
  destruct (inv_new _ _ _ _ _ H Hq Hm1) as [H1 Hu]. destruct Hq as [_ [l E1]].
  assert (Hp1 : cents s1 !! p = Some (new_cent ls t t0 (member 2 2 fe))) by (subst s1; apply lookup_insert_eq).
  apply runs_bind. eapply runs_store; [done|].
  destruct (set_refs_step s1 p _ (member 4 1 fe) (member 5 1 fe) Hm1 Hp1) as [Hm2 He2]; [by apply member_range..|].
  match goal with |- runs _ ?x _ => set (s2 := x) in * end.
  assert (H2 : inv s2 m) by by eapply inv_user. apply runs_bind.
  eapply runs_mono; [eapply (read_sets_runs _ p 0 dtsz f s2); [done|apply lookup_upd|]|].
  { intros tp' idx _ _ _. apply (new_cent_none ls t t0 (member 2 2 fe)). }
  intros r s3 w (Hw & Hm3 & He3 & (c3 & Hp3 & _) & Hr). assert (H3 : inv s3 m) by by eapply inv_user.
  eapply runs_mono; [eapply (end_entry_runs f p r s3 m c3); [done|done|done| |by intros d f' ->]|].
  - rewrite (i_num _ _ H3), <-(i_num _ _ H). done.
  - intros r' s' w' (Hw' & Hm' & Hr'). split_and!; [cbn [app]; by apply Forall_app|done|done].
Qed.

(** Every entry takes bytes of the file. *)
Definition shorter f m (r : label + Z * list Z) s' (w : list warning) : Prop :=
  silent w ∧ (∃ m', inv s' m' ∧ (base.size m' <= S (base.size m))%nat) ∧
  match r with inr (_, f') => tail_of f' f ∧ zlen f' < zlen f | inl _ => True end.

Lemma read_entry_runs dtsz f s m :
  inv s m → bytes f → few (ent_num s + 1) → runs (read_entry global dtsz f) s (shorter f m).
Proof.
  intros H Hb Hf. unfold read_entry.
  assert (Hstop : ∀ x l, harmless x = true → runs (emit x;; mret (inl l)) s (shorter f m)).
  { intros x l Hx. apply runs_bind, runs_emit, runs_ret. split_and!; [by repeat constructor| |done]. exists m. split; [done|lia]. }
  destruct (fread sizeof_dns_file_t f) as [[fe f1]|] eqn:Efe; [|by apply Hstop].
  assert (Hf1 : tail_of f1 f) by by eapply tail_fread. apply fread_some in Efe as [-> Hfe].
  apply Forall_app in Hb as [Hbfe Hb1].
  destruct (if has (member 2 2 fe) DF_NEGATIVE then _ else _) as [[[t t0] f2]|] eqn:Ett; [|by apply Hstop].
  assert (Hf2 : tail_of f2 f1).
  { revert Ett. case_if; [|intros [= _ _ <-]; apply tail_refl]. destruct (fread _ f1) as [[b f']|] eqn:E; cbn; [|done].
    intros [= _ _ <-]. by eapply tail_fread. }
  destruct (if member 0 1 fe =? 0 then _ else _) as [[nb f3]|] eqn:Enb; [|by apply Hstop].
  pose proof (tail_optional _ _ _ _ Enb) as Hf3. assert (Hb2 : bytes f2) by by eapply tail_bytes.
  assert (zlen nb = member 0 1 fe ∧ bytes nb) as [Hnb Hbnb].
  { pose proof (member_range 0 1 fe Hbfe). revert Enb. case_if; [intros [= <- _]; split; [by rewrite Hif|constructor]|].
    intros [-> Hz]%fread_some. apply Forall_app in Hb2 as [? _]. split; [lia|done]. }
  destruct (check_name_ok (length nb) [] nb) as (ok & Hc & Hok); [done|done|]. cbn [app] in Hc. change (zlen []) with 0 in Hc.
  apply runs_bind. eapply runs_lift; [rewrite <-Hnb; exact Hc|]. destruct ok; cbn [negb]; [|by apply Hstop].
  eapply runs_mono; [eapply (read_cent_runs fe t t0 nb dtsz f3 s m H Hf Hbfe)|].
  - destruct (Hok eq_refl) as (ls & -> & Hls). exists ls. split; [done|]. split; [done|]. unfold wire. rewrite zlen_app, Hnb.
    pose proof (of_le_range (slice 0 1 fe)) as Hr. unfold member. change (zlen [0]) with 1. unfold DNSNAMEBUFSIZE.
    assert (bytes (slice 0 1 fe)) as Hbs by (unfold slice; by apply Forall_take, Forall_drop). specialize (Hr Hbs).
    assert (zlen (slice 0 1 fe) <= 1). { unfold slice, zlen. rewrite length_take. lia. }
    assert (256 ^ zlen (slice 0 1 fe) <= 256 ^ 1) by (apply Z.pow_le_mono_r; lia). lia.
  - intros r s' w (Hw & Hm & Hr). split_and!; [done|done|]. destruct r as [|[d f']]; [done|].
    pose proof (tail_trans _ _ _ Hr (tail_trans _ _ _ Hf3 Hf2)) as Ht. split; [by eapply tail_trans|].
    apply tail_zlen in Ht. rewrite zlen_app, Hfe. unfold sizeof_dns_file_t. lia.
Qed.

Lemma read_entries_runs fuel cnt dtsz f s m :
  inv s m → bytes f → (length f <= fuel)%nat → few (ent_num s + zlen f + 1) →
  runs (read_entries global fuel cnt dtsz f) s (λ _ s' w, silent w ∧ ∃ m', inv s' m' ∧ (base.size m' <= S (base.size m) + length f)%nat).
Proof.
  revert cnt dtsz f s m. induction fuel as [|fuel IH]; intros cnt dtsz f s m H Hb Hfu Hf; cbn [read_entries].
  all: case_if; [|apply runs_ret; split; [constructor|]; exists m; split; [done|lia]].
  all: apply runs_bind; pose proof (zlen_nonneg f);
    eapply runs_mono; [apply (read_entry_runs dtsz f s m H Hb); unfold few, NRRTOT in *; lia|].
  all: intros r s1 w (Hw & (m1 & H1 & Hsz) & Hr); destruct r as [l|[d f1]];
    [apply runs_ret; rewrite app_nil_r; split; [done|]; exists m1; split; [done|lia]|].
  - destruct Hr as [_ Hlt]. pose proof (zlen_nonneg f1). unfold zlen in *. lia.
  - destruct Hr as [Ht Hlt]. eapply runs_mono; [apply (IH (cnt - 1) d f1 s1 m1 H1); [by eapply tail_bytes|unfold zlen in *; lia|]|].
    + rewrite (i_num _ _ H1). rewrite (i_num _ _ H) in Hf. unfold few, NRRTOT in *. lia.
    + intros l s' w' (Hw' & m' & H' & Hsz'). split; [by apply Forall_app|]. exists m'. split; [done|]. unfold zlen in Hlt. lia.
Qed.

Lemma read_disk_cache_runs file s m :
  inv s m → (∀ f, file = Some f → bytes f ∧ few (ent_num s + zlen f + 1)) →
  runs (read_disk_cache global file) s (λ _ s' w, silent w ∧ ∃ m', inv s' m').
Proof.
  intros H Hfile. destruct file as [f|]; cbn [read_disk_cache]; [|apply runs_bind, runs_emit, runs_ret; split; [by repeat constructor|eauto]].
  destruct (Hfile f eq_refl) as [Hb Hf]. apply runs_bind, runs_malloc. intros ok l Hl.
  pose proof (inv_mallocs s m l H) as H1. destruct ok; cbn [negb]; [|apply runs_bind, runs_emit, runs_ret; split; [by repeat constructor|eauto]].
  apply runs_bind, runs_modify. match goal with |- runs _ ?x _ => set (s1 := x) end.
  assert (H2 : inv s1 m).
  { pose proof (step_permute True _ _ (rrset_l s) false H1 (reflexivity _)) as Hst. apply (s_inv _ _ _ _ _ Hst). }
  apply runs_bind.
  eapply (runs_mono _ _ (λ _ s' w, silent w ∧ ∃ m', inv s' m' ∧ (base.size m' <= S (base.size m) + length f)%nat)).
  - unfold read_file. destruct (fread (zlen cachverid) f) as [[buf f1]|] eqn:E1.
    2:{ apply runs_bind. unfold when. case_if; [apply runs_emit|apply runs_ret]; apply runs_ret; (split; [by repeat constructor|]; exists m; split; [done|lia]). }
    assert (Hstop : ∀ x, harmless x = true → runs (emit x;; mret free_data_fclose) s1
      (λ _ s' w, silent w ∧ ∃ m', inv s' m' ∧ (base.size m' <= S (base.size m) + length f)%nat)).
    { intros x Hx. apply runs_bind, runs_emit, runs_ret. split; [by repeat constructor|]. exists m. split; [done|lia]. }
    case_if; [by apply Hstop|]. destruct (fread 8 f1) as [[b f2]|] eqn:E2; [|by apply Hstop].
    pose proof (tail_trans _ _ _ (tail_fread _ _ _ _ E2) (tail_fread _ _ _ _ E1)) as Ht. pose proof (tail_zlen _ _ Ht) as Hz.
    eapply runs_mono; [apply (read_entries_runs _ _ _ f2 s1 m H2); [by eapply tail_bytes|done|]|].
    + cbn. unfold few, NRRTOT in *. lia.
    + intros x s' w (Hw & m' & H' & Hsz). split; [done|]. exists m'. split; [done|]. unfold zlen in Hz. lia.
  - intros l0 s2 w (Hw & m2 & H3 & Hsz). cbn [app]. assert (Hf2 : few (ent_num s2)).
    { rewrite (i_num _ _ H3). rewrite (i_num _ _ H) in Hf. unfold few, NRRTOT, zlen in *. lia. }
    assert (Hlist : zlen (rrset_l s2) < 2 ^ 32).
    { pose proof (list_bound _ _ H3). rewrite (i_num _ _ H3) in Hf2. unfold few in Hf2. lia. }
    destruct l0; try (apply runs_bind, runs_emit, runs_ret; split; [apply Forall_app; split; [done|by repeat constructor]|eauto]).
    all: apply runs_bind, runs_get, runs_bind; unfold when; case_if; [|apply runs_ret, runs_ret; rewrite !app_nil_r; split; [done|eauto]].
    all: apply runs_bind; eapply runs_mono; [apply sort_rrl_ok; [apply H3|done]|]; intros [] s3 w3 (-> & l1 & -> & HP & _).
    all: apply runs_modify, runs_ret; rewrite !app_nil_r; split; [done|]; exists m2; apply (s_inv True s2 m2).
    all: by apply step_permute.
Qed.

(** ** Writing the cache *)
Definition cents_of s (l : list positive) : list dns_cent_t := omap (λ p, cents s !! p) l.
Definition saved_of s : list dns_cent_t := filter (λ c, worth c = true) (cents_of s (nt_entries (hash_buckets s))).
Definition cache_file s : list Z := cachverid ++ le_bytes 8 (zlen (saved_of s)) ++ mjoin (entry_file <$> saved_of s).

(** All entries of a list are there and well-formed. *)
Definition all_there s (l : list positive) : Prop := Forall (λ p, ∃ c, cents s !! p = Some c ∧ cent_ok c) l.

Lemma writes_count s l : all_there s l → let n := zlen (filter (λ c, worth c = true) (cents_of s l)) in writes (count_entries s l) [] n n.
Proof.
  induction 1 as [|p l (c & Hp & Hc) _ IH]; cbn [count_entries]; [apply writes_ret|]. eapply writes_pure; [by apply writes_need|].
  eapply writes_pure; [by apply writes_worth|]. eapply writes_pure; [exact IH|]. unfold cents_of. cbn [omap list_omap]. rewrite Hp.
  rewrite filter_cons. destruct (worth c); [rewrite decide_True by done|rewrite decide_False by done; apply writes_ret].
  rewrite zlen_cons, Z.add_comm. apply writes_ret.
Qed.

Lemma writes_entries s l errs : all_there s l →
  writes (write_entries s l errs) (mjoin (entry_file <$> filter (λ c, worth c = true) (cents_of s l))) true false.
Proof.
  induction 1 as [|p l (c & Hp & Hc) _ IH]; cbn [write_entries]; [apply writes_ret|]. eapply writes_pure; [by apply writes_need|].
  eapply writes_pure; [by apply writes_worth|]. unfold cents_of. cbn [omap list_omap]. rewrite Hp, filter_cons.
  destruct (worth c); [rewrite decide_True by done|rewrite decide_False by done; exact IH].
  eapply (writes_bind _ _ _ _ (Some errs) None); [by apply writes_entry|exact IH|right; apply fails_ret].
Qed.

Lemma writes_file s : all_there s (nt_entries (hash_buckets s)) → writes (write_file s) (cache_file s) true false.
Proof.
  intros H. unfold write_file, cache_file. eapply (writes_bind _ _ _ _ true false); [apply writes_fwrite| |right; apply fails_emit]. cbn [negb].
  eapply writes_pure; [by apply writes_count|].
  eapply (writes_bind _ _ _ _ true false); [apply writes_fwrite|by apply writes_entries|right; apply fails_emit].
Qed.

Lemma inv_all_there s m : inv s m → all_there s (nt_entries (hash_buckets s)).
Proof.
  intros H. pose proof (nt_entries_ok _ _ _ (i_table _ _ H)) as HP. apply Forall_forall. intros p Hp. rewrite HP in Hp.
  apply list_elem_of_fmap in Hp as ([k q] & -> & Hk%elem_of_map_to_list). destruct (inv_cent _ _ _ _ H Hk) as (c & _ & Hc & _ & _ & _ & Hok).
  by exists c.
Qed.

Lemma write_disk_cache_runs e s m :
  inv s m → few (ent_num s) → 0 <= space e →
  runs (write_disk_cache global e) s (λ r s' w, silent w ∧ ∃ m', step_ok True s m s' m' ∧ m' ⊆ m ∧
    (lock_rw e && unlock_rw e && lock_r e && opened e && closed e = true → zlen (cache_file s') <= space e →
     r = Some (cache_file s') ∧ w = [] ∧ (cache_size s' <= perm_cache global * 1024 ∨ only_locals s' m'))).
Proof.
  intros H Hf Hsp. unfold write_disk_cache. destruct (lock_rw e); cbn [negb andb].
  2:{ apply runs_bind, runs_emit, runs_ret. split; [by repeat constructor|]. exists m. split_and!; [by apply step_refl|done|done]. }
  apply runs_bind. eapply runs_mono; [by apply purge_cache_runs|]. intros [] s1 w (-> & m1 & Hst & _ & Hend & Hsub & _). cbn [app].
  pose proof (s_inv _ _ _ _ _ Hst) as H1. destruct (unlock_rw e && lock_r e); cbn [negb andb].
  2:{ apply runs_bind, runs_emit, runs_ret. split; [by repeat constructor|]. exists m1. done. }
  destruct (opened e); cbn [negb andb].
  2:{ apply runs_bind, runs_emit, runs_ret. split; [by repeat constructor|]. exists m1. done. }
  apply runs_bind, runs_get.
  pose proof (runs_inv _ _ _ (writes_file s1 (inv_all_there _ _ H1) (mkFile (space e) []) Hsp)) as (ok & f & w & -> & Hw & _ & _ & Hd).
  apply runs_bind. unfold runs at 1. apply runs_bind. unfold when. destruct (ok && negb (closed e)) eqn:Hcl.
  - apply runs_emit, runs_ret. cbn [app]. split; [apply Forall_app; split; [done|by repeat constructor]|]. exists m1. split_and!; [done|done|].
    intros Ho. rewrite Ho in Hcl. cbn in Hcl. by rewrite andb_false_r in Hcl.
  - apply runs_ret, runs_ret. rewrite !app_nil_r. split; [done|]. exists m1. split_and!; [done|done|]. intros _ Hz. destruct (Hd Hz) as (_ & -> & ->). done.
Qed.
End Ok.
End DnsCacheFileOk.
