(* ===== verification/DnsCacheReach.v ===== *)
(** * The DNS cache as a whole

    The cache with its hash table, driven by any sequence of operations: those
    with which the rest of the program builds entries of its own, and those on
    the cache.  Allocations fail at will.  [reachable] are the states of such
    runs; the properties of the cache hold in all of them. *)

From S2P Require Import Prelude DnsNames DnsHash DnsCache DnsCacheMem DnsCacheSort DnsCacheOk DnsCacheAdd DnsCacheOps.
From S2P Require Import DnsCacheFile DnsCacheFileOk.
Import DnsNames DnsCache DnsCacheMem DnsCacheSort DnsCacheOk DnsCacheAdd DnsCacheOps DnsCacheFile DnsCacheFileOk.

Module DnsCacheReach.
Abbreviation table := (list (list DnsHash.dns_hash_ent_t)).
Abbreviation state := (@cache table).
Abbreviation act := (M state warning).
#[local] Existing Instance DnsHash.hash_table.

Inductive op :=
  (* entries of the callers *)
  | InitCent (name : list Z) (t t0 f : Z)
  | AddRrset (p : positive) (type t t0 f : Z)
  | AddRr (p : positive) (type t t0 f : Z) (data : list Z)
  | Negate (p : positive) (t t0 : Z)
  | SetRefs (p : positive) (ns soa : Z)
  | FreeCent (p : positive)
  (* the cache *)
  | AddCache (p : positive)
  | DelCache (name : list Z)
  | Invalidate (name : list Z)
  | SetFlags (name : list Z) (f : Z)
  | LookupRead (name : list Z) (wild : bool)
  | LookupWrite (name : list Z) (wild : bool)
  | LookupLocal (name : list Z) (type : Z)
  | LocalOwner (name : list Z) (type : Z)
  | Purge (sz : Z) (lazy : bool)
  | FreeAll
  (* the disk cache is read: from the start on the list is not sorted, in the end it is;
     other threads may use the cache in between *)
  | StartRead
  | EndRead
  | ReadDisk (content : option (list Z))
  | WriteDisk (e : system)
  (* time *)
  | Tick (t : Z).

Section Reach.
Context (global : globparm_t).

Definition set_refs (ns soa : Z) (c : dns_cent_t) : dns_cent_t := set_csoa soa (set_cns ns c).
Definition set_now (t : Z) (s : state) : state :=
  mkCache (cents s) (lents s) (rrset_l s) (hash_buckets s) (cache_size s) (ent_num s) (insert_sort s) (mallocs s) t.

Definition exec (o : op) : act unit :=
  match o with
  | InitCent name t t0 f => init_cent name t t0 f;; mret tt
  | AddRrset p type t t0 f => add_cent_rrset_by_type p type t t0 f;; mret tt
  | AddRr p type t t0 f data => add_cent_rr p type t t0 f data;; mret tt
  | Negate p t t0 => negate_cent p t t0
  | SetRefs p ns soa => store p (set_refs ns soa)
  | FreeCent p => free_cent p;; free p
  | AddCache p => add_cache global p
  | DelCache name => del_cache name
  | Invalidate name => invalidate_record name
  | SetFlags name f => set_cent_flags name f;; mret tt
  | LookupRead name wild => lookup_read name wild;; mret tt
  | LookupWrite name wild => lookup_write name wild;; mret tt
  | LookupLocal name type => lookup_cache_local_rrset name type;; mret tt
  | LocalOwner name type => getlocalowner name type;; mret tt
  | Purge sz lazy => purge_cache sz lazy
  | FreeAll => free_dns_hash
  | StartRead => modify (set_sort false)
  | EndRead => s ← get; when (negb (insert_sort s)) (sort_rrl;; modify (set_sort true))
  | ReadDisk file => read_disk_cache global file;; mret tt
  | WriteDisk e => write_disk_cache global e;; mret tt
  | Tick t => modify (set_now t)
  end.

(** An entry of a caller, a name that is well-formed. *)
Definition user (s : state) (p : positive) (c : dns_cent_t) : Prop :=
  cents s !! p = Some c ∧ p ∉ nt_entries (hash_buckets s).
Definition is_name (name : list Z) : Prop := ∃ ls, name = wire ls ∧ name_ok ls.

(** How the operations may be called.  A set is added by type only if there is
    none; the flag for names that do not exist is not set from the outside
    ([set_cent_flags] says so); the array with which the list is sorted has
    [NTMPSORT] slots, enough for some 90 million entries. *)
Definition allowed (s : state) (o : op) : Prop :=
  match o with
  | InitCent name _ _ _ => is_name name
  | AddRrset p type _ _ _ => ∃ c, user s p c ∧ type_ok type ∧
      ∀ idx, rrlkuptab !! Z.to_nat (type - T_MIN) = Some idx → set_at c (Z.to_nat idx) = None
  | AddRr p type _ _ _ _ => ∃ c, user s p c ∧ type_ok type
  | Negate p _ _ | FreeCent p => ∃ c, user s p c
  | SetRefs p ns soa => (∃ c, user s p c) ∧ is_u8 ns ∧ is_u8 soa
  | AddCache p => (∃ c, user s p c) ∧ few (ent_num s + 1)
  | DelCache name | Invalidate name | LookupRead name _ | LookupWrite name _ | LookupLocal name _ => is_name name
  | SetFlags name f => is_name name ∧ has f DF_NEGATIVE = false
  | LocalOwner name type => is_name name ∧ 1 <= type <= T_NUM
  | Purge _ _ | EndRead => few (ent_num s)
  | ReadDisk file => ∀ f, file = Some f → bytes f ∧ few (ent_num s + zlen f + 1)
  | WriteDisk e => few (ent_num s) ∧ 0 <= space e
  | FreeAll | StartRead | Tick _ => True
  end.

Inductive reachable (t : Z) (ml : list bool) : state → Prop :=
  | reach_init : reachable t ml (init_cache t ml)
  | reach_step s o s' w : reachable t ml s → allowed s o → exec o s = Some (tt, s', w) → reachable t ml s'.

(** ** Every operation *)
Lemma entries_cached s m p : inv s m → p ∈ nt_entries (hash_buckets s) ↔ cached m p.
Proof.
  intros H. rewrite (nt_entries_ok _ _ _ (i_table _ _ H)), list_elem_of_fmap. split.
  - intros ([k q] & -> & Hk). exists k. by apply elem_of_map_to_list.
  - intros [k Hk]. exists (k, p). split; [done|]. by apply elem_of_map_to_list.
Qed.
Lemma user_cached s m p c : inv s m → user s p c → cents s !! p = Some c ∧ ¬ cached m p.
Proof. intros H [Hp Hu]. split; [done|]. by rewrite <-(entries_cached _ _ _ H). Qed.

Lemma inv_init t ml : inv (init_cache t ml : state) ∅.
Proof.
  split; [split| | | | |]; cbn.
  - intros p c Hp. by rewrite lookup_empty in Hp.
  - constructor.
  - intros e. rewrite lookup_empty. split; [by intros ?%not_elem_of_nil|by intros []].
  - intros e p i. rewrite lookup_empty. split; [done|]. intros (c & Hp & _). by rewrite lookup_empty in Hp.
  - apply DnsHash.empty_ok.
  - done.
  - done.
  - intros e le He. by rewrite lookup_empty in He.
  - intros k p c Hk. by rewrite lookup_empty in Hk.
Qed.

(** The operations that do not touch local data. *)
Definition remote (s : state) (o : op) : Prop :=
  match o with
  | AddCache p => ∀ c, cents s !! p = Some c → no_locals c
  | DelCache _ | Invalidate _ | FreeAll | ReadDisk _ => False
  | _ => True
  end.

Lemma step_user P s m p s' : inv s m → ¬ cached m p → edits p s s' → mem s' → spares s m s' m ∧ inv s' m ∧ (P → spares s m s' m).
Proof.
  intros H Hu He Hm. assert (spares s m s' m); [|split_and!; [done|by eapply inv_user|done]].
  intros k q c i r Hk Hq Hi _. split; [done|]. exists c. split; [|done]. rewrite (o_others _ _ _ (e_only _ _ _ He)); [done|].
  intros ->. apply Hu. by exists k.
Qed.

(** What every operation does: it ends, warns of nothing but missing memory and errors of files, and
    the invariant holds after it. *)
Definition fine (s : state) (m : gmap key positive) (o : op) : Prop :=
  runs (exec o) s (λ _ s' w, silent w ∧ ∃ m', inv s' m' ∧ (remote s o → spares s m s' m')).

Lemma fine_step s m o (P : Prop) (f : act unit) : (remote s o → P) →
  runs f s (λ _ s' w, silent w ∧ ∃ m', step_ok P s m s' m') → exec o = f → fine s m o.
Proof.
  intros HP Hf He. unfold fine. rewrite He. eapply runs_mono; [exact Hf|]. intros [] s' w (Hw & m' & Hst). split; [done|].
  exists m'. split; [apply Hst|]. intros Hr. by apply (s_spares _ _ _ _ _ Hst), HP.
Qed.

(** A result is dropped. *)
Lemma runs_drop {A} (f : act A) s (Q : A → state → list warning → Prop) (Q' : unit → state → list warning → Prop) :
  runs f s Q → (∀ a s' w, Q a s' w → Q' tt s' w) → runs (f;; mret tt) s Q'.
Proof.
  intros Hf HQ. apply runs_bind. eapply runs_mono; [exact Hf|]. intros a s' w H. apply runs_ret. rewrite app_nil_r. by eapply HQ.
Qed.

Lemma fine_user s m o p c : inv s m → user s p c → ¬ (∃ q, o = AddCache q) →
  runs (exec o) s (λ _ s' w, w = [] ∧ mem s' ∧ edits p s s') → fine s m o.
Proof.
  intros H Hu Ho Hf. destruct (user_cached _ _ _ _ H Hu) as [Hp Hn]. eapply runs_mono; [exact Hf|]. intros [] s' w (-> & Hm & He).
  split; [constructor|]. exists m. destruct (step_user True _ _ _ _ H Hn He Hm) as (Hs & Hi & _). done.
Qed.

Lemma set_list_same (s : state) : set_list (lents s) (rrset_l s) s = s.
Proof. by destruct s. Qed.

Lemma list_few (s : state) m : inv s m → few (ent_num s) → zlen (rrset_l s) < 2 ^ 32.
Proof. intros H Hf. pose proof (list_bound _ _ H). rewrite (i_num _ _ H) in Hf. unfold few in Hf. lia. Qed.

Lemma exec_fine s m o : inv s m → allowed s o → fine s m o.
Proof.
  intros H Ha. destruct o; cbn in Ha.
  - destruct Ha as (ls & -> & Hls). eapply (fine_step _ _ _ True); [done| |done].
    eapply runs_drop; [by apply init_cent_runs; [apply H|]|]. intros r s' w (-> & Hm & _ & Hr). split; [constructor|]. exists m.
    destruct r as [p|]; [by eapply (step_new True)|destruct Hr as [l ->]; by apply step_mallocs, step_refl].
  - destruct Ha as (c & Hu & Ht & Hno). eapply fine_user; [done|done|by intros []|]. cbn.
    eapply runs_drop; [eapply (add_by_type_runs s p c); [apply H|apply Hu|done|done]|done].
  - destruct Ha as (c & Hu & Ht). eapply fine_user; [done|done|by intros []|]. cbn.
    eapply runs_drop; [eapply (add_cent_rr_runs s p c); [apply H|apply Hu|done]|done].
  - destruct Ha as (c & Hu). eapply fine_user; [done|done|by intros []|]. eapply negate_cent_runs; [apply H|apply Hu].
  - destruct Ha as ([c Hu] & Hns & Hsoa). eapply fine_user; [done|done|by intros []|]. cbn. destruct Hu as [Hp _]. eapply runs_store; [done|].
    split; [done|]. pose proof (m_cents _ (i_mem _ _ H) _ _ Hp) as [Hn Hs Hr]. eapply step_upd; [apply H|done| |done|done].
    split; [done|done|]. unfold is_u8 in *. cbn. lia.
  - destruct Ha as (c & Hu). destruct (user_cached _ _ _ _ H Hu) as [Hp Hn].
    apply runs_bind. eapply free_cent_runs; [apply H|done|]. unfold free. apply runs_modify. split; [constructor|]. exists m.
    split; [by apply (inv_free s m p c)|]. intros _ k q cq i r Hk Hq Hi _. split; [done|]. exists cq. cbn.
    rewrite lookup_delete_ne; [done|]. intros <-. apply Hn. by exists k.
  - destruct Ha as [[c Hu] Hf]. destruct (user_cached _ _ _ _ H Hu) as [Hp Hn].
    eapply (fine_step _ _ _ (no_locals c)); [intros Hr; by apply Hr| |done].
    eapply runs_mono; [by apply (add_cache_runs global s m p c)|]. intros [] s' w (Hw & m' & Hst & _). split; [done|eauto].
  - destruct Ha as (ls & -> & Hls). eapply (fine_step _ _ _ False); [done| |done].
    eapply runs_mono; [by apply del_cache_runs|]. intros [] s' w [-> Hst]. split; [constructor|eauto].
  - destruct Ha as (ls & -> & Hls). eapply (fine_step _ _ _ False); [done| |done].
    eapply runs_mono; [by apply invalidate_runs|]. intros [] s' w [-> Hst]. split; [constructor|eauto].
  - destruct Ha as [(ls & -> & Hls) Hf]. eapply (fine_step _ _ _ True); [done| |done].
    eapply runs_drop; [by apply set_cent_flags_runs|]. intros b s' w [-> Hst]. split; [constructor|eauto].
  - destruct Ha as (ls & -> & Hls). eapply (fine_step _ _ _ True); [done| |done].
    eapply runs_drop; [by apply lookup_read_runs|]. intros [[x z] b] s' w (-> & Hst & _). split; [constructor|eauto].
  - destruct Ha as (ls & -> & Hls). eapply (fine_step _ _ _ True); [done| |done].
    eapply runs_drop; [by apply lookup_write_runs|]. intros [x z] s' w (-> & m' & Hst & _). split; [constructor|eauto].
  - destruct Ha as (ls & -> & Hls). eapply (fine_step _ _ _ True); [done| |done].
    eapply runs_drop; [by apply local_rrset_runs|]. intros x s' w [-> Hst]. split; [constructor|eauto].
  - destruct Ha as [(ls & -> & Hls) Ht]. eapply (fine_step _ _ _ True); [done| |done].
    eapply runs_drop; [by eapply getlocalowner_runs|]. intros x s' w [-> ->]. split; [constructor|]. exists m. by apply step_refl.
  - eapply (fine_step _ _ _ True); [done| |done]. eapply runs_mono; [by eapply purge_cache_runs|].
    intros [] s' w (-> & m' & Hst & _). split; [constructor|eauto].
  - eapply (fine_step _ _ _ False); [done| |done]. eapply runs_mono; [by apply free_dns_hash_runs|].
    intros [] s' w [-> Hst]. split; [constructor|eauto].
  - eapply (fine_step _ _ _ True); [done| |done]. apply runs_modify. split; [constructor|]. exists m.
    rewrite <-(set_list_same s) at 2. by apply step_permute.
  - eapply (fine_step _ _ _ True); [done| |done]. apply runs_bind, runs_get. unfold when.
    case_if; [|apply runs_ret; split; [constructor|]; exists m; by apply step_refl]. apply runs_bind.
    eapply runs_mono; [apply sort_rrl_ok; [apply H|by apply (list_few s m)]|]. intros [] s' w (-> & l & -> & HP & _). apply runs_modify.
    split; [constructor|]. exists m. by apply step_permute.
  - eapply runs_drop; [by apply (read_disk_cache_runs global _ s m)|]. intros x s' w (Hw & m' & H'). split; [done|]. by exists m'.
  - destruct Ha as [Hf Hsp]. eapply (fine_step _ _ _ True); [done| |done].
    eapply runs_drop; [by apply (write_disk_cache_runs global e s m)|]. intros x s' w (Hw & m' & Hst & _). split; [done|eauto].
  - apply runs_modify. split; [constructor|]. exists m. destruct H as [Hm H1 H2 H3 H4 H5]. split; [by split; [destruct Hm|..]|].
    intros _ k q c i r Hk Hq Hi _. eauto.
Qed.

Lemma reachable_cache_inv t ml s : reachable t ml s → ∃ m, inv s m.
Proof.
  induction 1 as [|s o s' w _ [m Hm] Ha He]; [exists ∅; apply inv_init|].
  pose proof (exec_fine _ _ _ Hm Ha) as Hf. unfold fine, runs in Hf. rewrite He in Hf. destruct Hf as (_ & m' & Hm' & _). eauto.
Qed.

(** ** Sizes *)
Definition sum_cs (ce : gmap positive dns_cent_t) (l : list positive) : Z := foldr (λ p n, cs_of ce p + n) 0 l.

Lemma sum_cs_perm ce l l' : l ≡ₚ l' → sum_cs ce l = sum_cs ce l'.
Proof. unfold sum_cs. induction 1; cbn; lia. Qed.

Lemma total_sum (ce : gmap positive dns_cent_t) (m : gmap key positive) : DnsCacheOk.total ce m = sum_cs ce (map_to_list m).*2.
Proof.
  unfold DnsCacheOk.total, sum_cs. rewrite map_fold_foldr. induction (map_to_list m) as [|[k p] l IH]; cbn; [done|]. by rewrite IH.
Qed.

Lemma inv_sizes (s : state) m : inv s m →
  cache_size s = sum_cs (cents s) (nt_entries (hash_buckets s)) ∧ ent_num s = zlen (nt_entries (hash_buckets s)).
Proof.
  intros H. pose proof (nt_entries_ok _ _ _ (i_table _ _ H)) as HP. split.
  - rewrite (i_size _ _ H), total_sum. by apply sum_cs_perm.
  - rewrite (i_num _ _ H). unfold zlen. by rewrite HP, length_fmap, length_map_to_list.
Qed.

Lemma runs_some {A} (f : act A) (s : state) Q : runs f s Q → ∃ a s' w, f s = Some (a, s', w) ∧ Q a s' w.
Proof. apply runs_inv. Qed.
End Reach.

(** ** An addition and a lookup *)
Section Trip.
Context (global : globparm_t).

Lemma purge_cache_idle sz (s : state) (Q : unit → state → list warning → Prop) :
  cache_size s <= sz → Q tt s [] → runs (purge_cache sz true) s Q.
Proof.
  intros Hs HQ. unfold purge_cache. apply runs_bind, runs_get, runs_bind.
  eapply (runs_mono _ _ (λ _ s' w, s' = s ∧ w = [])).
  - destruct (rrset_l s) as [|e l]; cbn [walk length head]; [by apply runs_ret|]. apply runs_bind, runs_get. cbn [negb orb].
    rewrite Z.gtb_ltb. zdec. by apply runs_ret.
  - intros [] s' w [-> ->]. apply runs_bind, runs_get. zdec. by apply runs_ret.
Qed.

Lemma purge_count_none t arr i : (∀ j r, mjoin (arr !! j) = Some r → purgeable t r = false) →
  ∃ d, purge_count t arr i = (0, arr_num arr, d) ∧ 0 <= d ∧ (d = 0 → ∀ j, NRRMU <= Z.of_nat (i + j) → mjoin (arr !! j) = None).
Proof.
  revert i. induction arr as [|x arr IH]; intros i H; [exists 0; by split_and!|]. cbn [purge_count].
  destruct (IH (S i)) as (d & -> & Hd & Hz); [intros j; apply (H (S j))|].
  assert (Hz' : d = 0 → ∀ j, NRRMU <= Z.of_nat (i + S j) → mjoin (arr !! j) = None).
  { intros E j Hj. apply Hz; [done|]. by replace (S i + j)%nat with (i + S j)%nat by lia. }
  destruct x as [r|]; cbn [arr_sum weight].
  - rewrite (H 0%nat r eq_refl). eexists. split; [done|]. rewrite Z.geb_leb. split; [case_if; lia|]. intros E j Hj.
    revert E. case_if; [lia|]. intros E. destruct j as [|j]; [rewrite Nat.add_0_r in Hj; lia|]. by apply Hz'.
  - exists d. split; [done|]. split; [done|]. intros E [|j] Hj; [done|]. by apply Hz'.
Qed.

(** Nothing of the entry is out of date, it holds something, and refers to no other name. *)
Record current (t : Z) (c : dns_cent_t) : Prop := mkCurrent {
  cu_sets i r : set_at c i = Some r → t <= ts r + CACHE_LAT;
  cu_neg x t1 t0 : rr c = Neg x t1 t0 → t <= t0 + CACHE_LAT;
  cu_some : has (flags c) DF_NEGATIVE = false → num_rrs c ≠ 0;
  cu_ext : zlen (arr_of c) = NRRTOT → ∃ i r, NRRMU <= Z.of_nat i ∧ set_at c i = Some r;
  cu_refs : c_ns c = cundef ∧ c_soa c = cundef
}.

Lemma clat_adj t : CACHE_LAT <= CLAT_ADJ t.
Proof. unfold CLAT_ADJ. case_if; lia. Qed.

Lemma fresh_set t r : t <= ts r + CACHE_LAT → purgeable t r = false.
Proof. intros H. unfold purgeable, timedout. pose proof (clat_adj (ttl r)). rewrite (proj2 (Z.ltb_ge _ _)) by lia. apply andb_false_r. Qed.

(** The copy in the cache is as the entry but for times to live and places in the list. *)
Lemma adjusted_at c c2 i : unlisted c2 = adjusted global c → set_lent None <$> set_at c2 i = (λ r, set_lent None (adjust_ttl global r)) <$> set_at c i.
Proof.
  intros E. rewrite <-set_at_unlisted, E. unfold adjusted, set_at. destruct (rr c) as [x t t0|arr]; cbn; [done|].
  rewrite list_lookup_fmap. by destruct (arr !! i) as [[r|]|].
Qed.

Lemma ts_adjust r : ts (adjust_ttl global r) = ts r.
Proof. unfold adjust_ttl. repeat case_if; done. Qed.

Lemma unlisted_fields c c2 : unlisted c2 = adjusted global c →
  num_rrs c2 = num_rrs c ∧ c_ns c2 = c_ns c ∧ c_soa c2 = c_soa c ∧ zlen (arr_of c2) = zlen (arr_of c) ∧
  (∀ x t t0, rr c2 = Neg x t t0 → ∃ x' t', rr c = Neg x' t' t0) ∧ (∀ arr, rr c2 = Sets arr → rr c = Sets (arr_of c)).
Proof.
  intros E. pose proof (f_equal num_rrs E) as E1. pose proof (f_equal c_ns E) as E2. pose proof (f_equal c_soa E) as E3.
  pose proof (f_equal rr E) as E4. unfold unlisted, adjusted, arr_of in *. destruct (rr c2) as [x t t0|arr2], (rr c) as [x' t' t0'|arr]; cbn in *; try done.
  - injection E4 as _ E4. split_and!; try done. intros ? ? ? [= <- <- <-]. subst. eauto.
  - injection E4 as E4. split_and!; try done. apply (f_equal length) in E4. unfold unlisted_arr in E4. rewrite !length_fmap in E4. unfold zlen. lia.
Qed.

(** The test before a copy is delivered finds nothing to delete. *)
Lemma nothing_to_purge t c c2 : cent_ok c2 → current t c → unlisted c2 = adjusted global c →
  (purge_test t c2).1 = 0 ∧ (true = false ∨ (purge_test t c2).2 ≠ 0 ∨ (∃ x t1 t0, rr c2 = Neg x t1 t0 ∧ t <= t0 + CLAT_ADJ t1)).
Proof.
  intros Hc [Hs Hn Hsm He _] E. destruct (unlisted_fields _ _ E) as (En & _ & _ & El & Hneg & Hpos).
  pose proof (c_shape _ Hc) as Hsh. unfold purge_test, shape_ok in *. destruct (rr c2) as [x t1 t0|arr] eqn:Hr.
  - destruct (Hneg x t1 t0 eq_refl) as (x' & t' & Hr'). split; [done|]. right. right. exists x, t1, t0. split; [done|].
    pose proof (Hn _ _ _ Hr'). pose proof (clat_adj t1). lia.
  - destruct Hsh as (Hf & Hlen & Hnum & _). pose proof (arr_of_sets _ _ Hr) as Ea.
    assert (Hat : ∀ j r, mjoin (arr !! j) = Some r → purgeable t r = false).
    { intros j r Hj. apply fresh_set. pose proof (adjusted_at c c2 j E) as Ej. rewrite set_at_arr, Ea, Hj in Ej. cbn in Ej.
      destruct (set_at c j) as [r0|] eqn:Hj0; [|done]. cbn in Ej. injection Ej as E1 E2 E3 E4. rewrite E2, ts_adjust. by apply (Hs j). }
    destruct (purge_count_none t arr 0 Hat) as (d & -> & Hd & Hz).
    assert (Hnz : arr_num arr ≠ 0).
    { rewrite <-Hnum, En. apply Hsm. specialize (Hpos arr eq_refl). clear -Hpos E Hf Hr.
      apply (f_equal flags) in E. unfold adjusted, unlisted in E. rewrite Hpos in E. cbn in E. by rewrite <-E. }
    case_if; [|by split; [|right; left]]. exfalso. assert (d = 0) as Ed by done. destruct He as (i & r & Hi & Hir).
    + rewrite <-El, Ea. by destruct Hlen.
    + pose proof (adjusted_at c c2 i E) as Ei. rewrite set_at_arr, Ea, (Hz Ed i Hi), Hir in Ei. done.
Qed.

(** The time to live with which something is kept: 0 if it must not be cached,
    else as it came, but at least the configured minimum (for what does not exist
    the lower one of the two) and at most the maximum. *)
Record within (negative nocache : bool) (t t' : Z) : Prop := mkWithin {
  wi_nocache : nocache = true → t' = 0;
  wi_low : nocache = false → t < (if negative then Z.min (neg_ttl global) (min_ttl global) else min_ttl global) → t' = (if negative then Z.min (neg_ttl global) (min_ttl global) else min_ttl global);
  wi_high : nocache = false → (if negative then Z.min (neg_ttl global) (min_ttl global) else min_ttl global) <= t → t' = Z.min t (max_ttl global)
}.

(** What a caller gets of an entry that was added: everything, with these times
    to live, without the mark that it must not be cached. *)
Record delivered c c' : Prop := mkDelivered {
  de_name : qname c' = qname c;
  de_num : num_rrs c' = num_rrs c;
  de_refs : c_ns c' = c_ns c ∧ c_soa c' = c_soa c;
  de_set i r : set_at c i = Some r → ∃ t', within (has (rflags r) CF_NEGATIVE) (has (rflags r) CF_NOCACHE) (ttl r) t' ∧
    set_at c' i = Some (mkSet None t' (ts r) (Z.ldiff (rflags r) CF_NOCACHE) (rrs r));
  de_none i : set_at c i = None → set_at c' i = None;
  de_neg x t t0 : rr c = Neg x t t0 → ∃ t', within true (has (flags c) DF_NOCACHE) t t' ∧ rr c' = Neg None t' t0
}.

Lemma adjust_within (negative nocache : bool) t : within negative nocache t
  (if nocache then 0
   else let mn := if negative && (neg_ttl global <? min_ttl global) then neg_ttl global else min_ttl global in
     if t <? mn then mn else if t >? max_ttl global then max_ttl global else t).
Proof.
  assert (E : (if negative && (neg_ttl global <? min_ttl global) then neg_ttl global else min_ttl global) =
    (if negative then Z.min (neg_ttl global) (min_ttl global) else min_ttl global)) by (destruct negative; cbn [andb]; [case_if; lia|done]).
  cbn zeta. rewrite E. split; intros ->; [done|..]; intros Ht; repeat case_if; lia.
Qed.

Lemma clear_none f b : has f b = false → Z.ldiff f b = f.
Proof.
  unfold has. intros E%negb_false_iff%Z.eqb_eq. apply Z.bits_inj'. intros i Hi. rewrite Z.ldiff_spec.
  pose proof (Z.land_spec f b i) as Hl. rewrite E, Z.bits_0 in Hl. by destruct (Z.testbit f i), (Z.testbit b i).
Qed.

Lemma adjusted_delivered c : delivered c (adjusted global c).
Proof.
  unfold adjusted. destruct (rr c) as [x t t0|arr] eqn:Hr; split; cbn; try done.
  - intros i r Hi. unfold set_at in Hi. by rewrite Hr in Hi.
  - intros x' t' t0' Hx. rewrite Hr in Hx. injection Hx as <- <- <-. eexists. split; [|done]. exact (adjust_within true _ _).
  - intros i r Hi. eexists. split; [exact (adjust_within _ _ _)|]. unfold set_at in *. cbn. rewrite Hr in Hi. rewrite list_lookup_fmap.
    destruct (arr !! i) as [[r'|]|]; cbn in *; [|done..]. injection Hi as ->. f_equal. unfold adjust_ttl.
    destruct (has (rflags r) CF_NOCACHE) eqn:E; [done|]. rewrite clear_none by done. cbn zeta. repeat case_if; try done; by destruct r.
  - intros i Hi. unfold set_at in *. cbn. rewrite Hr in Hi. rewrite list_lookup_fmap. by destruct (arr !! i) as [[r'|]|].
  - intros x t t0 Hx. by rewrite Hr in Hx.
Qed.

(** An entry holds something or nothing. *)
Lemma something_dec c : (∃ i, present c i) ∨ ∀ i, ¬ present c i.
Proof.
  destruct (rr c) as [x t t0|arr] eqn:Hr; [left; exists None; cbn; eauto|]. destruct (decide (Exists (λ x, is_Some x) arr)) as [He|He].
  - left. apply Exists_exists in He as (y & Hy & [r ->]). apply list_elem_of_lookup in Hy as [i Hi]. exists (Some i). exists r. unfold set_at. rewrite Hr. by rewrite Hi.
  - right. intros [i|]; cbn.
    + intros [r Hi]. unfold set_at in Hi. rewrite Hr in Hi. apply He, Exists_exists. destruct (arr !! i) as [y|] eqn:Hy; [|done].
      exists y. split; [by eapply list_elem_of_lookup_2|]. cbn in Hi. by rewrite Hi.
    + intros (x & t & t0 & Hx). congruence.
Qed.

(** An entry for a name that is not in the cache is copied into it; nothing has to go. *)
Lemma add_absent_exact (s : state) m p c ls :
  inv s m → cents s !! p = Some c → ¬ cached m p → qname c = wire ls → name_ok ls → m !! fold_name ls = None →
  mallocs s = [] → cache_size s + cs c <= purge_limit global → (has (flags c) DF_NEGATIVE = false → num_rrs c ≠ 0) →
  runs (add_cache global p) s (λ _ s' w, w = [] ∧ mallocs s' = [] ∧ ∃ q c2, step_ok True s m s' (<[fold_name ls := q]> m) ∧
    cents s' !! q = Some c2 ∧ unlisted c2 = adjusted global c ∧ cache_size s' = cache_size s + cs c ∧
    (∀ p', p' ≠ q → cents s' !! p' = cents s !! p') ∧ insert_sort s' = insert_sort s).
Proof.
  intros H Hp Hu Hn Hls Hk Hml Hsz Hsome. unfold add_cache. cbn [add_cache_loop].
  apply runs_bind. eapply runs_load; [done|]. rewrite Hn. apply runs_bind. eapply lookup_runs; [done|done|]. intros loc Hadd _.
  rewrite Hk. cbn beta iota. rewrite (proj2 (andb_false_iff _ _)).
  2:{ destruct (has (flags c) DF_NEGATIVE) eqn:E; [by right|left]. apply Z.eqb_neq. by apply Hsome. }
  apply runs_bind. eapply runs_mono; [eapply (add_new_runs global s m p c ls loc); [done..|by intros; apply Hadd]|].
  intros b s1 w (_ & Hw & Hml1 & Hres). destruct (Hml1 Hml) as [-> Hml']. rewrite (Hw eq_refl). cbn [when app].
  destruct Hres as (q & c2 & Hst & Hq & Hu2 & Hs1 & Hrest). apply purge_cache_idle; [lia|]. split_and!; [done|done|]. by exists q, c2.
Qed.

Lemma add_then_lookup (s : state) m p c ls :
  inv s m → cents s !! p = Some c → ¬ cached m p → qname c = wire ls → name_ok ls → m !! fold_name ls = None →
  mallocs s = [] → cache_size s + cs c <= purge_limit global → current (now s) c →
  runs (add_cache global p;; lookup_read (wire ls) false) s (λ '(x, _, again) s' w, w = [] ∧ again = false ∧
    ∃ q, x = Some q ∧ cents s' !! q = Some (adjusted global c) ∧ q ∉ nt_entries (hash_buckets s')).
Proof.
  intros H Hp Hu Hn Hls Hk Hml Hsz Hcu. apply runs_bind. eapply runs_mono; [by apply (add_absent_exact s m p c ls); try done; apply Hcu|].
  intros [] s1 w (-> & Hml' & q & c2 & Hst & Hq & Hu2 & _). pose proof (s_inv _ _ _ _ _ Hst) as H1. cbn [app].
  assert (Hk1 : <[fold_name ls := q]> m !! fold_name ls = Some q) by by rewrite lookup_insert_eq.
  pose proof (m_cents _ (i_mem _ _ H1) _ _ Hq) as Hc2. destruct (unlisted_fields _ _ Hu2) as (_ & Ens & Esoa & _).
  destruct (cu_refs _ _ Hcu) as [Hns Hsoa]. destruct (nothing_to_purge (now s) c c2 Hc2 Hcu Hu2) as [Ht1 Ht2].
  rewrite <-(s_now _ _ _ _ _ Hst) in Ht1, Ht2. unfold lookup_read. apply runs_bind. eapply runs_mono; [exact (find_entry_runs s1 _ ls false H1 Hls)|].
  intros [x z] s' w' (-> & -> & _ & Hfound & _). rewrite (Hfound q Hk1). cbn beta iota. apply runs_bind.
  eapply runs_mono; [exact (purge_cent_test s1 _ _ q c2 true H1 Hk1 Hq)|]. intros n s' w' (-> & -> & Hzero). rewrite (Hzero Ht1 Ht2) by congruence.
  change (0 =? 0) with true. cbn iota. apply runs_bind. eapply runs_mono; [exact (copy_step_runs s1 _ q c2 H1 Hq)|].
  intros x' s2 w' (-> & Hst2 & Hsome & Hx). apply runs_ret. split_and!; [done|done|]. destruct x' as [q'|]; [|by destruct (Hsome Hml')].
  destruct (Hx q' eq_refl) as [Hq' Hn']. exists q'. split_and!; [done|by rewrite <-Hu2|].
  by rewrite (entries_cached _ _ _ (s_inv _ _ _ _ _ Hst2)).
Qed.
End Trip.

(** A set that a lookup of a name finds. *)
Definition finds_set (s : state) (name : list Z) (i : nat) (r : rr_set_t) : Prop :=
  ∃ q l c, nt_lookup (qn s) name (hash_buckets s) = Some (Some q, l) ∧ cents s !! q = Some c ∧ set_at c i = Some r.

(** ** An example: an entry with a local record in the cache, and one of a caller with an answer *)
Section Example.
Definition ex_global : globparm_t := mkGlob 2048 120 604800 900.
Definition ex_name (x : Z) : list (list Z) := [[119; 119; 119]; [x]].
Abbreviation ex_reach := (reachable ex_global 1000 []).

Definition after (o : op) (s : state) : state :=
  match exec ex_global o s with Some (_, s', _) => s' | None => s end.

Lemma reach_after s o : ex_reach s → allowed s o → ex_reach (after o s).
Proof.
  intros H Ha. pose proof H as [m Hm]%reachable_cache_inv. pose proof (exec_fine ex_global _ _ _ Hm Ha) as ([] & s' & w & E & _)%runs_some.
  unfold after. rewrite E. by eapply reach_step.
Qed.

Lemma ex_name_ok x : name_ok (ex_name x).
Proof. split; [repeat constructor; done|done]. Qed.
Lemma ex_is_name x : is_name (wire (ex_name x)).
Proof. exists (ex_name x). split; [done|apply ex_name_ok]. Qed.

Definition ex_build : list op :=
  [InitCent (wire (ex_name 97)) 0 0 0; AddRr 1 1 300 1000 CF_LOCAL [10; 0; 0; 1]; AddCache 1;
   InitCent (wire (ex_name 98)) 0 0 0; AddRr 3 1 30 1000 0 [10; 0; 0; 2];
   AddCache 3; StartRead; InitCent (wire (ex_name 99)) 0 0 0; AddRr 5 1 30 900 0 [10; 0; 0; 3]; AddCache 5].
Definition ex_state (n : nat) : state := foldl (λ s o, after o s) (init_cache 1000 []) (take n ex_build).

Definition ex_cent (p : positive) (n : nat) : dns_cent_t :=
  default (mkCent [] 0 0 0 (Sets []) 0 0) (cents (ex_state n) !! p).

Lemma ex_user n p : bool_decide (is_Some (cents (ex_state n) !! p)) && bool_decide (p ∉ nt_entries (hash_buckets (ex_state n))) = true →
  user (ex_state n) p (ex_cent p n).
Proof.
  intros [[c Hc]%bool_decide_eq_true Hn%bool_decide_eq_true]%andb_true_iff. split; [|done]. unfold ex_cent. by rewrite Hc.
Qed.

Lemma ex_reachable : ex_reach (ex_state 5).
Proof.
  assert (H1 : ex_reach (ex_state 1)) by (apply reach_after; [apply reach_init|apply ex_is_name]).
  assert (H2 : ex_reach (ex_state 2)).
  { apply (reach_after (ex_state 1)); [exact H1|]. exists (ex_cent 1 1). split; [apply ex_user; vm_compute; reflexivity|].
    split; [done|]. by intros idx [= <-]. }
  assert (H3 : ex_reach (ex_state 3)).
  { apply (reach_after (ex_state 2)); [exact H2|]. split; [|vm_compute; reflexivity]. exists (ex_cent 1 2). apply ex_user. vm_compute. reflexivity. }
  assert (H4 : ex_reach (ex_state 4)) by (apply (reach_after (ex_state 3)); [exact H3|apply ex_is_name]).
  apply (reach_after (ex_state 4)); [exact H4|]. exists (ex_cent 3 4). split; [apply ex_user; vm_compute; reflexivity|].
  split; [done|]. by intros idx [= <-].
Qed.

(** Two answers are in the cache, the younger one first in the list. *)
Lemma ex_reachable_list : ex_reach (ex_state 10) ∧ age (ex_state 10) <$> rrset_l (ex_state 10) = [1000; 900].
Proof.
  split; [|vm_compute; reflexivity].
  assert (H6 : ex_reach (ex_state 6)).
  { apply (reach_after (ex_state 5)); [exact ex_reachable|]. split; [|vm_compute; reflexivity]. exists (ex_cent 3 5). apply ex_user. vm_compute. reflexivity. }
  assert (H7 : ex_reach (ex_state 7)) by (apply (reach_after (ex_state 6)); [exact H6|exact I]).
  assert (H8 : ex_reach (ex_state 8)) by (apply (reach_after (ex_state 7)); [exact H7|apply ex_is_name]).
  assert (H9 : ex_reach (ex_state 9)).
  { apply (reach_after (ex_state 8)); [exact H8|]. exists (ex_cent 5 8). split; [apply ex_user; vm_compute; reflexivity|].
    split; [done|]. by intros idx [= <-]. }
  apply (reach_after (ex_state 9)); [exact H9|]. split; [|vm_compute; reflexivity]. exists (ex_cent 5 9). apply ex_user. vm_compute. reflexivity.
Qed.

(** The entry of the caller. *)
Definition ex_answer : dns_cent_t :=
  mkCent (wire (ex_name 98)) 171 1 0 (Sets (Some (mkSet None 30 1000 0 [[10; 0; 0; 2]]) :: replicate 7 None)) cundef cundef.

Lemma ex_answer_user : user (ex_state 5) 3 ex_answer.
Proof.
  assert (ex_cent 3 5 = ex_answer) as <- by (vm_compute; reflexivity). apply ex_user. vm_compute. reflexivity.
Qed.

Lemma ex_current : current 1000 ex_answer.
Proof.
  split; [|by intros|by intros _|by vm_compute|done]. intros i r Hi%set_at_lookup. cbn in Hi. destruct i as [|i]; cbn in Hi.
  - by injection Hi as <-.
  - by apply (lookup_replicate_1 7) in Hi as [? _].
Qed.

Lemma ex_absent : ∃ l, nt_lookup (qn (ex_state 5)) (wire (ex_name 98)) (hash_buckets (ex_state 5)) = Some (None, l).
Proof.
  pose proof ex_reachable as [m H]%reachable_cache_inv. destruct (nt_lookup_ok _ _ _ _ (i_table _ _ H) (ex_name_ok 98)) as (l & E & _).
  exists l. rewrite E. do 2 f_equal.
  assert ((match nt_lookup (qn (ex_state 5)) (wire (ex_name 98)) (hash_buckets (ex_state 5)) with
           | Some (None, _) => true | _ => false end) = true) as Ht by (vm_compute; reflexivity).
  rewrite E in Ht. by destruct (m !! fold_name (ex_name 98)).
Qed.

Definition ex_local : rr_set_t := mkSet None 300 1000 CF_LOCAL [[10; 0; 0; 1]].
Lemma ex_finds n : (match nt_lookup (qn (ex_state n)) (wire (ex_name 97)) (hash_buckets (ex_state n)) with
    | Some (Some 2%positive, _) => true | _ => false end) = true → set_at (ex_cent 2 n) 0 = Some ex_local → is_Some (cents (ex_state n) !! 2%positive) →
  finds_set (ex_state n) (wire (ex_name 97)) 0 ex_local.
Proof.
  intros H Hs [c Hc]. destruct (nt_lookup _ _ _) as [[[[| [] |]|] l]|] eqn:E; try done. exists 2%positive, l, c. split_and!; [done|done|].
  unfold ex_cent in Hs. by rewrite Hc in Hs.
Qed.
End Example.

(** ** Properties *)

(** C3: In every state that any sequence of operations reaches, whichever
    allocations fail: the size of the cache is the sum of the sizes of its
    entries and the number of entries is right; every entry has the size and
    the number of sets that it says it has; the elements of the list and the
    sets point to one another ([mem]); only sets of cached entries are in the
    list, and those that are not are local.  Every operation that is allowed
    (among them reading a file of any bytes, and writing) ends without
    following a bad pointer and without a failed assertion, and warns at most
    of missing memory and of errors of the file: entries are always found where
    they are deleted, and sets are never miscounted. *)
Theorem cache_consistent global t ml s : reachable global t ml s →
  cache_size s = sum_cs (cents s) (nt_entries (hash_buckets s)) ∧ ent_num s = zlen (nt_entries (hash_buckets s)) ∧ mem s ∧
  (∀ e le, lents s !! e = Some le → l_cent le ∈ nt_entries (hash_buckets s)) ∧
  (∀ p c i, p ∈ nt_entries (hash_buckets s) → cents s !! p = Some c → unlisted_at c i → local_at c i = true) ∧
  ∀ o, allowed s o → ∃ s' w, exec global o s = Some (tt, s', w) ∧ Forall (λ x, harmless x = true) w.
Proof.
  intros [m H]%reachable_cache_inv. destruct (inv_sizes _ _ H) as [H1 H2]. split_and!; [done|done|apply H| | |].
  - intros e le He. rewrite (entries_cached _ _ _ H). by apply (i_listed _ _ H e).
  - intros p c i Hp Hc. apply (entries_cached _ _ _ H) in Hp as [k Hk]. by apply (i_local _ _ H k p).
  - intros o Ha. pose proof (exec_fine global _ _ _ H Ha) as ([] & s' & w & E & Hw & _)%runs_some. eauto.
Qed.

Lemma cache_consistent_witness :
  cache_size (ex_state 10) = sum_cs (cents (ex_state 10)) (nt_entries (hash_buckets (ex_state 10))) ∧
  ∃ s' w, exec ex_global (AddCache 5) (ex_state 10) = Some (tt, s', w) ∧ Forall (λ x, harmless x = true) w.
Proof.
  destruct (cache_consistent ex_global 1000 [] (ex_state 10) (proj1 ex_reachable_list)) as (Hs & _ & _ & _ & _ & Hops). split; [exact Hs|]. apply Hops.
  split; [|vm_compute; reflexivity]. exists (ex_cent 5 10). apply ex_user. vm_compute. reflexivity.
Defined.



(** C18: [purge_cache] brings the cache to the size it is asked for, or nothing
    is left in it that may be deleted: all sets, and all entries for names that
    do not exist, are local, and no entry is left of which everything was
    deleted. *)
Theorem purge_bound global t ml s sz lazy : reachable global t ml s → few (ent_num s) →
  ∃ s', purge_cache sz lazy s = Some (tt, s', []) ∧
    (cache_size s' <= sz ∨
     ∀ p c i, p ∈ nt_entries (hash_buckets s') → cents s' !! p = Some c → present c i → local_at c i = true) ∧
    (∀ p c, p ∈ nt_entries (hash_buckets s') → cents s' !! p = Some c →
       (∃ i, present c i) ∨ p ∈ nt_entries (hash_buckets s) ∧ cents s !! p = Some c).
Proof.
  intros [m H]%reachable_cache_inv Hf. destruct (runs_some _ _ _ (purge_cache_runs sz lazy s m H Hf)) as ([] & s' & w & E & -> & m' & Hst & _ & Hend & Hsub & Hu).
  exists s'. split; [done|]. split.
  - destruct Hend as [?|Hl]; [by left|right]. intros p c i Hp Hc. apply (entries_cached _ _ _ (s_inv _ _ _ _ _ Hst)) in Hp as [k Hk]. by apply (Hl k p).
  - intros p c Hp Hc. destruct (something_dec c) as [Hs|Hn]; [by left|right]. split; [|by apply Hu].
    apply (entries_cached _ _ _ (s_inv _ _ _ _ _ Hst)) in Hp as [k Hk]. apply (entries_cached _ _ _ H). exists k. by eapply lookup_weaken.
Qed.

Lemma purge_bound_witness : ∃ s', purge_cache 0 false (ex_state 10) = Some (tt, s', []) ∧
  (cache_size s' <= 0 ∨
   ∀ p c i, p ∈ nt_entries (hash_buckets s') → cents s' !! p = Some c → present c i → local_at c i = true) ∧
  (∀ p c, p ∈ nt_entries (hash_buckets s') → cents s' !! p = Some c →
     (∃ i, present c i) ∨ p ∈ nt_entries (hash_buckets (ex_state 10)) ∧ cents (ex_state 10) !! p = Some c).
Proof. apply (purge_bound ex_global 1000 [] (ex_state 10) 0 false (proj1 ex_reachable_list)). vm_compute. reflexivity. Defined.

(** C26: Local data stay: a set that is marked as local is found under its name
    as it was after every operation but the explicit deletion and invalidation
    of entries, the addition of an entry that has local sets itself, and the
    reading of a file, which may hold such entries; no answer from a server, no
    purge and no failed allocation touches it. *)
Theorem local_data_stay global t ml s o s' w ls i r : reachable global t ml s → allowed s o → remote s o →
  exec global o s = Some (tt, s', w) → name_ok ls → has (rflags r) CF_LOCAL = true →
  finds_set s (wire ls) i r → finds_set s' (wire ls) i r.
Proof.
  intros [m H]%reachable_cache_inv Ha Hr E Hls Hl (q & l & c & Hq & Hc & Hi).
  pose proof (exec_fine global _ _ _ H Ha) as Hf. unfold fine, runs in Hf. rewrite E in Hf. destruct Hf as (_ & m' & H' & Hsp).
  destruct (nt_lookup_ok _ _ _ _ (i_table _ _ H) Hls) as (l0 & E0 & _). rewrite Hq in E0. injection E0 as E0 _.
  destruct (Hsp Hr _ _ _ _ _ (eq_sym E0) Hc Hi Hl) as (Hk & c' & Hc' & Hi').
  destruct (nt_lookup_ok _ _ _ _ (i_table _ _ H') Hls) as (l1 & E1 & _). rewrite Hk in E1. by exists q, l1, c'.
Qed.

Lemma local_data_stay_witness : finds_set (after (Purge 0 false) (ex_state 10)) (wire (ex_name 97)) 0 ex_local.
Proof.
  destruct (exec ex_global (Purge 0 false) (ex_state 10)) as [[[[] s'] w]|] eqn:E; [|by vm_compute in E].
  unfold after. rewrite E. apply (local_data_stay ex_global 1000 [] (ex_state 10) (Purge 0 false) s' w (ex_name 97) 0 ex_local (proj1 ex_reachable_list)).
  - vm_compute. reflexivity.
  - exact I.
  - exact E.
  - split; [repeat constructor; done|done].
  - reflexivity.
  - apply ex_finds; vm_compute; eauto.
Defined.

(** [sort_rrl] sorts the list by time, oldest first: it delivers the same
    elements in ascending order, changes nothing else, and its array of 32
    lists does not overflow. *)
Lemma sort_rrl_sorts global t ml s : reachable global t ml s → few (ent_num s) →
  ∃ l, sort_rrl s = Some (tt, set_list (lents s) l s, []) ∧ l ≡ₚ rrset_l s ∧ in_order s l.
Proof.
  intros [m H]%reachable_cache_inv Hf.
  destruct (runs_some _ _ _ (sort_rrl_ok s (i_mem _ _ H) (list_few s m H Hf))) as ([] & s' & w & E & -> & l & -> & HP & Ho). by exists l.
Qed.

Lemma sort_rrl_sorts_witness : ∃ l, sort_rrl (ex_state 10) = Some (tt, set_list (lents (ex_state 10)) l (ex_state 10), []) ∧
  l ≡ₚ rrset_l (ex_state 10) ∧ in_order (ex_state 10) l.
Proof. apply (sort_rrl_sorts ex_global 1000 [] (ex_state 10) (proj1 ex_reachable_list)). vm_compute. reflexivity. Defined.

(** [free_dns_hash] leaves nothing: no entry, a size of 0, an empty list;
    the entries of the callers are as they were. *)
Lemma free_dns_hash_leaves_nothing global t ml s : reachable global t ml s →
  ∃ s', free_dns_hash s = Some (tt, s', []) ∧ cache_size s' = 0 ∧ ent_num s' = 0 ∧ rrset_l s' = [] ∧ nt_entries (hash_buckets s') = [] ∧
    ∀ p c, user s p c → user s' p c.
Proof.
  intros [m H]%reachable_cache_inv. destruct (runs_some _ _ _ (free_dns_hash_runs s m H)) as ([] & s' & w & E & -> & Hst).
  pose proof (s_inv _ _ _ _ _ Hst) as H'. exists s'. pose proof (nt_entries_ok _ _ _ (i_table _ _ H')) as HP. rewrite map_to_list_empty in HP.
  split_and!; [done|by rewrite (i_size _ _ H')|by rewrite (i_num _ _ H')| |by apply Permutation_nil_r|].
  - pose proof (list_bound _ _ H') as Hb. rewrite map_size_empty in Hb. apply zlen_zero_inv. pose proof (zlen_nonneg (rrset_l s')). lia.
  - intros p c Hu. destruct (user_cached _ _ _ _ H Hu) as [Hp Hn]. destruct (s_users _ _ _ _ _ Hst p c Hp Hn) as [Hp' Hn'].
    split; [done|]. by rewrite (entries_cached _ _ _ H').
Qed.

Lemma free_dns_hash_leaves_nothing_witness : ∃ s', free_dns_hash (ex_state 10) = Some (tt, s', []) ∧ cache_size s' = 0.
Proof.
  destruct (free_dns_hash_leaves_nothing ex_global 1000 [] (ex_state 10) (proj1 ex_reachable_list)) as (s' & E & Hs & _). exists s'. exact (conj E Hs).
Defined.
End DnsCacheReach.
