(* ===== verification/DnsCacheDisk.v ===== *)
(** * What is written to the file of the cache is read back

    The file that [write_disk_cache] writes, read by [read_disk_cache] into an
    empty cache, yields the entries that were written, without their local
    sets, and nothing else. *)

From stdpp Require Import sorting.
From S2P Require Import Prelude DnsNames DnsHash DnsCache DnsCacheMem DnsCacheSort DnsCacheOk DnsCacheAdd DnsCacheOps.
From S2P Require Import DnsCacheFile DnsCacheFileOk DnsCacheReach.
Import DnsNames DnsCache DnsCacheMem DnsCacheSort DnsCacheOk DnsCacheAdd DnsCacheOps DnsCacheFile DnsCacheFileOk DnsCacheReach.

Module DnsCacheDisk.
#[local] Existing Instance DnsHash.hash_table.
Implicit Types (s : state) (c : dns_cent_t) (p : positive).

(** ** Structures of the file *)
Lemma fread_app n b f : zlen b = n → fread n (b ++ f) = Some (b, f).
Proof.
  intros H. unfold fread. rewrite zlen_app, H. pose proof (zlen_nonneg f). zdec. unfold zlen in H.
  by rewrite take_app_length', drop_app_length' by lia.
Qed.

(** A member of [n] bytes between others. *)
Lemma member_at pre n v post b off len : b = pre ++ le_bytes n v ++ post → zlen pre = off → len = Z.of_nat n →
  member off len b = v mod 256 ^ len.
Proof.
  intros -> H ->. unfold member, slice. unfold zlen in H. rewrite drop_app_length' by lia. rewrite take_app_length' by (rewrite length_le_bytes; lia).
  apply of_le_le_bytes.
Qed.

Ltac member pre n v post :=
  erewrite (member_at pre n v post); [|by rewrite <-?app_assoc, ?app_nil_r|by rewrite ?zlen_app, ?zlen_le_bytes|done].

Lemma int64_mod v : -9223372036854775808 <= v < 9223372036854775808 → int64 (v mod 18446744073709551616) = v.
Proof.
  intros H. unfold int64. destruct (decide (0 <= v)).
  - rewrite Z.mod_small by lia. by zdec.
  - replace (v mod 18446744073709551616) with (v + 18446744073709551616); [zdec; lia|].
    rewrite <-(Z.mod_add v 1) by lia. rewrite Z.mod_small; lia.
Qed.

(** Values that fit into the members. *)
Definition is_time (v : Z) : Prop := -9223372036854775808 <= v < 9223372036854775808.

Lemma rr_fset_members tp n fl t t0 : is_u8 tp → is_u8 n → is_u16 fl → is_time t → is_time t0 →
  let sh := rr_fset_t tp n fl t t0 in
  zlen sh = sizeof_rr_fset_t ∧ member 0 1 sh = tp ∧ member 1 1 sh = n ∧ member 2 2 sh = fl ∧ int64 (member 4 8 sh) = t ∧ int64 (member 12 8 sh) = t0.
Proof.
  unfold is_u8, is_u16, UINT8_MAX, UINT16_MAX. intros H1 H2 H3 H4 H5. unfold rr_fset_t.
  set (a := le_bytes 1 tp). set (b := le_bytes 1 n). set (d := le_bytes 2 fl). set (x := le_bytes 8 t). set (y := le_bytes 8 t0). split_and!.
  - unfold a, b, d, x, y. rewrite !zlen_app, !zlen_le_bytes. done.
  - member (@nil Z) 1%nat tp (b ++ d ++ x ++ y). apply Z.mod_small. lia.
  - member a 1%nat n (d ++ x ++ y). apply Z.mod_small. lia.
  - member (a ++ b) 2%nat fl (x ++ y). apply Z.mod_small. lia.
  - member (a ++ b ++ d) 8%nat t y. by apply int64_mod.
  - member (a ++ b ++ d ++ x) 8%nat t0 (@nil Z). by apply int64_mod.
Qed.

Lemma dns_file_members ql n fl ns soa : is_u8 ql → is_u8 n → is_u16 fl → is_u8 ns → is_u8 soa →
  let fe := dns_file_t ql n fl ns soa in
  zlen fe = sizeof_dns_file_t ∧ member 0 1 fe = ql ∧ member 1 1 fe = n ∧ member 2 2 fe = fl ∧ member 4 1 fe = ns ∧ member 5 1 fe = soa.
Proof.
  unfold is_u8, is_u16, UINT8_MAX, UINT16_MAX. intros H1 H2 H3 H4 H5. unfold dns_file_t.
  set (a := le_bytes 1 ql). set (b := le_bytes 1 n). set (d := le_bytes 2 fl). set (x := le_bytes 1 ns). set (y := le_bytes 1 soa). split_and!.
  - unfold a, b, d, x, y. rewrite !zlen_app, !zlen_le_bytes. done.
  - member (@nil Z) 1%nat ql (b ++ d ++ x ++ y). apply Z.mod_small. lia.
  - member a 1%nat n (d ++ x ++ y). apply Z.mod_small. lia.
  - member (a ++ b) 2%nat fl (x ++ y). apply Z.mod_small. lia.
  - member (a ++ b ++ d) 1%nat ns y. apply Z.mod_small. lia.
  - member (a ++ b ++ d ++ x) 1%nat soa (@nil Z). apply Z.mod_small. lia.
Qed.

Lemma fttlts_members t t0 : is_time t → is_time t0 →
  let b := le_bytes 8 t ++ le_bytes 8 t0 in zlen b = sizeof_dom_fttlts_t ∧ int64 (member 0 8 b) = t ∧ int64 (member 8 8 b) = t0.
Proof.
  intros H1 H2. set (x := le_bytes 8 t). set (y := le_bytes 8 t0). split_and!.
  - unfold x, y. rewrite !zlen_app, !zlen_le_bytes. done.
  - member (@nil Z) 8%nat t y. by apply int64_mod.
  - member x 8%nat t0 (@nil Z). by apply int64_mod.
Qed.

(** ** Records *)
Lemma keeps_local c c' : keeps c c' → has (flags c') DF_LOCAL = has (flags c) DF_LOCAL.
Proof. intros H. by apply (k_flags _ _ H). Qed.

(** The entry [p] becomes [c']; memory suffices. *)
Definition built p s c (s' : state) (c' : dns_cent_t) : Prop :=
  mem s' ∧ edits p s s' ∧ mallocs s' = [] ∧ cents s' !! p = Some c' ∧ keeps c c'.

Lemma built_trans p s1 c1 s2 c2 s3 c3 : built p s1 c1 s2 c2 → built p s2 c2 s3 c3 → built p s1 c1 s3 c3.
Proof.
  intros (_ & He1 & _ & _ & Hk1) (H2 & He2 & Hm2 & Hp2 & Hk2). split_and!; [done|by eapply edits_trans|done|done|by eapply keeps_trans].
Qed.

Lemma built_refl p s c : mem s → mallocs s = [] → cents s !! p = Some c → built p s c s c.
Proof. intros. split_and!; [done|apply edits_refl|done|done|apply keeps_refl]. Qed.

(** The step that makes the buffer larger. *)
Lemma grow_runs (b : bool) x y s (Q : option Z → state → list warning → Prop) : mallocs s = [] → (∀ z, Q (Some z) s []) →
  runs (if b then ok ← malloc; mret (if (ok : bool) then Some x else None) else mret (Some y)) s Q.
Proof.
  intros Hml HQ. destruct b; [|apply runs_ret, HQ]. apply runs_bind, runs_malloc. intros ok l Hok.
  destruct (Hok Hml) as [-> ->]. apply runs_ret. assert (set_mallocs [] s = s) as -> by (destruct s; cbn in *; by subst). apply HQ.
Qed.

Lemma read_rrs_exact l p tp t0 fl dtsz f s c idx r :
  mem s → mallocs s = [] → cents s !! p = Some c → type_ok tp → rrlkuptab !! Z.to_nat (tp - T_MIN) = Some idx →
  has (flags c) DF_LOCAL = false → set_at c (Z.to_nat idx) = Some r → NoDup (rrs r ++ l) → Forall (λ d, is_u16 (zlen d)) l →
  runs (read_rrs (length l) p tp (ttl r) t0 fl dtsz (rrs_bytes l ++ f)) s (λ x s' w, w = [] ∧ (∃ d, x = inr (d, f)) ∧
    ∃ c', built p s c s' c' ∧ zlen (arr_of c') = zlen (arr_of c) ∧
      ∀ j, set_at c' j = if decide (j = Z.to_nat idx) then Some (set_rrs (rrs r ++ l) r) else set_at c j).
Proof.
  intros H Hml Hp Ht Hi. revert dtsz s c r H Hml Hp. induction l as [|d l IH]; intros dtsz s c r H Hml Hp Hloc Hr Hnd Hl; cbn [read_rrs length].
  { apply runs_ret. split_and!; [done|by exists dtsz|]. exists c. split_and!; [by apply built_refl|done|].
    intros j. case_decide; [|done]. subst j. rewrite app_nil_r, Hr. by destruct r. }
  apply Forall_cons_1 in Hl as [Hd Hl]. change (rrs_bytes (d :: l)) with (rr_bytes d ++ rrs_bytes l). unfold rr_bytes. rewrite u16_small by done.
  unfold zlen at 2. rewrite Nat2Z.id, firstn_all, <-!app_assoc. rewrite (fread_app 2) by done.
  assert (member 0 2 (le_bytes 2 (zlen d)) = zlen d) as ->.
  { member (@nil Z) 2%nat (zlen d) (@nil Z). apply Z.mod_small. unfold is_u16, UINT16_MAX in Hd. lia. }
  apply runs_bind, grow_runs; [done|]. intros z.
  assert ((if zlen d =? 0 then Some ([], d ++ rrs_bytes l ++ f) else fread (zlen d) (d ++ rrs_bytes l ++ f)) = Some (d, rrs_bytes l ++ f)) as ->.
  { destruct (zlen d =? 0) eqn:E; [|by apply fread_app]. zb. apply zlen_zero_inv in E. by subst d. }
  apply runs_bind. eapply runs_mono; [by eapply (add_cent_rr_spec s p c)|].
  intros ok s1 w (-> & H1 & He1 & Hok & c1 & Hp1 & Hk1 & Hs1 & Hi1 & Hz1). rewrite (Hok Hml) in *. cbn [negb app].
  assert (Hr1 : set_at c1 (Z.to_nat idx) = Some (set_rrs (rrs r ++ [d]) r)).
  { apply Hi1; [done|done|done|lia|]. intros Hin. apply NoDup_app in Hnd as (_ & Hnd & _). apply (Hnd d Hin). by left. }
  eapply runs_mono; [apply (IH z s1 c1 (set_rrs (rrs r ++ [d]) r)); try done|].
  - by apply (e_only _ _ _ He1).
  - by rewrite (keeps_local _ _ Hk1).
  - cbn. by rewrite <-app_assoc.
  - intros x s' w (-> & Hx & c' & Hb & Hz & Hs). split_and!; [done|done|]. exists c'. split; [|split].
    + eapply built_trans; [|exact Hb]. split_and!; [done|done|by apply (e_only _ _ _ He1)|done|done].
    + rewrite Hz, Hz1; [done|by rewrite Hr].
    + intros j. rewrite Hs. cbn. case_decide as Hj; [by rewrite <-app_assoc|by apply Hs1].
Qed.

(** ** Sets *)
Definition index_of (tp : Z) : option Z := rrlkuptab !! Z.to_nat (tp - T_MIN).

(** What is written of a set. *)
Definition remote_part (x : option rr_set_t) : option rr_set_t :=
  match x with Some r => if has (rflags r) CF_LOCAL then None else Some (set_lent None r) | None => None end.

(** A set that the file can hold: its values have the widths of the C types,
    it has at most 255 records, which are different. *)
Record set_fits (r : rr_set_t) : Prop := mkSetFits {
  f_flags : is_u16 (rflags r);
  f_ttl : is_time (ttl r);
  f_ts : is_time (ts r);
  f_num : zlen (rrs r) <= 255;
  f_nodup : NoDup (rrs r);
  f_len : Forall (λ d, is_u16 (zlen d)) (rrs r)
}.

Lemma read_set_runs tp r p prevtp dtsz f s c idx n (Q : label + Z * list Z → state → list warning → Prop) :
  set_fits r → mem s → mallocs s = [] → cents s !! p = Some c → has (flags c) DF_LOCAL = false →
  PDNSD_NOT_CACHED_TYPE tp = false → prevtp < tp → index_of tp = Some idx → set_at c (Z.to_nat idx) = None →
  (∀ d s' c', built p s c s' c' → rr c' = Sets (arr_of c') →
     (rr c = Sets (arr_of c) → idx < NRRMU → zlen (arr_of c') = zlen (arr_of c)) →
     (∀ j, set_at c' j = if decide (j = Z.to_nat idx) then Some (set_lent None r) else set_at c j) →
     runs (read_sets n p tp d f) s' Q) →
  runs (read_sets (S n) p prevtp dtsz (set_file tp r ++ f)) s Q.
Proof.
  intros [H1 H2 H3 H4 H5 H6] Hm Hml Hp Hloc Hty Hlt Hi Hno HQ. cbn [read_sets]. unfold set_file.
  assert (Hmin : Nat.min 255 (length (rrs r)) = length (rrs r)) by (unfold zlen in H4; lia). rewrite Hmin, firstn_all, <-app_assoc.
  pose proof (cached_type _ Hty) as Ht.
  assert (is_u8 tp) as Htp by (destruct Ht as [Ht _]; unfold T_NUM in Ht; unfold is_u8, UINT8_MAX; lia).
  assert (is_u8 (Z.of_nat (length (rrs r)))) as Hnum by (unfold zlen in H4; unfold is_u8, UINT8_MAX; lia).
  destruct (rr_fset_members _ _ _ _ _ Htp Hnum H1 H2 H3) as (E0 & E1 & E2 & E3 & E4 & E5).
  rewrite (fread_app sizeof_rr_fset_t) by done. rewrite E1, E2, E3, E4, E5, Hty. zdec. rewrite Nat2Z.id. apply runs_bind.
  eapply runs_mono; [by eapply (add_by_type_spec s p c)|].
  intros ok s1 w (-> & Hm1 & He1 & Hok & c1 & Hp1 & Hk1 & Hr1 & Hs1 & Hz1). rewrite (Hok Hml) in *. cbn [negb app].
  assert (Hb1 : built p s c s1 c1) by (split_and!; [done|done|by apply (e_only _ _ _ He1)|done|done]).
  pose proof (Hs1 (Z.to_nat idx)) as Hi1. rewrite decide_both, decide_True in Hi1 by done. apply runs_bind.
  eapply runs_mono; [eapply (read_rrs_exact (rrs r) p tp (ts r) (rflags r) dtsz f s1 c1 idx (new_set (ttl r) (ts r) (rflags r))); try done|].
  { by apply (e_only _ _ _ He1). }
  { by rewrite (keeps_local _ _ Hk1). }
  intros x s2 w (-> & [d ->] & c2 & Hb2 & Hz2 & Hs2). cbn [app].
  apply (HQ d s2 c2).
  - by eapply built_trans.
  - pose proof (Hs2 (Z.to_nat idx)) as E. rewrite decide_True in E by done. by eapply set_at_sets.
  - intros. rewrite Hz2. by apply Hz1.
  - intros j. rewrite Hs2, Hs1, decide_both. by destruct (decide (j = Z.to_nat idx)).
Qed.

(** The number of sets that are written of the types of a list. *)
Definition remote_num (arr : list (option rr_set_t)) (tps : list Z) : nat := length (filter (λ x, remote_set x = true) (of_type arr <$> tps)).

Lemma remote_part_some x : remote_set x = true → ∃ r, x = Some r ∧ has (rflags r) CF_LOCAL = false.
Proof. destruct x as [r|]; [|done]. cbn. intros ?%negb_true_iff. eauto. Qed.
Lemma remote_part_none x : remote_set x = false → remote_part x = None.
Proof. destruct x as [r|]; [|done]. cbn. by intros ->%negb_false_iff. Qed.

Lemma index_inj tp tp' i i' : type_ok tp → type_ok tp' → index_of tp = Some i → index_of tp' = Some i' → Z.to_nat i = Z.to_nat i' → tp = tp'.
Proof.
  intros H1 H2 E1 E2 E. destruct (type_index _ H1) as (x & Hx & ?), (type_index _ H2) as (y & Hy & ?). unfold index_of in *.
  assert (x = i) as -> by congruence. assert (y = i') as -> by congruence. assert (i = i') as <- by lia. by eapply type_inj.
Qed.

Lemma read_sets_exact arr tps p prevtp dtsz f s c :
  mem s → mallocs s = [] → cents s !! p = Some c → rr c = Sets (arr_of c) → has (flags c) DF_LOCAL = false → none_above prevtp c →
  StronglySorted Z.lt (prevtp :: tps) → Forall (λ tp, PDNSD_NOT_CACHED_TYPE tp = false) tps →
  (∀ tp r, tp ∈ tps → of_type arr tp = Some r → has (rflags r) CF_LOCAL = false → set_fits r) →
  runs (read_sets (remote_num arr tps) p prevtp dtsz (sets_file arr tps ++ f)) s (λ x s' w, w = [] ∧ (∃ d, x = inr (d, f)) ∧
    ∃ c', built p s c s' c' ∧ rr c' = Sets (arr_of c') ∧
      ((∀ tp i, tp ∈ tps → index_of tp = Some i → i < NRRMU) → zlen (arr_of c') = zlen (arr_of c)) ∧
      (∀ tp i, tp ∈ tps → index_of tp = Some i → set_at c' (Z.to_nat i) = remote_part (of_type arr tp)) ∧
      (∀ j, (∀ tp i, tp ∈ tps → index_of tp = Some i → j ≠ Z.to_nat i) → set_at c' j = set_at c j)).
Proof.
  intros H Hml Hp Hrr Hloc Hna Hs Hty Hfit. revert prevtp dtsz s c H Hml Hp Hrr Hloc Hna Hs.
  induction tps as [|tp tps IH]; intros prevtp dtsz s c H Hml Hp Hrr Hloc Hna Hs.
  { apply runs_ret. split_and!; [done|by exists dtsz|]. exists c. split_and!; [by apply built_refl|done|done| |done].
    by intros tp i ?%not_elem_of_nil. }
  apply Forall_cons_1 in Hty as [Htp Hty]. pose proof (cached_type _ Htp) as Ht. destruct (type_index _ Ht) as (idx & Hi & Hidx).
  apply StronglySorted_inv in Hs as [Hs Hall]. apply Forall_cons_1 in Hall as [Hlt Hall]. pose proof (StronglySorted_inv Hs) as [Hs' Hall'].
  assert (Hfresh : ∀ tp' i', tp' ∈ tps → index_of tp' = Some i' → Z.to_nat idx ≠ Z.to_nat i').
  { intros tp' i' Hin Hi' E. rewrite Forall_forall in Hall', Hty. pose proof (Hall' _ Hin).
    assert (tp = tp') by (eapply (index_inj tp tp' idx i'); [done|by apply cached_type, Hty|done|done|done]). lia. }
  assert (Hof : of_type arr tp = mjoin (arr !! Z.to_nat idx)) by (unfold of_type; by rewrite Hi).
  assert (Hnone : set_at c (Z.to_nat idx) = None) by (by apply (Hna tp); [|lia|]).
  specialize (IH Hty). assert (Hfit' := λ tp' r Hin, Hfit tp' r (proj2 (elem_of_cons _ _ _) (or_intror Hin))). specialize (IH Hfit').
  unfold remote_num, sets_file. cbn [fmap list_fmap]. rewrite filter_cons. change (mjoin (?x :: ?l)) with (x ++ mjoin l).
  destruct (remote_set (of_type arr tp)) eqn:Hrs.
  - destruct (remote_part_some _ Hrs) as (r & Er & Hl). rewrite decide_True by done. rewrite Er, Hl, <-app_assoc. cbn [length].
    eapply (read_set_runs tp r p prevtp dtsz _ s c idx); try done; [by eapply Hfit; [left| |]|].
    intros d s1 c1 Hb1 Hr1 Hz1 Hs1. pose proof Hb1 as (Hm1 & He1 & Hml1 & Hp1 & Hk1).
    eapply runs_mono; [apply (IH tp d s1 c1); try done|].
    + by rewrite (keeps_local _ _ Hk1).
    + eapply (none_above_step prevtp tp idx c); try done. intros j Hj. by rewrite Hs1, decide_False.
    + intros x s' w (-> & Hx & c' & Hb & Hr' & Hz & Hs2 & Hs3). split_and!; [done|done|]. exists c'. split_and!.
      * by eapply built_trans.
      * done.
      * intros Hsm. rewrite Hz; [|intros; eapply Hsm; [by right|done]]. apply Hz1; [done|]. by eapply Hsm; [left|].
      * intros tp' i' [-> | Hin]%elem_of_cons Hi'; [|by apply Hs2]. assert (i' = idx) as -> by (unfold index_of in Hi'; congruence).
        rewrite Hs3 by done. rewrite Hs1, decide_True, Er by done. cbn. by rewrite Hl.
      * intros j Hj. rewrite Hs3; [|intros; eapply Hj; [by right|done]]. rewrite Hs1, decide_False; [done|]. by eapply Hj; [left|].
  - rewrite decide_False by done.
    replace (match of_type arr tp with Some r => if has (rflags r) CF_LOCAL then [] else set_file tp r | None => [] end) with (@nil Z).
    2:{ destruct (of_type arr tp) as [r|]; [|done]. cbn in Hrs. by apply negb_false_iff in Hrs as ->. }
    cbn [app]. eapply runs_mono; [apply (IH prevtp dtsz s c); try done|].
    { by constructor. }
    intros x s' w (-> & Hx & c' & Hb & Hr' & Hz & Hs2 & Hs3). split_and!; [done|done|]. exists c'. split_and!; [done|done| | |].
    + intros Hsm. apply Hz. intros; eapply Hsm; [by right|done].
    + intros tp' i' [-> | Hin]%elem_of_cons Hi'; [|by apply Hs2]. assert (i' = idx) as -> by (unfold index_of in Hi'; congruence).
      rewrite Hs3 by done. by rewrite Hnone, remote_part_none.
    + intros j Hj. apply Hs3. intros; eapply Hj; [by right|done].
Qed.

(** ** The types of an entry *)
Lemma iterlist_sorted arr : StronglySorted Z.lt (0 :: iterlist arr) ∧ Forall (λ tp, PDNSD_NOT_CACHED_TYPE tp = false) (iterlist arr).
Proof. unfold iterlist. case_if; split; repeat constructor. Qed.

Lemma iterlist_index arr : zlen arr = NRRMU ∨ zlen arr = NRRTOT →
  omap index_of (iterlist arr) ≡ₚ Z.of_nat <$> seq 0 (length arr).
Proof.
  intros H. unfold iterlist. assert (length arr = Z.to_nat (zlen arr)) as -> by (unfold zlen; lia).
  destruct H as [-> | ->]; cbv [Z.eqb]; apply (bool_decide_unpack _); vm_compute; exact I.
Qed.

(** Every set of the entry is in the list. *)
Lemma iterlist_all arr j : zlen arr = NRRMU ∨ zlen arr = NRRTOT → (j < length arr)%nat → ∃ tp, tp ∈ iterlist arr ∧ index_of tp = Some (Z.of_nat j).
Proof.
  intros H Hj. apply (list_elem_of_omap index_of). rewrite (iterlist_index arr H). apply list_elem_of_fmap. exists j. split; [done|].
  apply elem_of_seq. lia.
Qed.

Lemma iterlist_few arr tp i : zlen arr = NRRMU → tp ∈ iterlist arr → index_of tp = Some i → 0 <= i < NRRMU.
Proof.
  intros H Htp Hi. assert (i ∈ omap index_of (iterlist arr)) as Hin by (apply list_elem_of_omap; eauto).
  rewrite iterlist_index in Hin by by left. apply list_elem_of_fmap in Hin as (j & -> & Hj%elem_of_seq). unfold zlen in H. lia.
Qed.

Lemma lookup_all {A} (l : list (option A)) : (λ j, mjoin (l !! j)) <$> seq 0 (length l) = l.
Proof.
  apply list_eq. intros i. rewrite list_lookup_fmap. destruct (decide (i < length l)%nat) as [Hi|Hi].
  - rewrite lookup_seq_lt by done. cbn. destruct (lookup_lt_is_Some_2 l i Hi) as [x ->]. done.
  - rewrite lookup_seq_ge by lia. cbn. symmetry. apply lookup_ge_None. lia.
Qed.

Lemma remote_num_all arr : zlen arr = NRRMU ∨ zlen arr = NRRTOT → remote_num arr (iterlist arr) = length (filter (λ x, remote_set x = true) arr).
Proof.
  intros H. unfold remote_num.
  assert (of_type arr <$> iterlist arr = (λ i, mjoin (arr !! Z.to_nat i)) <$> omap index_of (iterlist arr)) as ->.
  { unfold iterlist. by case_if. }
  rewrite (iterlist_index arr H), <-list_fmap_compose.
  rewrite (list_fmap_ext _ (λ j, mjoin (arr !! j))); [by rewrite lookup_all|]. intros i x Hx. cbn. by rewrite Nat2Z.id.
Qed.

(** ** Names *)
Lemma check_name_segs fuel pre ls : Forall label_ok ls → (length (segs ls) <= fuel)%nat →
  check_name fuel (pre ++ segs ls) (zlen pre) (zlen (pre ++ segs ls)) = Some true.
Proof.
  intros Hls. revert fuel pre. induction Hls as [|l ls Hl _ IH]; intros fuel pre Hf.
  { change (segs []) with (@nil Z). rewrite app_nil_r. destruct fuel; cbn [check_name]; by zdec. }
  unfold label_ok in Hl. rewrite segs_cons in *. destruct fuel as [|fuel]; [cbn in Hf; lia|]. cbn [check_name].
  rewrite zlen_app. cbn [app]. rewrite zlen_cons, zlen_app. pose proof (zlen_nonneg (segs ls)). zdec. rewrite rd_here. cbn [mbind option_bind].
  rewrite !orb_false_intro by (try apply Z.eqb_neq; rewrite ?Z.gtb_ltb; try apply Z.ltb_ge; lia).
  specialize (IH fuel (pre ++ zlen l :: l)). rewrite <-app_assoc in IH. cbn [app] in IH.
  replace (zlen pre + (zlen l + 1)) with (zlen (pre ++ zlen l :: l)) by (rewrite zlen_app, zlen_cons; lia).
  replace (zlen pre + (1 + (zlen l + zlen (segs ls)))) with (zlen (pre ++ zlen l :: l ++ segs ls)) by (rewrite zlen_app, zlen_cons, zlen_app; lia).
  apply IH. cbn in Hf. rewrite length_app in Hf. lia.
Qed.

(** ** An entry *)
Record entry_fits c : Prop := mkEntryFits {
  e_flags : is_u16 (flags c);
  e_local : has (flags c) DF_LOCAL = false;
  e_refs : is_u8 (c_ns c) ∧ is_u8 (c_soa c);
  e_neg x t t0 : rr c = Neg x t t0 → is_time t ∧ is_time t0;
  e_sets i r : set_at c i = Some r → has (rflags r) CF_LOCAL = false → set_fits r
}.

(** What is made of an entry when it is read. *)
Record read_back c c' : Prop := mkReadBack {
  b_name : qname c' = qname c;
  b_flags : flags c' = flags c;
  b_refs : c_ns c' = c_ns c ∧ c_soa c' = c_soa c;
  b_rr : match rr c with
         | Neg _ t t0 => rr c' = Neg None t t0
         | Sets _ => rr c' = Sets (arr_of c') ∧ ∀ j, set_at c' j = remote_part (set_at c j)
         end;
  b_size : cs c' <= cs c;
  b_some : worth c = true → has (flags c') DF_NEGATIVE = false → num_rrs c' ≠ 0
}.

Lemma set_bytes_nonneg r : 0 <= set_bytes r.
Proof.
  unfold set_bytes. induction (rrs r) as [|d l IH]; cbn; [done|]. pose proof (zlen_nonneg d). unfold sizeof_rr_set_t, sizeof_rr_bucket_t in *. lia.
Qed.

Lemma arr_bytes_nonneg arr : 0 <= arr_bytes arr.
Proof. induction arr as [|[r|] arr IH]; cbn; [done| |done]. pose proof (set_bytes_nonneg r). lia. Qed.

Lemma arr_bytes_part a a' : (∀ j, mjoin (a' !! j) = remote_part (mjoin (a !! j))) → arr_bytes a' <= arr_bytes a.
Proof.
  assert (Hpart : ∀ x, weight set_bytes (remote_part x) <= weight set_bytes x).
  { intros [r|]; cbn; [|done]. pose proof (set_bytes_nonneg r). case_if; cbn; [done|]. done. }
  revert a. induction a' as [|x a' IH]; intros a H; cbn [arr_sum]; [apply arr_bytes_nonneg|]. pose proof (H 0%nat) as H0. cbn in H0.
  specialize (IH (tail a)). pose proof (Hpart (mjoin (a !! 0%nat))) as Hw. rewrite <-H0 in Hw.
  assert (arr_bytes a' <= arr_bytes (tail a)). { apply IH. intros j. rewrite lookup_tail. apply (H (S j)). }
  destruct a as [|y a]; cbn in *; lia.
Qed.

Lemma worth_set c arr : rr c = Sets arr → worth c = true → ∃ j r, remote_part (set_at c j) = Some r.
Proof.
  unfold worth. intros Hr. rewrite Hr. intros (x & Hx & Hrem)%existsb_exists. apply list_elem_of_In, list_elem_of_lookup in Hx as [j Hj].
  exists j. rewrite set_at_arr, (arr_of_sets _ _ Hr), Hj. destruct (remote_part_some _ Hrem) as (r & -> & Hl). cbn. rewrite Hl. eauto.
Qed.

Lemma flags_same c c' : cent_ok c → cent_ok c' → rr c = Sets (arr_of c) → rr c' = Sets (arr_of c') →
  (∀ b, Z.ldiff b DF_NEGATIVE = b → has (flags c') b = has (flags c) b) → flags c' = flags c.
Proof.
  intros Hc Hc' Hr Hr' H. apply Z.bits_inj'. intros n Hn.
  assert (Hbit : ∀ x, has x (2 ^ n) = Z.testbit x n).
  { intros x. unfold has. destruct (Z.testbit x n) eqn:E.
    - apply negb_true_iff, Z.eqb_neq. intros H0. apply (f_equal (λ z, Z.testbit z n)) in H0.
      by rewrite Z.land_spec, E, Z.pow2_bits_true, Z.bits_0 in H0.
    - apply negb_false_iff, Z.eqb_eq. apply Z.bits_inj'. intros k Hk. rewrite Z.land_spec, Z.pow2_bits_eqb, Z.bits_0 by done.
      destruct (n =? k) eqn:En; [zb; subst k; by rewrite E|apply andb_false_r]. }
  destruct (decide (n = 0)) as [-> | Hne].
  - rewrite <-!Hbit. change (2 ^ 0) with DF_NEGATIVE. by rewrite !shape_neg, Hr, Hr' by done.
  - rewrite <-!Hbit. apply H. apply Z.bits_inj'. intros k Hk. rewrite Z.ldiff_spec, !Z.pow2_bits_eqb by done.
    change DF_NEGATIVE with (2 ^ 0). rewrite Z.pow2_bits_eqb by done. destruct (n =? k) eqn:E; [|done]. zb. subst k.
    destruct (0 =? n) eqn:E; [zb; lia|done].
Qed.

(** The entry as it is before its sets are read. *)
Definition times (c : dns_cent_t) : Z * Z := match rr c with Neg _ t t0 => (t, t0) | Sets _ => (0, 0) end.
Definition started (ls : list (list Z)) (c : dns_cent_t) : dns_cent_t :=
  set_csoa (c_soa c) (set_cns (c_ns c) (new_cent ls (times c).1 (times c).2 (flags c))).
Definition body (c : dns_cent_t) : list Z := match rr c with Neg _ _ _ => [] | Sets arr => sets_file arr (iterlist arr) end.

(** The entry [c'] with the remote sets of [c] is what is read back of it. *)
Lemma read_back_sets ls c c' arr :
  cent_ok c → cent_ok c' → rr c = Sets arr → rr c' = Sets (arr_of c') → qname c' = qname c → keeps (started ls c) c' →
  (zlen arr = NRRMU → zlen (arr_of c') = NRRMU) → (∀ j, set_at c' j = remote_part (set_at c j)) → read_back c c'.
Proof.
  intros Hc Hc' Hr Hr' Hn Hk Hz Hs. pose proof (arr_of_sets _ _ Hr) as Ea.
  pose proof (c_shape _ Hc) as Hsh. pose proof (c_shape _ Hc') as Hsh'. unfold shape_ok in Hsh, Hsh'. rewrite Hr in Hsh. rewrite Hr' in Hsh'.
  destruct Hsh as (_ & _ & _ & Hcs), Hsh' as (_ & _ & Hnum' & Hcs'). split.
  - done.
  - apply flags_same; [done|done|by rewrite Ea|done|]. intros b Hb. by apply (k_flags _ _ Hk).
  - by apply (k_refs _ _ Hk).
  - by rewrite Hr.
  - assert (arr_bytes (arr_of c') <= arr_bytes arr).
    { apply arr_bytes_part. intros j. rewrite <-set_at_arr, Hs, set_at_arr. by rewrite Ea. }
    assert (ext_bytes (arr_of c') <= ext_bytes arr).
    { unfold ext_bytes. destruct (zlen arr =? NRRMU) eqn:E; [|case_if; done]. zb. rewrite (Hz E). by zdec. }
    rewrite Hcs, Hcs', Hn. lia.
  - intros Hw _. destruct (worth_set _ _ Hr Hw) as (j & r & Hj). rewrite <-Hs, set_at_arr in Hj. intros E. rewrite Hnum' in E.
    by apply (arr_num_zero _ j r E).
Qed.

Lemma read_body_runs c ls p dtsz f s :
  cent_ok c → entry_fits c → qname c = wire ls → mem s → mallocs s = [] → cents s !! p = Some (started ls c) →
  runs (read_sets (length (filter (λ x, remote_set x = true) (arr_of c))) p 0 dtsz (body c ++ f)) s (λ x s' w, w = [] ∧ (∃ d, x = inr (d, f)) ∧
    mem s' ∧ edits p s s' ∧ mallocs s' = [] ∧ ∃ c', cents s' !! p = Some c' ∧ read_back c c').
Proof.
  intros Hc Hfit Hn Hm Hml Hp. pose proof (m_cents _ Hm _ _ Hp) as Hc0. pose proof (c_shape _ Hc) as Hsh. unfold shape_ok in Hsh.
  unfold body, arr_of. destruct (rr c) as [x t t0|arr] eqn:Hr.
  { apply runs_ret. split_and!; [done|by exists dtsz|done|apply edits_refl|done|]. eexists. split; [done|].
    destruct Hsh as (Hneg & Hnum & Hcs). split; try done.
    - unfold started, times. cbn. rewrite Hr, Hneg. done.
    - cbn. rewrite Hcs, Hn. lia.
    - cbn. by rewrite Hneg. }
  destruct Hsh as (Hneg & Hlen & _). rewrite <-(remote_num_all arr Hlen). destruct (iterlist_sorted arr) as [Hsort Hty].
  assert (Hr0 : rr (started ls c) = Sets (replicate (Z.to_nat NRRMU) None)) by (unfold started; cbn; by rewrite Hneg).
  assert (Hof : ∀ tp i, index_of tp = Some i → of_type arr tp = set_at c (Z.to_nat i)).
  { intros tp i Hi. unfold index_of in Hi. unfold of_type. rewrite Hi, set_at_arr, (arr_of_sets _ _ Hr). done. }
  eapply runs_mono; [apply (read_sets_exact arr (iterlist arr) p 0 dtsz f s (started ls c)); try done|].
  - by rewrite (arr_of_sets _ _ Hr0).
  - apply Hfit.
  - intros tp' i' _ _ _. apply (new_cent_none ls).
  - intros tp r _ Hr' Hl. unfold of_type in Hr'. destruct (rrlkuptab !! _) as [i|] eqn:Hi; [|done]. cbn in Hr'.
    apply (e_sets _ Hfit (Z.to_nat i)); [|done]. by rewrite set_at_arr, (arr_of_sets _ _ Hr).
  - intros x s' w (-> & Hx & c' & (Hm' & He' & Hml' & Hp' & Hk') & Hr' & Hz & Hin & Hout). split_and!; try done. exists c'. split; [done|].
    apply (read_back_sets ls c c' arr); try done; [by eapply m_cents| | |].
    + pose proof (o_name _ _ _ (e_only _ _ _ He')) as E. rewrite Hp', Hp in E. injection E as E. by rewrite E, Hn.
    + intros Hmu. rewrite Hz; [by rewrite (arr_of_sets _ _ Hr0)|]. intros tp i Htp Hi. eapply (iterlist_few arr); done.
    + intros j. destruct (decide (j < length arr)%nat) as [Hj|Hj].
      * destruct (iterlist_all arr j Hlen Hj) as (tp & Htp & Hi). rewrite <-(Nat2Z.id j), (Hin tp), (Hof tp (Z.of_nat j)); done.
      * rewrite set_at_arr with (c := c), (arr_of_sets _ _ Hr), (proj2 (lookup_ge_None arr j)) by lia. rewrite Hout; [apply (new_cent_none ls)|].
        intros tp i Htp Hi ->. assert (i ∈ omap index_of (iterlist arr)) as Hii by (apply list_elem_of_omap; eauto).
        rewrite iterlist_index in Hii by done. apply list_elem_of_fmap in Hii as (k & -> & Hk%elem_of_seq). lia.
Qed.

Section Disk.
Context (global : globparm_t).

(** The cache with one more entry: [c], read back and brought within the limits; the others are as they were. *)
Definition one_added (m : gmap key positive) c ls s (s' : state) : Prop :=
  mallocs s' = [] ∧ insert_sort s' = insert_sort s ∧ cache_size s' <= cache_size s + cs c ∧ ∃ q c' c2,
    inv s' (<[fold_name ls := q]> m) ∧ cents s' !! q = Some c2 ∧ read_back c c' ∧ unlisted c2 = adjusted global c' ∧
    ∀ k p, m !! k = Some p → cents s' !! p = cents s !! p.

Lemma end_entry_exact p dtsz f s m c c' ls :
  inv s m → mallocs s = [] → cents s !! p = Some c' → ¬ cached m p → read_back c c' → worth c = true → qname c = wire ls → name_ok ls →
  m !! fold_name ls = None → cache_size s + cs c <= purge_limit global →
  runs (end_entry global p (inr (dtsz, f))) s (λ x s' w, w = [] ∧ x = inr (dtsz, f) ∧ one_added m c ls s s').
Proof.
  intros H Hml Hp Hu Hb Hw Hn Hls Hk Hsz. cbn [end_entry]. pose proof (b_size _ _ Hb). apply runs_bind.
  eapply runs_mono; [apply (add_absent_exact global s m p c' ls); try done; [by rewrite (b_name _ _ Hb)|lia|by apply (b_some _ _ Hb)]|].
  intros [] s1 w (-> & Hml1 & q & c2 & Hst & Hq & Hu2 & Hsz1 & Hoth & Hsort).
  destruct (s_users _ _ _ _ _ Hst p c' Hp Hu) as [Hp1 Hu1]. pose proof (s_inv _ _ _ _ _ Hst) as H1.
  apply runs_bind. eapply free_cent_runs; [apply H1|done|]. apply runs_bind. unfold free. apply runs_modify, runs_ret.
  split_and!; [done|done|]. assert (Hqp : q ≠ p). { intros ->. apply Hu1. exists (fold_name ls). apply lookup_insert_eq. }
  split_and!; [done|done|cbn; lia|]. exists q, c', c2. split_and!; [by apply (inv_free s1 _ p c')| |done|done|].
  - cbn. by rewrite lookup_delete_ne.
  - intros k p' Hk'. cbn. rewrite lookup_delete_ne; [|intros ->; apply Hu; by exists k]. apply Hoth. intros ->.
    assert (k = fold_name ls) as ->; [|congruence]. eapply (inv_inj s1 _ _ _ q H1); [|apply lookup_insert_eq].
    rewrite lookup_insert_ne; [done|]. intros <-. congruence.
Qed.

Lemma read_cent_exact c ls dtsz f s m fe :
  inv s m → mallocs s = [] → cent_ok c → entry_fits c → worth c = true → qname c = wire ls → name_ok ls →
  m !! fold_name ls = None → cache_size s + cs c <= purge_limit global →
  member 1 1 fe = zlen (filter (λ x, remote_set x = true) (arr_of c)) → member 2 2 fe = flags c → member 4 1 fe = c_ns c → member 5 1 fe = c_soa c →
  runs (read_cent global fe (times c).1 (times c).2 (segs ls) dtsz (body c ++ f)) s (λ x s' w, w = [] ∧ (∃ d, x = inr (d, f)) ∧ one_added m c ls s s').
Proof.
  intros H Hml Hc Hfit Hw Hn Hls Hk Hsz E1 E2 E3 E4. unfold read_cent. rewrite E1, E2, E3, E4. fold (wire ls). apply runs_bind.
  eapply runs_mono; [by apply init_cent_runs; [apply H|]|]. intros r s1 w (-> & Hm1 & Hml1 & Hr). destruct (Hml1 Hml) as [Hml1' Hsome].
  destruct r as [p|]; [|done]. destruct (inv_new _ _ _ _ _ H Hr Hm1) as [H1 Hu]. destruct Hr as [Hp0 [l Es1]].
  assert (Hp1 : cents s1 !! p = Some (new_cent ls (times c).1 (times c).2 (flags c))) by (subst s1; apply lookup_insert_eq).
  apply runs_bind. eapply runs_store; [done|].
  destruct (set_refs_step s1 p _ (c_ns c) (c_soa c) Hm1 Hp1) as [Hm2 He2]; [apply (e_refs _ Hfit)..|].
  match goal with |- runs _ ?x _ => set (s2 := x) in * end.
  assert (H2 : inv s2 m) by by eapply inv_user. apply runs_bind. unfold zlen. rewrite Nat2Z.id.
  eapply runs_mono; [apply (read_body_runs c ls p dtsz f s2); try done; apply lookup_upd|].
  intros x s3 w (-> & [d ->] & Hm3 & He3 & Hml3 & c' & Hp3 & Hb). assert (H3 : inv s3 m) by by eapply inv_user.
  assert (Hsame : cache_size s3 = cache_size s ∧ insert_sort s3 = insert_sort s).
  { rewrite (o_size _ _ _ (e_only _ _ _ He3)), (o_sort _ _ _ (e_only _ _ _ He3)). by subst s1. }
  destruct Hsame as [Hsz3 Hso3].
  eapply runs_mono; [apply (end_entry_exact p d f s3 m c c' ls); try done; lia|].
  intros x s' w (-> & -> & Hml' & Hso' & Hsz' & q & c1 & c2 & Hi & Hq & Hb' & Hu' & Hoth). split_and!; [done|by exists d|].
  split_and!; [done|congruence|lia|]. exists q, c1, c2. split_and!; try done. intros k p' Hk'.
  assert (p' ≠ p) by (intros ->; apply Hu; by exists k). rewrite (Hoth k p' Hk'), (o_others _ _ _ (e_only _ _ _ He3)) by done.
  unfold s2. cbn. rewrite lookup_insert_ne by done. subst s1. cbn. by rewrite lookup_insert_ne.
Qed.

Lemma remote_few c : cent_ok c → is_u8 (zlen (filter (λ x, remote_set x = true) (arr_of c))).
Proof.
  intros Hc. pose proof (length_arr_of c Hc). pose proof (length_filter (λ x, remote_set x = true) (arr_of c)). unfold is_u8, UINT8_MAX, zlen, NRRTOT in *. lia.
Qed.

Lemma read_entry_exact c ls dtsz f s m :
  inv s m → mallocs s = [] → cent_ok c → entry_fits c → worth c = true → qname c = wire ls → name_ok ls →
  m !! fold_name ls = None → cache_size s + cs c <= purge_limit global →
  runs (read_entry global dtsz (entry_file c ++ f)) s (λ x s' w, w = [] ∧ (∃ d, x = inr (d, f)) ∧ one_added m c ls s s').
Proof.
  intros H Hml Hc Hfit Hw Hn Hls Hk Hsz. pose proof Hfit as [F1 F2 [F3 F4] F5 F6]. pose proof (remote_few c Hc) as Hnum.
  assert (Hql : u8 (zlen (qname c) - 1) = zlen (segs ls) ∧ is_u8 (zlen (segs ls))).
  { rewrite Hn. destruct Hls as [_ Hlen]. unfold wire, DNSNAMEBUFSIZE in *. rewrite zlen_app in *. change (zlen [0]) with 1 in *.
    pose proof (zlen_nonneg (segs ls)). unfold is_u8, UINT8_MAX. split; [|lia]. replace (zlen (segs ls) + 1 - 1) with (zlen (segs ls)) by lia.
    unfold u8. apply Z.mod_small. lia. }
  destruct Hql as [Eql Hql]. destruct (dns_file_members _ _ _ _ _ Hql Hnum F1 F3 F4) as (E0 & E1 & E2 & E3 & E4 & E5).
  unfold read_entry, entry_file. rewrite Eql, <-!app_assoc, (fread_app sizeof_dns_file_t) by done. rewrite E1, E3. fold (body c).
  assert (Htake : take (Z.to_nat (zlen (segs ls))) (qname c) = segs ls) by (rewrite Hn; unfold wire, zlen; rewrite Nat2Z.id; apply take_app_length).
  rewrite Htake.
  assert ((if has (flags c) DF_NEGATIVE
           then '(b, f0) ← fread sizeof_dom_fttlts_t (match rr c with Neg _ t t0 => le_bytes 8 t ++ le_bytes 8 t0 | Sets _ => [] end ++ segs ls ++ body c ++ f);
                Some (int64 (member 0 8 b), int64 (member 8 8 b), f0)
           else Some (0, 0, match rr c with Neg _ t t0 => le_bytes 8 t ++ le_bytes 8 t0 | Sets _ => [] end ++ segs ls ++ body c ++ f)) =
          Some ((times c).1, (times c).2, segs ls ++ body c ++ f)) as ->.
  { rewrite shape_neg by done. unfold times. destruct (rr c) as [x t t0|arr] eqn:Hr; [|done].
    destruct (F5 x t t0 eq_refl) as [Ht Ht0]. destruct (fttlts_members t t0 Ht Ht0) as (G0 & G1 & G2).
    rewrite (fread_app sizeof_dom_fttlts_t) by done. cbn [mbind option_bind]. by rewrite G1, G2. }
  assert ((if zlen (segs ls) =? 0 then Some ([], segs ls ++ body c ++ f) else fread (zlen (segs ls)) (segs ls ++ body c ++ f)) = Some (segs ls, body c ++ f)) as ->.
  { destruct (zlen (segs ls) =? 0) eqn:E; [|by apply fread_app]. zb. apply zlen_zero_inv in E. by rewrite E. }
  apply runs_bind. eapply runs_lift; [apply (check_name_segs _ []); [apply Hls|done]|]. cbn [negb].
  by apply read_cent_exact.
Qed.

(** ** The file *)
Abbreviation entry := (dns_cent_t * list (list Z))%type.
Implicit Types (x : entry) (l : list entry).

(** An entry with its name that can be written and read. *)
Record saved (x : entry) : Prop := mkSaved {
  v_ok : cent_ok x.1;
  v_fits : entry_fits x.1;
  v_worth : worth x.1 = true;
  v_name : qname x.1 = wire x.2;
  v_labels : name_ok x.2
}.
Definition key_of x : key := fold_name x.2.
Definition reload c (c2 : dns_cent_t) : Prop := ∃ c', read_back c c' ∧ unlisted c2 = adjusted global c'.

(** The cache holds the entries of [l], as they are read, and no others. *)
Definition holds l (m : gmap key positive) s : Prop := ∀ k,
  match m !! k with
  | Some p => ∃ x c2, x ∈ l ∧ k = key_of x ∧ cents s !! p = Some c2 ∧ reload x.1 c2
  | None => ∀ x, x ∈ l → k ≠ key_of x
  end.

Lemma holds_snoc l m s s' x q c' c2 : holds l m s → cents s' !! q = Some c2 → read_back x.1 c' → unlisted c2 = adjusted global c' →
  (∀ k p, m !! k = Some p → cents s' !! p = cents s !! p) → m !! key_of x = None → holds (l ++ [x]) (<[key_of x := q]> m) s'.
Proof.
  intros H Hq Hb Hu Hoth Hk k. destruct (decide (k = key_of x)) as [-> | Hne].
  - rewrite lookup_insert_eq. exists x, c2. split_and!; [apply elem_of_app; right; by apply list_elem_of_singleton|done|done|by exists c'].
  - rewrite lookup_insert_ne by done. specialize (H k). destruct (m !! k) as [p|] eqn:E.
    + destruct H as (y & c3 & Hy & -> & Hp & Hr). exists y, c3. split_and!; [apply elem_of_app; by left|done|by rewrite (Hoth _ _ E)|done].
    + intros y [Hy|Hy%list_elem_of_singleton]%elem_of_app; [by apply H|by subst y].
Qed.

Definition total_cs l : Z := foldr (λ x n, cs x.1 + n) 0 l.

Lemma cs_nonneg c : cent_ok c → 0 <= cs c.
Proof.
  intros [_ Hs _]. unfold shape_ok in Hs. pose proof (zlen_nonneg (qname c)). unfold sizeof_dns_cent_t in *. destruct (rr c) as [x t t0|arr]; [lia|].
  destruct Hs as (_ & _ & _ & ->). assert (0 <= ext_bytes arr) by (unfold ext_bytes; by case_if).
  pose proof (arr_bytes_nonneg arr). lia.
Qed.
Lemma total_cs_nonneg l : Forall saved l → 0 <= total_cs l.
Proof. induction 1 as [|x l Hx _ IH]; [done|]. pose proof (cs_nonneg _ (v_ok _ Hx)). cbn. unfold total_cs in IH. lia. Qed.

Lemma read_entries_exact l0 l fuel dtsz f s m :
  inv s m → mallocs s = [] → Forall saved l → NoDup (key_of <$> l0 ++ l) → holds l0 m s →
  cache_size s + total_cs l <= purge_limit global → (length l <= fuel)%nat →
  runs (read_entries global fuel (zlen l) dtsz (mjoin (entry_file <$> l.*1) ++ f)) s (λ r s' w, r = free_data_fclose ∧ w = [] ∧
    insert_sort s' = insert_sort s ∧ ∃ m', inv s' m' ∧ holds (l0 ++ l) m' s').
Proof.
  revert l0 fuel dtsz s m. induction l as [|x l IH]; intros l0 fuel dtsz s m H Hml Hsv Hnd Hh Hsz Hf.
  { destruct fuel; cbn [read_entries]; apply runs_ret; (split_and!; [done|done|done|]; exists m; by rewrite app_nil_r). }
  apply Forall_cons_1 in Hsv as [Hx Hsv]. destruct fuel as [|fuel]; [cbn in Hf; lia|]. cbn [read_entries]. rewrite zlen_cons.
  pose proof (zlen_nonneg l) as Hzl. rewrite Z.gtb_ltb. zdec. cbn [fmap list_fmap]. change (mjoin (?a :: ?b)) with (a ++ mjoin b). rewrite <-app_assoc.
  assert (Hk : m !! key_of x = None).
  { specialize (Hh (key_of x)). destruct (m !! key_of x) as [p|]; [|done]. destruct Hh as (y & _ & Hy & E & _). exfalso.
    rewrite fmap_app in Hnd. apply NoDup_app in Hnd as (_ & Hnd & _). apply (Hnd (key_of y)); [by apply list_elem_of_fmap_2|]. rewrite <-E. by left. }
  assert (Htot : 0 <= total_cs l) by by apply total_cs_nonneg.
  apply runs_bind. cbn [total_cs foldr] in Hsz. fold (total_cs l) in Hsz.
  eapply runs_mono; [eapply (read_entry_exact x.1 x.2 dtsz _ s m H Hml); try apply Hx; [done|lia]|].
  intros r s1 w (-> & [d ->] & Hml1 & Hso1 & Hsz1 & q & c' & c2 & H1 & Hq & Hb & Hu & Hoth). cbn beta iota.
  replace (1 + zlen l - 1) with (zlen l) by lia.
  assert (Eapp : l0 ++ x :: l = (l0 ++ [x]) ++ l) by by rewrite <-app_assoc.
  eapply runs_mono; [apply (IH (l0 ++ [x]) fuel d s1 _ H1 Hml1 Hsv)|].
  - by rewrite <-Eapp.
  - by eapply holds_snoc.
  - lia.
  - cbn in Hf. lia.
  - intros r s' w (-> & -> & Hso & m' & Hm'). rewrite Eapp. split_and!; [done|done|congruence|by exists m'].
Qed.

Lemma entry_file_long c : 1 <= zlen (entry_file c).
Proof.
  unfold entry_file, dns_file_t. rewrite !zlen_app, !zlen_le_bytes. repeat match goal with |- context [zlen ?x] => pose proof (zlen_nonneg x); generalize dependent (zlen x); intros end. lia.
Qed.

Lemma entries_long l : (length l <= length (mjoin (entry_file <$> l.*1)))%nat.
Proof.
  induction l as [|x l IH]; [done|]. cbn [fmap list_fmap]. change (mjoin (?a :: ?b)) with (a ++ mjoin b). rewrite length_app. cbn [length].
  pose proof (entry_file_long x.1) as H. unfold zlen in H. lia.
Qed.

Lemma holds_size l m s : NoDup (key_of <$> l) → holds l m s → (base.size m <= length l)%nat.
Proof.
  intros Hnd H. rewrite <-(length_fmap key_of l), <-size_dom, <-(size_list_to_set (C := gset key) _ Hnd). apply subseteq_size.
  intros k [p Hp]%elem_of_dom. specialize (H k). rewrite Hp in H. destruct H as (x & _ & Hx & -> & _).
  apply elem_of_list_to_set. by apply list_elem_of_fmap_2.
Qed.

Lemma read_disk_exact l t :
  Forall saved l → NoDup (key_of <$> l) → total_cs l <= purge_limit global → few (zlen l) →
  runs (read_disk_cache global (Some (cachverid ++ le_bytes 8 (zlen l) ++ mjoin (entry_file <$> l.*1)))) (init_cache t [] : state)
    (λ r s' w, r = true ∧ w = [] ∧ in_order s' (rrset_l s') ∧ ∃ m', inv s' m' ∧ holds l m' s').
Proof.
  intros Hsv Hnd Hsz Hf. cbn [read_disk_cache]. apply runs_bind, runs_malloc. intros ok ml Hml. destruct (Hml eq_refl) as [-> ->]. cbn [negb].
  apply runs_bind, runs_modify. match goal with |- runs _ ?x _ => set (s1 := x) end.
  assert (H1 : inv s1 ∅).
  { pose proof (step_permute True _ _ [] false (inv_init t []) (reflexivity _)) as Hst. apply (s_inv _ _ _ _ _ Hst). }
  apply runs_bind. unfold read_file. rewrite (fread_app (zlen cachverid)) by done. rewrite bool_decide_true by done. cbn [negb].
  rewrite (fread_app 8) by done. pose proof (zlen_nonneg l) as Hzl.
  assert (member 0 8 (le_bytes 8 (zlen l)) = zlen l) as ->.
  { member (@nil Z) 8%nat (zlen l) (@nil Z). apply Z.mod_small. unfold few, NRRTOT in Hf. lia. }
  rewrite <-(app_nil_r (mjoin _)).
  eapply runs_mono; [apply (read_entries_exact [] l _ _ _ s1 ∅); try done|].
  - intros k. rewrite lookup_empty. by intros x ?%not_elem_of_nil.
  - rewrite app_nil_r. apply entries_long.
  - intros r s2 w (-> & -> & Hso & m2 & H2 & Hh). cbn [app] in *. apply runs_bind, runs_get. rewrite Hso. cbn [insert_sort s1 set_sort negb when].
    apply runs_bind, runs_bind. eapply runs_mono; [apply sort_rrl_ok; [apply H2|]|].
    { apply (list_few s2 m2 H2). rewrite (i_num _ _ H2). pose proof (holds_size _ _ _ Hnd Hh). unfold few, NRRTOT, zlen in *. lia. }
    intros [] s3 w (-> & l3 & -> & HP & Hord). apply runs_modify, runs_ret. split_and!; [done|done|exact Hord|]. exists m2. split; [|exact Hh].
    pose proof (step_permute True s2 m2 l3 true H2 HP) as Hst. apply (s_inv _ _ _ _ _ Hst).
Qed.

(** ** The entries that are written *)
Lemma saved_list s m L :
  inv s m → NoDup L → (∀ p, p ∈ L → cached m p) → Forall entry_fits (filter (λ c, worth c = true) (cents_of s L)) →
  ∃ l, l.*1 = filter (λ c, worth c = true) (cents_of s L) ∧ Forall saved l ∧ NoDup (key_of <$> l) ∧ total_cs l <= sum_cs (cents s) L ∧
    (∀ x, x ∈ l → ∃ p, p ∈ L ∧ m !! key_of x = Some p ∧ cents s !! p = Some x.1) ∧
    (∀ k p c, p ∈ L → m !! k = Some p → cents s !! p = Some c → worth c = true → ∃ x, x ∈ l ∧ key_of x = k).
Proof.
  intros H. induction L as [|p L IH]; intros Hnd Hc Hfit.
  { exists []. split_and!; [done|constructor|constructor|done|by intros x ?%not_elem_of_nil|by intros k p c ?%not_elem_of_nil]. }
  apply NoDup_cons in Hnd as [Hp Hnd]. destruct (Hc p) as [k Hk]; [by left|]. destruct (inv_cent _ _ _ _ H Hk) as (c & ls & Hpc & Hn & Hls & -> & Hok).
  unfold cents_of in *. cbn [omap list_omap] in *. rewrite Hpc, filter_cons in Hfit. rewrite Hpc, filter_cons. cbn [sum_cs foldr]. fold (sum_cs (cents s) L).
  assert (Ecs : cs_of (cents s) p = cs c) by (unfold cs_of; by rewrite Hpc). pose proof (cs_nonneg _ Hok).
  destruct (decide (worth c = true)) as [Hw|Hw].
  - apply Forall_cons_1 in Hfit as [Hf Hfit]. destruct IH as (l & E & Hsv & Hkeys & Htot & Hin & Hall); [done|by intros q Hq; apply Hc; right|done|].
    exists ((c, ls) :: l). split_and!.
    + cbn. by rewrite E.
    + constructor; [by split|done].
    + rewrite fmap_cons. apply NoDup_cons. split; [|done]. intros (x & Ex & Hx)%list_elem_of_fmap. destruct (Hin x Hx) as (q & Hq & Hkq & _).
      rewrite <-Ex in Hkq. change (key_of (c, ls)) with (fold_name ls) in Hkq. assert (q = p) by congruence. by subst q.
    + cbn. unfold total_cs in Htot. lia.
    + intros x [-> | Hx]%elem_of_cons; [exists p; split_and!; [by left|done|done]|]. destruct (Hin x Hx) as (q & Hq & Hrest). exists q. split; [by right|done].
    + intros k q cq [-> | Hq]%elem_of_cons Hkq Hcq Hwq.
      * exists (c, ls). split; [by left|]. by apply (inv_inj _ _ _ _ p H).
      * destruct (Hall k q cq Hq Hkq Hcq Hwq) as (x & Hx & Ex). exists x. split; [by right|done].
  - destruct IH as (l & E & Hsv & Hkeys & Htot & Hin & Hall); [done|by intros q Hq; apply Hc; right|done|].
    exists l. split_and!; [done|done|done|lia| |].
    + intros x Hx. destruct (Hin x Hx) as (q & Hq & Hrest). exists q. split; [by right|done].
    + intros k q cq [-> | Hq]%elem_of_cons Hkq Hcq Hwq; [|by eapply Hall].
      assert (cq = c) as -> by congruence. done.
Qed.

(** What is found of an entry that was written and read: remote sets with all
    their records, the times to live brought within the limits. *)
Record reloaded c (c2 : dns_cent_t) : Prop := mkReloaded {
  r_name : qname c2 = qname c;
  r_refs : c_ns c2 = c_ns c ∧ c_soa c2 = c_soa c;
  r_flags : ∀ b, Z.ldiff b DF_NOCACHE = b → has (flags c2) b = has (flags c) b;
  r_rr : match rr c with
         | Neg _ t t0 => ∃ e, rr c2 = Neg e (adjust_neg global (flags c) t) t0
         | Sets _ => rr c2 = Sets (arr_of c2) ∧ ∀ i, set_lent None <$> set_at c2 i = adjust_ttl global <$> remote_part (set_at c i)
         end
}.

Lemma reload_reloaded c c2 : reload c c2 → reloaded c c2.
Proof.
  intros (c' & [B1 B2 [B3 B4] B5 _ _] & E). pose proof (f_equal qname E) as E1. pose proof (f_equal c_ns E) as E2. pose proof (f_equal c_soa E) as E3.
  pose proof (f_equal flags E) as E5. pose proof (f_equal rr E) as E4. unfold unlisted, adjusted in *. destruct (rr c) as [x t t0|arr] eqn:Hr.
  - rewrite B5 in *. destruct (rr c2) as [x2 t2 t02|arr2] eqn:Hr2; [|done]. cbn in *. split; [congruence|split; congruence| |rewrite Hr].
    + intros b Hb. rewrite E5, B2. case_if; [by apply has_clear_ne|done].
    + injection E4 as E4 E6. exists x2. by rewrite Hr2, E4, E6, B2.
  - destruct B5 as [B5 B6]. rewrite B5 in *. destruct (rr c2) as [x2 t2 t02|arr2] eqn:Hr2; [done|]. cbn in *.
    split; [congruence|split; congruence|intros b Hb; congruence|rewrite Hr]. split; [by rewrite (arr_of_sets _ _ Hr2)|]. intros i.
    assert (set_lent None <$> set_at c2 i = (λ r, set_lent None (adjust_ttl global r)) <$> set_at c' i) as ->.
    { apply adjusted_at. unfold unlisted, adjusted. by rewrite B5, Hr2. }
    rewrite B6. destruct (set_at c i) as [r|]; [|done]. cbn. case_if; [done|]. cbn. f_equal. rewrite adjust_unlist. done.
Qed.

(** The entry under a name. *)
Definition found s (ls : list (list Z)) : option dns_cent_t :=
  match nt_lookup (qn s) (wire ls) (hash_buckets s) with Some (Some p, _) => cents s !! p | _ => None end.

Lemma found_at s m ls : inv s m → name_ok ls → found s ls = m !! fold_name ls ≫= λ p, cents s !! p.
Proof.
  intros H Hls. unfold found. destruct (nt_lookup_ok _ _ _ _ (i_table _ _ H) Hls) as (l & -> & _). by destruct (m !! fold_name ls).
Qed.

(** The system lets the file be written: no lock fails, there is a file. *)
Definition works (e : system) : bool := lock_rw e && unlock_rw e && lock_r e && opened e && closed e.

(** If only local data are left, nothing is written. *)
Lemma nothing_saved s m : inv s m → only_locals s m → Forall entry_fits (saved_of s) → saved_of s = [].
Proof.
  intros H Ho Hfit. unfold saved_of, cents_of. destruct (filter _ _) as [|c l] eqn:E; [done|]. exfalso.
  unfold saved_of, cents_of in Hfit. rewrite E in Hfit. apply Forall_cons_1 in Hfit as [Hf _]. pose proof (e_local _ Hf) as Hloc.
  assert (c ∈ filter (λ c, worth c = true) (omap (λ p, cents s !! p) (nt_entries (hash_buckets s)))) as Hc by (rewrite E; by left).
  apply list_elem_of_filter in Hc as [Hw Hc]. apply list_elem_of_omap in Hc as (p & Hp & Hc).
  apply (entries_cached _ _ _ H) in Hp as [k Hk]. destruct (rr c) as [x t t0|arr] eqn:Hr.
  - pose proof (Ho k p c None Hk Hc) as Hl. unfold worth in Hw. rewrite Hr in Hw. unfold present, local_at in Hl. cbn in Hl.
    rewrite Hl in Hloc; [done|eauto].
  - destruct (worth_set _ _ Hr Hw) as (j & r & Hj). destruct (set_at c j) as [r0|] eqn:Hj0; [|done]. cbn in Hj.
    pose proof (Ho k p c (Some j) Hk Hc) as Hl. unfold present, local_at in Hl. rewrite Hj0, Hloc, orb_false_r in Hl.
    rewrite Hl in Hj; [done|eauto].
Qed.

Lemma length_cents_of s L : (length (cents_of s L) <= length L)%nat.
Proof. unfold cents_of. induction L as [|p L IH]; [done|]. cbn [omap list_omap]. destruct (cents s !! p); cbn [length]; unfold omap in *; lia. Qed.

Lemma saved_of_list s m : inv s m → Forall entry_fits (saved_of s) →
  ∃ l, l.*1 = saved_of s ∧ Forall saved l ∧ NoDup (key_of <$> l) ∧ total_cs l <= cache_size s ∧ zlen l <= ent_num s ∧
    (∀ x, x ∈ l → ∃ p, m !! key_of x = Some p ∧ cents s !! p = Some x.1) ∧
    (∀ k p c, m !! k = Some p → cents s !! p = Some c → worth c = true → ∃ x, x ∈ l ∧ key_of x = k).
Proof.
  intros H Hfit. pose proof (nt_entries_ok _ _ _ (i_table _ _ H)) as HP. destruct (inv_sizes _ _ H) as [Esz Enum].
  destruct (saved_list s m (nt_entries (hash_buckets s)) H) as (l & E & Hsv & Hnd & Htot & Hin & Hall).
  - rewrite HP. apply NoDup_fmap_2_strong; [|apply NoDup_map_to_list]. intros [k p] [k' p'] Hk%elem_of_map_to_list Hk'%elem_of_map_to_list. cbn.
    intros <-. by rewrite (inv_inj _ _ _ _ _ H Hk Hk').
  - intros p Hp. by apply (entries_cached _ _ _ H).
  - done.
  - exists l. split_and!; [done|done|done|lia| | |].
    + rewrite Enum. unfold zlen. rewrite <-(length_fmap fst l), E. pose proof (length_filter (λ c, worth c = true) (cents_of s (nt_entries (hash_buckets s)))).
      pose proof (length_cents_of s (nt_entries (hash_buckets s))). lia.
    + intros x Hx. destruct (Hin x Hx) as (p & _ & Hp). by exists p.
    + intros k p c Hk Hc Hw. apply (Hall k p c); try done. apply (entries_cached _ _ _ H). by exists k.
Qed.
End Disk.

(** ** An example *)
Definition ex_system : system := mkSystem true true true true true 1000.
Definition ex_written : state :=
  match write_disk_cache ex_global ex_system (ex_state 10) with Some (_, s', _) => s' | None => init_cache 0 [] end.
Definition ex_saved (x t : Z) (l : positive) (d : list Z) : dns_cent_t :=
  mkCent (wire (ex_name x)) 171 1 0 (Sets (Some (mkSet (Some l) 120 t 0 [d]) :: replicate 7 None)) cundef cundef.

Lemma ex_fits x t l d : is_time t → is_u16 (zlen d) → entry_fits (ex_saved x t l d).
Proof.
  intros Ht Hd. split; [done|done|done|done|]. intros i r Hi%set_at_lookup _. cbn in Hi. destruct i as [|i]; cbn in Hi.
  - injection Hi as <-. split; [done|done|done|done|apply NoDup_singleton|by apply Forall_singleton].
  - by apply (lookup_replicate_1 7) in Hi as [? _].
Qed.

Lemma ex_all_fit : Forall entry_fits (saved_of ex_written).
Proof.
  assert (saved_of ex_written = [ex_saved 98 1000 1 [10; 0; 0; 2]; ex_saved 99 900 2 [10; 0; 0; 3]]) as -> by (vm_compute; reflexivity).
  apply Forall_cons. split; [by apply ex_fits|]. apply Forall_singleton. by apply ex_fits.
Qed.

(** ** Properties *)

(** C11: What [write_disk_cache] writes is read back by [read_disk_cache] at the
    next start, whatever the time is: under every name the new cache holds what
    the old one held (after it was purged to its permanent size), without local
    sets, with all records in their order, flags, times and references, the
    times to live brought within the configured limits; nothing else is in it,
    and nothing is dropped for lack of space.  No message is given, and the list
    is sorted by time. *)
Theorem disk_roundtrip global t ml s e r s' w t' :
  reachable global t ml s → few (ent_num s) → 0 <= perm_cache global → works e = true →
  write_disk_cache global e s = Some (r, s', w) → zlen (cache_file s') <= space e → Forall entry_fits (saved_of s') →
  ∃ file s2, r = Some file ∧ w = [] ∧ read_disk_cache global (Some file) (init_cache t' []) = Some (true, s2, []) ∧ in_order s2 (rrset_l s2) ∧
    ∀ ls, name_ok ls →
      match found s' ls with
      | Some c => if worth c then ∃ c2, found s2 ls = Some c2 ∧ reloaded global c c2 else found s2 ls = None
      | None => found s2 ls = None
      end.
Proof.
  intros [m H]%reachable_cache_inv Hf Hperm He Hwr Hsp Hfit. pose proof (zlen_nonneg (cache_file s')) as Hz.
  pose proof (write_disk_cache_runs global e s m H Hf ltac:(lia)) as Hrun. unfold runs in Hrun. rewrite Hwr in Hrun.
  destruct Hrun as (_ & m' & Hst & Hsub & Hok). destruct (Hok He Hsp) as (-> & -> & Hend). pose proof (s_inv _ _ _ _ _ Hst) as H'.
  destruct (saved_of_list s' m' H' Hfit) as (l & El & Hsv & Hnd & Htot & Hnum & Hin & Hall).
  assert (Hlim : total_cs l <= purge_limit global).
  { unfold purge_limit, MCSZ. destruct Hend as [Hend|Hloc]; [lia|]. rewrite (nothing_saved s' m' H' Hloc Hfit) in El.
    apply fmap_nil_inv in El as ->. cbn. lia. }
  assert (Hfew : few (zlen l)).
  { rewrite (i_num _ _ H) in Hf. rewrite (i_num _ _ H') in Hnum. pose proof (map_subseteq_size _ _ Hsub). unfold few, NRRTOT in *. lia. }
  destruct (runs_some _ _ _ (read_disk_exact global l t' Hsv Hnd Hlim Hfew)) as (b & s2 & w & E & -> & -> & Hord & m2 & H2 & Hh).
  exists (cache_file s'), s2. split_and!; [done|done| |done|].
  - unfold cache_file. rewrite <-El. unfold zlen. rewrite length_fmap. exact E.
  - intros ls Hls. rewrite (found_at s' m' ls H' Hls), (found_at s2 m2 ls H2 Hls). specialize (Hh (fold_name ls)).
    destruct (m2 !! fold_name ls) as [p2|] eqn:Ek2.
    + destruct Hh as (x & c2 & Hx & Ek & Hc2 & Hre). destruct (Hin x Hx) as (p & Hp & Hc). rewrite Ek, Hp. cbn. rewrite Hc.
      rewrite Forall_forall in Hsv. rewrite (v_worth _ (Hsv x Hx)). exists c2. split; [done|]. by apply reload_reloaded.
    + cbn. destruct (m' !! fold_name ls) as [p|] eqn:Ek; [|done]. cbn. destruct (cents s' !! p) as [c|] eqn:Hc; [|done].
      destruct (worth c) eqn:Hw; [|done]. destruct (Hall _ _ _ Ek Hc Hw) as (x & Hx & Ex). by destruct (Hh x Hx).
Qed.

Lemma disk_roundtrip_witness : ∃ file s2 c2, read_disk_cache ex_global (Some file) (init_cache 2000 []) = Some (true, s2, []) ∧
  found s2 (ex_name 98) = Some c2 ∧ reloaded ex_global (ex_saved 98 1000 1 [10; 0; 0; 2]) c2.
Proof.
  destruct (write_disk_cache ex_global ex_system (ex_state 10)) as [[[r s'] w]|] eqn:E; [|by vm_compute in E].
  assert (s' = ex_written) as -> by (unfold ex_written; by rewrite E).
  destruct (disk_roundtrip ex_global 1000 [] (ex_state 10) ex_system r ex_written w 2000 (proj1 ex_reachable_list)) as (file & s2 & _ & _ & Er & _ & Hfound).
  - vm_compute. reflexivity.
  - done.
  - reflexivity.
  - exact E.
  - vm_compute. discriminate.
  - exact ex_all_fit.
  - exists file, s2. specialize (Hfound (ex_name 98) (ex_name_ok 98)).
    assert (found ex_written (ex_name 98) = Some (ex_saved 98 1000 1 [10; 0; 0; 2])) as Ef by (vm_compute; reflexivity).
    rewrite Ef in Hfound. destruct Hfound as (c2 & Hc2 & Hre). exists c2. exact (conj Er (conj Hc2 Hre)).
Defined.
End DnsCacheDisk.
