(* ===== verification/CacheLock.v ===== *)
(** * Lock of the DNS cache ([pdnsd/src/cache.c])

    Threads that answer queries read the cache together or write it alone.  The
    lock is a mutex, counters of the threads that hold and that want it, and
    two condition variables.  A thread holds the mutex from where it locks it
    (or wakes up from a wait) to where it unlocks it (or waits), so such a piece
    of a function is one step of the system; the functions here are these
    pieces.  What a piece does to the condition variables are its effects.

    A sleeping thread wakes up when it is signalled, for no reason, or, in
    [timedlock_cache_rw], when its time is over.  A signal wakes one thread if
    one sleeps, a broadcast all; a thread whose time is over takes no signal. *)

From S2P Require Import Prelude.

Module CacheLock.

Record lock := mkLock {
  use_cache_lock : bool;
  cache_w_lock : bool;
  cache_r_lock : Z;
  r_pend : Z;
  rw_pend : Z;
  r_susp : bool
}.

Definition SUSP_THRESH (n : Z) : Z := Z.quot n 2 + 2.
Definition SOFTLOCK_MAXTRIES : Z := 1000.

Definition set_w (b : bool) (l : lock) : lock := mkLock (use_cache_lock l) b (cache_r_lock l) (r_pend l) (rw_pend l) (r_susp l).
Definition set_r (n : Z) (l : lock) : lock := mkLock (use_cache_lock l) (cache_w_lock l) n (r_pend l) (rw_pend l) (r_susp l).
Definition set_r_pend (n : Z) (l : lock) : lock := mkLock (use_cache_lock l) (cache_w_lock l) (cache_r_lock l) n (rw_pend l) (r_susp l).
Definition set_rw_pend (n : Z) (l : lock) : lock := mkLock (use_cache_lock l) (cache_w_lock l) (cache_r_lock l) (r_pend l) n (r_susp l).
Definition set_susp (b : bool) (l : lock) : lock := mkLock (use_cache_lock l) (cache_w_lock l) (cache_r_lock l) (r_pend l) (rw_pend l) b.

(** [pthread_cond_signal(&rw_cond)], [pthread_cond_broadcast(&r_cond)] *)
Inductive call := signal_rw | broadcast_r.
Abbreviation act := (M lock call).

(** A piece of a function ends with the lock, without it, or in a wait. *)
Inductive result := Got | Failed | Waits.

(** ** The functions *)

(** The condition of the loop of [lock_cache_r], and what follows the loop. *)
Definition r_loop : act result :=
  s ← get;
  let susp := if rw_pend s >? SUSP_THRESH (r_pend s) then true else r_susp s in
  modify (set_susp susp);;
  if susp || cache_w_lock s then mret Waits
  else
    modify (λ s, set_r (cache_r_lock s + 1) s);;
    modify (λ s, set_r_pend (r_pend s - 1) s);;
    mret Got.

Definition lock_cache_r : act result :=
  s ← get;
  if negb (use_cache_lock s) then mret Got
  else modify (λ s, set_r_pend (r_pend s + 1) s);; r_loop.

Definition unlock_cache_r : act result :=
  s ← get;
  if negb (use_cache_lock s) then mret Got
  else
    when (cache_r_lock s >? 0) (modify (λ s, set_r (cache_r_lock s - 1) s));;
    s ← get;
    when (cache_r_lock s =? 0) (emit signal_rw);;
    mret Got.

(** The loop that [lock_cache_rw], [timedlock_cache_rw] and
    [yield_lock_cache_rw] have, and what follows it. *)
Definition rw_loop : act result :=
  s ← get;
  if cache_w_lock s || negb (cache_r_lock s =? 0) then mret Waits
  else
    modify (set_w true);;
    modify (λ s, set_rw_pend (rw_pend s - 1) s);;
    mret Got.

Definition lock_cache_rw : act result :=
  s ← get;
  if negb (use_cache_lock s) then mret Got
  else modify (λ s, set_rw_pend (rw_pend s + 1) s);; rw_loop.

Definition timedlock_cache_rw : act result :=
  s ← get;
  if negb (use_cache_lock s) then mret Failed
  else modify (λ s, set_rw_pend (rw_pend s + 1) s);; rw_loop.

(** [cleanup_return] of [timedlock_cache_rw] *)
Definition timed_out : act result :=
  modify (λ s, set_rw_pend (rw_pend s - 1) s);; mret Failed.

Definition release_rw : act unit :=
  modify (set_w false);;
  modify (set_susp false);;
  s ← get;
  if (r_pend s =? 0) || (rw_pend s >? SUSP_THRESH (r_pend s)) then emit signal_rw else emit broadcast_r.

Definition unlock_cache_rw : act result :=
  s ← get;
  if negb (use_cache_lock s) then mret Got else release_rw;; mret Got.

(** [yield_lock_cache_rw] gives up the lock, sleeps and takes it again.  It
    looks at [r_pend] and [rw_pend] outside of the mutex and may do nothing; as
    what it sees may be old, it is free to go on. *)
Definition yield_release : act result := release_rw;; mret Got.
Definition yield_return : act result := modify (λ s, set_rw_pend (rw_pend s + 1) s);; rw_loop.

(** The functions that are used at the end of the program: their start, and one
    try, when the mutex was obtained. *)
Definition soft_start : act result :=
  s ← get;
  if negb (use_cache_lock s) then mret Failed else mret Got.
Definition softlock_cache_r : act result :=
  s ← get;
  if negb (cache_w_lock s) then modify (λ s, set_r (cache_r_lock s + 1) s);; mret Got else mret Failed.
Definition softunlock_cache_r : act result :=
  s ← get;
  if negb (use_cache_lock s) then mret Failed
  else when (cache_r_lock s >? 0) (modify (λ s, set_r (cache_r_lock s - 1) s));; mret Got.
Definition softlock_cache_rw : act result :=
  s ← get;
  if negb (cache_w_lock s || negb (cache_r_lock s =? 0)) then modify (set_w true);; mret Got else mret Failed.
Definition softunlock_cache_rw : act result :=
  s ← get;
  if negb (use_cache_lock s) then mret Failed else modify (set_w false);; mret Got.

(** ** Threads *)

(** Where a thread is: outside, asleep, awake before its piece of code goes
    on, holding the lock, in the pause of [yield_lock_cache_rw], between two
    of the tries of a soft lock; [timed] in [timedlock_cache_rw]. *)
Inductive status :=
| Idle
| SleepR | WokenR | Reading
| SleepW (timed : bool) | WokenW (timed : bool) | TimedOut | Writing
| Yielded
| SoftR (tr : Z) | SoftW (tr : Z).

(** Wanting the lock, waking up without cause, going on, and the soft locks. *)
Inductive kind := Ask | Stray | Work | Soft.

Definition holds (yes no : status) (r : result) : status :=
  match r with Got => yes | Failed => Idle | Waits => no end.
Definition tried (yes : status) (again : Z → status) (tr : Z) (r : result) : status :=
  match r with Got => yes | _ => if tr + 1 >=? SOFTLOCK_MAXTRIES then Idle else again (tr + 1) end.
Definition to (a : status) (_ : result) : status := a.

(** What a thread can do next, and where it is then.  A try of a soft lock, and
    the unlocking, do nothing when the mutex is not obtained. *)
Definition moves (a : status) : list (kind * act result * (result → status)) :=
  match a with
  | Idle =>
      [(Ask, lock_cache_r, holds Reading SleepR); (Ask, lock_cache_rw, holds Writing (SleepW false));
       (Ask, timedlock_cache_rw, holds Writing (SleepW true)); (Soft, soft_start, holds (SoftR 0) Idle); (Soft, soft_start, holds (SoftW 0) Idle)]
  | SleepR => [(Stray, mret Got, to WokenR)]
  | WokenR => [(Work, r_loop, holds Reading SleepR)]
  | Reading => [(Work, unlock_cache_r, to Idle); (Soft, softunlock_cache_r, to Idle)]
  | SleepW timed => (Stray, mret Got, to (WokenW timed)) :: if timed then [(Work, mret Got, to TimedOut)] else []
  | WokenW timed => [(Work, rw_loop, holds Writing (SleepW timed))]
  | TimedOut => [(Work, timed_out, to Idle)]
  | Writing => [(Work, unlock_cache_rw, to Idle); (Ask, yield_release, to Yielded); (Soft, softunlock_cache_rw, to Idle)]
  | Yielded => [(Work, yield_return, holds Writing (SleepW false))]
  | SoftR tr => [(Soft, softlock_cache_r, tried Reading SoftR tr); (Soft, mret Failed, to Idle)]
  | SoftW tr => [(Soft, softlock_cache_rw, tried Writing SoftW tr); (Soft, mret Failed, to Idle)]
  end.

Definition asleep_w (a : status) : bool := match a with SleepW _ => true | _ => false end.
Definition wake_r (a : status) : status := match a with SleepR => WokenR | _ => a end.

Inductive deliver : list call → list status → list status → Prop :=
| deliver_done t : deliver [] t t
| deliver_nobody c t t' : Forall (λ a, asleep_w a = false) t → deliver c t t' → deliver (signal_rw :: c) t t'
| deliver_one j b c t t' : t !! j = Some (SleepW b) → deliver c (<[j := WokenW b]> t) t' → deliver (signal_rw :: c) t t'
| deliver_all c t t' : deliver c (wake_r <$> t) t' → deliver (broadcast_r :: c) t t'.

Record sys := mkSys { lk : lock; thr : list status }.

Inductive step (k : kind) (s s' : sys) : Prop :=
| step_intro i a m f r c : thr s !! i = Some a → (k, m, f) ∈ moves a → m (lk s) = Some (r, lk s', c) →
    deliver c (<[i := f r]> (thr s)) (thr s') → step k s s'.

Definition init (n : nat) : sys := mkSys (mkLock true false 0 0 0 false) (replicate n Idle).

Inductive reachable (ok : kind → sys → Prop) (n : nat) : sys → Prop :=
| reach_init : reachable ok n (init n)
| reach_step k s s' : reachable ok n s → step k s s' → ok k s' → reachable ok n s'.

(** ** Counting threads *)
Definition same (a b : status) : bool :=
  match a, b with
  | Idle, Idle | SleepR, SleepR | WokenR, WokenR | Reading, Reading | TimedOut, TimedOut | Writing, Writing | Yielded, Yielded => true
  | SleepW x, SleepW y | WokenW x, WokenW y => eqb x y
  | SoftR x, SoftR y | SoftW x, SoftW y => x =? y
  | _, _ => false
  end.

Lemma same_eq a b : same a b = true ↔ a = b.
Proof.
  split.
  - destruct a, b; cbn; try done; intros H; first [apply eqb_prop in H|apply Z.eqb_eq in H]; congruence.
  - intros <-. destruct a; cbn; try done; first [apply eqb_reflx|apply Z.eqb_refl].
Qed.

#[export] Instance status_eq : EqDecision status.
Proof. solve_decision. Defined.

Lemma b2z_01 b : 0 <= Z.b2z b <= 1.
Proof. by destruct b. Qed.

Fixpoint num (a : status) (l : list status) : Z :=
  match l with [] => 0 | b :: l' => Z.b2z (same a b) + num a l' end.

Lemma num_nonneg a l : 0 <= num a l.
Proof. induction l as [|b l IH]; cbn; [done|]. pose proof (b2z_01 (same a b)). cbn in *. lia. Qed.

Lemma num_insert a i x y l : l !! i = Some x → num a (<[i := y]> l) = num a l + Z.b2z (same a y) - Z.b2z (same a x).
Proof.
  revert i. induction l as [|b l IH]; intros [|i] H; simpl in *; [done..| |].
  - injection H as ->. lia.
  - rewrite (IH i H). lia.
Qed.

Lemma num_pos i a l : l !! i = Some a → 1 <= num a l.
Proof.
  revert i. induction l as [|b l IH]; intros [|i] H; simpl in *; [done..| |].
  - injection H as ->. rewrite (proj2 (same_eq a a) eq_refl). pose proof (num_nonneg a l). cbn. lia.
  - pose proof (IH i H). pose proof (b2z_01 (same a b)). simpl in *. lia.
Qed.

Lemma num_find a l : 1 <= num a l → ∃ i, l !! i = Some a.
Proof.
  induction l as [|b l IH]; cbn; [lia|]. destruct (same a b) eqn:E.
  - intros _. apply same_eq in E as ->. by exists 0%nat.
  - cbn. intros H. destruct IH as [i Hi]; [lia|]. by exists (S i).
Qed.

Lemma num_unique a l i j : num a l <= 1 → l !! i = Some a → l !! j = Some a → i = j.
Proof.
  intros H Hi Hj. destruct (decide (i = j)) as [|Hne]; [done|]. pose proof (num_insert a i a Idle l Hi) as E.
  rewrite (proj2 (same_eq a a) eq_refl) in E.
  destruct (decide (a = Idle)) as [->|Hn].
  - pose proof (num_insert Idle i Idle Writing l Hi) as E'. pose proof (num_pos j Idle (<[i := Writing]> l)) as Hp.
    rewrite list_lookup_insert_ne in Hp by done. specialize (Hp Hj). cbn in E'. lia.
  - assert (same a Idle = false) as En by (destruct (same a Idle) eqn:X; [by apply same_eq in X|done]). rewrite En in E.
    pose proof (num_pos j a (<[i := Idle]> l)) as Hp. rewrite list_lookup_insert_ne in Hp by done. specialize (Hp Hj). cbn in E. lia.
Qed.

Lemma num_wake a l : num a (wake_r <$> l) =
  match a with SleepR => 0 | WokenR => num WokenR l + num SleepR l | _ => num a l end.
Proof. induction l as [|b l IH]; [by destruct a|]. cbn [fmap list_fmap num]. rewrite IH. destruct a, b; cbn; lia. Qed.

Lemma num_init a n : a ≠ Idle → num a (replicate n Idle) = 0.
Proof. intros Ha. induction n as [|n IH]; cbn; [done|]. rewrite IH. destruct a; done. Qed.

Lemma num_none l : Forall (λ a, asleep_w a = false) l → num (SleepW false) l = 0 ∧ num (SleepW true) l = 0.
Proof. induction 1 as [|b l Hb _ [IH1 IH2]]; cbn; [done|]. rewrite IH1, IH2. by destruct b. Qed.

Lemma num_none_inv l : num (SleepW false) l = 0 → num (SleepW true) l = 0 → Forall (λ a, asleep_w a = false) l.
Proof.
  intros H1 H2. apply Forall_forall. intros a [i Hi]%list_elem_of_lookup. destruct a as [| | | |[] |[]| | | | |]; try done.
  - pose proof (num_pos _ _ _ Hi). lia.
  - pose proof (num_pos _ _ _ Hi). lia.
Qed.

(** ** Exclusion *)
Record counted (s : sys) : Prop := mkCounted {
  c_use : use_cache_lock (lk s) = true;
  c_r : cache_r_lock (lk s) = num Reading (thr s);
  c_w : Z.b2z (cache_w_lock (lk s)) = num Writing (thr s);
  c_rp : r_pend (lk s) = num SleepR (thr s) + num WokenR (thr s);
  c_rwp : rw_pend (lk s) = num (SleepW false) (thr s) + num (SleepW true) (thr s) +
            num (WokenW false) (thr s) + num (WokenW true) (thr s) + num TimedOut (thr s);
  c_excl : cache_w_lock (lk s) = true → cache_r_lock (lk s) = 0
}.

(** What waking up changes. *)
Lemma deliver_keeps c t t' : deliver c t t' →
  num Reading t' = num Reading t ∧ num Writing t' = num Writing t ∧ num TimedOut t' = num TimedOut t ∧ num Yielded t' = num Yielded t ∧
  num SleepR t' + num WokenR t' = num SleepR t + num WokenR t ∧
  ∀ b, num (SleepW b) t' + num (WokenW b) t' = num (SleepW b) t + num (WokenW b) t.
Proof.
  induction 1 as [t|c t t' _ _ IH|j b c t t' Hj _ IH|c t t' _ IH]; [by split_and!|done| |].
  - destruct IH as (-> & -> & -> & -> & -> & IH). rewrite !(num_insert _ j (SleepW b) _ t) by done. split_and!; try (cbn; lia).
    intros b'. rewrite IH, !(num_insert _ j (SleepW b) _ t) by done. cbn. destruct b, b'; cbn; lia.
  - destruct IH as (-> & -> & -> & -> & -> & IH). rewrite !num_wake. split_and!; try lia. intros b. by rewrite IH, !num_wake.
Qed.

(** The numbers of threads after one of them has moved. *)
Ltac moved i Hi :=
  repeat match goal with
  | H : context [num ?x (<[i := _]> ?l)] |- _ => rewrite (num_insert x i _ _ l Hi) in H; cbn [same eqb Z.b2z] in H
  | |- context [num ?x (<[i := _]> ?l)] => rewrite (num_insert x i _ _ l Hi); cbn [same eqb Z.b2z]
  end.

(** Case analysis on the piece of code that runs. *)
Ltac pieces Hm Hr :=
  cbn [moves] in Hm; repeat (apply elem_of_cons in Hm as [[= -> -> ->]|Hm]); try (by apply elem_of_nil in Hm);
  revert Hr; unfold lock_cache_r, unlock_cache_r, lock_cache_rw, timedlock_cache_rw, timed_out, unlock_cache_rw, yield_release, yield_return,
    release_rw, soft_start, softlock_cache_r, softunlock_cache_r, softlock_cache_rw, softunlock_cache_rw, r_loop, rw_loop; mrun.

Lemma counted_step k s s' : step k s s' → counted s → counted s'.
Proof.
  intros [i a m f r c Hi Hm Hr Hd] [Hu H1 H2 H3 H4 H5]. destruct s as [[u w nr rp rwp su] t], s' as [l' t']; cbn in *. subst u.
  apply deliver_keeps in Hd as (D1 & D2 & D3 & D4 & D5 & D6). pose proof (D6 false) as D7. pose proof (D6 true) as D8. clear D6.
  pose proof (num_nonneg Reading t) as P1. pose proof (num_nonneg Writing t) as P2. pose proof (num_pos i a t Hi) as P3.
  destruct a as [| | | |b|b| | | |tr|tr]; try destruct b; destruct w, su; pieces Hm Hr; repeat (case_if; cbn);
    intros [= <- <- <-]; unfold to, holds, tried in *; cbn in *; try destruct (tr + 1 >=? SOFTLOCK_MAXTRIES);
    moved i Hi; split; cbn; try done; lia.
Qed.

(** ** No thread is forgotten *)
Definition ordinary (t : list status) : Z := num (SleepW false) t + num (WokenW false) t.
Definition timed (t : list status) : Z := num (SleepW true) t + num (WokenW true) t + num TimedOut t.
Definition soft (a : status) : bool := match a with SoftR _ | SoftW _ => true | _ => false end.

(** While readers are suspended or asleep a writer is there, which wakes them
    when it is done.  While the lock is free and a writer is asleep, a thread
    is awake that will take the lock: a writer, or a reader that is not
    suspended. *)
Record lively (s : sys) : Prop := mkLively {
  l_counted : counted s;
  l_timed : timed (thr s) <= 1;
  l_susp : r_susp (lk s) = true → cache_w_lock (lk s) = true ∨ 1 <= ordinary (thr s);
  l_readers : 1 <= num SleepR (thr s) → cache_w_lock (lk s) = true ∨ 1 <= ordinary (thr s);
  l_writers : cache_w_lock (lk s) = false → cache_r_lock (lk s) = 0 → 1 <= num (SleepW false) (thr s) + num (SleepW true) (thr s) →
    1 <= num (WokenW false) (thr s) + num (WokenW true) (thr s) ∨
    (1 <= num WokenR (thr s) ∧ r_susp (lk s) = false ∧ rw_pend (lk s) <= SUSP_THRESH (r_pend (lk s)));
  l_hard : Forall (λ a, soft a = false) (thr s)
}.

Lemma thresh_two n : 0 <= n → 2 <= SUSP_THRESH n.
Proof. intros H. unfold SUSP_THRESH. pose proof (Z.quot_pos n 2). lia. Qed.
Lemma thresh_mono n m : n <= m → SUSP_THRESH n <= SUSP_THRESH m.
Proof. intros H. unfold SUSP_THRESH. pose proof (Z.quot_le_mono n m 2). lia. Qed.

Lemma deliver_none t t' : deliver [] t t' → t' = t.
Proof. by inversion 1. Qed.

Lemma deliver_signal t t' : deliver [signal_rw] t t' →
  (t' = t ∧ num (SleepW false) t = 0 ∧ num (SleepW true) t = 0) ∨
  (1 <= num (WokenW false) t' + num (WokenW true) t' ∧ num SleepR t' = num SleepR t ∧ num WokenR t' = num WokenR t).
Proof.
  inversion 1 as [|? ? ? Hn Hd|j b ? ? ? Hj Hd|]; subst; apply deliver_none in Hd as ->; [left|right].
  - split; [done|by apply num_none].
  - rewrite !(num_insert _ j (SleepW b) _ t Hj). pose proof (num_nonneg (WokenW false) t). pose proof (num_nonneg (WokenW true) t).
    destruct b; cbn; lia.
Qed.

Lemma deliver_broadcast t t' : deliver [broadcast_r] t t' → t' = wake_r <$> t.
Proof. inversion 1 as [| | |? ? ? Hd]; subst. by apply deliver_none in Hd as ->. Qed.

Lemma hard_deliver c t t' : deliver c t t' → Forall (λ a, soft a = false) t → Forall (λ a, soft a = false) t'.
Proof.
  induction 1 as [t|c t t' _ _ IH|j b c t t' Hj _ IH|c t t' _ IH]; intros H; [done|by apply IH| |].
  - apply IH. by apply Forall_insert.
  - apply IH. apply Forall_fmap. eapply Forall_impl; [done|]. by intros [].
Qed.

Lemma hard_step k s s' : step k s s' → k ≠ Soft → Forall (λ a, soft a = false) (thr s) → Forall (λ a, soft a = false) (thr s').
Proof.
  intros [i a m f r c Hi Hm _ Hd] Hk H. eapply hard_deliver; [done|]. apply Forall_insert; [done|].
  destruct a as [| | | |b|b| | | |tr|tr]; try destruct b; cbn [moves] in Hm;
    repeat (apply elem_of_cons in Hm as [[= -> -> ->]|Hm]); try (by apply elem_of_nil in Hm); try done; by destruct r.
Qed.

(** The numbers of threads are not negative. *)
Ltac naturals t :=
  pose proof (num_nonneg SleepR t); pose proof (num_nonneg WokenR t); pose proof (num_nonneg Reading t); pose proof (num_nonneg Writing t);
  pose proof (num_nonneg (SleepW false) t); pose proof (num_nonneg (SleepW true) t); pose proof (num_nonneg (WokenW false) t);
  pose proof (num_nonneg (WokenW true) t); pose proof (num_nonneg TimedOut t).

(** The numbers of threads after the calls of a piece of code. *)
Ltac delivered Hd :=
  lazymatch type of Hd with
  | deliver [] _ ?t' => apply deliver_none in Hd; subst t'
  | deliver [broadcast_r] _ ?t' => apply deliver_broadcast in Hd; subst t'; rewrite ?num_wake in *
  | deliver [signal_rw] _ ?t' =>
      let D := fresh "D" in
      pose proof (deliver_keeps _ _ _ Hd) as D; apply deliver_signal in Hd as [(-> & Hd & ?)|(Hd & ? & ?)];
      [clear D|destruct D as (? & ? & ? & ? & ? & D); pose proof (D false); pose proof (D true); clear D; naturals t']
  end.

Lemma lively_step k s s' : step k s s' → k ≠ Soft → timed (thr s') <= 1 → lively s → lively s'.
Proof.
  intros Hs Hk Ht [Hc L1 L2 L3 L4 L5]. pose proof (counted_step _ _ _ Hs Hc) as Hc'. pose proof (hard_step _ _ _ Hs Hk L5) as Hh.
  enough (P : (r_susp (lk s') = true → cache_w_lock (lk s') = true ∨ 1 <= ordinary (thr s')) ∧
    (1 <= num SleepR (thr s') → cache_w_lock (lk s') = true ∨ 1 <= ordinary (thr s')) ∧
    (cache_w_lock (lk s') = false → cache_r_lock (lk s') = 0 → 1 <= num (SleepW false) (thr s') + num (SleepW true) (thr s') →
      1 <= num (WokenW false) (thr s') + num (WokenW true) (thr s') ∨
      (1 <= num WokenR (thr s') ∧ r_susp (lk s') = false ∧ rw_pend (lk s') <= SUSP_THRESH (r_pend (lk s')))))
    by (destruct P as (P1 & P2 & P3); by split).
  destruct Hs as [i a m f r c Hi Hm Hr Hd], Hc as [Hu C1 C2 C3 C4 C5], Hc' as [_ C1' C2' C3' C4' C5'].
  destruct s as [[u w nr rp rwp su] t], s' as [l' t']; cbn in *. subst u. naturals t. pose proof (num_pos i a t Hi).
  pose proof (thresh_two rp ltac:(lia)). pose proof (thresh_mono rp (rp + 1) ltac:(lia)).
  unfold ordinary, timed in *.
  destruct a as [| | | |b|b| | | |tr|tr]; try destruct b; destruct w, su; pieces Hm Hr; try done; repeat (case_if; cbn);
    intros [= <- <- <-]; unfold to, holds in *; cbn in *; delivered Hd; moved i Hi;
    split_and!; intros; try done; try (by left); lia.
Qed.

Lemma lively_init n : lively (init n).
Proof.
  split; [split|..]; unfold ordinary, timed; cbn; rewrite ?num_init by done; try done; try lia. by apply Forall_replicate.
Qed.

(** ** Work comes to an end *)
Definition todo (t : list status) : Z :=
  2 * (num SleepR t + num WokenR t + num (SleepW false) t + num (SleepW true) t + num (WokenW false) t + num (WokenW true) t) +
  num Reading t + num Writing t + num TimedOut t + 3 * num Yielded t.
Definition awake (t : list status) : Z := num WokenR t + num (WokenW false) t + num (WokenW true) t.
Definition left_to_do (t : list status) : Z := todo t * (zlen t + 1) + awake t.

Lemma todo_bound t : 0 <= awake t <= zlen t ∧ 0 <= todo t <= 3 * zlen t.
Proof.
  unfold todo, awake. induction t as [|a t IH]; [done|]. rewrite zlen_cons. cbn [num]. destruct a as [| | | |[]|[]| | | | |]; cbn; lia.
Qed.

Lemma deliver_zlen c t t' : deliver c t t' → zlen t' = zlen t.
Proof.
  unfold zlen. induction 1 as [t|c t t' _ _ IH|j b c t t' _ _ IH|c t t' _ IH]; [done|done| |]; rewrite IH; [by rewrite length_insert|by rewrite length_fmap].
Qed.

Lemma work_todo k s s' : step k s s' → k = Work →
  todo (thr s') <= todo (thr s) - 1 ∨ (todo (thr s') = todo (thr s) ∧ awake (thr s') <= awake (thr s) - 1).
Proof.
  intros [i a m f r c Hi Hm Hr Hd] Hk. pose proof (deliver_keeps _ _ _ Hd) as (D1 & D2 & D3 & D4 & D5 & D6).
  pose proof (D6 false) as D7. pose proof (D6 true) as D8. clear D6.
  destruct s as [[u w nr rp rwp su] t], s' as [l' t']; cbn in *. unfold todo, awake.
  destruct a as [| | | |b|b| | | |tr|tr]; try destruct b; pieces Hm Hr; try done; repeat (case_if; cbn);
    intros [= <- <- <-]; unfold to, holds in *; cbn in *;
    first [by moved i Hi; left; lia|apply deliver_none in Hd; subst t'; moved i Hi; right; lia].
Qed.

Lemma work_timed k s s' : step k s s' → k = Work → timed (thr s') <= timed (thr s).
Proof.
  intros [i a m f r c Hi Hm Hr Hd] Hk. pose proof (deliver_keeps _ _ _ Hd) as (_ & _ & D3 & _ & _ & D6). pose proof (D6 true) as D8. clear D6.
  destruct s as [l t], s' as [l' t']; cbn in *. unfold timed. clear Hr Hd.
  destruct a as [| | | |b|b| | | |tr|tr]; try destruct b; cbn [moves] in Hm;
    repeat (apply elem_of_cons in Hm as [[= -> -> ->]|Hm]); try (by apply elem_of_nil in Hm); try done;
    destruct r; unfold to, holds in *; cbn in *; moved i Hi; lia.
Qed.

Lemma work_decreases s s' : step Work s s' → 0 <= left_to_do (thr s') < left_to_do (thr s) ∧ zlen (thr s') = zlen (thr s).
Proof.
  intros Hs. assert (zlen (thr s') = zlen (thr s)) as E.
  { destruct Hs as [i a m f r c _ _ _ Hd]. rewrite (deliver_zlen _ _ _ Hd). unfold zlen. by rewrite length_insert. }
  split; [|done]. pose proof (todo_bound (thr s)) as [B1 B2]. pose proof (todo_bound (thr s')) as [B1' B2']. unfold left_to_do. rewrite E in *.
  apply work_todo in Hs; [|done]. generalize dependent (todo (thr s)). generalize dependent (todo (thr s')). intros. nia.
Qed.

Lemma deliver_total c t : ∃ t', deliver c t t'.
Proof.
  revert t. induction c as [|[] c IH]; intros t; [eexists; constructor| |].
  - destruct (decide (Exists (λ a, asleep_w a = true) t)) as [[a [Ha Hs]]%Exists_exists|Hn].
    + destruct a as [| | | |b| | | | | |]; try done. apply list_elem_of_lookup in Ha as [j Hj].
      destruct (IH (<[j := WokenW b]> t)) as [t' Ht]. exists t'. by econstructor.
    + destruct (IH t) as [t' Ht]. exists t'. constructor; [|done]. apply Forall_forall. intros a Ha.
      destruct (asleep_w a) eqn:E; [|done]. exfalso. apply Hn, Exists_exists. eauto.
  - destruct (IH (wake_r <$> t)) as [t' Ht]. exists t'. by constructor.
Qed.

(** Every piece of code runs. *)
Lemma moves_run k m f a l : (k, m, f) ∈ moves a → ∃ r l' c, m l = Some (r, l', c).
Proof.
  intros Hm. enough (is_Some (m l)) as [[[r l'] c] H] by eauto.
  destruct l as [u w nr rp rwp su], a as [| | | |b|b| | | |tr|tr]; try destruct b;
    cbn [moves] in Hm; repeat (apply elem_of_cons in Hm as [[= -> -> ->]|Hm]); try (by apply elem_of_nil in Hm);
    unfold lock_cache_r, unlock_cache_r, lock_cache_rw, timedlock_cache_rw, timed_out, unlock_cache_rw, yield_release, yield_return,
      release_rw, soft_start, softlock_cache_r, softunlock_cache_r, softlock_cache_rw, softunlock_cache_rw, r_loop, rw_loop; mrun;
    repeat (case_if; cbn); eauto.
Qed.

Lemma move_step k m f a i s : thr s !! i = Some a → (k, m, f) ∈ moves a → ∃ s', step k s s'.
Proof.
  intros Hi Hm. destruct (moves_run _ _ _ _ (lk s) Hm) as (r & l' & c & Hr). destruct (deliver_total c (<[i := f r]> (thr s))) as [t' Ht].
  exists (mkSys l' t'). by econstructor.
Qed.

Definition rests (a : status) : bool := match a with Idle | SleepR | SleepW false => true | _ => false end.

Lemma work_or_rest s i a : thr s !! i = Some a → soft a = false → rests a = true ∨ ∃ s', step Work s s'.
Proof.
  intros Hi Hs. destruct a as [| | | |[]|[]| | | | |]; try done; try (by left); right.
  all: match type of Hi with _ = Some ?x => let y := eval cbn in (moves x) in
    match y with context [(Work, ?m, ?f)] => apply (move_step Work m f x i s Hi) end end; cbn; set_solver.
Qed.

(** If no thread works, none waits. *)
Lemma rest_idle s : lively s → Forall (λ a, rests a = true) (thr s) → Forall (λ a, a = Idle) (thr s).
Proof.
  intros [[_ C1 C2 _ _ _] _ _ L3 L4 _] H. unfold ordinary in *.
  assert (Z0 : ∀ a, rests a = false → num a (thr s) = 0).
  { intros a Ha. destruct (decide (1 <= num a (thr s))) as [[i Hi]%num_find|]; [|pose proof (num_nonneg a (thr s)); lia].
    rewrite Forall_lookup in H. rewrite (H _ _ Hi) in Ha. done. }
  rewrite (Z0 Reading) in C1 by done. rewrite (Z0 Writing) in C2 by done. rewrite (Z0 (WokenW false)) in L3, L4 by done.
  rewrite (Z0 (SleepW true)), (Z0 (WokenW true)), (Z0 WokenR) in L4 by done. assert (cache_w_lock (lk s) = false) as Hw by (destruct (cache_w_lock (lk s)); done).
  rewrite Hw in *. apply Forall_lookup. intros i a Hi. rewrite Forall_lookup in H. pose proof (H _ _ Hi) as Ha.
  pose proof (num_nonneg (SleepW false) (thr s)). destruct a as [| | | |[]| | | | | |]; try done; pose proof (num_pos _ _ _ Hi).
  - destruct L3 as [|]; [lia|done|]. destruct L4 as [|[]]; [done|done|lia|lia|lia].
  - destruct L4 as [|[]]; [done|done|lia|lia|lia].
Qed.

(** No soft locks, and at most one thread at a time in [timedlock_cache_rw]:
    only the thread of the control socket empties the cache. *)
Definition usual (k : kind) (s : sys) : Prop := k ≠ Soft ∧ timed (thr s) <= 1.

Lemma reachable_lively n s : reachable usual n s → lively s ∧ zlen (thr s) = Z.of_nat n.
Proof.
  induction 1 as [|k s s' _ [IH1 IH2] Hs [Hk Ht]].
  - split; [apply lively_init|]. unfold init, zlen. cbn. by rewrite length_replicate.
  - split; [by eapply lively_step|]. rewrite <-IH2. destruct Hs as [i a m f r c _ _ _ Hd]. rewrite (deliver_zlen _ _ _ Hd).
    unfold zlen. by rewrite length_insert.
Qed.

Lemma reachable_counted ok n s : reachable ok n s → counted s.
Proof. induction 1 as [|k s s' _ IH Hs _]; [apply lively_init|by eapply counted_step]. Qed.

Lemma reachable_work n k s s' : nsteps (step Work) k s s' → reachable usual n s → reachable usual n s'.
Proof.
  induction 1 as [|k s s1 s2 Hs _ IH]; [done|]. intros H. apply IH. eapply reach_step; [done..|]. split; [done|].
  pose proof (work_timed _ _ _ Hs eq_refl). pose proof (l_timed _ (proj1 (reachable_lively _ _ H))). lia.
Qed.

Lemma work_bound k s s' : nsteps (step Work) k s s' → Z.of_nat k <= left_to_do (thr s).
Proof.
  induction 1 as [s|k s s1 s2 Hs _ IH]; [|apply work_decreases in Hs as [? _]; lia].
  pose proof (todo_bound (thr s)) as [? ?]. unfold left_to_do. pose proof (zlen_nonneg (thr s)). nia.
Qed.

(** ** An example: one thread reads, a second one waits to write *)
Definition ex_sys : sys := mkSys (mkLock true false 1 0 1 false) [Reading; SleepW false].

Lemma ex_sys_reachable : reachable usual 2 ex_sys.
Proof.
  apply (reach_step _ _ Ask (mkSys (mkLock true false 1 0 0 false) [Reading; Idle])); [|econstructor|by split].
  - apply (reach_step _ _ Ask (init 2)); [constructor|econstructor|by split].
    + by instantiate (2 := 0%nat).
    + cbn. left.
    + reflexivity.
    + constructor.
  - by instantiate (2 := 1%nat).
  - cbn. right. left.
  - reflexivity.
  - constructor.
Qed.

(** ** Properties *)

(** C28: Whatever the threads do, soft locks and lost time included: a thread
    that writes is alone, threads that read keep writers out, and the counters
    are the numbers of the threads that hold and that want the lock.  No
    thread is ever prevented from its next step by a failure. *)
Theorem lock_exclusive ok n s : reachable ok n s →
  (∀ i j a, thr s !! i = Some Writing → thr s !! j = Some a → a = Reading ∨ a = Writing → j = i) ∧
  cache_r_lock (lk s) = num Reading (thr s) ∧ Z.b2z (cache_w_lock (lk s)) = num Writing (thr s) ∧
  r_pend (lk s) = num SleepR (thr s) + num WokenR (thr s) ∧
  rw_pend (lk s) = num (SleepW false) (thr s) + num (WokenW false) (thr s) + timed (thr s) ∧
  ∀ i a k m f, thr s !! i = Some a → (k, m, f) ∈ moves a → ∃ s', step k s s'.
Proof.
  intros H%reachable_counted. destruct H as [_ H1 H2 H3 H4 H5]. split_and!; [|done|done|done|unfold timed; lia|].
  - intros i j a Hi Hj Ha. pose proof (num_pos _ _ _ Hi). pose proof (b2z_01 (cache_w_lock (lk s))).
    destruct (cache_w_lock (lk s)) eqn:Hw; cbn in H2; [|lia]. destruct Ha as [->| ->].
    + pose proof (num_pos _ _ _ Hj). specialize (H5 eq_refl). lia.
    + eapply (num_unique Writing); [|done|done]. lia.
  - intros i a k m f. apply move_step.
Qed.

Lemma lock_exclusive_witness : cache_r_lock (lk ex_sys) = 1 ∧ ∃ s', step Work ex_sys s'.
Proof.
  destruct (lock_exclusive usual 2 ex_sys ex_sys_reachable) as (_ & E & _ & _ & _ & Hs). split; [exact E|].
  apply (Hs 0%nat Reading Work unlock_cache_r (to Idle)); [reflexivity|left].
Defined.

(** C17: No thread is forgotten: from any state that is reached, when no
    thread asks for the lock any more, and without any wake-up but those the
    functions cause, the threads take a bounded number of steps, and as long as
    one of them has not got and returned the lock there is a next step.  So no
    thread sleeps for ever: no signal is lost, and no suspension of readers is
    left behind. *)
Theorem lock_drains n s k s' : reachable usual n s → nsteps (step Work) k s s' →
  Z.of_nat k <= 3 * Z.of_nat n * (Z.of_nat n + 1) + Z.of_nat n ∧
  (Forall (λ a, a = Idle) (thr s') ∨ ∃ s'', step Work s' s'').
Proof.
  intros H Hk. split.
  - apply work_bound in Hk. pose proof (todo_bound (thr s)) as [? ?]. destruct (reachable_lively _ _ H) as [_ E].
    unfold left_to_do in Hk. rewrite E in *. nia.
  - pose proof (reachable_work _ _ _ _ Hk H) as [Hl _]%reachable_lively.
    destruct (decide (Forall (λ a, rests a = true) (thr s'))) as [Hr|Hr]; [left; by apply rest_idle|right].
    apply not_Forall_Exists in Hr; [|apply _]. apply Exists_exists in Hr as (a & Ha & Hr). apply list_elem_of_lookup in Ha as [i Hi].
    pose proof (l_hard _ Hl) as Hh. rewrite Forall_lookup in Hh. by destruct (work_or_rest _ _ _ Hi (Hh _ _ Hi)).
Qed.

Lemma lock_drains_witness : Forall (λ a, a = Idle) (thr ex_sys) ∨ ∃ s'', step Work ex_sys s''.
Proof.
  apply (lock_drains 2 ex_sys 0 ex_sys ex_sys_reachable). constructor.
Defined.
End CacheLock.
