(* ===== verification/Reactor.v ===== *)
(** * Event loop ([system/BReactor_badvpn.c], [system/BTime.h])

    The loop that calls all handlers of the program: pending jobs first, then
    timers that have expired, then file descriptors for which [epoll] reported
    events; if there is none of these it waits.

    Handlers are code of the clients: a round of the loop ends with the call of
    a handler, and what the handler does are operations of the reactor, in any
    number and order.  The tree of timers is a sequence in the order in which
    the comparison function puts them (the trees of [structure/CAvl_impl.h] are
    the balanced trees of [BAvl]); lists are sequences; the jobs are the job
    queue as [JobQueue] specifies it.  Of [epoll] the reactor keeps a set of
    file descriptors with the object and the events of each, [interest]. *)

From S2P Require Import Prelude BPending Net.

(** ** [system/BTime.h], [misc/overflow.h] *)
Module BTime.
Definition INT64_MAX : Z := 9223372036854775807.
Definition INT64_MIN : Z := -9223372036854775808.

Definition add_int64_overflows (a b : Z) : Z :=
  if xorb (a <? 0) (b <? 0) then 0
  else if a <? 0 then - Z.b2z (a <? INT64_MIN - b)
  else Z.b2z (a >? INT64_MAX - b).

Definition btime_add (t1 t2 : Z) : Z :=
  let overflows := add_int64_overflows t1 t2 in
  if negb (overflows =? 0) then if overflows >? 0 then INT64_MAX else INT64_MIN
  else t1 + t2.

Lemma btime_add_clamps t1 t2 : INT64_MIN <= t1 <= INT64_MAX → INT64_MIN <= t2 <= INT64_MAX →
  btime_add t1 t2 = Z.max INT64_MIN (Z.min INT64_MAX (t1 + t2)).
Proof.
  unfold btime_add, add_int64_overflows, INT64_MIN, INT64_MAX. intros H1 H2. rewrite !Z.gtb_ltb.
  destruct (t1 <? 0) eqn:E1, (t2 <? 0) eqn:E2; cbn [xorb]; zb.
  - destruct (t1 <? -9223372036854775808 - t2) eqn:E; zb; [change (negb (- Z.b2z true =? 0)) with true|change (negb (- Z.b2z false =? 0)) with false]; cbn iota; [|lia].
    change (0 <? - Z.b2z true) with false. cbn iota. lia.
  - change (negb (0 =? 0)) with false. cbn iota. lia.
  - change (negb (0 =? 0)) with false. cbn iota. lia.
  - destruct (9223372036854775807 - t2 <? t1) eqn:E; zb; [change (negb (Z.b2z true =? 0)) with true|change (negb (Z.b2z false =? 0)) with false]; cbn iota; [|lia].
    change (0 <? Z.b2z true) with true. cbn iota. lia.
Qed.
End BTime.

Module Reactor.
Import BTime.
Abbreviation ptr := positive.

(** ** State *)
Inductive timer_state := INACTIVE | RUNNING | EXPIRED.
#[export] Instance timer_state_eq : EqDecision timer_state.
Proof. solve_decision. Defined.

(** [msTime]: of the timers that are a [BTimer]. *)
Record BSmallTimer := mkTimer { absTime : Z; state : timer_state; msTime : option Z }.

(** [epoll_returned_ptr] points to an element of [epoll_results]: its index. *)
Record BFileDescriptor := mkFd { fd : Z; active : bool; waitEvents : Z; epoll_returned_ptr : option nat }.

Record BReactorLimit := mkLimit { limit : Z; count : Z }.

Definition BREACTOR_READ : Z := 1.
Definition BREACTOR_WRITE : Z := 2.
Definition BREACTOR_ERROR : Z := 4.
Definition BREACTOR_HUP : Z := 8.
Definition EPOLLIN : Z := 1.
Definition EPOLLOUT : Z := 4.
Definition EPOLLERR : Z := 8.
Definition EPOLLHUP : Z := 16.
Definition BSYSTEM_MAX_RESULTS : Z := 64.

(** The objects of the clients, and the tree and the list the timers are in. *)
Record timing := mkTiming { timers : gmap ptr BSmallTimer; timers_tree : list ptr; timers_expired_list : list ptr }.

(** An event that [epoll_wait] returned: [data.ptr] and [events].
    [epoll_results_num] is the number of elements of [epoll_results]. *)
Record polling := mkPolling {
  fds : gmap ptr BFileDescriptor;
  interest : gmap Z (ptr * Z);
  epoll_results : list (option ptr * Z);
  epoll_results_pos : nat
}.

Record limiting := mkLimiting { limits : gmap ptr BReactorLimit; active_limits_list : list ptr }.

Record BReactor := mkReactor {
  exiting : bool;
  exit_code : Z;
  pending_jobs : list ptr;
  tm : timing;
  po : polling;
  li : limiting
}.

Definition set_tm (x : timing) (o : BReactor) : BReactor := mkReactor (exiting o) (exit_code o) (pending_jobs o) x (po o) (li o).
Definition set_po (x : polling) (o : BReactor) : BReactor := mkReactor (exiting o) (exit_code o) (pending_jobs o) (tm o) x (li o).
Definition set_li (x : limiting) (o : BReactor) : BReactor := mkReactor (exiting o) (exit_code o) (pending_jobs o) (tm o) (po o) x.
Definition set_jobs (l : list ptr) (o : BReactor) : BReactor := mkReactor (exiting o) (exit_code o) l (tm o) (po o) (li o).

(** A message of the log. *)
Inductive msg := NoEventsDetected | EpollCtlFailed.
Abbreviation RM := (M BReactor msg).
(** A bad pointer is followed. *)
Definition crash {S A} : M S msg A := λ _, None.

(** ** Timers *)
Abbreviation TM := (M timing msg).
Definition load_timer (p : ptr) : TM BSmallTimer := λ s, match timers s !! p with Some t => Some (t, s, []) | None => None end.
Definition store_timer (p : ptr) (t : BSmallTimer) : TM unit :=
  modify (λ s, mkTiming (<[p := t]> (timers s)) (timers_tree s) (timers_expired_list s)).
Definition set_tree (l : list ptr) : TM unit := modify (λ s, mkTiming (timers s) l (timers_expired_list s)).
Definition set_expired (l : list ptr) : TM unit := modify (λ s, mkTiming (timers s) (timers_tree s) l).

Definition compare_timers (ts : gmap ptr BSmallTimer) (p1 p2 : ptr) : option Z :=
  t1 ← ts !! p1;
  t2 ← ts !! p2;
  let cmp := B_COMPARE (absTime t1) (absTime t2) in
  Some (if negb (cmp =? 0) then cmp else B_COMPARE (Z.pos p1) (Z.pos p2)).

(** The tree: insertion, which is refused if an equal timer is in it, and
    removal of a timer that is in it. *)
Fixpoint tree_insert (ts : gmap ptr BSmallTimer) (p : ptr) (l : list ptr) : option (option (list ptr)) :=
  match l with
  | [] => Some (Some [p])
  | q :: l' =>
      cmp ← compare_timers ts p q;
      if cmp =? 0 then Some None
      else if cmp <? 0 then Some (Some (p :: l))
      else r ← tree_insert ts p l'; Some (option_map (cons q) r)
  end.

Definition TimersTree_GetFirst : TM (option ptr) := s ← get; mret (head (timers_tree s)).
Definition TimersTree_Insert (p : ptr) : TM bool :=
  s ← get;
  match tree_insert (timers s) p (timers_tree s) with
  | None => crash
  | Some None => mret false
  | Some (Some l) => set_tree l;; mret true
  end.
Definition TimersTree_Remove (p : ptr) : TM unit :=
  s ← get;
  ASSERT (bool_decide (p ∈ timers_tree s));;
  set_tree (JobQueue.remove p (timers_tree s)).

Definition expired_append (p : ptr) : TM unit := s ← get; set_expired (timers_expired_list s ++ [p]).
Definition expired_remove (p : ptr) : TM unit :=
  s ← get;
  ASSERT (bool_decide (p ∈ timers_expired_list s));;
  set_expired (JobQueue.remove p (timers_expired_list s)).

Definition set_state (x : timer_state) (t : BSmallTimer) : BSmallTimer := mkTimer (absTime t) x (msTime t).
Definition set_absTime (x : Z) (t : BSmallTimer) : BSmallTimer := mkTimer x (state t) (msTime t).

(** A timer from the tree to the list. *)
Definition expire (p : ptr) : TM unit :=
  TimersTree_Remove p;;
  expired_append p;;
  t ← load_timer p;
  store_timer p (set_state EXPIRED t).

(** [fuel]: the number of timers. *)
Fixpoint move_expired_loop (fuel : nat) (now : Z) (moved : bool) : TM bool :=
  first ← TimersTree_GetFirst;
  match first with
  | None => mret moved
  | Some timer =>
      t ← load_timer timer;
      ASSERT (bool_decide (state t = RUNNING));;
      if absTime t >? now then mret moved
      else
        expire timer;;
        match fuel with O => crash | S fuel' => move_expired_loop fuel' now true end
  end.

Definition move_expired_timers (now : Z) : TM bool :=
  s ← get;
  move_expired_loop (length (timers_tree s)) now false.

Fixpoint move_first_loop (fuel : nat) (first_time : Z) : TM unit :=
  first ← TimersTree_GetFirst;
  match first with
  | None => mret tt
  | Some timer =>
      t ← load_timer timer;
      ASSERT (bool_decide (state t = RUNNING));;
      ASSERT (absTime t >=? first_time);;
      if absTime t >? first_time then mret tt
      else
        expire timer;;
        match fuel with O => crash | S fuel' => move_first_loop fuel' first_time end
  end.

Definition move_first_timers : TM unit :=
  first ← TimersTree_GetFirst;
  match first with
  | None => ASSERT false
  | Some first_timer =>
      t ← load_timer first_timer;
      ASSERT (bool_decide (state t = RUNNING));;
      let first_time := absTime t in
      expire first_timer;;
      s ← get;
      move_first_loop (length (timers_tree s)) first_time
  end.

Definition BSmallTimer_Init (p : ptr) : TM unit := store_timer p (mkTimer 0 INACTIVE None).
Definition BTimer_Init (p : ptr) (ms : Z) : TM unit := store_timer p (mkTimer 0 INACTIVE (Some ms)).
Definition BSmallTimer_IsRunning (p : ptr) : TM bool := t ← load_timer p; mret (negb (bool_decide (state t = INACTIVE))).

Definition BReactor_RemoveSmallTimer (p : ptr) : TM unit :=
  t ← load_timer p;
  match state t with
  | INACTIVE => mret tt
  | EXPIRED => expired_remove p;; store_timer p (set_state INACTIVE t)
  | RUNNING => TimersTree_Remove p;; store_timer p (set_state INACTIVE t)
  end.

(** [relative]: the mode; [now]: what [btime_gettime] returns. *)
Definition BReactor_SetSmallTimer (p : ptr) (relative : bool) (time now : Z) : TM unit :=
  BReactor_RemoveSmallTimer p;;
  let time := if relative then btime_add now time else time in
  t ← load_timer p;
  store_timer p (set_state RUNNING (set_absTime time t));;
  res ← TimersTree_Insert p;
  ASSERT res.

Definition BReactor_SetTimer (p : ptr) (now : Z) : TM unit :=
  t ← load_timer p;
  match msTime t with
  | Some ms => BReactor_SetSmallTimer p true ms now
  | None => crash
  end.
Definition BReactor_SetTimerAfter (p : ptr) (after now : Z) : TM unit := BReactor_SetSmallTimer p true after now.
Definition BReactor_SetTimerAbsolute (p : ptr) (time : Z) : TM unit := BReactor_SetSmallTimer p false time 0.
Definition BReactor_RemoveTimer (p : ptr) : TM unit := BReactor_RemoveSmallTimer p.

(** ** File descriptors *)
Abbreviation PM := (M polling msg).
Definition load_fd (p : ptr) : PM BFileDescriptor := λ s, match fds s !! p with Some f => Some (f, s, []) | None => None end.
Definition store_fd (p : ptr) (f : BFileDescriptor) : PM unit :=
  modify (λ s, mkPolling (<[p := f]> (fds s)) (interest s) (epoll_results s) (epoll_results_pos s)).
Definition set_interest (k : gmap Z (ptr * Z)) : PM unit := modify (λ s, mkPolling (fds s) k (epoll_results s) (epoll_results_pos s)).
Definition set_results (l : list (option ptr * Z)) (pos : nat) : PM unit := modify (λ s, mkPolling (fds s) (interest s) l pos).

Definition set_returned (x : option nat) (f : BFileDescriptor) : BFileDescriptor := mkFd (fd f) (active f) (waitEvents f) x.
Definition set_waitEvents (x : Z) (f : BFileDescriptor) : BFileDescriptor := mkFd (fd f) (active f) x (epoll_returned_ptr f).
Definition set_active (x : bool) (f : BFileDescriptor) : BFileDescriptor := mkFd (fd f) x (waitEvents f) (epoll_returned_ptr f).

Definition has (x b : Z) : bool := negb (Z.land x b =? 0).

Fixpoint set_pointers (i : nat) (l : list (option ptr * Z)) : PM unit :=
  match l with
  | [] => mret tt
  | (None, _) :: _ => ASSERT false
  | (Some p, _) :: l' =>
      bfd ← load_fd p;
      ASSERT (active bfd);;
      ASSERT (bool_decide (epoll_returned_ptr bfd = None));;
      store_fd p (set_returned (Some i) bfd);;
      set_pointers (S i) l'
  end.
Definition set_epoll_fd_pointers : PM unit := s ← get; set_pointers 0 (epoll_results s).

Definition BFileDescriptor_Init (p : ptr) (n : Z) : PM unit := store_fd p (mkFd n false 0 None).

(** [ok]: whether the system accepts the file descriptor; one that is in the
    set already it does not. *)
Definition BReactor_AddFileDescriptor (p : ptr) (ok : bool) : PM bool :=
  bs ← load_fd p;
  ASSERT (negb (active bs));;
  s ← get;
  if negb (ok && bool_decide (interest s !! fd bs = None)) then emit EpollCtlFailed;; mret false
  else
    set_interest (<[fd bs := (p, 0)]> (interest s));;
    store_fd p (mkFd (fd bs) true 0 None);;
    mret true.

Definition BReactor_RemoveFileDescriptor (p : ptr) : PM unit :=
  bs ← load_fd p;
  ASSERT (active bs);;
  store_fd p (set_active false bs);;
  s ← get;
  ASSERT (bool_decide (is_Some (interest s !! fd bs)));;
  set_interest (delete (fd bs) (interest s));;
  match epoll_returned_ptr bs with
  | None => mret tt
  | Some i =>
      s ← get;
      match epoll_results s !! i with
      | Some (_, ev) => set_results (<[i := (None, ev)]> (epoll_results s)) (epoll_results_pos s)
      | None => crash
      end
  end.

Definition epoll_events (events : Z) : Z :=
  Z.lor (if has events BREACTOR_READ then EPOLLIN else 0) (if has events BREACTOR_WRITE then EPOLLOUT else 0).

Definition BReactor_SetFileDescriptorEvents (p : ptr) (events : Z) : PM unit :=
  bs ← load_fd p;
  ASSERT (active bs);;
  ASSERT (Z.ldiff events (Z.lor BREACTOR_READ BREACTOR_WRITE) =? 0);;
  if waitEvents bs =? events then mret tt
  else
    s ← get;
    ASSERT (bool_decide (is_Some (interest s !! fd bs)));;
    set_interest (<[fd bs := (p, epoll_events events)]> (interest s));;
    store_fd p (set_waitEvents events bs).

(** The events of a file descriptor that are reported to its handler. *)
Definition report (bfd : BFileDescriptor) (events : Z) : Z :=
  Z.lor (if has (waitEvents bfd) BREACTOR_READ && has events EPOLLIN then BREACTOR_READ else 0)
    (Z.lor (if has (waitEvents bfd) BREACTOR_WRITE && has events EPOLLOUT then BREACTOR_WRITE else 0)
       (Z.lor (if has events EPOLLERR then BREACTOR_ERROR else 0) (if has events EPOLLHUP then BREACTOR_HUP else 0))).

(** The next result: the object with the events its handler is called with, if any. *)
Definition dispatch_fd : PM (option (ptr * Z)) :=
  s ← get;
  match epoll_results s !! epoll_results_pos s with
  | None => crash
  | Some (data, ev) =>
      set_results (epoll_results s) (S (epoll_results_pos s));;
      match data with
      | None => mret None
      | Some p =>
          bfd ← load_fd p;
          ASSERT (active bfd);;
          ASSERT (bool_decide (epoll_returned_ptr bfd = Some (epoll_results_pos s)));;
          store_fd p (set_returned None bfd);;
          let events := report bfd ev in
          if events =? 0 then emit NoEventsDetected;; mret None
          else mret (Some (p, events))
      end
  end.

(** ** Limits *)
Abbreviation LM := (M limiting msg).
Definition load_limit (p : ptr) : LM BReactorLimit := λ s, match limits s !! p with Some x => Some (x, s, []) | None => None end.
Definition store_limit (p : ptr) (x : BReactorLimit) : LM unit := modify (λ s, mkLimiting (<[p := x]> (limits s)) (active_limits_list s)).
Definition set_active_limits (l : list ptr) : LM unit := modify (λ s, mkLimiting (limits s) l).
Definition limits_remove (p : ptr) : LM unit :=
  s ← get;
  ASSERT (bool_decide (p ∈ active_limits_list s));;
  set_active_limits (JobQueue.remove p (active_limits_list s)).

Definition BReactorLimit_Init (p : ptr) (n : Z) : LM unit := ASSERT (n >? 0);; store_limit p (mkLimit n 0).
Definition BReactorLimit_Free (p : ptr) : LM unit :=
  o ← load_limit p;
  when (count o >? 0) (limits_remove p);;
  modify (λ s, mkLimiting (delete p (limits s)) (active_limits_list s)).
Definition BReactorLimit_Increment (p : ptr) : LM bool :=
  o ← load_limit p;
  if count o >=? limit o then mret false
  else
    store_limit p (mkLimit (limit o) (count o + 1));;
    when (count o + 1 =? 1) (s ← get; set_active_limits (active_limits_list s ++ [p]));;
    mret true.
Definition BReactorLimit_SetLimit (p : ptr) (n : Z) : LM unit :=
  ASSERT (n >? 0);;
  o ← load_limit p;
  store_limit p (mkLimit n (count o)).

(** [fuel]: the number of limits in the list. *)
Fixpoint reset_limits_loop (fuel : nat) : LM unit :=
  s ← get;
  match active_limits_list s with
  | [] => mret tt
  | p :: _ =>
      o ← load_limit p;
      ASSERT (count o >? 0);;
      store_limit p (mkLimit (limit o) 0);;
      limits_remove p;;
      match fuel with O => crash | S fuel' => reset_limits_loop fuel' end
  end.
Definition reset_limits : LM unit := s ← get; reset_limits_loop (length (active_limits_list s)).

(** ** The loop *)
Definition on_tm {A} (m : TM A) : RM A := λ o,
  match m (tm o) with Some (a, s, w) => Some (a, set_tm s o, w) | None => None end.
Definition on_po {A} (m : PM A) : RM A := λ o,
  match m (po o) with Some (a, s, w) => Some (a, set_po s o, w) | None => None end.
Definition on_li {A} (m : LM A) : RM A := λ o,
  match m (li o) with Some (a, s, w) => Some (a, set_li s o, w) | None => None end.

(** What the system answers to [epoll_wait]: that a signal came, or the events
    it returns; and what the clock shows then. *)
Inductive answer := EINTR | Returned (evs : list (ptr * Z)).

(** What follows an interrupted or truncated wait; [again] continues the loop. *)
Definition try_again (timeout_abs : option Z) (clock now : Z) (again : Z → RM (option Z)) : RM (option Z) :=
  match timeout_abs with
  | Some t => if clock >=? t then on_tm move_first_timers;; mret (Some clock) else again clock
  | None => again now
  end.

(** The loop in [wait_for_events]: the time at which it ends, [None] if the
    system has not answered yet. *)
Fixpoint wait_loop (answers : list (answer * Z)) (timeout_abs : option Z) (now : Z) : RM (option Z) :=
  match answers with
  | [] => mret None
  | (a, clock) :: answers' =>
      let timeout_rel := match timeout_abs with Some t => t - now | None => 0 end in
      let timeout_rel_trunc := if timeout_rel >? INT_MAX then INT_MAX else timeout_rel in
      let again := try_again timeout_abs clock now (wait_loop answers' timeout_abs) in
      match a with
      | EINTR => again
      | Returned evs =>
          let waitres := zlen evs in
          ASSERT (negb (waitres =? 0) || bool_decide (is_Some timeout_abs));;
          ASSERT (waitres <=? BSYSTEM_MAX_RESULTS);;
          if negb (waitres =? 0) || (timeout_rel_trunc =? timeout_rel) then
            (if negb (waitres =? 0) then on_po (set_results (prod_map Some id <$> evs) 0;; set_epoll_fd_pointers)
             else on_tm move_first_timers);;
            mret (Some clock)
          else again
      end
  end.

(** [clock]: what [btime_gettime] returns. *)
Definition wait_for_events (clock : Z) (answers : list (answer * Z)) : RM (option Z) :=
  o ← get;
  ASSERT (bool_decide (pending_jobs o = []));;
  ASSERT (bool_decide (timers_expired_list (tm o) = []));;
  ASSERT (Nat.eqb (epoll_results_pos (po o)) (length (epoll_results (po o))));;
  on_po (set_results [] 0);;
  first ← on_tm TimersTree_GetFirst;
  match first with
  | None =>
      done ← wait_loop answers None 0;
      match done with None => mret None | Some t => on_li reset_limits;; mret (Some t) end
  | Some first_timer =>
      t ← on_tm (load_timer first_timer);
      ASSERT (bool_decide (state t = RUNNING));;
      moved ← on_tm (move_expired_timers clock);
      if (moved : bool) then mret (Some clock)
      else
        done ← wait_loop answers (Some (absTime t)) clock;
        match done with None => mret None | Some t => on_li reset_limits;; mret (Some t) end
  end.

(** What a round of the loop comes to. *)
Inductive dispatched :=
  | Exited (code : Z)
  | Job (p : ptr)
  | Timer (p : ptr)
  | Fd (p : ptr) (events : Z)
  | Nothing
  | Waited (clock : Z)
  | Waiting.

(** A round of the loop in [BReactor_Exec], up to the call of the handler. *)
Definition exec_round (clock : Z) (answers : list (answer * Z)) : RM dispatched :=
  o ← get;
  if exiting o then mret (Exited (exit_code o))
  else
    match JobQueue.execute (pending_jobs o) with
    | Some (p, jobs) => modify (set_jobs jobs);; mret (Job p)
    | None =>
        match timers_expired_list (tm o) with
        | p :: _ =>
            t ← on_tm (load_timer p);
            ASSERT (bool_decide (state t = EXPIRED));;
            on_tm (expired_remove p);;
            on_tm (store_timer p (set_state INACTIVE t));;
            mret (Timer p)
        | [] =>
            if Nat.ltb (epoll_results_pos (po o)) (length (epoll_results (po o))) then
              r ← on_po dispatch_fd;
              mret (match r with Some (p, events) => Fd p events | None => Nothing end)
            else
              done ← wait_for_events clock answers;
              mret (match done with Some t => Waited t | None => Waiting end)
        end
    end.

(** A round of the loop in [BReactor_Synchronize]: [Some] if it returns. *)
Definition synchronize_round (ref : ptr) : RM (option bool * option ptr) :=
  o ← get;
  if exiting o then mret (Some false, None)
  else
    ASSERT (negb (bool_decide (pending_jobs o = [])));;
    match JobQueue.execute (pending_jobs o) with
    | Some (p, jobs) => if bool_decide (p = ref) then mret (Some true, None) else modify (set_jobs jobs);; mret (None, Some p)
    | None => crash
    end.

Definition BReactor_Quit (code : Z) : RM unit :=
  modify (λ o, mkReactor true code (pending_jobs o) (tm o) (po o) (li o)).

(** [ok]: whether the system gives an [epoll] descriptor. *)
Definition fresh_reactor : BReactor :=
  mkReactor false 0 [] (mkTiming ∅ [] []) (mkPolling ∅ ∅ [] 0) (mkLimiting ∅ []).
Definition BReactor_Init (ok : bool) : option BReactor := if ok then Some fresh_reactor else None.

(** What must have been released before. *)
Definition BReactor_Free : RM unit :=
  o ← get;
  ASSERT (bool_decide (pending_jobs o = []));;
  ASSERT (bool_decide (timers_tree (tm o) = []));;
  ASSERT (bool_decide (timers_expired_list (tm o) = []));;
  ASSERT (bool_decide (active_limits_list (li o) = []));;
  ASSERT (bool_decide (interest (po o) = ∅));;
  ASSERT (bool_decide (limits (li o) = ∅)).
End Reactor.
