(* ===== verification/ReactorOk.v ===== *)
(** * The event loop is correct

    Whatever the clients do in their handlers, and whatever [epoll] reports,
    the timers are in the tree and in the list as their state says, results of
    [epoll_wait] refer to objects that are registered, and no assertion fails.
    Timers expire when their time has come, not before, in the order of their
    times. *)

From stdpp Require Import sorting.
From S2P Require Import Prelude BPending Net Reactor.
Import BTime Reactor.

Module ReactorOk.
Implicit Types (p q : ptr) (t : BSmallTimer) (s : timing).

(** ** Timers *)
Definition at_ (ts : gmap ptr BSmallTimer) (p : ptr) : Z := default 0 (absTime <$> ts !! p).

Definition before (ts : gmap ptr BSmallTimer) (p q : ptr) : Prop :=
  at_ ts p < at_ ts q ∨ at_ ts p = at_ ts q ∧ Z.pos p < Z.pos q.

Record t_ok (s : timing) : Prop := mkTOk {
  t_sorted : StronglySorted (before (timers s)) (timers_tree s);
  t_tree p : p ∈ timers_tree s ↔ ∃ t, timers s !! p = Some t ∧ state t = RUNNING;
  t_nodup : NoDup (timers_expired_list s);
  t_expired p : p ∈ timers_expired_list s ↔ ∃ t, timers s !! p = Some t ∧ state t = EXPIRED
}.

Lemma before_irrefl ts p : ¬ before ts p p.
Proof. unfold before. lia. Qed.

Lemma sorted_nodup ts l : StronglySorted (before ts) l → NoDup l.
Proof.
  induction 1 as [|p l _ IH Hall]; constructor; [|done]. intros Hp. rewrite Forall_forall in Hall. by apply (before_irrefl ts p), Hall.
Qed.

Lemma sorted_filter ts (P : ptr → Prop) `{∀ x, Decision (P x)} l : StronglySorted (before ts) l → StronglySorted (before ts) (filter P l).
Proof.
  induction 1 as [|p l _ IH Hall]; [constructor|]. rewrite filter_cons. case_decide; [|done]. constructor; [done|].
  rewrite Forall_forall in *. intros q [_ Hq]%list_elem_of_filter. by apply Hall.
Qed.

(** Only the times of the timers in the list matter. *)
Lemma timers_sorted_ext ts ts' l : (∀ p, p ∈ l → at_ ts' p = at_ ts p) → StronglySorted (before ts) l → StronglySorted (before ts') l.
Proof.
  intros H Hs. induction Hs as [|p l _ IH Hall]; [constructor|]. constructor.
  - apply IH. intros q Hq. apply H. by right.
  - rewrite Forall_forall in *. intros q Hq. unfold before. rewrite !H; [by apply Hall|by right|by left].
Qed.

Lemma B_COMPARE_spec a b : B_COMPARE a b = match a ?= b with Lt => -1 | Eq => 0 | Gt => 1 end.
Proof. destruct (Z.compare_spec a b); destruct (B_COMPARE_cases a b) as [[? ->]|[[? ->]|[? ->]]]; lia. Qed.

Lemma compare_spec ts p q : is_Some (ts !! p) → is_Some (ts !! q) →
  ∃ z, compare_timers ts p q = Some z ∧ (z = 0 → p = q) ∧ (z < 0 → before ts p q) ∧ (0 < z → before ts q p).
Proof.
  intros [tp Hp] [tq Hq]. unfold compare_timers. rewrite Hp, Hq. cbn [mbind option_bind]. rewrite !B_COMPARE_spec.
  eexists. split; [done|]. unfold before, at_. rewrite Hp, Hq. cbn [fmap option_fmap option_map default].
  unfold id. destruct (Z.compare_spec (absTime tp) (absTime tq)).
  2:{ change (negb (-1 =? 0)) with true. cbn iota. split_and!; lia. }
  2:{ change (negb (1 =? 0)) with true. cbn iota. split_and!; lia. }
  change (negb (0 =? 0)) with false. cbn iota. destruct (Z.compare_spec (Z.pos p) (Z.pos q)); split_and!; lia.
Qed.

Lemma before_trans ts p q r : before ts p q → before ts q r → before ts p r.
Proof. unfold before. lia. Qed.

Lemma tree_insert_ok ts p l : is_Some (ts !! p) → (∀ q, q ∈ l → is_Some (ts !! q)) → p ∉ l → StronglySorted (before ts) l →
  ∃ l', tree_insert ts p l = Some (Some l') ∧ l' ≡ₚ p :: l ∧ StronglySorted (before ts) l'.
Proof.
  intros Hp Hl Hn Hs. induction Hs as [|q l Hs IH Hall]; cbn [tree_insert].
  { exists [p]. split_and!; [done|done|by repeat constructor]. }
  apply not_elem_of_cons in Hn as [Hne Hn]. destruct (compare_spec ts p q Hp) as (z & -> & H0 & Hlt & Hgt); [apply Hl; by left|].
  cbn [mbind option_bind]. destruct (z =? 0) eqn:E0; [zb; by destruct Hne, H0|]. zb. destruct (z <? 0) eqn:E1; zb.
  - exists (p :: q :: l). split_and!; [done|done|]. constructor; [by constructor|]. constructor; [by apply Hlt|].
    eapply Forall_impl; [exact Hall|]. intros r. by apply before_trans, Hlt.
  - destruct IH as (l' & -> & HP & Hs'); [intros; apply Hl; by right|done|]. cbn. exists (q :: l'). split_and!; [done| |].
    + rewrite HP. by constructor.
    + constructor; [done|]. rewrite HP. constructor; [apply Hgt; lia|done].
Qed.

Lemma at_insert ts p t q : at_ (<[p := t]> ts) q = if decide (q = p) then absTime t else at_ ts q.
Proof. unfold at_. case_decide; [subst; by rewrite lookup_insert_eq|by rewrite lookup_insert_ne by done]. Qed.

Lemma at_insert_same ts p t t' : ts !! p = Some t → absTime t' = absTime t → ∀ q, at_ (<[p := t']> ts) q = at_ ts q.
Proof. intros Hp Ht q. rewrite at_insert. case_decide; [|done]. subst. unfold at_. by rewrite Hp. Qed.

(** A timer changes, and its place with it. *)
Lemma t_change s p t' tree ex : t_ok s →
  StronglySorted (before (<[p := t']> (timers s))) tree → NoDup ex →
  (∀ q, q ≠ p → q ∈ tree ↔ q ∈ timers_tree s) → (∀ q, q ≠ p → q ∈ ex ↔ q ∈ timers_expired_list s) →
  (p ∈ tree ↔ state t' = RUNNING) → (p ∈ ex ↔ state t' = EXPIRED) →
  t_ok (mkTiming (<[p := t']> (timers s)) tree ex).
Proof.
  intros [H1 H2 H3 H4] Hs Hn Ht He Hpt Hpe. split; cbn; [done| |done|].
  - intros q. destruct (decide (q = p)) as [-> | Hne].
    + rewrite Hpt, lookup_insert_eq. naive_solver.
    + rewrite Ht, H2 by done. by rewrite lookup_insert_ne.
  - intros q. destruct (decide (q = p)) as [-> | Hne].
    + rewrite Hpe, lookup_insert_eq. naive_solver.
    + rewrite He, H4 by done. by rewrite lookup_insert_ne.
Qed.

Lemma remove_ne (p q : ptr) (l : list ptr) : q ≠ p → q ∈ JobQueue.remove p l ↔ q ∈ l.
Proof. rewrite JobQueue.elem_of_remove. naive_solver. Qed.
Lemma remove_not (p : ptr) (l : list ptr) : p ∉ JobQueue.remove p l.
Proof. rewrite JobQueue.elem_of_remove. naive_solver. Qed.

(** A timer is taken out of the place where it is. *)
Lemma t_take s p t x : t_ok s → timers s !! p = Some t → x = INACTIVE →
  t_ok (mkTiming (<[p := set_state x t]> (timers s)) (JobQueue.remove p (timers_tree s)) (JobQueue.remove p (timers_expired_list s))).
Proof.
  intros H Hp ->. apply t_change; [done| | |by intros; apply remove_ne..| |].
  - eapply timers_sorted_ext; [intros q _; by apply (at_insert_same _ _ t)|]. apply sorted_filter, H.
  - apply JobQueue.NoDup_remove, H.
  - split; [by intros ?%remove_not|done].
  - split; [by intros ?%remove_not|done].
Qed.

Lemma runs_load_timer p t s (Q : BSmallTimer → timing → list msg → Prop) : timers s !! p = Some t → Q t s [] → runs (load_timer p) s Q.
Proof. unfold runs, load_timer. by intros ->. Qed.

Lemma t_not_tree s p t : t_ok s → timers s !! p = Some t → state t ≠ RUNNING → p ∉ timers_tree s.
Proof. intros H Hp Hne (t' & Hp' & Hs)%(t_tree _ H). congruence. Qed.
Lemma t_not_expired s p t : t_ok s → timers s !! p = Some t → state t ≠ EXPIRED → p ∉ timers_expired_list s.
Proof. intros H Hp Hne (t' & Hp' & Hs)%(t_expired _ H). congruence. Qed.

Definition taken (p : ptr) (t : BSmallTimer) (s : timing) : timing :=
  mkTiming (<[p := set_state INACTIVE t]> (timers s)) (JobQueue.remove p (timers_tree s)) (JobQueue.remove p (timers_expired_list s)).

Lemma remove_timer_runs p t s : t_ok s → timers s !! p = Some t →
  runs (BReactor_RemoveSmallTimer p) s (λ _ s' w, w = [] ∧ s' = taken p t s).
Proof.
  intros H Hp. unfold BReactor_RemoveSmallTimer. apply runs_bind. eapply runs_load_timer; [done|]. unfold taken. destruct (state t) eqn:Hs.
  - apply runs_ret. split; [done|]. rewrite !JobQueue.remove_id by (eapply t_not_tree || eapply t_not_expired; [done|done|congruence]).
    rewrite insert_id; [by destruct s|]. rewrite Hp. by destruct t; cbn in *; subst.
  - apply runs_bind. unfold TimersTree_Remove. apply runs_bind, runs_get, runs_bind, runs_ASSERT.
    { apply bool_decide_eq_true, (t_tree _ H). eauto. }
    apply runs_modify, runs_modify. split; [done|]. cbn. f_equal. rewrite JobQueue.remove_id; [done|]. eapply t_not_expired; [done|done|congruence].
  - apply runs_bind. unfold expired_remove. apply runs_bind, runs_get, runs_bind, runs_ASSERT.
    { apply bool_decide_eq_true, (t_expired _ H). eauto. }
    apply runs_modify, runs_modify. split; [done|]. cbn. f_equal. rewrite JobQueue.remove_id; [done|]. eapply t_not_tree; [done|done|congruence].
Qed.

Lemma set_timer_runs p t s (rel : bool) time now : t_ok s → timers s !! p = Some t →
  let abs := if rel then btime_add now time else time in
  runs (BReactor_SetSmallTimer p rel time now) s (λ _ s' w, w = [] ∧ t_ok s' ∧
    timers s' = <[p := mkTimer abs RUNNING (msTime t)]> (timers s) ∧ timers_expired_list s' = JobQueue.remove p (timers_expired_list s) ∧
    timers_tree s' ≡ₚ p :: JobQueue.remove p (timers_tree s)).
Proof.
  intros H Hp abs. unfold BReactor_SetSmallTimer. apply runs_bind. eapply runs_mono; [by apply remove_timer_runs|]. intros [] s1 w [-> ->].
  pose proof (t_take s p t INACTIVE H Hp eq_refl) as H1. apply runs_bind. eapply runs_load_timer; [apply lookup_insert_eq|].
  apply runs_bind, runs_modify. fold abs. cbn [timers timers_tree timers_expired_list taken]. rewrite insert_insert_eq.
  set (t' := set_state RUNNING _). assert (t' = mkTimer abs RUNNING (msTime t)) as Et by done. rewrite <-Et.
  apply runs_bind. unfold TimersTree_Insert. apply runs_bind, runs_get. cbn [timers timers_tree].
  destruct (tree_insert_ok (<[p := t']> (timers s)) p (JobQueue.remove p (timers_tree s))) as (l' & -> & HP & Hs').
  - rewrite lookup_insert_eq. eauto.
  - intros q [Hne (tq & Hq & _)%(t_tree _ H)]%JobQueue.elem_of_remove. rewrite lookup_insert_ne by done. eauto.
  - apply remove_not.
  - eapply (timers_sorted_ext (timers s)); [|apply sorted_filter, H]. intros q [Hne _]%JobQueue.elem_of_remove. by rewrite at_insert, decide_False.
  - apply runs_bind, runs_modify, runs_ret, runs_ASSERT; [done|]. split_and!; [done| |done|done|done].
    apply t_change; [done|done|apply JobQueue.NoDup_remove, H| |by intros; apply remove_ne| |].
    + intros q Hq. rewrite HP, elem_of_cons, remove_ne by done. naive_solver.
    + rewrite HP. split; [done|]. by left.
    + split; [by intros ?%remove_not|done].
Qed.

(** The first timers of the tree are now in the list. *)
Record shifted (s s' : timing) (l : list ptr) : Prop := mkShifted {
  sh_ok : t_ok s';
  sh_tree : timers_tree s = l ++ timers_tree s';
  sh_expired : timers_expired_list s' = timers_expired_list s ++ l;
  sh_at p : at_ (timers s') p = at_ (timers s) p;
  sh_others p : p ∉ l → timers s' !! p = timers s !! p
}.

Lemma shifted_refl s : t_ok s → shifted s s [].
Proof. intros H. split; [done|done|by rewrite app_nil_r|done|done]. Qed.
Lemma shifted_trans s1 s2 s3 l l' : shifted s1 s2 l → shifted s2 s3 l' → shifted s1 s3 (l ++ l').
Proof.
  intros [A1 A2 A3 A4 A5] [B1 B2 B3 B4 B5]. split; [done|by rewrite A2, B2, app_assoc|by rewrite B3, A3, app_assoc|congruence|].
  intros p [? ?]%not_elem_of_app. rewrite B5, A5; done.
Qed.

Lemma expire_runs p l s : t_ok s → timers_tree s = p :: l → runs (expire p) s (λ _ s' w, w = [] ∧ shifted s s' [p]).
Proof.
  intros H El. assert (Hin : p ∈ timers_tree s) by (rewrite El; by left). pose proof (proj1 (t_tree _ H p) Hin) as (t & Hp & Hs).
  pose proof (sorted_nodup _ _ (t_sorted _ H)) as Hnd. rewrite El in Hnd. apply NoDup_cons in Hnd as [Hnl Hnd].
  assert (Hrem : JobQueue.remove p (p :: l) = l) by (rewrite JobQueue.remove_cons_eq; by apply JobQueue.remove_id).
  assert (Hne : p ∉ timers_expired_list s) by (eapply t_not_expired; [done|done|congruence]).
  unfold expire, TimersTree_Remove, expired_append. apply runs_bind, runs_bind, runs_get, runs_bind, runs_ASSERT; [by apply bool_decide_eq_true|].
  apply runs_modify, runs_bind, runs_bind, runs_get, runs_modify, runs_bind. eapply runs_load_timer; [exact Hp|]. apply runs_modify.
  split; [done|]. cbn. rewrite El, Hrem. split; cbn.
  - apply t_change; [done| | | | | |].
    + pose proof (t_sorted _ H) as Hso. rewrite El in Hso. apply StronglySorted_inv in Hso as [Hso _].
      eapply timers_sorted_ext; [|exact Hso]. intros q _. by apply (at_insert_same _ _ t).
    + apply NoDup_app. split_and!; [apply H| |apply NoDup_singleton]. by intros q Hq ->%list_elem_of_singleton.
    + intros q Hq. rewrite El, elem_of_cons. naive_solver.
    + intros q Hq. rewrite elem_of_app, list_elem_of_singleton. naive_solver.
    + cbn. split; [done|]. done.
    + cbn. split; [done|]. intros _. apply elem_of_app. right. by apply list_elem_of_singleton.
  - by rewrite El.
  - done.
  - by apply (at_insert_same _ _ t).
  - intros q Hq. apply lookup_insert_ne. intros ->. apply Hq. by apply list_elem_of_singleton.
Qed.

Lemma first_running s p l : t_ok s → timers_tree s = p :: l → ∃ t, timers s !! p = Some t ∧ state t = RUNNING ∧ at_ (timers s) p = absTime t.
Proof.
  intros H El. destruct (proj1 (t_tree _ H p)) as (t & Hp & Hs); [rewrite El; by left|]. exists t. split_and!; [done|done|]. unfold at_. by rewrite Hp.
Qed.

Lemma first_least s p l q : t_ok s → timers_tree s = p :: l → q ∈ p :: l → at_ (timers s) p <= at_ (timers s) q.
Proof.
  intros H El [-> | Hq]%elem_of_cons; [lia|]. pose proof (t_sorted _ H) as Hs. rewrite El in Hs. apply StronglySorted_inv in Hs as [_ Hs].
  rewrite Forall_forall in Hs. destruct (Hs q Hq); lia.
Qed.

(** The timers whose time has come, and those it has not come for. *)
Definition due s (l : list ptr) (now : Z) : Prop := ∀ p, p ∈ l → at_ (timers s) p <= now.
Definition future s (l : list ptr) (now : Z) : Prop := ∀ p, p ∈ l → now < at_ (timers s) p.

Lemma move_expired_loop_runs fuel now moved s : t_ok s → (length (timers_tree s) <= fuel)%nat →
  runs (move_expired_loop fuel now moved) s (λ b s' w, w = [] ∧ ∃ l, shifted s s' l ∧ due s l now ∧ future s (timers_tree s') now ∧
    b = moved || negb (bool_decide (l = []))).
Proof.
  revert moved s. induction fuel as [|fuel IH]; intros moved s H Hf; cbn [move_expired_loop]; apply runs_bind; unfold TimersTree_GetFirst;
    apply runs_bind, runs_get, runs_ret; cbn [app]; destruct (timers_tree s) as [|p l] eqn:El; cbn [head].
  1,3: apply runs_ret; split; [done|]; exists []; split_and!; [by apply shifted_refl|by intros p ?%not_elem_of_nil|rewrite El; by intros p ?%not_elem_of_nil|by rewrite orb_false_r].
  { cbn in Hf. lia. }
  destruct (first_running s p l H El) as (t & Hp & Hs & Ht). apply runs_bind. eapply runs_load_timer; [done|].
  apply runs_bind, runs_ASSERT; [by apply bool_decide_eq_true|]. rewrite Z.gtb_ltb. destruct (now <? absTime t) eqn:En; zb.
  - apply runs_ret. split; [done|]. exists []. split_and!; [by apply shifted_refl|by intros q ?%not_elem_of_nil| |by rewrite orb_false_r].
    intros q Hq. rewrite El in Hq. pose proof (first_least s p l q H El Hq). lia.
  - apply runs_bind. eapply runs_mono; [by apply (expire_runs p l)|]. intros [] s1 w [-> Hsh]. cbn [app]. eapply runs_mono; [apply IH; [apply Hsh|]|].
    + pose proof (sh_tree _ _ _ Hsh) as E. rewrite El in E. injection E as E. rewrite <-E. cbn in Hf. lia.
    + intros b s' w (-> & l' & Hsh' & Hd & Hfu & ->). split; [done|]. exists (p :: l').
      split_and!; [by apply (shifted_trans _ _ _ [p] l' Hsh)| |intros q Hq; rewrite <-(sh_at _ _ _ Hsh); by apply Hfu|by rewrite orb_true_r].
      intros q [-> | Hq]%elem_of_cons; [lia|]. rewrite <-(sh_at _ _ _ Hsh). by apply Hd.
Qed.

Lemma move_expired_runs now s : t_ok s →
  runs (move_expired_timers now) s (λ b s' w, w = [] ∧ ∃ l, shifted s s' l ∧ due s l now ∧ future s (timers_tree s') now ∧ b = negb (bool_decide (l = []))).
Proof. intros H. unfold move_expired_timers. apply runs_bind, runs_get. by apply move_expired_loop_runs. Qed.

Lemma move_first_loop_runs fuel now s : t_ok s → (length (timers_tree s) <= fuel)%nat → (∀ p, p ∈ timers_tree s → now <= at_ (timers s) p) →
  runs (move_first_loop fuel now) s (λ _ s' w, w = [] ∧ ∃ l, shifted s s' l ∧ due s l now ∧ future s (timers_tree s') now).
Proof.
  revert s. induction fuel as [|fuel IH]; intros s H Hf Hge; cbn [move_first_loop]; apply runs_bind; unfold TimersTree_GetFirst;
    apply runs_bind, runs_get, runs_ret; cbn [app]; destruct (timers_tree s) as [|p l] eqn:El; cbn [head].
  1,3: apply runs_ret; split; [done|]; exists []; split_and!; [by apply shifted_refl|by intros p ?%not_elem_of_nil|rewrite El; by intros p ?%not_elem_of_nil].
  { cbn in Hf. lia. }
  destruct (first_running s p l H El) as (t & Hp & Hs & Ht). apply runs_bind. eapply runs_load_timer; [done|].
  apply runs_bind, runs_ASSERT; [by apply bool_decide_eq_true|]. pose proof (Hge p ltac:(by left)) as Hgp.
  apply runs_bind, runs_ASSERT; [rewrite Z.geb_leb; apply Z.leb_le; lia|]. rewrite Z.gtb_ltb. destruct (now <? absTime t) eqn:En; zb.
  - apply runs_ret. split; [done|]. exists []. split_and!; [by apply shifted_refl|by intros q ?%not_elem_of_nil|].
    intros q Hq. rewrite El in Hq. pose proof (first_least s p l q H El Hq). lia.
  - apply runs_bind. eapply runs_mono; [by apply (expire_runs p l)|]. intros [] s1 w [-> Hsh]. cbn [app].
    pose proof (sh_tree _ _ _ Hsh) as E. rewrite El in E. injection E as E. eapply runs_mono; [apply IH; [apply Hsh| |]|].
    + rewrite <-E. cbn in Hf. lia.
    + intros q Hq. rewrite (sh_at _ _ _ Hsh). apply Hge. right. by rewrite E.
    + intros b s' w (-> & l' & Hsh' & Hd & Hfu). split; [done|]. exists (p :: l').
      split_and!; [by apply (shifted_trans _ _ _ [p] l' Hsh)| |intros q Hq; rewrite <-(sh_at _ _ _ Hsh); by apply Hfu].
      intros q [-> | Hq]%elem_of_cons; [lia|]. rewrite <-(sh_at _ _ _ Hsh). by apply Hd.
Qed.

Lemma move_first_runs s p l : t_ok s → timers_tree s = p :: l →
  runs move_first_timers s (λ _ s' w, w = [] ∧ ∃ l', shifted s s' (p :: l') ∧ due s (p :: l') (at_ (timers s) p) ∧
    future s (timers_tree s') (at_ (timers s) p)).
Proof.
  intros H El. unfold move_first_timers, TimersTree_GetFirst. apply runs_bind, runs_bind, runs_get, runs_ret. rewrite El. cbn [app head].
  destruct (first_running s p l H El) as (t & Hp & Hs & Ht). apply runs_bind. eapply runs_load_timer; [done|].
  apply runs_bind, runs_ASSERT; [by apply bool_decide_eq_true|]. apply runs_bind. eapply runs_mono; [by apply (expire_runs p l)|].
  intros [] s1 w [-> Hsh]. apply runs_bind, runs_get. pose proof (sh_tree _ _ _ Hsh) as E. rewrite El in E. injection E as E.
  eapply runs_mono; [apply (move_first_loop_runs _ (absTime t)); [apply Hsh|done|]|].
  - intros q Hq. rewrite (sh_at _ _ _ Hsh), <-Ht. apply (first_least s p l q H El). right. by rewrite E.
  - intros b s' w (-> & l' & Hsh' & Hd & Hfu). split; [done|]. exists l'. rewrite Ht.
    split_and!; [by apply (shifted_trans _ _ _ [p] l' Hsh)| |intros q Hq; rewrite <-(sh_at _ _ _ Hsh); by apply Hfu].
    intros q [-> | Hq]%elem_of_cons; [lia|]. rewrite <-(sh_at _ _ _ Hsh). by apply Hd.
Qed.

(** ** File descriptors *)
Implicit Types (f : BFileDescriptor).

Record p_ok (x : polling) : Prop := mkPOk {
  p_interest p f : fds x !! p = Some f → active f = true → interest x !! fd f = Some (p, epoll_events (waitEvents f));
  p_object n p e : interest x !! n = Some (p, e) → ∃ f, fds x !! p = Some f ∧ active f = true ∧ fd f = n;
  p_results i p e : (epoll_results_pos x <= i)%nat → epoll_results x !! i = Some (Some p, e) →
    ∃ f, fds x !! p = Some f ∧ active f = true ∧ epoll_returned_ptr f = Some i;
  p_returned p f i : fds x !! p = Some f → active f = true → epoll_returned_ptr f = Some i →
    (epoll_results_pos x <= i)%nat ∧ ∃ e, epoll_results x !! i = Some (Some p, e);
  p_pos : (epoll_results_pos x <= length (epoll_results x))%nat
}.

Lemma runs_load_fd p f x (Q : BFileDescriptor → polling → list msg → Prop) : fds x !! p = Some f → Q f x [] → runs (load_fd p) x Q.
Proof. unfold runs, load_fd. by intros ->. Qed.

(** An object that is not registered changes. *)
Lemma p_idle x p f : p_ok x → (∀ f, fds x !! p = Some f → active f = false) → active f = false →
  p_ok (mkPolling (<[p := f]> (fds x)) (interest x) (epoll_results x) (epoll_results_pos x)).
Proof.
  intros [H1 H2 H3 H4 H5] Hold Hnew. split; cbn; [| | | |done].
  - intros q g Hq Hg. destruct (decide (q = p)) as [-> | Hne]; [rewrite lookup_insert_eq in Hq; congruence|].
    rewrite lookup_insert_ne in Hq by done. by apply H1.
  - intros n q e Hn. destruct (H2 n q e Hn) as (g & Hg & Ha & Hfd). destruct (decide (q = p)) as [-> | Hne]; [by rewrite (Hold g Hg) in Ha|].
    exists g. by rewrite lookup_insert_ne.
  - intros i q e Hi Hr. destruct (H3 i q e Hi Hr) as (g & Hg & Ha & Hre). destruct (decide (q = p)) as [-> | Hne]; [by rewrite (Hold g Hg) in Ha|].
    exists g. by rewrite lookup_insert_ne.
  - intros q g i Hq Hg. destruct (decide (q = p)) as [-> | Hne]; [rewrite lookup_insert_eq in Hq; congruence|].
    rewrite lookup_insert_ne in Hq by done. by apply H4.
Qed.

Lemma p_free x p : p_ok x → (∀ f, fds x !! p = Some f → active f = false) →
  p_ok (mkPolling (delete p (fds x)) (interest x) (epoll_results x) (epoll_results_pos x)).
Proof.
  intros [H1 H2 H3 H4 H5] Hold. split; cbn; [| | | |done].
  - intros q g [_ Hq]%lookup_delete_Some. by apply H1.
  - intros n q e Hn. destruct (H2 n q e Hn) as (g & Hg & Ha & Hfd). exists g. split_and!; [|done|done]. apply lookup_delete_Some. split; [|done].
    intros ->. by rewrite (Hold g Hg) in Ha.
  - intros i q e Hi Hr. destruct (H3 i q e Hi Hr) as (g & Hg & Ha & Hre). exists g. split_and!; [|done|done]. apply lookup_delete_Some. split; [|done].
    intros ->. by rewrite (Hold g Hg) in Ha.
  - intros q g i [_ Hq]%lookup_delete_Some. by apply H4.
Qed.

(** The object is not in the results. *)
Definition quiet p (x : polling) : Prop := ∀ i e, (epoll_results_pos x <= i)%nat → epoll_results x !! i ≠ Some (Some p, e).

Lemma add_fd_runs p f x ok : p_ok x → fds x !! p = Some f → active f = false →
  runs (BReactor_AddFileDescriptor p ok) x (λ b x' w, p_ok x' ∧ epoll_results x' = epoll_results x ∧ epoll_results_pos x' = epoll_results_pos x ∧
    if b then w = [] ∧ fds x' = <[p := mkFd (fd f) true 0 None]> (fds x) else w = [EpollCtlFailed] ∧ x' = x).
Proof.
  intros H Hp Ha. unfold BReactor_AddFileDescriptor. apply runs_bind. eapply runs_load_fd; [done|]. rewrite Ha. apply runs_bind, runs_ASSERT; [done|].
  apply runs_bind, runs_get. destruct (ok && _) eqn:E; cbn [negb]; [|by apply runs_bind, runs_emit, runs_ret].
  apply andb_true_iff in E as [_ E%bool_decide_eq_true]. apply runs_bind, runs_modify, runs_bind, runs_modify, runs_ret. cbn. split_and!; [|done..].
  destruct H as [H1 H2 H3 H4 H5]. split; cbn; [| | | |done].
  - intros q g Hq Hg. destruct (decide (q = p)) as [-> | Hne].
    + rewrite lookup_insert_eq in Hq. injection Hq as <-. cbn. by rewrite lookup_insert_eq.
    + rewrite lookup_insert_ne in Hq by done. pose proof (H1 q g Hq Hg) as Hi. rewrite lookup_insert_ne; [done|]. intros E'. congruence.
  - intros n q e. destruct (decide (n = fd f)) as [-> | Hne].
    + rewrite lookup_insert_eq. intros [= <- <-]. eexists. by rewrite lookup_insert_eq.
    + rewrite lookup_insert_ne by done. intros Hn. destruct (H2 n q e Hn) as (g & Hg & Hga & Hfd).
      exists g. rewrite lookup_insert_ne; [done|]. intros <-. congruence.
  - intros i q e Hi Hr. destruct (H3 i q e Hi Hr) as (g & Hg & Hga & Hre). exists g. rewrite lookup_insert_ne; [done|]. intros <-. congruence.
  - intros q g i Hq Hg Hi. destruct (decide (q = p)) as [-> | Hne]; [rewrite lookup_insert_eq in Hq; by injection Hq as <-|].
    rewrite lookup_insert_ne in Hq by done. by eapply H4.
Qed.

(** Registrations are of different numbers. *)
Lemma p_inj x p q f g : p_ok x → fds x !! p = Some f → active f = true → fds x !! q = Some g → active g = true → fd f = fd g → p = q.
Proof. intros H Hp Hf Hq Hg E. pose proof (p_interest _ H p f Hp Hf) as A. pose proof (p_interest _ H q g Hq Hg) as B. rewrite E in A. congruence. Qed.

Lemma remove_fd_runs p f x : p_ok x → fds x !! p = Some f → active f = true →
  runs (BReactor_RemoveFileDescriptor p) x (λ _ x' w, w = [] ∧ p_ok x' ∧ quiet p x' ∧
    fds x' = <[p := set_active false f]> (fds x) ∧ epoll_results_pos x' = epoll_results_pos x ∧
    (∀ i q e, epoll_results x' !! i = Some (Some q, e) → epoll_results x !! i = Some (Some q, e)) ∧ length (epoll_results x') = length (epoll_results x)).
Proof.
  intros H Hp Ha. unfold BReactor_RemoveFileDescriptor. apply runs_bind. eapply runs_load_fd; [done|]. rewrite Ha. apply runs_bind, runs_ASSERT; [done|].
  apply runs_bind, runs_modify, runs_bind, runs_get. cbn [interest]. pose proof (p_interest _ H p f Hp Ha) as Hint.
  apply runs_bind, runs_ASSERT; [apply bool_decide_eq_true; rewrite Hint; eauto|]. apply runs_bind, runs_modify. cbn.
  assert (Hgone : ∀ q g, <[p := set_active false f]> (fds x) !! q = Some g → active g = true → q ≠ p ∧ fds x !! q = Some g).
  { intros q g Hq Hg. destruct (decide (q = p)) as [-> | Hne]; [rewrite lookup_insert_eq in Hq; by injection Hq as <-|].
    by rewrite lookup_insert_ne in Hq. }
  assert (Hbase : ∀ l, length l = length (epoll_results x) →
    (∀ i q e, (epoll_results_pos x <= i)%nat → l !! i = Some (Some q, e) ↔ q ≠ p ∧ epoll_results x !! i = Some (Some q, e)) →
    p_ok (mkPolling (<[p := set_active false f]> (fds x)) (delete (fd f) (interest x)) l (epoll_results_pos x))).
  { intros l Hlen Hl. split; cbn.
    - intros q g Hq Hg. destruct (Hgone q g Hq Hg) as [Hne Hq']. rewrite lookup_delete_ne; [by apply (p_interest _ H)|].
      intros E. apply Hne. symmetry. by eapply (p_inj x p q f g).
    - intros n q e [Hn Hi]%lookup_delete_Some. destruct (p_object _ H n q e Hi) as (g & Hg & Hga & Hfd). exists g. rewrite lookup_insert_ne; [done|].
      intros <-. congruence.
    - intros i q e Hi [Hne Hr']%Hl; [|done]. destruct (p_results _ H i q e Hi Hr') as (g & Hg & Hga & Hre). exists g. by rewrite lookup_insert_ne.
    - intros q g i Hq Hg Hi. destruct (Hgone q g Hq Hg) as [Hne Hq']. destruct (p_returned _ H q g i Hq' Hg Hi) as (Hpos & e & He).
      split; [done|]. exists e. by apply Hl.
    - rewrite Hlen. apply H. }
  assert (Hnone : ∀ i e, (epoll_results_pos x <= i)%nat → epoll_results x !! i = Some (Some p, e) → epoll_returned_ptr f = Some i).
  { intros i e Hi He. destruct (p_results _ H i p e Hi He) as (g & Hg & _ & Hre). congruence. }
  destruct (epoll_returned_ptr f) as [i|] eqn:Hret.
  - destruct (p_returned _ H p f i Hp Ha Hret) as (Hpos & e & He). apply runs_bind, runs_get. cbn. rewrite He. apply runs_modify. cbn.
    assert (Hlt : (i < length (epoll_results x))%nat) by by eapply lookup_lt_Some.
    assert (Hl : ∀ j q e', (epoll_results_pos x <= j)%nat → <[i := (None, e)]> (epoll_results x) !! j = Some (Some q, e') ↔ q ≠ p ∧ epoll_results x !! j = Some (Some q, e')).
    { intros j q e' Hj. destruct (decide (j = i)) as [-> | Hne]; [rewrite list_lookup_insert_eq by done; naive_solver|]. rewrite list_lookup_insert_ne by done.
      split; [|by intros []]. intros Hq. split; [|done]. intros ->. pose proof (Hnone j e' Hj Hq). congruence. }
    split_and!; [done|apply Hbase; [by rewrite length_insert|done]| |done|done| |by rewrite length_insert].
    + intros j e' Hj Hr. cbn in *. apply Hl in Hr as [? _]; [done|done].
    + intros j q e'. destruct (decide (j = i)) as [-> | Hne]; [by rewrite list_lookup_insert_eq|by rewrite list_lookup_insert_ne].
  - assert (Hq : ∀ j q e, (epoll_results_pos x <= j)%nat → epoll_results x !! j = Some (Some q, e) ↔ q ≠ p ∧ epoll_results x !! j = Some (Some q, e)).
    { intros j q e Hj. split; [|by intros []]. intros Hr. split; [|done]. intros ->. by pose proof (Hnone j e Hj Hr). }
    apply runs_ret. split_and!; [done|by apply Hbase| |done|done|done|done]. intros j e Hj Hr. cbn in *. apply Hq in Hr as [? _]; done.
Qed.

Lemma p_update x p f g k : p_ok x → fds x !! p = Some f → active f = true → active g = true → fd g = fd f → epoll_returned_ptr g = epoll_returned_ptr f →
  k = <[fd f := (p, epoll_events (waitEvents g))]> (interest x) →
  p_ok (mkPolling (<[p := g]> (fds x)) k (epoll_results x) (epoll_results_pos x)).
Proof.
  intros H Hp Ha Hga Hfd Hre ->. split; cbn.
  - intros q h Hq Hh. destruct (decide (q = p)) as [-> | Hne].
    + rewrite lookup_insert_eq in Hq. injection Hq as <-. by rewrite Hfd, lookup_insert_eq.
    + rewrite lookup_insert_ne in Hq by done. rewrite lookup_insert_ne; [by apply (p_interest _ H)|]. intros E. apply Hne. symmetry. by eapply (p_inj x p q f h).
  - intros n q e. destruct (decide (n = fd f)) as [-> | Hne].
    + rewrite lookup_insert_eq. intros [= <- <-]. exists g. by rewrite lookup_insert_eq.
    + rewrite lookup_insert_ne by done. intros Hi. destruct (p_object _ H n q e Hi) as (h & Hh & Hha & Hf). destruct (decide (q = p)) as [-> | Hqp]; [congruence|].
      exists h. by rewrite lookup_insert_ne.
  - intros i q e Hi Hr. destruct (p_results _ H i q e Hi Hr) as (h & Hh & Hha & Hre'). destruct (decide (q = p)) as [-> | Hqp].
    + exists g. rewrite lookup_insert_eq. split_and!; [done|done|congruence].
    + exists h. by rewrite lookup_insert_ne.
  - intros q h i Hq Hh Hi. destruct (decide (q = p)) as [-> | Hqp].
    + rewrite lookup_insert_eq in Hq. injection Hq as <-. apply (p_returned _ H p f i); [done|done|congruence].
    + rewrite lookup_insert_ne in Hq by done. by apply (p_returned _ H q h i).
  - apply H.
Qed.

Lemma set_events_runs p f x ev : p_ok x → fds x !! p = Some f → active f = true → Z.ldiff ev (Z.lor BREACTOR_READ BREACTOR_WRITE) = 0 →
  runs (BReactor_SetFileDescriptorEvents p ev) x (λ _ x' w, w = [] ∧ p_ok x' ∧ fds x' = <[p := set_waitEvents ev f]> (fds x) ∧
    epoll_results x' = epoll_results x ∧ epoll_results_pos x' = epoll_results_pos x).
Proof.
  intros H Hp Ha Hev. unfold BReactor_SetFileDescriptorEvents. apply runs_bind. eapply runs_load_fd; [done|]. rewrite Ha. apply runs_bind, runs_ASSERT; [done|].
  rewrite Hev. apply runs_bind, runs_ASSERT; [done|]. destruct (waitEvents f =? ev) eqn:E; zb.
  { apply runs_ret. split_and!; [done|done| |done|done]. symmetry. apply insert_id. rewrite Hp. by destruct f; cbn in *; subst. }
  apply runs_bind, runs_get. pose proof (p_interest _ H p f Hp Ha) as Hint.
  apply runs_bind, runs_ASSERT; [apply bool_decide_eq_true; rewrite Hint; eauto|]. apply runs_bind, runs_modify, runs_modify. cbn.
  split_and!; [done| |done|done|done]. by apply (p_update x p f (set_waitEvents ev f)).
Qed.

(** An object without its pointer into the results. *)
Definition view f : Z * bool * Z := (fd f, active f, waitEvents f).

(** The handler of an object is to be called with these events: reading and
    writing, if they are awaited and returned, errors and the end, if they are
    returned, and no others. *)
Definition reports f (e events : Z) : Prop :=
  has events BREACTOR_READ = has (waitEvents f) BREACTOR_READ && has e EPOLLIN ∧
  has events BREACTOR_WRITE = has (waitEvents f) BREACTOR_WRITE && has e EPOLLOUT ∧
  has events BREACTOR_ERROR = has e EPOLLERR ∧ has events BREACTOR_HUP = has e EPOLLHUP ∧
  Z.ldiff events (Z.lor (Z.lor BREACTOR_READ BREACTOR_WRITE) (Z.lor BREACTOR_ERROR BREACTOR_HUP)) = 0.

Lemma report_reports f e : reports f e (report f e).
Proof.
  unfold reports, report. destruct (has (waitEvents f) BREACTOR_READ), (has (waitEvents f) BREACTOR_WRITE), (has e EPOLLIN), (has e EPOLLOUT), (has e EPOLLERR), (has e EPOLLHUP);
    by vm_compute.
Qed.

(** The next result is of an object that was removed, or has no event for it. *)
Definition nothing_for (x : polling) : Prop :=
  ∃ d e, epoll_results x !! epoll_results_pos x = Some (d, e) ∧
    match d with None => True | Some p => ∃ f, fds x !! p = Some f ∧ active f = true ∧ reports f e 0 end.

Lemma dispatch_fd_runs x : p_ok x → (epoll_results_pos x < length (epoll_results x))%nat →
  runs dispatch_fd x (λ r x' _, p_ok x' ∧ epoll_results x' = epoll_results x ∧ epoll_results_pos x' = S (epoll_results_pos x) ∧
    (∀ p, view <$> fds x' !! p = view <$> fds x !! p) ∧
    match r with
    | Some (p, ev) => ∃ f e, fds x !! p = Some f ∧ active f = true ∧ epoll_results x !! epoll_results_pos x = Some (Some p, e) ∧
        reports f e ev ∧ ev ≠ 0
    | None => nothing_for x
    end).
Proof.
  intros H Hlt. unfold dispatch_fd. apply runs_bind, runs_get. destruct (lookup_lt_is_Some_2 _ _ Hlt) as [[d e] Hd]. rewrite Hd.
  apply runs_bind, runs_modify. destruct d as [p|].
  2:{ apply runs_ret. split_and!; [|done|done|done|by exists None, e]. destruct H as [H1 H2 H3 H4 H5]. split; cbn; [done|done| | |lia].
      - intros i q e' Hi. apply H3. lia.
      - intros q f i Hq Hf Hi. destruct (H4 q f i Hq Hf Hi) as (Hp & e' & He). split; [|eauto].
        assert (i ≠ epoll_results_pos x) by (intros ->; congruence). lia. }
  destruct (p_results _ H _ p e (le_n _) Hd) as (f & Hp & Ha & Hre). apply runs_bind. eapply runs_load_fd; [exact Hp|]. rewrite Ha.
  apply runs_bind, runs_ASSERT; [done|]. apply runs_bind, runs_ASSERT; [by apply bool_decide_eq_true|]. apply runs_bind, runs_modify. cbn.
  assert (Hok : p_ok (mkPolling (<[p := set_returned None f]> (fds x)) (interest x) (epoll_results x) (S (epoll_results_pos x)))).
  { split; cbn.
    - intros q g Hq Hg. destruct (decide (q = p)) as [-> | Hne].
      + rewrite lookup_insert_eq in Hq. injection Hq as <-. exact (p_interest _ H p f Hp Ha).
      + rewrite lookup_insert_ne in Hq by done. by apply (p_interest _ H).
    - intros n q e' Hi. destruct (p_object _ H n q e' Hi) as (h & Hh & Hha & Hf). destruct (decide (q = p)) as [-> | Hqp].
      + exists (set_returned None f). rewrite lookup_insert_eq. split_and!; [done|done|]. cbn. congruence.
      + exists h. by rewrite lookup_insert_ne.
    - intros i q e' Hi Hr. destruct (p_results _ H i q e' ltac:(lia) Hr) as (h & Hh & Hha & Hre'). exists h. rewrite lookup_insert_ne; [done|].
      intros <-. assert (h = f) as -> by congruence. assert (epoll_results_pos x = i) by congruence. lia.
    - intros q h i Hq Hh Hi. destruct (decide (q = p)) as [-> | Hqp]; [rewrite lookup_insert_eq in Hq; by injection Hq as <-|].
      rewrite lookup_insert_ne in Hq by done. destruct (p_returned _ H q h i Hq Hh Hi) as (Hpos & e' & He). split; [|eauto].
      assert (i ≠ epoll_results_pos x) by (intros ->; congruence). lia.
    - lia. }
  assert (Hact : ∀ q, view <$> <[p := set_returned None f]> (fds x) !! q = view <$> fds x !! q).
  { intros q. destruct (decide (q = p)) as [-> | Hne]; [rewrite lookup_insert_eq, Hp; cbn; done|by rewrite lookup_insert_ne]. }
  case_if; [apply runs_bind, runs_emit, runs_ret|apply runs_ret]; (split_and!; [done|done|done|done|]); pose proof (report_reports f e) as Hrep.
  - exists (Some p), e. split; [done|]. exists f. split_and!; [done|done|]. by rewrite <-Hif.
  - exists f, e. by split_and!.
Qed.

(** What [epoll_wait] may return: different file descriptors of the set. *)
Definition events_ok (x : polling) (evs : list (ptr * Z)) : Prop :=
  NoDup evs.*1 ∧ (∀ p e, (p, e) ∈ evs → ∃ n i, interest x !! n = Some (p, i)) ∧ zlen evs <= BSYSTEM_MAX_RESULTS.

Lemma set_pointers_runs i l x : NoDup l.*1 →
  (∀ p e, (p, e) ∈ l → ∃ f, fds x !! p = Some f ∧ active f = true ∧ epoll_returned_ptr f = None) →
  runs (set_pointers i (prod_map Some id <$> l)) x (λ _ x' w, w = [] ∧ interest x' = interest x ∧ epoll_results x' = epoll_results x ∧
    epoll_results_pos x' = epoll_results_pos x ∧
    (∀ p, p ∉ l.*1 → fds x' !! p = fds x !! p) ∧
    ∀ j p e, l !! j = Some (p, e) → ∃ f, fds x !! p = Some f ∧ fds x' !! p = Some (set_returned (Some (i + j)%nat) f)).
Proof.
  revert i x. induction l as [|[p e] l IH]; intros i x Hnd Hin; cbn [fmap list_fmap set_pointers].
  { apply runs_ret. split_and!; done. }
  cbn in Hnd. apply NoDup_cons in Hnd as [Hp Hnd]. destruct (Hin p e) as (f & Hf & Ha & Hre); [by left|]. cbn.
  apply runs_bind. eapply runs_load_fd; [done|]. rewrite Ha. apply runs_bind, runs_ASSERT; [done|].
  apply runs_bind, runs_ASSERT; [by apply bool_decide_eq_true|]. apply runs_bind, runs_modify.
  eapply runs_mono; [apply IH; [done|]|].
  - intros q e' Hq. destruct (Hin q e') as (g & Hg & Hga & Hgr); [by right|]. exists g. cbn. rewrite lookup_insert_ne; [done|].
    intros <-. apply Hp. apply list_elem_of_fmap. by exists (p, e').
  - intros [] x' w (-> & H1 & H2 & H3 & H4 & H5). split_and!; [done|done|done|done| |].
    + intros q [Hne Hq]%not_elem_of_cons. rewrite H4 by done. cbn. by rewrite lookup_insert_ne.
    + intros [|j] q e' Hq; cbn in Hq.
      * injection Hq as <- <-. exists f. split; [done|]. rewrite H4 by done. cbn. by rewrite lookup_insert_eq, Nat.add_0_r.
      * destruct (H5 j q e' Hq) as (g & Hg & Hg'). exists g. rewrite Nat.add_succ_r. split; [|done]. cbn in Hg. rewrite lookup_insert_ne in Hg; [done|].
        intros <-. apply Hp. apply list_elem_of_fmap. exists (p, e'). split; [done|]. by eapply list_elem_of_lookup_2.
Qed.

(** All results were dispatched. *)
Definition all_done (x : polling) : Prop := epoll_results_pos x = length (epoll_results x).

Lemma done_returned x p f : p_ok x → all_done x → fds x !! p = Some f → active f = true → epoll_returned_ptr f = None.
Proof.
  intros H Hd Hp Ha. destruct (epoll_returned_ptr f) as [i|] eqn:E; [|done]. destruct (p_returned _ H p f i Hp Ha E) as (Hi & e & He).
  apply lookup_lt_Some in He. unfold all_done in Hd. lia.
Qed.

Lemma clean_ok x : p_ok x → all_done x → p_ok (mkPolling (fds x) (interest x) [] 0).
Proof.
  intros H Hd. split; cbn; [apply H|apply H|by intros i p e _ Hi| |lia].
  intros p f i Hp Ha Hi. by rewrite (done_returned x p f) in Hi.
Qed.

Lemma poll_runs evs x : p_ok x → epoll_results x = [] → epoll_results_pos x = 0%nat → events_ok x evs →
  runs (set_results (prod_map Some id <$> evs) 0;; set_epoll_fd_pointers) x (λ _ x' w, w = [] ∧ p_ok x' ∧
    epoll_results x' = (prod_map Some id <$> evs) ∧ epoll_results_pos x' = 0%nat ∧ interest x' = interest x ∧
    (∀ p, view <$> fds x' !! p = view <$> fds x !! p)).
Proof.
  intros H Hl Hpos (Hnd & Hin & _). assert (Hd : all_done x) by (unfold all_done; by rewrite Hl, Hpos).
  apply runs_bind, runs_modify. unfold set_epoll_fd_pointers. apply runs_bind, runs_get. cbn [epoll_results].
  eapply runs_mono; [apply set_pointers_runs; [done|]|].
  { intros p e Hp. destruct (Hin p e Hp) as (n & i & Hn). destruct (p_object _ H n p i Hn) as (f & Hf & Ha & _). exists f.
    split_and!; [done|done|]. by apply (done_returned x p). }
  intros [] x' w (-> & E1 & E2 & E3 & Hout & Hat). cbn in *.
  assert (Hat' : ∀ p, p ∈ evs.*1 → ∃ j e f, evs !! j = Some (p, e) ∧ fds x !! p = Some f ∧ active f = true ∧ fds x' !! p = Some (set_returned (Some j) f)).
  { intros p ([p' e] & -> & Hp)%list_elem_of_fmap. apply list_elem_of_lookup in Hp as [j Hj]. destruct (Hat j p' e Hj) as (f & Hf & Hf').
    exists j, e, f. split_and!; [done|done| |done]. destruct (Hin p' e) as (n & i & Hn); [by eapply list_elem_of_lookup_2|].
    destruct (p_object _ H n p' i Hn) as (g & Hg & Ha & _). congruence. }
  assert (Hback : ∀ p f', fds x' !! p = Some f' → ∃ f r, fds x !! p = Some f ∧ f' = set_returned r f ∧
    ((p ∈ evs.*1 ∧ (∃ j e, r = Some j ∧ evs !! j = Some (p, e))) ∨ ((p ∉ evs.*1) ∧ r = epoll_returned_ptr f))).
  { intros p f' Hf'. destruct (decide (p ∈ evs.*1)) as [Hp|Hp].
    - destruct (Hat' p Hp) as (j & e & f & Hj & Hf & _ & Hf2). exists f, (Some j). split_and!; [done|congruence|]. left. eauto.
    - rewrite Hout in Hf' by done. exists f', (epoll_returned_ptr f'). split_and!; [done|by destruct f'|by right]. }
  split_and!; [done| |done|done|done|].
  - split; rewrite ?E1, ?E2, ?E3.
    + intros p f' Hf' Ha. destruct (Hback p f' Hf') as (f & r & Hf & -> & _). exact (p_interest _ H p f Hf Ha).
    + intros n p i Hn. destruct (p_object _ H n p i Hn) as (f & Hf & Ha & Hfd). destruct (decide (p ∈ evs.*1)) as [Hp|Hp].
      * destruct (Hat' p Hp) as (j & e & g & _ & Hg & _ & Hg'). eexists. split; [exact Hg'|]. assert (g = f) as -> by congruence. done.
      * exists f. by rewrite Hout.
    + intros i p e _ Hi. rewrite list_lookup_fmap in Hi. destruct (evs !! i) as [[q e']|] eqn:Ei; [|done]. cbn in Hi. injection Hi as <- <-.
      destruct (Hat i q e' Ei) as (f & Hf & Hf'). eexists. split; [exact Hf'|]. split; [|done]. cbn.
      destruct (Hin q e') as (n & k & Hn); [by eapply list_elem_of_lookup_2|]. destruct (p_object _ H n q k Hn) as (g & Hg & Ha & _). congruence.
    + intros p f' i Hf' Ha Hr. split; [lia|]. destruct (Hback p f' Hf') as (f & r & Hf & -> & [(_ & j & e & -> & Hj)|[Hp ->]]).
      * cbn in Hr. injection Hr as <-. exists e. rewrite list_lookup_fmap, Hj. done.
      * cbn in Hr, Ha. by rewrite (done_returned x p f H Hd Hf Ha) in Hr.
    + lia.
  - intros p. destruct (decide (p ∈ evs.*1)) as [Hp|Hp]; [|by rewrite Hout]. destruct (Hat' p Hp) as (j & e & f & _ & -> & Ha & ->). done.
Qed.

(** ** Limits *)
Record l_ok (s : limiting) : Prop := mkLOk {
  l_nodup : NoDup (active_limits_list s);
  l_active p : p ∈ active_limits_list s ↔ ∃ x, limits s !! p = Some x ∧ 0 < count x;
  l_count p x : limits s !! p = Some x → 0 <= count x ∧ 0 < limit x
}.

Lemma runs_load_limit p x (s : limiting) (Q : BReactorLimit → limiting → list msg → Prop) : limits s !! p = Some x → Q x s [] → runs (load_limit p) s Q.
Proof. unfold runs, load_limit. by intros ->. Qed.

Lemma l_change (s : limiting) p x' l : l_ok s → NoDup l → (∀ q, q ≠ p → q ∈ l ↔ q ∈ active_limits_list s) →
  (p ∈ l ↔ 0 < count x') → 0 <= count x' → 0 < limit x' → l_ok (mkLimiting (<[p := x']> (limits s)) l).
Proof.
  intros [H1 H2 H3] Hnd Hoth Hp Hc Hl. split; cbn; [done| |].
  - intros q. destruct (decide (q = p)) as [-> | Hne]; [rewrite lookup_insert_eq, Hp; naive_solver|]. rewrite lookup_insert_ne, Hoth by done. apply H2.
  - intros q y Hq. destruct (decide (q = p)) as [-> | Hne]; [rewrite lookup_insert_eq in Hq; by injection Hq as <-|].
    rewrite lookup_insert_ne in Hq by done. by eapply H3.
Qed.

Lemma l_inactive (s : limiting) p x : l_ok s → limits s !! p = Some x → count x <= 0 → p ∉ active_limits_list s.
Proof. intros H Hp Hc (y & Hy & Hpos)%(l_active _ H). assert (y = x) as -> by congruence. lia. Qed.

Lemma limit_increment_runs p x (s : limiting) : l_ok s → limits s !! p = Some x →
  runs (BReactorLimit_Increment p) s (λ b (s' : limiting) w, w = [] ∧ l_ok s' ∧ b = (count x <? limit x) ∧
    limits s' = if count x <? limit x then <[p := mkLimit (limit x) (count x + 1)]> (limits s) else limits s).
Proof.
  intros H Hp. destruct (l_count _ H p x Hp) as [Hc Hl]. unfold BReactorLimit_Increment. apply runs_bind. eapply runs_load_limit; [done|].
  rewrite Z.geb_leb, Z.leb_antisym. destruct (count x <? limit x) eqn:E; cbn [negb]; zb; [|by apply runs_ret]. apply runs_bind, runs_modify, runs_bind.
  assert (Hpos : 0 < count x → p ∈ active_limits_list s) by (intros; apply (l_active _ H); eauto).
  unfold when. destruct (count x + 1 =? 1) eqn:E1; zb.
  - apply runs_bind, runs_get, runs_modify, runs_ret. split_and!; [done| |done|done]. cbn.
    pose proof (l_inactive s p x H Hp ltac:(lia)) as Hn. apply l_change; [done| | | |cbn; lia|done].
    + apply NoDup_app. split_and!; [apply H| |apply NoDup_singleton]. by intros q Hq ->%list_elem_of_singleton.
    + intros q Hq. rewrite elem_of_app, list_elem_of_singleton. naive_solver.
    + cbn. split; [lia|]. intros _. apply elem_of_app. right. by apply list_elem_of_singleton.
  - apply runs_ret, runs_ret. split_and!; [done| |done|done]. cbn. apply l_change; [done|apply H|done| |cbn; lia|done]. cbn. split; [lia|]. intros _. apply Hpos. lia.
Qed.

Lemma limit_free_runs p x (s : limiting) : l_ok s → limits s !! p = Some x →
  runs (BReactorLimit_Free p) s (λ _ (s' : limiting) w, w = [] ∧ l_ok s' ∧ limits s' = delete p (limits s)).
Proof.
  intros H Hp. unfold BReactorLimit_Free. apply runs_bind. eapply runs_load_limit; [done|]. apply runs_bind.
  eapply (runs_mono _ _ (λ _ (s' : limiting) w, w = [] ∧ s' = mkLimiting (limits s) (JobQueue.remove p (active_limits_list s)))).
  - unfold when. rewrite Z.gtb_ltb. destruct (0 <? count x) eqn:E; zb.
    + unfold limits_remove. apply runs_bind, runs_get, runs_bind, runs_ASSERT; [apply bool_decide_eq_true, (l_active _ H); eauto|]. by apply runs_modify.
    + apply runs_ret. split; [done|]. rewrite JobQueue.remove_id; [by destruct s|]. by eapply l_inactive.
  - intros [] s' w [-> ->]. apply runs_modify. split_and!; [done| |done]. cbn. split; cbn.
    + apply JobQueue.NoDup_remove, H.
    + intros q. rewrite JobQueue.elem_of_remove, (l_active _ H). split.
      * intros [Hne (y & Hy & Hc)]. exists y. by rewrite lookup_delete_ne.
      * intros (y & [Hne Hy]%lookup_delete_Some & Hc). split; [done|]. eauto.
    + intros q y [_ Hy]%lookup_delete_Some. by eapply l_count.
Qed.

Lemma reset_loop_runs fuel (s : limiting) : l_ok s → (length (active_limits_list s) <= fuel)%nat →
  runs (reset_limits_loop fuel) s (λ _ (s' : limiting) w, w = [] ∧ l_ok s' ∧ active_limits_list s' = [] ∧
    ∀ p, limits s' !! p = (λ x, mkLimit (limit x) 0) <$> limits s !! p).
Proof.
  revert s. induction fuel as [|fuel IH]; intros s H Hf; cbn [reset_limits_loop]; apply runs_bind, runs_get;
    destruct (active_limits_list s) as [|p l] eqn:El.
  1,3: apply runs_ret; split_and!; [done|done|done|]; intros p; destruct (limits s !! p) as [x|] eqn:Hp; [|done]; cbn; f_equal;
    pose proof (l_count _ H p x Hp); (assert (¬ 0 < count x) by (intros Hc; apply (not_elem_of_nil p); rewrite <-El; apply (l_active _ H); eauto));
    destruct x; cbn in *; f_equal; lia.
  { cbn in Hf. lia. }
  assert (Hin : p ∈ active_limits_list s) by (rewrite El; by left). destruct (proj1 (l_active _ H p) Hin) as (x & Hp & Hc).
  destruct (l_count _ H p x Hp) as [_ Hl]. pose proof (l_nodup _ H) as Hnd. rewrite El in Hnd. apply NoDup_cons in Hnd as [Hnl Hnd].
  apply runs_bind. eapply runs_load_limit; [done|]. apply runs_bind, runs_ASSERT; [rewrite Z.gtb_ltb; by apply Z.ltb_lt|].
  apply runs_bind, runs_modify, runs_bind. unfold limits_remove. apply runs_bind, runs_get, runs_bind, runs_ASSERT; [by apply bool_decide_eq_true|].
  apply runs_modify. cbn [active_limits_list limits]. rewrite El, JobQueue.remove_cons_eq, JobQueue.remove_id by done.
  eapply runs_mono; [apply IH; [|cbn in *; lia]|].
  - apply l_change; [done|done| |cbn; split; [done|lia]|done|done]. intros q Hq. rewrite El, elem_of_cons. naive_solver.
  - intros [] s' w (-> & H' & El' & Hall). split_and!; [done|done|done|]. intros q. rewrite Hall. cbn. destruct (decide (q = p)) as [-> | Hne].
    + by rewrite lookup_insert_eq, Hp.
    + by rewrite lookup_insert_ne.
Qed.
End ReactorOk.
