(* ===== verification/ReactorLoop.v ===== *)
(** * Any run of the event loop

    [reachable]: the states of the reactor after any sequence of rounds of the
    loop and operations of clients, with the time up to then. *)

From stdpp Require Import sorting.
From S2P Require Import Prelude BPending Net Reactor ReactorOk.
Import BTime Reactor ReactorOk.

Module ReactorLoop.
Implicit Types (o : BReactor) (p q : ptr).

(** ** Parts of the reactor *)
Lemma runs_tm {A} (m : TM A) o (Q : A → BReactor → list msg → Prop) : runs m (tm o) (λ a s w, Q a (set_tm s o) w) → runs (on_tm m) o Q.
Proof. unfold runs, on_tm. by destruct (m (tm o)) as [[[a s] w]|]. Qed.
Lemma runs_po {A} (m : PM A) o (Q : A → BReactor → list msg → Prop) : runs m (po o) (λ a s w, Q a (set_po s o) w) → runs (on_po m) o Q.
Proof. unfold runs, on_po. by destruct (m (po o)) as [[[a s] w]|]. Qed.
Lemma runs_li {A} (m : LM A) o (Q : A → BReactor → list msg → Prop) : runs m (li o) (λ a s w, Q a (set_li s o) w) → runs (on_li m) o Q.
Proof. unfold runs, on_li. by destruct (m (li o)) as [[[a s] w]|]. Qed.

Lemma set_tm_same o : set_tm (tm o) o = o.
Proof. by destruct o. Qed.
Lemma set_po_same o : set_po (po o) o = o.
Proof. by destruct o. Qed.

(** The invariant, at the time [T]. *)
Record r_ok (T : Z) o : Prop := mkROk {
  r_tm : t_ok (tm o);
  r_po : p_ok (po o);
  r_li : l_ok (li o);
  r_jobs : NoDup (pending_jobs o);
  r_due : due (tm o) (timers_expired_list (tm o)) T
}.

(** ** Waiting *)

(** What the system may answer: the clock does not go back; [epoll_wait]
    returns file descriptors of the set, and none only if the time it was given
    is over. *)
Fixpoint answers_ok (x : polling) (timeout : option Z) (now : Z) (answers : list (answer * Z)) : Prop :=
  match answers with
  | [] => True
  | (a, clock) :: answers' =>
      now <= clock ∧
      match a with
      | EINTR => True
      | Returned evs => events_ok x evs ∧ (evs = [] → ∃ t, timeout = Some t ∧ now + Z.min INT_MAX (t - now) <= clock)
      end ∧
      answers_ok x timeout clock answers'
  end.

(** The time up to which is waited: that of the first timer. *)
Definition timeout_of (s : timing) : option Z := match timers_tree s with [] => None | p :: _ => Some (at_ (timers s) p) end.

(** What a wait ends with: timers expire, or events are returned. *)
Inductive woken (c : Z) o : BReactor → Prop :=
  | woken_timers s' l : l ≠ [] → shifted (tm o) s' l → due (tm o) l c → woken c o (set_tm s' o)
  | woken_events x' evs : evs ≠ [] → p_ok x' → epoll_results x' = (prod_map Some id <$> evs) → epoll_results_pos x' = 0%nat →
      interest x' = interest (po o) → (∀ p, view <$> fds x' !! p = view <$> fds (po o) !! p) → woken c o (set_po x' o).

(** In all answers the clock is before the time up to which is waited. *)
Definition early (timeout : option Z) (answers : list (answer * Z)) : Prop := ∀ t a c, timeout = Some t → (a, c) ∈ answers → c < t.

Lemma early_cons timeout a c answers : (∀ t, timeout = Some t → c < t) → early timeout answers → early timeout ((a, c) :: answers).
Proof. intros H1 H2 t b c' Ht [[= -> ->]|Hin]%elem_of_cons; [by apply H1|by apply (H2 t b)]. Qed.

Lemma move_first_woken o p l c (Q : unit → BReactor → list msg → Prop) : t_ok (tm o) → timers_tree (tm o) = p :: l → at_ (timers (tm o)) p <= c →
  (∀ o', woken c o o' → Q tt o' []) → runs (on_tm move_first_timers) o Q.
Proof.
  intros H El Hc HQ. apply runs_tm. eapply runs_mono; [by eapply move_first_runs|]. intros [] s' w (-> & l' & Hsh & Hd & _). apply HQ.
  apply (woken_timers c o s' (p :: l')); [done|done|]. intros q Hq. pose proof (Hd q Hq). lia.
Qed.

Lemma wait_loop_runs answers now now' o :
  t_ok (tm o) → p_ok (po o) → epoll_results (po o) = [] → epoll_results_pos (po o) = 0%nat →
  answers_ok (po o) (timeout_of (tm o)) now answers → (∀ p l, timers_tree (tm o) = p :: l → now' = now ∧ now <= at_ (timers (tm o)) p) →
  runs (wait_loop answers (timeout_of (tm o)) now') o (λ r o' w, w = [] ∧
    match r with None => o' = o ∧ early (timeout_of (tm o)) answers | Some c => now <= c ∧ woken c o o' end).
Proof.
  intros Ht Hp Hr0 Hpos. revert now now'. induction answers as [|[a clock] answers IH]; intros now now' Hok Hnow; cbn [wait_loop].
  { apply runs_ret. split_and!; [done|done|]. by intros t a c _ ?%not_elem_of_nil. }
  destruct Hok as (Hclock & Ha & Hok). unfold try_again.
  assert (Hagain : runs (match timeout_of (tm o) with
      | Some t => if clock >=? t then on_tm move_first_timers;; mret (Some clock) else wait_loop answers (timeout_of (tm o)) clock
      | None => wait_loop answers (timeout_of (tm o)) now'
      end) o (λ r o' w, w = [] ∧ match r with None => o' = o ∧ early (timeout_of (tm o)) ((a, clock) :: answers) | Some c => now <= c ∧ woken c o o' end)).
  { destruct (timeout_of (tm o)) as [t|] eqn:Et.
    - unfold timeout_of in Et. destruct (timers_tree (tm o)) as [|p l] eqn:El; [done|]. injection Et as Et. rewrite Z.geb_leb.
      destruct (t <=? clock) eqn:Ec; zb.
      + apply runs_bind. eapply (move_first_woken o p l clock); [done|done|lia|]. intros o' Hw. by apply runs_ret.
      + eapply runs_mono; [apply IH; [done|]|]. { intros p' l' [= <- <-]. split; [done|lia]. }
        intros r o' w (-> & Hr). split; [done|]. destruct r; destruct Hr; (split; [done || lia|]); [done|apply early_cons; [|done]]; intros ? [= <-]; lia.
    - assert (El : timers_tree (tm o) = []) by (unfold timeout_of in Et; by destruct (timers_tree (tm o))).
      eapply runs_mono; [apply (IH clock now'); [done|]|].
      + intros p l E. by rewrite El in E.
      + intros r o' w (-> & Hr). split; [done|]. destruct r; destruct Hr; (split; [done || lia|]); [done|apply early_cons; [|done]]; intros ? [= <-]; lia. }
  destruct a as [|evs]; [exact Hagain|]. destruct Ha as [Hev Hempty]. pose proof Hev as (_ & _ & Hmax). pose proof (zlen_nonneg evs) as Hz.
  apply runs_bind, runs_ASSERT.
  { destruct (zlen evs =? 0) eqn:E; [|done]. zb. apply zlen_zero_inv in E as ->. destruct (Hempty eq_refl) as (t & -> & _). done. }
  apply runs_bind, runs_ASSERT; [by apply Z.leb_le|]. destruct (zlen evs =? 0) eqn:Ez; cbn [negb orb]; zb.
  - pose proof (zlen_zero_inv _ Ez) as ->. destruct (Hempty eq_refl) as (t & Et & Hle). rewrite Et in *. rewrite Z.gtb_ltb.
    unfold timeout_of in Et. destruct (timers_tree (tm o)) as [|p l] eqn:El; [done|]. injection Et as Et. destruct (Hnow p l eq_refl) as [-> Hge].
    destruct (INT_MAX <? t - now) eqn:Ei; zb.
    + destruct (INT_MAX =? t - now) eqn:E2; zb; [lia|]. exact Hagain.
    + rewrite Z.eqb_refl. apply runs_bind. eapply (move_first_woken o p l clock); [done|done| |].
      * rewrite Et. lia.
      * intros o' Hw. by apply runs_ret.
  - apply runs_bind, runs_po. eapply runs_mono; [by apply poll_runs|]. intros [] x' w (-> & H1 & H2 & H3 & H4 & H5). apply runs_ret.
    split; [done|]. split; [lia|]. apply (woken_events clock o x' evs); try done. by intros ->.
Qed.

Lemma answers_ok_ext x x' timeout now answers : interest x' = interest x → answers_ok x timeout now answers → answers_ok x' timeout now answers.
Proof.
  intros E. revert now. induction answers as [|[a c] answers IH]; intros now; [done|]. cbn. intros (H1 & H2 & H3). split_and!; [done| |by apply IH].
  destruct a; [done|]. destruct H2 as [(A & B & C) D]. split; [|done]. split_and!; [done| |done]. by rewrite E.
Qed.

Lemma shifted_nil s s' : shifted s s' [] → s' = s.
Proof.
  intros [_ E1 E2 _ E3]. destruct s, s'; cbn in *. rewrite app_nil_r in E2. subst. f_equal. apply map_eq. intros p. apply E3, not_elem_of_nil.
Qed.

Definition cleaned o : BReactor := set_po (mkPolling (fds (po o)) (interest (po o)) [] 0) o.

(** What becomes of the limits: counters are set to zero, unless timers had
    expired before the wait. *)
Definition limits_reset (T : Z) o (y : limiting) : Prop :=
  (∃ t, timeout_of (tm o) = Some t ∧ t <= T ∧ y = li o) ∨
  active_limits_list y = [] ∧ ∀ p, limits y !! p = (λ x, mkLimit (limit x) 0) <$> limits (li o) !! p.

(** What [wait_for_events] comes to. *)
Definition waited (T : Z) answers o (r : option Z) o' : Prop :=
  match r with
  | None => o' = cleaned o ∧ early (timeout_of (tm o)) ((EINTR, T) :: answers)
  | Some c => T <= c ∧ ∃ o1 y, woken c (cleaned o) o1 ∧ o' = set_li y o1 ∧ l_ok y ∧ limits_reset T o y
  end.

Lemma wait_for_events_runs T answers o :
  r_ok T o → pending_jobs o = [] → timers_expired_list (tm o) = [] → all_done (po o) → answers_ok (po o) (timeout_of (tm o)) T answers →
  runs (wait_for_events T answers) o (λ r o' w, w = [] ∧ waited T answers o r o').
Proof.
  intros [Ht Hp Hl _ _] Hj He Hd Hans. unfold wait_for_events. apply runs_bind, runs_get. rewrite Hj, He.
  apply runs_bind, runs_ASSERT; [done|]. apply runs_bind, runs_ASSERT; [done|]. apply runs_bind, runs_ASSERT; [by apply Nat.eqb_eq|].
  apply runs_bind, runs_po, runs_modify. fold (cleaned o). pose proof (clean_ok _ Hp Hd) as Hp1.
  apply runs_bind, runs_tm. unfold TimersTree_GetFirst. apply runs_bind, runs_get, runs_ret. rewrite set_tm_same. cbn [tm cleaned set_po app].
  assert (Hreset : ∀ c o1, T <= c → woken c (cleaned o) o1 → runs (on_li reset_limits;; mret (Some c)) o1 (λ r o' w, w = [] ∧ waited T answers o r o')).
  { intros c o1 Hc Hw. apply runs_bind, runs_li. unfold reset_limits. apply runs_bind, runs_get.
    eapply runs_mono; [apply reset_loop_runs; [by destruct Hw|done]|]. intros [] y w (-> & Hy & Ey & Hlim). apply runs_ret. split; [done|].
    split; [done|]. exists o1, y. split_and!; [done|done|done|]. right. split; [done|]. intros p. rewrite Hlim. by destruct Hw. }
  assert (Hans' : answers_ok (po (cleaned o)) (timeout_of (tm (cleaned o))) T answers) by by apply (answers_ok_ext (po o)).
  destruct (timers_tree (tm o)) as [|p l] eqn:El; cbn [head].
  - apply runs_bind. assert (timeout_of (tm (cleaned o)) = None) as Eto by (unfold timeout_of; cbn; by rewrite El).
    eapply runs_mono; [rewrite <-Eto; apply (wait_loop_runs answers T 0 (cleaned o)); try done; cbn; by rewrite El|].
    intros r o1 w (-> & Hr). cbn [app]. destruct r as [c|]; [destruct Hr; by apply Hreset|]. destruct Hr as [-> He']. apply runs_ret.
    split; [done|]. split; [done|]. apply early_cons; [|exact He']. unfold timeout_of. rewrite El. done.
  - destruct (first_running _ p l Ht El) as (t & Hpt & Hs & Eat). apply runs_bind, runs_tm. eapply runs_load_timer; [exact Hpt|]. rewrite set_tm_same.
    apply runs_bind, runs_ASSERT; [by apply bool_decide_eq_true|]. apply runs_bind, runs_tm. eapply runs_mono; [by apply move_expired_runs|].
    intros b s' w (-> & l' & Hsh & Hdue & Hfut & ->). destruct (decide (l' = [])) as [-> | Hne].
    + rewrite bool_decide_true by done. cbn [negb app]. pose proof (shifted_nil _ _ Hsh) as ->. rewrite set_tm_same. apply runs_bind.
      assert (timeout_of (tm (cleaned o)) = Some (absTime t)) as Eto by (unfold timeout_of; cbn; by rewrite El, Eat).
      eapply runs_mono; [rewrite <-Eto; apply (wait_loop_runs answers T T (cleaned o)); try done|].
      * cbn. rewrite El. intros p' l'' [= <- <-]. split; [done|]. pose proof (Hfut p ltac:(cbn; rewrite El; by left)) as Hf. cbn in Hf. lia.
      * intros r o1 w (-> & Hr). cbn [app]. destruct r as [c|]; [destruct Hr; by apply Hreset|]. destruct Hr as [-> He']. apply runs_ret.
        split; [done|]. split; [done|]. apply early_cons; [|exact He']. unfold timeout_of. rewrite El. intros ? [= <-]. apply (Hfut p). cbn. rewrite El. by left.
    + rewrite bool_decide_false by done. cbn [negb app]. apply runs_ret. split; [done|]. split; [lia|]. exists (set_tm s' (cleaned o)), (li o).
      split_and!; [by apply (woken_timers _ _ s' l')|by destruct o|done|]. left. exists (absTime t). split_and!; [unfold timeout_of; by rewrite El, Eat| |done].
      destruct l' as [|q l']; [done|]. pose proof (sh_tree _ _ _ Hsh) as Et. cbn in Et. rewrite El in Et. injection Et as <- _.
      pose proof (Hdue p ltac:(by left)) as Hdp. cbn in Hdp. lia.
Qed.

(** ** Operations of the clients *)
Inductive op :=
  | TimerInit (p : ptr) (ms : option Z)
  | TimerFree (p : ptr)
  | SetTimer (p : ptr) (relative : bool) (time : Z)
  | SetDefault (p : ptr)
  | RemoveTimer (p : ptr)
  | FdInit (p : ptr) (n : Z)
  | FdFree (p : ptr)
  | AddFd (p : ptr) (ok : bool)
  | RemoveFd (p : ptr)
  | SetEvents (p : ptr) (events : Z)
  | LimitInit (p : ptr) (n : Z)
  | LimitFree (p : ptr)
  | Increment (p : ptr)
  | SetLimit (p : ptr) (n : Z)
  | JobSet (p : ptr)
  | JobUnset (p : ptr)
  | Quit (code : Z).

(** [now]: what the clock shows.  The memory of objects is the clients'. *)
Definition perform (now : Z) (x : op) : RM unit :=
  match x with
  | TimerInit p ms => on_tm (match ms with Some ms => BTimer_Init p ms | None => BSmallTimer_Init p end)
  | TimerFree p => modify (λ o, set_tm (mkTiming (delete p (timers (tm o))) (timers_tree (tm o)) (timers_expired_list (tm o))) o)
  | SetTimer p relative time => on_tm (BReactor_SetSmallTimer p relative time now)
  | SetDefault p => on_tm (BReactor_SetTimer p now)
  | RemoveTimer p => on_tm (BReactor_RemoveTimer p)
  | FdInit p n => on_po (BFileDescriptor_Init p n)
  | FdFree p => modify (λ o, set_po (mkPolling (delete p (fds (po o))) (interest (po o)) (epoll_results (po o)) (epoll_results_pos (po o))) o)
  | AddFd p ok => on_po (BReactor_AddFileDescriptor p ok);; mret tt
  | RemoveFd p => on_po (BReactor_RemoveFileDescriptor p)
  | SetEvents p events => on_po (BReactor_SetFileDescriptorEvents p events)
  | LimitInit p n => on_li (BReactorLimit_Init p n)
  | LimitFree p => on_li (BReactorLimit_Free p)
  | Increment p => on_li (BReactorLimit_Increment p);; mret tt
  | SetLimit p n => on_li (BReactorLimit_SetLimit p n)
  | JobSet p => modify (λ o, set_jobs (JobQueue.set p (pending_jobs o)) o)
  | JobUnset p => modify (λ o, set_jobs (JobQueue.unset p (pending_jobs o)) o)
  | Quit code => BReactor_Quit code
  end.

(** How the functions may be called. *)
Definition allowed o (x : op) : Prop :=
  match x with
  | TimerInit p _ | TimerFree p => ∀ t, timers (tm o) !! p = Some t → state t = INACTIVE
  | SetTimer p _ _ | RemoveTimer p => is_Some (timers (tm o) !! p)
  | SetDefault p => ∃ t ms, timers (tm o) !! p = Some t ∧ msTime t = Some ms
  | FdInit p _ | FdFree p => ∀ f, fds (po o) !! p = Some f → active f = false
  | AddFd p _ => ∃ f, fds (po o) !! p = Some f ∧ active f = false
  | RemoveFd p => ∃ f, fds (po o) !! p = Some f ∧ active f = true
  | SetEvents p events => (∃ f, fds (po o) !! p = Some f ∧ active f = true) ∧ Z.ldiff events (Z.lor BREACTOR_READ BREACTOR_WRITE) = 0
  | LimitInit p n => limits (li o) !! p = None ∧ 0 < n
  | LimitFree p | Increment p => is_Some (limits (li o) !! p)
  | SetLimit p n => is_Some (limits (li o) !! p) ∧ 0 < n
  | JobSet _ | JobUnset _ | Quit _ => True
  end.

Lemma due_at (s s' : timing) l l' T : (∀ q, q ∈ l' → q ∈ l ∧ at_ (timers s') q = at_ (timers s) q) → due s l T → due s' l' T.
Proof. intros H Hd q Hq. destruct (H q Hq) as [Hl ->]. by apply Hd. Qed.

Lemma set_runs T o p t (rel : bool) time : r_ok T o → timers (tm o) !! p = Some t →
  runs (on_tm (BReactor_SetSmallTimer p rel time T)) o (λ _ o' _, r_ok T o' ∧ po o' = po o).
Proof.
  intros [Ht Hp Hl Hj Hd] Hpt. apply runs_tm. eapply runs_mono; [by apply set_timer_runs|]. intros [] s' w (-> & Ht' & Ets & Eex & _).
  split; [|done]. split; cbn; [done..|]. rewrite Eex. eapply due_at; [|exact Hd]. intros q [Hne Hq]%JobQueue.elem_of_remove.
  split; [done|]. by rewrite Ets, at_insert, decide_False.
Qed.

Lemma remove_runs T o p t : r_ok T o → timers (tm o) !! p = Some t →
  runs (on_tm (BReactor_RemoveSmallTimer p)) o (λ _ o' _, r_ok T o' ∧ po o' = po o).
Proof.
  intros [Ht Hp Hl Hj Hd] Hpt. apply runs_tm. eapply runs_mono; [by apply remove_timer_runs|]. intros [] s' w (-> & ->).
  split; [|done]. split; cbn; [by eapply t_take|done..|]. eapply due_at; [|exact Hd]. intros q [Hne Hq]%JobQueue.elem_of_remove.
  split; [done|]. cbn. by rewrite at_insert, decide_False.
Qed.

(** A timer that is in no place is written, or its memory given back. *)
Lemma t_store s p t' : t_ok s → (∀ t, timers s !! p = Some t → state t = INACTIVE) → state t' = INACTIVE →
  t_ok (mkTiming (<[p := t']> (timers s)) (timers_tree s) (timers_expired_list s)).
Proof.
  intros H Hold Hnew.
  assert (Hnt : p ∉ timers_tree s) by (intros (t & Hp & Hs)%(t_tree _ H); pose proof (Hold t Hp); congruence).
  assert (Hne : p ∉ timers_expired_list s) by (intros (t & Hp & Hs)%(t_expired _ H); pose proof (Hold t Hp); congruence).
  apply t_change; [done| |apply H|done|done|split; [done|congruence]|split; [done|congruence]].
  eapply timers_sorted_ext; [|apply H]. intros q Hq. rewrite at_insert, decide_False; [done|]. by intros ->.
Qed.

Lemma t_forget s p : t_ok s → (∀ t, timers s !! p = Some t → state t = INACTIVE) →
  t_ok (mkTiming (delete p (timers s)) (timers_tree s) (timers_expired_list s)).
Proof.
  intros H Hold.
  assert (Hgone : ∀ q x, x ≠ INACTIVE → (∃ t, delete p (timers s) !! q = Some t ∧ state t = x) ↔ ∃ t, timers s !! q = Some t ∧ state t = x).
  { intros q x Hx. split; intros (t & Hq & Hs).
    - apply lookup_delete_Some in Hq as [_ Hq]. eauto.
    - exists t. split; [|done]. apply lookup_delete_Some. split; [|done]. intros <-. pose proof (Hold t Hq). congruence. }
  split; cbn; [|intros q; rewrite (Hgone q RUNNING) by done; apply H|apply H|intros q; rewrite (Hgone q EXPIRED) by done; apply H].
  eapply timers_sorted_ext; [|apply H]. intros q Hq. unfold at_. rewrite lookup_delete_ne; [done|]. intros <-.
  apply (t_tree _ H) in Hq as (t & Hp & Hs). pose proof (Hold t Hp). congruence.
Qed.

Lemma due_inactive o p T f : t_ok (tm o) → (∀ t, timers (tm o) !! p = Some t → state t = INACTIVE) →
  (∀ q, q ≠ p → at_ f q = at_ (timers (tm o)) q) → due (tm o) (timers_expired_list (tm o)) T →
  due (mkTiming f (timers_tree (tm o)) (timers_expired_list (tm o))) (timers_expired_list (tm o)) T.
Proof.
  intros H Hold Hf. apply due_at. intros q Hq. split; [done|]. cbn. apply Hf. intros ->. apply (t_expired _ H) in Hq as (t & Hp & Hs).
  pose proof (Hold t Hp). congruence.
Qed.

(** Results are not added. *)
Definition no_new (x x' : polling) : Prop := ∀ p, quiet p x → quiet p x'.

Lemma no_new_same x x' : epoll_results x' = epoll_results x → epoll_results_pos x' = epoll_results_pos x → no_new x x'.
Proof. intros E1 E2 q Hq i e. rewrite E1, E2. apply Hq. Qed.

Lemma perform_runs T x o : r_ok T o → allowed o x → runs (perform T x) o (λ _ o' _, r_ok T o' ∧ no_new (po o) (po o')).
Proof.
  intros H Ha. pose proof H as [Ht Hp Hl Hj Hd]. destruct x; cbn [perform allowed] in *.
  - apply runs_tm. destruct ms; apply runs_modify; (split; [|by apply no_new_same]); (split; cbn; [by apply t_store|done..|]);
      (apply (due_inactive o p); [done..| |done]); intros q Hq; by rewrite at_insert, decide_False.
  - apply runs_modify. split; [|by apply no_new_same]. split; cbn; [by apply t_forget|done..|]. apply (due_inactive o p); [done..| |done].
    intros q Hq. unfold at_. by rewrite lookup_delete_ne.
  - destruct Ha as [t Hpt]. eapply runs_mono; [by eapply set_runs|]. intros [] o' w (H' & ->). split; [done|by apply no_new_same].
  - destruct Ha as (t & ms & Hpt & Hms). eapply (runs_mono _ _ (λ _ o' _, r_ok T o' ∧ po o' = po o)); [|intros [] o' w (H' & ->); split; [done|by apply no_new_same]].
    apply runs_tm. unfold BReactor_SetTimer. apply runs_bind. eapply runs_load_timer; [done|]. rewrite Hms.
    pose proof (set_runs T o p t true ms H Hpt) as Hr. unfold runs, on_tm in *. destruct (BReactor_SetSmallTimer p true ms T (tm o)) as [[[a s'] w]|]; done.
  - destruct Ha as [t Hpt]. eapply runs_mono; [by eapply (remove_runs T o p t)|]. intros [] o' w (H' & ->). split; [done|by apply no_new_same].
  - apply runs_po, runs_modify. split; [|by apply no_new_same]. split; cbn; [done| |done..]. by apply p_idle.
  - apply runs_modify. split; [|by apply no_new_same]. split; cbn; [done| |done..]. by apply p_free.
  - destruct Ha as (f & Hf & Hfa). apply runs_bind, runs_po. eapply runs_mono; [by apply (add_fd_runs p f)|].
    intros b x' w (Hx & E1 & E2 & _). apply runs_ret. split; [by split|]. by apply no_new_same.
  - destruct Ha as (f & Hf & Hfa). apply runs_po. eapply runs_mono; [by apply (remove_fd_runs p f)|].
    intros [] x' w (-> & Hx & _ & _ & E & Hsub & _). split; [by split|]. intros q Hq i e Hi Hr. cbn in *. rewrite E in Hi. apply (Hq i e Hi). by apply Hsub.
  - destruct Ha as [(f & Hf & Hfa) Hev]. apply runs_po. eapply runs_mono; [by apply (set_events_runs p f)|].
    intros [] x' w (-> & Hx & _ & E1 & E2). split; [by split|]. by apply no_new_same.
  - destruct Ha as [Hn Hpos]. apply runs_li. unfold BReactorLimit_Init. apply runs_bind, runs_ASSERT; [rewrite Z.gtb_ltb; by apply Z.ltb_lt|].
    apply runs_modify. split; [|by apply no_new_same]. split; cbn; [done|done| |done|done]. apply l_change; [done|apply Hl|done| |done|done]. cbn.
    split; [|lia]. intros (y & Hy & _)%(l_active _ Hl). congruence.
  - destruct Ha as [y Hy]. apply runs_li. eapply runs_mono; [by eapply limit_free_runs|]. intros [] s' w (-> & Hs' & _). split; [by split|by apply no_new_same].
  - destruct Ha as [y Hy]. apply runs_bind, runs_li. eapply runs_mono; [by eapply limit_increment_runs|]. intros b s' w (-> & Hs' & _).
    apply runs_ret. split; [by split|by apply no_new_same].
  - destruct Ha as [[y Hy] Hpos]. apply runs_li. unfold BReactorLimit_SetLimit. apply runs_bind, runs_ASSERT; [rewrite Z.gtb_ltb; by apply Z.ltb_lt|].
    apply runs_bind. eapply runs_load_limit; [done|]. apply runs_modify. split; [|by apply no_new_same]. split; cbn; [done|done| |done|done].
    destruct (l_count _ Hl p y Hy). apply l_change; [done|apply Hl|done| |done|done]. cbn. rewrite (l_active _ Hl). split; [|eauto].
    intros (z & Hz & Hc). congruence.
  - apply runs_modify. split; [|by apply no_new_same]. split; cbn; [done..| |done]. by apply JobQueue.NoDup_set.
  - apply runs_modify. split; [|by apply no_new_same]. split; cbn; [done..| |done]. by apply JobQueue.NoDup_remove.
  - apply runs_modify. split; [|by apply no_new_same]. by split.
Qed.
(** ** Rounds of the loop *)

(** What a round comes to, in each case: pending jobs go before timers that
    have expired, these before file descriptors, and only if there is none of
    them it is waited. *)
Definition round_spec (T : Z) answers o (d : dispatched) o' : Prop :=
  match d with
  | Exited code => exiting o = true ∧ code = exit_code o ∧ o' = o
  | Job p => exiting o = false ∧ ∃ jobs, pending_jobs o = p :: jobs ∧ o' = set_jobs jobs o
  | Timer p => exiting o = false ∧ pending_jobs o = [] ∧ ∃ l t, timers_expired_list (tm o) = p :: l ∧ timers (tm o) !! p = Some t ∧
      absTime t <= T ∧ o' = set_tm (mkTiming (<[p := set_state INACTIVE t]> (timers (tm o))) (timers_tree (tm o)) l) o
  | Fd p events => exiting o = false ∧ pending_jobs o = [] ∧ timers_expired_list (tm o) = [] ∧ events ≠ 0 ∧
      (∃ f e, fds (po o) !! p = Some f ∧ active f = true ∧ epoll_results (po o) !! epoll_results_pos (po o) = Some (Some p, e) ∧ reports f e events) ∧
      ∃ x, o' = set_po x o ∧ epoll_results x = epoll_results (po o) ∧ epoll_results_pos x = S (epoll_results_pos (po o)) ∧ ∀ q, view <$> fds x !! q = view <$> fds (po o) !! q
  | Nothing => exiting o = false ∧ pending_jobs o = [] ∧ timers_expired_list (tm o) = [] ∧ nothing_for (po o) ∧
      ∃ x, o' = set_po x o ∧ epoll_results x = epoll_results (po o) ∧ epoll_results_pos x = S (epoll_results_pos (po o)) ∧ ∀ q, view <$> fds x !! q = view <$> fds (po o) !! q
  | Waited c => exiting o = false ∧ pending_jobs o = [] ∧ timers_expired_list (tm o) = [] ∧ all_done (po o) ∧ waited T answers o (Some c) o'
  | Waiting => exiting o = false ∧ pending_jobs o = [] ∧ timers_expired_list (tm o) = [] ∧ all_done (po o) ∧ waited T answers o None o'
  end.

(** The time after a round. *)
Definition after (T : Z) (d : dispatched) : Z := match d with Waited c => c | _ => T end.

Lemma woken_ok T c o o1 y : r_ok T o → timers_expired_list (tm o) = [] → all_done (po o) → woken c (cleaned o) o1 → l_ok y → r_ok c (set_li y o1).
Proof.
  intros [Ht Hp Hl Hj _] He Hd Hw Hy. destruct Hw as [s' l _ Hsh Hdue | x' evs _ Hx _ _ _ _]; split; cbn; try done.
  - apply Hsh.
  - by apply clean_ok.
  - rewrite (sh_expired _ _ _ Hsh). cbn. rewrite He. cbn. intros q Hq. rewrite (sh_at _ _ _ Hsh). by apply Hdue.
  - rewrite He. by intros q ?%not_elem_of_nil.
Qed.

Lemma round_runs T answers o : r_ok T o → answers_ok (po o) (timeout_of (tm o)) T answers →
  runs (exec_round T answers) o (λ d o' _, r_ok (after T d) o' ∧ round_spec T answers o d o').
Proof.
  intros H Hans. pose proof H as [Ht Hp Hl Hj Hdue]. unfold exec_round. apply runs_bind, runs_get. destruct (exiting o) eqn:Hex; [by apply runs_ret|].
  destruct (pending_jobs o) as [|p jobs] eqn:Hjobs; cbn [JobQueue.execute].
  2:{ apply runs_bind, runs_modify, runs_ret. split; [|cbn; eauto]. split; cbn; [done..| |done]. by apply NoDup_cons in Hj as [_ ?]. }
  destruct (timers_expired_list (tm o)) as [|p l] eqn:Hexp.
  - destruct (Nat.ltb _ _) eqn:Hlt.
    + apply Nat.ltb_lt in Hlt. apply runs_bind, runs_po. eapply runs_mono; [by apply dispatch_fd_runs|].
      intros r x w (Hx & E1 & E2 & Hact & Hr). apply runs_ret. split.
      * destruct r as [[p ev]|]; (split; cbn; [done..| |]); [by rewrite Hjobs|by rewrite Hexp|by rewrite Hjobs|by rewrite Hexp].
      * destruct r as [[p ev]|]; cbn; [|split_and!; eauto]. destruct Hr as (f & e & Hf & Ha & Hn & Hrep & Hne).
        split_and!; [done|done|done|done|by exists f, e|by exists x].
    + assert (Hd : all_done (po o)) by (unfold all_done; apply Nat.ltb_ge in Hlt; pose proof (p_pos _ Hp); lia).
      apply runs_bind. eapply runs_mono; [by apply wait_for_events_runs|]. intros r o' w (-> & Hr). apply runs_ret. destruct r as [c|].
      * split; [|by split_and!]. destruct Hr as (Hc & o1 & y & Hw & -> & Hy & _). by apply (woken_ok T c o).
      * split; [|by split_and!]. destruct Hr as [-> _]. split; cbn; [done|by apply clean_ok|done|by rewrite Hjobs|by rewrite Hexp].
  - destruct (proj1 (t_expired _ Ht p)) as (t & Hpt & Hst); [rewrite Hexp; by left|]. pose proof (t_nodup _ Ht) as Hnd. rewrite Hexp in Hnd.
    apply NoDup_cons in Hnd as [Hpl Hnd]. assert (Hnt : p ∉ timers_tree (tm o)) by (eapply t_not_tree; [done|done|congruence]).
    assert (Hrem : JobQueue.remove p (p :: l) = l) by (rewrite JobQueue.remove_cons_eq; by apply JobQueue.remove_id).
    apply runs_bind, runs_tm. eapply runs_load_timer; [done|]. rewrite set_tm_same. apply runs_bind, runs_ASSERT; [by apply bool_decide_eq_true|].
    apply runs_bind, runs_tm. unfold expired_remove. apply runs_bind, runs_get, runs_bind, runs_ASSERT; [apply bool_decide_eq_true; rewrite Hexp; by left|].
    apply runs_modify. rewrite Hexp, Hrem. apply runs_bind, runs_tm, runs_modify, runs_ret. cbn.
    pose proof (t_take (tm o) p t INACTIVE Ht Hpt eq_refl) as Ht'. rewrite Hexp, Hrem, (JobQueue.remove_id p) in Ht' by done. split.
    + split; cbn; [done|done|done|by rewrite Hjobs|]. eapply due_at; [|exact Hdue]. intros q Hq. split; [by right|]. cbn. by apply (at_insert_same _ _ t).
    + split_and!; [done|done|]. exists l, t. split_and!; [done|done| |done]. pose proof (Hdue p ltac:(by left)) as Hat. unfold at_ in Hat. by rewrite Hpt in Hat.
Qed.
End ReactorLoop.
