(* ===== verification/ReactorRun.v ===== *)
(** * Runs of the event loop

    What holds in any run: rounds of the loop and operations of the clients, in
    any order, while time goes by and the system answers. *)

From S2P Require Import Prelude BPending Net Reactor ReactorOk ReactorLoop.
Import BTime Reactor ReactorOk ReactorLoop.

Module ReactorRun.
Implicit Types (o : BReactor) (p q : ptr) (T : Z).

Inductive event :=
  | Tick
  | Did (x : op)
  | Round (d : dispatched)
  | SyncRound (r : option bool * option ptr).

Inductive step : Z → BReactor → event → Z → BReactor → Prop :=
  | step_tick T T' o : T <= T' → step T o Tick T' o
  | step_op T x o a o' w : allowed o x → perform T x o = Some (a, o', w) → step T o (Did x) T o'
  | step_round T answers d o o' w : answers_ok (po o) (timeout_of (tm o)) T answers → exec_round T answers o = Some (d, o', w) →
      d ≠ Waiting → step T o (Round d) (after T d) o'
  | step_sync T ref r o o' w : pending_jobs o ≠ [] → synchronize_round ref o = Some (r, o', w) → step T o (SyncRound r) T o'.

Inductive run : Z → BReactor → list event → Z → BReactor → Prop :=
  | run_nil T o : run T o [] T o
  | run_cons T o e T1 o1 tr T' o' : step T o e T1 o1 → run T1 o1 tr T' o' → run T o (e :: tr) T' o'.

Lemma init_ok T : r_ok T fresh_reactor.
Proof.
  split; cbn.
  - split; cbn; [constructor| |constructor|]; intros p; rewrite lookup_empty; (split; [by intros ?%not_elem_of_nil|by intros (t & ? & _)]).
  - split; cbn; [done|done|by intros i p e _ ?|by intros p f i ?|lia].
  - split; cbn; [constructor| |by intros ? ?]. intros p. rewrite lookup_empty. split; [by intros ?%not_elem_of_nil|by intros (t & ? & _)].
  - constructor.
  - by intros q ?%not_elem_of_nil.
Qed.

(** The result of a computation is as its specification says. *)
Lemma runs_result {S E A} (m : M S E A) s Q a s' w : runs m s Q → m s = Some (a, s', w) → Q a s' w.
Proof. unfold runs. by intros H Em; rewrite Em in H. Qed.

Lemma sync_runs ref o : exiting o = true ∨ pending_jobs o ≠ [] →
  runs (synchronize_round ref) o (λ r o' _, o' = o ∨ ∃ p jobs, p ≠ ref ∧ pending_jobs o = p :: jobs ∧ r = (None, Some p) ∧ o' = set_jobs jobs o).
Proof.
  intros H. unfold synchronize_round. apply runs_bind, runs_get. destruct (exiting o) eqn:Hex; [apply runs_ret; by left|].
  destruct H as [?|Hj]; [done|]. apply runs_bind, runs_ASSERT; [by rewrite bool_decide_false|].
  destruct (pending_jobs o) as [|p jobs] eqn:E; [done|]. cbn [JobQueue.execute]. case_bool_decide; [apply runs_ret; by left|].
  apply runs_bind, runs_modify, runs_ret. right. by exists p, jobs.
Qed.

Lemma due_later (s : timing) l T T' : T <= T' → due s l T → due s l T'.
Proof. intros H Hd q Hq. pose proof (Hd q Hq). lia. Qed.

Lemma step_ok T o e T' o' : r_ok T o → step T o e T' o' → r_ok T' o'.
Proof.
  intros H Hs. destruct Hs as [T T' o HT | T x o a o' w Ha E | T answers d o o' w Ha E _ | T ref r o o' w Hj E].
  - destruct H. split; [done..|]. by eapply due_later.
  - by apply (runs_result _ _ _ _ _ _ (perform_runs T x o H Ha) E).
  - by apply (runs_result _ _ _ _ _ _ (round_runs T answers o H Ha) E).
  - pose proof (runs_result _ _ _ _ _ _ (sync_runs ref o (or_intror Hj)) E) as [-> | (p & jobs & _ & Ep & _ & ->)]; [done|].
    destruct H as [? ? ? Hn ?]. split; cbn; [done..| |done]. rewrite Ep in Hn. by apply NoDup_cons in Hn as [_ ?].
Qed.

Lemma run_ok T o tr T' o' : r_ok T o → run T o tr T' o' → r_ok T' o'.
Proof. intros H Hr. induction Hr; [done|]. apply IHHr. by eapply step_ok. Qed.

Lemma reached_ok T0 T tr o : run T0 fresh_reactor tr T o → r_ok T o.
Proof. apply run_ok, init_ok. Qed.

(** ** Removed file descriptors *)
Lemma step_quiet p T o e T' o' : r_ok T o → step T o e T' o' → quiet p (po o) → (∀ c, e ≠ Round (Waited c)) →
  quiet p (po o') ∧ ∀ ev, e ≠ Round (Fd p ev).
Proof.
  intros H Hs Hq He. destruct Hs as [T T' o HT | T x o a o' w Ha E | T answers d o o' w Ha E Hd | T ref r o o' w Hj E].
  - done.
  - split; [|done]. by apply (runs_result _ _ _ _ _ _ (perform_runs T x o H Ha) E).
  - pose proof (runs_result _ _ _ _ _ _ (round_runs T answers o H Ha) E) as [_ Hr]. destruct d; cbn in Hr; try done.
    + by destruct Hr as (_ & _ & ->).
    + by destruct Hr as (_ & jobs & _ & ->).
    + by destruct Hr as (_ & _ & l & t & _ & _ & _ & ->).
    + destruct Hr as (_ & _ & _ & _ & (f & e & _ & _ & Hn & _) & x & -> & E1 & E2 & _). split.
      * intros i e' Hi. cbn in *. rewrite E1. apply Hq. lia.
      * intros ev [= -> ->]. by apply (Hq (epoll_results_pos (po o)) e).
    + destruct Hr as (_ & _ & _ & _ & x & -> & E1 & E2 & _). split; [|done]. intros i e' Hi. cbn in *. rewrite E1. apply Hq. lia.
    + by destruct (He clock).
  - split; [|done]. by pose proof (runs_result _ _ _ _ _ _ (sync_runs ref o (or_intror Hj)) E) as [-> | (q & jobs & _ & _ & _ & ->)].
Qed.

Lemma run_quiet p T o tr T' o' : r_ok T o → run T o tr T' o' → quiet p (po o) → (∀ c, Round (Waited c) ∉ tr) → ∀ ev, Round (Fd p ev) ∉ tr.
Proof.
  intros H Hr. induction Hr as [T o | T o e T1 o1 tr T' o' Hs _ IH]; intros Hq Hn ev; [apply not_elem_of_nil|].
  destruct (step_quiet p T o e T1 o1 H Hs Hq) as [Hq1 Hne]; [intros c ->; apply (Hn c); by left|].
  intros [Heq|Hin]%elem_of_cons; [by apply (Hne ev)|]. revert Hin. apply IH; [by eapply step_ok|done|]. intros c Hc. apply (Hn c). by right.
Qed.

Lemma run_still_quiet p T o tr T' o' : r_ok T o → run T o tr T' o' → quiet p (po o) → (∀ c, Round (Waited c) ∉ tr) → quiet p (po o').
Proof.
  intros H Hr. induction Hr as [T o | T o e T1 o1 tr T' o' Hs _ IH]; intros Hq Hn; [done|].
  destruct (step_quiet p T o e T1 o1 H Hs Hq) as [Hq1 _]; [intros c ->; apply (Hn c); by left|].
  apply IH; [by eapply step_ok|done|]. intros c Hc. apply (Hn c). by right.
Qed.

(** ** Timers *)
Definition timer_op (x : op) : bool :=
  match x with TimerInit _ _ | TimerFree _ | SetTimer _ _ _ | SetDefault _ | RemoveTimer _ => true | _ => false end.

(** The timers whose handlers are called, in order. *)
Definition fired (tr : list event) : list ptr := omap (λ e, match e with Round (Timer p) => Some p | _ => None end) tr.
Definition rounds (tr : list event) : nat := length (omap (λ e, match e with Round d => Some d | _ => None end) tr).
(** The timers that are set: those that have expired, and then those of the tree. *)
Definition queue o : list ptr := timers_expired_list (tm o) ++ timers_tree (tm o).

Lemma on_po_tm {A} (m : PM A) o a o' w : on_po m o = Some (a, o', w) → tm o' = tm o.
Proof. unfold on_po. destruct (m (po o)) as [[[? ?] ?]|]; [|done]. by intros [= <- <- <-]. Qed.
Lemma on_li_tm {A} (m : LM A) o a o' w : on_li m o = Some (a, o', w) → tm o' = tm o.
Proof. unfold on_li. destruct (m (li o)) as [[[? ?] ?]|]; [|done]. by intros [= <- <- <-]. Qed.

Lemma perform_tm T x o a o' w : timer_op x = false → perform T x o = Some (a, o', w) → tm o' = tm o.
Proof.
  intros Hx E. destruct x; try done; cbn [perform] in E;
    first [by eapply on_po_tm | by eapply on_li_tm | by injection E as <- <- <- | idtac].
  - unfold mbind, M_bind in E. destruct (on_po _ o) as [[[b o1] w1]|] eqn:E1; [|done]. injection E as <- <-. by eapply on_po_tm.
  - unfold mbind, M_bind in E. destruct (on_li _ o) as [[[b o1] w1]|] eqn:E1; [|done]. injection E as <- <-. by eapply on_li_tm.
Qed.

Lemma step_queue T o e T' o' : r_ok T o → step T o e T' o' → (∀ x, e = Did x → timer_op x = false) → fired [e] ++ queue o' = queue o.
Proof.
  intros H Hs He. destruct Hs as [T T' o HT | T x o a o' w Ha E | T answers d o o' w Ha E Hd | T ref r o o' w Hj E].
  - done.
  - unfold queue. by rewrite (perform_tm T x o a o' w (He x eq_refl) E).
  - pose proof (runs_result _ _ _ _ _ _ (round_runs T answers o H Ha) E) as [_ Hr]. unfold queue. destruct d; cbn in Hr; try done.
    + by destruct Hr as (_ & _ & ->).
    + by destruct Hr as (_ & jobs & _ & ->).
    + by destruct Hr as (_ & _ & l & t & -> & _ & _ & ->).
    + by destruct Hr as (_ & _ & _ & _ & _ & x & -> & _).
    + by destruct Hr as (_ & _ & _ & _ & x & -> & _).
    + destruct Hr as (_ & _ & Hexp & _ & _ & o1 & y & Hw & -> & _). destruct Hw as [s' l _ Hsh _ | x' evs _ _ _ _ _ _]; [|done]. cbn.
      rewrite (sh_expired _ _ _ Hsh). cbn. rewrite <-app_assoc. f_equal. symmetry. apply (sh_tree _ _ _ Hsh).
  - by pose proof (runs_result _ _ _ _ _ _ (sync_runs ref o (or_intror Hj)) E) as [-> | (q & jobs & _ & _ & _ & ->)].
Qed.

Lemma run_queue T o tr T' o' : r_ok T o → run T o tr T' o' → (∀ x, Did x ∈ tr → timer_op x = false) → fired tr ++ queue o' = queue o.
Proof.
  intros H Hr. induction Hr as [T o | T o e T1 o1 tr T' o' Hs _ IH]; intros Hx; [done|].
  rewrite <-(step_queue T o e T1 o1 H Hs) by (intros x ->; apply Hx; by left).
  rewrite <-IH; [|by eapply step_ok|intros x Hin; apply Hx; by right]. change (e :: tr) with ([e] ++ tr). unfold fired. by rewrite omap_app, app_assoc.
Qed.

(** Nothing is left but timers. *)
Record idle o : Prop := mkIdle {
  idle_exiting : exiting o = false;
  idle_jobs : pending_jobs o = [];
  idle_interest : interest (po o) = ∅;
  idle_done : all_done (po o)
}.

Definition left_to_do o : nat := (length (timers_expired_list (tm o)) + 2 * length (timers_tree (tm o)))%nat.

Lemma idle_round T o d T' o' : r_ok T o → idle o → step T o (Round d) T' o' → idle o' ∧ (S (left_to_do o') <= left_to_do o)%nat.
Proof.
  intros H [I1 I2 I3 I4] Hs. inversion Hs as [| |? answers ? ? ? w Ha E Hd|]; subst.
  pose proof (runs_result _ _ _ _ _ _ (round_runs T answers o H Ha) E) as [_ Hr]. unfold left_to_do. destruct d; cbn in Hr; try done.
  - destruct Hr as (? & _). congruence.
  - destruct Hr as (_ & jobs & ? & _). congruence.
  - destruct Hr as (_ & _ & l & t & -> & _ & _ & ->). cbn. split; [by split|lia].
  - destruct Hr as (_ & _ & _ & _ & (f & e & _ & _ & Hn%lookup_lt_Some & _) & _). unfold all_done in I4. lia.
  - destruct Hr as (_ & _ & _ & _ & x & -> & E1 & E2 & _). exfalso. pose proof (step_ok _ _ _ _ _ H Hs) as [_ Hp _ _ _]. apply p_pos in Hp. cbn in Hp.
    unfold all_done in I4. rewrite E1, E2 in Hp. lia.
  - destruct Hr as (_ & _ & Hexp & _ & _ & o1 & y & Hw & -> & _). destruct Hw as [s' l Hl Hsh _ | x' evs Hne Hx Eres Epos Eint _].
    + cbn. split; [by split|]. rewrite (sh_expired _ _ _ Hsh). cbn. pose proof (sh_tree _ _ _ Hsh) as Et. cbn in Et. rewrite Et, !length_app.
      assert (length l ≠ 0%nat) by by destruct l. lia.
    + exfalso. destruct evs as [|[p e] evs]; [done|]. destruct (p_results _ Hx 0 p e) as (f & Hf & Hfa & _); [lia|by rewrite Eres|].
      pose proof (p_interest _ Hx p f Hf Hfa) as Hi. cbn in Eint. by rewrite Eint, I3, lookup_empty in Hi.
Qed.

Definition waiting (e : event) : Prop := e = Tick ∨ ∃ d, e = Round d.

Lemma idle_run T o tr T' o' : r_ok T o → idle o → run T o tr T' o' → Forall waiting tr → idle o' ∧ (rounds tr + left_to_do o' <= left_to_do o)%nat.
Proof.
  intros H Hi Hr. revert H Hi. induction Hr as [T o | T o e T1 o1 tr T' o' Hs _ IH]; intros H Hi Hall; [split; [done|cbn; lia]|].
  apply Forall_cons in Hall as [He Hall]. assert (idle o1 ∧ (rounds [e] + left_to_do o1 <= left_to_do o)%nat) as [Hi1 Hle].
  { destruct He as [-> | [d ->]]; [inversion Hs; subst; split; [done|cbn; lia]|]. by eapply idle_round. }
  destruct (IH (step_ok _ _ _ _ _ H Hs) Hi1 Hall) as [Hi' Hle']. split; [done|]. change (e :: tr) with ([e] ++ tr). unfold rounds in *.
  rewrite omap_app, length_app. lia.
Qed.

(** A round ends if a timer has expired, or once the time of the first one is reached. *)
Lemma idle_progress T o answers a c : r_ok T o → idle o → queue o ≠ [] → answers_ok (po o) (timeout_of (tm o)) T answers →
  (a, c) ∈ answers → (∀ t, timeout_of (tm o) = Some t → t <= c) → ∃ d o', step T o (Round d) (after T d) o'.
Proof.
  intros H [I1 I2 I3 I4] Hq Ha Hin Hc. destruct (runs_inv _ _ _ (round_runs T answers o H Ha)) as (d & o' & w & E & _ & Hr). exists d, o'.
  eapply step_round; [done|exact E|]. intros ->. destruct Hr as (_ & _ & Hexp & _ & _ & Hearly). unfold queue in Hq. rewrite Hexp in Hq. cbn in Hq.
  unfold timeout_of in *. destruct (timers_tree (tm o)) as [|p l]; [done|]. pose proof (Hearly _ a c eq_refl ltac:(by right)). pose proof (Hc _ eq_refl). lia.
Qed.

(** ** Properties *)

(** C15: In any run of the event loop, whatever the handlers do (set, change and
    remove timers, register, change and remove file descriptors, use limits,
    set jobs, quit) and whatever the clock and [epoll_wait] answer: the timers
    are in the sorted tree and in the list of expired timers exactly as their
    state says, results of [epoll_wait] not dispatched yet refer to registered
    objects that point back at them, and a limit is in the list exactly if it
    was used; every function that may be called, and every round of the loop
    and of [BReactor_Synchronize], runs without a failed assertion and without
    following a bad pointer. *)
Theorem reactor_safe T0 tr T o :
  run T0 fresh_reactor tr T o →
  t_ok (tm o) ∧ p_ok (po o) ∧ l_ok (li o) ∧
  (∀ x, allowed o x → is_Some (perform T x o)) ∧
  (∀ answers, answers_ok (po o) (timeout_of (tm o)) T answers → is_Some (exec_round T answers o)) ∧
  (∀ ref, exiting o = true ∨ pending_jobs o ≠ [] → is_Some (synchronize_round ref o)).
Proof.
  intros Hr. pose proof (reached_ok _ _ _ _ Hr) as H. split_and!; [apply H|apply H|apply H|..].
  - intros x Ha. destruct (runs_inv _ _ _ (perform_runs T x o H Ha)) as (? & ? & ? & -> & _). done.
  - intros answers Ha. destruct (runs_inv _ _ _ (round_runs T answers o H Ha)) as (? & ? & ? & -> & _). done.
  - intros ref Ha. destruct (runs_inv _ _ _ (sync_runs ref o Ha)) as (? & ? & ? & -> & _). done.
Qed.

(** C23: A round of the event loop does exactly this: it returns if the loop was
    told to quit; otherwise it calls the first pending job; if there is none,
    the first timer that has expired, never before its time; if there is none,
    it takes the next result of [epoll_wait] and calls the handler of the
    object, which is registered: with the event for reading exactly if it is
    awaited and was returned, that for writing likewise, with an error and the
    end exactly if they were returned, and no other; no handler is called exactly
    if the object was removed since, or there is no such event; only if there is
    no result, it waits, and then either timers whose time has come have expired,
    or events were returned; the counters of the limits are then set to zero,
    unless timers had expired before the wait. *)
Theorem dispatch_exact T0 tr T o answers :
  run T0 fresh_reactor tr T o → answers_ok (po o) (timeout_of (tm o)) T answers →
  ∃ d o' w, exec_round T answers o = Some (d, o', w) ∧ round_spec T answers o d o'.
Proof.
  intros Hr Ha. destruct (runs_inv _ _ _ (round_runs T answers o (reached_ok _ _ _ _ Hr) Ha)) as (d & o' & w & E & _ & Hs). eauto.
Qed.

(** C24: A file descriptor object that is registered can be removed, and then no
    result of [epoll_wait] that is still to be dispatched refers to it; so its
    handler is not called for events that were returned before: until the loop
    has waited again there is no call, whatever is done in between, also if the
    object is freed, its memory is used for another object, or it is added again.
    All the while the loop goes on: its next round passes all assertions, and
    does not call the handler either. *)
Theorem removed_silent T0 tr T o p :
  run T0 fresh_reactor tr T o → allowed o (RemoveFd p) →
  ∃ o1, step T o (Did (RemoveFd p)) T o1 ∧
    (∀ i e, (epoll_results_pos (po o1) <= i)%nat → epoll_results (po o1) !! i ≠ Some (Some p, e)) ∧
    ∀ tr' T' o', run T o1 tr' T' o' → (∀ c, Round (Waited c) ∉ tr') →
      (∀ ev, Round (Fd p ev) ∉ tr') ∧
      ∀ answers, answers_ok (po o') (timeout_of (tm o')) T' answers →
        ∃ d o2 w, exec_round T' answers o' = Some (d, o2, w) ∧ ∀ ev, d ≠ Fd p ev.
Proof.
  intros H0 Ha. pose proof (reached_ok _ _ _ _ H0) as H. pose proof Ha as (f & Hf & Hfa).
  destruct (runs_inv _ _ _ (perform_runs T (RemoveFd p) o H Ha)) as ([] & o1 & w & E & H1 & _). exists o1.
  assert (Hq : quiet p (po o1)).
  { cbn [perform] in E. refine (runs_result _ _ (λ _ o' _, quiet p (po o')) _ _ _ _ E). apply runs_po.
    eapply runs_mono; [apply (remove_fd_runs p f); [apply H|done|done]|]. by intros [] x w' (_ & _ & ? & _). }
  split; [by eapply step_op|]. split; [exact Hq|]. intros tr' T' o' Hr Hn. split; [by eapply (run_quiet p T o1)|]. intros answers Hans.
  pose proof (run_ok _ _ _ _ _ H1 Hr) as H'. pose proof (run_still_quiet p _ _ _ _ _ H1 Hr Hq Hn) as Hq'.
  destruct (runs_inv _ _ _ (round_runs T' answers o' H' Hans)) as (d & o2 & w' & E2 & _ & Hs). exists d, o2, w'. split; [done|]. intros ev ->.
  destruct Hs as (_ & _ & _ & _ & (g & e & _ & _ & Hx & _) & _). by apply (Hq' (epoll_results_pos (po o')) e).
Qed.

(** C16: Timers that are not set again or removed fire exactly once each, in the
    order of their times (those that have expired already first), whatever else
    happens: at any moment the timers whose handlers were called, followed by
    those still set, are those that were set at first.  If there is nothing to
    do but timers, every round brings the end nearer, at most two rounds for
    each timer, and a round ends as soon as the clock shows the time of the
    first timer; so all of them fire. *)
Theorem timers_fire T0 tr0 T o tr T' o' :
  run T0 fresh_reactor tr0 T o → run T o tr T' o' → (∀ x, Did x ∈ tr → timer_op x = false) →
  fired tr ++ queue o' = queue o ∧
  (idle o → Forall waiting tr →
     (rounds tr + left_to_do o' <= left_to_do o)%nat ∧
     ∀ answers a c, queue o' ≠ [] → answers_ok (po o') (timeout_of (tm o')) T' answers → (a, c) ∈ answers →
       (∀ t, timeout_of (tm o') = Some t → t <= c) → ∃ d o2, step T' o' (Round d) (after T' d) o2).
Proof.
  intros H0 Hr Hx. pose proof (reached_ok _ _ _ _ H0) as H. split; [by eapply run_queue|]. intros Hi Hall.
  destruct (idle_run T o tr T' o' H Hi Hr Hall) as [Hi' Hle]. split; [done|]. intros answers a c Hq Ha Hin Hc.
  by apply (idle_progress T' o' answers a c); [eapply run_ok|..].
Qed.

(** ** Witnesses *)
Definition done_op T (x : op) o : BReactor := match perform T x o with Some (_, o', _) => o' | None => o end.
Definition done_round T answers o : BReactor := match exec_round T answers o with Some (_, o', _) => o' | None => o end.
Definition did T xs o : BReactor := foldl (λ o x, done_op T x o) o xs.

Fixpoint ops_allowed T xs o : Prop := match xs with [] => True | x :: xs' => allowed o x ∧ ops_allowed T xs' (done_op T x o) end.

Lemma run_ops T xs o : r_ok T o → ops_allowed T xs o → run T o (Did <$> xs) T (did T xs o).
Proof.
  revert o. induction xs as [|x xs IH]; intros o H Ha; [constructor|]. destruct Ha as [Ha Hxs]. cbn.
  assert (step T o (Did x) T (done_op T x o)) as Hs.
  { destruct (runs_inv _ _ _ (perform_runs T x o H Ha)) as ([] & o' & w & E & _). unfold done_op. rewrite E. by eapply step_op. }
  eapply run_cons; [exact Hs|]. apply IH; [by eapply step_ok|done].
Qed.

(** Two timers, one for the time 9 and one for 7, and a registered file descriptor. *)
Definition setup : list op := [TimerInit 1 None; TimerInit 2 (Some 7); SetTimer 1 false 9; SetDefault 2; FdInit 3 5; AddFd 3 true; SetEvents 3 1].

Lemma setup_run : run 0 fresh_reactor (Did <$> setup) 0 (did 0 setup fresh_reactor).
Proof. apply run_ops; [apply init_ok|]. vm_compute. split_and!; try done; eauto 6. Qed.

Definition started : BReactor := did 0 setup fresh_reactor.
(** At the time 4 there is something to read. *)
Definition readable : list (answer * Z) := [(EINTR, 2); (Returned [(3%positive, EPOLLIN)], 4)].

Lemma readable_ok : answers_ok (po started) (timeout_of (tm started)) 0 readable.
Proof.
  cbn [answers_ok readable]. split_and!; [done|done|done| |done|done]. unfold events_ok. split_and!; [apply NoDup_singleton| |done].
  intros p e [[= -> ->]|?%not_elem_of_nil]%elem_of_cons; [|done]. by exists 5, 1.
Qed.

Definition woke : BReactor := done_round 0 readable started.
Lemma run_round T answers d o tr T' o' : answers_ok (po o) (timeout_of (tm o)) T answers → (λ r, r.1.1) <$> exec_round T answers o = Some d →
  d ≠ Waiting → run (after T d) (done_round T answers o) tr T' o' → run T o (Round d :: tr) T' o'.
Proof.
  intros Ha E Hd Hr. unfold done_round in Hr. destruct (exec_round T answers o) as [[[d' o1] w]|] eqn:E1; [|done]. cbn in E. injection E as ->.
  eapply run_cons; [|exact Hr]. by eapply step_round.
Qed.
Lemma run_app T o tr T1 o1 tr' T' o' : run T o tr T1 o1 → run T1 o1 tr' T' o' → run T o (tr ++ tr') T' o'.
Proof. induction 1; [done|]. intros Hr. eapply run_cons; eauto. Qed.

Lemma woke_run : run 0 fresh_reactor ((Did <$> setup) ++ [Round (Waited 4)]) 4 woke.
Proof. eapply run_app; [apply setup_run|]. eapply (run_round 0 readable); [apply readable_ok|by vm_compute|done|constructor]. Qed.

Lemma reactor_safe_witness : t_ok (tm woke) ∧ is_Some (exec_round 4 [] woke) ∧ epoll_results (po woke) = [(Some 3%positive, 1)].
Proof. destruct (reactor_safe 0 _ 4 woke woke_run) as (H & _ & _ & _ & Hr & _). split_and!; [exact H|by apply Hr|by vm_compute]. Defined.

Lemma dispatch_exact_witness : ∃ d o' w, exec_round 0 readable started = Some (d, o', w) ∧ round_spec 0 readable started d o' ∧ d = Waited 4.
Proof.
  destruct (dispatch_exact 0 _ 0 started readable setup_run readable_ok) as (d & o' & w & E & Hs). exists d, o', w. split_and!; [done|done|].
  assert ((λ r, r.1.1) <$> exec_round 0 readable started = Some (Waited 4)) as E' by by vm_compute. rewrite E in E'. by injection E'.
Defined.

(** The object is removed, and added again, before its event was dispatched. *)
Definition removed : BReactor := done_op 4 (RemoveFd 3) woke.
Definition added : BReactor := done_op 4 (AddFd 3 true) removed.

Lemma added_run : run 4 removed [Did (AddFd 3 true); Round Nothing] 4 (done_round 4 [] added).
Proof.
  eapply run_cons; [apply (step_op 4 (AddFd 3 true) removed tt added []); [|by vm_compute]; by eexists (mkFd 5 false 1 (Some 0%nat))|].
  eapply (run_round 4 []); [done|by vm_compute|done|constructor].
Qed.

Lemma removed_silent_witness : ∃ o1, step 4 woke (Did (RemoveFd 3)) 4 o1 ∧
  ∀ tr T' o', run 4 o1 tr T' o' → (∀ c, Round (Waited c) ∉ tr) → ∀ ev, Round (Fd 3 ev) ∉ tr.
Proof.
  destruct (removed_silent 0 _ 4 woke 3 woke_run) as (o1 & Hs & _ & Hq); [by eexists (mkFd 5 true 1 (Some 0%nat))|].
  exists o1. split; [exact Hs|]. intros tr T' o' Hr Hn. exact (proj1 (Hq tr T' o' Hr Hn)).
Defined.

(** The result of the removed object is there still, without the object, and is
    passed over after the object was added again. *)
Lemma removed_then_added : epoll_results (po added) = [(None, 1)] ∧ run 4 removed [Did (AddFd 3 true); Round Nothing] 4 (done_round 4 [] added).
Proof. split; [by vm_compute|exact added_run]. Qed.

(** Two timers only: they fire in the order of their times. *)
Definition timed : BReactor := did 0 (take 4 setup) fresh_reactor.
Definition fire_at (c : Z) o : BReactor := done_round c [] (done_round c [] o).

Lemma timed_run : run 0 fresh_reactor (Did <$> take 4 setup) 0 timed.
Proof. apply run_ops; [apply init_ok|]. vm_compute. split_and!; try done; eauto 6. Qed.

Lemma fire_run : run 0 timed [Tick; Round (Waited 7); Round (Timer 2); Tick; Round (Waited 9); Round (Timer 1)] 9 (fire_at 9 (fire_at 7 timed)).
Proof.
  eapply run_cons; [by apply (step_tick 0 7)|]. eapply (run_round 7 []); [done|by vm_compute|done|]. eapply (run_round 7 []); [done|by vm_compute|done|].
  eapply run_cons; [by apply (step_tick 7 9)|]. eapply (run_round 9 []); [done|by vm_compute|done|]. eapply (run_round 9 []); [done|by vm_compute|done|constructor].
Qed.

Lemma timers_fire_witness : queue timed = [2; 1]%positive ∧ queue (fire_at 9 (fire_at 7 timed)) = [] ∧
  fired [Tick; Round (Waited 7); Round (Timer 2); Tick; Round (Waited 9); Round (Timer 1)] = queue timed ∧
  (rounds [Tick; Round (Waited 7); Round (Timer 2); Tick; Round (Waited 9); Round (Timer 1)] + left_to_do (fire_at 9 (fire_at 7 timed)) <= left_to_do timed)%nat.
Proof.
  destruct (timers_fire 0 _ 0 timed _ 9 _ timed_run fire_run) as [H1 H2].
  - intros x Hx. by repeat (apply elem_of_cons in Hx as [Hx|Hx]; [done|]); apply not_elem_of_nil in Hx.
  - destruct H2 as [H2 _].
    + by split.
    + repeat (apply Forall_cons; split; [first [left; reflexivity | right; eexists; reflexivity]|]). exact (Forall_nil_2 waiting).
    + assert (queue (fire_at 9 (fire_at 7 timed)) = []) as E by by vm_compute. rewrite E, app_nil_r in H1. split_and!; [by vm_compute|exact E|exact H1|exact H2].
Defined.
End ReactorRun.
