(* ===== verification/Connection.v ===== *)
(** * Connections of the system ([system/BConnection_unix.c])

    A connector connects a socket and hands it over to a connection, which
    sends and receives on it for one user each.  Both are objects of the event
    loop of [Reactor]: they register their file descriptor, use limits, and set
    jobs; the loop calls their handlers.

    System calls are arguments: what [socket], [connect], [getsockopt], [read]
    and [write] answer.  Of the kernel there is the set of open descriptors, so
    that closing one that is not open is an error of the program.  The user of
    the objects is called by what is emitted. *)

From S2P Require Import Prelude BPending Net Reactor.
Import BTime Reactor.

(** The objects that are part of the structures, in memory of their kind. *)
Class Layout := {
  bfd : ptr;
  connector_bfd : ptr;
  send_limit : ptr;
  recv_limit : ptr;
  send_job : ptr;
  recv_job : ptr;
  d_err_job : ptr;
  connector_job : ptr;
  layout_fds : bfd ≠ connector_bfd;
  layout_limits : send_limit ≠ recv_limit;
  layout_jobs : NoDup [send_job; recv_job; d_err_job; connector_job]
}.

Module Connection.

(** ** Addresses *)
Inductive sockaddr :=
  | sockaddr_in (sin_port s_addr : Z)
  | sockaddr_in6 (sin6_port sin6_flowinfo : Z) (s6_addr : list Z) (sin6_scope_id : Z)
  | sockaddr_other (sa_family : Z).
Definition sizeof_sockaddr_in : Z := 16.
Definition sizeof_sockaddr_in6 : Z := 28.
Record sys_addr := mkSysAddr { len : Z; addr : sockaddr }.

Definition addr_socket_to_sys (a : BAddr) : option sys_addr :=
  match a with
  | BAddr_MakeIPv4 ip port => Some (mkSysAddr sizeof_sockaddr_in (sockaddr_in port ip))
  | BAddr_MakeIPv6 ip port => Some (mkSysAddr sizeof_sockaddr_in6 (sockaddr_in6 port 0 ip 0))
  | BAddr_MakeNone => None
  end.

Definition addr_sys_to_socket (a : sys_addr) : option BAddr :=
  match addr a with
  | sockaddr_in port ip => if len a =? sizeof_sockaddr_in then Some (BAddr_MakeIPv4 ip port) else None
  | sockaddr_in6 port _ ip _ => if len a =? sizeof_sockaddr_in6 then Some (BAddr_MakeIPv6 ip port) else None
  | sockaddr_other _ => Some BAddr_MakeNone
  end.

Definition BConnection_AddressSupported (a : BAddr) : bool := (baddr_type a =? BADDR_TYPE_IPV4) || (baddr_type a =? BADDR_TYPE_IPV6).

(** An address that is supported is converted, and back again. *)
Lemma addr_sys_roundtrip a : BConnection_AddressSupported a = true ↔ ∃ s, addr_socket_to_sys a = Some s ∧ addr_sys_to_socket s = Some a.
Proof. destruct a; cbn; split; [done|by intros (s & ? & _)|eauto|done|eauto|done]. Qed.

(** ** State *)
Definition BCONNECTION_SEND_LIMIT : Z := 2.
Definition BCONNECTION_RECV_LIMIT : Z := 2.
Definition BCONNECTION_EVENT_ERROR : Z := 1.
Definition BCONNECTION_EVENT_RECVCLOSED : Z := 2.

Inductive send_states := SEND_STATE_NOT_INITED | SEND_STATE_READY | SEND_STATE_BUSY.
Inductive recv_states := RECV_STATE_NOT_INITED | RECV_STATE_READY | RECV_STATE_BUSY | RECV_STATE_INITED_CLOSED | RECV_STATE_NOT_INITED_CLOSED.
#[export] Instance send_states_eq : EqDecision send_states.
Proof. solve_decision. Defined.
#[export] Instance recv_states_eq : EqDecision recv_states.
Proof. solve_decision. Defined.

Record BConnector := mkConnector { connector_fd : Z; connected : bool; have_bfd : bool }.

(** [send_data]: [busy_data] with its length; [recv_avail]: [busy_data_avail]. *)
Record BConnection := mkConnection {
  conn_fd : Z;
  close_fd : bool;
  is_hupd : bool;
  wait_events : Z;
  send_data : list Z;
  send_state : send_states;
  recv_avail : Z;
  recv_state : recv_states
}.

Definition set_hupd (c : BConnection) := mkConnection (conn_fd c) (close_fd c) true (wait_events c) (send_data c) (send_state c) (recv_avail c) (recv_state c).
Definition set_wait (e : Z) (c : BConnection) := mkConnection (conn_fd c) (close_fd c) (is_hupd c) e (send_data c) (send_state c) (recv_avail c) (recv_state c).
Definition set_send (d : list Z) (x : send_states) (c : BConnection) := mkConnection (conn_fd c) (close_fd c) (is_hupd c) (wait_events c) d x (recv_avail c) (recv_state c).
Definition set_recv (n : Z) (x : recv_states) (c : BConnection) := mkConnection (conn_fd c) (close_fd c) (is_hupd c) (wait_events c) (send_data c) (send_state c) n x.

(** The event loop, the objects while they exist, and the open descriptors. *)
Record world := mkWorld {
  re : BReactor;
  connector : option BConnector;
  connection : option BConnection;
  open_fds : gset Z
}.

(** What is done and who is called: messages of the log, bytes sent, completed
    operations and events of the connection, the handler of the connector. *)
Inductive out :=
  | Log (m : msg)
  | Written (data : list Z)
  | SendDone (n : Z)
  | RecvDone (data : list Z)
  | Event (e : Z)
  | ConnectorDone (is_error : bool).

Abbreviation WM := (M world out).
Definition on_re {A} (m : RM A) : WM A := λ w,
  match m (re w) with Some (a, o, l) => Some (a, mkWorld o (connector w) (connection w) (open_fds w), Log <$> l) | None => None end.

Definition load_connection : WM BConnection := λ w, match connection w with Some c => Some (c, w, []) | None => None end.
Definition store_connection (c : option BConnection) : WM unit := modify (λ w, mkWorld (re w) (connector w) c (open_fds w)).
Definition load_connector : WM BConnector := λ w, match connector w with Some c => Some (c, w, []) | None => None end.
Definition store_connector (c : option BConnector) : WM unit := modify (λ w, mkWorld (re w) c (connection w) (open_fds w)).

Definition opened (n : Z) : WM unit := modify (λ w, mkWorld (re w) (connector w) (connection w) ({[n]} ∪ open_fds w)).
Definition close (n : Z) : WM unit :=
  w ← get;
  ASSERT (bool_decide (n ∈ open_fds w));;
  modify (λ w, mkWorld (re w) (connector w) (connection w) (open_fds w ∖ {[n]})).

Definition BPending_Set (p : ptr) : RM unit := modify (λ o, set_jobs (JobQueue.set p (pending_jobs o)) o).
Definition BPending_Unset (p : ptr) : RM unit := modify (λ o, set_jobs (JobQueue.unset p (pending_jobs o)) o).
Definition is_set (p : ptr) (w : world) : bool := JobQueue.is_set p (pending_jobs (re w)).

(** What [write] and [read] answer: the number of bytes, or the bytes; that it
    would block; another error. *)
Inductive wres := Wrote (n : Z) | WAgain | WError.
Inductive rres := Got (data : list Z) | RAgain | RError.

Section Objects.
Context `{Layout}.

Definition DebugError_AssertNoError : WM unit := w ← get; ASSERT (negb (is_set d_err_job w)).

(** ** Sending and receiving *)
Definition connection_report_error : WM unit :=
  DebugError_AssertNoError;;
  on_re (BPending_Set d_err_job);;
  emit (Event BCONNECTION_EVENT_ERROR).

Definition wait_for (c : BConnection) (event : Z) : WM unit :=
  let wait := Z.lor (wait_events c) event in
  store_connection (Some (set_wait wait c));;
  on_re (on_po (BReactor_SetFileDescriptorEvents bfd wait)).

Definition connection_send (r : wres) : WM unit :=
  DebugError_AssertNoError;;
  c ← load_connection;
  ASSERT (bool_decide (send_state c = SEND_STATE_BUSY));;
  go ← (if is_hupd c then mret true else on_re (on_li (BReactorLimit_Increment send_limit)));
  if negb go then wait_for c BREACTOR_WRITE
  else
    match r with
    | WAgain => if negb (is_hupd c) then wait_for c BREACTOR_WRITE else connection_report_error
    | WError => connection_report_error
    | Wrote bytes =>
        ASSERT (bytes >? 0);;
        ASSERT (bytes <=? zlen (send_data c));;
        emit (Written (take (Z.to_nat bytes) (send_data c)));;
        store_connection (Some (set_send (send_data c) SEND_STATE_READY c));;
        emit (SendDone bytes)
    end.

Definition connection_recv (r : rres) : WM unit :=
  DebugError_AssertNoError;;
  c ← load_connection;
  ASSERT (bool_decide (recv_state c = RECV_STATE_BUSY));;
  go ← (if is_hupd c then mret true else on_re (on_li (BReactorLimit_Increment recv_limit)));
  if negb go then wait_for c BREACTOR_READ
  else
    match r with
    | RAgain => if negb (is_hupd c) then wait_for c BREACTOR_READ else connection_report_error
    | RError => connection_report_error
    | Got data =>
        if zlen data =? 0 then
          store_connection (Some (set_recv (recv_avail c) RECV_STATE_INITED_CLOSED c));;
          emit (Event BCONNECTION_EVENT_RECVCLOSED)
        else
          ASSERT (zlen data <=? recv_avail c);;
          store_connection (Some (set_recv (recv_avail c) RECV_STATE_READY c));;
          emit (RecvDone data)
    end.

Definition connection_fd_handler (events : Z) (w : wres) (r : rres) : WM unit :=
  DebugError_AssertNoError;;
  c ← load_connection;
  ASSERT (negb (is_hupd c));;
  let wait := Z.ldiff (wait_events c) events in
  store_connection (Some (set_wait wait c));;
  on_re (on_po (BReactor_SetFileDescriptorEvents bfd wait));;
  let c := set_wait wait c in
  let hup := has events BREACTOR_HUP in
  when hup (on_re (on_po (BReactor_RemoveFileDescriptor bfd));; store_connection (Some (set_hupd c)));;
  let bad := has events (Z.lor BREACTOR_ERROR BREACTOR_HUP) in
  let have_send := has events BREACTOR_WRITE || bad && bool_decide (send_state c = SEND_STATE_BUSY) in
  when have_send (ASSERT (bool_decide (send_state c = SEND_STATE_BUSY)));;
  let have_recv := has events BREACTOR_READ || bad && bool_decide (recv_state c = RECV_STATE_BUSY) in
  when have_recv (ASSERT (bool_decide (recv_state c = RECV_STATE_BUSY)));;
  if have_send then when have_recv (on_re (BPending_Set recv_job));; connection_send w
  else if have_recv then connection_recv r
  else if negb hup then connection_report_error
  else mret tt.

Definition connection_send_job_handler (w : wres) : WM unit :=
  DebugError_AssertNoError;;
  c ← load_connection;
  ASSERT (bool_decide (send_state c = SEND_STATE_BUSY));;
  connection_send w.

Definition connection_recv_job_handler (r : rres) : WM unit :=
  DebugError_AssertNoError;;
  c ← load_connection;
  ASSERT (bool_decide (recv_state c = RECV_STATE_BUSY));;
  connection_recv r.

Definition connection_send_if_handler_send (data : list Z) (w : wres) : WM unit :=
  DebugError_AssertNoError;;
  c ← load_connection;
  ASSERT (bool_decide (send_state c = SEND_STATE_READY));;
  ASSERT (zlen data >? 0);;
  store_connection (Some (set_send data SEND_STATE_BUSY c));;
  connection_send w.

Definition connection_recv_if_handler_recv (data_avail : Z) (r : rres) : WM unit :=
  DebugError_AssertNoError;;
  c ← load_connection;
  ASSERT (bool_decide (recv_state c = RECV_STATE_READY));;
  ASSERT (data_avail >? 0);;
  store_connection (Some (set_recv data_avail RECV_STATE_BUSY c));;
  connection_recv r.

(** ** Connector *)

(** What [connect] answers. *)
Inductive cres := Connected | InProgress | CFailed.

(** [sock]: the new descriptor; [nonblock]: whether it could be made not to
    block; [ok]: whether [epoll] takes it. *)
Definition BConnector_Init (a : BAddr) (sock : option Z) (nonblock : bool) (res : cres) (ok : bool) : WM bool :=
  if negb (BConnection_AddressSupported a) then mret false
  else
    match addr_socket_to_sys a with
    | None => ASSERT false;; mret false
    | Some _ =>
        let fail1 := on_re (BPending_Unset connector_job);; mret false in
        match sock with
        | None => fail1
        | Some n =>
            opened n;;
            let fail2 := close n;; fail1 in
            if negb nonblock then fail2
            else
              match res with
              | CFailed => fail2
              | InProgress =>
                  on_re (on_po (BFileDescriptor_Init connector_bfd n));;
                  added ← on_re (on_po (BReactor_AddFileDescriptor connector_bfd ok));
                  if negb added then fail2
                  else
                    on_re (on_po (BReactor_SetFileDescriptorEvents connector_bfd BREACTOR_WRITE));;
                    store_connector (Some (mkConnector n false true));;
                    mret true
              | Connected =>
                  on_re (BPending_Set connector_job);;
                  store_connector (Some (mkConnector n true false));;
                  mret true
              end
        end
    end.

Definition BConnector_Free : WM unit :=
  o ← load_connector;
  when (have_bfd o) (on_re (on_po (BReactor_RemoveFileDescriptor connector_bfd)));;
  when (negb (connector_fd o =? -1)) (close (connector_fd o));;
  on_re (BPending_Unset connector_job);;
  store_connector None.

(** [result]: what [getsockopt] answers, [None] if it fails. *)
Definition connector_fd_handler (result : option Z) : WM unit :=
  o ← load_connector;
  ASSERT (connector_fd o >=? 0);;
  ASSERT (negb (connected o));;
  ASSERT (have_bfd o);;
  on_re (on_po (BReactor_RemoveFileDescriptor connector_bfd));;
  let ok := match result with Some e => e =? 0 | None => false end in
  store_connector (Some (mkConnector (connector_fd o) ok false));;
  emit (ConnectorDone (negb ok)).

Definition connector_job_handler : WM unit :=
  o ← load_connector;
  ASSERT (connector_fd o >=? 0);;
  ASSERT (connected o);;
  ASSERT (negb (have_bfd o));;
  emit (ConnectorDone false).

(** ** Connection *)
Inductive source := FromConnector | FromPipe (pipefd : Z).

(** From where the descriptor is known: [fail1] closes it if it is owned. *)
Definition init_with (n : Z) (owned ok : bool) : WM bool :=
  on_re (on_po (BFileDescriptor_Init bfd n));;
  added ← on_re (on_po (BReactor_AddFileDescriptor bfd ok));
  if negb added then when owned (close n);; mret false
  else
    on_re (on_li (BReactorLimit_Init send_limit BCONNECTION_SEND_LIMIT));;
    on_re (on_li (BReactorLimit_Init recv_limit BCONNECTION_RECV_LIMIT));;
    store_connection (Some (mkConnection n owned false 0 [] SEND_STATE_NOT_INITED 0 RECV_STATE_NOT_INITED));;
    mret true.

Definition BConnection_Init (s : source) (nonblock ok : bool) : WM bool :=
  match s with
  | FromConnector =>
      o ← load_connector;
      w ← get;
      ASSERT (connector_fd o >=? 0);;
      ASSERT (connected o);;
      ASSERT (negb (have_bfd o));;
      ASSERT (negb (is_set connector_job w));;
      store_connector (Some (mkConnector (-1) (connected o) (have_bfd o)));;
      init_with (connector_fd o) true ok
  | FromPipe pipefd =>
      ASSERT (pipefd >=? 0);;
      if negb nonblock then mret false else init_with pipefd false ok
  end.

Definition BConnection_Free : WM unit :=
  c ← load_connection;
  on_re (BPending_Unset d_err_job);;
  ASSERT (bool_decide (send_state c = SEND_STATE_NOT_INITED));;
  ASSERT (bool_decide (recv_state c = RECV_STATE_NOT_INITED) || bool_decide (recv_state c = RECV_STATE_NOT_INITED_CLOSED));;
  on_re (on_li (BReactorLimit_Free recv_limit));;
  on_re (on_li (BReactorLimit_Free send_limit));;
  when (negb (is_hupd c)) (on_re (on_po (BReactor_RemoveFileDescriptor bfd)));;
  when (close_fd c) (close (conn_fd c));;
  store_connection None.

Definition BConnection_SendAsync_Init : WM unit :=
  DebugError_AssertNoError;;
  c ← load_connection;
  ASSERT (bool_decide (send_state c = SEND_STATE_NOT_INITED));;
  store_connection (Some (set_send (send_data c) SEND_STATE_READY c)).

(** The events are no longer awaited, unless the descriptor was removed. *)
Definition unawait (c : BConnection) (event : Z) : WM BConnection :=
  if is_hupd c then mret c
  else
    let wait := Z.ldiff (wait_events c) event in
    store_connection (Some (set_wait wait c));;
    on_re (on_po (BReactor_SetFileDescriptorEvents bfd wait));;
    mret (set_wait wait c).

Definition BConnection_SendAsync_Free : WM unit :=
  c ← load_connection;
  ASSERT (bool_decide (send_state c = SEND_STATE_READY) || bool_decide (send_state c = SEND_STATE_BUSY));;
  c ← unawait c BREACTOR_WRITE;
  on_re (BPending_Unset send_job);;
  store_connection (Some (set_send (send_data c) SEND_STATE_NOT_INITED c)).

Definition BConnection_RecvAsync_Init : WM unit :=
  DebugError_AssertNoError;;
  c ← load_connection;
  ASSERT (bool_decide (recv_state c = RECV_STATE_NOT_INITED));;
  store_connection (Some (set_recv (recv_avail c) RECV_STATE_READY c)).

Definition BConnection_RecvAsync_Free : WM unit :=
  c ← load_connection;
  ASSERT (bool_decide (recv_state c = RECV_STATE_READY) || bool_decide (recv_state c = RECV_STATE_BUSY) ||
          bool_decide (recv_state c = RECV_STATE_INITED_CLOSED));;
  c ← unawait c BREACTOR_READ;
  on_re (BPending_Unset recv_job);;
  store_connection (Some (set_recv (recv_avail c) RECV_STATE_NOT_INITED c)).

(** ** Handlers called by the event loop *)

(** The call with which a round ends, if it is one of these objects; what the
    system calls of the handler answer. *)
Definition handle (d : dispatched) (w : wres) (r : rres) (result : option Z) : WM unit :=
  match d with
  | Fd p events =>
      if bool_decide (p = bfd) then connection_fd_handler events w r
      else if bool_decide (p = connector_bfd) then connector_fd_handler result
      else mret tt
  | Job p =>
      if bool_decide (p = recv_job) then connection_recv_job_handler r
      else if bool_decide (p = send_job) then connection_send_job_handler w
      else if bool_decide (p = connector_job) then connector_job_handler
      else if bool_decide (p = d_err_job) then ASSERT false
      else mret tt
  | _ => mret tt
  end.
End Objects.
End Connection.
