(* ===== verification/ConnectionOk.v ===== *)
(** * Connections of the system are correct

    The objects of [Connection] in the event loop, together with any other
    objects: what the handlers do, and when their assertions hold. *)

From S2P Require Import Prelude BPending Net Reactor ReactorOk ReactorLoop ReactorRun Connection.
Import BTime Reactor ReactorOk ReactorLoop Connection.

Module ConnectionOk.
Implicit Types (o : BReactor) (w : world) (p q : ptr) (T : Z) (c : BConnection).

(** ** Events are bits *)
Lemma has_bit x k : 0 <= k → has x (2 ^ k) = Z.testbit x k.
Proof.
  intros Hk. unfold has. assert (Z.land x (2 ^ k) = if Z.testbit x k then 2 ^ k else 0) as ->.
  { apply Z.bits_inj'. intros i Hi. rewrite Z.land_spec, Z.pow2_bits_eqb by done. destruct (Z.eqb_spec k i) as [-> | Hne].
    - rewrite andb_true_r. destruct (Z.testbit x i); [by rewrite Z.pow2_bits_true|by rewrite Z.bits_0].
    - rewrite andb_false_r. destruct (Z.testbit x k); [by rewrite Z.pow2_bits_false|by rewrite Z.bits_0]. }
  destruct (Z.testbit x k); [|done]. destruct (Z.eqb_spec (2 ^ k) 0); [|done]. pose proof (Z.pow_pos_nonneg 2 k). lia.
Qed.
Lemma has_read x : has x BREACTOR_READ = Z.testbit x 0.
Proof. by apply (has_bit x 0). Qed.
Lemma has_write x : has x BREACTOR_WRITE = Z.testbit x 1.
Proof. by apply (has_bit x 1). Qed.

(** Only these two are awaited. *)
Definition rw (e : Z) : Prop := Z.ldiff e (Z.lor BREACTOR_READ BREACTOR_WRITE) = 0.
Lemma rw_bits e : rw e ↔ ∀ i, 0 <= i → Z.testbit (Z.lor BREACTOR_READ BREACTOR_WRITE) i = false → Z.testbit e i = false.
Proof.
  unfold rw. split.
  - intros H i Hi Hb. assert (Hl : Z.testbit (Z.ldiff e (Z.lor BREACTOR_READ BREACTOR_WRITE)) i = false) by (rewrite H; apply Z.bits_0).
    rewrite Z.ldiff_spec, Hb, andb_true_r in Hl. done.
  - intros H. apply Z.bits_inj'. intros i Hi. rewrite Z.ldiff_spec, Z.bits_0. destruct (Z.testbit (Z.lor _ _) i) eqn:E; [apply andb_false_r|].
    by rewrite (H i Hi E).
Qed.
Lemma rw_lor e x : rw e → rw x → rw (Z.lor e x).
Proof. rewrite !rw_bits. intros H1 H2 i Hi Hb. by rewrite Z.lor_spec, H1, H2. Qed.
Lemma rw_ldiff e x : rw e → rw (Z.ldiff e x).
Proof. rewrite !rw_bits. intros H1 i Hi Hb. by rewrite Z.ldiff_spec, H1. Qed.

(** ** What the operations of the event loop do to the objects *)
Definition fdv o p : option (Z * bool * Z) := view <$> fds (po o) !! p.
Definition has_limit o p : Prop := is_Some (limits (li o) !! p).
Definition inactive (v : option (Z * bool * Z)) : Prop := ∀ n e, v ≠ Some (n, true, e).

(** An object of a file descriptor changes, and nothing else. *)
Record upd T o p (v : option (Z * bool * Z)) o' : Prop := mkUpd {
  u_ok : r_ok T o';
  u_fd q : fdv o' q = if decide (q = p) then v else fdv o q;
  u_jobs : pending_jobs o' = pending_jobs o;
  u_li : li o' = li o
}.

Lemma fdv_insert (x : gmap ptr BFileDescriptor) p f q : view <$> <[p := f]> x !! q = if decide (q = p) then Some (view f) else view <$> x !! q.
Proof. case_decide; [subst; by rewrite lookup_insert_eq|by rewrite lookup_insert_ne]. Qed.

Lemma fdv_some o p n b e : fdv o p = Some (n, b, e) → ∃ f, fds (po o) !! p = Some f ∧ fd f = n ∧ active f = b ∧ waitEvents f = e.
Proof. unfold fdv. destruct (fds (po o) !! p) as [f|]; [|done]. cbn. intros [= <- <- <-]. eauto. Qed.
Lemma fdv_inactive o p : inactive (fdv o p) → ∀ f, fds (po o) !! p = Some f → active f = false.
Proof. intros H f Hf. destruct (active f) eqn:E; [|done]. exfalso. apply (H (fd f) (waitEvents f)). unfold fdv. rewrite Hf. cbn. unfold view. by rewrite E. Qed.

Lemma r_po_change T o x : r_ok T o → p_ok x → r_ok T (set_po x o).
Proof. intros [? ? ? ? ?] Hx. by split. Qed.
Lemma r_li_change T o y : r_ok T o → l_ok y → r_ok T (set_li y o).
Proof. intros [? ? ? ? ?] Hy. by split. Qed.
Lemma r_jobs_change T o l : r_ok T o → NoDup l → r_ok T (set_jobs l o).
Proof. intros [? ? ? ? ?] Hl. by split. Qed.

Lemma set_events_upd T o p n e0 ev : r_ok T o → fdv o p = Some (n, true, e0) → rw ev →
  runs (on_po (BReactor_SetFileDescriptorEvents p ev)) o (λ _ o' l, l = [] ∧ upd T o p (Some (n, true, ev)) o').
Proof.
  intros H (f & Hf & <- & Ha & _)%fdv_some Hev. apply runs_po. eapply runs_mono; [by apply (set_events_runs p f); [apply H|..]|].
  intros [] x w (-> & Hx & Ex & _). split; [done|]. split; [by apply r_po_change| |done|done].
  intros q. unfold fdv. cbn. rewrite Ex, fdv_insert. unfold view. cbn. by rewrite Ha.
Qed.

Lemma remove_fd_upd T o p n e : r_ok T o → fdv o p = Some (n, true, e) →
  runs (on_po (BReactor_RemoveFileDescriptor p)) o (λ _ o' l, l = [] ∧ upd T o p (Some (n, false, e)) o').
Proof.
  intros H (f & Hf & <- & Ha & <-)%fdv_some. apply runs_po. eapply runs_mono; [by apply (remove_fd_runs p f); [apply H|..]|].
  intros [] x w (-> & Hx & _ & Ex & _). split; [done|]. split; [by apply r_po_change| |done|done].
  intros q. unfold fdv. cbn. by rewrite Ex, fdv_insert.
Qed.

Lemma fd_init_upd T o p n : r_ok T o → inactive (fdv o p) →
  runs (on_po (BFileDescriptor_Init p n)) o (λ _ o' l, l = [] ∧ upd T o p (Some (n, false, 0)) o').
Proof.
  intros H Hi. apply runs_po, runs_modify. split; [done|]. split; [|intros q; unfold fdv; cbn; by rewrite fdv_insert|done|done].
  apply r_po_change; [done|]. apply p_idle; [apply H|by apply fdv_inactive|done].
Qed.

Lemma add_fd_upd T o p n e ok : r_ok T o → fdv o p = Some (n, false, e) →
  runs (on_po (BReactor_AddFileDescriptor p ok)) o (λ b o' _, if b : bool then upd T o p (Some (n, true, 0)) o' else o' = o).
Proof.
  intros H (f & Hf & <- & Ha & _)%fdv_some. apply runs_po. eapply runs_mono; [by apply (add_fd_runs p f); [apply H|..]|].
  intros b x w (Hx & _ & _ & Hb). destruct b; [|destruct Hb as [_ ->]; apply set_po_same]. destruct Hb as [_ Ex].
  split; [by apply r_po_change| |done|done]. intros q. unfold fdv. cbn. by rewrite Ex, fdv_insert.
Qed.

(** The limits change, and nothing else. *)
Record upl T o (P : ptr → Prop) o' : Prop := mkUpl {
  l_rok : r_ok T o';
  l_fd q : fdv o' q = fdv o q;
  l_jobs : pending_jobs o' = pending_jobs o;
  l_has q : has_limit o' q ↔ P q
}.

Lemma increment_upl T o p : r_ok T o → has_limit o p →
  runs (on_li (BReactorLimit_Increment p)) o (λ _ o' l, l = [] ∧ upl T o (has_limit o) o').
Proof.
  intros H [x Hx]. apply runs_li. eapply runs_mono; [by apply (limit_increment_runs p x); [apply H|]|].
  intros b y w (-> & Hy & _ & Ey). split; [done|]. split; [by apply r_li_change|done|done|]. intros q. unfold has_limit. cbn. rewrite Ey.
  destruct (count x <? limit x); [|done]. rewrite lookup_insert_is_Some'. naive_solver.
Qed.

Lemma limit_free_upl T o p : r_ok T o → has_limit o p →
  runs (on_li (BReactorLimit_Free p)) o (λ _ o' l, l = [] ∧ upl T o (λ q, q ≠ p ∧ has_limit o q) o').
Proof.
  intros H [x Hx]. apply runs_li. eapply runs_mono; [by apply (limit_free_runs p x); [apply H|]|].
  intros [] y w (-> & Hy & Ey). split; [done|]. split; [by apply r_li_change|done|done|]. intros q. unfold has_limit. cbn. rewrite Ey.
  rewrite lookup_delete_is_Some. naive_solver.
Qed.

Lemma limit_init_upl T o p n : r_ok T o → ¬ has_limit o p → 0 < n →
  runs (on_li (BReactorLimit_Init p n)) o (λ _ o' l, l = [] ∧ upl T o (λ q, q = p ∨ has_limit o q) o').
Proof.
  intros H Hn Hpos. pose proof (perform_runs T (LimitInit p n) o H (conj (proj2 (eq_None_not_Some _) Hn) Hpos)) as Hp. cbn [perform] in Hp.
  apply runs_li. unfold BReactorLimit_Init. apply runs_bind, runs_ASSERT; [rewrite Z.gtb_ltb; by apply Z.ltb_lt|]. apply runs_modify.
  split; [done|]. assert (Hg : (n >? 0) = true) by (rewrite Z.gtb_ltb; by apply Z.ltb_lt).
  split; [|done|done|intros q; unfold has_limit; cbn; rewrite lookup_insert_is_Some'; naive_solver].
  revert Hp. unfold runs, on_li, BReactorLimit_Init. cbn. rewrite Hg. cbn. naive_solver.
Qed.

(** ** What a connection promises its user

    Of sending: nothing is under way, these bytes are to be sent, or so many of
    them were written; of receiving: the room there is. *)
Inductive sending := SIdle | SData (data : list Z) | SWritten (n : Z).
Abbreviation spec := (sending * option Z)%type.

#[export] Instance wres_eq : EqDecision wres.
Proof. solve_decision. Defined.
#[export] Instance rres_eq : EqDecision rres.
Proof. solve_decision. Defined.

(** What may come out while [write] answers [y.1] and [read] answers [y.2]: a
    beginning of the bytes is written, as many as [write] says, and the operation
    is done with that many; the other operation is completed by exactly the bytes
    that [read] returned, which fit, or by the end if it returned none.  An error
    may come at any time. *)
Definition out_spec (y : wres * rres) (x : out) (a : spec) : option spec :=
  match x, a with
  | Written d, (SData data, r) =>
      if bool_decide (y.1 = Wrote (zlen d)) && (zlen d >? 0) && bool_decide (take (length d) data = d) then Some (SWritten (zlen d), r) else None
  | SendDone n, (SWritten m, r) => if n =? m then Some (SIdle, r) else None
  | RecvDone d, (x, Some avail) => if bool_decide (y.2 = Got d) && (zlen d >? 0) && (zlen d <=? avail) then Some (x, None) else None
  | Event e, (x, r) =>
      if e =? BCONNECTION_EVENT_ERROR then Some a
      else if (e =? BCONNECTION_EVENT_RECVCLOSED) && bool_decide (y.2 = Got []) then match r with Some _ => Some (x, None) | None => None end
      else None
  | Log _, _ | ConnectorDone _, _ => Some a
  | _, _ => None
  end.
Fixpoint outs (y : wres * rres) (a : spec) (l : list out) : option spec :=
  match l with [] => Some a | x :: l' => a' ← out_spec y x a; outs y a' l' end.

(** Completed operations. *)
Definition sent (x : out) : bool := match x with SendDone _ => true | _ => false end.
Definition received (x : out) : bool := match x with RecvDone _ => true | Event e => e =? BCONNECTION_EVENT_RECVCLOSED | _ => false end.

(** What a computation starts from: whether every awaited event belongs to an
    operation, whether the completion of an operation keeps it so, and what the
    system calls answer. *)
Record terms := mkTerms { fresh : Prop; may_send : Prop; may_recv : Prop; system : wres * rres }.
Definition still (t : terms) (l : list out) : Prop :=
  fresh t ∧ (existsb sent l = true → may_send t) ∧ (existsb received l = true → may_recv t).

Definition abs_send c : sending := match send_state c with SEND_STATE_BUSY => SData (send_data c) | _ => SIdle end.
Definition abs_recv c : option Z := match recv_state c with RECV_STATE_BUSY => Some (recv_avail c) | _ => None end.
Definition abs c : spec := (abs_send c, abs_recv c).

Section Connections.
Context `{Layout} {t : terms}.

(** ** The invariant *)

(** If an error was reported, the job of [recv] does not run before the user
    has freed the connection. *)
Fixpoint err_first (jobs : list ptr) : Prop :=
  match jobs with
  | [] => True
  | j :: l => if decide (j = d_err_job) then True else if decide (j = recv_job) then d_err_job ∉ l else err_first l
  end.

Lemma err_first_none l : d_err_job ∉ l → err_first l.
Proof. induction l as [|j l IH]; [done|]. intros [Hj Hl]%not_elem_of_cons. cbn. case_decide; [done|]. case_decide; [done|]. by apply IH. Qed.

Lemma err_first_tail j l : err_first (j :: l) → j ≠ d_err_job → err_first l.
Proof. cbn. intros He Hj. rewrite decide_False in He by done. case_decide; [by apply err_first_none|done]. Qed.

Lemma err_first_remove q l : q ≠ d_err_job → err_first l → err_first (JobQueue.remove q l).
Proof.
  intros Hq. induction l as [|j l IH]; intros He; [done|]. unfold JobQueue.remove in *. rewrite filter_cons. cbn in He. repeat case_decide; subst; cbn.
  all: repeat (rewrite ?decide_True by done; rewrite ?decide_False by done); try done.
  all: try (by apply IH); try (intros [_ ?]%list_elem_of_filter; done).
  by apply IH, err_first_none.
Qed.

Lemma jobs_distinct : send_job ≠ recv_job ∧ send_job ≠ d_err_job ∧ send_job ≠ connector_job ∧ recv_job ≠ d_err_job ∧ recv_job ≠ connector_job ∧ d_err_job ≠ connector_job.
Proof. pose proof layout_jobs as Hn. rewrite !NoDup_cons, !not_elem_of_cons in Hn. naive_solver. Qed.

(** What holds of a connection at all times: [v] is its object of the event
    loop, [jobs] the pending jobs.  That an awaited event belongs to an operation
    holds while [F]. *)
Record c_base (F : Prop) c (v : option (Z * bool * Z)) (jobs : list ptr) : Prop := mkBase {
  c_view : if is_hupd c then inactive v else v = Some (conn_fd c, true, wait_events c);
  c_rw : rw (wait_events c);
  c_read : F → is_hupd c = false → has (wait_events c) BREACTOR_READ = true → recv_state c = RECV_STATE_BUSY;
  c_write : F → is_hupd c = false → has (wait_events c) BREACTOR_WRITE = true → send_state c = SEND_STATE_BUSY;
  c_job : recv_job ∈ jobs → recv_state c = RECV_STATE_BUSY;
  c_sjob : send_job ∉ jobs;
  c_err : err_first jobs
}.

Lemma c_base_weak (F F' : Prop) c v jobs : c_base F c v jobs → (F' → F) → c_base F' c v jobs.
Proof. intros [B1 B2 B3 B4 B5 B6 B7] HF. split; try done; intros Hf; auto. Qed.

(** An operation that is under way will be continued. *)
Definition drive_send c (jobs : list ptr) : Prop :=
  d_err_job ∉ jobs → send_state c = SEND_STATE_BUSY → is_hupd c = false ∧ has (wait_events c) BREACTOR_WRITE = true.
Definition drive_recv c (jobs : list ptr) : Prop :=
  d_err_job ∉ jobs → recv_state c = RECV_STATE_BUSY → recv_job ∈ jobs ∨ is_hupd c = false ∧ has (wait_events c) BREACTOR_READ = true.
Definition c_ok (F : Prop) c v jobs : Prop := c_base F c v jobs ∧ drive_send c jobs ∧ drive_recv c jobs.

Definition cv w := fdv (re w) bfd.
Definition jobs w := pending_jobs (re w).
Definition limits_there w : Prop := has_limit (re w) send_limit ∧ has_limit (re w) recv_limit.

(** What a handler of the connection leaves alone. *)
Record others w w' : Prop := mkOthers {
  ot_connector : connector w' = connector w;
  ot_open : open_fds w' = open_fds w;
  ot_fd : fdv (re w') connector_bfd = fdv (re w) connector_bfd;
  ot_job : connector_job ∈ jobs w' ↔ connector_job ∈ jobs w;
  ot_limits : limits_there w' ↔ limits_there w
}.

(** The connection is still the same one, and in order, and what came out is
    what may come out of it. *)
Definition good T w c (a : spec) (l : list out) w' : Prop :=
  r_ok T (re w') ∧ others w w' ∧
  ∃ c', connection w' = Some c' ∧ conn_fd c' = conn_fd c ∧ close_fd c' = close_fd c ∧ outs (system t) a l = Some (abs c') ∧ c_ok (still t l) c' (cv w') (jobs w').

Lemma runs_re {A} (m : RM A) w (Q : A → world → list out → Prop) :
  runs m (re w) (λ a o l, Q a (mkWorld o (connector w) (connection w) (open_fds w)) (Log <$> l)) → runs (on_re m) w Q.
Proof. unfold runs, on_re. by destruct (m (re w)) as [[[a o] l]|]. Qed.

Lemma runs_load_connection w c (Q : BConnection → world → list out → Prop) : connection w = Some c → Q c w [] → runs load_connection w Q.
Proof. unfold runs, load_connection. by intros ->. Qed.
Lemma runs_load_connector w k (Q : BConnector → world → list out → Prop) : connector w = Some k → Q k w [] → runs load_connector w Q.
Proof. unfold runs, load_connector. by intros ->. Qed.

Lemma runs_no_error w (Q : unit → world → list out → Prop) : d_err_job ∉ jobs w → Q tt w [] → runs DebugError_AssertNoError w Q.
Proof.
  intros Hn HQ. apply runs_bind, runs_get, runs_ASSERT; [|done]. unfold is_set, JobQueue.is_set. by rewrite bool_decide_false.
Qed.

Lemma report_error_runs T w c : r_ok T (re w) → connection w = Some c → c_base (fresh t) c (cv w) (jobs w) → d_err_job ∉ jobs w →
  runs connection_report_error w (λ _ w' l, good T w c (abs c) l w').
Proof.
  intros Hr Hc Hb Hn. pose proof jobs_distinct as (_ & D2 & _ & D4 & _ & D6). apply runs_bind, runs_no_error; [done|].
  apply runs_bind, runs_re, runs_modify, runs_emit. destruct Hb as [B1 B2 B3 B4 B5 B6 B7].
  unfold jobs in *. assert (E : JobQueue.set d_err_job (pending_jobs (re w)) = d_err_job :: pending_jobs (re w)) by (unfold JobQueue.set; by rewrite JobQueue.remove_id).
  split; [|split]; cbn.
  - apply r_jobs_change; [done|]. rewrite E. constructor; [done|apply Hr].
  - split; cbn; [done|done|done| |done]. unfold jobs. cbn. rewrite E, elem_of_cons. naive_solver.
  - exists c. split_and!; [done|done|done|done|]. unfold jobs. cbn. rewrite E. split; [split; try done; try (by intros [? _]; auto)|split].
    + intros [?|?]%elem_of_cons; [by destruct D4|auto].
    + rewrite not_elem_of_cons. done.
    + cbn. by rewrite decide_True.
    + intros Hno. exfalso. apply Hno. by left.
    + intros Hno. exfalso. apply Hno. by left.
Qed.

(** ** Sending and receiving *)
Lemma others_refl w : others w w.
Proof. by split. Qed.
Lemma others_trans w1 w2 w3 : others w1 w2 → others w2 w3 → others w1 w3.
Proof. intros [A1 A2 A3 A4 A5] [B1 B2 B3 B4 B5]. split; [congruence..|by rewrite B4|by rewrite B5]. Qed.

Lemma others_upd T w v o' (c' : option BConnection) : upd T (re w) bfd v o' → others w (mkWorld o' (connector w) c' (open_fds w)).
Proof.
  intros [_ U2 U3 U4]. split; cbn; [done|done| | |].
  - rewrite U2. rewrite decide_False; [done|]. intros E. by destruct layout_fds.
  - unfold jobs. cbn. by rewrite U3.
  - unfold limits_there, has_limit. cbn. by rewrite U4.
Qed.

Lemma good_trans T w w1 c c1 a l w' : others w w1 → conn_fd c1 = conn_fd c → close_fd c1 = close_fd c → good T w1 c1 a l w' → good T w c a l w'.
Proof.
  intros Ho E1 E2 (G1 & G2 & c' & G3 & G4 & G5 & G6 & G7). split_and!; [done|by eapply others_trans|]. exists c'. split_and!; [done|congruence|congruence|done|done].
Qed.

Lemma wait_for_runs T w c e : r_ok T (re w) → connection w = Some c → c_base (fresh t) c (cv w) (jobs w) → is_hupd c = false →
  (e = BREACTOR_READ ∧ recv_state c = RECV_STATE_BUSY ∨ e = BREACTOR_WRITE ∧ send_state c = SEND_STATE_BUSY) →
  (has e BREACTOR_WRITE = false → drive_send c (jobs w)) → (has e BREACTOR_READ = false → drive_recv c (jobs w)) →
  runs (wait_for c e) w (λ _ w' l, good T w c (abs c) l w').
Proof.
  intros Hr Hc [B1 B2 B3 B4 B5 B6 B7] Hh He Ds Dr. unfold wait_for. apply runs_bind, runs_modify, runs_re. cbn [re connector connection open_fds].
  rewrite Hh in B1. assert (Hrw : rw (Z.lor (wait_events c) e)) by (apply rw_lor; [done|]; by destruct He as [[-> _]|[-> _]]).
  assert (Hlor : ∀ x, x = BREACTOR_READ ∨ x = BREACTOR_WRITE → has (Z.lor (wait_events c) e) x = has (wait_events c) x || has e x).
  { intros x [-> | ->]; rewrite ?has_read, ?has_write; apply Z.lor_spec. }
  eapply runs_mono; [by eapply set_events_upd|]. intros [] o' l [-> Hu]. split; [apply Hu|]. split; [by eapply others_upd|].
  exists (set_wait (Z.lor (wait_events c) e) c). split_and!; [done|done|done|done|split; [|split]]; unfold jobs, cv in *; cbn; rewrite (u_jobs _ _ _ _ _ Hu).
  - split; cbn; try done.
    + rewrite Hh, (u_fd _ _ _ _ _ Hu), decide_True; done.
    + intros [Hf _] _. rewrite Hlor by auto. intros [Hw|Hw]%orb_true_iff; [by apply B3|]. by destruct He as [[-> ?]|[-> _]].
    + intros [Hf _] _. rewrite Hlor by auto. intros [Hw|Hw]%orb_true_iff; [by apply B4|]. by destruct He as [[-> _]|[-> ?]].
  - intros Hn Hb. cbn in *. rewrite Hlor by auto. split; [done|]. destruct (has e BREACTOR_WRITE) eqn:E; [apply orb_true_r|].
    destruct (Ds eq_refl Hn Hb) as [_ ->]. done.
  - intros Hn Hb. cbn in *. rewrite Hlor by auto. destruct (has e BREACTOR_READ) eqn:E; [right; split; [done|apply orb_true_r]|].
    destruct (Dr eq_refl Hn Hb) as [?|[_ ->]]; [by left|by right].
Qed.

(** The limit, unless the descriptor was removed. *)
Lemma limit_runs T w c p : r_ok T (re w) → connection w = Some c → limits_there w → p = send_limit ∨ p = recv_limit →
  runs (if is_hupd c then mret true else on_re (on_li (BReactorLimit_Increment p))) w (λ go w' l, l = [] ∧ r_ok T (re w') ∧ others w w' ∧
    connection w' = Some c ∧ cv w' = cv w ∧ jobs w' = jobs w ∧ (is_hupd c = true → go = true)).
Proof.
  intros Hr Hc Hl Hp. destruct (is_hupd c) eqn:Hh; [apply runs_ret; split_and!; try done; apply others_refl|].
  apply runs_re. eapply runs_mono; [apply (increment_upl T); [done|destruct Hl, Hp as [-> | ->]; done]|]. intros go o' l [-> [U1 U2 U3 U4]].
  split_and!; try done; [|by apply U2]. split; cbn; [done|done|apply U2|unfold jobs; cbn; by rewrite U3|]. unfold limits_there. cbn. by rewrite !U4.
Qed.

(** What [write] may answer. *)
Definition wres_ok c (r : wres) : Prop := ∀ n, r = Wrote n → 0 < n <= zlen (send_data c).
Definition rres_ok c (r : rres) : Prop := ∀ data, r = Got data → zlen data <= recv_avail c.

Lemma written_spec c n : (system t).1 = Wrote n → send_state c = SEND_STATE_BUSY → 0 < n <= zlen (send_data c) →
  outs (system t) (abs c) [Written (take (Z.to_nat n) (send_data c)); SendDone n] = Some (abs (set_send (send_data c) SEND_STATE_READY c)).
Proof.
  intros Hy Hs Hn. unfold abs, abs_send. rewrite Hs. cbn. assert (El : length (take (Z.to_nat n) (send_data c)) = Z.to_nat n) by (apply length_take_le; unfold zlen in Hn; lia).
  assert (Ez : zlen (take (Z.to_nat n) (send_data c)) = n) by (unfold zlen; rewrite El; lia). rewrite Ez, El, !bool_decide_true by done.
  assert ((n >? 0) = true) as -> by (rewrite Z.gtb_ltb; apply Z.ltb_lt; lia). cbn. by rewrite Z.eqb_refl.
Qed.

Lemma received_spec c data x : (system t).2 = Got data → recv_state c = RECV_STATE_BUSY → x ≠ RECV_STATE_BUSY → zlen data <= recv_avail c →
  outs (system t) (abs c) (if zlen data =? 0 then [Event BCONNECTION_EVENT_RECVCLOSED] else [RecvDone data]) = Some (abs (set_recv (recv_avail c) x c)).
Proof.
  intros Hy Hs Hx Hl. unfold abs, abs_recv, abs_send. rewrite Hs. pose proof (zlen_nonneg data). destruct (zlen data =? 0) eqn:E; zb; cbn.
  - apply zlen_zero_inv in E. subst data. rewrite bool_decide_true by done. by destruct x.
  - rewrite bool_decide_true by done. assert ((zlen data >? 0) = true) as -> by (rewrite Z.gtb_ltb; apply Z.ltb_lt; lia). rewrite (proj2 (Z.leb_le _ _)) by done. by destruct x.
Qed.

Lemma send_runs T w c r : r_ok T (re w) → connection w = Some c → limits_there w → c_base (fresh t) c (cv w) (jobs w) → drive_recv c (jobs w) →
  d_err_job ∉ jobs w → send_state c = SEND_STATE_BUSY → wres_ok c r → (system t).1 = r →
  (fresh t → may_send t → is_hupd c = false → has (wait_events c) BREACTOR_WRITE = false) →
  runs (connection_send r) w (λ _ w' l, good T w c (abs c) l w').
Proof.
  intros Hr Hc Hl Hb Hd Hn Hs Hw Hy Hhon. unfold connection_send. apply runs_bind, runs_no_error; [done|]. apply runs_bind.
  eapply runs_load_connection; [done|]. apply runs_bind, runs_ASSERT; [by apply bool_decide_eq_true|]. apply runs_bind.
  eapply runs_mono; [by eapply (limit_runs T w c send_limit); auto|]. intros go w1 l1 (-> & Hr1 & Ho & Hc1 & Ev & Ej & Hgo). cbn [app].
  rewrite <-Ev, <-Ej in Hb. rewrite <-Ej in Hd, Hn.
  assert (Hwait : is_hupd c = false → runs (wait_for c BREACTOR_WRITE) w1 (λ _ w' l, good T w c (abs c) l w')).
  { intros Hh. eapply runs_mono; [eapply (wait_for_runs T); try done; by right|]. intros [] w' l G. by eapply good_trans. }
  assert (Herr : runs connection_report_error w1 (λ _ w' l, good T w c (abs c) l w')).
  { eapply runs_mono; [by eapply report_error_runs|]. intros [] w' l G. by eapply good_trans. }
  destruct go; cbn [negb]; [|destruct (is_hupd c) eqn:Hh; [by specialize (Hgo eq_refl)|by apply Hwait]].
  destruct r as [n| |]; [|destruct (is_hupd c) eqn:Hh; [exact Herr|by apply Hwait]|exact Herr]. destruct (Hw n eq_refl) as [Hn1 Hn2].
  apply runs_bind, runs_ASSERT; [rewrite Z.gtb_ltb; by apply Z.ltb_lt|]. apply runs_bind, runs_ASSERT; [by apply Z.leb_le|].
  apply runs_bind, runs_emit, runs_bind, runs_modify, runs_emit. eapply good_trans; [exact Ho|reflexivity|reflexivity|].
  split; [done|]. split; [split; done|]. exists (set_send (send_data c) SEND_STATE_READY c). destruct Hb as [B1 B2 B3 B4 B5 B6 B7].
  split_and!; [done|done|done|by apply written_spec|split; [split; cbn; try done|split; done]]; intros (Hf & Hms & _) Hh; [by apply B3|]. by rewrite (Hhon Hf (Hms eq_refl) Hh).
Qed.

Lemma recv_runs T w c r : r_ok T (re w) → connection w = Some c → limits_there w → c_base (fresh t) c (cv w) (jobs w) → drive_send c (jobs w) →
  d_err_job ∉ jobs w → recv_job ∉ jobs w → recv_state c = RECV_STATE_BUSY → rres_ok c r → (system t).2 = r →
  (fresh t → may_recv t → is_hupd c = false → has (wait_events c) BREACTOR_READ = false) →
  runs (connection_recv r) w (λ _ w' l, good T w c (abs c) l w').
Proof.
  intros Hr Hc Hl Hb Hd Hn Hj Hs Hw Hy Hhon. unfold connection_recv. apply runs_bind, runs_no_error; [done|]. apply runs_bind.
  eapply runs_load_connection; [done|]. apply runs_bind, runs_ASSERT; [by apply bool_decide_eq_true|]. apply runs_bind.
  eapply runs_mono; [by eapply (limit_runs T w c recv_limit); auto|]. intros go w1 l1 (-> & Hr1 & Ho & Hc1 & Ev & Ej & Hgo). cbn [app].
  rewrite <-Ev, <-Ej in Hb. rewrite <-Ej in Hd, Hn, Hj.
  assert (Hwait : is_hupd c = false → runs (wait_for c BREACTOR_READ) w1 (λ _ w' l, good T w c (abs c) l w')).
  { intros Hh. eapply runs_mono; [eapply (wait_for_runs T); try done; by left|]. intros [] w' l G. by eapply good_trans. }
  assert (Herr : runs connection_report_error w1 (λ _ w' l, good T w c (abs c) l w')).
  { eapply runs_mono; [by eapply report_error_runs|]. intros [] w' l G. by eapply good_trans. }
  destruct go; cbn [negb]; [|destruct (is_hupd c) eqn:Hh; [by specialize (Hgo eq_refl)|by apply Hwait]].
  destruct r as [data| |]; [|destruct (is_hupd c) eqn:Hh; [exact Herr|by apply Hwait]|exact Herr]. pose proof (Hw data eq_refl) as Hn2.
  assert (Hset : ∀ x, x ≠ RECV_STATE_BUSY → good T w c (abs c) (if zlen data =? 0 then [Event BCONNECTION_EVENT_RECVCLOSED] else [RecvDone data])
    (mkWorld (re w1) (connector w1) (Some (set_recv (recv_avail c) x c)) (open_fds w1))).
  { intros x Hx. eapply good_trans; [exact Ho|reflexivity|reflexivity|]. split; [done|]. split; [split; done|].
    exists (set_recv (recv_avail c) x c). destruct Hb as [B1 B2 B3 B4 B5 B6 B7].
    split_and!; [done|done|done|by apply received_spec|split; [split; cbn; try done|split; [exact Hd|by intros _ ?]]].
    - intros (Hf & _ & Hmr) Hh. rewrite (Hhon Hf); [done| |done]. apply Hmr. by destruct (zlen data =? 0).
    - intros (Hf & _) Hh. by apply B4. }
  destruct (zlen data =? 0) eqn:E; zb.
  - apply runs_bind, runs_modify, runs_emit. by apply Hset.
  - apply runs_bind, runs_ASSERT; [by apply Z.leb_le|]. apply runs_bind, runs_modify, runs_emit. by apply Hset.
Qed.

(** ** Handlers *)

(** The handler is called with an event for reading or writing only while that
    operation is under way. *)
Definition expected c (ev : Z) : Prop :=
  (has ev BREACTOR_READ = true → recv_state c = RECV_STATE_BUSY) ∧ (has ev BREACTOR_WRITE = true → send_state c = SEND_STATE_BUSY).

Lemma has_hup ev : has ev BREACTOR_HUP = true → has ev (Z.lor BREACTOR_ERROR BREACTOR_HUP) = true.
Proof.
  unfold has. rewrite !negb_true_iff, !Z.eqb_neq. intros Hh E. apply Hh. change BREACTOR_HUP with (Z.land (Z.lor BREACTOR_ERROR BREACTOR_HUP) BREACTOR_HUP).
  by rewrite Z.land_assoc, E.
Qed.

Lemma has_ldiff e ev x : x = BREACTOR_READ ∨ x = BREACTOR_WRITE → has (Z.ldiff e ev) x = has e x && negb (has ev x).
Proof. intros [-> | ->]; rewrite ?has_read, ?has_write; apply Z.ldiff_spec. Qed.

(** The handled events are cleared, and the descriptor is removed if it is dead. *)
Definition cleared c ev : BConnection := let c1 := set_wait (Z.ldiff (wait_events c) ev) c in if has ev BREACTOR_HUP then set_hupd c1 else c1.

Lemma clear_runs T w c ev (m : WM unit) Q : r_ok T (re w) → connection w = Some c → c_base (fresh t) c (cv w) (jobs w) → is_hupd c = false →
  (∀ w', r_ok T (re w') → others w w' → connection w' = Some (cleared c ev) → c_base (fresh t) (cleared c ev) (cv w') (jobs w') → jobs w' = jobs w → runs m w' Q) →
  let wait := Z.ldiff (wait_events c) ev in
  runs (store_connection (Some (set_wait wait c));; on_re (on_po (BReactor_SetFileDescriptorEvents bfd wait));;
    when (has ev BREACTOR_HUP) (on_re (on_po (BReactor_RemoveFileDescriptor bfd));; store_connection (Some (set_hupd (set_wait wait c))));; m) w Q.
Proof.
  intros Hr Hc Hb Hh HQ wait. pose proof (c_view _ _ _ _ Hb) as B1. rewrite Hh in B1. apply runs_bind, runs_modify, runs_bind, runs_re. cbn [re connector connection open_fds].
  assert (Hbase : ∀ v (h : bool), (if h then inactive v else v = Some (conn_fd c, true, wait)) → h = has ev BREACTOR_HUP → c_base (fresh t) (cleared c ev) v (jobs w)).
  { intros v h Hv ->. destruct Hb as [_ B2 B3 B4 B5 B6 B7]. unfold cleared.
    destruct (has ev BREACTOR_HUP); (split; cbn; rewrite ?Hh; [done|by apply rw_ldiff|..|exact B5|done|done]); try done.
    - intros Hf _. rewrite has_ldiff by auto. intros [? _]%andb_true_iff. by apply B3.
    - intros Hf _. rewrite has_ldiff by auto. intros [? _]%andb_true_iff. by apply B4. }
  eapply runs_mono; [eapply set_events_upd; [done|exact B1|apply rw_ldiff, Hb]|]. intros [] o1 l1 [-> U1]. cbn [app fmap list_fmap].
  assert (Ev : fdv o1 bfd = Some (conn_fd c, true, wait)) by (rewrite (u_fd _ _ _ _ _ U1); by rewrite decide_True).
  pose proof (others_upd T w _ o1 (Some (set_wait wait c)) U1) as O1. apply runs_bind. destruct (has ev BREACTOR_HUP) eqn:Eh; cbn [when].
  - apply runs_bind, runs_re. cbn [re connector connection open_fds]. eapply runs_mono; [eapply remove_fd_upd; [apply U1|exact Ev]|].
    intros [] o2 l2 [-> U2]. apply runs_modify. cbn [app fmap list_fmap re connector connection open_fds].
    assert (Ej : pending_jobs o2 = jobs w) by (rewrite (u_jobs _ _ _ _ _ U2); apply U1).
    apply HQ; [apply U2| |unfold cleared; by rewrite Eh| |done].
    + eapply others_trans; [exact O1|]. by apply (others_upd T (mkWorld o1 (connector w) (Some (set_wait wait c)) (open_fds w)) _ o2 _ U2).
    + unfold jobs at 1. cbn [re]. rewrite Ej. apply (Hbase _ true); [|done]. unfold cv. cbn [re]. rewrite (u_fd _ _ _ _ _ U2), decide_True by done. done.
  - apply runs_ret. assert (Ej : pending_jobs o1 = jobs w) by apply U1. apply HQ; [apply U1|exact O1|unfold cleared; by rewrite Eh| |done].
    unfold jobs at 1. cbn [re]. rewrite Ej. by apply (Hbase _ false).
Qed.

Lemma cleared_same c ev : send_state (cleared c ev) = send_state c ∧ recv_state (cleared c ev) = recv_state c ∧ send_data (cleared c ev) = send_data c ∧
  recv_avail (cleared c ev) = recv_avail c ∧ conn_fd (cleared c ev) = conn_fd c ∧ close_fd (cleared c ev) = close_fd c.
Proof. unfold cleared. by destruct (has ev BREACTOR_HUP). Qed.
Lemma cleared_wait c ev x : x = BREACTOR_READ ∨ x = BREACTOR_WRITE → has (wait_events (cleared c ev)) x = has (wait_events c) x && negb (has ev x).
Proof. intros Hx. rewrite <-has_ldiff by done. unfold cleared. by destruct (has ev BREACTOR_HUP). Qed.
Lemma cleared_hupd c ev : is_hupd c = false → is_hupd (cleared c ev) = has ev BREACTOR_HUP.
Proof. intros Hh. unfold cleared. by destruct (has ev BREACTOR_HUP); cbn. Qed.

(** An operation that is not continued now is still awaited. *)
Abbreviation bad ev := (has ev (Z.lor BREACTOR_ERROR BREACTOR_HUP)).
Lemma no_hup ev : bad ev = false → has ev BREACTOR_HUP = false.
Proof. intros Hb. destruct (has ev BREACTOR_HUP) eqn:E; [|done]. apply has_hup in E. congruence. Qed.

Lemma cleared_send c ev : is_hupd c = false → drive_send c [] →
  has ev BREACTOR_WRITE || bad ev && bool_decide (send_state c = SEND_STATE_BUSY) = false → drive_send (cleared c ev) [].
Proof.
  intros Hh Ds [Hf1 Hf2]%orb_false_iff Hno Hbu. rewrite (proj1 (cleared_same c ev)) in Hbu. rewrite bool_decide_true, andb_true_r in Hf2 by done.
  destruct (Ds Hno Hbu) as [_ Hx]. rewrite cleared_wait, Hx, Hf1, cleared_hupd by auto. split; [by apply no_hup|done].
Qed.
Lemma cleared_recv c ev : is_hupd c = false → drive_recv c [] →
  has ev BREACTOR_READ || bad ev && bool_decide (recv_state c = RECV_STATE_BUSY) = false → drive_recv (cleared c ev) [].
Proof.
  intros Hh Dr [Hf1 Hf2]%orb_false_iff Hno Hbu. destruct (cleared_same c ev) as (_ & Er & _). rewrite Er in Hbu. rewrite bool_decide_true, andb_true_r in Hf2 by done.
  destruct (Dr Hno Hbu) as [?%not_elem_of_nil|[_ Hx]]; [done|]. right. rewrite cleared_wait, Hx, Hf1, cleared_hupd by auto. split; [by apply no_hup|done].
Qed.

Lemma cleared_not c ev x : is_hupd c = false → x = BREACTOR_READ ∨ x = BREACTOR_WRITE → has ev x = true ∨ has ev BREACTOR_HUP = true →
  is_hupd (cleared c ev) = false → has (wait_events (cleared c ev)) x = false.
Proof. intros Hh Hx Hev. rewrite cleared_hupd, cleared_wait by done. destruct Hev as [-> | ->]; [by rewrite andb_false_r|done]. Qed.

Lemma runs_when_ASSERT (b x : bool) w (Q : unit → world → list out → Prop) : (b = true → x = true) → Q tt w [] → runs (when b (ASSERT x)) w Q.
Proof. intros Hx HQ. unfold when. destruct b; [by apply runs_ASSERT; [apply Hx|]|by apply runs_ret]. Qed.

(** Both are continued: receiving by its job. *)
Lemma both_runs T w c wr : r_ok T (re w) → connection w = Some c → limits_there w → c_base (fresh t) c (cv w) (jobs w) → jobs w = [] →
  send_state c = SEND_STATE_BUSY → recv_state c = RECV_STATE_BUSY → wres_ok c wr → (system t).1 = wr →
  (fresh t → may_send t → is_hupd c = false → has (wait_events c) BREACTOR_WRITE = false) →
  runs (on_re (BPending_Set recv_job);; connection_send wr) w (λ _ w' l, good T w c (abs c) l w').
Proof.
  intros Hr Hc Hl Hb Hj Hs Hv Hw Hy Hh. pose proof jobs_distinct as (D1 & _ & _ & D4 & D5 & _). apply runs_bind, runs_re, runs_modify. cbn [app fmap list_fmap].
  set (w2 := mkWorld _ _ _ _). assert (Hj2 : jobs w2 = [recv_job]) by (unfold jobs, w2; cbn; unfold jobs in Hj; by rewrite Hj).
  assert (Ho2 : others w w2).
  { split; [done|done|done| |done]. rewrite Hj, Hj2, list_elem_of_singleton. split; [by intros E; destruct D5|by intros ?%not_elem_of_nil]. }
  eapply runs_mono; [eapply (send_runs T w2 c); rewrite ?Hj2|].
  - apply r_jobs_change; [done|]. cbn. unfold jobs in Hj. rewrite Hj. apply NoDup_singleton.
  - done.
  - by apply (ot_limits _ _ Ho2).
  - destruct Hb as [B1 B2 B3 B4 B5 B6 B7]. split; [exact B1|done|done|done|done|by intros E%list_elem_of_singleton|].
    cbn. case_decide; [done|]. case_decide; [apply not_elem_of_nil|done].
  - intros _ _. left. by apply list_elem_of_singleton.
  - by intros E%list_elem_of_singleton.
  - done.
  - done.
  - done.
  - done.
  - intros [] w' l G. by eapply good_trans.
Qed.

Lemma fd_handler_runs T w c ev wr rr : r_ok T (re w) → connection w = Some c → limits_there w → c_ok (fresh t) c (cv w) (jobs w) → jobs w = [] → is_hupd c = false →
  expected c ev → wres_ok c wr → rres_ok c rr → system t = (wr, rr) →
  (may_send t → has ev BREACTOR_WRITE = true ∨ has ev BREACTOR_HUP = true) → (may_recv t → has ev BREACTOR_READ = true ∨ has ev BREACTOR_HUP = true) →
  runs (connection_fd_handler ev wr rr) w (λ _ w' l, good T w c (abs c) l w').
Proof.
  intros Hr Hc Hl (Hb & Ds & Dr) Hj Hh [Rr Rw] Hw Hrr Hy Hms Hmr. unfold connection_fd_handler. apply runs_bind, runs_no_error; [rewrite Hj; apply not_elem_of_nil|].
  apply runs_bind. eapply runs_load_connection; [done|]. rewrite Hh. apply runs_bind, runs_ASSERT; [done|]. apply (clear_runs T); [done|done|done|done|].
  intros w1 Hr2 Ho Hc1 Hb1 Hj1. rewrite Hj in *. apply ot_limits in Ho as Hl1. apply Hl1 in Hl. clear Hl1.
  destruct (cleared_same c ev) as (Es & Er & Ed & Ea & Ef & Ec). 
  assert (Hhw : fresh t → may_send t → is_hupd (cleared c ev) = false → has (wait_events (cleared c ev)) BREACTOR_WRITE = false) by (intros _ Hm; apply cleared_not; auto).
  assert (Hhr : fresh t → may_recv t → is_hupd (cleared c ev) = false → has (wait_events (cleared c ev)) BREACTOR_READ = false) by (intros _ Hm; apply cleared_not; auto).
  pose proof (cleared_send c ev Hh Ds) as Ds1. pose proof (cleared_recv c ev Hh Dr) as Dr1. pose proof (cleared_hupd c ev Hh) as Ehup.
  set (c1 := cleared c ev) in *. assert (Hws : wres_ok c1 wr) by (unfold wres_ok; by rewrite Ed). assert (Hrs : rres_ok c1 rr) by (unfold rres_ok; by rewrite Ea).
  assert (Habs : abs c1 = abs c) by (unfold abs, abs_send, abs_recv; by rewrite Es, Er, Ed, Ea).
  assert (Hgood : ∀ w' l, good T w1 c1 (abs c1) l w' → good T w c (abs c) l w') by (intros w' l G; rewrite Habs in G; by eapply good_trans).
  cbn [send_state recv_state set_wait]. set (have_send := has ev BREACTOR_WRITE || _) in *. set (have_recv := has ev BREACTOR_READ || _) in *.
  assert (Hs : have_send = true → send_state c = SEND_STATE_BUSY).
  { intros [Hs|Hs]%orb_true_iff; [by apply Rw|]. apply andb_true_iff in Hs as [_ Hs]. by apply bool_decide_eq_true in Hs. }
  assert (Hv : have_recv = true → recv_state c = RECV_STATE_BUSY).
  { intros [Hv|Hv]%orb_true_iff; [by apply Rr|]. apply andb_true_iff in Hv as [_ Hv]. by apply bool_decide_eq_true in Hv. }
  apply runs_bind, runs_when_ASSERT; [intros E; by apply bool_decide_eq_true, Hs|]. apply runs_bind, runs_when_ASSERT; [intros E; by apply bool_decide_eq_true, Hv|].
  cbn [app]. destruct have_send eqn:Ehs; [destruct have_recv eqn:Ehr|destruct have_recv eqn:Ehr]; cbn [when].
  - eapply runs_mono; [eapply (both_runs T w1 c1); try done; [rewrite Es; by apply Hs|rewrite Er; by apply Hv|by rewrite Hy]|]. intros []. apply Hgood.
  - apply runs_bind, runs_ret. cbn [app].
    eapply runs_mono; [eapply (send_runs T w1 c1); try done; rewrite ?Hj1; [by apply Dr1|apply not_elem_of_nil|rewrite Es; by apply Hs|by rewrite Hy]|]. intros []. apply Hgood.
  - eapply runs_mono; [eapply (recv_runs T w1 c1); try done; rewrite ?Hj1; [by apply Ds1|apply not_elem_of_nil|apply not_elem_of_nil|rewrite Er; by apply Hv|by rewrite Hy]|].
    intros []. apply Hgood.
  - destruct (has ev BREACTOR_HUP) eqn:Eh; cbn [negb].
    + apply runs_ret. apply Hgood. split; [done|]. split; [apply others_refl|]. exists c1. split_and!; [done|done|done|done|]. split; [by eapply c_base_weak; [|intros [? _]]|]. rewrite Hj1. split; [by apply Ds1|by apply Dr1].
    + eapply runs_mono; [eapply (report_error_runs T w1 c1); try done; rewrite ?Hj1; apply not_elem_of_nil|].
      intros []. apply Hgood.
Qed.

(** A job that was first in the list runs. *)
Lemma c_pop F c v j l : c_ok F c v (j :: l) → j ≠ d_err_job → c_base F c v l ∧ drive_send c l ∧ (j ≠ recv_job → drive_recv c l).
Proof.
  intros ([B1 B2 B3 B4 B5 B6 B7] & Ds & Dr) Hj. assert (Hn : d_err_job ∉ l → d_err_job ∉ j :: l) by (intros ? [?|?]%elem_of_cons; congruence).
  apply not_elem_of_cons in B6 as [_ B6]. split_and!.
  - split; [done|done|done|done|intros ?; apply B5; by right|done|by eapply err_first_tail].
  - intros ? Hb. apply Ds; auto.
  - intros Hr Hno Hb. destruct (Dr (Hn Hno) Hb) as [[?|?]%elem_of_cons|?]; [congruence|by left|by right].
Qed.

Lemma recv_job_runs T w c r : r_ok T (re w) → connection w = Some c → limits_there w → c_ok (fresh t) c (cv w) (recv_job :: jobs w) → recv_job ∉ jobs w →
  rres_ok c r → (system t).2 = r → (fresh t → may_recv t → is_hupd c = false → has (wait_events c) BREACTOR_READ = false) →
  runs (connection_recv_job_handler r) w (λ _ w' l, good T w c (abs c) l w').
Proof.
  intros Hr Hc Hl Hok Hnj Hrr Hy Hh. pose proof jobs_distinct as (_ & _ & _ & D4 & _). destruct (c_pop _ _ _ _ _ Hok D4) as (Hb & Ds & _).
  assert (Hbusy : recv_state c = RECV_STATE_BUSY) by (apply (c_job _ _ _ _ (proj1 Hok)); by left).
  assert (Hne : d_err_job ∉ jobs w) by (pose proof (c_err _ _ _ _ (proj1 Hok)) as He; cbn in He; rewrite decide_False, decide_True in He by done; done).
  apply runs_bind, runs_no_error; [done|]. apply runs_bind. eapply runs_load_connection; [done|]. apply runs_bind, runs_ASSERT; [by apply bool_decide_eq_true|].
  by apply (recv_runs T w c).
Qed.

(** ** Operations of the user *)
Lemma send_if_runs T w c data r : r_ok T (re w) → connection w = Some c → limits_there w → c_ok (fresh t) c (cv w) (jobs w) → d_err_job ∉ jobs w →
  send_state c = SEND_STATE_READY → data ≠ [] → wres_ok (set_send data SEND_STATE_BUSY c) r → (system t).1 = r →
  runs (connection_send_if_handler_send data r) w (λ _ w' l, good T w c (SData data, abs_recv c) l w').
Proof.
  intros Hr Hc Hl ([B1 B2 B3 B4 B5 B6 B7] & Ds & Dr) Hn Hs Hd Hw Hy. apply runs_bind, runs_no_error; [done|]. apply runs_bind. eapply runs_load_connection; [done|].
  apply runs_bind, runs_ASSERT; [by apply bool_decide_eq_true|]. apply runs_bind, runs_ASSERT.
  { rewrite Z.gtb_ltb. apply Z.ltb_lt. pose proof (zlen_nonneg data). assert (zlen data ≠ 0) by by intros ?%zlen_zero_inv. lia. }
  apply runs_bind, runs_modify. cbn [app]. eapply runs_mono; [eapply (send_runs T (mkWorld _ _ _ _) (set_send data SEND_STATE_BUSY c)); try done|].
  - intros Hf _ Hh. cbn in *. destruct (has (wait_events c) BREACTOR_WRITE) eqn:E; [|done]. specialize (B4 Hf Hh eq_refl). congruence.
  - intros [] w' l G. eapply (good_trans T w _ c); [|reflexivity|reflexivity|exact G]. by split.
Qed.

Lemma recv_if_runs T w c avail r : r_ok T (re w) → connection w = Some c → limits_there w → c_ok (fresh t) c (cv w) (jobs w) → d_err_job ∉ jobs w →
  recv_state c = RECV_STATE_READY → 0 < avail → rres_ok (set_recv avail RECV_STATE_BUSY c) r → (system t).2 = r →
  runs (connection_recv_if_handler_recv avail r) w (λ _ w' l, good T w c (abs_send c, Some avail) l w').
Proof.
  intros Hr Hc Hl ([B1 B2 B3 B4 B5 B6 B7] & Ds & Dr) Hn Hs Hd Hw Hy. apply runs_bind, runs_no_error; [done|]. apply runs_bind. eapply runs_load_connection; [done|].
  apply runs_bind, runs_ASSERT; [by apply bool_decide_eq_true|]. apply runs_bind, runs_ASSERT; [rewrite Z.gtb_ltb; by apply Z.ltb_lt|].
  apply runs_bind, runs_modify. cbn [app]. eapply runs_mono; [eapply (recv_runs T (mkWorld _ _ _ _) (set_recv avail RECV_STATE_BUSY c)); try done|].
  - intros Hj%B5. congruence.
  - intros Hf _ Hh. cbn in *. destruct (has (wait_events c) BREACTOR_READ) eqn:E; [|done]. specialize (B3 Hf Hh eq_refl). congruence.
  - intros [] w' l G. eapply (good_trans T w _ c); [|reflexivity|reflexivity|exact G]. by split.
Qed.

Lemma send_init_runs T w c : r_ok T (re w) → connection w = Some c → c_ok (fresh t) c (cv w) (jobs w) → d_err_job ∉ jobs w → send_state c = SEND_STATE_NOT_INITED →
  runs BConnection_SendAsync_Init w (λ _ w' l, good T w c (abs c) l w').
Proof.
  intros Hr Hc ([B1 B2 B3 B4 B5 B6 B7] & Ds & Dr) Hn Hs. apply runs_bind, runs_no_error; [done|]. apply runs_bind. eapply runs_load_connection; [done|].
  apply runs_bind, runs_ASSERT; [by apply bool_decide_eq_true|]. apply runs_modify. split; [done|]. split; [by split|]. eexists.
  split_and!; [reflexivity|done|done|unfold abs, abs_send, abs_recv; cbn; by rewrite Hs|]. split; [|by split]. split; cbn; try done; intros [Hf _] Hh Hx; [by apply B3|]. specialize (B4 Hf Hh Hx). congruence.
Qed.
Lemma recv_init_runs T w c : r_ok T (re w) → connection w = Some c → c_ok (fresh t) c (cv w) (jobs w) → d_err_job ∉ jobs w → recv_state c = RECV_STATE_NOT_INITED →
  runs BConnection_RecvAsync_Init w (λ _ w' l, good T w c (abs c) l w').
Proof.
  intros Hr Hc ([B1 B2 B3 B4 B5 B6 B7] & Ds & Dr) Hn Hs. apply runs_bind, runs_no_error; [done|]. apply runs_bind. eapply runs_load_connection; [done|].
  apply runs_bind, runs_ASSERT; [by apply bool_decide_eq_true|]. apply runs_modify. split; [done|]. split; [by split|]. eexists.
  split_and!; [reflexivity|done|done|unfold abs, abs_send, abs_recv; cbn; by rewrite Hs|]. split; [|by split]. split; cbn; try done.
  - intros [Hf _] Hh Hx. specialize (B3 Hf Hh Hx). congruence.
  - intros [Hf _] Hh Hx. by apply B4.
  - intros Hx%B5. congruence.
Qed.

(** An event is no longer awaited. *)
Definition unawaited c e : BConnection := if is_hupd c then c else set_wait (Z.ldiff (wait_events c) e) c.

Lemma unawait_runs T w c e : r_ok T (re w) → connection w = Some c → c_base (fresh t) c (cv w) (jobs w) →
  runs (unawait c e) w (λ c' w' l, l = [] ∧ c' = unawaited c e ∧ r_ok T (re w') ∧ others w w' ∧ connection w' = Some c' ∧
    c_base (fresh t) c' (cv w') (jobs w') ∧ jobs w' = jobs w).
Proof.
  intros Hr Hc Hb. unfold unawait, unawaited. destruct (is_hupd c) eqn:Hh; [apply runs_ret; split_and!; try done; apply others_refl|].
  pose proof Hb as [B1 B2 B3 B4 B5 B6 B7]. rewrite Hh in B1. apply runs_bind, runs_modify, runs_bind, runs_re. cbn [re connector connection open_fds].
  eapply runs_mono; [eapply set_events_upd; [done|exact B1|by apply rw_ldiff]|]. intros [] o1 l1 [-> U1]. apply runs_ret. cbn [app fmap list_fmap].
  assert (Ej : pending_jobs o1 = jobs w) by apply U1. split_and!; [done|done|apply U1|by eapply others_upd|done| |done].
  unfold jobs at 1. cbn [re]. rewrite Ej. split; cbn; rewrite ?Hh; try done.
  - unfold cv. cbn. by rewrite (u_fd _ _ _ _ _ U1), decide_True.
  - by apply rw_ldiff.
  - intros Hf _. rewrite has_ldiff by auto. intros [? _]%andb_true_iff. by apply B3.
  - intros Hf _. rewrite has_ldiff by auto. intros [? _]%andb_true_iff. by apply B4.
Qed.

Lemma unawaited_has c e x : is_hupd c = false → e = BREACTOR_READ ∨ e = BREACTOR_WRITE → x = BREACTOR_READ ∨ x = BREACTOR_WRITE →
  has (wait_events (unawaited c e)) x = has (wait_events c) x && negb (bool_decide (x = e)).
Proof. intros Hh He Hx. unfold unawaited. rewrite Hh. cbn. rewrite has_ldiff by done. by destruct He as [-> | ->], Hx as [-> | ->]. Qed.

Lemma unawaited_same c e : is_hupd (unawaited c e) = is_hupd c ∧ send_state (unawaited c e) = send_state c ∧ recv_state (unawaited c e) = recv_state c ∧
  conn_fd (unawaited c e) = conn_fd c ∧ close_fd (unawaited c e) = close_fd c ∧ send_data (unawaited c e) = send_data c ∧ recv_avail (unawaited c e) = recv_avail c.
Proof. unfold unawaited. by destruct (is_hupd c) eqn:E; cbn; rewrite ?E. Qed.

Lemma send_free_runs T w c : r_ok T (re w) → connection w = Some c → c_ok (fresh t) c (cv w) (jobs w) → send_state c ≠ SEND_STATE_NOT_INITED →
  runs BConnection_SendAsync_Free w (λ _ w' l, good T w c (SIdle, abs_recv c) l w').
Proof.
  intros Hr Hc (Hb & Ds & Dr) Hs. apply runs_bind. eapply runs_load_connection; [done|]. apply runs_bind, runs_ASSERT.
  { by destruct (send_state c). }
  apply runs_bind. eapply runs_mono; [by apply (unawait_runs T)|]. intros c1 w1 l1 (-> & -> & Hr1 & Ho & Hc1 & [B1 B2 B3 B4 B5 B6 B7] & Ej).
  destruct (unawaited_same c BREACTOR_WRITE) as (Eh & Es & Er & Ef & Ec & Ed & Ea). set (c1 := unawaited c BREACTOR_WRITE) in *.
  apply runs_bind, runs_re, runs_modify, runs_modify. eapply (good_trans T w w1 c c1); [done|done|done|].
  assert (E : JobQueue.unset send_job (pending_jobs (re w1)) = jobs w1) by by apply JobQueue.remove_id.
  split; [|split]; cbn; [apply r_jobs_change; [done|rewrite E; apply Hr1]|split; cbn; [done|done|done|unfold jobs at 1; cbn; by rewrite E|done]|].
  eexists. split_and!; [reflexivity|done|done|unfold abs, abs_send, abs_recv; cbn; by rewrite ?Es, ?Er, ?Ed, ?Ea|]. unfold jobs. cbn. rewrite E. split; [split; cbn; try done|split; [by intros _ ?|]].
  - intros [Hf _] Hh Hx. by apply B3.
  - intros _ Hh. rewrite Eh in Hh. unfold c1. rewrite (unawaited_has c) by auto. rewrite bool_decide_true by done. by rewrite andb_false_r.
  - rewrite Ej. intros Hn Hx. cbn in Hx. rewrite Er in Hx. destruct (Dr Hn Hx) as [?|[Hh Hy]]; [by left|right]. split; cbn; [by rewrite Eh|].
    unfold c1. rewrite (unawaited_has c) by auto. by rewrite Hy.
Qed.

Lemma recv_free_runs T w c : r_ok T (re w) → connection w = Some c → c_ok (fresh t) c (cv w) (jobs w) →
  recv_state c ≠ RECV_STATE_NOT_INITED → recv_state c ≠ RECV_STATE_NOT_INITED_CLOSED →
  runs BConnection_RecvAsync_Free w (λ _ w' l, good T w c (abs_send c, None) l w').
Proof.
  intros Hr Hc (Hb & Ds & Dr) Hs Hs'. apply runs_bind. eapply runs_load_connection; [done|]. apply runs_bind, runs_ASSERT.
  { by destruct (recv_state c). }
  apply runs_bind. eapply runs_mono; [by apply (unawait_runs T)|]. intros c1 w1 l1 (-> & -> & Hr1 & Ho & Hc1 & [B1 B2 B3 B4 B5 B6 B7] & Ej).
  destruct (unawaited_same c BREACTOR_READ) as (Eh & Es & Er & Ef & Ec & Ed & Ea). set (c1 := unawaited c BREACTOR_READ) in *.
  pose proof jobs_distinct as (D1 & _ & _ & D4 & D5 & _).
  apply runs_bind, runs_re, runs_modify, runs_modify. eapply (good_trans T w w1 c c1); [done|done|done|].
  split; [|split]; cbn; [apply r_jobs_change; [done|apply JobQueue.NoDup_remove, Hr1]|split; cbn; [done|done|done| |done]|].
  { unfold jobs. cbn. by apply remove_ne. }
  eexists. split_and!; [reflexivity|done|done|unfold abs, abs_send, abs_recv; cbn; by rewrite ?Es, ?Er, ?Ed, ?Ea|]. unfold jobs. cbn. split; [split; cbn; try done|split; [|by intros _ ?]].
  - intros _ Hh. rewrite Eh in Hh. unfold c1. rewrite (unawaited_has c) by auto. rewrite bool_decide_true by done. by rewrite andb_false_r.
  - intros [Hf _] Hh Hx. by apply B4.
  - by intros ?%remove_not.
  - by intros [_ ?]%JobQueue.elem_of_remove.
  - by apply err_first_remove.
  - intros Hn Hx. cbn in Hx. rewrite Es in Hx. destruct (Ds) as [Hh Hy]; [|done|split; cbn; [by rewrite Eh|]].
    + rewrite <-Ej. intros Hin. apply Hn, JobQueue.elem_of_remove. by split.
    + unfold c1. rewrite (unawaited_has c) by auto. by rewrite Hy.
Qed.
End Connections.
End ConnectionOk.
