(* ===== verification/ConnectionRun.v ===== *)
(** * Runs of connections in the event loop

    A connector and a connection, with other objects of the event loop around
    them: rounds of the loop that end with the call of their handlers, calls of
    their user, and operations on the other objects, in any order. *)

From S2P Require Import Prelude BPending Net Reactor ReactorOk ReactorLoop ReactorRun Connection ConnectionOk.
Import BTime Reactor ReactorOk ReactorLoop ReactorRun Connection ConnectionOk.

Module ConnectionRun.
Implicit Types (o : BReactor) (w : world) (p q : ptr) (T : Z) (c : BConnection) (k : BConnector).

(** ** Operations on other objects *)
Definition fd_of (x : op) : option ptr :=
  match x with FdInit p _ | FdFree p | AddFd p _ | RemoveFd p | SetEvents p _ => Some p | _ => None end.
Definition limit_of (x : op) : option ptr :=
  match x with LimitInit p _ | LimitFree p | Increment p | SetLimit p _ => Some p | _ => None end.
Definition job_of (x : op) : option ptr := match x with JobSet p | JobUnset p => Some p | _ => None end.

(** An operation of the event loop changes only the object it is for. *)
Definition only x o o' : Prop :=
  (∀ q, fd_of x ≠ Some q → fdv o' q = fdv o q) ∧ (∀ q, limit_of x ≠ Some q → has_limit o' q ↔ has_limit o q) ∧
  (pending_jobs o' = match x with JobSet p => JobQueue.set p (pending_jobs o) | JobUnset p => JobQueue.unset p (pending_jobs o) | _ => pending_jobs o end).

Lemma upd_only T o x p v o' : upd T o p v o' → fd_of x = Some p → (job_of x = None) → only x o o'.
Proof.
  intros [_ U2 U3 U4] Hx Hj. split_and!.
  - intros q Hq. rewrite U2. case_decide; [congruence|done].
  - intros q _. unfold has_limit. by rewrite U4.
  - rewrite U3. by destruct x.
Qed.
Lemma upl_only T o x (P : ptr → Prop) o' : upl T o P o' → (∀ q, limit_of x ≠ Some q → P q ↔ has_limit o q) → job_of x = None → only x o o'.
Proof. intros [_ U2 U3 U4] Hx Hj. split_and!; [done|intros q Hq; rewrite U4; by apply Hx|rewrite U3; by destruct x]. Qed.

Lemma timer_only x o s : job_of x = None → only x o (set_tm s o).
Proof. intros Hj. split_and!; [done|done|by destruct x]. Qed.

(** A computation keeps what it is known to lead to. *)
Lemma runs_both {S E A} (m : M S E A) s Q Q' : runs m s Q → runs m s Q' → runs m s (λ a s' l, Q a s' l ∧ Q' a s' l).
Proof. unfold runs. destruct (m s) as [[[a s'] l]|]; auto. Qed.

Lemma runs_any {S E A} (m : M S E A) s Q : runs m s Q → runs m s (λ _ _ _, True).
Proof. intros Hr. by eapply runs_mono. Qed.

Lemma on_tm_only {A} x (m : TM A) o : job_of x = None → runs (on_tm m) o (λ _ _ _, True) → runs (on_tm m) o (λ _ o' _, only x o o').
Proof. intros Hj. unfold runs, on_tm. destruct (m (tm o)) as [[[a s] l]|]; [|done]. intros _. by apply timer_only. Qed.

Lemma perform_only T x o : r_ok T o → allowed o x → runs (perform T x) o (λ _ o' _, r_ok T o' ∧ only x o o').
Proof.
  intros H Ha. eapply runs_mono; [apply (runs_both _ _ _ (λ _ o' _, only x o o') (perform_runs T x o H Ha))|by intros [] o' l [[? _] ?]].
  pose proof (runs_any _ _ _ (perform_runs T x o H Ha)) as Hany. destruct x; cbn [perform allowed] in *; try (by apply on_tm_only).
  - apply runs_modify. by apply timer_only.
  - assert (Hi : inactive (fdv o p)) by (intros m e (f & Hf & _ & Hx & _)%fdv_some; specialize (Ha f Hf); congruence).
    eapply runs_mono; [by apply (fd_init_upd T)|]. intros [] o' l [_ U]. by eapply upd_only.
  - apply runs_modify. split_and!; [|done|done]. intros q Hq. unfold fdv. cbn. rewrite lookup_delete_ne; [done|]. intros ->. by apply Hq.
  - destruct Ha as (f & Hf & Hfa). assert (Hv : fdv o p = Some (fd f, false, waitEvents f)) by (unfold fdv, view; rewrite Hf; cbn; by rewrite Hfa).
    apply runs_bind. eapply runs_mono; [by eapply (add_fd_upd T)|]. intros b o' l U. apply runs_ret. destruct b; [by eapply upd_only|by subst].
  - destruct Ha as (f & Hf & Hfa). assert (Hv : fdv o p = Some (fd f, true, waitEvents f)) by (unfold fdv, view; rewrite Hf; cbn; by rewrite Hfa).
    eapply runs_mono; [by eapply (remove_fd_upd T)|]. intros [] o' l [_ U]. by eapply upd_only.
  - destruct Ha as [(f & Hf & Hfa) Hev]. assert (Hv : fdv o p = Some (fd f, true, waitEvents f)) by (unfold fdv, view; rewrite Hf; cbn; by rewrite Hfa).
    eapply runs_mono; [by eapply (set_events_upd T)|]. intros [] o' l [_ U]. by eapply upd_only.
  - destruct Ha as [Hn Hpos]. eapply runs_mono; [apply (limit_init_upl T); [done|unfold has_limit; rewrite Hn; by intros [? ?]|done]|].
    intros [] o' l [_ U]. eapply upl_only; [done| |done]. cbn. intros q Hq. split; [intros [->|?]; [by destruct Hq|done]|auto].
  - eapply runs_mono; [by apply (limit_free_upl T)|]. intros [] o' l [_ U]. eapply upl_only; [done| |done]. cbn. intros q Hq. split; [by intros [? ?]|].
    intros ?. split; [|done]. by intros ->.
  - apply runs_bind. eapply runs_mono; [by apply (increment_upl T)|]. intros b o' l [_ U]. apply runs_ret. by eapply upl_only.
  - destruct Ha as [[y Hy] Hpos]. apply runs_li. unfold BReactorLimit_SetLimit. apply runs_bind, runs_ASSERT; [rewrite Z.gtb_ltb; by apply Z.ltb_lt|].
    apply runs_bind. eapply runs_load_limit; [done|]. apply runs_modify. split_and!; [done| |done]. intros q Hq. unfold has_limit. cbn.
    rewrite lookup_insert_ne; [done|]. intros ->. by apply Hq.
  - apply runs_modify. by split_and!.
  - apply runs_modify. by split_and!.
  - apply runs_modify. by split_and!.
Qed.

(** ** Rounds of the loop *)
Lemma round_frame T answers o d o1 : round_spec T answers o d o1 →
  (∀ q, fdv o1 q = fdv o q) ∧ (∀ q, has_limit o1 q ↔ has_limit o q) ∧
  pending_jobs o = match d with Job p => p :: pending_jobs o1 | _ => pending_jobs o1 end.
Proof.
  destruct d; cbn [round_spec].
  - by intros (_ & _ & ->).
  - by intros (_ & jobs & -> & ->).
  - by intros (_ & _ & l & t & _ & _ & _ & ->).
  - by intros (_ & _ & _ & _ & _ & x & -> & _ & _ & Hv).
  - by intros (_ & _ & _ & _ & x & -> & _ & _ & Hv).
  - intros (_ & _ & _ & _ & _ & o2 & y & Hw & -> & _ & Hl). split_and!.
    + by destruct Hw as [s' l _ _ _ | x' evs _ _ _ _ _ Hv].
    + intros q. unfold has_limit. cbn. destruct Hl as [(t & _ & _ & ->)|[_ Hl]]; [done|]. by rewrite Hl, fmap_is_Some.
    + by destruct Hw.
  - by intros (_ & _ & _ & _ & -> & _).
Qed.

Lemma report_awaited f e ev : reports f e ev → (has ev BREACTOR_READ = true → has (waitEvents f) BREACTOR_READ = true) ∧
  (has ev BREACTOR_WRITE = true → has (waitEvents f) BREACTOR_WRITE = true).
Proof. intros (-> & -> & _). split; by intros [? _]%andb_true_iff. Qed.

Section Runs.
Context `{Layout}.

(** ** The invariant *)
Record k_ok k (v : option (Z * bool * Z)) (jobs : list ptr) : Prop := mkKOk {
  k_fd : connector_fd k = -1 ∨ 0 <= connector_fd k;
  k_bfd : if have_bfd k then v = Some (connector_fd k, true, BREACTOR_WRITE) ∧ connected k = false ∧ 0 <= connector_fd k else inactive v;
  k_job : connector_job ∈ jobs → connected k = true ∧ have_bfd k = false ∧ 0 <= connector_fd k
}.

Definition kv w := fdv (re w) connector_bfd.

(** The descriptors that the objects must close. *)
Definition owned_connection w : gset Z := match connection w with Some c => if close_fd c then {[conn_fd c]} else ∅ | None => ∅ end.
Definition owned_connector w : gset Z := match connector w with Some k => if connector_fd k =? -1 then ∅ else {[connector_fd k]} | None => ∅ end.

Definition connection_there (F : Prop) w : Prop :=
  match connection w with
  | Some c => c_ok F c (cv w) (jobs w) ∧ limits_there w
  | None => inactive (cv w) ∧ (¬ has_limit (re w) send_limit) ∧ (¬ has_limit (re w) recv_limit) ∧ (recv_job ∉ jobs w) ∧ (send_job ∉ jobs w) ∧ (d_err_job ∉ jobs w)
  end.
Definition connector_there w : Prop :=
  match connector w with
  | Some k => k_ok k (kv w) (jobs w)
  | None => inactive (kv w) ∧ (connector_job ∉ jobs w)
  end.

(** [S0]: the descriptors that were open before; [F]: every awaited event belongs
    to an operation. *)
Record w_ok (F : Prop) (S0 : gset Z) T w : Prop := mkWOk {
  w_re : r_ok T (re w);
  w_connection : connection_there F w;
  w_connector : connector_there w;
  w_open : open_fds w = S0 ∪ owned_connection w ∪ owned_connector w;
  w_fresh1 : owned_connection w ## S0;
  w_fresh2 : owned_connector w ## S0;
  w_distinct : owned_connection w ## owned_connector w
}.

Lemma w_weak (F F' : Prop) S0 T w : w_ok F S0 T w → (F' → F) → w_ok F' S0 T w.
Proof.
  intros [W1 W2 W3 W4 W5 W6 W7] HF. split; try done. unfold connection_there in *. destruct (connection w) as [c|]; [|done].
  destruct W2 as [(Hb & Hd) Hl]. split; [|done]. split; [by eapply c_base_weak|done].
Qed.

(** What the user knows of the connection. *)
Definition abs_w w : spec := match connection w with Some c => abs c | None => (SIdle, None) end.

(** ** What keeps the invariant *)
Lemma good_change t S0 T w c a l w' : connection w = Some c → limits_there w → connector_there w → open_fds w = S0 ∪ owned_connection w ∪ owned_connector w →
  owned_connection w ## S0 → owned_connector w ## S0 → owned_connection w ## owned_connector w → good (t := t) T w c a l w' → w_ok (still t l) S0 T w' ∧ outs (system t) a l = Some (abs_w w').
Proof.
  intros Hc W2 W3 W4 W5 W6 W7 (G1 & [O1 O2 O3 O4 O5] & c' & G3 & G4 & G5 & Ga & G6).
  split; [|unfold abs_w; by rewrite G3].
  assert (E1 : owned_connection w' = owned_connection w) by (unfold owned_connection; rewrite G3, Hc; by rewrite G4, G5).
  assert (E2 : owned_connector w' = owned_connector w) by (unfold owned_connector; by rewrite O1).
  split; rewrite ?E1, ?E2, ?O2; try done.
  - unfold connection_there. rewrite G3. split; [done|]. by apply O5.
  - unfold connector_there in *. rewrite O1. unfold kv in *. destruct (connector w) as [k|].
    + rewrite O3. destruct W3 as [K1 K2 K3]. split; [done|done|]. rewrite O4. done.
    + rewrite O3, O4. done.
Qed.

Lemma good_ok t F S0 T w c a l w' : w_ok F S0 T w → connection w = Some c → good (t := t) T w c a l w' → w_ok (still t l) S0 T w' ∧ outs (system t) a l = Some (abs_w w').
Proof.
  intros [W1 W2 W3 W4 W5 W6 W7] Hc. unfold connection_there in W2. rewrite Hc in W2. destruct W2 as [_ Hl]. by apply good_change.
Qed.

(** The event loop changes, but not what the objects know of it. *)
Record same w o1 : Prop := mkSame {
  s_fd : fdv o1 bfd = cv w;
  s_kfd : fdv o1 connector_bfd = kv w;
  s_lim q : q = send_limit ∨ q = recv_limit → has_limit o1 q ↔ has_limit (re w) q;
  s_jobs j : j ∈ [send_job; recv_job; d_err_job; connector_job] → j ∈ pending_jobs o1 ↔ j ∈ jobs w;
  s_err : err_first (jobs w) → err_first (pending_jobs o1)
}.
Definition with_re o1 w : world := mkWorld o1 (connector w) (connection w) (open_fds w).

Lemma c_ok_jobs F c v l l' : c_ok F c v l → (∀ j, j ∈ [send_job; recv_job; d_err_job] → j ∈ l' ↔ j ∈ l) → (err_first l → err_first l') → c_ok F c v l'.
Proof.
  intros ([B1 B2 B3 B4 B5 B6 B7] & Ds & Dr) Hj He. pose proof (Hj send_job ltac:(set_solver)) as J1. pose proof (Hj recv_job ltac:(set_solver)) as J2.
  pose proof (Hj d_err_job ltac:(set_solver)) as J3. split; [split; try done|split].
  - by rewrite J2.
  - by rewrite J1.
  - by apply He.
  - intros Hn. apply Ds. by rewrite <-J3.
  - intros Hn Hb. rewrite J2. apply Dr; [by rewrite <-J3|done].
Qed.

Lemma same_ok F S0 T T' w o1 : w_ok F S0 T w → r_ok T' o1 → same w o1 → w_ok F S0 T' (with_re o1 w).
Proof.
  intros [W1 W2 W3 W4 W5 W6 W7] Hr [A1 A2 A3 A4 A5]. split; [done| | |done|done|done|done].
  - unfold connection_there in *. cbn. destruct (connection w) as [c|]; unfold cv, jobs, limits_there in *; cbn; rewrite A1.
    + destruct W2 as [W2 W2']. split; [eapply c_ok_jobs; [done|intros; apply A4; set_solver|done]|]. rewrite !A3 by auto. done.
    + rewrite !A3 by auto. rewrite !A4 by set_solver. done.
  - unfold connector_there in *. cbn. destruct (connector w) as [k|]; unfold kv, jobs in *; cbn; rewrite A2.
    + destruct W3 as [K1 K2 K3]. split; [done|done|]. rewrite A4 by set_solver. done.
    + rewrite A4 by set_solver. done.
Qed.

(** Operations of others. *)
Definition foreign (x : op) : Prop :=
  fd_of x ≠ Some bfd ∧ fd_of x ≠ Some connector_bfd ∧ limit_of x ≠ Some send_limit ∧ limit_of x ≠ Some recv_limit ∧
  ∀ j, j ∈ [send_job; recv_job; d_err_job; connector_job] → job_of x ≠ Some j.

Lemma foreign_same x w o1 : only x (re w) o1 → foreign x → same w o1.
Proof.
  intros (A1 & A2 & A3) (F1 & F2 & F3 & F4 & F5). split; [by apply A1|by apply A1| | |].
  - intros q [-> | ->]; by apply A2.
  - intros j Hj. rewrite A3. unfold jobs. pose proof (F5 j Hj) as Hne. destruct x; try done; cbn in Hne.
    + unfold JobQueue.set. rewrite elem_of_cons, remove_ne by congruence. naive_solver.
    + apply remove_ne. congruence.
  - intros He. rewrite A3. unfold jobs in He. pose proof (F5 recv_job ltac:(set_solver)) as N1. pose proof (F5 d_err_job ltac:(set_solver)) as N2.
    destruct x; try done; cbn in N1, N2.
    + cbn. rewrite !decide_False by congruence. apply err_first_remove; [congruence|done].
    + apply err_first_remove; [congruence|done].
Qed.

(** The connector changes; the connection only if it is given another one. *)
Lemma connector_change F S0 T w o1 (k' : option BConnector) (opn : gset Z) : w_ok F S0 T w → r_ok T o1 → fdv o1 bfd = cv w → li o1 = li (re w) →
  (∀ j, j ∈ [send_job; recv_job; d_err_job] → j ∈ pending_jobs o1 ↔ j ∈ jobs w) → (err_first (jobs w) → err_first (pending_jobs o1)) →
  let w' := mkWorld o1 k' (connection w) opn in
  connector_there w' → opn = S0 ∪ owned_connection w ∪ owned_connector w' → owned_connector w' ## S0 → owned_connection w ## owned_connector w' → w_ok F S0 T w'.
Proof.
  intros [W1 W2 W3 W4 W5 W6 W7] Hr Hv Hl Hj He w' Hk Ho F1 F2. split; [done| |done|done|done|done|done]. unfold connection_there in *. cbn.
  assert (Hlim : ∀ q, has_limit o1 q ↔ has_limit (re w) q) by (intros q; unfold has_limit; by rewrite Hl).
  destruct (connection w) as [c|]; unfold cv, jobs, limits_there in *; cbn; rewrite Hv, !Hlim.
  - destruct W2 as [W2 W2']. split; [|done]. by eapply c_ok_jobs.
  - rewrite !Hj by set_solver. done.
Qed.

Lemma set_jobs_same o : set_jobs (pending_jobs o) o = o.
Proof. by destruct o. Qed.

Lemma unset_runs p w (Q : unit → world → list out → Prop) : p ∉ jobs w → Q tt w [] → runs (on_re (BPending_Unset p)) w Q.
Proof.
  intros Hp HQ. apply runs_re, runs_modify. unfold JobQueue.unset. rewrite (JobQueue.remove_id p) by done. rewrite set_jobs_same. by destruct w.
Qed.

Lemma close_runs n w (Q : unit → world → list out → Prop) : n ∈ open_fds w → Q tt (mkWorld (re w) (connector w) (connection w) (open_fds w ∖ {[n]})) [] → runs (close n) w Q.
Proof. intros Hn HQ. apply runs_bind, runs_get, runs_bind, runs_ASSERT; [by apply bool_decide_eq_true|]. by apply runs_modify. Qed.

(** ** The connector *)
Lemma connect_ok F S0 T w a sock nonblock res ok : w_ok F S0 T w → connector w = None → (∀ n, sock = Some n → 0 <= n ∧ n ∉ open_fds w) →
  runs (BConnector_Init a sock nonblock res ok) w (λ b w' _, w_ok F S0 T w' ∧ (b = false → connector w' = None)).
Proof.
  intros W Hk Hsock. pose proof W as [W1 W2 W3 W4 W5 W6 W7]. unfold connector_there in W3. rewrite Hk in W3. destruct W3 as [Hi Hnj].
  unfold BConnector_Init. destruct (BConnection_AddressSupported a) eqn:Ea; cbn [negb]; [|by apply runs_ret].
  apply addr_sys_roundtrip in Ea as (s & -> & _). destruct sock as [n|]; [|by apply runs_bind, unset_runs; [|apply runs_ret]].
  destruct (Hsock n eq_refl) as [Hn0 Hn]. apply runs_bind, runs_modify. cbn [app].
  assert (Hfail : ∀ o1, r_ok T o1 → inactive (fdv o1 connector_bfd) → fdv o1 bfd = cv w → li o1 = li (re w) → pending_jobs o1 = jobs w →
    runs (close n;; on_re (BPending_Unset connector_job);; mret false) (mkWorld o1 (connector w) (connection w) ({[n]} ∪ open_fds w))
      (λ b w' _, w_ok F S0 T w' ∧ (b = false → connector w' = None))).
  { intros o1 Hr1 Hi1 Hv1 Hl1 Hj1. apply runs_bind, close_runs; [cbn; set_solver|]. apply runs_bind, unset_runs; [unfold jobs; cbn; by rewrite Hj1|]. apply runs_ret.
    split; [|done]. cbn. apply connector_change; try done; unfold owned_connector in *; cbn; rewrite Hk in *; [by rewrite Hj1|by rewrite Hj1| |set_solver..].
    unfold connector_there, jobs; cbn. by rewrite Hj1. }
  assert (Hminus : (n =? -1) = false) by (apply Z.eqb_neq; lia). assert (owned_connector w = ∅) as E0 by (unfold owned_connector; by rewrite Hk).
  destruct nonblock; cbn [negb]; [|by apply Hfail]. destruct res; [| |by apply Hfail].
  - apply runs_bind, runs_re, runs_modify, runs_bind, runs_modify, runs_ret. split; [|done]. cbn. pose proof jobs_distinct as (_ & _ & D3 & _ & D5 & D6).
    apply connector_change; try done; unfold owned_connector; cbn; rewrite ?Hminus; [|intros j Hj|intros He|split; cbn|set_solver..].
    + apply r_jobs_change; [done|]. apply JobQueue.NoDup_set, W1.
    + unfold JobQueue.set. rewrite elem_of_cons, remove_ne; [|set_solver]. unfold jobs. set_solver.
    + rewrite !decide_False by done. by apply err_first_remove.
    + by right.
    + done.
    + done.
  - apply runs_bind, runs_re. cbn [re connector connection open_fds]. eapply runs_mono; [by apply (fd_init_upd T)|]. intros [] o1 l1 [-> U1].
    assert (Hv1 : fdv o1 connector_bfd = Some (n, false, 0)) by (rewrite (u_fd _ _ _ _ _ U1); by rewrite decide_True).
    apply runs_bind, runs_re. cbn [re connector connection open_fds app fmap list_fmap]. eapply runs_mono; [eapply (add_fd_upd T); [apply U1|exact Hv1]|].
    intros b o2 l2 U2. destruct b; cbn [negb].
    + apply runs_bind, runs_re. cbn [re connector connection open_fds]. eapply runs_mono; [eapply (set_events_upd T _ connector_bfd n 0); [apply U2| |done]|].
      { by rewrite (u_fd _ _ _ _ _ U2), decide_True. }
      intros [] o3 l3 [-> U3]. apply runs_bind, runs_modify, runs_ret. split; [|done]. cbn.
      assert (Ej : pending_jobs o3 = jobs w) by (rewrite (u_jobs _ _ _ _ _ U3), (u_jobs _ _ _ _ _ U2), (u_jobs _ _ _ _ _ U1); done).
      apply connector_change; try done; unfold owned_connector; cbn; rewrite ?Hminus, ?Ej; [apply U3| | |done|done| |set_solver..].
      * rewrite (u_fd _ _ _ _ _ U3), (u_fd _ _ _ _ _ U2), (u_fd _ _ _ _ _ U1). rewrite !decide_False by apply layout_fds. done.
      * by rewrite (u_li _ _ _ _ _ U3), (u_li _ _ _ _ _ U2), (u_li _ _ _ _ _ U1).
      * split; cbn; [by right| |unfold jobs; cbn; by rewrite Ej]. unfold kv. cbn. by rewrite (u_fd _ _ _ _ _ U3), decide_True.
    + subst o2. apply Hfail; [apply U1|by rewrite Hv1| |apply U1|apply U1]. rewrite (u_fd _ _ _ _ _ U1), decide_False by apply layout_fds. done.
Qed.

Lemma connector_free_ok F S0 T w k : w_ok F S0 T w → connector w = Some k → runs BConnector_Free w (λ _ w' _, w_ok F S0 T w' ∧ connector w' = None).
Proof.
  intros W Hk. pose proof W as [W1 W2 W3 W4 W5 W6 W7]. unfold connector_there in W3. rewrite Hk in W3. destruct W3 as [K1 K2 K3].
  pose proof jobs_distinct as (_ & _ & D3 & _ & D5 & D6). apply runs_bind. eapply runs_load_connector; [done|]. apply runs_bind.
  eapply (runs_mono _ _ (λ _ w1 l, ∃ o1, w1 = with_re o1 w ∧ r_ok T o1 ∧ inactive (fdv o1 connector_bfd) ∧ fdv o1 bfd = cv w ∧ li o1 = li (re w) ∧ pending_jobs o1 = jobs w)).
  { unfold when. destruct (have_bfd k); [|apply runs_ret; exists (re w); split_and!; try done; by destruct w].
    destruct K2 as (Ev & _). apply runs_re. eapply runs_mono; [by eapply (remove_fd_upd T)|]. intros [] o1 l [_ U]. exists o1. split_and!; [done|apply U| | |apply U|apply U].
    - by rewrite (u_fd _ _ _ _ _ U), decide_True.
    - rewrite (u_fd _ _ _ _ _ U), decide_False by apply layout_fds. done. }
  intros [] w1 l1 (o1 & -> & Hr1 & Hi1 & Hv1 & Hl1 & Hj1). apply runs_bind.
  eapply (runs_mono _ _ (λ _ w2 l, w2 = mkWorld o1 (connector w) (connection w) (S0 ∪ owned_connection w))).
  { unfold owned_connector in *. rewrite Hk in W4, W6, W7. unfold when. destruct (connector_fd k =? -1); cbn [negb].
    - apply runs_ret. unfold with_re. assert (open_fds w = S0 ∪ owned_connection w) as -> by set_solver. done.
    - apply close_runs; [cbn; rewrite W4; set_solver|]. cbn. assert (open_fds w ∖ {[connector_fd k]} = S0 ∪ owned_connection w) as -> by set_solver. done. }
  intros [] w2 l2 ->. apply runs_bind, runs_re, runs_modify, runs_modify. split; [|done]. cbn.
  apply connector_change; try done; unfold owned_connector; cbn; [|intros j Hj|intros He| |set_solver..].
  - apply r_jobs_change; [done|]. apply JobQueue.NoDup_remove, Hr1.
  - unfold JobQueue.unset. rewrite remove_ne by set_solver. by rewrite Hj1.
  - apply err_first_remove; [done|]. by rewrite Hj1.
  - split; [done|]. apply remove_not.
Qed.

Lemma connector_fd_ok F S0 T w k result : w_ok F S0 T w → connector w = Some k → have_bfd k = true →
  runs (connector_fd_handler result) w (λ _ w' l, w_ok F S0 T w' ∧ connection w' = connection w ∧ ∃ b, l = [ConnectorDone b]).
Proof.
  intros W Hk Hh. pose proof W as [W1 W2 W3 W4 W5 W6 W7]. unfold connector_there in W3. rewrite Hk in W3. destruct W3 as [K1 K2 K3]. rewrite Hh in K2.
  destruct K2 as (Ev & Hc & Hp). apply runs_bind. eapply runs_load_connector; [done|]. apply runs_bind, runs_ASSERT; [rewrite Z.geb_leb; by apply Z.leb_le|].
  apply runs_bind, runs_ASSERT; [by rewrite Hc|]. apply runs_bind, runs_ASSERT; [done|]. apply runs_bind, runs_re.
  eapply runs_mono; [by eapply (remove_fd_upd T)|]. intros [] o1 l [-> U]. apply runs_bind, runs_modify, runs_emit. split; [|eauto]. cbn.
  assert (Ej : pending_jobs o1 = jobs w) by apply U.
  assert (Hnj : connector_job ∉ jobs w) by (intros Hx; destruct (K3 Hx) as [? _]; congruence).
  apply connector_change; try done; unfold owned_connector in *; rewrite ?Hk in *; cbn; rewrite ?Ej; try done; [apply U| |apply U|].
  - rewrite (u_fd _ _ _ _ _ U), decide_False by apply layout_fds. done.
  - split; cbn; [done|unfold kv; cbn; by rewrite (u_fd _ _ _ _ _ U), decide_True|]. unfold jobs. cbn. rewrite Ej. done.
Qed.

(** ** The connection *)
Lemma init_with_runs T w n (owned ok : bool) : r_ok T (re w) → inactive (cv w) → ¬ has_limit (re w) send_limit → ¬ has_limit (re w) recv_limit →
  (owned = true → n ∈ open_fds w) →
  runs (init_with n owned ok) w (λ b w' _, r_ok T (re w') ∧ connector w' = connector w ∧ kv w' = kv w ∧ jobs w' = jobs w ∧
    if b : bool then connection w' = Some (mkConnection n owned false 0 [] SEND_STATE_NOT_INITED 0 RECV_STATE_NOT_INITED) ∧ cv w' = Some (n, true, 0) ∧
      limits_there w' ∧ open_fds w' = open_fds w
    else connection w' = connection w ∧ inactive (cv w') ∧ (∀ q, has_limit (re w') q ↔ has_limit (re w) q) ∧
      open_fds w' = if owned then open_fds w ∖ {[n]} else open_fds w).
Proof.
  intros Hr Hi Hl1 Hl2 Hown. unfold init_with. apply runs_bind, runs_re. eapply runs_mono; [by apply (fd_init_upd T)|]. intros [] o1 l1 [-> U1].
  assert (Hv1 : fdv o1 bfd = Some (n, false, 0)) by (rewrite (u_fd _ _ _ _ _ U1); by rewrite decide_True).
  assert (Hk1 : fdv o1 connector_bfd = kv w) by (rewrite (u_fd _ _ _ _ _ U1), decide_False by (by intros ?; destruct layout_fds); done).
  assert (Ej1 : pending_jobs o1 = jobs w) by apply U1. assert (El1 : ∀ q, has_limit o1 q ↔ has_limit (re w) q) by (intros q; unfold has_limit; by rewrite (u_li _ _ _ _ _ U1)).
  apply runs_bind, runs_re. cbn [re connector connection open_fds app fmap list_fmap]. eapply runs_mono; [eapply (add_fd_upd T); [apply U1|exact Hv1]|].
  intros b o2 l2 U2. destruct b; cbn [negb].
  - assert (El2 : ∀ q, has_limit o2 q ↔ has_limit (re w) q) by (intros q; unfold has_limit; by rewrite (u_li _ _ _ _ _ U2), (u_li _ _ _ _ _ U1)).
    apply runs_bind, runs_re. cbn [re connector connection open_fds]. eapply runs_mono; [apply (limit_init_upl T); [apply U2|by rewrite El2|done]|]. intros [] o3 l3 [-> U3].
    apply runs_bind, runs_re. cbn [re connector connection open_fds]. eapply runs_mono; [apply (limit_init_upl T); [apply U3| |done]|].
    { rewrite (l_has _ _ _ _ U3), El2. intros [?|?]; [by destruct layout_limits|done]. }
    intros [] o4 l4 [-> U4]. apply runs_bind, runs_modify, runs_ret. cbn. split_and!; [apply U4|done| | |done| | |done].
    + unfold kv. cbn. rewrite (l_fd _ _ _ _ U4), (l_fd _ _ _ _ U3), (u_fd _ _ _ _ _ U2), decide_False by (by intros ?; destruct layout_fds). done.
    + unfold jobs. cbn. rewrite (l_jobs _ _ _ _ U4), (l_jobs _ _ _ _ U3), (u_jobs _ _ _ _ _ U2). done.
    + unfold cv. cbn. by rewrite (l_fd _ _ _ _ U4), (l_fd _ _ _ _ U3), (u_fd _ _ _ _ _ U2), decide_True.
    + split; apply (l_has _ _ _ _ U4); [right; apply (l_has _ _ _ _ U3); by left|by left].
  - subst o2. apply runs_bind. unfold when. destruct owned; [apply close_runs; [by apply Hown|]|apply runs_ret]; apply runs_ret; cbn;
      (split_and!; [apply U1|done|done|done|done|unfold cv; cbn; by rewrite Hv1|done|done]).
Qed.

Lemma new_c_ok F n owned l : recv_job ∉ l → send_job ∉ l → d_err_job ∉ l →
  c_ok F (mkConnection n owned false 0 [] SEND_STATE_NOT_INITED 0 RECV_STATE_NOT_INITED) (Some (n, true, 0)) l.
Proof. intros H1 H2 H3. split; [split; cbn; try done; by apply err_first_none|by split]. Qed.

(** What a new connection, or a failed attempt, makes of the world. *)
Lemma init_ok_change F S0 T w w' n (owned b : bool) : w_ok F S0 T w → connection w = None → r_ok T (re w') → connector_there w' → jobs w' = jobs w →
  (if b then connection w' = Some (mkConnection n owned false 0 [] SEND_STATE_NOT_INITED 0 RECV_STATE_NOT_INITED) ∧ cv w' = Some (n, true, 0) ∧ limits_there w'
   else connection w' = None ∧ inactive (cv w') ∧ ∀ q, has_limit (re w') q ↔ has_limit (re w) q) →
  open_fds w' = S0 ∪ owned_connection w' ∪ owned_connector w' → owned_connection w' ## S0 → owned_connector w' ## S0 → owned_connection w' ## owned_connector w' →
  w_ok F S0 T w'.
Proof.
  intros [W1 W2 W3 W4 W5 W6 W7] Hc Hr Hk Hj Hb Ho F1 F2 F3. split; try done. unfold connection_there in *. rewrite Hc in W2. destruct W2 as (_ & L1 & L2 & J1 & J2 & J3).
  destruct b.
  - destruct Hb as (-> & -> & Hl). split; [|done]. rewrite Hj. by apply new_c_ok.
  - destruct Hb as (-> & Hi & Hl). by rewrite !Hl, Hj.
Qed.

Lemma init_connector_ok F S0 T w k nonblock ok : w_ok F S0 T w → connection w = None → connector w = Some k → 0 <= connector_fd k → connected k = true →
  have_bfd k = false → connector_job ∉ jobs w →
  runs (BConnection_Init FromConnector nonblock ok) w (λ b w' _, w_ok F S0 T w' ∧ abs_w w' = (SIdle, None)).
Proof.
  intros W Hc Hk Hp Hcon Hh Hnj. pose proof W as [W1 W2 W3 W4 W5 W6 W7]. unfold connection_there in W2. rewrite Hc in W2. destruct W2 as (Hi & L1 & L2 & _).
  unfold connector_there in W3. rewrite Hk in W3. destruct W3 as [K1 K2 K3]. rewrite Hh in K2.
  assert (E0 : owned_connector w = {[connector_fd k]}) by (unfold owned_connector; rewrite Hk; by rewrite (proj2 (Z.eqb_neq _ _)) by lia).
  assert (E1 : owned_connection w = ∅) by (unfold owned_connection; by rewrite Hc).
  apply runs_bind. eapply runs_load_connector; [done|]. apply runs_bind, runs_get, runs_bind, runs_ASSERT; [rewrite Z.geb_leb; by apply Z.leb_le|].
  rewrite Hcon, Hh. apply runs_bind, runs_ASSERT; [done|]. apply runs_bind, runs_ASSERT; [done|].
  apply runs_bind, runs_ASSERT; [unfold is_set, JobQueue.is_set; by rewrite bool_decide_false|]. apply runs_bind, runs_modify. cbn [app].
  eapply runs_mono; [eapply (init_with_runs T (mkWorld _ _ _ _)); try done; intros _; cbn; rewrite W4, E0; set_solver|].
  intros b w' l (R1 & R2 & R3 & R4 & R5). cbn in R2, R5. unfold jobs, kv in R3, R4. cbn in R3, R4. split; [|unfold abs_w; destruct b; destruct R5 as [-> _]; [done|by rewrite ?Hc]].
  apply (init_ok_change F S0 T w w' (connector_fd k) true b); try done.
  - unfold connector_there. rewrite R2. split; cbn; [by left|unfold kv; by rewrite R3|]. unfold jobs. rewrite R4. done.
  - destruct b; [by destruct R5 as (? & ? & ? & _)|destruct R5 as (-> & ? & ? & _); by rewrite Hc].
  - unfold owned_connector, owned_connection. rewrite R2. destruct b; destruct R5 as (-> & _ & _ & ->); cbn; rewrite ?Hc; rewrite W4, E0, E1; set_solver.
  - unfold owned_connection. destruct b; destruct R5 as (-> & _); cbn; rewrite ?Hc; set_solver.
  - unfold owned_connector. rewrite R2. set_solver.
  - unfold owned_connector. rewrite R2. set_solver.
Qed.

Lemma init_pipe_ok F S0 T w n nonblock ok : w_ok F S0 T w → connection w = None → 0 <= n →
  runs (BConnection_Init (FromPipe n) nonblock ok) w (λ b w' _, w_ok F S0 T w' ∧ abs_w w' = (SIdle, None)).
Proof.
  intros W Hc Hn. pose proof W as [W1 W2 W3 W4 W5 W6 W7]. unfold connection_there in W2. rewrite Hc in W2. destruct W2 as (Hi & L1 & L2 & _).
  assert (E1 : owned_connection w = ∅) by (unfold owned_connection; by rewrite Hc).
  apply runs_bind, runs_ASSERT; [rewrite Z.geb_leb; by apply Z.leb_le|]. destruct nonblock; cbn [negb]; [|apply runs_ret; split; [done|unfold abs_w; by rewrite Hc]].
  eapply runs_mono; [by eapply (init_with_runs T w)|]. intros b w' l (R1 & R2 & R3 & R4 & R5). split; [|unfold abs_w; destruct b; destruct R5 as [-> _]; [done|by rewrite ?Hc]].
  assert (E2 : owned_connector w' = owned_connector w) by (unfold owned_connector; by rewrite R2).
  assert (E3 : owned_connection w' = ∅) by (unfold owned_connection; destruct b; destruct R5 as (-> & _); [done|by rewrite Hc]).
  apply (init_ok_change F S0 T w w' n false b); rewrite ?E2, ?E3; try done; [| | |set_solver..].
  - unfold connector_there in *. rewrite R2. destruct (connector w); rewrite R3, R4; done.
  - destruct b; [by destruct R5 as (? & ? & ? & _)|destruct R5 as (-> & ? & ? & _); by rewrite Hc].
  - rewrite <-E1. destruct b; destruct R5 as (_ & _ & _ & ->); done.
Qed.

Lemma connection_free_ok F S0 T w c : w_ok F S0 T w → connection w = Some c → send_state c = SEND_STATE_NOT_INITED →
  recv_state c = RECV_STATE_NOT_INITED ∨ recv_state c = RECV_STATE_NOT_INITED_CLOSED →
  runs BConnection_Free w (λ _ w' _, w_ok F S0 T w' ∧ connection w' = None).
Proof.
  intros W Hc Hs Hv. pose proof W as [W1 W2 W3 W4 W5 W6 W7]. unfold connection_there in W2. rewrite Hc in W2. destruct W2 as (([B1 B2 B3 B4 B5 B6 B7] & _) & [L1 L2]).
  pose proof jobs_distinct as (_ & D2 & _ & D4 & _ & D6).
  assert (Hnr : recv_job ∉ jobs w) by (intros Hj%B5; destruct Hv; congruence).
  apply runs_bind. eapply runs_load_connection; [done|]. apply runs_bind, runs_re, runs_modify, runs_bind, runs_ASSERT; [by apply bool_decide_eq_true|].
  apply runs_bind, runs_ASSERT; [destruct Hv as [-> | ->]; done|]. apply runs_bind, runs_re. cbn [re connector connection open_fds app fmap list_fmap].
  set (o0 := set_jobs _ _). assert (R0 : r_ok T o0) by (apply r_jobs_change; [done|]; apply JobQueue.NoDup_remove, W1).
  eapply runs_mono; [by apply (limit_free_upl T)|]. intros [] o1 l1 [-> U1]. apply runs_bind, runs_re. cbn [re connector connection open_fds app fmap list_fmap].
  eapply runs_mono; [apply (limit_free_upl T); [apply U1|]|].
  { apply (l_has _ _ _ _ U1). split; [apply layout_limits|done]. }
  intros [] o2 l2 [-> U2]. cbn [app fmap list_fmap]. assert (Ej2 : pending_jobs o2 = JobQueue.remove d_err_job (jobs w)).
  { rewrite (l_jobs _ _ _ _ U2), (l_jobs _ _ _ _ U1). done. }
  assert (Ev2 : ∀ q, fdv o2 q = fdv (re w) q) by (intros q; rewrite (l_fd _ _ _ _ U2), (l_fd _ _ _ _ U1); done).
  assert (El2 : ¬ has_limit o2 send_limit ∧ ¬ has_limit o2 recv_limit).
  { rewrite !(l_has _ _ _ _ U2), !(l_has _ _ _ _ U1). naive_solver. }
  apply runs_bind. eapply (runs_mono _ _ (λ _ w3 l, ∃ o3, w3 = mkWorld o3 (connector w) (connection w) (open_fds w) ∧ r_ok T o3 ∧ inactive (fdv o3 bfd) ∧
    fdv o3 connector_bfd = kv w ∧ li o3 = li o2 ∧ pending_jobs o3 = pending_jobs o2)).
  { unfold when. destruct (is_hupd c); cbn [negb].
    - apply runs_ret. exists o2. split_and!; [done|apply U2|by rewrite Ev2|by rewrite Ev2|done|done].
    - apply runs_re. eapply runs_mono; [eapply (remove_fd_upd T); [apply U2|rewrite Ev2; exact B1]|]. intros [] o3 l3 [_ U3]. exists o3.
      split_and!; [done|apply U3|by rewrite (u_fd _ _ _ _ _ U3), decide_True| |apply U3|apply U3].
      rewrite (u_fd _ _ _ _ _ U3), decide_False, Ev2; [done|]. intros ?. by destruct layout_fds. }
  intros [] w3 l3 (o3 & -> & R3 & Hi3 & Hk3 & El3 & Ej3). rewrite Ej2 in Ej3. apply runs_bind.
  eapply (runs_mono _ _ (λ _ w4 l, w4 = mkWorld o3 (connector w) (connection w) (S0 ∪ owned_connector w))).
  { unfold owned_connection in *. rewrite Hc in W4, W5, W7. unfold when. destruct (close_fd c).
    - apply close_runs; [cbn; rewrite W4; set_solver|]. cbn. assert (open_fds w ∖ {[conn_fd c]} = S0 ∪ owned_connector w) as -> by set_solver. done.
    - apply runs_ret. assert (open_fds w = S0 ∪ owned_connector w) as -> by set_solver. done. }
  intros [] w4 l4 ->. apply runs_modify. split; [|done]. cbn. split; unfold owned_connection; cbn; [done| | |set_solver..].
  - unfold connection_there, cv, jobs, has_limit. cbn. rewrite El3, Ej3. split_and!; [done|apply El2|apply El2| | |apply remove_not]; by intros [_ ?]%JobQueue.elem_of_remove.
  - unfold connector_there in *. cbn. assert (Hcj : connector_job ∈ pending_jobs o3 ↔ connector_job ∈ jobs w) by (rewrite Ej3; by apply remove_ne).
    destruct (connector w) as [k|]; unfold kv, jobs in *; cbn; rewrite Hk3.
    + destruct W3 as [K1 K2 K3]. split; [done|done|]. by rewrite Hcj.
    + by rewrite Hcj.
Qed.

(** ** Operations of the user *)
Inductive uop :=
  | UConnect (a : BAddr) (sock : option Z) (nonblock : bool) (res : cres) (ok : bool)
  | UConnectorFree
  | UInit (s : source) (nonblock ok : bool)
  | UFree
  | USendInit | USendFree | URecvInit | URecvFree
  | USend (data : list Z) (r : wres)
  | URecv (avail : Z) (r : rres).

Definition perform_u (u : uop) : WM unit :=
  match u with
  | UConnect a sock nonblock res ok => BConnector_Init a sock nonblock res ok;; mret tt
  | UConnectorFree => BConnector_Free
  | UInit s nonblock ok => BConnection_Init s nonblock ok;; mret tt
  | UFree => BConnection_Free
  | USendInit => BConnection_SendAsync_Init
  | USendFree => BConnection_SendAsync_Free
  | URecvInit => BConnection_RecvAsync_Init
  | URecvFree => BConnection_RecvAsync_Free
  | USend data r => connection_send_if_handler_send data r
  | URecv avail r => connection_recv_if_handler_recv avail r
  end.

(** How they may be called; what the system may answer. *)
Definition allowed_u w (u : uop) : Prop :=
  let no_error := d_err_job ∉ jobs w in
  match u with
  | UConnect _ sock _ _ _ => connector w = None ∧ ∀ n, sock = Some n → 0 <= n ∧ n ∉ open_fds w
  | UConnectorFree => is_Some (connector w)
  | UInit FromConnector _ _ => connection w = None ∧ (∃ k, connector w = Some k ∧ 0 <= connector_fd k ∧ connected k = true ∧ have_bfd k = false) ∧ connector_job ∉ jobs w
  | UInit (FromPipe n) _ _ => connection w = None ∧ 0 <= n
  | UFree => ∃ c, connection w = Some c ∧ send_state c = SEND_STATE_NOT_INITED ∧ (recv_state c = RECV_STATE_NOT_INITED ∨ recv_state c = RECV_STATE_NOT_INITED_CLOSED)
  | USendInit => no_error ∧ ∃ c, connection w = Some c ∧ send_state c = SEND_STATE_NOT_INITED
  | USendFree => ∃ c, connection w = Some c ∧ send_state c ≠ SEND_STATE_NOT_INITED
  | URecvInit => no_error ∧ ∃ c, connection w = Some c ∧ recv_state c = RECV_STATE_NOT_INITED
  | URecvFree => ∃ c, connection w = Some c ∧ recv_state c ≠ RECV_STATE_NOT_INITED ∧ recv_state c ≠ RECV_STATE_NOT_INITED_CLOSED
  | USend data r => no_error ∧ ∃ c, connection w = Some c ∧ send_state c = SEND_STATE_READY ∧ data ≠ [] ∧ wres_ok (set_send data SEND_STATE_BUSY c) r
  | URecv avail r => no_error ∧ ∃ c, connection w = Some c ∧ recv_state c = RECV_STATE_READY ∧ 0 < avail ∧ rres_ok (set_recv avail RECV_STATE_BUSY c) r
  end.

(** What an operation means for the user, before anything comes out. *)
Definition user_spec (u : uop) (a : spec) : option spec :=
  match u with
  | USend data _ => match a.1 with SIdle => Some (SData data, a.2) | _ => None end
  | URecv avail _ => match a.2 with None => Some (a.1, Some avail) | Some _ => None end
  | USendFree => Some (SIdle, a.2)
  | URecvFree => Some (a.1, None)
  | _ => Some a
  end.
Definition answered (u : uop) : wres * rres := match u with USend _ r => (r, RAgain) | URecv _ r => (WAgain, r) | _ => (WAgain, RAgain) end.
Definition event_spec (u : uop) (l : list out) (a : spec) : option spec := a1 ← user_spec u a; outs (answered u) a1 l.

(** Computations after which the user has heard nothing. *)
Definition silent {A} (m : WM A) : Prop := ∀ w r w' l, m w = Some (r, w', l) → ∀ y a, outs y a l = Some a.
Definition aside {A} (m : WM A) : Prop := ∀ w r w' l, m w = Some (r, w', l) → connection w' = connection w.

Lemma outs_app y a l l' : outs y a (l ++ l') = outs y a l ≫= λ a', outs y a' l'.
Proof. revert a. induction l as [|x l IH]; intros a; [done|]. cbn. destruct (out_spec y x a); [apply IH|done]. Qed.
Lemma outs_logs y l a : outs y a (Log <$> l) = Some a.
Proof. induction l as [|x l IH]; [done|]. cbn. by destruct a. Qed.

Lemma silent_bind {A B} (m : WM A) (f : A → WM B) : silent m → (∀ a, silent (f a)) → silent (m ≫= f).
Proof.
  intros Hm Hf w r w' l. unfold mbind, M_bind. destruct (m w) as [[[x w1] l1]|] eqn:E1; [|done]. destruct (f x w1) as [[[y w2] l2]|] eqn:E2; [|done].
  intros [= <- <- <-] y' a. rewrite outs_app, (Hm _ _ _ _ E1). by apply (Hf x _ _ _ _ E2).
Qed.
Lemma aside_bind {A B} (m : WM A) (f : A → WM B) : aside m → (∀ a, aside (f a)) → aside (m ≫= f).
Proof.
  intros Hm Hf w r w' l. unfold mbind, M_bind. destruct (m w) as [[[x w1] l1]|] eqn:E1; [|done]. destruct (f x w1) as [[[y w2] l2]|] eqn:E2; [|done].
  intros [= <- <- <-]. rewrite (Hf x _ _ _ _ E2). by apply (Hm _ _ _ _ E1).
Qed.
Lemma silent_re {A} (m : RM A) : silent (on_re m).
Proof. intros w r w' l. unfold on_re. destruct (m (re w)) as [[[x o] l1]|]; [|done]. intros [= <- <- <-] y a. apply outs_logs. Qed.
Lemma aside_re {A} (m : RM A) : aside (on_re m).
Proof. intros w r w' l. unfold on_re. destruct (m (re w)) as [[[x o] l1]|]; [|done]. by intros [= <- <- <-]. Qed.
Lemma silent_modify f : silent (modify f).
Proof. by intros w r w' l [= <- <- <-] y a. Qed.
Lemma silent_ret {A} (x : A) : silent (mret x).
Proof. by intros w r w' l [= <- <- <-] y a. Qed.
Lemma aside_ret {A} (x : A) : aside (mret x).
Proof. by intros w r w' l [= <- <- <-]. Qed.
Lemma silent_get : silent get.
Proof. by intros w r w' l [= <- <- <-] y a. Qed.
Lemma aside_get : aside get.
Proof. by intros w r w' l [= <- <- <-]. Qed.
Lemma silent_ASSERT b : silent (ASSERT b).
Proof. intros w r w' l. unfold ASSERT. destruct b; [|done]. by intros [= <- <- <-] y a. Qed.
Lemma aside_ASSERT b : aside (ASSERT b).
Proof. intros w r w' l. unfold ASSERT. destruct b; [|done]. by intros [= <- <- <-]. Qed.
Lemma silent_load_connector : silent load_connector.
Proof. intros w r w' l. unfold load_connector. destruct (connector w); [|done]. by intros [= <- <- <-] y a. Qed.
Lemma aside_load_connector : aside load_connector.
Proof. intros w r w' l. unfold load_connector. destruct (connector w); [|done]. by intros [= <- <- <-]. Qed.
Lemma silent_load_connection : silent load_connection.
Proof. intros w r w' l. unfold load_connection. destruct (connection w); [|done]. by intros [= <- <- <-] y a. Qed.

Ltac quietly := repeat first
  [ apply silent_bind; [|intros ?] | apply aside_bind; [|intros ?] | apply silent_re | apply aside_re | apply silent_modify | apply silent_ret | apply aside_ret
  | apply silent_get | apply aside_get | apply silent_ASSERT | apply aside_ASSERT | apply silent_load_connector | apply aside_load_connector
  | apply silent_load_connection | case_match | progress unfold when, close, opened, store_connector, store_connection ].

Lemma connect_silent a sock nonblock res ok : silent (BConnector_Init a sock nonblock res ok) ∧ aside (BConnector_Init a sock nonblock res ok).
Proof. unfold BConnector_Init. split; quietly; by intros w r w' l [= <- <- <-]. Qed.
Lemma connector_free_silent : silent BConnector_Free ∧ aside BConnector_Free.
Proof. unfold BConnector_Free. split; quietly; by intros w r w' l [= <- <- <-]. Qed.
Lemma init_silent s nonblock ok : silent (BConnection_Init s nonblock ok).
Proof. unfold BConnection_Init, init_with. quietly. Qed.
Lemma free_silent : silent BConnection_Free.
Proof. unfold BConnection_Free. quietly. Qed.

Lemma runs_silent {A} (m : WM A) w Q : silent m → runs m w Q → runs m w (λ a w' l, Q a w' l ∧ ∀ y x, outs y x l = Some x).
Proof. intros Hs. unfold runs. destruct (m w) as [[[a w'] l]|] eqn:E; [|done]. intros HQ. split; [done|]. by apply (Hs _ _ _ _ E). Qed.
Lemma runs_aside {A} (m : WM A) w Q : aside m → runs m w Q → runs m w (λ a w' l, Q a w' l ∧ connection w' = connection w).
Proof. intros Hs. unfold runs. destruct (m w) as [[[a w'] l]|] eqn:E; [|done]. intros HQ. split; [done|]. by apply (Hs _ _ _ _ E). Qed.

Lemma user_runs F S0 T w u : w_ok F S0 T w → allowed_u w u → runs (perform_u u) w (λ _ w' l, w_ok F S0 T w' ∧ event_spec u l (abs_w w) = Some (abs_w w')).
Proof.
  intros W Ha. set (t := mkTerms F True True (answered u)). assert (Hcon : ∀ c, connection w = Some c → c_ok (fresh t) c (cv w) (jobs w) ∧ limits_there w).
  { intros c Hc. pose proof (w_connection _ _ _ _ W) as Hw. unfold connection_there in Hw. by rewrite Hc in Hw. }
  assert (Hgood : ∀ c (m : WM unit) a, connection w = Some c → user_spec u (abs c) = Some a → runs m w (λ _ w' l, good (t := t) T w c a l w') →
    runs m w (λ _ w' l, w_ok F S0 T w' ∧ event_spec u l (abs_w w) = Some (abs_w w'))).
  { intros c m a Hc Hu Hm. eapply runs_mono; [exact Hm|]. intros [] w' l G. destruct (good_ok t F S0 T w c a l w' W Hc G) as [W' Hout].
    split; [apply (w_weak _ _ _ _ _ W'); by intros Hf; split|]. unfold event_spec, abs_w at 1. by rewrite Hc, Hu. }
  pose proof (w_re _ _ _ _ W) as Hr. destruct u; cbn [perform_u allowed_u] in *.
  - destruct Ha as [Hk Hn]. destruct (connect_silent a sock nonblock res ok) as [Q1 Q2]. apply runs_bind.
    eapply runs_mono; [eapply runs_silent; [done|]; eapply runs_aside; [done|]; by eapply connect_ok|]. intros b w' l [[[W' _] Ec] Hq]. apply runs_ret.
    rewrite app_nil_r. split; [done|]. unfold event_spec. cbn. rewrite Hq. unfold abs_w. by rewrite Ec.
  - destruct Ha as [k Hk]. destruct connector_free_silent as [Q1 Q2].
    eapply runs_mono; [eapply runs_silent; [done|]; eapply runs_aside; [done|]; by eapply connector_free_ok|]. intros [] w' l [[[W' _] Ec] Hq].
    split; [done|]. unfold event_spec. cbn. rewrite Hq. unfold abs_w. by rewrite Ec.
  - apply runs_bind. eapply (runs_mono _ _ (λ _ w' l, (w_ok F S0 T w' ∧ abs_w w' = abs_w w) ∧ ∀ y x, outs y x l = Some x)).
    + apply runs_silent; [apply init_silent|]. destruct s.
      * destruct Ha as (Hc & (k & Hk & H1 & H2 & H3) & Hj). eapply runs_mono; [by eapply init_connector_ok|]. intros b w' l [? ->]. unfold abs_w. by rewrite Hc.
      * destruct Ha as [Hc Hn]. eapply runs_mono; [by eapply init_pipe_ok|]. intros b w' l [? ->]. unfold abs_w. by rewrite Hc.
    + intros b w' l [[W' Ea] Hq]. apply runs_ret. rewrite app_nil_r. split; [done|]. unfold event_spec. cbn. by rewrite Hq, Ea.
  - destruct Ha as (c & Hc & Hs & Hv). eapply runs_mono; [eapply runs_silent; [apply free_silent|]; by eapply connection_free_ok|]. intros [] w' l [[W' En] Hq].
    split; [done|]. unfold event_spec. cbn. rewrite Hq. unfold abs_w, abs, abs_send, abs_recv. rewrite En, Hc, Hs. by destruct Hv as [-> | ->].
  - destruct Ha as (Hn & c & Hc & Hs). destruct (Hcon c Hc) as [Hok _]. eapply (Hgood c); [done|done|]. by apply send_init_runs.
  - destruct Ha as (c & Hc & Hs). destruct (Hcon c Hc) as [Hok _]. eapply (Hgood c); [done|done|]. by apply send_free_runs.
  - destruct Ha as (Hn & c & Hc & Hs). destruct (Hcon c Hc) as [Hok _]. eapply (Hgood c); [done|done|]. by apply recv_init_runs.
  - destruct Ha as (c & Hc & Hs & Hs'). destruct (Hcon c Hc) as [Hok _]. eapply (Hgood c); [done|done|]. by apply recv_free_runs.
  - destruct Ha as (Hn & c & Hc & Hs & Hd & Hw). destruct (Hcon c Hc) as [Hok Hl]. eapply (Hgood c); [done|cbn; unfold abs_send; by rewrite Hs|]. by apply send_if_runs.
  - destruct Ha as (Hn & c & Hc & Hs & Hd & Hw). destruct (Hcon c Hc) as [Hok Hl]. eapply (Hgood c); [done|cbn; unfold abs_recv; by rewrite Hs|]. by apply recv_if_runs.
Qed.

(** ** Rounds *)

(** What the system may answer to the system calls of the handler: of writing,
    at least one byte and not more than there are; of reading, not more than there
    is room for. *)
Definition system_ok w (wr : wres) (rr : rres) : Prop := ∀ c, connection w = Some c → wres_ok c wr ∧ rres_ok c rr.

(** The handler of the connection is not called with an event for an operation
    that is not under way. *)
Definition no_stray w (d : dispatched) : Prop :=
  ∀ c, connection w = Some c → match d with Fd p ev => p = bfd → expected c ev | _ => True end.

(** A round ends an operation only if its event was reported, or the descriptor
    is no longer watched. *)
Definition round_terms (F : Prop) w (d : dispatched) (wr : wres) (rr : rres) : terms :=
  mkTerms F
    (match d with Fd p ev => p = bfd → has ev BREACTOR_WRITE = true ∨ has ev BREACTOR_HUP = true | _ => True end)
    (match d with
     | Fd p ev => p = bfd → has ev BREACTOR_READ = true ∨ has ev BREACTOR_HUP = true
     | Job p => p = recv_job → ∀ c, connection w = Some c → is_hupd c = false → has (wait_events c) BREACTOR_READ = false
     | _ => True
     end)
    (wr, rr).

(** A job of another object, or that of the connector, is taken from the list. *)
Lemma pop_ok F S0 T w p o1 : w_ok F S0 T w → r_ok T o1 → (∀ q, fdv o1 q = fdv (re w) q) → (∀ q, has_limit o1 q ↔ has_limit (re w) q) →
  jobs w = p :: pending_jobs o1 → p ≠ d_err_job → p ≠ recv_job → w_ok F S0 T (with_re o1 w).
Proof.
  intros [W1 W2 W3 W4 W5 W6 W7] Hr Hv Hl Hj Hp Hp'. split; [done| | |done|done|done|done].
  - unfold connection_there in *. cbn. destruct (connection w) as [c|]; unfold cv, limits_there, jobs in *; cbn; rewrite Hv, !Hl, Hj in *.
    + destruct W2 as [Hok ?]. destruct (c_pop _ _ _ _ _ Hok Hp) as (? & ? & Hd). split; [|done]. split; [done|]. split; [done|by apply Hd].
    + rewrite !not_elem_of_cons in W2. naive_solver.
  - unfold connector_there in *. cbn. destruct (connector w) as [k|]; unfold kv, jobs in *; cbn; rewrite Hv, Hj in *.
    + destruct W3 as [K1 K2 K3]. split; [done|done|]. intros Hx. apply K3. by right.
    + rewrite not_elem_of_cons in W3. naive_solver.
Qed.

Lemma recv_job_ok F S0 T w o1 wr rr : let t := round_terms F w (Job recv_job) wr rr in
  w_ok F S0 T w → r_ok T o1 → (∀ q, fdv o1 q = fdv (re w) q) → (∀ q, has_limit o1 q ↔ has_limit (re w) q) →
  jobs w = recv_job :: pending_jobs o1 → system_ok w wr rr →
  runs (connection_recv_job_handler rr) (with_re o1 w) (λ _ w' l, w_ok (still t l) S0 T w' ∧ outs (wr, rr) (abs_w w) l = Some (abs_w w')).
Proof.
  intros t [W1 W2 W3 W4 W5 W6 W7] Hr Hv Hl Hj Hsys. pose proof jobs_distinct as (_ & _ & _ & _ & D5 & _).
  unfold connection_there in W2. destruct (connection w) as [c|] eqn:Hc; [|rewrite Hj in W2; destruct W2 as (_ & _ & _ & Hn & _); exfalso; apply Hn; by left].
  destruct W2 as [Hok Hlim]. destruct (Hsys c Hc) as [_ Hrr]. assert (Hnd : NoDup (jobs w)) by apply W1. rewrite Hj in Hnd. apply NoDup_cons in Hnd as [Hnd _].
  assert (Hcv : cv (with_re o1 w) = cv w) by apply Hv. eapply runs_mono.
  - apply (recv_job_runs (t := t) T (with_re o1 w) c rr); try done.
    + unfold limits_there in *. cbn. by rewrite !Hl.
    + rewrite Hcv. unfold jobs at 1. cbn. by rewrite <-Hj.
    + intros _ Hm. by apply Hm.
  - intros [] w' l G. unfold abs_w at 1. rewrite Hc. eapply (good_change t S0 T (with_re o1 w) c); try done.
    + unfold limits_there in *. cbn. by rewrite !Hl.
    + unfold connector_there in *. cbn. destruct (connector w) as [k|]; unfold kv, jobs in *; cbn; rewrite Hv, Hj in *.
      * destruct W3 as [K1 K2 K3]. split; [done|done|]. intros Hx. apply K3. by right.
      * rewrite not_elem_of_cons in W3. naive_solver.
Qed.

Lemma connector_job_ok F S0 T w o1 y : w_ok F S0 T w → w_ok F S0 T (with_re o1 w) → connector_job ∈ jobs w →
  runs connector_job_handler (with_re o1 w) (λ _ w' l, w_ok F S0 T w' ∧ outs y (abs_w w) l = Some (abs_w w')).
Proof.
  intros [_ _ W3 _ _ _ _] W' Hj. unfold connector_there in W3. destruct (connector w) as [k|] eqn:Hk; [|by destruct W3].
  destruct (k_job _ _ _ W3 Hj) as (K1 & K2 & K3). apply runs_bind. eapply runs_load_connector; [exact Hk|]. rewrite K1, K2.
  apply runs_bind, runs_ASSERT; [rewrite Z.geb_leb; by apply Z.leb_le|]. apply runs_bind, runs_ASSERT; [done|]. apply runs_bind, runs_ASSERT; [done|].
  apply runs_emit. split; [done|]. cbn. unfold abs_w. cbn. by destruct (match connection w with Some c => abs c | None => _ end).
Qed.

(** Handlers that do not touch the connection keep what holds of it. *)
Lemma runs_still {A} t S0 T (m : WM A) w y a : runs m w (λ _ w' l, w_ok (fresh t) S0 T w' ∧ outs y a l = Some (abs_w w')) →
  runs m w (λ _ w' l, w_ok (still t l) S0 T w' ∧ outs y a l = Some (abs_w w')).
Proof. intros Hm. eapply runs_mono; [exact Hm|]. intros x w' l [W ?]. split; [|done]. apply (w_weak _ _ _ _ _ W); by intros [? _]. Qed.

Lemma job_ok F S0 T w o1 p wr rr g : let t := round_terms F w (Job p) wr rr in
  w_ok F S0 T w → r_ok T o1 → (∀ q, fdv o1 q = fdv (re w) q) → (∀ q, has_limit o1 q ↔ has_limit (re w) q) →
  jobs w = p :: pending_jobs o1 → p ≠ d_err_job → system_ok w wr rr →
  runs (handle (Job p) wr rr g) (with_re o1 w) (λ _ w' l, w_ok (still t l) S0 T w' ∧ outs (wr, rr) (abs_w w) l = Some (abs_w w')).
Proof.
  intros t W Hr Hv Hl Hj Hd Hsys. cbn [handle]. assert (Hin : p ∈ jobs w) by (rewrite Hj; by left).
  case_bool_decide as E1; [subst p; by apply (recv_job_ok F S0 T w o1)|]. apply runs_still.
  assert (Hp : w_ok F S0 T (with_re o1 w)) by by eapply (pop_ok F S0 T w p o1). case_bool_decide as E2.
  { exfalso. subst p. pose proof (w_connection _ _ _ _ W) as W2. unfold connection_there in W2. destruct (connection w) as [c|].
    - by apply (c_sjob _ _ _ _ (proj1 (proj1 W2))).
    - by destruct W2 as (_ & _ & _ & _ & Hn & _). }
  case_bool_decide as E3; [subst p; by apply connector_job_ok|]. case_bool_decide; [by subst|by apply runs_ret].
Qed.

Lemma fd_ok F S0 T w o1 p f ev wr rr g : let t := round_terms F w (Fd p ev) wr rr in
  w_ok F S0 T w → w_ok F S0 T (with_re o1 w) → (∀ q, fdv o1 q = fdv (re w) q) → pending_jobs o1 = [] →
  fds (po (re w)) !! p = Some f → active f = true → no_stray w (Fd p ev) → system_ok w wr rr →
  runs (handle (Fd p ev) wr rr g) (with_re o1 w) (λ _ w' l, w_ok (still t l) S0 T w' ∧ outs (wr, rr) (abs_w w) l = Some (abs_w w')).
Proof.
  intros t W W' Hv Hj Hf Hfa Hst Hsys. pose proof W as [_ W2 W3 _ _ _ _]. cbn [handle].
  assert (Hview : fdv (re w) p = Some (fd f, true, waitEvents f)) by (unfold fdv, view; rewrite Hf; cbn; by rewrite Hfa). case_bool_decide as E1.
  - subst p. unfold connection_there in W2. destruct (connection w) as [c|] eqn:Hc; [|destruct W2 as [Hi _]; by destruct (Hi _ _ Hview)].
    destruct W2 as [Hok _]. pose proof (c_view _ _ _ _ (proj1 Hok)) as Hcv. unfold cv in Hcv. rewrite Hview in Hcv.
    destruct (is_hupd c) eqn:Hh; [by destruct (Hcv (fd f) (waitEvents f))|]. destruct (Hsys c Hc) as (S1 & S2).
    pose proof (w_connection _ _ _ _ W') as Wc. unfold connection_there in Wc. cbn in Wc. rewrite Hc in Wc. destruct Wc as [Wok Wlim].
    eapply runs_mono; [apply (fd_handler_runs (t := t) T (with_re o1 w) c); try done; [apply W'|by apply (Hst c Hc)|by intros Hm; apply Hm..]|].
    intros [] w' l' G. unfold abs_w at 1. rewrite Hc. by apply (good_ok t F S0 T (with_re o1 w) c).
  - apply runs_still. case_bool_decide as E2; [|by apply runs_ret]. subst p. unfold connector_there in W3.
    destruct (connector w) as [k|] eqn:Hk; [|destruct W3 as [Hi _]; by destruct (Hi _ _ Hview)].
    destruct (have_bfd k) eqn:Hb; [|destruct W3 as [_ Hi _]; rewrite Hb in Hi; by destruct (Hi _ _ Hview)].
    eapply runs_mono; [by eapply (connector_fd_ok F S0 T (with_re o1 w) k)|]. intros [] w' l' (? & Ec & b & ->). split; [done|]. unfold abs_w. rewrite Ec. cbn.
    by destruct (match connection w with Some c => abs c | None => _ end).
Qed.

Lemma handle_runs F S0 T answers w d o1 l wr rr g : let t := round_terms F w d wr rr in
  w_ok F S0 T w → answers_ok (po (re w)) (timeout_of (tm (re w))) T answers →
  exec_round T answers (re w) = Some (d, o1, l) → d ≠ Job d_err_job → no_stray w d → system_ok w wr rr →
  runs (handle d wr rr g) (with_re o1 w) (λ _ w' l, w_ok (still t l) S0 (after T d) w' ∧ outs (wr, rr) (abs_w w) l = Some (abs_w w')).
Proof.
  intros t W Ha E Hd Hst Hsys. pose proof (runs_result _ _ _ _ _ _ (round_runs T answers (re w) (w_re _ _ _ _ W) Ha) E) as [Hr Hs].
  destruct (round_frame _ _ _ _ _ Hs) as (Hv & Hl & Hj).
  assert (Hsame : (∀ p, d ≠ Job p) → w_ok F S0 (after T d) (with_re o1 w)).
  { intros Hnj. assert (Ej : pending_jobs o1 = jobs w) by (unfold jobs; rewrite Hj; destruct d; try done; by destruct (Hnj p)).
    apply (same_ok F S0 T _ w o1 W Hr). split; [apply Hv|apply Hv|by intros|by rewrite Ej|by rewrite Ej]. }
  destruct d as [code|p|p|p ev| |clk|]; try (apply runs_still, runs_ret; split; [by apply Hsame|done]).
  - apply job_ok; try done. intros ->. by destruct Hd.
  - destruct Hs as (_ & Ejobs & _ & _ & (f & e & Hf & Hfa & _ & _) & _). apply (fd_ok F S0 _ w o1 p f); try done; [by apply Hsame|by rewrite <-Hj].
Qed.

(** A call with an event for an operation that is not under way fails an
    assertion. *)
Lemma bind_some {S E A B} (m : M S E A) (f : A → M S E B) s r : (m ≫= f) s = Some r → ∃ a s1 l1, m s = Some (a, s1, l1) ∧ is_Some (f a s1).
Proof. unfold mbind, M_bind. destruct (m s) as [[[a s1] l1]|]; [|done]. destruct (f a s1) eqn:E1; [|done]. intros _. exists a, s1, l1. by rewrite E1. Qed.

Lemma fd_handler_expects c ev wr rr w : connection w = Some c → is_Some (connection_fd_handler ev wr rr w) → expected c ev.
Proof.
  intros Hc [r Hr]. unfold connection_fd_handler in Hr. apply bind_some in Hr as (a1 & w1 & l1 & E1 & [r1 Hr]).
  assert (w1 = w) as -> by (revert E1; unfold DebugError_AssertNoError; mrun; destruct (negb (is_set d_err_job w)); [by intros [= _ <- _]|done]).
  apply bind_some in Hr as (c' & w2 & l2 & E2 & [r2 Hr]). assert (c' = c) as -> by (revert E2; unfold load_connection; rewrite Hc; by intros [= -> _ _]).
  do 4 (apply bind_some in Hr as (? & ? & ? & _ & [? Hr])). apply bind_some in Hr as (? & ? & ? & Es & [? Hr]). apply bind_some in Hr as (? & ? & ? & Er & _).
  cbn [send_state recv_state set_wait] in Es, Er. split; intros Hx.
  - rewrite Hx in Er. revert Er. clear. mrun. by case_bool_decide.
  - rewrite Hx in Es. revert Es. clear. mrun. by case_bool_decide.
Qed.
End Runs.
End ConnectionRun.
