(* ===== verification/ConnectionTrace.v ===== *)
(** * Connections: runs and properties

    In any run, whatever the system calls answer, a handler fails an assertion
    exactly if an event is reported for an operation that is not under way, and
    this needs an operation that was completed on an error event alone;
    descriptors are closed once, what the user sees is what is promised, and
    operations are continued. *)

From S2P Require Import Prelude BPending Net Reactor ReactorOk ReactorLoop ReactorRun Connection ConnectionOk ConnectionRun.
Import BTime Reactor ReactorOk ReactorLoop ReactorRun Connection ConnectionOk ConnectionRun.

Module ConnectionTrace.
Implicit Types (o : BReactor) (w : world) (T : Z) (c : BConnection).

Section Traces.
Context `{Layout}.

(** An event, with what came out of the objects and, of a round, what [write] and
    [read] answered. *)
Inductive wevent :=
  | WTick
  | WOther (x : op)
  | WUser (u : uop) (l : list out)
  | WRound (d : dispatched) (wr : wres) (rr : rres) (l : list out).

(** If an error was reported, the user frees the connection before its job
    runs. *)
Inductive wstep : Z → world → wevent → Z → world → Prop :=
  | ws_tick T T' w : T <= T' → wstep T w WTick T' w
  | ws_other T x w a o1 l : allowed (re w) x → foreign x → perform T x (re w) = Some (a, o1, l) → wstep T w (WOther x) T (with_re o1 w)
  | ws_user T u w a w' l : allowed_u w u → perform_u u w = Some (a, w', l) → wstep T w (WUser u l) T w'
  | ws_round T answers w d o1 l0 wr rr g a w' l : answers_ok (po (re w)) (timeout_of (tm (re w))) T answers →
      exec_round T answers (re w) = Some (d, o1, l0) → d ≠ Waiting → d ≠ Job d_err_job → system_ok w wr rr →
      handle d wr rr g (with_re o1 w) = Some (a, w', l) → wstep T w (WRound d wr rr l) (after T d) w'.

Inductive wrun : Z → world → list wevent → Z → world → Prop :=
  | wrun_nil T w : wrun T w [] T w
  | wrun_cons T w e T1 w1 tr T' w' : wstep T w e T1 w1 → wrun T1 w1 tr T' w' → wrun T w (e :: tr) T' w'.

Definition start (S0 : gset Z) : world := mkWorld fresh_reactor None None S0.

Lemma start_ok F S0 T : w_ok F S0 T (start S0).
Proof.
  split; [apply init_ok| | | |done|done|done].
  - split; [done|]. unfold has_limit, jobs. cbn. rewrite lookup_empty. split_and!; try (by intros [? ?]); apply not_elem_of_nil.
  - split; [done|]. apply not_elem_of_nil.
  - cbn. unfold owned_connection, owned_connector. cbn. set_solver.
Qed.

(** What the user sees in an event. *)
Definition event_out (e : wevent) (a : spec) : option spec :=
  match e with WTick | WOther _ => Some a | WUser u l => event_spec u l a | WRound _ wr rr l => outs (wr, rr) a l end.
Fixpoint accepts (a : spec) (tr : list wevent) : option spec := match tr with [] => Some a | e :: tr' => a' ← event_out e a; accepts a' tr' end.

Lemma r_later T T' o : T <= T' → r_ok T o → r_ok T' o.
Proof. intros HT [? ? ? ? Hd]. split; try done. by eapply due_later. Qed.

(** A round in which an operation was completed although its event was not
    reported: a [write] or [read] that was tried because of an error event alone,
    and transferred data or found the end, while its event is awaited further. *)
Definition unreported w (d : dispatched) (l : list out) : Prop :=
  match d with
  | Fd p ev => p = bfd ∧ has ev BREACTOR_HUP = false ∧
      (has ev BREACTOR_WRITE = false ∧ existsb sent l = true ∨ has ev BREACTOR_READ = false ∧ existsb received l = true)
  | Job p => p = recv_job ∧ existsb received l = true ∧ ∃ c, connection w = Some c ∧ is_hupd c = false ∧ has (wait_events c) BREACTOR_READ = true
  | _ => False
  end.
Definition reported w (e : wevent) : Prop := match e with WRound d _ _ l => ¬ unreported w d l | _ => True end.

(** All rounds of a run are of the other kind. *)
Inductive orderly : Z → world → list wevent → Z → world → Prop :=
  | orderly_nil T w : orderly T w [] T w
  | orderly_cons T w e T1 w1 tr T' w' : wstep T w e T1 w1 → reported w e → orderly T1 w1 tr T' w' → orderly T w (e :: tr) T' w'.

Lemma reported_still F w d wr rr l : F → ¬ unreported w d l → still (round_terms F w d wr rr) l.
Proof.
  intros HF Hn. split; [done|]. cbn. split; intros Hl; destruct d as [| p | | p ev | | |]; try done.
  - intros ->. destruct (has ev BREACTOR_WRITE) eqn:E1; [by left|]. destruct (has ev BREACTOR_HUP) eqn:E2; [by right|]. destruct Hn. cbn. auto.
  - intros -> c Hc Hh. destruct (has (wait_events c) BREACTOR_READ) eqn:E; [|done]. destruct Hn. cbn. eauto 6.
  - intros ->. destruct (has ev BREACTOR_READ) eqn:E1; [by left|]. destruct (has ev BREACTOR_HUP) eqn:E2; [by right|]. destruct Hn. cbn. auto.
Qed.

Lemma handle_expects d wr rr g w o1 : is_Some (handle d wr rr g (with_re o1 w)) → no_stray w d.
Proof.
  intros Hs c Hc. destruct d as [| | | p ev | | |]; try done. intros ->. cbn in Hs. rewrite bool_decide_true in Hs by done.
  by apply (fd_handler_expects c ev wr rr (with_re o1 w)).
Qed.

Lemma wstep_ok F S0 T w e T' w' : w_ok F S0 T w → wstep T w e T' w' → w_ok (F ∧ reported w e) S0 T' w' ∧ event_out e (abs_w w) = Some (abs_w w').
Proof.
  intros W Hs. destruct Hs as [T T' w HT | T x w a o1 l Ha Hf E | T u w a w' l Ha E | T answers w d o1 l0 wr rr g a w' l Ha E Hd He Hsys Eh].
  - split; [|done]. apply (w_weak F); [|by intros [? _]]. destruct W. split; try done. by eapply r_later.
  - split; [|done]. destruct (runs_result _ _ _ _ _ _ (perform_only T x (re w) (w_re _ _ _ _ W) Ha) E) as [Hr Ho].
    apply (w_weak F); [|by intros [? _]]. apply (same_ok F S0 T T w o1 W Hr). by eapply foreign_same.
  - destruct (runs_result _ _ _ _ _ _ (user_runs F S0 T w u W Ha) E) as [W' Hev]. split; [|done]. apply (w_weak F); [done|by intros [? _]].
  - assert (Hst : no_stray w d) by (apply (handle_expects d wr rr g w o1); by rewrite Eh).
    destruct (runs_result _ _ _ _ _ _ (handle_runs F S0 T answers w d o1 l0 wr rr g W Ha E He Hst Hsys) Eh) as [W' Hev]. split; [|done].
    apply (w_weak _ _ _ _ _ W'). intros [HF Hn]. by apply reported_still.
Qed.

Lemma wrun_ok F S0 T w tr T' w' : w_ok F S0 T w → wrun T w tr T' w' → w_ok False S0 T' w' ∧ accepts (abs_w w) tr = Some (abs_w w').
Proof.
  intros W Hr. revert F W. induction Hr as [T w | T w e T1 w1 tr T' w' Hs _ IH]; intros F W; [split; [by apply (w_weak _ _ _ _ _ W)|done]|].
  destruct (wstep_ok _ _ _ _ _ _ _ W Hs) as [W1 E]. destruct (IH _ W1) as [W' E']. split; [done|]. cbn. by rewrite E.
Qed.

Lemma orderly_ok S0 T w tr T' w' : w_ok True S0 T w → orderly T w tr T' w' → w_ok True S0 T' w'.
Proof.
  intros W Hr. revert W. induction Hr as [T w | T w e T1 w1 tr T' w' Hs He _ IH]; intros W; [done|].
  destruct (wstep_ok _ _ _ _ _ _ _ W Hs) as [W1 _]. apply IH. by apply (w_weak _ _ _ _ _ W1).
Qed.

(** While every awaited event belongs to an operation, no event strays. *)
Lemma fresh_no_stray S0 T answers w d o1 l : w_ok True S0 T w → answers_ok (po (re w)) (timeout_of (tm (re w))) T answers →
  exec_round T answers (re w) = Some (d, o1, l) → no_stray w d.
Proof.
  intros W Ha E c Hc. destruct d as [| | | p ev | | |]; try done. intros ->.
  pose proof (runs_result _ _ _ _ _ _ (round_runs T answers (re w) (w_re _ _ _ _ W) Ha) E) as [_ Hs].
  destruct Hs as (_ & _ & _ & _ & (f & e & Hf & Hfa & _ & Hrep) & _). pose proof (w_connection _ _ _ _ W) as W2. unfold connection_there in W2. rewrite Hc in W2.
  destruct W2 as [[Hb _] _]. pose proof (c_view _ _ _ _ Hb) as Hv.
  assert (Hview : cv w = Some (fd f, true, waitEvents f)) by (unfold cv, fdv, view; rewrite Hf; cbn; by rewrite Hfa). rewrite Hview in Hv.
  destruct (is_hupd c) eqn:Hh; [by destruct (Hv (fd f) (waitEvents f))|]. injection Hv as _ Ew. destruct (report_awaited _ _ _ Hrep) as [R1 R2]. rewrite Ew in R1, R2.
  split; intros Hx; [by apply (c_read _ _ _ _ Hb I Hh), R1|by apply (c_write _ _ _ _ Hb I Hh), R2].
Qed.

(** ** Properties *)

(** C12: A connector and a connection in the event loop, among other objects that
    do anything, used as their header asks, whatever the system calls answer (a
    [write] at least one byte and not more than given, a [read] not more than
    there is room for): no call of the user fails an assertion or uses an object
    that is gone, and a handler that the loop calls fails one exactly if the loop
    reports to the connection an event for reading or writing while no such
    operation is under way.  That does not happen in a run in which no operation
    was completed because of an error event alone, while its own event was not
    reported.  Descriptors are closed exactly by their owner: one that is not open
    is never closed, those of others stay open, and when the objects are freed all
    that they opened is closed. *)
Theorem socket_safe S0 T0 tr T w :
  wrun T0 (start S0) tr T w →
  (∀ u, allowed_u w u → is_Some (perform_u u w)) ∧
  (∀ answers d o1 l wr rr g, answers_ok (po (re w)) (timeout_of (tm (re w))) T answers → exec_round T answers (re w) = Some (d, o1, l) →
     d ≠ Job d_err_job → system_ok w wr rr →
     (is_Some (handle d wr rr g (with_re o1 w)) ↔ no_stray w d) ∧ (orderly T0 (start S0) tr T w → no_stray w d)) ∧
  S0 ⊆ open_fds w ∧ (connector w = None → connection w = None → open_fds w = S0).
Proof.
  intros Hr. destruct (wrun_ok True S0 T0 _ _ _ _ (start_ok True S0 T0) Hr) as [W _]. split_and!.
  - intros u Ha. destruct (runs_inv _ _ _ (user_runs False S0 T w u W Ha)) as (? & ? & ? & -> & _). done.
  - intros answers d o1 l wr rr g Ha E Hd Hs. split; [split; [apply handle_expects|]|].
    + intros Hn. destruct (runs_inv _ _ _ (handle_runs False S0 T answers w d o1 l wr rr g W Ha E Hd Hn Hs)) as (? & ? & ? & -> & _). done.
    + intros Ho. pose proof (orderly_ok S0 _ _ _ _ _ (start_ok True S0 T0) Ho) as W'. by eapply (fresh_no_stray S0 T).
  - rewrite (w_open _ _ _ _ W). set_solver.
  - intros E1 E2. rewrite (w_open _ _ _ _ W). unfold owned_connection, owned_connector. rewrite E1, E2. set_solver.
Qed.

(** C13: What comes out of a connection is what its interfaces promise: a send is
    completed at most once, with the number of bytes that [write] took, which
    are a beginning of its data and at least one; a receive is completed at most
    once, by exactly the bytes that [read] returned, at least one and not more
    than there is room for, or by the end of the stream when [read] returned
    none; nothing comes out for an operation that was given up, or was not asked
    for. *)
Theorem socket_spec S0 T0 tr T w : wrun T0 (start S0) tr T w → accepts (SIdle, None) tr = Some (abs_w w).
Proof. intros Hr. apply (wrun_ok True S0 T0 _ _ _ _ (start_ok True S0 T0) Hr). Qed.

(** C25: No operation is forgotten.  While no error was reported, a send that is
    under way waits for the descriptor to become writable, and a receive for it
    to become readable or has its job set; the event loop knows the object with
    these events.  A connector that is registered waits to become writable. *)
Theorem socket_driven S0 T0 tr T w :
  wrun T0 (start S0) tr T w →
  (∀ c, connection w = Some c → d_err_job ∉ jobs w →
     (send_state c = SEND_STATE_BUSY → fdv (re w) bfd = Some (conn_fd c, true, wait_events c) ∧ has (wait_events c) BREACTOR_WRITE = true) ∧
     (recv_state c = RECV_STATE_BUSY → recv_job ∈ jobs w ∨
        fdv (re w) bfd = Some (conn_fd c, true, wait_events c) ∧ has (wait_events c) BREACTOR_READ = true)) ∧
  (∀ k, connector w = Some k → have_bfd k = true → fdv (re w) connector_bfd = Some (connector_fd k, true, BREACTOR_WRITE)).
Proof.
  intros Hr. destruct (wrun_ok True S0 T0 _ _ _ _ (start_ok True S0 T0) Hr) as [[_ W2 W3 _ _ _ _] _]. split.
  - intros c Hc Hn. unfold connection_there in W2. rewrite Hc in W2. destruct W2 as [(Hb & Ds & Dr) _]. pose proof (c_view _ _ _ _ Hb) as Hv. split; intros Hx.
    + destruct (Ds Hn Hx) as [Hh Hw]. by rewrite Hh in Hv.
    + destruct (Dr Hn Hx) as [?|[Hh Hw]]; [by left|]. rewrite Hh in Hv. by right.
  - intros k Hk Hb. unfold connector_there in W3. rewrite Hk in W3. destruct W3 as [_ K2 _]. rewrite Hb in K2. by destruct K2.
Qed.

(** ** Witnesses *)
Definition did_u (u : uop) w : world := match perform_u u w with Some (_, w', _) => w' | None => w end.
Definition did_r T answers wr rr g w : option (dispatched * world * list out) :=
  match exec_round T answers (re w) with
  | Some (d, o1, _) => match handle d wr rr g (with_re o1 w) with Some (_, w', l) => Some (d, w', l) | None => None end
  | None => None
  end.
Definition then_r T answers wr rr g w : world := match did_r T answers wr rr g w with Some (_, w', _) => w' | None => w end.

Lemma wrun_app T w tr T1 w1 tr' T' w' : wrun T w tr T1 w1 → wrun T1 w1 tr' T' w' → wrun T w (tr ++ tr') T' w'.
Proof. induction 1; [done|]. intros Hr. eapply wrun_cons; eauto. Qed.
Lemma wrun_user T u w l tr T' w' : perform_u u w = Some (tt, did_u u w, l) → allowed_u w u → wrun T (did_u u w) tr T' w' → wrun T w (WUser u l :: tr) T' w'.
Proof. intros E Ha Hr. eapply wrun_cons; [by eapply ws_user|done]. Qed.
Lemma wrun_round T answers wr rr g d l w tr T' w' : answers_ok (po (re w)) (timeout_of (tm (re w))) T answers → did_r T answers wr rr g w = Some (d, then_r T answers wr rr g w, l) →
  d ≠ Waiting → d ≠ Job d_err_job → system_ok w wr rr → wrun (after T d) (then_r T answers wr rr g w) tr T' w' → wrun T w (WRound d wr rr l :: tr) T' w'.
Proof.
  intros Ha. set (w1 := then_r T answers wr rr g w). unfold did_r. destruct (exec_round T answers (re w)) as [[[d' o1] l0]|] eqn:E1; [|done].
  destruct (handle d' wr rr g (with_re o1 w)) as [[[a w2] l2]|] eqn:E2; [|done]. intros [= -> -> ->] Hd He Hs Hr. eapply wrun_cons; [|exact Hr]. by eapply ws_round.
Qed.
Lemma no_answer w : system_ok w WAgain RAgain.
Proof. intros c _. split; [by intros n|by intros d]. Qed.
Lemma wrun_orderly T w tr T' w' : wrun T w tr T' w' → Forall (λ e, ∀ w1, reported w1 e) tr → orderly T w tr T' w'.
Proof. induction 1 as [|T w e T1 w1 tr T' w' Hs _ IH]; [intros _; constructor|]. intros [He Htr]%Forall_cons. econstructor; [exact Hs|apply He|by apply IH]. Qed.
End Traces.

#[local] Instance demo : Layout.
Proof. refine (Build_Layout 1 2 1 2 1 2 3 4 _ _ _); [done|done|by apply (bool_decide_unpack _)]. Defined.

(** Connected at the time 1, some bytes sent, and received at the time 2. *)
Definition returned (p : ptr) (e : Z) (clock : Z) : list (answer * Z) := [(Returned [(p, e)], clock)].
Definition connect : uop := UConnect (BAddr_MakeIPv4 1 2) (Some 7) true InProgress true.
Definition connecting : world := then_r 0 (returned 2 EPOLLOUT 1) WAgain RAgain None (did_u connect (start ∅)).
Definition told : world := then_r 1 [] WAgain RAgain (Some 0) connecting.
Definition ready : world := did_u USendInit (did_u URecvInit (did_u UConnectorFree (did_u (UInit FromConnector true true) told))).
Definition busy : world := did_u (URecv 10 RAgain) (did_u (USend [1; 2; 3] (Wrote 2)) ready).
Definition readable : world := then_r 1 (returned 1 EPOLLIN 2) WAgain RAgain None busy.
Definition got : world := then_r 2 [] WAgain (Got [5]) None readable.

Definition busy_trace : list wevent :=
  [WUser connect []; WRound (Waited 1) WAgain RAgain []; WRound (Fd 2 BREACTOR_WRITE) WAgain RAgain [ConnectorDone false]; WUser (UInit FromConnector true true) []; WUser UConnectorFree [];
   WUser URecvInit []; WUser USendInit []; WUser (USend [1; 2; 3] (Wrote 2)) [Written [1; 2]; SendDone 2]; WUser (URecv 10 RAgain) []].

Lemma returned_ok w T p e clock n : T <= clock → interest (po (re w)) !! n = Some (p, e) → ∀ e', answers_ok (po (re w)) (timeout_of (tm (re w))) T (returned p e' clock).
Proof.
  intros HT Hi e'. cbn. split_and!; [done| |done|done]. unfold events_ok. split_and!; [apply NoDup_singleton| |done].
  intros q x [[= -> ->]|?%not_elem_of_nil]%elem_of_cons; [eauto|done].
Qed.

Lemma busy_run : wrun 0 (start ∅) busy_trace 1 busy.
Proof.
  unfold busy_trace, busy, ready, told, connecting.
  apply (wrun_user 0 connect); [by vm_compute|split; [done|]; intros n [= <-]; split; [done|apply not_elem_of_empty]|].
  apply (wrun_round 0 (returned 2 EPOLLOUT 1) WAgain RAgain None); [by apply (returned_ok _ 0 2 EPOLLOUT 1 7)|by vm_compute|done|done|done|].
  apply (wrun_round 1 [] WAgain RAgain (Some 0)); [done|by vm_compute|done|done|done|].
  apply (wrun_user 1 (UInit FromConnector true true)); [by vm_compute|vm_compute; split_and!; [done|by eexists|by inversion 1]|].
  apply (wrun_user 1 UConnectorFree); [by vm_compute|vm_compute; by eexists|].
  apply (wrun_user 1 URecvInit); [by vm_compute|vm_compute; split; [by inversion 1|by eexists]|].
  apply (wrun_user 1 USendInit); [by vm_compute|vm_compute; split; [by inversion 1|by eexists]|].
  apply (wrun_user 1 (USend [1; 2; 3] (Wrote 2))); [by vm_compute|vm_compute; split; [by inversion 1|eexists; split_and!; [done|done|done|by intros n [= <-]]]|].
  apply (wrun_user 1 (URecv 10 RAgain)); [by vm_compute|vm_compute; split; [by inversion 1|eexists; split_and!; [done|done|done|by intros n]]|constructor].
Qed.

Definition readable_trace : list wevent := busy_trace ++ [WRound (Waited 2) WAgain RAgain []].
Definition readable_connection : BConnection := mkConnection 7 true false 1 [1; 2; 3] SEND_STATE_READY 10 RECV_STATE_BUSY.

Lemma readable_run : wrun 0 (start ∅) readable_trace 2 readable.
Proof.
  eapply wrun_app; [exact busy_run|]. unfold readable. assert (Hi : interest (po (re busy)) !! 7 = Some (1%positive, EPOLLIN)) by by vm_compute.
  apply (wrun_round 1 (returned 1 EPOLLIN 2) WAgain RAgain None); [exact (returned_ok busy 1 1 EPOLLIN 2 7 ltac:(done) Hi EPOLLIN)|by vm_compute|done|done|apply no_answer|].
  apply wrun_nil.
Qed.

Lemma readable_orderly : orderly 0 (start ∅) readable_trace 2 readable.
Proof.
  apply (wrun_orderly _ _ _ _ _ readable_run). unfold readable_trace, busy_trace. cbn [app].
  repeat (apply Forall_cons; split; [intros w'; cbn; first [exact I|by intros []|by intros (E & _)]|]). by apply Forall_nil.
Qed.

Lemma readable_system : system_ok readable WAgain (Got [5]).
Proof.
  assert (E : connection readable = Some readable_connection) by by vm_compute.
  intros c Hc. rewrite E in Hc. injection Hc as <-. split; [by intros n|by intros d [= <-]].
Qed.

Lemma got_run : wrun 0 (start ∅) (readable_trace ++ [WRound (Fd 1 BREACTOR_READ) WAgain (Got [5]) [RecvDone [5]]]) 2 got.
Proof.
  eapply wrun_app; [exact readable_run|]. unfold got.
  apply (wrun_round 2 [] WAgain (Got [5]) None); [done|by vm_compute|done|done|exact readable_system|apply wrun_nil].
Qed.

Definition polled : BReactor := match exec_round 2 [] (re readable) with Some (_, o1, _) => o1 | None => re readable end.

Lemma socket_safe_witness : is_Some (perform_u URecvFree readable) ∧ is_Some (handle (Fd 1 BREACTOR_READ) WAgain (Got [5]) None (with_re polled readable)).
Proof.
  destruct (socket_safe ∅ 0 _ 2 readable readable_run) as (Hu & Hr & _). split.
  - apply Hu. exists readable_connection. split; [by vm_compute|done].
  - assert (E : exec_round 2 [] (re readable) = Some (Fd 1 BREACTOR_READ, polled, [])) by by vm_compute.
    destruct (Hr [] _ _ _ WAgain (Got [5]) None I E) as [Hiff Ho]; [done|exact readable_system|]. apply Hiff, Ho, readable_orderly.
Defined.

Lemma socket_spec_witness : accepts (SIdle, None) (readable_trace ++ [WRound (Fd 1 BREACTOR_READ) WAgain (Got [5]) [RecvDone [5]]]) = Some (abs_w got) ∧ abs_w got = (SIdle, None).
Proof. split; [exact (socket_spec ∅ 0 _ 2 got got_run)|by vm_compute]. Defined.

Lemma socket_driven_witness : abs_w busy = (SIdle, Some 10) ∧ fdv (re busy) bfd = Some (7, true, BREACTOR_READ).
Proof.
  destruct (socket_driven ∅ 0 _ 1 busy busy_run) as [Hd _]. split; [by vm_compute|].
  assert (E : connection busy = Some (mkConnection 7 true false 1 [1; 2; 3] SEND_STATE_READY 10 RECV_STATE_BUSY)) by by vm_compute.
  assert (Ej : jobs busy = []) by by vm_compute.
  destruct (Hd _ E) as [_ Hr]; [rewrite Ej; apply not_elem_of_nil|]. destruct (Hr eq_refl) as [Hj|[Hv _]]; [|exact Hv]. rewrite Ej in Hj. by apply not_elem_of_nil in Hj.
Defined.

(** The exception is real: an error event does not end the wait for reading.  If
    the [read] that it causes delivers data all the same, the next event for
    reading finds no operation, and the assertion of the handler fails. *)
Definition failed : world := then_r 1 (returned 1 EPOLLERR 2) WAgain RAgain None busy.
Definition misread : world := then_r 2 [] WAgain (Got [5]) None failed.

Lemma error_event_stale : (λ x, (x.1.1, x.2)) <$> did_r 2 [] WAgain (Got [5]) None failed = Some (Fd 1 BREACTOR_ERROR, [RecvDone [5]]) ∧
  did_r 3 [] WAgain RAgain None (then_r 2 (returned 1 EPOLLIN 3) WAgain RAgain None misread) = None.
Proof. split; by vm_compute. Qed.
End ConnectionTrace.
