(* ===== verification/AddrText.v ===== *)
(** * Numbers and addresses as text ([misc/parse_number.h], [misc/ipaddr.h],
      [misc/ipaddr6.h])

    With these functions the program reads its arguments.  Text is a list of
    characters, with its length; a function that reads a character by its index
    fails, as a bad access, if there is none. *)

From S2P Require Import Prelude Net.

(** ** [misc/parse_number.h] *)
Module ParseNumber.
Definition UINTMAX_MAX : Z := 18446744073709551615.
Definition parse_number__uintmax_max_str : list Z := [49; 56; 52; 52; 54; 55; 52; 52; 48; 55; 51; 55; 48; 57; 53; 53; 49; 54; 49; 53].

Definition decode_decimal_digit (c : Z) : Z := if (48 <=? c) && (c <=? 57) then c - 48 else -1.
Definition decode_hex_digit (c : Z) : Z :=
  if (48 <=? c) && (c <=? 57) then c - 48
  else if (65 <=? c) && (c <=? 70) then c - 55
  else if (97 <=? c) && (c <=? 102) then c - 87
  else -1.

Fixpoint no_overflow_loop (str : list Z) (n : Z) : option Z :=
  match str with
  | [] => Some n
  | c :: str' => if (c <? 48) || (c >? 57) then None else no_overflow_loop str' (u64 (10 * n + (c - 48)))
  end.
Definition parse__no_overflow (str : list Z) : option Z := no_overflow_loop str 0.

Fixpoint remove_zeros (str : list Z) : list Z :=
  match str with
  | c :: str' => if c =? 48 then remove_zeros str' else str
  | [] => []
  end.

Definition parse_unsigned_integer_bin (str : list Z) : option Z :=
  if zlen str =? 0 then None
  else
    let str := remove_zeros str in
    let max := parse_number__uintmax_max_str in
    if (zlen str >? zlen max) || (zlen str =? zlen max) && (memcmp str max >? 0) then None
    else parse__no_overflow str.

Fixpoint hex_loop (str : list Z) (n : Z) : option Z :=
  match str with
  | [] => Some n
  | c :: str' =>
      let digit := decode_hex_digit c in
      if digit <? 0 then None
      else if n >? UINTMAX_MAX / 16 then None
      else
        let n := n * 16 in
        if digit >? UINTMAX_MAX - n then None else hex_loop str' (n + digit)
  end.
Definition parse_unsigned_hex_integer_bin (str : list Z) : option Z := if zlen str =? 0 then None else hex_loop str 0.

Definition parse_signmag_integer_bin (str : list Z) : option (Z * Z) :=
  let '(sign, str) := match str with
    | c :: str' => if (c =? 43) || (c =? 45) then (1 - 2 * Z.b2z (c =? 45), str') else (1, str)
    | [] => (1, str)
    end in
  mag ← parse_unsigned_integer_bin str;
  Some (sign, mag).

(** [fuel]: the digits of the largest number. *)
Fixpoint repr_size (fuel : nat) (x size : Z) : Z :=
  match fuel with
  | O => size
  | S fuel' => let size := size + 1 in let x := x / 10 in if x >? 0 then repr_size fuel' x size else size
  end.
Definition compute_decimal_repr_size (x : Z) : Z := repr_size 20 x 0.

(** [pos]: where [out] points; [None]: a character before the buffer is written. *)
Fixpoint generate_loop (fuel : nat) (x pos : Z) (out : list Z) : option (list Z) :=
  match fuel with
  | O => None
  | S fuel' =>
      let pos := pos - 1 in
      if (pos <? 0) || (zlen out <=? pos) then None
      else
        let out := <[Z.to_nat pos := 48 + x mod 10]> out in
        let x := x / 10 in
        if x >? 0 then generate_loop fuel' x pos out else Some out
  end.
Definition generate_decimal_repr (x : Z) (out : list Z) (size : Z) : option (list Z) :=
  if size =? compute_decimal_repr_size x then generate_loop 20 x size out else None.
Definition generate_decimal_repr_string (x : Z) (out : list Z) : option (list Z * Z) :=
  let size := compute_decimal_repr_size x in
  out ← generate_decimal_repr x out size;
  if zlen out <=? size then None else Some (<[Z.to_nat size := 0]> out, size).
End ParseNumber.

(** ** [misc/ipaddr.h] *)
Module IpAddr.
Import ParseNumber.
Definition IPADDR_PRINT_MAX : Z := 19.

(** Where the first such character is, or the end. *)
Fixpoint char_pos (c : Z) (str : list Z) : nat :=
  match str with
  | x :: str' => if x =? c then O else S (char_pos c str')
  | [] => O
  end.

(** [i]: the byte that is read; [k]: the bytes after it. *)
Fixpoint ipv4_loop (k : nat) (name : list Z) (out : list Z) : option (list Z) :=
  let j := Z.of_nat (char_pos 46 name) in
  let last := Nat.eqb k 0 in
  if (j =? zlen name) && negb last || (j <? zlen name) && last then None
  else if (j <? 1) || (j >? 3) then None
  else
    d ← parse_unsigned_integer_bin (take (Z.to_nat j) name);
    if d >? 255 then None
    else
      match k with
      | O => Some (out ++ [d])
      | S k' => ipv4_loop k' (drop (Z.to_nat j + 1) name) (out ++ [d])
      end.
Definition ipaddr_parse_ipv4_addr_bin (name : list Z) : option Z := of_le <$> ipv4_loop 3 name [].

Definition ipaddr_parse_ipv4_prefix_bin (str : list Z) : option Z :=
  d ← parse_unsigned_integer_bin str;
  if d >? 32 then None else Some d.

Definition b_find_char_bin (str : list Z) (c : Z) : option nat :=
  let pos := char_pos c str in if Nat.ltb pos (length str) then Some pos else None.

Definition ipaddr_parse_ipv4_ifaddr_bin (str : list Z) : option (Z * Z) :=
  slash_pos ← b_find_char_bin str 47;
  a ← ipaddr_parse_ipv4_addr_bin (take slash_pos str);
  prefix ← ipaddr_parse_ipv4_prefix_bin (drop (slash_pos + 1) str);
  Some (a, prefix).

(** The code shifts the [int] 1; for [i = 0] the bit is the sign (which C does
    not define, and the compilers in use keep as it is), and the [|=] into [t]
    takes it as the highest bit of 32. *)
Fixpoint mask_loop (n : nat) (i t : Z) : Z :=
  match n with
  | O => t
  | S n' => mask_loop n' (i + 1) (Z.lor t (u32 (Z.shiftl 1 (32 - i - 1))))
  end.
Definition ipaddr_ipv4_mask_from_prefix (prefix : Z) : option Z :=
  if (prefix >=? 0) && (prefix <=? 32) then Some (hton32 (mask_loop (Z.to_nat prefix) 0 0)) else None.

(** [k]: the rounds that are left. *)
Fixpoint prefix_loop (k : nat) (mask i t : Z) : option Z :=
  match k with
  | O => None
  | S k' =>
      if ntoh32 mask =? t then Some i
      else prefix_loop k' mask (i + 1) (if i <? 32 then Z.lor t (u32 (Z.shiftl 1 (32 - i - 1))) else t)
  end.
Definition ipaddr_ipv4_prefix_from_mask (mask : Z) : option Z := prefix_loop 33 mask 0 0.

Definition ipaddr_ipv4_ifaddr_from_addr_mask (a mask : Z) : option (Z * Z) :=
  prefix ← ipaddr_ipv4_prefix_from_mask mask;
  Some (a, prefix).

Definition ipaddr_ipv4_addrs_in_network (addr1 addr2 netprefix : Z) : option bool :=
  mask ← ipaddr_ipv4_mask_from_prefix netprefix;
  Some (Z.land addr1 mask =? Z.land addr2 mask).

(** What [sprintf] prints of a number in a base. *)
Fixpoint digits (fuel : nat) (base x : Z) : list Z :=
  match fuel with
  | O => []
  | S fuel' => (if x <? base then [] else digits fuel' base (x / base)) ++ [let d := x mod base in if d <? 10 then 48 + d else 87 + d]
  end.
Definition decimal (x : Z) : list Z := digits 20 10 x.
Definition hex (x : Z) : list Z := digits 16 16 x.

Definition print_bytes (b : list Z) : list Z :=
  match b with
  | [b0; b1; b2; b3] => decimal b0 ++ [46] ++ decimal b1 ++ [46] ++ decimal b2 ++ [46] ++ decimal b3
  | _ => []
  end.
Definition ipaddr_print_addr (a : Z) : list Z := print_bytes (le_bytes 4 a).
Definition ipaddr_print_ifaddr (a prefix : Z) : option (list Z) :=
  if (prefix >=? 0) && (prefix <=? 32) then Some (print_bytes (le_bytes 4 a) ++ [47] ++ decimal prefix) else None.
End IpAddr.

(** ** [misc/ipaddr6.h] *)
Module IpAddr6.
Import ParseNumber IpAddr.
Definition IPADDR6_PRINT_MAX : Z := 44.

(** [None]: a bad access; [Some None]: the text is refused. *)
Definition P (A : Type) : Type := option (option A).
#[export] Instance P_ret : MRet P := λ A a, Some (Some a).
#[export] Instance P_bind : MBind P := λ A B k m,
  match m with None => None | Some None => Some None | Some (Some a) => k a end.
Definition refuse {A} : P A := Some None.
Definition bad {A} : P A := None.

Definition char_at (name : list Z) (i : Z) : P Z :=
  if i <? 0 then bad else match name !! Z.to_nat i with Some c => mret c | None => bad end.

(** The state of the parser; [addr6]: the 16 bytes of the result. *)
Record st := mkSt { num_blocks : Z; compress_pos : Z; block : Z; empty : bool; addr6 : list Z }.

Definition put_block (s : st) : P (list Z) :=
  let n := num_blocks s in
  if (n <? 0) || (zlen (addr6 s) <=? 2 * n + 1) then bad
  else mret (<[Z.to_nat (2 * n + 1) := Z.land (block s) 255]> (<[Z.to_nat (2 * n) := Z.shiftr (block s) 8]> (addr6 s))).

Definition colon (i : Z) (is_double : bool) (s : st) : P st :=
  s ← (if i >? 0 then
         if empty s || (num_blocks s =? 7) then refuse
         else b ← put_block s; mret (mkSt (num_blocks s + 1) (compress_pos s) 0 true b)
       else if negb is_double then refuse
       else mret s);
  if is_double then
    if negb (compress_pos s =? -1) then refuse
    else mret (mkSt (num_blocks s) (num_blocks s) (block s) (empty s) (addr6 s))
  else mret s.

Definition hex_digit (c : Z) (s : st) : P st :=
  let digit := decode_hex_digit c in
  if digit <? 0 then refuse
  else if block s >? 65535 / 16 then refuse
  else
    let b := block s * 16 in
    if digit >? 65535 - b then refuse
    else mret (mkSt (num_blocks s) (compress_pos s) (b + digit) false (addr6 s)).

(** The loop ends at the end of the text, or at a [.]: its index. *)
Fixpoint blocks_loop (fuel : nat) (name : list Z) (i : Z) (s : st) : P (option Z * st) :=
  match fuel with
  | O => bad
  | S fuel' =>
      if i <? zlen name then
        c ← char_at name i;
        if c =? 46 then mret (Some i, s)
        else if c =? 58 then
          is_double ← (if i + 1 <? zlen name then c1 ← char_at name (i + 1); mret (c1 =? 58) else mret false);
          s ← colon i is_double s;
          blocks_loop fuel' name (i + 1 + Z.b2z is_double) s
        else
          s ← hex_digit c s;
          blocks_loop fuel' name (i + 1) s
      else mret (None, s)
  end.

Definition last_block (s : st) : P st :=
  if negb (empty s) then
    b ← put_block s;
    mret (mkSt (num_blocks s + 1) (compress_pos s) (block s) (empty s) b)
  else if negb (num_blocks s =? compress_pos s) then refuse
  else mret s.

(** [memmove] and [memset] in the result. *)
Definition move (dst src n : Z) (b : list Z) : P (list Z) :=
  if (dst <? 0) || (src <? 0) || (n <? 0) || (zlen b <? dst + n) || (zlen b <? src + n) then bad else mret (blit dst (slice src n b) b).
Definition fill (v dst n : Z) (b : list Z) : P (list Z) :=
  if (dst <? 0) || (n <? 0) || (zlen b <? dst + n) then bad else mret (blit dst (replicate (Z.to_nat n) v) b).

Definition finish (s : st) : P (list Z) :=
  s ← (if compress_pos s =? -1 then
         if negb (num_blocks s =? 8) then refuse else mret (mkSt (num_blocks s) 0 (block s) (empty s) (addr6 s))
       else mret s);
  let num_rear := num_blocks s - compress_pos s in
  b ← move (2 * (8 - num_rear)) (2 * compress_pos s) (2 * num_rear) (addr6 s);
  fill 0 (2 * compress_pos s) (2 * (8 - num_rear - compress_pos s)) b.

(** Back to the character after the last [:]. *)
Fixpoint back_loop (fuel : nat) (name : list Z) (i : Z) : P Z :=
  match fuel with
  | O => bad
  | S fuel' => c ← char_at name (i - 1); if c =? 58 then mret i else back_loop fuel' name (i - 1)
  end.

(** The four decimal numbers at the end: the bytes before the current one,
    the current one, and whether it has no digit yet. *)
Fixpoint ipv4_ending_loop (str : list Z) (bytes : list Z) (byte : Z) (empty : bool) : P (list Z) :=
  match str with
  | [] => if negb (zlen bytes =? 3) || empty then refuse else mret (bytes ++ [byte])
  | c :: str' =>
      if c =? 46 then
        if empty || (zlen bytes =? 3) then refuse else ipv4_ending_loop str' (bytes ++ [byte]) 0 true
      else if negb empty && (byte =? 0) then refuse
      else
        let digit := decode_decimal_digit c in
        if digit <? 0 then refuse
        else if byte >? 255 / 10 then refuse
        else
          let byte := byte * 10 in
          if digit >? 255 - byte then refuse else ipv4_ending_loop str' bytes (byte + digit) false
  end.

Definition ipv4_ending (name : list Z) (i : Z) (s : st) : P st :=
  if empty s || (num_blocks s =? 0) && (compress_pos s =? -1) then refuse
  else
    i ← back_loop (S (length name)) name i;
    b ← ipv4_ending_loop (drop (Z.to_nat i) name) [] 0 true;
    if 8 - num_blocks s <? 2 then refuse
    else if (num_blocks s <? 0) || (zlen (addr6 s) <? 2 * num_blocks s + 4) then bad
    else mret (mkSt (num_blocks s + 2) (compress_pos s) (block s) (empty s) (blit (2 * num_blocks s) b (addr6 s))).

(** [out]: what is in [out_addr] before. *)
Definition ipaddr6_parse_ipv6_addr_bin (name out : list Z) : P (list Z) :=
  '(stop, s) ← blocks_loop (S (length name)) name 0 (mkSt 0 (-1) 0 true out);
  match stop with
  | None => s ← last_block s; finish s
  | Some i => s ← ipv4_ending name i s; finish s
  end.

Definition ipaddr6_parse_ipv6_prefix_bin (str : list Z) : option Z :=
  d ← parse_unsigned_integer_bin str;
  if d >? 128 then None else Some d.

Definition ipaddr6_parse_ipv6_ifaddr_bin (str out : list Z) : P (list Z * Z) :=
  match b_find_char_bin str 47 with
  | None => refuse
  | Some slash_pos =>
      a ← ipaddr6_parse_ipv6_addr_bin (take slash_pos str) out;
      match ipaddr6_parse_ipv6_prefix_bin (drop (slash_pos + 1) str) with Some prefix => mret (a, prefix) | None => refuse end
  end.

(** Masks of networks; [out]: what is in [out_mask] before. *)
Fixpoint mask6_loop (n : nat) (i t : Z) : Z :=
  match n with
  | O => t
  | S n' => mask6_loop n' (i + 1) (Z.lor t (u8 (Z.shiftl 1 (8 - i - 1))))
  end.
Definition ipaddr6_ipv6_mask_from_prefix (prefix : Z) (out : list Z) : P (list Z) :=
  if (prefix <? 0) || (prefix >? 128) then bad
  else
    let quot := prefix / 8 in
    let rem := prefix mod 8 in
    out ← (if quot >? 0 then fill 255 0 quot out else mret out);
    out ← (if 16 - quot >? 0 then fill 0 quot (16 - quot) out else mret out);
    if rem =? 0 then mret out
    else b ← char_at out quot; mret (<[Z.to_nat quot := mask6_loop (Z.to_nat rem) 0 b]> out).

(** The number of the bits that are set in the first byte that has not all. *)
Fixpoint bits_loop (k : nat) (byte j t : Z) : option Z :=
  match k with
  | O => None
  | S k' =>
      if byte =? t then Some j
      else bits_loop k' byte (j + 1) (if j <? 8 then Z.lor t (u8 (Z.shiftl 1 (8 - j - 1))) else t)
  end.
Fixpoint full_loop (mask : list Z) (prefix : Z) : option Z :=
  match mask with
  | [] => Some prefix
  | b :: mask' =>
      if b =? 255 then full_loop mask' (prefix + 8)
      else
        j ← bits_loop 9 b 0 0;
        if forallb (λ b, b =? 0) mask' then Some (prefix + j) else None
  end.
Definition ipaddr6_ipv6_prefix_from_mask (mask : list Z) : option Z := full_loop mask 0.

Definition ipaddr6_ipv6_ifaddr_from_addr_mask (addr mask : list Z) : option (list Z * Z) :=
  prefix ← ipaddr6_ipv6_prefix_from_mask mask;
  Some (addr, prefix).

Definition ipaddr6_ipv6_addrs_in_network (addr1 addr2 : list Z) (netprefix : Z) : P bool :=
  if (netprefix <? 0) || (netprefix >? 128) then bad
  else
    let quot := netprefix / 8 in
    let rem := netprefix mod 8 in
    if negb (memcmp (take (Z.to_nat quot) addr1) (take (Z.to_nat quot) addr2) =? 0) then mret false
    else if rem =? 0 then mret true
    else
      let t := mask6_loop (Z.to_nat rem) 0 0 in
      b1 ← char_at addr1 quot;
      b2 ← char_at addr2 quot;
      mret (Z.land b1 t =? Z.land b2 t).

(** Printing: the longest run of zero blocks, the first one of that length. *)
Definition block_at (a : list Z) (i : nat) : Z := Z.lor (Z.shiftl (nth (2 * i) a 0) 8) (nth (2 * i + 1) a 0).

Fixpoint longest_loop (zeros : list bool) (i largest_start largest_len current_start current_len : Z) : Z * Z :=
  match zeros with
  | [] => (largest_start, largest_len)
  | z :: zeros' =>
      if z then
        let current_len := current_len + 1 in
        if current_len >? largest_len then longest_loop zeros' (i + 1) current_start current_len current_start current_len
        else longest_loop zeros' (i + 1) largest_start largest_len current_start current_len
      else longest_loop zeros' (i + 1) largest_start largest_len (i + 1) 0
  end.
Definition zero_block (a : list Z) (i : nat) : bool := (nth (2 * i) a 0 =? 0) && (nth (2 * i + 1) a 0 =? 0).

Definition ipaddr6_print_addr (a : list Z) : list Z :=
  let '(largest_start, largest_len) := longest_loop (zero_block a <$> seq 0 8) 0 0 0 0 0 in
  let s := Z.to_nat largest_start in
  let e := Z.to_nat (largest_start + largest_len) in
  if largest_len >? 1 then
    concat ((λ i, hex (block_at a i) ++ [58]) <$> seq 0 s) ++
    (if largest_start =? 0 then [58] else []) ++
    concat ((λ i, 58 :: hex (block_at a i)) <$> seq e (8 - e)) ++
    (if largest_start + largest_len =? 8 then [58] else [])
  else hex (block_at a 0) ++ concat ((λ i, 58 :: hex (block_at a i)) <$> seq 1 7).

Definition ipaddr6_print_ifaddr (a : list Z) (prefix : Z) : option (list Z) :=
  if (prefix >=? 0) && (prefix <=? 128) then Some (ipaddr6_print_addr a ++ [47] ++ decimal prefix) else None.
End IpAddr6.
