(* ===== verification/AddrTextOk.v ===== *)
(** * Properties of numbers and addresses as text

    Numbers: the functions accept exactly the non-empty texts of digits whose
    value fits, although overflow is detected by a comparison of texts; what is
    printed is read back.  Addresses: the IPv4 reader against the grammar of
    its texts, masks and prefixes. *)

From S2P Require Import Prelude Net AddrText.
Import ParseNumber IpAddr.

(** ** Values of texts *)
Section Numeral.
Context (base : Z) (dec : Z → Z) (Hbase : 2 <= base).

Definition value_from (n : Z) (str : list Z) : Z := fold_left (λ n c, base * n + dec c) str n.
Definition numeral_value (str : list Z) : Z := value_from 0 str.
Definition is_digit (c : Z) : bool := (0 <=? dec c) && (dec c <? base).

Lemma value_from_acc str n : value_from n str = n * base ^ zlen str + numeral_value str.
Proof using Hbase.
  unfold numeral_value. revert n. induction str as [|c str IH]; intros n.
  - change (zlen (@nil Z)) with 0. cbn. lia.
  - change (value_from ?m (c :: str)) with (value_from (base * m + dec c) str).
    rewrite (IH (base * n + dec c)), (IH (base * 0 + dec c)). rewrite zlen_cons, Z.pow_add_r by (pose proof (zlen_nonneg str); lia). lia.
Qed.

Lemma numeral_value_cons c str : numeral_value (c :: str) = dec c * base ^ zlen str + numeral_value str.
Proof using Hbase.
  change (numeral_value (c :: str)) with (value_from (base * 0 + dec c) str). rewrite value_from_acc. lia.
Qed.

Lemma numeral_value_app l1 l2 : numeral_value (l1 ++ l2) = numeral_value l1 * base ^ zlen l2 + numeral_value l2.
Proof using Hbase. unfold numeral_value at 1, value_from. rewrite fold_left_app. apply value_from_acc. Qed.

Lemma numeral_value_range str : forallb is_digit str → 0 <= numeral_value str < base ^ zlen str.
Proof using Hbase.
  induction str as [|c str IH]; intros Hd; [change (zlen (@nil Z)) with 0; cbn; lia|].
  cbn in Hd. apply andb_True in Hd as [Hc Hd]. apply Is_true_true in Hc. unfold is_digit in Hc. zb.
  rewrite numeral_value_cons, zlen_cons, Z.pow_add_r, Z.pow_1_r by (pose proof (zlen_nonneg str); lia).
  specialize (IH Hd). nia.
Qed.

Lemma numeral_value_mono str n : 0 <= n → forallb is_digit str → n <= value_from n str.
Proof using Hbase.
  intros Hn Hd. rewrite value_from_acc. pose proof (numeral_value_range str Hd).
  pose proof (Z.pow_pos_nonneg base (zlen str)). pose proof (zlen_nonneg str). nia.
Qed.
End Numeral.

(** *** Digits

    The value of a character is its place in the row of the digits; for the
    hexadecimal ones a capital letter counts as the small one. *)
Definition place (row : list Z) (c : Z) : Z := match list_find (λ d, d = c) row with Some (i, _) => Z.of_nat i | None => -1 end.
Definition small (c : Z) : Z := if bool_decide (65 <= c <= 90) then c + 32 else c.
Definition row16 : list Z := [48; 49; 50; 51; 52; 53; 54; 55; 56; 57; 97; 98; 99; 100; 101; 102].
Definition dec_value (c : Z) : Z := place (take 10 row16) c.
Definition hex_value (c : Z) : Z := place row16 (small c).

Lemma decode_decimal_ok c : decode_decimal_digit c = dec_value c.
Proof.
  unfold dec_value, place, row16, decode_decimal_digit. cbn [take list_find].
  repeat (case_decide; [subst c; reflexivity|cbn [fmap option_fmap option_map]]). case_if; [lia|done].
Qed.

Lemma decode_hex_ok c : decode_hex_digit c = hex_value c.
Proof.
  unfold hex_value, place, row16, decode_hex_digit, small. cbn [list_find].
  case_bool_decide; repeat (case_decide; [first [subst c; reflexivity|assert (c = c + 32 - 32) as Ec by lia; repeat case_if; cbn; lia]|cbn [fmap option_fmap option_map]]);
    repeat case_if; first [done|lia].
Qed.

Abbreviation dvalue := (numeral_value 10 dec_value).
Abbreviation hvalue := (numeral_value 16 hex_value).
Abbreviation ddigit := (is_digit 10 dec_value).
Abbreviation hdigit := (is_digit 16 hex_value).

Lemma ddigit_spec c : ddigit c = true ↔ 48 <= c <= 57.
Proof. unfold is_digit. rewrite <-decode_decimal_ok. unfold decode_decimal_digit. split; repeat case_if; intros; zb; lia. Qed.
Lemma decode_decimal c : 48 <= c <= 57 → dec_value c = c - 48.
Proof. intros. rewrite <-decode_decimal_ok. unfold decode_decimal_digit. by zdec. Qed.
Lemma hdigit_spec c : hdigit c = negb (hex_value c <? 0).
Proof. unfold is_digit. rewrite <-decode_hex_ok. unfold decode_hex_digit. repeat case_if; zdec; done. Qed.
Lemma hex_value_lt c : hex_value c < 16.
Proof. rewrite <-decode_hex_ok. unfold decode_hex_digit. repeat case_if; lia. Qed.

Lemma forallb_Is {A} (p : A → bool) l : forallb p l = true → Is_true (forallb p l).
Proof. by intros ->. Qed.
#[local] Hint Resolve forallb_Is : core.

(** *** Overflow is detected on the text *)
Lemma remove_zeros_ok str :
  forallb ddigit (remove_zeros str) = forallb ddigit str ∧ dvalue (remove_zeros str) = dvalue str ∧ hd_error (remove_zeros str) ≠ Some 48.
Proof.
  induction str as [|c str (E1 & E2 & E3)]; cbn [remove_zeros]; [done|].
  case_if; [subst c|split_and!; [done..|cbn; congruence]].
  cbn [forallb]. rewrite numeral_value_cons by lia. change (dec_value 48) with 0. split_and!; [by rewrite E1|by rewrite E2|done].
Qed.

Lemma memcmp_value l1 l2 :
  length l1 = length l2 → forallb ddigit l1 = true → forallb ddigit l2 = true →
  memcmp l1 l2 = B_COMPARE (dvalue l1) (dvalue l2).
Proof.
  revert l2. induction l1 as [|a l1 IH]; intros [|b l2] Hl H1 H2; cbn [length forallb memcmp] in *; try discriminate; [done|].
  apply andb_true_iff in H1 as [Ha H1], H2 as [Hb H2]. apply ddigit_spec in Ha, Hb.
  rewrite !numeral_value_cons, !decode_decimal by lia.
  assert (zlen l1 = zlen l2) as E by (unfold zlen; congruence). rewrite E.
  pose proof (numeral_value_range 10 dec_value ltac:(lia) l1 ltac:(auto)) as R1.
  pose proof (numeral_value_range 10 dec_value ltac:(lia) l2 ltac:(auto)) as R2. rewrite E in R1.
  set (p := 10 ^ zlen l2) in *. unfold B_COMPARE in *.
  case_if; [subst b; rewrite IH by (try congruence; lia)|]; repeat case_if; nia.
Qed.

Lemma no_overflow_refused str n : forallb ddigit str = false → no_overflow_loop str n = None.
Proof.
  revert n. induction str as [|c str IH]; intros n; cbn [no_overflow_loop forallb]; [done|].
  intros [Hc|Hd]%andb_false_iff; case_if; try done; [|by apply IH].
  apply not_true_iff_false in Hc. rewrite ddigit_spec in Hc. lia.
Qed.

Lemma no_overflow_value str n :
  0 <= n → forallb ddigit str = true → value_from 10 dec_value n str <= UINTMAX_MAX →
  no_overflow_loop str n = Some (value_from 10 dec_value n str).
Proof.
  revert n. induction str as [|c str IH]; intros n Hn Hd Hv; cbn [no_overflow_loop forallb] in *; [done|].
  apply andb_true_iff in Hd as [Hc Hd]. apply ddigit_spec in Hc. zdec.
  change (value_from 10 ?d n (c :: str)) with (value_from 10 d (10 * n + d c) str) in *. rewrite decode_decimal in * by lia.
  pose proof (numeral_value_mono 10 dec_value ltac:(lia) str (10 * n + (c - 48)) ltac:(lia) ltac:(auto)).
  unfold UINTMAX_MAX in *. rewrite u64_small by (unfold SIZE_MAX, UINT64_MAX; lia). apply IH; [lia|done|lia].
Qed.

Lemma dvalue_big c str :
  c ≠ 48 → forallb ddigit (c :: str) = true → 20 <= zlen str → UINTMAX_MAX < dvalue (c :: str).
Proof.
  intros Hc Hd Hl. cbn [forallb] in Hd. apply andb_true_iff in Hd as [Hd1 Hd]. apply ddigit_spec in Hd1.
  rewrite numeral_value_cons, decode_decimal by lia.
  pose proof (numeral_value_range 10 dec_value ltac:(lia) str ltac:(auto)).
  pose proof (Z.pow_le_mono_r 10 20 (zlen str) ltac:(lia) Hl). unfold UINTMAX_MAX. change (10 ^ 20) with 100000000000000000000 in *. nia.
Qed.

(** Whether a text is too long, or too large, is whether its value is. *)
Lemma overflow_test str :
  forallb ddigit str = true → hd_error str ≠ Some 48 →
  (zlen str >? zlen parse_number__uintmax_max_str) || (zlen str =? zlen parse_number__uintmax_max_str) && (memcmp str parse_number__uintmax_max_str >? 0)
  = (UINTMAX_MAX <? dvalue str).
Proof.
  intros Hd Hh. change (zlen parse_number__uintmax_max_str) with 20.
  pose proof (numeral_value_range 10 dec_value ltac:(lia) str ltac:(auto)) as R.
  rewrite Z.gtb_ltb. destruct (Z.ltb_spec 20 (zlen str)).
  { destruct str as [|c str]; [by cbn in *|]. symmetry. apply Z.ltb_lt, dvalue_big; [cbn in Hh; congruence|done|rewrite zlen_cons in *; lia]. }
  destruct (Z.eqb_spec (zlen str) 20) as [E|]; cbn [orb andb].
  - rewrite memcmp_value by (try done; unfold zlen in E; cbn; lia).
    change (dvalue parse_number__uintmax_max_str) with UINTMAX_MAX. unfold B_COMPARE. repeat case_if; destruct (Z.ltb_spec UINTMAX_MAX (dvalue str)); try lia; done.
  - symmetry. apply Z.ltb_ge. pose proof (Z.pow_le_mono_r 10 (zlen str) 19 ltac:(lia) ltac:(lia)).
    change (10 ^ 19) with 10000000000000000000 in *. unfold UINTMAX_MAX. lia.
Qed.

Lemma parse_unsigned_exact str :
  parse_unsigned_integer_bin str
  = if negb (zlen str =? 0) && forallb ddigit str && (dvalue str <=? UINTMAX_MAX) then Some (dvalue str) else None.
Proof.
  unfold parse_unsigned_integer_bin. case_if; [done|]. cbn [negb andb].
  destruct (remove_zeros_ok str) as (E1 & E2 & E3). rewrite <-E1, <-E2. clear E1 E2.
  destruct (forallb ddigit (remove_zeros str)) eqn:Hd; cbn [andb].
  - rewrite overflow_test by done. pose proof (numeral_value_range 10 dec_value ltac:(lia) (remove_zeros str) ltac:(auto)).
    repeat case_if; try lia; [done|]. by apply no_overflow_value.
  - case_if; [done|]. by apply no_overflow_refused.
Qed.

(** *** Hexadecimal *)
Lemma hex_loop_exact str n :
  0 <= n <= UINTMAX_MAX →
  hex_loop str n = if forallb hdigit str && (value_from 16 hex_value n str <=? UINTMAX_MAX) then Some (value_from 16 hex_value n str) else None.
Proof.
  revert n. induction str as [|c str IH]; intros n Hn; cbn [hex_loop forallb]; [cbn [value_from fold_left andb]; by zdec|].
  rewrite hdigit_spec, decode_hex_ok. case_if; [done|]. cbn [negb].
  change (value_from 16 ?d n (c :: str)) with (value_from 16 d (16 * n + d c) str).
  pose proof (hex_value_lt c).
  assert (UINTMAX_MAX / 16 = 1152921504606846975) as E by done. rewrite E. unfold UINTMAX_MAX in *.
  assert (18446744073709551615 < 16 * n + hex_value c → forallb hdigit str && (value_from 16 hex_value (16 * n + hex_value c) str <=? 18446744073709551615) = false) as Hbig.
  { intros Hb. destruct (forallb hdigit str) eqn:Hd; [|done]. cbn.
    pose proof (numeral_value_mono 16 hex_value ltac:(lia) str (16 * n + hex_value c) ltac:(lia) ltac:(auto)). zdec. done. }
  case_if; [cbn [andb]; by rewrite Hbig by lia|]. case_if; [cbn [andb]; by rewrite Hbig by lia|].
  rewrite IH by lia. cbn [andb]. by rewrite (Z.mul_comm n 16).
Qed.

Lemma parse_hex_exact str :
  parse_unsigned_hex_integer_bin str
  = if negb (zlen str =? 0) && forallb hdigit str && (hvalue str <=? UINTMAX_MAX) then Some (hvalue str) else None.
Proof.
  unfold parse_unsigned_hex_integer_bin. case_if; [done|]. cbn [negb andb]. by apply hex_loop_exact.
Qed.

(** ** Printing numbers *)
Section Digits.
Context (base : Z) (dec : Z → Z) (Hbase : 2 <= base).
Context (Hdec : ∀ d, 0 <= d < base → dec (if d <? 10 then 48 + d else 87 + d) = d).

Lemma digits_step fuel x :
  0 <= x → digits (S fuel) base x = (if x <? base then [] else digits fuel base (x / base)) ++ [if x mod base <? 10 then 48 + x mod base else 87 + x mod base].
Proof. done. Qed.

Lemma digits_ok fuel x :
  0 <= x < base ^ Z.of_nat (S fuel) →
  forallb (is_digit base dec) (digits (S fuel) base x) = true ∧ numeral_value base dec (digits (S fuel) base x) = x.
Proof using Hbase Hdec.
  revert x. induction fuel as [|fuel IH]; intros x Hx; rewrite digits_step by lia;
    pose proof (Z.mod_pos_bound x base ltac:(lia)) as Hm; pose proof (Hdec (x mod base) Hm) as Hd;
    rewrite forallb_app, numeral_value_app by lia; cbn [forallb]; rewrite numeral_value_cons by lia;
    cbn [zlen length numeral_value value_from fold_left]; unfold is_digit at 2; rewrite Hd; zdec; change (zlen []) with 0.
  - change (Z.of_nat 1) with 1 in Hx. zdec. rewrite Z.mod_small by lia. split; [done|cbn; lia].
  - destruct (Z.ltb_spec x base); [rewrite Z.mod_small by lia; split; [done|cbn; lia]|].
    destruct (IH (x / base)) as [E1 E2].
    { split; [apply Z.div_pos; lia|]. apply Z.div_lt_upper_bound; [lia|].
      rewrite (Nat2Z.inj_succ (S fuel)), Z.pow_succ_r in Hx by lia. lia. }
    rewrite E1, E2. split; [done|]. change (zlen [_]) with 1. pose proof (Z.div_mod x base). lia.
Qed.

Lemma digits_length fuel x k :
  0 <= x < base ^ Z.of_nat (S k) → 1 <= zlen (digits (S fuel) base x) <= Z.of_nat (S k).
Proof using Hbase.
  clear Hdec. revert x k. induction fuel as [|fuel IH]; intros x k Hx; rewrite digits_step by lia; case_if; rewrite ?zlen_app; change (zlen [_]) with 1;
    try (change (zlen (digits 0 base (x / base))) with 0; change (zlen (@nil Z)) with 0; lia).
  destruct k as [|k]; [change (Z.of_nat 1) with 1 in Hx; lia|].
  specialize (IH (x / base) k). rewrite (Nat2Z.inj_succ (S k)), Z.pow_succ_r in Hx by lia.
  assert (0 <= x / base < base ^ Z.of_nat (S k)); [|lia].
  split; [apply Z.div_pos; lia|]. apply Z.div_lt_upper_bound; lia.
Qed.
End Digits.

Lemma dec_decimal d : 0 <= d < 10 → dec_value (if d <? 10 then 48 + d else 87 + d) = d.
Proof. intros. rewrite <-decode_decimal_ok. unfold decode_decimal_digit. zdec. lia. Qed.
Lemma dec_hex d : 0 <= d < 16 → hex_value (if d <? 10 then 48 + d else 87 + d) = d.
Proof. intros. rewrite <-decode_hex_ok. unfold decode_hex_digit. repeat case_if; lia. Qed.

(** The texts [sprintf] prints: digits without a leading zero. *)
Definition canonical (w : list Z) : Prop := w ≠ [] ∧ forallb ddigit w = true ∧ (hd_error w = Some 48 → w = [48]).

Lemma digits_canonical fuel w :
  canonical w → zlen w <= Z.of_nat (S fuel) → digits (S fuel) 10 (dvalue w) = w.
Proof.
  revert w. induction fuel as [|fuel IH]; intros w (Hn & Hd & Hz) Hl;
    (destruct (exists_last Hn) as (w' & c & ->); rewrite forallb_app in Hd; apply andb_true_iff in Hd as [Hd Hc]; cbn [forallb] in Hc;
     rewrite andb_true_r in Hc; apply ddigit_spec in Hc; rewrite zlen_app in Hl; change (zlen [c]) with 1 in Hl;
     rewrite numeral_value_app, numeral_value_cons, decode_decimal by lia; change (zlen [c]) with 1; change (zlen (@nil Z)) with 0;
     change (dvalue []) with 0; pose proof (numeral_value_range 10 dec_value ltac:(lia) w' ltac:(auto)) as R;
     rewrite digits_step by lia; replace (dvalue w' * 10 ^ 1 + ((c - 48) * 10 ^ 0 + 0)) with ((c - 48) + dvalue w' * 10) by lia;
     rewrite Z.div_add, Z.mod_add, Z.div_small, Z.mod_small by lia; zdec; replace (48 + (c - 48)) with c by lia).
  - assert (w' = []) as -> by (apply zlen_zero_inv; zlia). change (dvalue []) with 0. zdec. done.
  - destruct w' as [|a w']; [change (dvalue []) with 0; zdec; done|].
    assert (a ≠ 48) as Ha by (intros ->; cbn in Hz; specialize (Hz eq_refl); by destruct w').
    assert (0 < dvalue (a :: w')).
    { cbn [forallb] in Hd. apply andb_true_iff in Hd as [Ha' Hd]. apply ddigit_spec in Ha'.
      rewrite numeral_value_cons, decode_decimal by lia. pose proof (numeral_value_range 10 dec_value ltac:(lia) w' ltac:(auto)).
      pose proof (Z.pow_pos_nonneg 10 (zlen w')). pose proof (zlen_nonneg w'). nia. }
    zdec. rewrite Z.add_0_l, IH; [done| |lia]. unfold canonical. split_and!; [done..|cbn; congruence].
Qed.

Lemma digits_head fuel x : 0 < x < 10 ^ Z.of_nat (S fuel) → hd_error (digits (S fuel) 10 x) ≠ Some 48.
Proof.
  revert x. induction fuel as [|fuel IH]; intros x Hx; rewrite digits_step by lia; pose proof (Z.mod_pos_bound x 10 ltac:(lia)); zdec.
  - change (10 ^ Z.of_nat 1) with 10 in Hx. zdec. rewrite Z.mod_small by lia. cbn. injection 1. lia.
  - destruct (Z.ltb_spec x 10); [rewrite Z.mod_small by lia; cbn; injection 1; lia|].
    assert (0 < x / 10 < 10 ^ Z.of_nat (S fuel)) as Hr.
    { rewrite (Nat2Z.inj_succ (S fuel)), Z.pow_succ_r in Hx by lia. split; [apply Z.div_str_pos; lia|apply Z.div_lt_upper_bound; lia]. }
    specialize (IH _ Hr). pose proof (digits_length 10 ltac:(lia) fuel (x / 10) fuel ltac:(lia)) as [Hl _].
    destruct (digits (S fuel) 10 (x / 10)); [by cbn in Hl|done].
Qed.

Lemma decimal_ok x :
  0 <= x <= UINTMAX_MAX → canonical (decimal x) ∧ dvalue (decimal x) = x ∧ zlen (decimal x) <= 20.
Proof.
  intros Hx. unfold UINTMAX_MAX in Hx. assert (0 <= x < 10 ^ Z.of_nat 20) as Hr by (change (10 ^ Z.of_nat 20) with 100000000000000000000; lia).
  destruct (digits_ok 10 dec_value ltac:(lia) dec_decimal 19 x Hr) as [Hd Hv].
  pose proof (digits_length 10 ltac:(lia) 19 x 19 Hr) as Hl. unfold decimal. split_and!; [|done|lia].
  unfold canonical. split_and!; [intros E; rewrite E in Hl; zlia|done|]. intros Hh.
  destruct (decide (x = 0)) as [->|]; [done|]. exfalso. revert Hh. apply digits_head. lia.
Qed.

Lemma decimal_canonical w : canonical w → zlen w <= 20 → decimal (dvalue w) = w.
Proof. intros. by apply digits_canonical. Qed.

Lemma parse_decimal x : 0 <= x <= UINTMAX_MAX → parse_unsigned_integer_bin (decimal x) = Some x.
Proof.
  intros Hx. destruct (decimal_ok x Hx) as ((Hn & Hd & _) & Hv & _).
  rewrite parse_unsigned_exact, Hd, Hv. destruct (Z.eqb_spec (zlen (decimal x)) 0) as [E|]; [by apply zlen_zero_inv in E|]. by zdec.
Qed.

(** No text of the same value is shorter. *)
Lemma decimal_shortest str x : forallb ddigit str = true → str ≠ [] → dvalue str = x → zlen (decimal x) <= zlen str.
Proof.
  intros Hd Hn Hv. pose proof (numeral_value_range 10 dec_value ltac:(lia) str ltac:(auto)) as R. rewrite Hv in R.
  destruct str as [|c str]; [done|]. assert (zlen (c :: str) = Z.of_nat (S (length str))) as E by done. rewrite E in *.
  apply (digits_length 10 ltac:(lia) 19 x (length str) R).
Qed.

(** *** [generate_decimal_repr] writes what [sprintf] prints *)
Lemma repr_size_digits fuel x size :
  0 <= x < 10 ^ Z.of_nat fuel → repr_size fuel x size = size + zlen (digits fuel 10 x).
Proof.
  revert x size. induction fuel as [|fuel IH]; intros x size Hx; cbn [repr_size]; [change (zlen (digits 0 10 x)) with 0; lia|].
  rewrite digits_step, zlen_app by lia. change (zlen [_]) with 1.
  destruct (Z.ltb_spec x 10); [rewrite Z.div_small by lia; change (zlen (@nil Z)) with 0; zdec; lia|].
  assert (0 < x / 10) by (apply Z.div_str_pos; lia). rewrite Nat2Z.inj_succ, Z.pow_succ_r in Hx by lia.
  zdec. rewrite IH; [lia|]. split; [lia|]. apply Z.div_lt_upper_bound; lia.
Qed.

Lemma insert_blit1 (pos c : Z) (out : list Z) : 0 <= pos < zlen out → <[Z.to_nat pos := c]> out = blit pos [c] out.
Proof.
  intros Hp. rewrite insert_take_drop by (unfold zlen in Hp; lia). unfold blit. f_equal. cbn. do 2 f_equal. lia.
Qed.

Lemma blit_before off d1 d2 (out : list Z) :
  0 <= off → off + zlen d1 + zlen d2 <= zlen out → blit off d1 (blit (off + zlen d1) d2 out) = blit off (d1 ++ d2) out.
Proof.
  intros H1 H2. unfold blit, zlen in *.
  rewrite take_app_le by (rewrite length_take; lia). rewrite take_take, <-!app_assoc, !length_app. do 2 f_equal; [f_equal; lia|].
  replace (Z.to_nat off + length d1)%nat with (length (take (Z.to_nat (off + Z.of_nat (length d1))) out)) by (rewrite length_take; lia).
  rewrite drop_app_length. do 2 f_equal. lia.
Qed.

Lemma generate_loop_exact fuel x pos out :
  0 <= x < 10 ^ Z.of_nat fuel → fuel ≠ O → zlen (digits fuel 10 x) <= pos <= zlen out →
  generate_loop fuel x pos out = Some (blit (pos - zlen (digits fuel 10 x)) (digits fuel 10 x) out).
Proof.
  revert x pos out. induction fuel as [|fuel IH]; intros x pos out Hx Hf Hp; [done|]. cbn [generate_loop].
  rewrite digits_step, zlen_app in Hp |- * by lia. change (zlen [_]) with 1 in *.
  pose proof (Z.mod_pos_bound x 10 ltac:(lia)). rewrite (proj2 (Z.ltb_lt (x mod 10) 10)) in * by lia.
  set (ds := if x <? 10 then [] else digits fuel 10 (x / 10)) in *. pose proof (zlen_nonneg ds).
  rewrite (proj2 (Z.ltb_ge (pos - 1) 0)), (proj2 (Z.leb_gt (zlen out) (pos - 1))) by lia. cbn [orb].
  rewrite insert_blit1 by lia. destruct (Z.ltb_spec x 10); subst ds.
  - rewrite Z.div_small by lia. done.
  - assert (0 < x / 10) by (apply Z.div_str_pos; lia). rewrite (Z.gtb_ltb), (proj2 (Z.ltb_lt 0 (x / 10))) by lia.
    assert (fuel ≠ O) by (intros ->; change (10 ^ Z.of_nat 1) with 10 in Hx; lia).
    rewrite Nat2Z.inj_succ, Z.pow_succ_r in Hx by lia.
    rewrite IH; [|split; [lia|apply Z.div_lt_upper_bound; lia]|done|rewrite zlen_blit by zlia; lia].
    set (ds := digits fuel 10 (x / 10)) in *. replace (pos - (zlen ds + 1)) with (pos - 1 - zlen ds) by lia.
    rewrite <-blit_before by zlia. by replace (pos - 1 - zlen ds + zlen ds) with (pos - 1) by lia.
Qed.

Lemma generate_exact x out :
  0 <= x <= UINTMAX_MAX → compute_decimal_repr_size x <= zlen out →
  compute_decimal_repr_size x = zlen (decimal x) ∧ generate_decimal_repr x out (compute_decimal_repr_size x) = Some (blit 0 (decimal x) out).
Proof.
  intros Hx Hl. unfold UINTMAX_MAX in Hx. assert (0 <= x < 10 ^ Z.of_nat 20) as Hr by (change (10 ^ Z.of_nat 20) with 100000000000000000000; lia).
  assert (compute_decimal_repr_size x = zlen (decimal x)) as E.
  { unfold compute_decimal_repr_size. rewrite repr_size_digits by done. unfold decimal. lia. }
  split; [done|]. unfold generate_decimal_repr. rewrite Z.eqb_refl. rewrite E in Hl |- *.
  rewrite generate_loop_exact by (try done; unfold decimal in *; lia). do 2 f_equal. unfold decimal. lia.
Qed.

Lemma insert_after_blit (c : Z) (text out : list Z) : zlen text < zlen out → <[length text := c]> (blit 0 text out) = blit 0 (text ++ [c]) out.
Proof.
  intros Hl. unfold zlen in Hl. unfold blit. change (Z.to_nat 0) with 0%nat. rewrite !take_0. cbn [Nat.add app].
  rewrite length_app, <-app_assoc. cbn [length app].
  assert (E : <[(length text + 0)%nat := c]> (text ++ drop (length text) out) = text ++ <[0%nat := c]> (drop (length text) out)) by apply insert_app_r.
  rewrite Nat.add_0_r in E. rewrite E. f_equal. destruct (drop (length text) out) as [|y l] eqn:Ed.
  - apply (f_equal length) in Ed. rewrite length_drop in Ed. cbn in Ed. lia.
  - rewrite <-drop_drop, Ed. done.
Qed.

Lemma generate_string_exact x out :
  0 <= x <= UINTMAX_MAX → zlen (decimal x) < zlen out →
  generate_decimal_repr_string x out = Some (blit 0 (decimal x ++ [0]) out, zlen (decimal x)).
Proof.
  intros Hx Hl. assert (E : compute_decimal_repr_size x = zlen (decimal x)).
  { unfold compute_decimal_repr_size. unfold UINTMAX_MAX in Hx. rewrite repr_size_digits by (change (10 ^ Z.of_nat 20) with 100000000000000000000; lia). unfold decimal. lia. }
  unfold generate_decimal_repr_string. destruct (generate_exact x out Hx) as [_ Eg]; [lia|]. rewrite E in *. rewrite Eg. cbn [mbind option_bind].
  pose proof (zlen_nonneg (decimal x)). rewrite zlen_blit by lia. rewrite (proj2 (Z.leb_gt _ _)) by lia. do 2 f_equal.
  unfold zlen at 1. rewrite Nat2Z.id. by apply insert_after_blit.
Qed.

(** *** Numbers with a sign *)
Definition unsigned_spec (str : list Z) : option Z :=
  if negb (zlen str =? 0) && forallb ddigit str && (dvalue str <=? UINTMAX_MAX) then Some (dvalue str) else None.

Lemma signmag_exact str :
  parse_signmag_integer_bin str =
  match str with
  | 43 :: t => pair 1 <$> unsigned_spec t
  | 45 :: t => pair (-1) <$> unsigned_spec t
  | _ => pair 1 <$> unsigned_spec str
  end.
Proof.
  unfold parse_signmag_integer_bin. destruct str as [|c t]; [done|].
  destruct (Z.eqb_spec c 43) as [->|H1]; [cbn [orb]; rewrite parse_unsigned_exact; change (1 - 2 * Z.b2z (43 =? 45)) with 1; unfold unsigned_spec; by case_if|].
  destruct (Z.eqb_spec c 45) as [->|H2]; [cbn [orb]; rewrite parse_unsigned_exact; unfold unsigned_spec; by case_if|]. cbn [orb]. rewrite parse_unsigned_exact.
  fold (unsigned_spec (c :: t)). transitivity (pair 1 <$> unsigned_spec (c :: t)); [by destruct (unsigned_spec (c :: t))|].
  destruct c as [|q|q]; try done. do 6 (destruct q as [q|q|]; try done).
Qed.

(** ** IPv4 addresses *)
Fixpoint join (c : Z) (ws : list (list Z)) : list Z :=
  match ws with
  | [] => []
  | [w] => w
  | w :: ws' => w ++ c :: join c ws'
  end.

(** A text of one to three digits, of a byte. *)
Definition byte_word (w : list Z) (b : Z) : Prop := forallb ddigit w = true ∧ 1 <= zlen w <= 3 ∧ dvalue w = b ∧ b <= 255.
(** The texts of an IPv4 address: four such words with dots between. *)
Definition text4 (name : list Z) (a : Z) : Prop :=
  ∃ ws bs, length ws = 4%nat ∧ name = join 46 ws ∧ Forall2 byte_word ws bs ∧ a = of_le bs.

Lemma char_pos_app c w rest : c ∉ w → char_pos c (w ++ c :: rest) = length w.
Proof.
  induction w as [|x w IH]; cbn; intros Hc; [by rewrite Z.eqb_refl|].
  apply not_elem_of_cons in Hc as [? ?]. zdec. by rewrite IH.
Qed.
Lemma char_pos_none c w : c ∉ w → char_pos c w = length w.
Proof. induction w as [|x w IH]; cbn; intros Hc; [done|]. apply not_elem_of_cons in Hc as [? ?]. zdec. by rewrite IH. Qed.
Lemma char_pos_split c str :
  (char_pos c str ≤ length str)%nat ∧ (c ∉ take (char_pos c str) str) ∧
  (Nat.lt (char_pos c str) (length str) → str = take (char_pos c str) str ++ c :: drop (S (char_pos c str)) str).
Proof.
  induction str as [|x str (H1 & H2 & H3)]; cbn; [split_and!; [lia|set_solver|lia]|].
  case_if; [subst; cbn; split_and!; [lia|set_solver|done]|]. cbn. split_and!; [lia|set_solver|].
  intros Hl. by rewrite <-H3 by lia.
Qed.

Lemma digits_no_char w c : forallb ddigit w = true → c < 48 ∨ 57 < c → c ∉ w.
Proof.
  intros Hd Hc Hin. rewrite forallb_forall in Hd. apply list_elem_of_In, Hd, ddigit_spec in Hin. lia.
Qed.

Lemma byte_word_parse w :
  1 <= zlen w <= 3 →
  parse_unsigned_integer_bin w = if forallb ddigit w then Some (dvalue w) else None.
Proof.
  intros Hl. rewrite parse_unsigned_exact. destruct (forallb ddigit w) eqn:Hd; [|by rewrite andb_false_r].
  pose proof (numeral_value_range 10 dec_value ltac:(lia) w ltac:(auto)).
  pose proof (Z.pow_le_mono_r 10 (zlen w) 3 ltac:(lia) ltac:(lia)). change (10 ^ 3) with 1000 in *. unfold UINTMAX_MAX. by zdec.
Qed.

Lemma ipv4_loop_word k name out r w b rest :
  byte_word w b → name = (if Nat.eqb k 0 then w else w ++ 46 :: rest) →
  ipv4_loop k name out = Some r ↔ match k with O => r = out ++ [b] | S k' => ipv4_loop k' rest (out ++ [b]) = Some r end.
Proof.
  intros (Hd & Hl & Hv & Hb) ->. pose proof (digits_no_char w 46 Hd ltac:(lia)) as Hc.
  destruct k as [|k]; cbn [Nat.eqb ipv4_loop].
  - rewrite char_pos_none by done. change (Z.of_nat (length w)) with (zlen w). zdec.
    unfold zlen at 1. rewrite Nat2Z.id, firstn_all, byte_word_parse, Hd by lia. cbn [mbind option_bind]. zdec. rewrite Hv. split; [by intros [= <-]|by intros ->].
  - rewrite char_pos_app by done. change (Z.of_nat (length w)) with (zlen w). rewrite zlen_app, zlen_cons. pose proof (zlen_nonneg rest). zdec.
    replace (Z.to_nat (zlen w)) with (length w) by (unfold zlen; lia). rewrite take_app_length, byte_word_parse, Hd by lia. cbn [mbind option_bind]. zdec. rewrite Hv.
    rewrite Nat.add_1_r, drop_app_ge by lia. by replace (S (length w) - length w)%nat with 1%nat by lia.
Qed.

Lemma ipv4_loop_inv k name out r :
  ipv4_loop k name out = Some r → ∃ w b rest, byte_word w b ∧ name = (if Nat.eqb k 0 then w else w ++ 46 :: rest).
Proof.
  destruct (char_pos_split 46 name) as (H1 & H2 & H3). intros E.
  assert (ipv4_loop k name out ≠ None) as E' by congruence. clear E.
  destruct k as [|k]; cbn [ipv4_loop] in E'; revert E'; (case_if; [done|]); (case_if; [done|]);
    destruct (parse_unsigned_integer_bin _) as [d|] eqn:Ep; cbn [mbind option_bind]; try done; (case_if; [done|]); intros _.
  all: rewrite Nat2Z.id in Ep; set (w := take (char_pos 46 name) name) in *.
  all: assert (zlen w = Z.of_nat (char_pos 46 name)) as Hw by (unfold w, zlen; rewrite length_take; lia).
  all: rewrite byte_word_parse in Ep by (unfold zlen in *; lia); destruct (forallb ddigit w) eqn:Hd; [|done]; injection Ep as Ep.
  - exists w, d, []. split; [unfold byte_word; split_and!; try done; lia|]. cbn. unfold w. rewrite take_ge; [done|].
    unfold zlen in *. cbn in *. rewrite andb_true_r in *. zb. lia.
  - exists w, d, (drop (S (char_pos 46 name)) name). split; [unfold byte_word; split_and!; try done; lia|]. cbn. apply H3.
    unfold zlen in *. cbn in *. rewrite andb_true_r in *. zb. lia.
Qed.

Lemma ipv4_loop_exact k name out r :
  ipv4_loop k name out = Some r ↔ ∃ ws bs, length ws = S k ∧ name = join 46 ws ∧ Forall2 byte_word ws bs ∧ r = out ++ bs.
Proof.
  revert name out. induction k as [|k IH]; intros name out; split.
  - intros E. destruct (ipv4_loop_inv _ _ _ _ E) as (w & b & rest & Hw & Hn).
    apply (ipv4_loop_word 0 name out r w b rest Hw Hn) in E. subst. exists [w], [b]. split_and!; try done. apply Forall2_cons. by split; [|apply Forall2_nil].
  - intros (ws & bs & Hl & -> & Hf & ->). destruct ws as [|w [|]]; try done.
    inversion Hf as [|? b ? bs' Hw Hr]; subst. inversion Hr; subst. by apply (ipv4_loop_word 0 _ _ _ w b []).
  - intros E. destruct (ipv4_loop_inv _ _ _ _ E) as (w & b & rest & Hw & Hn).
    apply (ipv4_loop_word (S k) name out r w b rest Hw Hn) in E. apply IH in E as (ws & bs & Hl & -> & Hf & ->).
    exists (w :: ws), (b :: bs). split_and!; [cbn; lia| |by constructor|by rewrite <-app_assoc].
    rewrite Hn. by destruct ws.
  - intros (ws & bs & Hl & -> & Hf & ->). destruct ws as [|w ws]; [done|]. inversion Hf as [|? b ? bs' Hw Hr]; subst.
    apply (ipv4_loop_word (S k) _ _ _ w b (join 46 ws) Hw); [by destruct ws|]. apply IH.
    exists ws, bs'. split_and!; try done; [cbn in Hl; lia|by rewrite <-app_assoc].
Qed.

Lemma ipv4_text_exact name a : ipaddr_parse_ipv4_addr_bin name = Some a ↔ text4 name a.
Proof.
  unfold ipaddr_parse_ipv4_addr_bin, text4. split.
  - destruct (ipv4_loop 3 name []) as [r|] eqn:E; [|done]. intros [= <-]. apply ipv4_loop_exact in E as (ws & bs & ? & ? & ? & ->).
    by exists ws, bs.
  - intros (ws & bs & Hl & Hn & Hf & ->). assert (ipv4_loop 3 name [] = Some bs) as ->; [|done].
    apply ipv4_loop_exact. by exists ws, bs.
Qed.

Lemma decimal_byte b : 0 <= b <= 255 → byte_word (decimal b) b.
Proof.
  intros Hb. destruct (decimal_ok b ltac:(unfold UINTMAX_MAX; lia)) as ((_ & Hd & _) & Hv & _).
  pose proof (digits_length 10 ltac:(lia) 19 b 2 ltac:(change (10 ^ Z.of_nat 3) with 1000; lia)).
  unfold byte_word. split_and!; try done; unfold decimal; lia.
Qed.

Lemma print_bytes_text bs : bytes bs → length bs = 4%nat → text4 (print_bytes bs) (of_le bs).
Proof.
  intros Hb Hl. destruct bs as [|b0 [|b1 [|b2 [|b3 [|]]]]]; try done.
  unfold text4. exists (decimal <$> [b0; b1; b2; b3]), [b0; b1; b2; b3]. split_and!; try done.
  repeat (apply Forall_cons in Hb as [? Hb]). cbn [fmap list_fmap]. unfold is_u8, UINT8_MAX in *.
  repeat (apply Forall2_cons; split; [apply decimal_byte; lia|]). by apply Forall2_nil.
Qed.

Lemma ipv4_roundtrip a : is_u32 a → ipaddr_parse_ipv4_addr_bin (ipaddr_print_addr a) = Some a.
Proof.
  intros Ha. apply ipv4_text_exact. unfold ipaddr_print_addr.
  rewrite <-(Z.mod_small a (256 ^ Z.of_nat 4)) at 2 by (unfold is_u32, UINT32_MAX in Ha; change (256 ^ Z.of_nat 4) with 4294967296; lia).
  rewrite <-of_le_le_bytes. apply print_bytes_text; [apply bytes_le_bytes|apply length_le_bytes].
Qed.

(** *** Masks *)
Lemma mask_loop_values : ∀ p, (p <= 32)%nat → ipaddr_ipv4_prefix_from_mask (hton32 (mask_loop p 0 0)) = Some (Z.of_nat p) ∧ mask_loop p 0 0 = 2 ^ 32 - 2 ^ (32 - Z.of_nat p).
Proof. intros p Hp. do 33 (destruct p as [|p]; [by vm_compute|]). lia. Qed.

Lemma mask_loop_S n i t : mask_loop (S n) i t = Z.lor (mask_loop n i t) (u32 (Z.shiftl 1 (32 - (i + Z.of_nat n) - 1))).
Proof.
  revert i t. induction n as [|n IH]; intros i t; [cbn [mask_loop]; by rewrite Z.add_0_r|].
  change (mask_loop (S (S n)) i t) with (mask_loop (S n) (i + 1) (Z.lor t (u32 (Z.shiftl 1 (32 - i - 1))))). rewrite IH.
  cbn [mask_loop]. do 4 f_equal. lia.
Qed.

Lemma prefix_loop_inv k n m i t p :
  (k + n = 33)%nat → i = Z.of_nat n → t = mask_loop n 0 0 → prefix_loop k m i t = Some p →
  ∃ n', (n' <= 32)%nat ∧ p = Z.of_nat n' ∧ ntoh32 m = mask_loop n' 0 0.
Proof.
  revert n i t. induction k as [|k IH]; intros n i t Hk -> ->; cbn [prefix_loop]; [done|].
  case_if; [intros [= <-]; exists n; split_and!; [lia|done..]|].
  case_if; [|destruct k; [done|lia]]. apply (IH (S n)); [lia|lia|]. by rewrite mask_loop_S, Z.add_0_l.
Qed.

(** A mask has at most one prefix, and it is the one that gives the mask. *)
Lemma mask_prefix_exact m p :
  is_u32 m → ipaddr_ipv4_prefix_from_mask m = Some p ↔ ipaddr_ipv4_mask_from_prefix p = Some m.
Proof.
  intros Hm. unfold ipaddr_ipv4_mask_from_prefix. split.
  - unfold ipaddr_ipv4_prefix_from_mask. intros Hp. destruct (prefix_loop_inv 33 0 m 0 0 p eq_refl eq_refl eq_refl Hp) as (n & Hn & -> & E). zdec. rewrite Nat2Z.id.
    destruct (mask_loop_values n Hn) as [_ Ev]. f_equal. apply ntoh32_inj; [apply hton32_range|done|].
    rewrite E, ntoh32_hton32, u32_small; [done|]. rewrite Ev. unfold is_u32, UINT32_MAX.
    pose proof (Z.pow_le_mono_r 2 (32 - Z.of_nat n) 32 ltac:(lia) ltac:(lia)). pose proof (Z.pow_pos_nonneg 2 (32 - Z.of_nat n) ltac:(lia) ltac:(lia)). lia.
  - case_if; [|done]. intros [= <-]. destruct (mask_loop_values (Z.to_nat p)) as [E _]; [lia|].
    rewrite E. f_equal. lia.
Qed.

Lemma print_bytes_chars bs c : bytes bs → 57 < c ∨ c < 48 ∧ c ≠ 46 → c ∉ print_bytes bs.
Proof.
  intros Hb Hc. destruct bs as [|b0 [|b1 [|b2 [|b3 [|]]]]]; unfold print_bytes; try apply not_elem_of_nil.
  repeat (apply Forall_cons in Hb as [? Hb]). unfold is_u8, UINT8_MAX in *.
  pose proof (λ b H, digits_no_char (decimal b) c (proj1 (decimal_byte b H)) ltac:(lia)) as Hd.
  rewrite !not_elem_of_app, !list_elem_of_singleton. split_and!; try (apply Hd; lia); lia.
Qed.

Lemma find_char_app c w rest : c ∉ w → b_find_char_bin (w ++ c :: rest) c = Some (length w).
Proof.
  intros Hc. unfold b_find_char_bin. rewrite char_pos_app by done.
  destruct (Nat.ltb_spec (length w) (length (w ++ c :: rest))) as [_|Hl]; [done|rewrite length_app, length_cons in Hl; lia].
Qed.

Lemma ipv4_ifaddr_roundtrip a p text :
  is_u32 a → ipaddr_print_ifaddr a p = Some text → ipaddr_parse_ipv4_ifaddr_bin text = Some (a, p).
Proof.
  intros Ha. unfold ipaddr_print_ifaddr. case_if; [|done]. change (print_bytes (le_bytes 4 a)) with (ipaddr_print_addr a).
  pose proof (print_bytes_chars (le_bytes 4 a) 47 (bytes_le_bytes 4 a) ltac:(lia)) as Hc. change (47 ∉ ipaddr_print_addr a) in Hc.
  pose proof (ipv4_roundtrip a Ha) as Ep. set (t := ipaddr_print_addr a) in *. clearbody t. intros Et. apply (inj Some) in Et. subst text. cbn [app].
  unfold ipaddr_parse_ipv4_ifaddr_bin. rewrite find_char_app by done. cbn [mbind option_bind].
  rewrite take_app_length, Ep. cbn [mbind option_bind].
  rewrite drop_app_ge, Nat.add_1_r by lia. replace (S _ - _)%nat with 1%nat by lia. rewrite skipn_cons, drop_0.
  unfold ipaddr_parse_ipv4_prefix_bin. rewrite parse_decimal by (unfold UINTMAX_MAX; lia). cbn [mbind option_bind]. by zdec.
Qed.
