(* ===== verification/AddrText6.v ===== *)
(** * IPv6 addresses as text, against their grammar

    The reader of [misc/ipaddr6.h] works in place in the result and goes back
    in the text when it meets a dot.  Here it is compared with the grammar of
    the texts: hexadecimal groups, at most one [::], an IPv4 address at the
    end.  It accepts exactly these, for every content of the result before, and
    never reads or writes outside; what is printed is read back. *)

From S2P Require Import Prelude Net AddrText AddrTextOk.
Import ParseNumber IpAddr IpAddr6.

(** ** The grammar *)

(** A group: hexadecimal digits, of a number of 16 bits; its two bytes. *)
Definition hex_word (w : list Z) : Prop := w ≠ [] ∧ forallb hdigit w = true ∧ hvalue w <= 65535.
Definition group (w : list Z) : list Z := [Z.shiftr (hvalue w) 8; Z.land (hvalue w) 255].
Definition groups (ws : list (list Z)) : list Z := concat (group <$> ws).

(** Groups with colons between, the last of which may be an IPv4 address. *)
Inductive groups_text : list Z → list Z → Prop :=
| groups_hex ws : ws ≠ [] → Forall hex_word ws → groups_text (join 58 ws) (groups ws)
| groups_ipv4 ws b4 : Forall hex_word ws → bytes b4 → length b4 = 4%nat → groups_text (join 58 (ws ++ [print_bytes b4])) (groups ws ++ b4).

(** An address of 16 bytes: all its groups, or [::] for the zeros between. *)
Inductive text6 : list Z → list Z → Prop :=
| text6_full name b : groups_text name b → zlen b = 16 → text6 name b
| text6_end ws : Forall hex_word ws → zlen ws <= 7 →
    text6 (join 58 ws ++ [58; 58]) (groups ws ++ replicate (16 - length (groups ws)) 0)
| text6_mid ws text rear : Forall hex_word ws → zlen ws <= 7 → groups_text text rear → zlen (groups ws) + zlen rear <= 16 →
    text6 (join 58 ws ++ [58; 58] ++ text) (groups ws ++ replicate (16 - length (groups ws) - length rear) 0 ++ rear).

(** ** The loop, on what is left of the text *)
Definition at_colon (first double : bool) (s : st) : P st := colon (if first then 0 else 1) double s.

Fixpoint scan (rest : list Z) (first : bool) (s : st) : P (option (list Z) * st) :=
  match rest with
  | [] => mret (None, s)
  | c :: rest' =>
      if c =? 46 then mret (Some rest, s)
      else if c =? 58 then
        match rest' with
        | c1 :: rest'' => if c1 =? 58 then s ← at_colon first true s; scan rest'' false s else s ← at_colon first false s; scan rest' false s
        | [] => s ← at_colon first false s; scan rest' false s
        end
      else s ← hex_digit c s; scan rest' false s
  end.

Lemma P_bind_eq {A B} (m : P A) (k1 k2 : A → P B) : (∀ a, k1 a = k2 a) → (m ≫= k1) = (m ≫= k2).
Proof. intros Hk. destruct m as [[a|]|]; cbn; [apply Hk|done..]. Qed.

Lemma colon_pos i d s : 0 <= i → colon i d s = at_colon (i =? 0) d s.
Proof. intros Hi. unfold at_colon. destruct (Z.eqb_spec i 0) as [->|]; [done|]. unfold colon. rewrite !Z.gtb_ltb, (proj2 (Z.ltb_lt 0 i)) by lia. done. Qed.

Lemma char_at_drop name i c rest : 0 <= i → drop (Z.to_nat i) name = c :: rest → char_at name i = mret c.
Proof.
  intros Hi Hd. unfold char_at. zdec. replace (Z.to_nat i) with (Z.to_nat i + 0)%nat by lia. by rewrite <-lookup_drop, Hd.
Qed.

Definition stop_at (name : list Z) (r : option (list Z) * st) : option Z * st := ((λ rest, zlen name - zlen rest) <$> r.1, r.2).

Lemma drop_more (name : list Z) i c rest : 0 <= i → drop (Z.to_nat i) name = c :: rest → drop (Z.to_nat (i + 1)) name = rest.
Proof. intros Hi Hd. replace (Z.to_nat (i + 1)) with (Z.to_nat i + 1)%nat by lia. by rewrite <-drop_drop, Hd. Qed.

Lemma P_bind_assoc {A B C} (m : P A) (k : A → P B) (k' : B → P C) : ((m ≫= k) ≫= k') = (m ≫= λ a, k a ≫= k').
Proof. by destruct m as [[a|]|]. Qed.

Lemma blocks_loop_scan fuel name i s rest :
  0 <= i → drop (Z.to_nat i) name = rest → (length rest < fuel)%nat → i + zlen rest = zlen name →
  blocks_loop fuel name i s = (r ← scan rest (i =? 0) s; mret (stop_at name r)).
Proof.
  revert i s rest. induction fuel as [|fuel IH]; intros i s rest Hi Hd Hf Hl; [lia|]. cbn [blocks_loop].
  destruct rest as [|c rest]; [change (zlen (@nil Z)) with 0 in Hl; by zdec|].
  rewrite zlen_cons in Hl. pose proof (zlen_nonneg rest). rewrite (proj2 (Z.ltb_lt i (zlen name))) by lia.
  rewrite (char_at_drop name i c rest) by done. cbn [mbind P_bind mret P_ret scan].
  pose proof (drop_more name i c rest Hi Hd) as Hd'. cbn [length] in Hf.
  assert (∀ s, blocks_loop fuel name (i + 1) s = r ← scan rest false s; mret (stop_at name r)) as IH1.
  { intros s'. rewrite (IH (i + 1) s' rest) by (try done; lia). by zdec. }
  case_if; [cbn; unfold stop_at; cbn; do 4 f_equal; rewrite zlen_cons; lia|].
  case_if; [|rewrite P_bind_assoc; by apply P_bind_eq].
  destruct rest as [|c1 rest].
  - change (zlen (@nil Z)) with 0 in Hl. rewrite (proj2 (Z.ltb_ge (i + 1) (zlen name))) by lia. cbn [mbind P_bind mret P_ret Z.b2z].
    rewrite colon_pos, P_bind_assoc by done. apply P_bind_eq. intros s'. rewrite Z.add_0_r. apply IH1.
  - rewrite zlen_cons in Hl. pose proof (zlen_nonneg rest). rewrite (proj2 (Z.ltb_lt (i + 1) (zlen name))) by lia.
    rewrite (char_at_drop name (i + 1) c1 rest) by (try done; lia). cbn [mbind P_bind mret P_ret].
    case_if; cbn [Z.b2z]; rewrite colon_pos, P_bind_assoc by done; apply P_bind_eq; intros s'.
    + pose proof (drop_more name (i + 1) c1 rest ltac:(lia) Hd'). cbn [length] in Hf.
      rewrite (IH (i + 1 + 1) s' rest) by (try done; lia). by zdec.
    + rewrite Z.add_0_r. apply IH1.
Qed.

(** ** What the state of the loop means *)

(** The text of the groups [front], of the groups [rear] after a [::], and of
    the digits [cur] of the current group. *)
Definition sep (ws : list (list Z)) : list Z := concat ((λ w, w ++ [58]) <$> ws).
Definition shown (front : list (list Z)) (rear : option (list (list Z))) (cur : list Z) : list Z :=
  sep front ++ match rear with
               | None => cur
               | Some rear => match front with [] => [58; 58] | _ => [58] end ++ sep rear ++ cur
               end.

Record inv (front : list (list Z)) (rear : option (list (list Z))) (cur : list Z) (s : st) : Prop := {
  iv_words : Forall hex_word (front ++ default [] rear);
  iv_cur : forallb hdigit cur = true;
  iv_block : block s = hvalue cur;
  iv_fits : hvalue cur <= 65535;
  iv_empty : empty s = bool_decide (cur = []);
  iv_num : num_blocks s = zlen (front ++ default [] rear);
  iv_max : num_blocks s <= 7;
  iv_comp : compress_pos s = match rear with None => -1 | Some _ => zlen front end;
  iv_len : zlen (addr6 s) = 16;
  iv_addr : take (Z.to_nat (2 * num_blocks s)) (addr6 s) = groups (front ++ default [] rear) }.

Lemma sep_snoc ws w : sep (ws ++ [w]) = sep ws ++ w ++ [58].
Proof. unfold sep. by rewrite fmap_app, concat_app; cbn; rewrite app_nil_r. Qed.
Lemma groups_app ws1 ws2 : groups (ws1 ++ ws2) = groups ws1 ++ groups ws2.
Proof. unfold groups. by rewrite fmap_app, concat_app. Qed.
Lemma zlen_groups ws : zlen (groups ws) = 2 * zlen ws.
Proof. induction ws as [|w ws IH]; [done|]. change (groups (w :: ws)) with (group w ++ groups ws). rewrite zlen_app, IH, zlen_cons. change (zlen (group w)) with 2. lia. Qed.

Lemma shown_snoc f r cur c : shown f r (cur ++ [c]) = shown f r cur ++ [c].
Proof. unfold shown. destruct r; by rewrite <-!app_assoc. Qed.
Lemma shown_double f cur : shown (f ++ [cur]) (Some []) [] = shown f None cur ++ [58; 58].
Proof. unfold shown. rewrite sep_snoc. assert (∀ x y : list Z, match f ++ [cur] with [] => x | _ => y end = y) as E by (by destruct f). rewrite E, <-!app_assoc. done. Qed.

(** The current group becomes one of the groups. *)
Definition push (f : list (list Z)) (r : option (list (list Z))) (cur : list Z) : list (list Z) * option (list (list Z)) :=
  match r with None => (f ++ [cur], None) | Some rw => (f, Some (rw ++ [cur])) end.

Lemma shown_push f r cur : shown (push f r cur).1 (push f r cur).2 [] = shown f r cur ++ [58].
Proof. unfold shown, push. destruct r; cbn [fst snd]; rewrite sep_snoc, <-!app_assoc, ?app_nil_r; done. Qed.
Lemma push_words f r cur : (push f r cur).1 ++ default [] (push f r cur).2 = (f ++ default [] r) ++ [cur].
Proof. unfold push. destruct r; cbn; by rewrite ?app_nil_r, ?app_assoc. Qed.

Lemma hvalue_snoc cur c : hvalue (cur ++ [c]) = hvalue cur * 16 + hex_value c.
Proof. rewrite numeral_value_app, numeral_value_cons by lia. change (zlen [c]) with 1. change (zlen (@nil Z)) with 0. change (hvalue []) with 0. lia. Qed.

Lemma hex_step f r cur s c :
  inv f r cur s →
  if hdigit c && (hvalue (cur ++ [c]) <=? 65535) then ∃ s', hex_digit c s = mret s' ∧ inv f r (cur ++ [c]) s' else hex_digit c s = refuse.
Proof.
  intros Hv. pose proof (iv_fits _ _ _ _ Hv) as Hf. pose proof (numeral_value_range 16 hex_value ltac:(lia) cur ltac:(by rewrite (iv_cur _ _ _ _ Hv))).
  unfold hex_digit. rewrite decode_hex_ok, (iv_block _ _ _ _ Hv), hvalue_snoc. change (65535 / 16) with 4095.
  pose proof (hex_value_lt c).
  rewrite hdigit_spec. destruct (hex_value c <? 0) eqn:Hneg; zb; cbn [negb andb]; [done|]. destruct (Z.leb_spec (hvalue cur * 16 + hex_value c) 65535).
  - zdec. eexists. split; [done|]. destruct Hv. constructor; cbn; try done.
    + rewrite forallb_app, iv_cur0. cbn. rewrite hdigit_spec. by zdec.
    + by rewrite hvalue_snoc.
    + by rewrite hvalue_snoc.
    + by destruct cur.
  - repeat case_if; try done. lia.
Qed.

Lemma take_insert2 (n m : nat) (x y : Z) (a : list Z) :
  m = S n → (m < length a)%nat → take (S m) (<[m := y]> (<[n := x]> a)) = take n a ++ [x; y].
Proof.
  intros -> Hl. pose proof (take_drop n a) as E. pose proof (length_drop a n) as Hd. destruct (drop n a) as [|p [|q rest]]; cbn in Hd; try lia.
  assert (length (take n a) = n) as Ht by (rewrite length_take; lia). rewrite <-E at 1.
  rewrite !insert_app_r_alt by lia. rewrite Ht, Nat.sub_diag. replace (S n - n)%nat with 1%nat by lia. cbn [list_insert insert].
  rewrite take_app_ge by lia. rewrite Ht. by replace (S (S n) - n)%nat with 2%nat by lia.
Qed.

Lemma put_block_ok f r cur s :
  inv f r cur s → ∃ b, put_block s = mret b ∧ zlen b = 16 ∧ take (Z.to_nat (2 * (num_blocks s + 1))) b = groups ((f ++ default [] r) ++ [cur]).
Proof.
  intros Hv. pose proof (zlen_nonneg (f ++ default [] r)). rewrite <-(iv_num _ _ _ _ Hv) in *.
  pose proof (iv_max _ _ _ _ Hv) as Hm. pose proof (iv_len _ _ _ _ Hv) as Hl.
  unfold put_block. rewrite Hl, (iv_block _ _ _ _ Hv). zdec. eexists. split_and!; [done|unfold zlen in *; by rewrite !length_insert|].
  replace (Z.to_nat (2 * (num_blocks s + 1))) with (S (Z.to_nat (2 * num_blocks s + 1))) by lia.
  rewrite take_insert2, (iv_addr _ _ _ _ Hv) by (unfold zlen in Hl; lia). by rewrite (groups_app _ [cur]).
Qed.

(** A colon after the first character. *)
Lemma colon_step f r cur s (d : bool) :
  inv f r cur s →
  if bool_decide (cur = []) || (num_blocks s =? 7) || d && bool_decide (r ≠ None) then at_colon false d s = refuse
  else ∃ s', at_colon false d s = mret s' ∧ if d then inv (f ++ [cur]) (Some []) [] s' else inv (push f r cur).1 (push f r cur).2 [] s'.
Proof.
  intros Hv. destruct (put_block_ok f r cur s Hv) as (b & Eb & Hb & Ht). unfold at_colon, colon. change (1 >? 0) with true.
  rewrite (iv_empty _ _ _ _ Hv). destruct (bool_decide (cur = [])) eqn:Hc; [done|]. apply bool_decide_eq_false in Hc. cbn [orb].
  destruct (Z.eqb_spec (num_blocks s) 7) as [|Hn]; cbn [orb]; [done|]. rewrite Eb. cbn [mbind P_bind mret P_ret compress_pos num_blocks block empty addr6].
  assert (hex_word cur) as Hw by (split_and!; [done|apply (iv_cur _ _ _ _ Hv)|apply (iv_fits _ _ _ _ Hv)]).
  pose proof (zlen_nonneg f). destruct Hv. destruct d; cbn [andb].
  - rewrite iv_comp0. destruct r as [rw|]; [rewrite bool_decide_eq_true_2 by done; by zdec|]. rewrite bool_decide_eq_false_2 by auto. cbn [Z.eqb Pos.eqb negb].
    eexists. split; [done|]. constructor; cbn in *; rewrite ?app_nil_r in *; try done; [by apply Forall_app_2; [|constructor]| |lia|]; rewrite ?zlen_app; change (zlen [cur]) with 1; lia.
  - eexists. split; [done|]. constructor; cbn; rewrite ?push_words; try done; [by apply Forall_app_2; [|constructor]| |lia|].
    + rewrite zlen_app. change (zlen [cur]) with 1. lia.
    + rewrite iv_comp0. by destruct r.
Qed.

Lemma colon_first s (d : bool) :
  inv [] None [] s → if d then ∃ s', at_colon true d s = mret s' ∧ inv [] (Some []) [] s' else at_colon true d s = refuse.
Proof.
  intros Hv. unfold at_colon, colon. change (0 >? 0) with false. destruct d; [|done]. cbn [negb mbind P_bind mret P_ret].
  rewrite (iv_comp _ _ _ _ Hv). change (-1 =? -1) with true. cbn [negb]. eexists. split; [done|]. destruct Hv. constructor; cbn in *; try done. 
Qed.

(** ** The loop accepts only texts of the grammar, and is safe *)
Lemma shown_nil f r cur : Forall hex_word f → shown f r cur = [] → f = [] ∧ r = None ∧ cur = [].
Proof.
  intros _. unfold shown. destruct f as [|w f]; [destruct r; cbn; [done|auto]|].
  intros E. apply app_eq_nil in E as [E _]. unfold sep in E. cbn in E. apply app_eq_nil in E as [E _]. by apply app_eq_nil in E as [_ E].
Qed.

Lemma colon_any f r cur s (d : bool) :
  inv f r cur s →
  at_colon (bool_decide (shown f r cur = [])) d s = refuse ∨
  ∃ s' f' r', at_colon (bool_decide (shown f r cur = [])) d s = mret s' ∧ inv f' r' [] s' ∧ shown f' r' [] = shown f r cur ++ (if d then [58; 58] else [58]).
Proof.
  intros Hv. destruct (decide (shown f r cur = [])) as [E|E].
  - pose proof (iv_words _ _ _ _ Hv) as Hw. apply Forall_app in Hw as [Hw _]. apply shown_nil in E as (-> & -> & ->); [|done].
    rewrite bool_decide_eq_true_2 by done. pose proof (colon_first s d Hv) as Hc. destruct d; [|by left].
    destruct Hc as (s' & Es & Hs). right. by exists s', [], (Some []).
  - rewrite bool_decide_eq_false_2 by done. pose proof (colon_step f r cur s d Hv) as Hc.
    destruct (_ || _ || _) eqn:Hr; [by left|]. destruct Hc as (s' & Es & Hs). right. destruct d.
    + exists s', (f ++ [cur]), (Some []). split_and!; [done..|]. apply orb_false_iff in Hr as [_ Hr]. cbn in Hr.
      apply bool_decide_eq_false in Hr. destruct r; [by destruct Hr|]. apply shown_double.
    + exists s', (push f r cur).1, (push f r cur).2. split_and!; [done..|]. apply shown_push.
Qed.

Definition scanned (f : list (list Z)) r cur (rest : list Z) (m : P (option (list Z) * st)) : Prop :=
  m = refuse ∨ ∃ stop s' f' r' cur', m = mret (stop, s') ∧ inv f' r' cur' s' ∧
    shown f r cur ++ rest = shown f' r' cur' ++ default [] stop ∧ (stop = None ∨ ∃ rest', stop = Some (46 :: rest')).

Lemma scan_sound n rest f r cur s :
  (length rest <= n)%nat → inv f r cur s → scanned f r cur rest (scan rest (bool_decide (shown f r cur = [])) s).
Proof.
  revert rest f r cur s. induction n as [|n IH]; intros rest f r cur s Hl Hv.
  { destruct rest; [|cbn in Hl; lia]. right. exists None, s, f, r, cur. by auto. }
  destruct rest as [|c rest]; [right; exists None, s, f, r, cur; by auto|]. cbn [length] in Hl. cbn [scan].
  assert (∀ k (pre rest' : list Z) m, c :: rest = pre ++ rest' → pre ≠ [] → (length rest' <= n)%nat →
    (m = refuse ∨ ∃ s' f' r' cur', m = mret s' ∧ inv f' r' cur' s' ∧ shown f' r' cur' = shown f r cur ++ pre) →
    k = (λ s, scan rest' false s) → scanned f r cur (c :: rest) (m ≫= k)) as Hgo.
  { intros k pre rest' m Epre Hpre Hlr [->|(s' & f' & r' & cur' & -> & Hv' & Es)] ->; [by left|].
    cbn [mbind P_bind mret P_ret]. specialize (IH rest' f' r' cur' s' Hlr Hv'). rewrite Es in IH.
    rewrite bool_decide_eq_false_2 in IH by (intros E; apply app_eq_nil in E as [_ E]; done).
    unfold scanned in *. rewrite Es, <-app_assoc, <-Epre in IH. exact IH. }
  case_if; [subst c; right; exists (Some (46 :: rest)), s, f, r, cur; split_and!; [done..|eauto]|].
  assert (∀ d, at_colon (bool_decide (shown f r cur = [])) d s = refuse ∨ ∃ s' f' r' cur', at_colon (bool_decide (shown f r cur = [])) d s = mret s' ∧ inv f' r' cur' s' ∧ shown f' r' cur' = shown f r cur ++ (if d then [58; 58] else [58])) as Hcol.
  { intros d. destruct (colon_any f r cur s d Hv) as [?|(s' & f' & r' & ? & ? & ?)]; [by left|]. right. by exists s', f', r', []. }
  case_if.
  - subst c. destruct rest as [|c1 rest]; [apply (Hgo _ [58] [] _ eq_refl ltac:(done) ltac:(cbn; lia) (Hcol false) eq_refl)|]. cbn [length] in Hl.
    case_if; [subst c1; apply (Hgo _ [58; 58] rest _ eq_refl ltac:(done) ltac:(lia) (Hcol true) eq_refl)|].
    apply (Hgo _ [58] (c1 :: rest) _ eq_refl ltac:(done) ltac:(cbn; lia) (Hcol false) eq_refl).
  - eapply (Hgo _ [c] rest); [done..|lia| |done]. pose proof (hex_step f r cur s c Hv) as Hh. destruct (hdigit c && _); [|by left].
    destruct Hh as (s' & Es & Hs). right. exists s', f, r, (cur ++ [c]). split_and!; [done..|]. apply shown_snoc.
Qed.

(** ** The loop accepts the texts of the grammar *)
Lemma hdigit_char c : hdigit c = true → c ≠ 46 ∧ c ≠ 58.
Proof. rewrite hdigit_spec. intros H. split; intros ->; done. Qed.

Lemma join_snoc ws w : join 58 (ws ++ [w]) = sep ws ++ w.
Proof.
  induction ws as [|w1 ws IH]; [done|]. change (sep (w1 :: ws)) with ((w1 ++ [58]) ++ sep ws). rewrite <-!app_assoc, <-IH.
  cbn [app join]. destruct (ws ++ [w]) eqn:E; [by destruct ws|done].
Qed.

Lemma scan_word w rest b f r cur s :
  inv f r cur s → forallb hdigit w = true → hvalue (cur ++ w) <= 65535 →
  ∃ s', scan (w ++ rest) b s = scan rest (b && bool_decide (w = [])) s' ∧ inv f r (cur ++ w) s'.
Proof.
  revert b cur s. induction w as [|c w IH]; intros b cur s Hv Hd Hf.
  { exists s. rewrite app_nil_r, bool_decide_eq_true_2, andb_true_r by done. done. }
  cbn [forallb] in Hd. apply andb_true_iff in Hd as [Hc Hd]. destruct (hdigit_char c Hc) as [H46 H58]. cbn [app scan]. zdec.
  replace (cur ++ c :: w) with ((cur ++ [c]) ++ w) in * by (by rewrite <-app_assoc). pose proof (hex_step f r cur s c Hv) as Hh.
  assert (forallb hdigit (cur ++ [c]) = true) as Hcc by (rewrite forallb_app, (iv_cur _ _ _ _ Hv); cbn [forallb]; by rewrite Hc).
  assert (hvalue (cur ++ [c]) <= 65535) as Hp.
  { rewrite numeral_value_app in Hf by lia. pose proof (numeral_value_range 16 hex_value ltac:(lia) w ltac:(by rewrite Hd)).
    pose proof (numeral_value_range 16 hex_value ltac:(lia) (cur ++ [c]) ltac:(by rewrite Hcc)).
    pose proof (Z.pow_pos_nonneg 16 (zlen w) ltac:(lia) (zlen_nonneg w)). nia. }
  rewrite Hc, (proj2 (Z.leb_le _ _) Hp) in Hh. cbn [andb] in Hh. destruct Hh as (s' & -> & Hs). cbn [mbind P_bind mret P_ret].
  destruct (IH false (cur ++ [c]) s' Hs Hd Hf) as (s'' & E & Hs''). exists s''. rewrite E, (bool_decide_eq_false_2 (c :: w = [])), andb_false_r by done. done.
Qed.

Definition push_all (f : list (list Z)) (r : option (list (list Z))) (ws : list (list Z)) : list (list Z) * option (list (list Z)) :=
  match r with None => (f ++ ws, None) | Some rw => (f, Some (rw ++ ws)) end.

Lemma scan_colon rest f r cur s :
  inv f r cur s → cur ≠ [] → num_blocks s < 7 → hd_error rest ≠ Some 58 →
  ∃ s', scan (58 :: rest) false s = scan rest false s' ∧ inv (push f r cur).1 (push f r cur).2 [] s'.
Proof.
  intros Hv Hc Hn Hh. pose proof (colon_step f r cur s false Hv) as Hs. rewrite bool_decide_eq_false_2 in Hs by done.
  rewrite (proj2 (Z.eqb_neq (num_blocks s) 7)) in Hs by lia. cbn [orb andb] in Hs. destruct Hs as (s' & Es & Hs). exists s'. split; [|done].
  cbn [scan]. change (58 =? 46) with false. change (58 =? 58) with true. destruct rest as [|c1 rest]; [by rewrite Es|].
  cbn in Hh. rewrite (proj2 (Z.eqb_neq c1 58)) by congruence. by rewrite Es.
Qed.

Lemma push_push_all f r w ws : push_all (push f r w).1 (push f r w).2 ws = push_all f r (w :: ws).
Proof. unfold push_all, push. destruct r; cbn; by rewrite <-app_assoc. Qed.

Lemma scan_sep ws rest b f r s :
  inv f r [] s → Forall hex_word ws → num_blocks s + zlen ws <= 7 → hd_error rest ≠ Some 58 →
  ∃ s', scan (sep ws ++ rest) b s = scan rest (b && bool_decide (ws = [])) s' ∧ inv (push_all f r ws).1 (push_all f r ws).2 [] s'.
Proof.
  revert b f r s. induction ws as [|w ws IH]; intros b f r s Hv Hw Hn Hh.
  { exists s. rewrite bool_decide_eq_true_2, andb_true_r by done. split; [done|]. unfold push_all. destruct r; cbn; by rewrite app_nil_r. }
  apply Forall_cons in Hw as [(Hw1 & Hw2 & Hw3) Hws]. rewrite zlen_cons in Hn. pose proof (zlen_nonneg ws).
  change (sep (w :: ws)) with ((w ++ [58]) ++ sep ws). rewrite <-!app_assoc. cbn [app].
  destruct (scan_word w (58 :: sep ws ++ rest) b f r [] s Hv Hw2 Hw3) as (s1 & E1 & Hs1). cbn [app] in Hs1.
  rewrite E1, !(bool_decide_eq_false_2 (_ = [])), andb_false_r by done.
  assert (num_blocks s1 = num_blocks s) as En by (by rewrite (iv_num _ _ _ _ Hs1), (iv_num _ _ _ _ Hv)).
  destruct (scan_colon (sep ws ++ rest) f r w s1 Hs1 Hw1 ltac:(lia)) as (s2 & E2 & Hs2).
  { destruct ws as [|w' ws]; [done|]. apply Forall_cons in Hws as [(Hn1 & Hn2 & _) _]. destruct w' as [|c w']; [done|].
    cbn in Hn2 |- *. apply andb_true_iff in Hn2 as [Hc _]. apply hdigit_char in Hc. intros [=]. lia. }
  destruct (IH false _ _ _ Hs2 Hws) as (s3 & E3 & Hs3); [|done|].
  { rewrite (iv_num _ _ _ _ Hs2), push_words, zlen_app, <-(iv_num _ _ _ _ Hv). change (zlen [w]) with 1. lia. }
  exists s3. rewrite E2, E3. rewrite push_push_all in Hs3. done.
Qed.

Lemma scan_front ws rest s :
  inv [] None [] s → Forall hex_word ws → zlen ws <= 7 →
  ∃ s', scan (join 58 ws ++ 58 :: 58 :: rest) true s = scan rest false s' ∧ inv ws (Some []) [] s'.
Proof.
  intros Hv Hw Hn. pose proof (iv_num _ _ _ _ Hv) as Hnum. cbn in Hnum.
  destruct (decide (ws = [])) as [->|Hne].
  { pose proof (colon_first s true Hv) as (s' & Es & Hs). exists s'. split; [|done]. cbn [join app scan].
    change (58 =? 46) with false. change (58 =? 58) with true. by rewrite Es. }
  destruct (exists_last Hne) as (f & w & ->). apply Forall_app in Hw as [Hf Hw]. apply Forall_cons in Hw as [(Hw1 & Hw2 & Hw3) _].
  rewrite zlen_app in Hn. change (zlen [w]) with 1 in Hn. rewrite join_snoc, <-app_assoc.
  destruct (scan_sep f (w ++ 58 :: 58 :: rest) true [] None s Hv Hf ltac:(change (zlen []) with 0 in *; lia)) as (s1 & E1 & Hs1).
  { destruct w as [|c w]; [done|]. cbn in Hw2 |- *. apply andb_true_iff in Hw2 as [Hc _]. apply hdigit_char in Hc. intros [=]. lia. }
  cbn [push_all fst snd app] in Hs1.
  destruct (scan_word w (58 :: 58 :: rest) (true && bool_decide (f = [])) f None [] s1 Hs1 Hw2 Hw3) as (s2 & E2 & Hs2). cbn [app] in Hs2.
  pose proof (colon_step f None w s2 true Hs2) as Hc. rewrite bool_decide_eq_false_2 in Hc by done. rewrite (bool_decide_eq_false_2 (None ≠ None)) in Hc by auto.
  rewrite (iv_num _ _ _ _ Hs2) in Hc. cbn [default] in Hc. rewrite app_nil_r, (proj2 (Z.eqb_neq (zlen f) 7)) in Hc by lia. cbn [orb andb] in Hc.
  destruct Hc as (s3 & E3 & Hs3). exists s3. split; [|done]. rewrite E1, E2, (bool_decide_eq_false_2 (w = [])), andb_false_r by done. cbn [scan].
  change (58 =? 46) with false. change (58 =? 58) with true. by rewrite E3.
Qed.

(** ** The end of the text *)
Lemma move_fill c n a :
  zlen a = 16 → 0 <= c <= n → n <= 8 →
  (b ← move (2 * (8 - (n - c))) (2 * c) (2 * (n - c)) a; fill 0 (2 * c) (2 * (8 - (n - c) - c)) b)
  = mret (take (Z.to_nat (2 * c)) a ++ replicate (Z.to_nat (16 - 2 * n)) 0 ++ slice (2 * c) (2 * (n - c)) a).
Proof.
  intros Hl Hc Hn. unfold move, fill. rewrite Hl.
  assert (zlen (slice (2 * c) (2 * (n - c)) a) = 2 * (n - c)) as Hs by (apply zlen_slice; lia).
  zdec. cbn [mbind P_bind mret P_ret]. rewrite zlen_blit, Hl by lia. zdec. unfold mret, P_ret. do 2 f_equal.
  set (B := slice (2 * c) (2 * (n - c)) a) in *. unfold blit, zlen in *. rewrite length_replicate.
  rewrite take_app_le by (rewrite length_take; lia). rewrite take_take. f_equal; [f_equal; lia|]. f_equal; [f_equal; lia|].
  rewrite drop_app_ge by (rewrite length_take; lia). rewrite length_take.
  rewrite (drop_ge a) by lia. rewrite app_nil_r. replace (_ - _)%nat with O by lia. done.
Qed.

Lemma finish_full s :
  compress_pos s = -1 → zlen (addr6 s) = 16 → finish s = if num_blocks s =? 8 then mret (addr6 s) else refuse.
Proof.
  intros Hc Hl. unfold finish. rewrite Hc. change (-1 =? -1) with true. destruct (Z.eqb_spec (num_blocks s) 8) as [E|]; cbn [negb]; [|done].
  cbn [mbind P_bind mret P_ret num_blocks compress_pos addr6]. rewrite E. rewrite (move_fill 0 8) by lia. unfold mret, P_ret. do 2 f_equal.
  change (Z.to_nat (2 * 0)) with O. change (Z.to_nat (16 - 2 * 8)) with O. cbn [take replicate app]. change (2 * (8 - 0)) with 16.
  rewrite <-Hl. apply slice_all.
Qed.

Lemma finish_mid s :
  zlen (addr6 s) = 16 → 0 <= compress_pos s <= num_blocks s → num_blocks s <= 8 →
  finish s = mret (take (Z.to_nat (2 * compress_pos s)) (addr6 s) ++ replicate (Z.to_nat (16 - 2 * num_blocks s)) 0
                   ++ drop (Z.to_nat (2 * compress_pos s)) (take (Z.to_nat (2 * num_blocks s)) (addr6 s))).
Proof.
  intros Hl Hc Hn. unfold finish. rewrite (proj2 (Z.eqb_neq (compress_pos s) (-1))) by lia. cbn [mbind P_bind mret P_ret].
  rewrite move_fill by lia. do 4 f_equal. unfold slice. rewrite take_drop_commute. f_equal. f_equal. lia.
Qed.

(** What the groups that were read give. *)
Lemma finish_groups f (r : option (list (list Z))) s (g : list Z) :
  zlen (addr6 s) = 16 → num_blocks s <= 8 → take (Z.to_nat (2 * num_blocks s)) (addr6 s) = groups f ++ g → zlen g = 2 * num_blocks s - 2 * zlen f →
  compress_pos s = match r with None => -1 | Some _ => zlen f end →
  finish s = match r with
             | None => if zlen (groups f ++ g) =? 16 then mret (groups f ++ g) else refuse
             | Some _ => mret (groups f ++ replicate (16 - length (groups f) - length g) 0 ++ g)
             end.
Proof.
  intros Hl Hn Ht Hg Hc. pose proof (zlen_nonneg f). pose proof (zlen_nonneg g). pose proof (zlen_groups f) as Hf. destruct r as [r|].
  - rewrite finish_mid, Ht by (rewrite ?Hc; lia). rewrite Hc.
    assert (Z.to_nat (2 * zlen f) = length (groups f)) as E by (unfold zlen in *; lia). rewrite E, drop_app_length.
    assert (take (length (groups f)) (addr6 s) = groups f) as ->.
    { rewrite <-(take_app_length (groups f) g) at 2. rewrite <-Ht, take_take. f_equal. unfold zlen in *. lia. }
    do 4 f_equal. unfold zlen in *. lia.
  - rewrite finish_full by done. rewrite zlen_app, Hf.
    destruct (Z.eqb_spec (num_blocks s) 8) as [E|]; destruct (Z.eqb_spec (2 * zlen f + zlen g) 16); try lia; [|done].
    rewrite <-Ht, E, take_ge; [done|]. unfold zlen in *. lia.
Qed.

Lemma ending_hex f r cur s :
  inv f r cur s →
  (s ← last_block s; finish s) =
    if bool_decide (cur = []) then match r with Some [] => mret (groups f ++ replicate (16 - length (groups f)) 0) | _ => refuse end
    else match r with
         | None => if zlen (groups (f ++ [cur])) =? 16 then mret (groups (f ++ [cur])) else refuse
         | Some rw => mret (groups f ++ replicate (16 - length (groups f) - length (groups (rw ++ [cur]))) 0 ++ groups (rw ++ [cur]))
         end.
Proof.
  intros Hv. pose proof (put_block_ok f r cur s Hv) as (b & Eb & Hb & Ht). pose proof (zlen_nonneg f).
  pose proof (iv_max _ _ _ _ Hv) as Hm. pose proof (iv_num _ _ _ _ Hv) as Hn. rewrite zlen_app in Hn.
  unfold last_block. rewrite (iv_empty _ _ _ _ Hv). case_bool_decide as Hc; cbn [negb].
  - rewrite (iv_comp _ _ _ _ Hv). destruct r as [[|w rw]|].
    + change (zlen (default [] (Some []))) with 0 in Hn. rewrite Z.add_0_r in Hn. rewrite Hn, Z.eqb_refl. cbn [negb mbind P_bind mret P_ret].
      rewrite (finish_groups f (Some []) s []); [by rewrite app_nil_r, Nat.sub_0_r|apply Hv|lia| |rewrite zlen_nil; lia|apply Hv].
      rewrite (iv_addr _ _ _ _ Hv). change (default [] (Some [])) with (@nil (list Z)). by rewrite !app_nil_r.
    + change (default [] (Some (w :: rw))) with (w :: rw) in Hn. rewrite zlen_cons in Hn. pose proof (zlen_nonneg rw). by zdec.
    + change (zlen (default [] None)) with 0 in Hn. by zdec.
  - rewrite Eb. cbn [mbind P_bind mret P_ret]. rewrite <-app_assoc, groups_app in Ht.
    rewrite (finish_groups f r _ (groups (default [] r ++ [cur]))); cbn [num_blocks addr6 compress_pos]; [|done|lia|done| |apply Hv].
    + destruct r as [rw|]; cbn [default]; [done|]. by rewrite <-groups_app.
    + rewrite zlen_groups, zlen_app. change (zlen [cur]) with 1. lia.
Qed.

(** *** An IPv4 address at the end *)
Definition dec_word (w : list Z) : Prop := canonical w ∧ dvalue w <= 255.

Lemma dvalue_snoc w c : dvalue (w ++ [c]) = dvalue w * 10 + dec_value c.
Proof. rewrite numeral_value_app, numeral_value_cons by lia. change (zlen [c]) with 1. change (zlen (@nil Z)) with 0. change (dvalue []) with 0. lia. Qed.

Lemma decode_decimal_neg c : (decode_decimal_digit c <? 0) = negb (ddigit c).
Proof. unfold is_digit. rewrite <-decode_decimal_ok. unfold decode_decimal_digit. case_if; zdec; done. Qed.

Lemma dvalue_zero w : canonical w → dvalue w = 0 → w = [48].
Proof.
  intros (Hn & Hd & Hz) Hv. destruct w as [|c w]; [done|]. destruct (decide (c = 48)) as [->|Hc]; [by apply Hz|].
  cbn [forallb] in Hd. apply andb_true_iff in Hd as [H1 H2]. apply ddigit_spec in H1.
  rewrite numeral_value_cons, decode_decimal in Hv by lia. pose proof (numeral_value_range 10 dec_value ltac:(lia) w ltac:(by rewrite H2)).
  pose proof (Z.pow_pos_nonneg 10 (zlen w) ltac:(lia) (zlen_nonneg w)). nia.
Qed.

Lemma canonical_snoc w c : canonical w → dvalue w ≠ 0 → ddigit c = true → canonical (w ++ [c]).
Proof.
  intros (Hn & Hd & Hz) Hv Hc. split_and!; [by destruct w|rewrite forallb_app, Hd; cbn [forallb]; by rewrite Hc|].
  destruct w as [|a w]; [done|]. intros E. cbn [app hd_error] in E. rewrite Hz in Hv by done. done.
Qed.
Lemma canonical_one c : ddigit c = true → canonical [c].
Proof. intros Hc. split_and!; [done|cbn [forallb]; by rewrite Hc|cbn; congruence]. Qed.

(** The words before, and the word that is read. *)
Lemma ending_loop_sound str bs w :
  (w = [] ∨ dec_word w) → zlen bs <= 3 →
  let m := ipv4_ending_loop str bs (dvalue w) (bool_decide (w = [])) in
  m ≠ None ∧ ∀ b, m = mret b → ∃ ws, w ++ str = join 46 ws ∧ Forall dec_word ws ∧ b = bs ++ (numeral_value 10 dec_value <$> ws) ∧ zlen b = 4.
Proof.
  revert bs w. induction str as [|c str IH]; intros bs w Hw Hb; cbn [ipv4_ending_loop].
  - destruct (Z.eqb_spec (zlen bs) 3) as [E|]; [|done]. cbn [negb orb]. case_bool_decide as Hn; [done|]. split; [done|]. intros b [= <-].
    destruct Hw as [|Hw]; [done|]. exists [w]. split_and!; [by rewrite app_nil_r|by constructor|done|rewrite zlen_app, E; done].
  - destruct (Z.eqb_spec c 46) as [->|H46].
    + case_bool_decide as Hn; [done|]. destruct Hw as [|Hw]; [done|]. cbn [orb].
      destruct (Z.eqb_spec (zlen bs) 3) as [E|]; [done|]. 
      destruct (IH (bs ++ [dvalue w]) [] ltac:(by left)) as [H1 H2]; [rewrite zlen_app; change (zlen [dvalue w]) with 1; lia|].
      rewrite bool_decide_eq_true_2 in H1, H2 by done. split; [exact H1|]. intros b Em. destruct (H2 b Em) as (ws & E1 & E2 & E3 & E4).
      exists (w :: ws). cbn in E1. split_and!; [|by constructor|rewrite E3, <-app_assoc; done|done].
      destruct ws as [|w' ws]; [|by rewrite E1]. subst b. exfalso. revert E4. rewrite app_nil_r, zlen_app. change (zlen [dvalue w]) with 1. lia.
    + destruct (negb (bool_decide (w = [])) && (dvalue w =? 0)) eqn:Hz; [done|]. rewrite decode_decimal_neg, decode_decimal_ok.
      destruct (ddigit c) eqn:Hc; cbn [negb]; [|done]. destruct (dvalue w >? 255 / 10); [done|].
      destruct (Z.gtb_spec (dec_value c) (255 - dvalue w * 10)); [done|].
      rewrite <-dvalue_snoc. assert (bool_decide (w ++ [c] = []) = false) as En by (apply bool_decide_eq_false_2; by destruct w).
      rewrite <-En. replace (w ++ c :: str) with ((w ++ [c]) ++ str) by (by rewrite <-app_assoc). apply IH; [|done]. right.
      split; [|rewrite dvalue_snoc; lia]. destruct Hw as [->|[Hw _]]; [by apply canonical_one|]. apply canonical_snoc; [done| |done].
      intros E. rewrite E, bool_decide_eq_false_2 in Hz by apply Hw. done.
Qed.

Lemma dvalue_prefix u w : forallb ddigit (u ++ w) = true → 0 <= dvalue u <= dvalue (u ++ w).
Proof.
  rewrite forallb_app. intros [Hu Hw]%andb_true_iff. rewrite numeral_value_app by lia.
  pose proof (numeral_value_range 10 dec_value ltac:(lia) w ltac:(by rewrite Hw)).
  pose proof (numeral_value_range 10 dec_value ltac:(lia) u ltac:(by rewrite Hu)).
  pose proof (Z.pow_pos_nonneg 10 (zlen w) ltac:(lia) (zlen_nonneg w)). nia.
Qed.

Lemma ending_word w u rest bs :
  w ≠ [] → dec_word (u ++ w) →
  ipv4_ending_loop (w ++ rest) bs (dvalue u) (bool_decide (u = [])) = ipv4_ending_loop rest bs (dvalue (u ++ w)) false.
Proof.
  revert u. induction w as [|c w IH]; intros u Hne Hw; [done|]. clear Hne. cbn [app ipv4_ending_loop].
  replace (u ++ c :: w) with ((u ++ [c]) ++ w) in * by (by rewrite <-app_assoc). destruct Hw as [(Hn & Hd & Hz) Hv].
  pose proof (dvalue_prefix _ _ Hd) as Hp. rewrite dvalue_snoc in Hp.
  assert (forallb ddigit (u ++ [c]) = true) as Huc by (rewrite forallb_app in Hd; by apply andb_true_iff in Hd as [? _]).
  pose proof (dvalue_prefix _ _ Huc) as Hu. assert (ddigit c = true) as Hc.
  { rewrite forallb_app in Huc. apply andb_true_iff in Huc as [_ Huc]. cbn [forallb] in Huc. by rewrite andb_true_r in Huc. }
  assert (negb (bool_decide (u = [])) && (dvalue u =? 0) = false) as ->.
  { case_bool_decide as Hun; [done|]. cbn [negb andb]. apply Z.eqb_neq. intros E0. rewrite forallb_app in Huc. apply andb_true_iff in Huc as [Hud _].
    destruct u as [|a u]; [done|]. destruct (decide (a = 48)) as [->|Ha].
    - specialize (Hz eq_refl). by destruct u.
    - assert (a :: u = [48]) as [=]; [|done]. apply dvalue_zero; [|done]. split_and!; [done..|cbn; congruence]. }
  pose proof Hc as Hcr. apply ddigit_spec in Hcr. pose proof (decode_decimal c Hcr) as Edc. rewrite decode_decimal_neg, decode_decimal_ok, Hc. cbn [negb].
  change (255 / 10) with 25. rewrite (proj2 (Z.eqb_neq c 46)), !Z.gtb_ltb, (proj2 (Z.ltb_ge 25 (dvalue u))), (proj2 (Z.ltb_ge (255 - dvalue u * 10) (dec_value c))) by lia.
  rewrite <-dvalue_snoc. destruct (decide (w = [])) as [->|Hwn]; [by rewrite app_nil_r|].
  rewrite <-(IH (u ++ [c]) Hwn) by (split; [split_and!; done|done]). f_equal. symmetry. apply bool_decide_eq_false_2. by destruct u.
Qed.

Lemma dec_word_short w : dec_word w → zlen w <= 3.
Proof.
  intros [(Hn & Hd & Hz) Hv]. destruct w as [|c w]; [done|]. destruct (decide (c = 48)) as [->|Hc]; [by rewrite Hz|].
  cbn [forallb] in Hd. apply andb_true_iff in Hd as [H1 H2]. apply ddigit_spec in H1. rewrite zlen_cons.
  rewrite numeral_value_cons, decode_decimal in Hv by lia. pose proof (numeral_value_range 10 dec_value ltac:(lia) w ltac:(by rewrite H2)).
  destruct (Z.le_gt_cases (zlen w) 2); [lia|]. pose proof (Z.pow_le_mono_r 10 3 (zlen w) ltac:(lia) ltac:(lia)). change (10 ^ 3) with 1000 in *. nia.
Qed.

Lemma dec_word_decimal b : is_u8 b → dec_word (decimal b) ∧ dvalue (decimal b) = b.
Proof.
  unfold is_u8, UINT8_MAX. intros Hb. destruct (decimal_ok b ltac:(unfold UINTMAX_MAX; lia)) as (Hc & Hv & _). split; [|done]. split; [done|lia].
Qed.

Lemma ending_decimal b rest bs : is_u8 b → ipv4_ending_loop (decimal b ++ rest) bs 0 true = ipv4_ending_loop rest bs b false.
Proof.
  intros Hb. destruct (dec_word_decimal b Hb) as [Hw Hv]. pose proof (ending_word (decimal b) [] rest bs) as E. rewrite bool_decide_eq_true_2 in E by done.
  change (dvalue []) with 0 in E. cbn [app] in E. rewrite Hv in E. apply E; [apply Hw|done].
Qed.

Lemma ending_loop_exact str :
  ipv4_ending_loop str [] 0 true ≠ None ∧
  ∀ b, ipv4_ending_loop str [] 0 true = mret b ↔ bytes b ∧ length b = 4%nat ∧ str = print_bytes b.
Proof.
  destruct (ending_loop_sound str [] [] ltac:(by left) ltac:(done)) as [H1 H2]. change (dvalue []) with 0 in *. rewrite bool_decide_eq_true_2 in H1, H2 by done.
  split; [done|]. intros b. split.
  - intros E. destruct (H2 b E) as (ws & Es & Hw & -> & Hl). cbn [app] in *. unfold zlen in Hl. rewrite length_fmap in Hl.
    assert (∀ w, dec_word w → is_u8 (dvalue w) ∧ decimal (dvalue w) = w) as Hd.
    { intros w [Hc Hv]. pose proof (numeral_value_range 10 dec_value ltac:(lia) w ltac:(by rewrite (proj1 (proj2 Hc)))) as R.
      split; [unfold is_u8, UINT8_MAX; lia|]. apply decimal_canonical; [done|].
      pose proof (dec_word_short w (conj Hc Hv)). lia. }
    destruct ws as [|w0 [|w1 [|w2 [|w3 [|]]]]]; try (cbn in Hl; lia). repeat (apply Forall_cons in Hw as [? Hw]).
    cbn [fmap list_fmap]. split_and!; [repeat (apply Forall_cons; split; [by apply Hd|]); by apply Forall_nil|done|].
    unfold print_bytes. rewrite !(λ w H, proj2 (Hd w H)) by done. exact Es.
  - intros (Hb & Hl & ->). destruct b as [|b0 [|b1 [|b2 [|b3 [|]]]]]; try done. repeat (apply Forall_cons in Hb as [? Hb]).
    unfold print_bytes. rewrite ending_decimal by done. cbn [app ipv4_ending_loop]. change (46 =? 46) with true. change (zlen [] =? 3) with false. cbn [orb app].
    rewrite ending_decimal by done. cbn [app ipv4_ending_loop]. change (46 =? 46) with true. change (zlen [b0] =? 3) with false. cbn [orb app].
    rewrite ending_decimal by done. cbn [app ipv4_ending_loop]. change (46 =? 46) with true. change (zlen [b0; b1] =? 3) with false. cbn [orb app].
    rewrite <-(app_nil_r (decimal b3)), ending_decimal by done. cbn [ipv4_ending_loop]. change (zlen [b0; b1; b2] =? 3) with true. done.
Qed.

Lemma shown_cur f r cur : shown f r cur = shown f r [] ++ cur.
Proof. unfold shown. destruct r; rewrite ?app_nil_r, <-?app_assoc; done. Qed.
Lemma sep_ends ws : ws ≠ [] → ∃ pre, sep ws = pre ++ [58].
Proof. intros Hn. destruct (exists_last Hn) as (f & w & ->). exists (sep f ++ w). by rewrite sep_snoc, app_assoc. Qed.
Lemma shown_ends f r : f ≠ [] ∨ r ≠ None → ∃ pre, shown f r [] = pre ++ [58].
Proof.
  intros Hn. unfold shown. destruct r as [rw|]; [|destruct Hn as [Hn|]; [|done]; rewrite app_nil_r; by apply sep_ends]. rewrite app_nil_r.
  destruct (decide (rw = [])) as [->|Hr].
  - change (sep []) with (@nil Z). rewrite app_nil_r. destruct f as [|w f]; [by exists [58]|]. by exists (sep (w :: f)).
  - destruct (sep_ends rw Hr) as [pre ->]. eexists. by rewrite !app_assoc.
Qed.

Lemma back_loop_ok fuel pre cur rest :
  58 ∉ cur → (length cur < fuel)%nat → back_loop fuel (pre ++ 58 :: cur ++ rest) (zlen (pre ++ 58 :: cur)) = mret (zlen (pre ++ [58])).
Proof.
  revert fuel rest. induction cur as [|c cur IH] using rev_ind; intros fuel rest Hc Hf; (destruct fuel as [|fuel]; [cbn in Hf; lia|]); cbn [back_loop].
  - assert (char_at (pre ++ 58 :: [] ++ rest) (zlen (pre ++ [58]) - 1) = mret 58) as ->; [|done].
    apply (char_at_drop _ _ _ rest); rewrite zlen_app; change (zlen [58]) with 1; [pose proof (zlen_nonneg pre); lia|].
    replace (Z.to_nat (zlen pre + 1 - 1)) with (length pre) by (unfold zlen; lia). by rewrite drop_app_length.
  - assert (zlen (pre ++ 58 :: cur ++ [c]) - 1 = zlen (pre ++ 58 :: cur)) as Ez by zlia. rewrite Ez.
    assert (char_at (pre ++ 58 :: (cur ++ [c]) ++ rest) (zlen (pre ++ 58 :: cur)) = mret c) as ->.
    { apply (char_at_drop _ _ _ rest); [apply zlen_nonneg|]. unfold zlen. rewrite Nat2Z.id, <-app_assoc, app_comm_cons, app_assoc. by rewrite drop_app_length. }
    rewrite not_elem_of_app in Hc. destruct Hc as [Hc1 Hc2]. rewrite list_elem_of_singleton in Hc2. cbn [mbind P_bind mret P_ret].
    rewrite (proj2 (Z.eqb_neq c 58)) by congruence. rewrite <-app_assoc. apply IH; [done|]. rewrite length_app in Hf. cbn in Hf. lia.
Qed.

Lemma cur_no_colon f r cur s : inv f r cur s → 58 ∉ cur.
Proof.
  intros Hv Hin. pose proof (iv_cur _ _ _ _ Hv) as Hc. rewrite forallb_forall in Hc. apply list_elem_of_In, Hc, hdigit_char in Hin. lia.
Qed.

(** What the reader gives when it meets a dot after [shown f r cur]. *)
Definition ipv4_result (f : list (list Z)) (r : option (list (list Z))) (b4 : list Z) : option (list Z) :=
  match r with
  | None => if zlen (groups f ++ b4) =? 16 then Some (groups f ++ b4) else None
  | Some rw => Some (groups f ++ replicate (16 - length (groups f) - length (groups rw ++ b4)) 0 ++ groups rw ++ b4)
  end.

Lemma ipv4_finish f r cur s b4 e :
  inv f r cur s → length b4 = 4%nat → num_blocks s <= 6 →
  finish (mkSt (num_blocks s + 2) (compress_pos s) (block s) e (blit (2 * num_blocks s) b4 (addr6 s)))
  = match ipv4_result f r b4 with Some b => mret b | None => refuse end.
Proof.
  intros Hv Hl Hn. pose proof (iv_len _ _ _ _ Hv) as Hla. pose proof (iv_num _ _ _ _ Hv) as Hnum. rewrite zlen_app in Hnum.
  pose proof (zlen_nonneg f). pose proof (zlen_nonneg (default [] r)).
  assert (zlen b4 = 4) as Hl4 by (unfold zlen; lia).
  rewrite (finish_groups f r _ (groups (default [] r) ++ b4)); cbn [num_blocks compress_pos addr6]; [|rewrite zlen_blit; lia|lia| | |apply Hv].
  - unfold ipv4_result. destruct r as [rw|]; [done|]. change (groups (default [] None)) with (@nil Z). cbn [app]. by case_if.
  - unfold blit. rewrite (iv_addr _ _ _ _ Hv), app_assoc, take_app_le, take_ge, groups_app, <-app_assoc; [done| |];
      rewrite length_app; pose proof (zlen_groups (f ++ default [] r)) as Hg; rewrite zlen_app in Hg; unfold zlen in *; lia.
  - rewrite zlen_app, zlen_groups. lia.
Qed.

Lemma ending_ipv4 f r cur s rest :
  inv f r cur s →
  let name := shown f r cur ++ 46 :: rest in
  let m := s ← ipv4_ending name (zlen (shown f r cur)) s; finish s in
  m ≠ None ∧ ∀ b, m = mret b ↔ ∃ b4, cur ≠ [] ∧ (f ≠ [] ∨ r ≠ None) ∧ zlen (f ++ default [] r) <= 6 ∧
    bytes b4 ∧ length b4 = 4%nat ∧ cur ++ 46 :: rest = print_bytes b4 ∧ ipv4_result f r b4 = Some b.
Proof.
  intros Hv name m. subst m. unfold ipv4_ending. rewrite (iv_empty _ _ _ _ Hv).
  case_bool_decide as Hc; cbn [orb]; [split; [done|]; intros b; split; [done|intros (? & ? & _); done]|].
  pose proof (zlen_nonneg f) as Hzf. pose proof (iv_num _ _ _ _ Hv) as Hn. pose proof (iv_comp _ _ _ _ Hv) as Hcp.
  destruct ((num_blocks s =? 0) && (compress_pos s =? -1)) eqn:Hz.
  { split; [done|]. intros b. split; [done|]. intros (? & _ & Hfr & _). exfalso. zb. destruct r; [lia|].
    change (default [] None) with (@nil (list Z)) in Hn. rewrite app_nil_r in Hn. destruct Hfr as [Hfr|]; [|done]. apply Hfr, zlen_zero_inv. lia. }
  assert (f ≠ [] ∨ r ≠ None) as Hfr.
  { destruct r; [by right|]. left. intros ->. rewrite Hn, Hcp in Hz. done. }
  destruct (shown_ends f r Hfr) as [pre Epre].
  assert (name = pre ++ 58 :: cur ++ 46 :: rest) as Ename by (unfold name; rewrite shown_cur, Epre, <-!app_assoc; done).
  assert (zlen (shown f r cur) = zlen (pre ++ 58 :: cur)) as -> by (rewrite shown_cur, Epre; zlia).
  rewrite Ename, back_loop_ok; [|by eapply cur_no_colon|rewrite length_app; cbn; rewrite length_app; lia].
  cbn [mbind P_bind mret P_ret]. replace (pre ++ 58 :: cur ++ 46 :: rest) with ((pre ++ [58]) ++ cur ++ 46 :: rest) by (by rewrite <-app_assoc).
  replace (Z.to_nat (zlen (pre ++ [58]))) with (length (pre ++ [58])) by (unfold zlen; lia). rewrite drop_app_length.
  destruct (ending_loop_exact (cur ++ 46 :: rest)) as [Hsafe Hex].
  destruct (ipv4_ending_loop (cur ++ 46 :: rest) [] 0 true) as [[b4|]|]; [|split; [done|]; intros b; split; [done|]|done].
  2: { intros (b4 & _ & _ & _ & Hb & Hl & E & _). by discriminate (proj2 (Hex b4) (conj Hb (conj Hl E))). }
  destruct (proj1 (Hex b4) eq_refl) as (Hb & Hl & E). cbn [mbind P_bind mret P_ret].
  assert (∀ b4', bytes b4' → length b4' = 4%nat → cur ++ 46 :: rest = print_bytes b4' → b4' = b4) as Huniq.
  { intros b4' H1 H2 H3. pose proof (proj2 (Hex b4') (conj H1 (conj H2 H3))) as E'. by injection E' as ->. }
  destruct (Z.ltb_spec (8 - num_blocks s) 2) as [H6|H6].
  { split; [done|]. intros b. split; [done|]. intros (? & _ & _ & H6' & _). lia. }
  pose proof (zlen_nonneg (f ++ default [] r)). pose proof (iv_len _ _ _ _ Hv) as Hla. rewrite Hla. zdec.
  cbn [mbind P_bind mret P_ret]. rewrite (ipv4_finish f r cur s b4) by (try done; lia). split; [by destruct (ipv4_result f r b4)|]. intros b. split.
  - intros Em. exists b4. split_and!; try done; [lia|]. destruct (ipv4_result f r b4); by simplify_eq/=.
  - intros (b4' & _ & _ & _ & H1 & H2 & H3 & H4). rewrite (Huniq b4' H1 H2 H3) in H4. by rewrite H4.
Qed.

(** ** The reader accepts exactly the grammar *)
Lemma inv_start out : zlen out = 16 → inv [] None [] (mkSt 0 (-1) 0 true out).
Proof. intros Hl. constructor; cbn; try done. Qed.

Lemma parse_scan name out :
  ipaddr6_parse_ipv6_addr_bin name out =
  r ← scan name true (mkSt 0 (-1) 0 true out);
  match r.1 with
  | None => s ← last_block r.2; finish s
  | Some rest => s ← ipv4_ending name (zlen name - zlen rest) r.2; finish s
  end.
Proof.
  unfold ipaddr6_parse_ipv6_addr_bin. rewrite (blocks_loop_scan _ name 0 _ name) by (try done; lia).
  change (0 =? 0) with true. destruct (scan name true _) as [[[stop s']|]|]; [|done..]. by destruct stop.
Qed.

Lemma shown_join f rw t : shown f (Some rw) t = join 58 f ++ [58; 58] ++ sep rw ++ t.
Proof.
  unfold shown. destruct (decide (f = [])) as [->|Hf]; [done|]. destruct (exists_last Hf) as (f' & w & ->).
  rewrite join_snoc, sep_snoc, <-!app_assoc. by destruct f'.
Qed.

Lemma sound_hex f r cur s b :
  inv f r cur s → (s ← last_block s; finish s) = mret b → text6 (shown f r cur) b.
Proof.
  intros Hv. rewrite (ending_hex f r cur s Hv). pose proof (iv_words _ _ _ _ Hv) as Hw. apply Forall_app in Hw as [Hf Hr].
  pose proof (iv_num _ _ _ _ Hv) as Hn. rewrite zlen_app in Hn. pose proof (iv_max _ _ _ _ Hv). pose proof (zlen_nonneg f). pose proof (zlen_nonneg (default [] r)).
  case_bool_decide as Hc.
  - subst cur. destruct r as [[|]|]; try done. intros [= <-]. rewrite shown_join. cbn [sep fmap list_fmap concat app]. apply text6_end; [done|lia].
  - assert (hex_word cur) as Hcw by (split_and!; [done|apply Hv|apply Hv]). destruct r as [rw|].
    + change (default [] (Some rw)) with rw in *. intros [= <-]. rewrite shown_join, <-join_snoc.
      apply text6_mid; [done|lia| |rewrite !zlen_groups, zlen_app; change (zlen [cur]) with 1; lia].
      apply groups_hex; [by destruct rw|]. apply Forall_app_2; [done|by constructor].
    + destruct (Z.eqb_spec (zlen (groups (f ++ [cur]))) 16); [|done]. intros [= <-]. unfold shown. rewrite <-join_snoc.
      apply text6_full; [|done]. apply groups_hex; [by destruct f|]. apply Forall_app_2; [done|by constructor].
Qed.

Lemma sound_ipv4 f r cur s rest b :
  inv f r cur s → (s ← ipv4_ending (shown f r cur ++ 46 :: rest) (zlen (shown f r cur)) s; finish s) = mret b → text6 (shown f r cur ++ 46 :: rest) b.
Proof.
  intros Hv Em. apply (ending_ipv4 f r cur s rest Hv) in Em as (b4 & Hc & Hfr & H6 & Hb & Hl & E & Hres).
  pose proof (iv_words _ _ _ _ Hv) as Hw. apply Forall_app in Hw as [Hf Hr]. rewrite zlen_app in H6. pose proof (zlen_nonneg f). pose proof (zlen_nonneg (default [] r)).
  rewrite shown_cur, <-app_assoc, E. rewrite <-shown_cur. unfold ipv4_result in Hres. destruct r as [rw|].
  - change (default [] (Some rw)) with rw in *. injection Hres as <-. rewrite shown_join, <-join_snoc.
    apply text6_mid; [done|lia|by apply groups_ipv4|]. rewrite zlen_app, !zlen_groups. unfold zlen at 3. lia.
  - destruct (Z.eqb_spec (zlen (groups f ++ b4)) 16); [|done]. injection Hres as <-. unfold shown. rewrite <-join_snoc.
    apply text6_full; [by apply groups_ipv4|done].
Qed.

Lemma parse_sound name out :
  zlen out = 16 → ipaddr6_parse_ipv6_addr_bin name out ≠ None ∧ ∀ b, ipaddr6_parse_ipv6_addr_bin name out = mret b → text6 name b.
Proof.
  intros Ho. rewrite parse_scan. pose proof (inv_start out Ho) as Hv0.
  destruct (scan_sound (length name) name [] None [] _ (le_n _) Hv0) as [E|(stop & s' & f & r & cur & E & Hv & En & Hst)];
    rewrite bool_decide_eq_true_2 in E by done; rewrite E; [done|]. cbn [mbind P_bind mret P_ret fst snd]. cbn [shown sep fmap list_fmap concat app] in En.
  destruct Hst as [->|(rest & ->)].
  - cbn [default] in En. rewrite app_nil_r in En. subst name. split; [|intros b; by apply sound_hex]. rewrite (ending_hex f r cur s' Hv). repeat case_match; done.
  - change (default [] (Some (46 :: rest))) with (46 :: rest) in En. rewrite En. replace (zlen (shown f r cur ++ 46 :: rest) - zlen (46 :: rest)) with (zlen (shown f r cur)) by (rewrite zlen_app; lia).
    split; [apply (proj1 (ending_ipv4 f r cur s' rest Hv))|]. intros b. by apply sound_ipv4.
Qed.

Lemma head_digit w rest : w ≠ [] → forallb hdigit w = true → hd_error (w ++ rest) ≠ Some 58.
Proof. destruct w as [|c w]; [done|]. cbn. intros _ [Hc _]%andb_true_iff [=]. apply hdigit_char in Hc. lia. Qed.

Lemma ddigit_hdigit w : forallb ddigit w = true → forallb hdigit w = true ∧ (zlen w <= 3 → hvalue w <= 4095).
Proof.
  intros Hd. assert (forallb hdigit w = true) as Hh.
  { apply forallb_forall. intros c Hc. rewrite forallb_forall in Hd. apply Hd, ddigit_spec in Hc.
    assert (hex_value c = c - 48) as E by (rewrite <-decode_hex_ok; unfold decode_hex_digit; by zdec). unfold is_digit. rewrite E. by zdec. }
  split; [done|]. intros Hl. pose proof (numeral_value_range 16 hex_value ltac:(lia) w ltac:(by rewrite Hh)).
  pose proof (Z.pow_le_mono_r 16 (zlen w) 3 ltac:(lia) Hl). change (16 ^ 3) with 4096 in *. lia.
Qed.

(** Groups up to the end of the text, from a state between groups. *)
Lemma scan_groups_hex ws w b f r s :
  inv f r [] s → Forall hex_word ws → hex_word w → num_blocks s + zlen ws <= 7 →
  ∃ s', scan (sep ws ++ w) b s = mret (None, s') ∧ inv (push_all f r ws).1 (push_all f r ws).2 w s'.
Proof.
  intros Hv Hws (Hw1 & Hw2 & Hw3) Hn.
  destruct (scan_sep ws w b f r s Hv Hws Hn) as (s1 & E1 & Hs1); [rewrite <-(app_nil_r w); by apply head_digit|].
  destruct (scan_word w [] (b && bool_decide (ws = [])) _ _ [] s1 Hs1 Hw2 Hw3) as (s2 & E2 & Hs2). rewrite app_nil_r in E2.
  exists s2. by rewrite E1, E2.
Qed.

Lemma scan_groups_ipv4 ws b4 b f r s :
  inv f r [] s → Forall hex_word ws → bytes b4 → length b4 = 4%nat → num_blocks s + zlen ws <= 7 →
  ∃ s' cur rest, scan (sep ws ++ print_bytes b4) b s = mret (Some (46 :: rest), s') ∧ inv (push_all f r ws).1 (push_all f r ws).2 cur s' ∧
    cur ≠ [] ∧ print_bytes b4 = cur ++ 46 :: rest.
Proof.
  intros Hv Hws Hb Hl Hn. destruct b4 as [|b0 [|b1 [|b2 [|b3 [|]]]]]; try done. apply Forall_cons in Hb as [Hb _].
  destruct (dec_word_decimal b0 Hb) as [Hd Hvd]. pose proof (dec_word_short _ Hd) as Hsh. destruct Hd as [(Hd1 & Hd2 & _) _].
  destruct (ddigit_hdigit _ Hd2) as [Hh Hhv]. unfold print_bytes. cbn [app].
  set (rest := decimal b1 ++ _). set (w := decimal b0) in *.
  destruct (scan_sep ws (w ++ 46 :: rest) b f r s Hv Hws Hn) as (s1 & E1 & Hs1); [by apply head_digit|].
  destruct (scan_word w (46 :: rest) (b && bool_decide (ws = [])) _ _ [] s1 Hs1 Hh) as (s2 & E2 & Hs2); [cbn [app]; specialize (Hhv Hsh); lia|].
  exists s2, w, rest. split_and!; [|done..]. rewrite E1, E2. done.
Qed.

Lemma shown_push_all f r ws t : shown (push_all f r ws).1 (push_all f r ws).2 t = shown f r [] ++ sep ws ++ t.
Proof.
  assert (∀ l1 l2, sep (l1 ++ l2) = sep l1 ++ sep l2) as Hs by (intros; unfold sep; by rewrite fmap_app, concat_app).
  unfold shown, push_all. destruct r; cbn [fst snd]; by rewrite Hs, ?app_nil_r, <-!app_assoc.
Qed.
Lemma push_all_words f r ws : (push_all f r ws).1 ++ default [] (push_all f r ws).2 = (f ++ default [] r) ++ ws.
Proof. unfold push_all. destruct r; cbn; by rewrite ?app_nil_r, ?app_assoc. Qed.

(** The two ends of the text, from such a state. *)
Lemma parse_groups text bs b f (r : option (list (list Z))) s name :
  inv f r [] s → groups_text text bs → 2 * num_blocks s + zlen bs <= 16 → (r = None ∧ f = [] ∧ zlen bs = 16) ∨ r = Some [] → name = shown f r [] ++ text →
  (x ← scan text b s;
   match x.1 with
   | None => s ← last_block x.2; finish s
   | Some rest => s ← ipv4_ending name (zlen name - zlen rest) x.2; finish s
   end)
  = mret (groups f ++ replicate (16 - length (groups f) - length bs) 0 ++ bs).
Proof.
  intros Hv Ht Hlen Hr Hname. assert (∀ ws, push_all f r ws = match r with None => (ws, None) | Some _ => (f, Some ws) end) as Hpush
    by (intros ws; unfold push_all; destruct Hr as [(-> & -> & _)| ->]; done).
  destruct Ht as [ws Hne Hws|ws b4 Hws Hb Hl4].
  - destruct (exists_last Hne) as (ws' & w & ->). apply Forall_app in Hws as [Hws' Hw]. apply Forall_cons in Hw as [Hw _].
    rewrite zlen_groups, zlen_app in Hlen. change (zlen [w]) with 1 in Hlen. rewrite join_snoc.
    destruct (scan_groups_hex ws' w b f r s Hv Hws' Hw ltac:(lia)) as (s' & -> & Hs'). cbn [mbind P_bind mret P_ret fst snd].
    rewrite (ending_hex _ _ _ _ Hs'), Hpush, bool_decide_eq_false_2 by apply Hw.
    destruct Hr as [(-> & -> & H16)| ->]; cbn [fst snd]; [|done]. rewrite H16, Z.eqb_refl. cbn [groups fmap list_fmap concat app length]. 
    replace (16 - 0 - _)%nat with O by (unfold zlen in H16; lia). done.
  - rewrite zlen_app, zlen_groups in Hlen. assert (zlen b4 = 4) as Hz4 by (unfold zlen; lia). rewrite join_snoc in *.
    destruct (scan_groups_ipv4 ws b4 b f r s Hv Hws Hb Hl4 ltac:(lia)) as (s' & cur & rest & -> & Hs' & Hc & Ep). cbn [mbind P_bind mret P_ret fst snd].
    assert (name = shown (push_all f r ws).1 (push_all f r ws).2 cur ++ 46 :: rest) as -> by (rewrite shown_push_all, <-!app_assoc, <-Ep; exact Hname).
    replace (zlen (_ ++ 46 :: rest) - zlen (46 :: rest)) with (zlen (shown (push_all f r ws).1 (push_all f r ws).2 cur)) by (rewrite zlen_app; lia).
    apply (proj2 (ending_ipv4 _ _ cur s' rest Hs')). exists b4. pose proof (zlen_nonneg ws). rewrite <-(iv_num _ _ _ _ Hs').
    assert (num_blocks s' = num_blocks s + zlen ws) as ->.
    { rewrite (iv_num _ _ _ _ Hs'), (iv_num _ _ _ _ Hv), push_all_words, zlen_app. done. }
    rewrite Hpush. split_and!; [done| |lia|done..| ].
    + destruct Hr as [(-> & -> & H16)| ->]; cbn [fst snd]; [left|by right]. intros ->. rewrite zlen_app in H16. change (zlen (groups [])) with 0 in H16. lia.
    + unfold ipv4_result. destruct Hr as [(-> & -> & H16)| ->]; cbn [fst snd]; [|done]. rewrite H16, Z.eqb_refl. cbn [groups fmap list_fmap concat app length].
      replace (16 - 0 - _)%nat with O by (unfold zlen in H16; lia). done.
Qed.

Lemma parse_complete name out b : zlen out = 16 → text6 name b → ipaddr6_parse_ipv6_addr_bin name out = mret b.
Proof.
  intros Ho Ht. rewrite parse_scan. pose proof (inv_start out Ho) as Hv0. destruct Ht as [name b Hg Hl|ws Hws Hn|ws text rear Hws Hn Hg Hl].
  - rewrite (parse_groups name b true [] None _ name Hv0 Hg) by (cbn; auto; lia). cbn [groups fmap list_fmap concat app length].
    replace (16 - 0 - _)%nat with O by (unfold zlen in Hl; lia). done.
  - destruct (scan_front ws [] _ Hv0 Hws Hn) as (s' & -> & Hs'). cbn [scan mbind P_bind mret P_ret fst snd]. by rewrite (ending_hex _ _ _ _ Hs').
  - destruct (scan_front ws text _ Hv0 Hws Hn) as (s' & E & Hs'). cbn [app] in *. rewrite E.
    apply (parse_groups text rear false ws (Some []) s' _ Hs' Hg); [|by right|].
    + rewrite (iv_num _ _ _ _ Hs'). change (default [] (Some [])) with (@nil (list Z)). rewrite app_nil_r. rewrite zlen_groups in Hl. lia.
    + rewrite shown_join. cbn [sep fmap list_fmap concat app]. by rewrite <-app_assoc.
Qed.
