(* ===== verification/AddrText6Print.v ===== *)
(** * Printing IPv6 addresses, masks of IPv6 networks

    The run of zeros that is printed as [::] is the first longest one; what is
    printed is read back and fits the buffers; prefixes and masks; whether two
    addresses are in a network is whether they agree under its mask.  The
    properties of numbers and addresses as text. *)

From stdpp Require Import strings.
From S2P Require Import Prelude Net AddrText AddrTextOk AddrText6.
Import ParseNumber IpAddr IpAddr6.

(** ** Groups as text *)
Lemma hex_ok x : 0 <= x <= 65535 → hex_word (hex x) ∧ hvalue (hex x) = x ∧ zlen (hex x) <= 4.
Proof.
  intros Hx. unfold hex. destruct (digits_ok 16 hex_value ltac:(lia) dec_hex 15 x) as [Hd Hv].
  { change (16 ^ Z.of_nat 16) with 18446744073709551616. lia. }
  pose proof (digits_length 16 ltac:(lia) 15 x 3 ltac:(change (16 ^ Z.of_nat 4) with 65536; lia)) as Hl.
  split_and!; [|done|lia]. split_and!; [intros E; rewrite E in Hl; zlia|done|lia].
Qed.

Lemma block_bytes x y : is_u8 x → is_u8 y →
  let v := Z.lor (Z.shiftl x 8) y in 0 <= v <= 65535 ∧ Z.shiftr v 8 = x ∧ Z.land v 255 = y.
Proof.
  intros Hx Hy v. unfold is_u8, UINT8_MAX in *.
  assert (v = x * 256 + y) as ->.
  { unfold v. rewrite Z.shiftl_mul_pow2 by lia. change (2 ^ 8) with 256. pose proof (Z.add_lor_land (x * 256) y) as E.
    assert (Z.land (x * 256) y = 0); [|lia]. clear E. apply Z.bits_inj'. intros n Hn. rewrite Z.land_spec, Z.bits_0.
    destruct (Z.lt_ge_cases n 8); [change 256 with (2 ^ 8); by rewrite Z.mul_pow2_bits_low|].
    rewrite (Z.bits_above_log2 y), andb_false_r; [done|lia|]. destruct (decide (y = 0)) as [->|]; [cbn; lia|].
    apply Z.log2_lt_pow2; [lia|]. pose proof (Z.pow_le_mono_r 2 8 n ltac:(lia) ltac:(lia)). change (2 ^ 8) with 256 in *. lia. }
  split; [lia|]. rewrite Z.shiftr_div_pow2 by lia. change 255 with (Z.ones 8). rewrite Z.land_ones by lia. change (2 ^ 8) with 256.
  rewrite Z.div_add_l, Z.div_small by lia. split; [lia|]. rewrite Z.add_comm, Z.mod_add, Z.mod_small; lia.
Qed.

Definition words (a : list Z) (l : list nat) : list (list Z) := (λ i, hex (block_at a i)) <$> l.

Lemma nth_pair a i : (2 * i + 1 < length a)%nat → take 2 (drop (2 * i) a) = [nth (2 * i) a 0; nth (2 * i + 1) a 0].
Proof.
  intros Hi. pose proof (length_drop a (2 * i)) as Hd.
  assert (∀ k, nth (2 * i + k) a 0 = nth k (drop (2 * i) a) 0) as Hnth.
  { intros k. rewrite <-(take_drop (2 * i) a) at 1. rewrite app_nth2 by (rewrite length_take; lia). f_equal. rewrite length_take. lia. }
  pose proof (Hnth O) as H0. rewrite Nat.add_0_r in H0. rewrite H0, (Hnth 1%nat).
  destruct (drop (2 * i) a) as [|x [|y rest]]; cbn [length] in Hd; try lia. done.
Qed.

Lemma word_ok a i : bytes a → (2 * i + 1 < length a)%nat →
  hex_word (hex (block_at a i)) ∧ group (hex (block_at a i)) = take 2 (drop (2 * i) a) ∧ zlen (hex (block_at a i)) <= 4.
Proof.
  intros Hb Hi. pose proof (length_drop a (2 * i)) as Hd. pose proof (Forall_drop _ (2 * i) _ Hb) as Hbd. unfold block_at.
  pose proof (nth_pair a i Hi) as Hnth. set (j := (2 * i)%nat) in *. clearbody j.
  destruct (drop j a) as [|x [|y rest]]; cbn [length] in Hd; try lia. cbn [take] in *. injection Hnth as <- <-. apply Forall_cons in Hbd as [Hx Hbd]. apply Forall_cons in Hbd as [Hy _].
  destruct (block_bytes x y Hx Hy) as (Hv & Hs & Hl). destruct (hex_ok _ Hv) as (Hw & Ev & Hz). split_and!; try done.
  unfold group. by rewrite Ev, Hs, Hl.
Qed.

Lemma words_ok a s n : bytes a → (2 * (s + n) <= length a)%nat →
  Forall hex_word (words a (seq s n)) ∧ groups (words a (seq s n)) = take (2 * n) (drop (2 * s) a).
Proof.
  intros Hb. revert s. induction n as [|n IH]; intros s Hl; [done|]. destruct (IH (S s) ltac:(lia)) as [H1 H2].
  change (words a (seq s (S n))) with (hex (block_at a s) :: words a (seq (S s) n)).
  destruct (word_ok a s Hb ltac:(lia)) as (Hw & Hg & _). split; [by constructor|].
  change (groups (hex (block_at a s) :: words a (seq (S s) n))) with (group (hex (block_at a s)) ++ groups (words a (seq (S s) n))).
  rewrite Hg, H2. replace (2 * S s)%nat with (2 * s + 2)%nat by lia. rewrite <-drop_drop. replace (2 * S n)%nat with (2 + 2 * n)%nat by lia.
  by rewrite take_take_drop.
Qed.

(** ** The longest run of zeros *)
Definition run (z : list bool) (s l : nat) : bool := forallb id (take l (drop s z)) && (s + l <=? length z)%nat.
(** [s] is the start of the first longest run, of length [l]. *)
Definition first_longest (z : list bool) (s l : nat) : bool :=
  run z s l && forallb (λ s', forallb (λ l', negb (run z s' l') || (l' <? l)%nat || (l' =? l)%nat && ((l' =? 0)%nat || (s <=? s')%nat)) (seq 0 9)) (seq 0 9).

Lemma longest_checked (z : list bool) :
  length z = 8%nat → let '(s, l) := longest_loop z 0 0 0 0 0 in 0 <= s ∧ 0 <= l ∧ first_longest z (Z.to_nat s) (Z.to_nat l) = true.
Proof.
  intros Hl. do 8 (destruct z as [|[|] z]; [done| |]); try (cbn in Hl; lia); (destruct z; [by vm_compute|cbn in Hl; lia]).
Qed.

Lemma concat_colon w ws : concat ((λ w, 58 :: w) <$> (w :: ws)) = 58 :: join 58 (w :: ws).
Proof. revert w. induction ws as [|w' ws IH]; intros w; [cbn; by rewrite app_nil_r|]. specialize (IH w'). cbn in IH |- *. by rewrite IH. Qed.

Lemma sep_join ws : ws ≠ [] → sep ws = join 58 ws ++ [58].
Proof. intros Hn. destruct (exists_last Hn) as (f & w & ->). by rewrite sep_snoc, join_snoc, app_assoc. Qed.

(** The text with a [::], as the groups before it and after it. *)
Lemma print_compressed (front rear : list (list Z)) :
  sep front ++ (if bool_decide (front = []) then [58] else []) ++ concat ((λ w, 58 :: w) <$> rear) ++ (if bool_decide (rear = []) then [58] else [])
  = join 58 front ++ [58; 58] ++ join 58 rear.
Proof.
  assert (concat ((λ w, 58 :: w) <$> rear) ++ (if bool_decide (rear = []) then [58] else []) = 58 :: join 58 rear) as ->.
  { destruct rear as [|w rear]; [done|]. by rewrite concat_colon, bool_decide_eq_false_2, app_nil_r by done. }
  case_bool_decide as Hf; [by subst|]. rewrite sep_join by done. by rewrite <-app_assoc.
Qed.

Lemma zeros_run a s l :
  length a = 16%nat → (s + l <= 8)%nat → forallb (zero_block a) (seq s l) = true → take (2 * l) (drop (2 * s) a) = replicate (2 * l) 0.
Proof.
  intros Ha. revert s. induction l as [|l IH]; intros s Hs Hz; [done|]. cbn [seq forallb] in Hz. apply andb_true_iff in Hz as [Hz1 Hz2].
  replace (2 * S l)%nat with (2 + 2 * l)%nat by lia. rewrite <-take_take_drop, drop_drop.
  replace (2 * s + 2)%nat with (2 * S s)%nat by lia. rewrite IH by (try done; lia). rewrite nth_pair by lia.
  unfold zero_block in Hz1. zb. by rewrite H, H0.
Qed.

Lemma run_blocks a s l : run (zero_block a <$> seq 0 8) s l = true → (s + l <= 8)%nat ∧ forallb (zero_block a) (seq s l) = true.
Proof.
  unfold run. intros [Hr Hsl]%andb_true_iff. apply Nat.leb_le in Hsl. rewrite length_fmap, length_seq in Hsl. split; [done|].
  rewrite <-fmap_drop, <-fmap_take, drop_seq, take_seq in Hr. replace (l `min` (8 - s))%nat with l in Hr by lia.
  rewrite forallb_forall in Hr |- *. intros i Hi. apply (Hr (zero_block a i)). apply list_elem_of_In, list_elem_of_fmap. exists i. split; [done|]. by apply list_elem_of_In.
Qed.

Lemma print_full a :
  hex (block_at a 0) ++ concat ((λ i, 58 :: hex (block_at a i)) <$> seq 1 7) = join 58 (words a (seq 0 8)).
Proof.
  cbn [seq words fmap list_fmap concat join app]. by rewrite app_nil_r.
Qed.

Lemma print_parts a ns ne (b1 b2 : bool) :
  (b1 = true ↔ ns = O) → (b2 = true ↔ (8 <= ne)%nat) →
  concat ((λ i, hex (block_at a i) ++ [58]) <$> seq 0 ns) ++ (if b1 then [58] else []) ++
  concat ((λ i, 58 :: hex (block_at a i)) <$> seq ne (8 - ne)) ++ (if b2 then [58] else [])
  = join 58 (words a (seq 0 ns)) ++ [58; 58] ++ join 58 (words a (seq ne (8 - ne))).
Proof.
  intros H1 H2. rewrite <-print_compressed. unfold sep, words. rewrite <-!list_fmap_compose. f_equal. f_equal; [|f_equal].
  - destruct b1; [by rewrite (proj1 H1) by done|]. destruct ns; [by discriminate (proj2 H1 eq_refl)|done].
  - destruct b2.
    + replace (8 - ne)%nat with O by (pose proof (proj1 H2 eq_refl); lia). done.
    + destruct (8 - ne)%nat eqn:E; [|done]. assert (false = true) by (apply H2; lia). done.
Qed.

Lemma print_text6 a : bytes a → length a = 16%nat → text6 (ipaddr6_print_addr a) a.
Proof.
  intros Hb Ha. unfold ipaddr6_print_addr. pose proof (longest_checked (zero_block a <$> seq 0 8) ltac:(done)) as Hr.
  destruct (longest_loop _ 0 0 0 0 0) as [s l]. destruct Hr as (Hs & Hl & Hr). unfold first_longest in Hr. apply andb_true_iff in Hr as [Hr _].
  apply run_blocks in Hr as [Hsl Hz]. case_if.
  - apply zeros_run in Hz; [|done..]. set (ns := Z.to_nat s) in *. set (nl := Z.to_nat l) in *.
    replace (Z.to_nat (s + l)) with (ns + nl)%nat by lia. set (ne := (ns + nl)%nat) in *.
    destruct (words_ok a 0 ns Hb ltac:(lia)) as [Hf Ef]. destruct (words_ok a ne (8 - ne) Hb ltac:(lia)) as [Hw Ew].
    rewrite drop_0 in Ef. rewrite (take_ge (drop (2 * ne) a)) in Ew by (rewrite length_drop; lia).
    assert (a = take (2 * ns) a ++ replicate (2 * nl) 0 ++ drop (2 * ne) a) as Ea.
    { rewrite <-Hz. replace (2 * ne)%nat with (2 * ns + 2 * nl)%nat by lia. by rewrite <-drop_drop, !take_drop. }
    assert (zlen (words a (seq 0 ns)) <= 7) as Hn7 by (unfold zlen, words; rewrite length_fmap, length_seq; lia).
    rewrite (print_parts a ns ne (s =? 0) (s + l =? 8)) by (try lia; destruct (Z.eqb_spec s 0), (Z.eqb_spec (s + l) 8); cbn; lia).
    destruct (decide (ne = 8%nat)) as [E8|E8].
    + rewrite E8, Nat.sub_diag. change (join 58 (words a (seq 8 0))) with (@nil Z). rewrite app_nil_r.
      pose proof (text6_end _ Hf Hn7) as Ht. rewrite Ef in Ht. rewrite Ea at 2. rewrite (drop_ge a) by lia. rewrite app_nil_r.
      rewrite length_take in Ht. replace (2 * nl)%nat with (16 - (2 * ns) `min` length a)%nat by lia. exact Ht.
    + pose proof (text6_mid _ (join 58 (words a (seq ne (8 - ne)))) (groups (words a (seq ne (8 - ne)))) Hf Hn7) as Ht. rewrite Ef in Ht.
      rewrite Ea at 3. rewrite <-Ew.
      replace (2 * nl)%nat with (16 - length (take (2 * ns) a) - length (groups (words a (seq ne (8 - ne)))))%nat
        by (rewrite Ew, length_take, length_drop; lia).
      apply Ht; [apply groups_hex; [|done]|rewrite Ew; unfold zlen; rewrite length_take, length_drop; lia].
      destruct (8 - ne)%nat eqn:E; [lia|done].
  - rewrite print_full. destruct (words_ok a 0 8 Hb ltac:(lia)) as [Hf Ef]. rewrite drop_0, take_ge in Ef by lia. rewrite <-Ef at 2.
    apply text6_full; [|rewrite Ef; unfold zlen; lia]. by apply groups_hex.
Qed.

(** ** The texts fit the buffers *)
Lemma zlen_concat (ws : list (list Z)) k : Forall (λ w, zlen w <= k) ws → zlen (concat ws) <= k * zlen ws.
Proof. induction 1 as [|w ws Hw _ IH]; [change (zlen (@nil (list Z))) with 0; change (zlen (concat [])) with 0; lia|]. cbn [concat]. rewrite zlen_app, zlen_cons. lia. Qed.

Lemma zlen_words (g : nat → list Z) s n : (∀ i, (s <= i < s + n)%nat → zlen (g i) <= 5) → zlen (concat (g <$> seq s n)) <= 5 * Z.of_nat n.
Proof.
  intros Hg. pose proof (zlen_concat (g <$> seq s n) 5) as H. unfold zlen at 3 in H. rewrite length_fmap, length_seq in H. apply H.
  apply Forall_fmap, Forall_seq. intros i Hi. cbn. by apply Hg.
Qed.

Lemma print6_length a : bytes a → length a = 16%nat → zlen (ipaddr6_print_addr a) <= 39.
Proof.
  intros Hb Ha. unfold ipaddr6_print_addr. pose proof (longest_checked (zero_block a <$> seq 0 8) ltac:(done)) as Hr.
  destruct (longest_loop _ 0 0 0 0 0) as [s l]. destruct Hr as (Hs & Hl & Hr). unfold first_longest in Hr. apply andb_true_iff in Hr as [Hr _].
  apply run_blocks in Hr as [Hsl _].
  assert (∀ i, (i < 8)%nat → zlen (hex (block_at a i)) <= 4) as Hw by (intros i Hi; apply (word_ok a i Hb); lia).
  assert (∀ s n, (s + n <= 8)%nat → zlen (concat ((λ i, hex (block_at a i) ++ [58]) <$> seq s n)) <= 5 * Z.of_nat n) as H1.
  { intros s' n Hn. apply zlen_words. intros i Hi. rewrite zlen_app. specialize (Hw i ltac:(lia)). change (zlen [58]) with 1. lia. }
  assert (∀ s n, (s + n <= 8)%nat → zlen (concat ((λ i, 58 :: hex (block_at a i)) <$> seq s n)) <= 5 * Z.of_nat n) as H2.
  { intros s' n Hn. apply zlen_words. intros i Hi. rewrite zlen_cons. specialize (Hw i ltac:(lia)). lia. }
  case_if.
  - rewrite !zlen_app. specialize (H1 O (Z.to_nat s) ltac:(lia)). specialize (H2 (Z.to_nat (s + l)) (8 - Z.to_nat (s + l))%nat ltac:(lia)).
    assert (∀ b : bool, zlen (if b then [58] else []) <= 1) as H3 by (intros []; done). pose proof (H3 (s =? 0)). pose proof (H3 (s + l =? 8)). lia.
  - rewrite zlen_app. specialize (H2 1%nat 7%nat ltac:(lia)). specialize (Hw O ltac:(lia)). lia.
Qed.

Lemma print4_length bs : bytes bs → zlen (print_bytes bs) <= 15.
Proof.
  intros Hb. destruct bs as [|b0 [|b1 [|b2 [|b3 [|]]]]]; unfold print_bytes; try done. repeat (apply Forall_cons in Hb as [? Hb]).
  assert (∀ b, is_u8 b → zlen (decimal b) <= 3) as Hd by (intros b ?; apply dec_word_short, dec_word_decimal; done).
  rewrite !zlen_app. change (zlen [46]) with 1. pose proof (Hd b0 ltac:(done)). pose proof (Hd b1 ltac:(done)). pose proof (Hd b2 ltac:(done)). pose proof (Hd b3 ltac:(done)). lia.
Qed.

Lemma decimal_length x k : 0 <= x < 10 ^ Z.of_nat (S k) → zlen (decimal x) <= Z.of_nat (S k).
Proof. intros Hx. apply (digits_length 10 ltac:(lia) 19 x k Hx). Qed.

(** ** Addresses with prefixes *)
Lemma groups_text_chars text bs c : groups_text text bs → hdigit c = false → c ≠ 46 → c ≠ 58 → c ∉ text.
Proof.
  assert (∀ ws c, c ≠ 58 → Forall (λ w, c ∉ w) ws → c ∉ join 58 ws) as Hj.
  { intros ws c' Hc. induction 1 as [|w ws Hw Hws IH]; [apply not_elem_of_nil|]. destruct ws; [done|].
    cbn [join] in *. rewrite not_elem_of_app, not_elem_of_cons. done. }
  assert (∀ ws c, hdigit c = false → Forall hex_word ws → Forall (λ w, c ∉ w) ws) as Hh.
  { intros ws c' Hc Hws. apply (Forall_impl _ _ _ Hws). intros w (_ & Hd & _) Hin. rewrite forallb_forall in Hd. apply list_elem_of_In, Hd in Hin. congruence. }
  intros Ht Hc H46 H58. destruct Ht as [ws _ Hw|ws b4 Hw Hb Hl]; apply Hj; auto.
  apply Forall_app_2; [by apply Hh|]. constructor; [|done]. apply print_bytes_chars; [done|].
  destruct (Z.lt_ge_cases 57 c); [by left|]. right. split; [|done]. apply not_true_iff_false in Hc.
  destruct (Z.lt_ge_cases c 48); [done|]. exfalso. apply Hc.
  assert (hex_value c = c - 48) as E by (rewrite <-decode_hex_ok; unfold decode_hex_digit; by zdec). unfold is_digit. rewrite E. by zdec.
Qed.

Lemma text6_no_slash name b : text6 name b → 47 ∉ name.
Proof.
  assert (∀ ws, Forall hex_word ws → 47 ∉ join 58 ws) as Hj.
  { intros [|w ws] Hw; [apply not_elem_of_nil|]. by apply (groups_text_chars _ (groups (w :: ws))); [constructor|..]. }
  intros [name' b' Hg _|ws Hw _|ws text rear Hw _ Hg _]; [by apply (groups_text_chars _ _ _ Hg)| |];
    rewrite ?not_elem_of_app, ?not_elem_of_cons; split_and!; auto using not_elem_of_nil; by apply (groups_text_chars _ _ _ Hg).
Qed.

Lemma ipv6_roundtrip a out : bytes a → length a = 16%nat → zlen out = 16 → ipaddr6_parse_ipv6_addr_bin (ipaddr6_print_addr a) out = mret a.
Proof. intros Hb Ha Ho. by apply parse_complete, print_text6. Qed.

Lemma ipv6_ifaddr_roundtrip a p text out :
  bytes a → length a = 16%nat → zlen out = 16 → ipaddr6_print_ifaddr a p = Some text →
  ipaddr6_parse_ipv6_ifaddr_bin text out = mret (a, p) ∧ zlen text < IPADDR6_PRINT_MAX.
Proof.
  intros Hb Ha Ho. unfold ipaddr6_print_ifaddr. case_if; [|done].
  pose proof (text6_no_slash _ _ (print_text6 a Hb Ha)) as Hc. pose proof (ipv6_roundtrip a out Hb Ha Ho) as Ep. pose proof (print6_length a Hb Ha) as Hl.
  set (t := ipaddr6_print_addr a) in *. clearbody t. intros Et. apply (inj Some) in Et. subst text. cbn [app].
  split; [|pose proof (decimal_length p 2 ltac:(change (10 ^ Z.of_nat 3) with 1000; lia)); unfold IPADDR6_PRINT_MAX; zlia].
  unfold ipaddr6_parse_ipv6_ifaddr_bin. rewrite find_char_app, take_app_length, Ep by done. cbn [mbind P_bind mret P_ret].
  rewrite drop_app_ge, Nat.add_1_r by lia. replace (S _ - _)%nat with 1%nat by lia. rewrite skipn_cons, drop_0.
  unfold ipaddr6_parse_ipv6_prefix_bin. rewrite parse_decimal by (unfold UINTMAX_MAX; lia). cbn [mbind option_bind]. by zdec.
Qed.

(** ** Masks *)

(** The byte whose first [j] bits are set, and the mask of [p] bits of [n] bytes. *)
Definition mask_byte (j : Z) : Z := 256 - 2 ^ (8 - j).
Fixpoint mask_bytes (n : nat) (p : Z) : list Z :=
  match n with
  | O => []
  | S n' => if 8 <=? p then 255 :: mask_bytes n' (p - 8) else mask_byte p :: replicate n' 0
  end.

Lemma mask6_loop_byte j : 0 <= j <= 8 → mask6_loop (Z.to_nat j) 0 0 = mask_byte j.
Proof. intros Hj. assert (j = 0 ∨ j = 1 ∨ j = 2 ∨ j = 3 ∨ j = 4 ∨ j = 5 ∨ j = 6 ∨ j = 7 ∨ j = 8) as Hc by lia. by destruct_or! Hc; subst j. Qed.

Lemma mask6_ok p out :
  0 <= p <= 128 → zlen out = 16 → ipaddr6_ipv6_mask_from_prefix p out = mret (mask_bytes 16 p).
Proof.
  intros Hp Ho. assert (length out = 16%nat) as Hl by (unfold zlen in Ho; lia). clear Ho.
  do 16 (destruct out as [|? out]; [done|]). destruct out; [|done].
  assert (∃ n, (n < 129)%nat ∧ p = Z.of_nat n) as (n & Hn & ->) by (exists (Z.to_nat p); lia).
  do 129 (destruct n as [|n]; [by vm_compute|]). lia.
Qed.

Lemma bits_loop_byte b j : bits_loop 9 b 0 0 = Some j → 0 <= j <= 8 ∧ b = mask_byte j.
Proof.
  assert (bits_loop 9 b 0 0 = if b =? 0 then Some 0 else if b =? 128 then Some 1 else if b =? 192 then Some 2 else if b =? 224 then Some 3 else
    if b =? 240 then Some 4 else if b =? 248 then Some 5 else if b =? 252 then Some 6 else if b =? 254 then Some 7 else if b =? 255 then Some 8 else None) as ->
    by reflexivity.
  repeat case_if; intros [= <-]; subst; split; done || lia.
Qed.

Lemma bits_loop_mask j : 0 <= j <= 8 → bits_loop 9 (mask_byte j) 0 0 = Some j.
Proof. intros Hj. assert (j = 0 ∨ j = 1 ∨ j = 2 ∨ j = 3 ∨ j = 4 ∨ j = 5 ∨ j = 6 ∨ j = 7 ∨ j = 8) as Hc by lia. by destruct_or! Hc; subst j. Qed.

Lemma mask_byte_255 j : 0 <= j < 8 → mask_byte j ≠ 255.
Proof. intros Hj. assert (j = 0 ∨ j = 1 ∨ j = 2 ∨ j = 3 ∨ j = 4 ∨ j = 5 ∨ j = 6 ∨ j = 7) as Hc by lia. by destruct_or! Hc; subst j. Qed.

Lemma all_zero (l : list Z) : forallb (λ b, b =? 0) l = true ↔ l = replicate (length l) 0.
Proof.
  induction l as [|b l IH]; [done|]. cbn. rewrite andb_true_iff, IH, Z.eqb_eq. split; [intros [-> <-]; done|]. by intros [= -> E].
Qed.

Lemma full_loop_exact m acc q :
  full_loop m acc = Some q ↔ ∃ p, q = acc + p ∧ 0 <= p <= 8 * zlen m ∧ m = mask_bytes (length m) p.
Proof.
  revert acc. induction m as [|b m IH]; intros acc; cbn [full_loop length].
  - change (zlen (@nil Z)) with 0. split; [intros [= <-]; exists 0; split_and!; [lia..|done]|]. intros (p & -> & Hp & _). f_equal. lia.
  - rewrite zlen_cons. cbn [mask_bytes]. case_if.
    + subst b. rewrite IH. split.
      * intros (p & -> & Hp & E). exists (p + 8). zdec. replace (p + 8 - 8) with p by lia. rewrite <-E. split_and!; [lia..|done].
      * intros (p & -> & Hp & E). destruct (Z.leb_spec 8 p) as [H8|H8].
        -- exists (p - 8). injection E as E. split_and!; [lia..|done].
        -- injection E as E _. by destruct (mask_byte_255 p ltac:(lia)).
    + split.
      * destruct (bits_loop 9 b 0 0) as [j|] eqn:Ej; [|done]. cbn [mbind option_bind]. apply bits_loop_byte in Ej as [Hj Eb].
        destruct (forallb _ m) eqn:Hz; [|done]. intros [= <-]. apply all_zero in Hz.
        assert (j ≠ 8) by (intros ->; by rewrite Eb in Hif). exists j. zdec. rewrite <-Hz, <-Eb. pose proof (zlen_nonneg m). split_and!; [lia..|done].
      * intros (p & -> & Hp & E). destruct (Z.leb_spec 8 p) as [H8|H8]; [by injection E as E _|]. injection E as -> Ez.
        rewrite bits_loop_mask by lia. cbn [mbind option_bind]. by rewrite (proj2 (all_zero m) Ez).
Qed.

Lemma mask6_prefix_exact m p out :
  length m = 16%nat → zlen out = 16 →
  ipaddr6_ipv6_prefix_from_mask m = Some p ↔ ipaddr6_ipv6_mask_from_prefix p out = mret m.
Proof.
  intros Hm Ho. unfold ipaddr6_ipv6_prefix_from_mask. rewrite full_loop_exact, Hm. assert (zlen m = 16) as -> by (unfold zlen; lia). split.
  - intros (p' & -> & Hp & ->). by apply mask6_ok.
  - destruct (decide (0 <= p <= 128)) as [Hp|Hp].
    + rewrite mask6_ok by done. intros Em. apply (inj Some), (inj Some) in Em. exists p. symmetry in Em. split_and!; [lia..|done].
    + unfold ipaddr6_ipv6_mask_from_prefix. case_if; [done|lia].
Qed.

(** ** Networks *)
Definition masked (a : list Z) (p : Z) : list Z := zip_with Z.land a (mask_bytes (length a) p).

Lemma land_byte x : is_u8 x → Z.land x 255 = x.
Proof. unfold is_u8, UINT8_MAX. intros Hx. change 255 with (Z.ones 8). rewrite Z.land_ones by lia. apply Z.mod_small. change (2 ^ 8) with 256. lia. Qed.

Lemma zip_zeros (a : list Z) : zip_with Z.land a (replicate (length a) 0) = replicate (length a) 0.
Proof. induction a as [|x a IH]; [done|]. cbn. by rewrite Z.land_0_r, IH. Qed.

(** The two parts of the comparison, on lists of any length. *)
Definition net_equal (a b : list Z) (p : Z) : Prop :=
  memcmp (take (Z.to_nat (p / 8)) a) (take (Z.to_nat (p / 8)) b) = 0 ∧
  (p mod 8 = 0 ∨ Z.land (nth (Z.to_nat (p / 8)) a 0) (mask_byte (p mod 8)) = Z.land (nth (Z.to_nat (p / 8)) b 0) (mask_byte (p mod 8))).

Lemma net_masked a b p :
  bytes a → bytes b → length a = length b → 0 <= p <= 8 * zlen a → net_equal a b p ↔ masked a p = masked b p.
Proof.
  intros Ha. revert b p. induction Ha as [|x a Hx Ha IH]; intros b p Hb Hl Hp.
  { destruct b; [|done]. change (zlen (@nil Z)) with 0 in Hp. assert (p = 0) as -> by lia. by split; [|intros _; split; [|left]]. }
  destruct b as [|y b]; [done|]. apply Forall_cons in Hb as [Hy Hb]. injection Hl as Hl. rewrite zlen_cons in Hp.
  unfold masked. cbn [length mask_bytes]. rewrite <-Hl. destruct (Z.leb_spec 8 p) as [H8|H8]; cbn [zip_with].
  - specialize (IH b (p - 8) Hb Hl ltac:(lia)). unfold masked in IH. rewrite <-Hl in IH. rewrite !land_byte by done. unfold net_equal in *.
    assert (p / 8 = 1 + (p - 8) / 8) as Eq by (replace p with ((p - 8) + 1 * 8) at 1 by lia; rewrite Z.div_add by lia; lia).
    assert (p mod 8 = (p - 8) mod 8) as -> by (replace p with ((p - 8) + 1 * 8) at 1 by lia; by rewrite Z.mod_add by lia).
    assert (Z.to_nat (p / 8) = S (Z.to_nat ((p - 8) / 8))) as -> by (pose proof (Z.div_pos (p - 8) 8 ltac:(lia) ltac:(lia)); lia).
    cbn [take memcmp nth]. destruct (Z.eqb_spec x y) as [->|Hne].
    + rewrite IH. split; [by intros ->|by intros [= ->]].
    + unfold B_COMPARE. split; [repeat case_if; lia|by intros [=]].
  - unfold net_equal. rewrite Z.div_small, Z.mod_small by lia. change (Z.to_nat 0) with O. cbn [take memcmp nth]. rewrite zip_zeros, Hl, zip_zeros. split.
    + intros [_ [ -> | E ] ]; [|by rewrite E]. change (mask_byte 0) with 0. by rewrite !Z.land_0_r.
    + intros [= E]. auto.
Qed.

Lemma network6_ok a b p :
  bytes a → bytes b → length a = 16%nat → length b = 16%nat → 0 <= p <= 128 →
  ∃ r, ipaddr6_ipv6_addrs_in_network a b p = mret r ∧ (r = true ↔ masked a p = masked b p).
Proof.
  intros Ha Hb Hla Hlb Hp. pose proof (net_masked a b p Ha Hb ltac:(lia) ltac:(unfold zlen; lia)) as Hnet. setoid_rewrite <-Hnet. clear Hnet.
  unfold ipaddr6_ipv6_addrs_in_network, net_equal. rewrite (proj2 (Z.ltb_ge p 0)), Z.gtb_ltb, (proj2 (Z.ltb_ge 128 p)) by lia. cbn [orb].
  destruct (Z.eqb_spec (memcmp (take (Z.to_nat (p / 8)) a) (take (Z.to_nat (p / 8)) b)) 0) as [E|E]; cbn [negb]; [|exists false; split; [done|]; split; [done|tauto]].
  destruct (Z.eqb_spec (p mod 8) 0) as [E0|E0]; [exists true; split; [done|split; [by auto|done]]|].
  pose proof (Z.mod_pos_bound p 8 ltac:(lia)) as Hm. pose proof (Z.div_mod p 8 ltac:(lia)) as Hdm. pose proof (Z.div_pos p 8 ltac:(lia) ltac:(lia)).
  assert (∀ l, length l = 16%nat → char_at l (p / 8) = mret (nth (Z.to_nat (p / 8)) l 0)) as Hat.
  { intros l Hl. unfold char_at. rewrite (proj2 (Z.ltb_ge (p / 8) 0)) by lia.
    destruct (lookup_lt_is_Some_2 l (Z.to_nat (p / 8)) ltac:(lia)) as [x Ex]. rewrite Ex. by rewrite (nth_lookup_Some _ _ 0 _ Ex). }
  rewrite !Hat, mask6_loop_byte by lia. cbn [mbind P_bind mret P_ret]. eexists. split; [done|]. rewrite Z.eqb_eq. split; [auto|]. by intros [_ [?|?]].
Qed.

(** ** The inputs of [examples/ipaddr6_test.c] *)
Definition text_of (s : string) : list Z := (λ c, Z.of_N (Ascii.N_of_ascii c)) <$> String.list_ascii_of_string s.
Definition reads (s : string) (b : list Z) : bool := bool_decide (ipaddr6_parse_ipv6_addr_bin (text_of s) (replicate 16 7) = mret b).
Definition fails (s : string) : bool := bool_decide (ipaddr6_parse_ipv6_addr_bin (text_of s) (replicate 16 7) = refuse).
Definition prints (b : list Z) (s : string) : bool := bool_decide (ipaddr6_print_addr b = text_of s).

Example repository_tests :
  prints (replicate 15 0 ++ [1]) "::1" && prints (replicate 16 0) "::" &&
  prints ([32; 1; 13; 184; 0; 0; 0; 1; 0; 1; 0; 1; 0; 1; 0; 1]) "2001:db8:0:1:1:1:1:1" &&
  prints ([32; 1; 13; 184; 0; 0; 0; 0; 0; 1; 0; 0; 0; 0; 0; 1]) "2001:db8::1:0:0:1" &&
  reads "::abcd" (replicate 14 0 ++ [171; 205]) && reads "abcd:0123::" ([171; 205; 1; 35] ++ replicate 12 0) &&
  reads "4567:abcd:0123:1111:2222:3333:3210::" [69; 103; 171; 205; 1; 35; 17; 17; 34; 34; 51; 51; 50; 16; 0; 0] &&
  reads "04567:000abcd:00000123:01111:2222:03333:0003210:0dcba" [69; 103; 171; 205; 1; 35; 17; 17; 34; 34; 51; 51; 50; 16; 220; 186] &&
  reads "ff::0.2.3.4" ([0; 255] ++ replicate 11 0 ++ [2; 3; 4]) && reads "1:2:3:4:5:6:1.2.3.4" [0; 1; 0; 2; 0; 3; 0; 4; 0; 5; 0; 6; 1; 2; 3; 4] &&
  forallb fails [EmptyString; ":"; "a"; "a:b"; ":b"; "b:"; "1:2:3:4:5:6:7"; ":1:2:3:4:5:6:7"; "1:2:3:4:5:6:7:"; ":::"; "::a::"; "::a::b"; "c::a::b"; "c::a::";
    "10000::"; "1:2:3:4:5:6:7:8:9"; "1:2:3:4::5:6:7:8:9"; "::1:2:3:4:5:6:7:8:9"; "1:2:3:4:5:6:7:8:9::"; "a::b:"; ":a::b"; "::g"; "::1.2"; "::1.2.3.4.5";
    "::01.2.3.4"; "::1.2.3.04"; "::1.2.3.256"; "1.2.3.4"; "::8259.2.473.256"; "1:2:3:4:5:6:7:1.2.3.4"]%string = true.
Proof. by vm_compute. Qed.

(** ** Properties *)

(** C34: the readers of numbers accept exactly the non-empty texts of digits
    whose value fits 64 bits, and return that value, a digit having its place in
    0 to 9 and a to f (or A to F) as its value, although the decimal one finds
    overflow by comparing texts and then computes without checks; with a sign
    before it, also the sign is returned, 1 if there is none.  What the printers
    write in the computed size is the shortest such text, fills exactly that size
    of the buffer, with a zero behind it for a string, and is read back. *)
Theorem number_text_exact :
  (∀ str, parse_unsigned_integer_bin str
     = if negb (zlen str =? 0) && forallb ddigit str && (dvalue str <=? UINTMAX_MAX) then Some (dvalue str) else None) ∧
  (∀ str, parse_unsigned_hex_integer_bin str
     = if negb (zlen str =? 0) && forallb hdigit str && (hvalue str <=? UINTMAX_MAX) then Some (hvalue str) else None) ∧
  (∀ str, parse_signmag_integer_bin str
     = match str with
       | 43 :: t => pair 1 <$> unsigned_spec t
       | 45 :: t => pair (-1) <$> unsigned_spec t
       | _ => pair 1 <$> unsigned_spec str
       end) ∧
  (∀ x out, 0 <= x <= UINTMAX_MAX → compute_decimal_repr_size x <= zlen out →
     ∃ text, generate_decimal_repr x out (compute_decimal_repr_size x) = Some (blit 0 text out) ∧ zlen text = compute_decimal_repr_size x ∧
       (zlen text < zlen out → generate_decimal_repr_string x out = Some (blit 0 (text ++ [0]) out, zlen text)) ∧
       canonical text ∧ parse_unsigned_integer_bin text = Some x ∧
       ∀ str, parse_unsigned_integer_bin str = Some x → zlen text <= zlen str).
Proof.
  split_and!; [apply parse_unsigned_exact|apply parse_hex_exact|apply signmag_exact|].
  intros x out Hx Hl. destruct (generate_exact x out Hx Hl) as [Es Eg]. exists (decimal x). rewrite Es in *.
  destruct (decimal_ok x Hx) as (Hc & Hv & _). split_and!; [done..|by apply generate_string_exact|done|by apply parse_decimal|].
  intros str. rewrite parse_unsigned_exact. case_if; [|done]. intros [= E]. zb. apply (decimal_shortest str x); try done. by intros ->.
Qed.

(** [-ff] is not read, [-17] is, and so is [fF]. *)
Lemma number_text_exact_witness :
  (∃ text, generate_decimal_repr_string UINTMAX_MAX (replicate 22 0) = Some (blit 0 (text ++ [0]) (replicate 22 0), 20) ∧
    parse_unsigned_integer_bin text = Some UINTMAX_MAX) ∧
  parse_signmag_integer_bin [45; 49; 55] = Some (-1, 17) ∧ parse_unsigned_hex_integer_bin [102; 70] = Some 255.
Proof.
  destruct number_text_exact as (_ & Hh & Hs & H). destruct (H UINTMAX_MAX (replicate 22 0)) as (text & _ & Hl & Hstr & _ & Hp & _); [by vm_compute..|].
  assert (compute_decimal_repr_size UINTMAX_MAX = 20) as Es by (by vm_compute). rewrite Es in Hl. split_and!.
  - exists text. split; [|exact Hp]. rewrite <-Hl. apply Hstr. rewrite Hl. reflexivity.
  - rewrite Hs. reflexivity.
  - rewrite Hh. reflexivity.
Defined.

Lemma group_bytes w : hex_word w → bytes (group w).
Proof.
  intros (_ & Hd & Hv). pose proof (numeral_value_range 16 hex_value ltac:(lia) w ltac:(by rewrite Hd)) as [Hp _]. unfold group.
  rewrite Z.shiftr_div_pow2 by lia. change 255 with (Z.ones 8). rewrite Z.land_ones by lia. change (2 ^ 8) with 256.
  pose proof (Z.mod_pos_bound (hvalue w) 256 ltac:(lia)). pose proof (Z.div_pos (hvalue w) 256 Hp ltac:(lia)). pose proof (Z.div_lt_upper_bound (hvalue w) 256 256 ltac:(lia) ltac:(lia)).
  apply Forall_cons. split; [unfold is_u8, UINT8_MAX; lia|]. apply Forall_cons. split; [unfold is_u8, UINT8_MAX; lia|by apply Forall_nil].
Qed.

Lemma groups_bytes ws : Forall hex_word ws → bytes (groups ws).
Proof. induction 1 as [|w ws Hw _ IH]; [by apply Forall_nil|]. apply (bytes_app (group w)). split; [by apply group_bytes|exact IH]. Qed.

Lemma text6_bytes name b : text6 name b → zlen b = 16 ∧ bytes b.
Proof.
  assert (∀ text bs, groups_text text bs → bytes bs) as Hg.
  { intros text bs [ws _ Hw|ws b4 Hw Hb _]; [by apply groups_bytes|]. apply bytes_app. split; [by apply groups_bytes|done]. }
  assert (∀ n, bytes (replicate n 0)) as Hz by (intros n; apply Forall_replicate; unfold is_u8, UINT8_MAX; lia).
  intros [name' b' H Hl|ws Hw Hn|ws text rear Hw Hn H Hl].
  - split; [done|by eapply Hg].
  - pose proof (zlen_groups ws) as Hlg. split; [rewrite zlen_app; unfold zlen in *; rewrite length_replicate; lia|].
    apply bytes_app. split; [by apply groups_bytes|done].
  - split; [rewrite !zlen_app; unfold zlen in *; rewrite length_replicate; lia|].
    rewrite !bytes_app. split_and!; [by apply groups_bytes|done|by eapply Hg].
Qed.

(** C14: the reader of IPv6 addresses, which works in the result and goes back
    in the text when it meets a dot, never reads or writes outside the text
    and the 16 bytes of the result, for every text and every content of the
    result before; and it accepts exactly the texts of the grammar, with the
    bytes the grammar gives: groups of hexadecimal digits of 16 bits, at most
    one [::] for the zeros that are missing, an IPv4 address in decimal at the
    end for the last two groups. *)
Theorem ipv6_text_exact name out :
  zlen out = 16 →
  ∃ res, ipaddr6_parse_ipv6_addr_bin name out = Some res ∧ (∀ b, res = Some b ↔ text6 name b) ∧ (∀ b, res = Some b → zlen b = 16 ∧ bytes b).
Proof.
  intros Ho. destruct (parse_sound name out Ho) as [Hs Hex]. destruct (ipaddr6_parse_ipv6_addr_bin name out) as [res|] eqn:E; [|done].
  assert (∀ b, res = Some b ↔ text6 name b) as Hiff.
  { intros b. split; [intros ->; by apply Hex|]. intros Ht. rewrite (parse_complete name out b Ho Ht) in E. by injection E as <-. }
  exists res. split_and!; [done..|]. intros b Hb. apply Hiff in Hb. by eapply text6_bytes.
Qed.

(** [::ffff:1.2.3.4] *)
Lemma ipv6_text_exact_witness :
  text6 [58; 58; 102; 102; 102; 102; 58; 49; 46; 50; 46; 51; 46; 52] [0; 0; 0; 0; 0; 0; 0; 0; 0; 0; 255; 255; 1; 2; 3; 4].
Proof.
  destruct (ipv6_text_exact [58; 58; 102; 102; 102; 102; 58; 49; 46; 50; 46; 51; 46; 52] (replicate 16 7) eq_refl) as (res & E & Hex & _).
  apply Hex. assert (Some res = Some (Some [0; 0; 0; 0; 0; 0; 0; 0; 0; 0; 255; 255; 1; 2; 3; 4])) as Er by (rewrite <-E; by vm_compute). by injection Er.
Defined.

(** C33: an address with a prefix that is printed fits its buffer and is read
    back, for IPv4 and for every run of zeros of an IPv6 address; a mask gives
    exactly the prefix that gives the mask; two IPv6 addresses are in the same
    network exactly when they agree under its mask. *)
Theorem address_roundtrip :
  (∀ a p text, is_u32 a → ipaddr_print_ifaddr a p = Some text → ipaddr_parse_ipv4_ifaddr_bin text = Some (a, p) ∧ zlen text < IPADDR_PRINT_MAX) ∧
  (∀ a p text out, bytes a → length a = 16%nat → zlen out = 16 → ipaddr6_print_ifaddr a p = Some text →
     ipaddr6_parse_ipv6_ifaddr_bin text out = mret (a, p) ∧ zlen text < IPADDR6_PRINT_MAX) ∧
  (∀ m p, is_u32 m → ipaddr_ipv4_prefix_from_mask m = Some p ↔ ipaddr_ipv4_mask_from_prefix p = Some m) ∧
  (∀ m p out, length m = 16%nat → zlen out = 16 → ipaddr6_ipv6_prefix_from_mask m = Some p ↔ ipaddr6_ipv6_mask_from_prefix p out = mret m) ∧
  (∀ a b p out, bytes a → bytes b → length a = 16%nat → length b = 16%nat → zlen out = 16 → 0 <= p <= 128 →
     ∃ mask r, ipaddr6_ipv6_mask_from_prefix p out = mret mask ∧ ipaddr6_ipv6_addrs_in_network a b p = mret r ∧
       (r = true ↔ zip_with Z.land a mask = zip_with Z.land b mask)).
Proof.
  split_and!; [|apply ipv6_ifaddr_roundtrip|apply mask_prefix_exact|apply mask6_prefix_exact|].
  - intros a p text Ha Hp. split; [by apply ipv4_ifaddr_roundtrip|]. revert Hp. unfold ipaddr_print_ifaddr. case_if; [|done]. intros Hp.
    apply (inj Some) in Hp. subst text. pose proof (print4_length (le_bytes 4 a) (bytes_le_bytes 4 a)).
    pose proof (decimal_length p 1 ltac:(change (10 ^ Z.of_nat 2) with 100; lia)). rewrite !zlen_app. change (zlen [47]) with 1. unfold IPADDR_PRINT_MAX. lia.
  - intros a b p out Ha Hb Hla Hlb Ho Hp. destruct (network6_ok a b p Ha Hb Hla Hlb Hp) as (r & Er & Hr). exists (mask_bytes 16 p), r.
    unfold masked in Hr. rewrite Hla, Hlb in Hr. by rewrite mask6_ok.
Qed.

Lemma address_roundtrip_witness :
  ipaddr_parse_ipv4_ifaddr_bin [49; 48; 46; 48; 46; 48; 46; 49; 47; 56] = Some (16777226, 8) ∧
  ipaddr6_parse_ipv6_ifaddr_bin [102; 100; 58; 58; 49; 47; 54; 52] (replicate 16 7) = mret ([0; 253] ++ replicate 13 0 ++ [1], 64) ∧
  ipaddr_ipv4_prefix_from_mask 255 = Some 8.
Proof.
  destruct address_roundtrip as (H4 & H6 & Hm & _). split_and!.
  - apply (H4 16777226 8); by vm_compute.
  - apply (H6 ([0; 253] ++ replicate 13 0 ++ [1]) 64); [|by vm_compute..]. repeat (apply Forall_cons; split; [by vm_compute|]). by apply Forall_nil.
  - apply (Hm 255 8); by vm_compute.
Defined.
